(* ===== verification/_CoqProject ===== *)
-Q . S2P
Prelude.v
Effects.v
GoLib.v
Net.v
Glob.v
Policy.v
Shamir.v
Domain.v
Lockout.v
Cache.v
Resp.v
RateLimit.v
Seal.v
Crypto.v
Ttl.v
SqlAllow.v
DynamicRoles.v
Repos.v
AuditHelper.v
Tenant.v
TokenStore.v
Identity.v
PolicyService.v
Hcl.v
AppRole.v
AuthService.v
Gate.v
Router.v
Inject.v
SecretRepo.v
KVEngine.v
Leader.v
Config.v
Operator.v
Cubbyhole.v
Bootstrap.v
Entities.v
AppRoleRaft.v
Ldap.v
Wrapping.v
Credentials.v
Secrets.v
DatabaseEngine.v
SSHEngine.v
Leases.v
MasterKey.v
Transit.v
PkiEngine.v
Jobs.v
Exposure.v
Redact.v
AuditForward.v
AuditLog.v
Backup.v
Archive.v
RaftStore.v
RaftRepos.v
