(* ===== verification/Prelude.v ===== *)
(** * KNXVault: a verification library

    KNXVault (under src/) is a secrets manager and PKI server in Go. A request
    passes a gate that authenticates its token and authorizes it by policies,
    is handled by services and engines, and ends in repositories behind
    interfaces. The repositories are in-memory maps; in production a Raft state
    machine holds a set of them and replicates every write as a command. An
    audit log with a hash chain records what happens, snapshots of the state
    serve both as encrypted backups and as Raft snapshots, payloads are
    encrypted under data keys wrapped by a master key, and the vault stays
    sealed until the unseal key is presented. Around it are background jobs
    that run on an elected leader, a shared cache, and a Kubernetes operator
    that keeps certificates issued. This library models the routes and the
    gate, authentication and policies, sealing and cryptographic envelopes,
    every engine (KV, cubbyhole, database, SSH, transit, PKI) with its service,
    leases and wrapping, the domain entities and their validation, the
    repositories in memory and over Raft, the audit log, backups, the
    replicated store, the jobs and leader election, the cache, configuration,
    and the reconcilers of the operator.

    ** Files, in dependency order

    - [Prelude]: Go errors ([internal/domain/common/errors.go]) and the
      result monad, loops that stop at an error, shared lemmas and tactics.
    - [Effects]: programs over a state that survives an error, with the two
      notions most proofs use, [always R] and [preserves I].
    - [GoLib]: what the code uses of Go itself: [strings], [strconv], times and
      durations in nanoseconds, UUIDs, [any] values, sorting.
    - [Net]: networks and addresses: allow-lists ([internal/netutil]), the guard
      of outgoing requests ([internal/acme/ssrf.go]) and of unsealing.
    - [Glob]: the two resource matchers, [internal/domain/auth/policy.go] and
      [internal/auth/glob.go].
    - [Policy]: policies, ABAC conditions, include resolution and
      authorization ([internal/auth/evaluator.go], [rbac.go], [authz.go],
      [capabilities.go]); the RBAC state is a map from names to policies.
    - [Shamir]: secret sharing over GF(2^8) for the unseal shares
      ([internal/crypto/shamir/shamir.go]), with the field laws and the
      polynomial arguments it rests on.
    - [Domain]: the entities of [internal/domain] and their validation.
    - [Lockout]: the in-process tracker of failed logins
      ([internal/auth/lockout.go]) and its per-identity specification.
    - [Cache]: the cache store ([internal/cache/valkey.go]) with the interface
      [CacheStore], its laws while it answers [LawfulCache] and those of a
      server whose increments may fail [RemoteCounter], and the lockout that
      counts in it ([internal/auth/shared_lockout.go]).
    - [Resp]: the client of the cache server ([internal/cache/resp_client.go]),
      an instance of [RemoteCounter].
    - [RateLimit]: token buckets, the count by minute and the throttles
      ([internal/api/middleware/ratelimit.go], [shared_ratelimit.go],
      [auth_throttle.go]).
    - [Seal]: the operational seal ([internal/app/seal.go]).
    - [Crypto]: envelopes, the key ring and the crypto service
      ([internal/crypto]) over the class [Aead].
    - [Ttl]: duration parsing ([internal/utils/duration.go]).
    - [SqlAllow]: the allow-list for SQL that managed roles may run
      ([internal/domain/secrets/sql_allow.go]).
    - [DynamicRoles]: database and SSH roles, lease tuning and TTLs
      ([internal/domain/secrets]).
    - [Repos]: the keyed repositories of [internal/repository/memory]. The
      class [Keyed] states what an entity gives its repository, [KeyedLaws]
      what the repository's theorems need of it; there is an instance per
      entity.
    - [AuditHelper]: the recording helper of the services
      ([internal/service/audithelper]).
    - [Tenant]: scoping of names to tenants ([internal/tenant],
      [internal/service/tenant_scope.go]).
    - [TokenStore]: client and agent tokens ([internal/auth/token.go],
      [agent.go]). The class [TokenRepo] is the repository interface and
      [TokenRepoLaws] what the store relies on, proved for the memory
      repository.
    - [Identity]: principals, service accounts, role bindings and resolution,
      MFA and OIDC claims, the pure part of delegation ([internal/auth]).
    - [PolicyService]: persisted policies and roles and the RBAC cache of a
      node ([internal/service/policies.go]).
    - [Hcl]: the import of HCL policies ([internal/auth/hclimport.go]).
    - [AppRole]: AppRole credentials ([internal/auth/approle.go],
      [approle_persist.go]).
    - [AuthService]: the authentication service with its logins, lockout and
      audit calls, machine identities, delegation and authorization
      ([internal/auth], [internal/service/machine_identity.go]).
    - [Gate]: the middleware in front of the handlers
      ([internal/api/middleware]).
    - [Router]: every route with its middleware ([internal/api/router.go]).
    - [Inject]: secrets for pods: the renderer ([internal/inject]), the
      admission webhook ([internal/webhook/mutate.go]) and the CSI provider
      ([internal/inject/csi]).
    - [SecretRepo]: the versioned secret store ([secret_repository.go]).
    - [KVEngine]: the KV version 2 engine ([internal/engine/secrets/kvv2.go]).
    - [Leader]: leader election over Kubernetes leases and over Raft
      ([internal/infra/k8s/leader.go], [internal/raft/leader.go]).
    - [Config]: defaults, file, environment, security profiles
      ([internal/config]).
    - [Operator]: the reconcilers of the operator ([internal/operator]).
    - [Cubbyhole]: storage private to a token
      ([internal/engine/secrets/cubbyhole], [internal/service/cubbyhole.go]).
    - [Bootstrap]: loading of the master key ([internal/crypto/masterkey]),
      the sealed unseal key ([internal/crypto/autounseal]), the mark of
      initialization ([internal/sys]) and the engine registry
      ([internal/engine/registry.go]).
    - [Entities]: entities, aliases and groups
      ([internal/service/identity.go]).
    - [AppRoleRaft]: the replication of AppRoles
      ([internal/auth/approle_backend.go]).
    - [Ldap]: the LDAP login and its wire format ([internal/auth/ldap.go]).
    - [Wrapping]: response wrapping ([internal/service/wrapping.go]).
    - [Credentials]: what the dynamic engines share.
    - [Secrets]: the KV service with tenants, audit and cache
      ([internal/service/secrets.go], [internal/repository/tenant]).
    - [DatabaseEngine], [SSHEngine]: dynamic credentials and their services
      ([internal/engine/secrets/database], [internal/engine/secrets/ssh]).
    - [Leases]: the lease service over all engines
      ([internal/service/leases.go]).
    - [MasterKey]: rotation and re-encryption
      ([internal/service/masterkey.go]).
    - [Transit]: encryption as a service ([internal/engine/transit]).
    - [PkiEngine]: authorities, issuing, revocation, renewal, OCSP
      ([internal/engine/pki], [internal/service/pki.go]).
    - [Jobs]: rotation, orchestration and the jobs of the leader
      ([internal/service/rotation.go], [orchestration.go],
      [internal/app/jobs.go]).
    - [Exposure]: signed requests and reports of exposed secrets
      ([internal/api/middleware/exposure.go], [signing.go]).
    - [Redact]: redaction of audit details ([internal/audit/redact.go]).
    - [AuditForward]: the queue that forwards audit entries to a collector
      ([internal/audit/forward.go]).
    - [AuditLog]: the audit repository, hash chain, recording, verification
      ([internal/audit]) and the replicated append handler. The class
      [AuditStore] is the repository interface; [AuditStoreLaws] is what the
      service relies on, proved for the memory and the replicated repository.
    - [Backup]: snapshots, export, validation and restore ([internal/backup]).
    - [Archive]: encrypted backups ([internal/backup/archive.go],
      [internal/service/backup.go]).
    - [RaftStore]: the replicated store, its commands and handlers, the state
      machine ([internal/raft]).
    - [RaftRepos]: the repositories of a cluster ([internal/raft/client.go],
      [internal/repository/dragonboat]).

    ** How the code is represented

    A pure function is a function. A method that checks before it writes takes
    the old state and returns the new one in the result monad [res]; on an
    error the state is unchanged, as in the source. A method that may fail
    after a write is a program of [Effects], which returns the state reached
    with the error; [Restore] of [internal/backup/import.go] does so by hand. A
    run-time panic is [None] or [HPanic]. Go maps are stdpp's [gmap]; a
    [range] over one is a fold over [map_to_list], and where the source sorts
    afterwards the theorems show the order does not matter. Integers are [Z];
    arithmetic that can wrap at 64 bits is wrapped ([wrap64]). The mutex of a
    repository makes each method atomic, so concurrent requests are
    sequences of method calls, and concurrency inside a method (a read of the
    log head, then an append; a read of a token, then its save; a read of the
    lease, then its write) is an explicit interleaving of the two. A component that another one calls is a field of
    its caller's state; an optional one is an [option].

    Loops are structural, over lists or strings. The glob matchers recurse
    on two indices and carry fuel, one unit per byte of the pattern left to
    read, plus one; each recursive call reads at least one byte, and the
    theorems equate the result with a relation that has no fuel. Include
    resolution carries as fuel the number of policies not visited yet plus
    one, and is proved complete. Decimal printing carries 20 digits, enough
    for 64 bits.

    Code outside the repository is a parameter, an argument or a class, with
    the laws the theorems rely on in a class of their own: the IP and URL
    parsers ([Parsers], [UrlParser], [NetText]), digests and encodings
    ([Digest], [TokenCodec], [Sha256], [PolicyDigest], with [IdealDigest] and
    [PolicyDigestLaws] where collision freedom is needed), authenticated
    encryption ([Aead]), JSON where a component decodes what it stored
    ([Json], [ResultJson], [MetaCodec], [SnapshotJson], [TransitCodec],
    [ArchiveCodec], [AppRoleJson], [CsiCodec], and [Wire] with [WireLaws] for
    the commands and answers of a cluster), base64 ([Base64]), token review and JWT parsing ([AuthExternals]), the
    directory of LDAP ([LdapNet]), SQL drivers, connection URLs and SSH
    signatures ([DbExternals], [SshExternals]), X.509 and its encodings ([X509]), the
    cache server ([RespServer]), the Kubernetes API ([LeaseServer], [World],
    with [TimeText] and [Texts]), the environment and the file system of a
    process ([System], [KeySource]), the clock and random bytes (arguments, or
    [Env] of the state machine). Requests and responses over HTTP, Raft snapshots
    and files other than these are taken as decoded. Each class of laws has an
    instance next to the witnesses.

    ** What the theorems show

    - Authorization ([Authorize_correct], [ResolvePolicyNames_correct],
      [MatchResource_correct], [SyncRBAC_propagates],
      [Service_Authorize_correct], ...): deny overrides, default deny, over the
      include closure, for the declarative meaning of patterns, in which a star
      crosses slashes although the documents say otherwise, and on every node
      with the policies the cluster has stored.
    - Tokens and agents ([revocation_final], [token_lifetime_capped],
      [cache_irrelevant], [agent_request_contained],
      [delegation_adds_no_grants], ...): revocation is final, lifetimes are
      capped, caches do not matter, a delegated agent stays within one
      directory and its actions, for an hour.
    - Logins ([lockout_refines], [lockout_after_threshold],
      [ParseServiceAccountUsername_roundtrip],
      [MatchServiceAccountBinding_correct], [tenant_namespace_bound],
      [approle_credentials], ...): lockout counters, bindings, tenants,
      credentials.
    - Seal and keys ([unsealed_only_by_key], [shares_unseal],
      [unsealBackoff_bounds], [Combine_Split], [Split_perfectly_secret],
      [Open_Seal], [ReencryptDEKs_correct]): only the key or a threshold of
      shares unseals, and a threshold does; fewer shares say nothing; what is
      sealed opens, also across rotation and re-encryption.
    - KV ([kv_put_get], [kv_delete_correct], [kv_internal_paths_closed]): reads
      return what was written, internal paths are out of reach.
    - Validation ([ValidateManagedSQLStatements_correct],
      [ValidateDatabaseRoleConfig_sound], [ResolveRenewTTL_capped], ...):
      what is accepted, exactly or as a guarantee, and stability.
    - Repositories ([keyed_repository_correct], [CARepository_Save_correct],
      [revocations_correct], [PutAtomic_correct],
      [secret_versions_never_reused], ...): the behaviour of every method,
      invariants, compare-and-set, retention, monotone version numbers.
    - Audit ([recorded_log_verifies], [replicated_chain_valid],
      [tamper_evident], [SanitizeDetails_complete], [forward_accounted]): what
      is recorded verifies, the replicated chain is always valid, equal heads
      mean equal logs where no field holds the separator, secrets are redacted,
      and entries are forwarded in order and at most once.
    - Snapshots and replication ([restore_export], [recovery_image],
      [replay_invariant], [replicas_agree], [Lookup_read_only]): the fields of
      every entity a restore of an exportable vault brings back, the invariant
      of the store over every log, agreement of replicas, and that the read
      path does not write.
    - Routes and limits ([requests_authorized], [sealed_serves_nothing],
      [minute_limit_holds], [exposure_report_once], ...): every route but the
      public ones authenticates and authorizes, little but the status is served
      while sealed, the limit of a minute holds over all nodes but for those cut
      off from the server, which pass it once more each, a signed report that is
      not dated ahead counts once.
    - Engines and leases ([tenant_secrets_isolated], [cached_reads_agree],
      [token_revocation_cleans_up], [vault_stays_well_formed],
      [sql_values_confined], [unwrap_single_use], [transit_roundtrip],
      [issued_within_role], [revocation_is_final], ...): tenants without a
      slash in their names do not see each other, the cache is invisible but
      for expired and trimmed versions, revoking a token ends its leases,
      rendered SQL has the tokens of its template, certificates obey their role.
      [failed_revocation_final] shows what a failed revocation leaves.
    - Cluster and surroundings ([raft_repositories_refine],
      [cluster_revocation_final], [one_leader], [shared_failures_counted],
      [approles_replicated], [secrets_not_clobbered],
      [revision_means_delivered], [ldap_login_correct], [loaded_hardened],
      [setting_precedence], [safe_dial_public], [isBlockedIP_ranges],
      [backup_restored], [refused_restore_untouched], [patch_is_mutation],
      [mount_confined], [hcl_roundtrip], [initialized_once], ...): the Raft
      repositories do what the ones in memory do with what JSON carries over,
      a revoked token is dead on every node when no renewal of it was under
      way, nodes that get the lease alone exclude each other, the operator
      leaves foreign Secrets alone, production configurations are hardened,
      outgoing requests avoid a list of networks, an encrypted backup brings
      the vault back, and the webhook's patch is its mutation.
    - Theorems next to these prove behaviours that the code's comments or
      purpose do not intend: [single_star_crosses_segments],
      [quoted_comment_hides_superuser], [ResolveRenewTTL_overflow],
      [ParseTTL_overflow], [separator_ambiguity], [clock_step_back_rejected],
      [concurrent_signature_mismatch], [policy_save_diverges],
      [capability_policy_unrestorable], [role_of_unstored_policy_unrestorable],
      [restrictions_lost], [rotated_keys_lost_on_restart],
      [renew_revoke_race], [root_revocation_undone],
      [machine_login_never_succeeds], [binding_failures_never_lock],
      [delegation_unrevokes], [delegation_escapes_deny], [agent_id_traversal],
      [sign_deny_bypassed], [seal_guard_bypassed], [expired_secret_still_read],
      [early_report_replayed], [tenant_rotation_never_runs],
      [disabled_entity_bypassed], [two_leaders], [partitioned_leader_runs_on],
      [short_read_corrupts], [long_result_code_wraps],
      [short_certificate_reissued], [request_overwrites_foreign],
      [mapped_network_accepted], [blank_unseal_list_accepted],
      [renewal_in_flight_undoes], [nested_namespace_shares],
      [slash_agent_gets_all], [revocation_half_done], [wrap_disclosed_twice],
      [stale_node_overwrites] and others.

    ** Not modelled

    HTTP handlers and their request and response types (decoding around the
    services; ReportExposure, Init, the import of HCL and the check of unseal
    addresses are modelled); start-up and wiring ([internal/app]), metrics,
    tracing and logging; the client libraries and command-line tools ([pkg],
    [clients], [cmd]); the ACME protocol client, which calls an ACME library,
    and its solvers; the manager, ingress and gateway loops and converters of
    the operator; notifications, which send over HTTP; the hosting of Raft,
    which configures a library; master keys from cloud services. X.509, TLS and
    cryptographic primitives are library code. *)

From stdpp Require Export prelude gmap strings list fin_maps fin_sets sorting pretty.
From Stdlib Require Export ZArith Lia.


(** ** Errors: internal/domain/common/errors.go and Go's [error] values *)

(** [common.ErrorCode], one constructor per constant of the source. *)
Inductive ErrorCode :=
  | ErrCodeInternal
  | ErrCodeValidation
  | ErrCodeUnauthorized
  | ErrCodeForbidden
  | ErrCodeNotFound
  | ErrCodeUnavailable.

#[global] Instance ErrorCode_eq_dec : EqDecision ErrorCode.
Proof. solve_decision. Defined.

(** A Go [error]: a [fmt.Errorf] value without [%w], one with [%w] around a
    cause, or a [*common.KNXVaultError] with its optional [Cause]. *)
Inductive error :=
  | Plain (msg : string)
  | Wrapf (msg : string) (cause : error)
  | KNXVaultError (code : ErrorCode) (msg : string) (cause : option error).

(** [common.New] and [common.Wrap]. *)
Definition New (code : ErrorCode) (message : string) : error :=
  KNXVaultError code message None.

Definition Wrap (code : ErrorCode) (message : string) (cause : error) : error :=
  KNXVaultError code message (Some cause).

(** [errors.As(err, &kv)] for [kv : *KNXVaultError]: the first error of the
    unwrap chain that has the type. *)
Fixpoint errors_As (e : error) : option (ErrorCode * string) :=
  match e with
  | Plain _ => None
  | Wrapf _ c => errors_As c
  | KNXVaultError code msg _ => Some (code, msg)
  end.

(** [err.Error()] *)
Fixpoint error_string (e : error) : string :=
  match e with
  | Plain m => m
  | Wrapf m c => m +:+ error_string c
  | KNXVaultError _ m None => m
  | KNXVaultError _ m (Some c) => m +:+ ": " +:+ error_string c
  end.

(** ** The result monad: a Go function returning [(T, error)] *)

Inductive res (A : Type) :=
  | Ok (a : A)
  | Err (e : error).
Arguments Ok {A} a.
Arguments Err {A} e.

#[global] Instance res_ret : MRet res := @Ok.
#[global] Instance res_bind : MBind res := λ A B f m,
  match m with Ok a => f a | Err e => Err e end.
#[global] Instance res_fmap : FMap res := λ A B f m,
  match m with Ok a => Ok (f a) | Err e => Err e end.

Definition is_Ok {A} (r : res A) : Prop := ∃ a, r = Ok a.
Definition is_ok {A} (r : res A) : bool := match r with Ok _ => true | Err _ => false end.

(** [if c { return err }], the early return of a Go validation. *)
Definition reject (c : bool) (e : error) : res unit := if c then Err e else Ok tt.

Lemma reject_ok c e : reject c e = Ok tt ↔ c = false.
Proof. by destruct c. Qed.

Lemma res_bind_ok {A B} (f : A → res B) m b :
  m ≫= f = Ok b ↔ ∃ a, m = Ok a ∧ f a = Ok b.
Proof. destruct m; simpl; naive_solver. Qed.

Lemma res_bind_unit_ok {B} (m : res unit) (k : unit → res B) b :
  m ≫= k = Ok b ↔ m = Ok tt ∧ k tt = Ok b.
Proof. rewrite res_bind_ok; split; [intros ([] & ? & ?) | intros []]; eauto. Qed.

Lemma is_ok_spec {A} (r : res A) : is_ok r = true ↔ is_Ok r.
Proof. destruct r; simpl; split; intros H; try done; [by eexists | by destruct H]. Qed.

Create HintDb knx discriminated.
#[export] Hint Resolve reject_ok res_bind_ok is_ok_spec : knx.

(** A loop that stops at the first error: [for _, x := range xs { if err := f(x)
    ...; return err }] threading a state. *)
Fixpoint for_each {S A} (f : S → A → res S) (s : S) (xs : list A) : res S :=
  match xs with
  | [] => Ok s
  | x :: xs => s' ← f s x; for_each f s' xs
  end.

Lemma for_each_app {S A} (f : S → A → res S) s xs ys :
  for_each f s (xs ++ ys) = (s' ← for_each f s xs; for_each f s' ys).
Proof. revert s; induction xs as [|x xs IH]; intros s; simpl; [done|]. by destruct (f s x); simpl. Qed.

Lemma for_each_inv {S A} (I : S → Prop) (f : S → A → res S) s xs s' :
  I s → (∀ s x s', I s → f s x = Ok s' → I s') → for_each f s xs = Ok s' → I s'.
Proof.
  intros Hs Hf. revert s Hs; induction xs as [|x xs IH]; intros s Hs; simpl.
  - by intros [= ->].
  - destruct (f s x) eqn:E; simpl; [eauto | done].
Qed.

(** ** Tactics *)

(** Case analysis on the conditionals and matches of the goal or hypotheses,
    with the equation kept. *)
Ltac case_all :=
  repeat match goal with
  | |- context [if ?b then _ else _] => let E := fresh "E" in destruct b eqn:E
  | |- context [match ?x with _ => _ end] => let E := fresh "E" in destruct x eqn:E
  end.

Ltac case_all_in H :=
  repeat match type of H with
  | context [if ?b then _ else _] => let E := fresh "E" in destruct b eqn:E
  | context [match ?x with _ => _ end] => let E := fresh "E" in destruct x eqn:E
  end.

(** Turn a chain of [reject]s and binds that returned [Ok] into its facts. *)
Ltac inv_res :=
  repeat match goal with
  | H : reject _ _ = Ok _ |- _ => apply reject_ok in H
  | H : @mbind res _ unit _ _ _ = Ok _ |- _ => apply res_bind_unit_ok in H as [? H]
  | H : @mbind res _ _ _ _ _ = Ok _ |- _ => apply res_bind_ok in H as (? & ? & H)
  | H : Ok _ = Ok _ |- _ => injection H as H; subst
  | H : Err _ = Ok _ |- _ => discriminate H
  end.

(** Boolean facts to propositions. *)
Ltac bool_props :=
  repeat match goal with
  | H : (_ && _) = true |- _ => apply andb_true_iff in H as [? ?]
  | H : (_ || _) = false |- _ => apply orb_false_iff in H as [? ?]
  | H : negb _ = true |- _ => apply negb_true_iff in H
  | H : negb _ = false |- _ => apply negb_false_iff in H
  | H : bool_decide _ = true |- _ => apply bool_decide_eq_true in H
  | H : bool_decide _ = false |- _ => apply bool_decide_eq_false in H
  | H : (_ <? _)%Z = true |- _ => apply Z.ltb_lt in H
  | H : (_ <? _)%Z = false |- _ => apply Z.ltb_ge in H
  | H : (_ <=? _)%Z = true |- _ => apply Z.leb_le in H
  | H : (_ <=? _)%Z = false |- _ => apply Z.leb_gt in H
  | H : (_ =? _)%Z = true |- _ => apply Z.eqb_eq in H
  | H : (_ =? _)%Z = false |- _ => apply Z.eqb_neq in H
  end.

(** ** Generic lemmas shared by the components *)

Lemma existsb_elem {A} (f : A → bool) l :
  existsb f l = true ↔ ∃ x, x ∈ l ∧ f x = true.
Proof. rewrite existsb_exists. by setoid_rewrite list_elem_of_In. Qed.

Lemma existsb_false_elem {A} (f : A → bool) l :
  existsb f l = false ↔ ∀ x, x ∈ l → f x = false.
Proof.
  split.
  - intros H x Hx. destruct (f x) eqn:E; [|done].
    assert (existsb f l = true) by (apply existsb_elem; eauto). congruence.
  - intros H. apply not_true_is_false. rewrite existsb_elem.
    intros (x & Hx & E). by rewrite H in E.
Qed.

Lemma forallb_elem {A} (f : A → bool) l :
  forallb f l = true ↔ ∀ x, x ∈ l → f x = true.
Proof. rewrite forallb_forall. by setoid_rewrite list_elem_of_In. Qed.

Lemma bool_decide_eq_sym `{EqDecision A} (x y : A) : bool_decide (x = y) = bool_decide (y = x).
Proof. by apply bool_decide_ext. Qed.

(** Sorting two permutations of one another by an order that is antisymmetric
    on their elements gives the same list: what a [sort] after a [range] over
    a Go map returns does not depend on the map's iteration order. *)
Lemma merge_sort_perm_unique {A} (R : relation A) `{!RelDecision R, !Transitive R, !Total R}
    (l1 l2 : list A) :
  (∀ x y, x ∈ l1 → y ∈ l1 → R x y → R y x → x = y) →
  l1 ≡ₚ l2 → merge_sort R l1 = merge_sort R l2.
Proof.
  intros Hasym Hp.
  apply (Sorted_unique_strong R).
  - intros x y Hx Hy. rewrite merge_sort_Permutation in Hx. rewrite merge_sort_Permutation, <-Hp in Hy.
    by apply Hasym.
  - apply Sorted_merge_sort, _.
  - apply Sorted_merge_sort, _.
  - by rewrite !merge_sort_Permutation.
Qed.
