(* ===== verification/Effects.v ===== *)
(** Programs that change a state and may fail with a Go error. The state
    reached is kept when a program fails: a handler that fails half way leaves
    what it wrote. The monad serves the components whose methods mix calls
    that fail with writes (tokens, logins, leases, wrapping).

    Two notions carry most proofs: [always R m], every run of [m] relates its
    first and last state by [R], and [preserves I m], every run keeps [I].
    Both are closed under the operations, which the hint database [prog]
    records. *)

From S2P Require Import Prelude.

Definition prog (S A : Type) : Type := S → S * res A.

#[global] Instance prog_ret S : MRet (prog S) := λ A a s, (s, Ok a).
#[global] Instance prog_bind S : MBind (prog S) := λ A B k m s,
  match m s with
  | (s', Ok a) => k a s'
  | (s', Err e) => (s', Err e)
  end.

Section operations.
Context {S : Type}.

Definition raise {A} (e : error) : prog S A := λ s, (s, Err e).

(** A call that does not touch the state. *)
Definition lift {A} (r : res A) : prog S A := λ s, (s, r).
Definition gets {A} (f : S → A) : prog S A := λ s, (s, Ok (f s)).
Definition modify (f : S → S) : prog S unit := λ s, (f s, Ok tt).

(** A call that changes part of the state and returns a value. *)
Definition update {A} (f : S → S * A) : prog S A := λ s, let '(s', a) := f s in (s', Ok a).

(** [if c { return err }]. *)
Definition guard_not (c : bool) (e : error) : prog S unit := lift (reject c e).

(** [if c { m }]. *)
Definition when (c : bool) (m : prog S unit) : prog S unit := if c then m else mret tt.

(** [v, err := m], the error inspected by what follows. *)
Definition attempt {A} (m : prog S A) : prog S (res A) := λ s, let '(s', r) := m s in (s', Ok r).

(** [_ = m], the error dropped. *)
Definition ignore {A} (m : prog S A) : prog S unit := λ s, ((m s).1, Ok tt).

(** [if v, err := m; err != nil { return h(err) }]. *)
Definition on_error {A} (m : prog S A) (h : error → prog S A) : prog S A := λ s,
  match m s with
  | (s', Err e) => h e s'
  | r => r
  end.

(** A method of a component of the state. *)
Definition zoom {T A} (get : S → T) (set : S → T → S) (m : prog T A) : prog S A := λ s,
  let '(t, r) := m (get s) in (set s t, r).
End operations.

(** ** What a run returns *)

Section results.
Context {S : Type}.

Lemma prog_bind_run {A B} (m : prog S A) (k : A → prog S B) s s' b :
  (m ≫= k) s = (s', Ok b) ↔ ∃ s1 a, m s = (s1, Ok a) ∧ k a s1 = (s', Ok b).
Proof.
  unfold mbind, prog_bind. destruct (m s) as [s1 [a|e]]; split; try naive_solver.
Qed.

Lemma prog_bind_ok {A B} (m : prog S A) (k : A → prog S B) s s' a : m s = (s', Ok a) → (m ≫= k) s = k a s'.
Proof. intros E. unfold mbind, prog_bind. by rewrite E. Qed.

(** A run from its final state and its result. *)
Lemma run_eq {A} (m : prog S A) s r : (m s).2 = r → m s = ((m s).1, r).
Proof. by destruct (m s); intros <-. Qed.

Lemma guard_not_run c e (s s' : S) (u : unit) : guard_not c e s = (s', Ok u) ↔ c = false ∧ s' = s.
Proof. unfold guard_not, lift. destruct c, u; simpl; naive_solver. Qed.

(** A handler that ends in an error does not hide one. *)
Lemma on_error_run {A} (m : prog S A) h s s' a : (∀ e t, ¬ is_Ok (h e t).2) → on_error m h s = (s', Ok a) → m s = (s', Ok a).
Proof.
  intros Hh. unfold on_error. destruct (m s) as [t [b|e]]; [done|]. intros E. destruct (Hh e t). rewrite E. by exists a.
Qed.

Lemma when_run c (m : prog S unit) s s' (u : unit) :
  when c m s = (s', Ok u) ↔ (c = true ∧ m s = (s', Ok u)) ∨ (c = false ∧ s' = s).
Proof. destruct c, u; simpl; unfold mret, prog_ret; naive_solver. Qed.
End results.

(** ** Relations and invariants over every run *)

Section always.
Context {S : Type} (R : relation S) `{!PreOrder R}.

Definition always {A} (m : prog S A) : Prop := ∀ s, R s (m s).1.

Lemma always_pure {A} (m : prog S A) : (∀ s, (m s).1 = s) → always m.
Proof. intros H s. by rewrite H. Qed.
Lemma always_ret {A} (a : A) : always (mret a).
Proof. by apply always_pure. Qed.
Lemma always_raise {A} e : always (raise (A := A) e).
Proof. by apply always_pure. Qed.
Lemma always_lift {A} (r : res A) : always (lift r).
Proof. by apply always_pure. Qed.
Lemma always_gets {A} (f : S → A) : always (gets f).
Proof. by apply always_pure. Qed.
Lemma always_guard c e : always (guard_not c e).
Proof. by apply always_pure. Qed.
Lemma always_modify f : (∀ s, R s (f s)) → always (modify f).
Proof. intros H s. apply H. Qed.
Lemma always_bind {A B} (m : prog S A) (k : A → prog S B) :
  always m → (∀ a, always (k a)) → always (m ≫= k).
Proof.
  intros Hm Hk s. specialize (Hm s). unfold mbind, prog_bind. destruct (m s) as [s1 [a|e]]; simpl in *; [|done].
  etrans; [done|apply Hk].
Qed.
Lemma always_lift_bind {A B} (r : res A) (k : A → prog S B) :
  (∀ a, r = Ok a → always (k a)) → always (lift r ≫= k).
Proof. intros Hk s. unfold mbind, prog_bind, lift. destruct r as [a|e]; [by apply Hk|done]. Qed.
Lemma always_when c m : always m → always (when c m).
Proof. destruct c; [done|]. intros _. apply always_ret. Qed.
Lemma always_attempt {A} (m : prog S A) : always m → always (attempt m).
Proof. intros Hm s. specialize (Hm s). unfold attempt. by destruct (m s). Qed.
Lemma always_ignore {A} (m : prog S A) : always m → always (ignore m).
Proof. done. Qed.
Lemma always_on_error {A} (m : prog S A) h : always m → (∀ e, always (h e)) → always (on_error m h).
Proof.
  intros Hm Hh s. specialize (Hm s). unfold on_error. destruct (m s) as [s1 [a|e]]; simpl in *; [done|].
  etrans; [done|apply Hh].
Qed.
Lemma always_if {A} (c : bool) (m n : prog S A) : always m → always n → always (if c then m else n).
Proof. by destruct c. Qed.
End always.

Lemma always_zoom {S T A} (R : relation S) (get : S → T) set (Q : relation T) (m : prog T A) :
  (∀ s t, Q (get s) t → R s (set s t)) → always Q m → always R (zoom get set m).
Proof. intros HQ Hm s. specialize (Hm (get s)). unfold zoom. destruct (m (get s)). by apply HQ. Qed.

Create HintDb prog discriminated.
#[export] Hint Resolve always_ret always_raise always_lift always_gets always_guard always_bind always_when
  always_attempt always_ignore always_on_error always_if : prog.
#[export] Hint Extern 1 (PreOrder _) => apply _ : prog.
#[export] Hint Extern 2 (always _ (match ?x with _ => _ end)) => destruct x : prog.

(** An invariant is the relation [I s → I s']. *)
Definition implies {S} (I : S → Prop) : relation S := λ s s', I s → I s'.
#[global] Instance implies_preorder {S} (I : S → Prop) : PreOrder (implies I).
Proof. unfold implies. split; [by intros s|]. intros s1 s2 s3 H1 H2 ?. by apply H2, H1. Qed.
Abbreviation preserves I := (always (implies I)).

Lemma preserves_run {S A} (I : S → Prop) (m : prog S A) s s' r : preserves I m → m s = (s', r) → I s → I s'.
Proof. intros Hm E. specialize (Hm s). by rewrite E in Hm. Qed.

Lemma always_run {S A} (R : relation S) (m : prog S A) s s' r : always R m → m s = (s', r) → R s s'.
Proof. intros Hm E. specialize (Hm s). by rewrite E in Hm. Qed.

Lemma always_mono {S A} (R Q : relation S) (m : prog S A) : (∀ s s', R s s' → Q s s') → always R m → always Q m.
Proof. intros HRQ Hm s. apply HRQ, Hm. Qed.

(** Two relations at once, for invariants that need one another. *)
Lemma always_and {S A} (R1 R2 : relation S) (m : prog S A) :
  always R1 m → always R2 m → always (λ s s', R1 s s' ∧ R2 s s') m.
Proof. intros H1 H2 s. by split. Qed.

(** Programs that fail from every state satisfying [I]. *)
Section never_ok.
Context {S : Type} (I : S → Prop).

Definition never_ok {A} (m : prog S A) : Prop := ∀ s, I s → ¬ is_Ok (m s).2.

Lemma never_ok_raise {A} e : never_ok (raise (A := A) e).
Proof. by intros s _ [a Ha]. Qed.
Lemma never_ok_first {A B} (m : prog S A) (k : A → prog S B) : never_ok m → never_ok (m ≫= k).
Proof.
  intros Hm s Hs [b Hb]. apply (Hm s Hs). unfold mbind, prog_bind in Hb. destruct (m s) as [s1 [a|e]]; [by eexists|done].
Qed.
Lemma never_ok_then {A B} (m : prog S A) (k : A → prog S B) :
  preserves I m → (∀ a, never_ok (k a)) → never_ok (m ≫= k).
Proof.
  intros Hp Hk s Hs [b Hb]. specialize (Hp s Hs). unfold mbind, prog_bind in Hb.
  destruct (m s) as [s1 [a|e]]; [|done]. apply (Hk a s1 Hp). by eexists.
Qed.
Lemma never_ok_if {A} (c : bool) (m n : prog S A) : never_ok m → never_ok n → never_ok (if c then m else n).
Proof. by destruct c. Qed.
End never_ok.
#[export] Hint Resolve never_ok_raise never_ok_if : prog.

(** Prove [always R m] by walking over the binds and the cases of [m]. *)
Ltac walk_prog :=
  repeat first [ progress intros | solve [eauto with prog] | apply always_if | apply always_bind; [apply _|solve [eauto with prog]|]
               | case_match | apply always_bind; [apply _| |] ].

(** Invert a run that returned [Ok] into the runs of its parts. *)
Ltac inv_run :=
  repeat match goal with
  | H : @mbind (prog _) _ _ _ _ _ _ = (_, Ok _) |- _ => apply prog_bind_run in H as (? & ? & ? & H)
  | H : guard_not _ _ _ = (_, Ok _) |- _ => apply guard_not_run in H as [? ->]
  | H : lift _ _ = (_, _) |- _ => injection H as ? ?; subst
  | H : gets _ _ = (_, _) |- _ => injection H as ? ?; subst
  | H : modify _ _ = (_, _) |- _ => injection H as ? ?; subst
  | H : mret _ _ = (_, _) |- _ => injection H as ? ?; subst
  | H : raise _ _ = (_, Ok _) |- _ => discriminate H
  | H : Ok _ = Ok _ |- _ => injection H as ?; subst
  | H : Err _ = Ok _ |- _ => discriminate H
  end.
