(* ===== verification/GoLib.v ===== *)
(** The part of the Go language and standard library the modelled code uses:
    the [strings] functions (on byte strings), [time.Time] and
    [time.Duration], UUIDs, [any] values, and [sort.Slice]. *)

From Stdlib Require Export Ascii.
From S2P Require Import Prelude.

Declare Scope go_scope.
Delimit Scope go_scope with go.
Open Scope go_scope.

#[global] Arguments String.append : simpl nomatch.
#[global] Arguments String.length : simpl nomatch.
Notation "s =s t" := (bool_decide (s =@{string} t)) (at level 70) : go_scope.

(** ** Package strings *)

Fixpoint HasPrefix (s prefix : string) {struct prefix} : bool :=
  match prefix, s with
  | EmptyString, _ => true
  | String c p, String d s => bool_decide (c = d) && HasPrefix s p
  | String _ _, EmptyString => false
  end.

Fixpoint HasSuffix (s suffix : string) : bool :=
  (s =s suffix) || match s with EmptyString => false | String _ s' => HasSuffix s' suffix end.

(** [s[n:]] and [s[:n]] *)
Fixpoint str_drop (n : nat) (s : string) : string :=
  match n, s with
  | O, _ => s
  | S n, EmptyString => EmptyString
  | S n, String _ s => str_drop n s
  end.

Fixpoint str_take (n : nat) (s : string) : string :=
  match n, s with
  | O, _ => EmptyString
  | S n, EmptyString => EmptyString
  | S n, String c s => String c (str_take n s)
  end.

Definition TrimPrefix (s prefix : string) : string :=
  if HasPrefix s prefix then str_drop (String.length prefix) s else s.

Definition TrimSuffix (s suffix : string) : string :=
  if HasSuffix s suffix then str_take (String.length s - String.length suffix) s else s.

Fixpoint Contains (s sub : string) : bool :=
  HasPrefix s sub || match s with EmptyString => false | String _ s' => Contains s' sub end.

Fixpoint str_mem (c : ascii) (s : string) : bool :=
  match s with
  | EmptyString => false
  | String d s => bool_decide (c = d) || str_mem c s
  end.

Fixpoint ContainsAny (s chars : string) : bool :=
  match s with
  | EmptyString => false
  | String c s => str_mem c chars || ContainsAny s chars
  end.

(** [strings.Count] for a non-empty [sub]: non-overlapping occurrences. The
    counter skips the bytes of the occurrence just counted. *)
Fixpoint count_skip (skip : nat) (s sub : string) : nat :=
  match s with
  | EmptyString => 0
  | String _ s' =>
      match skip with
      | S k => count_skip k s' sub
      | O => if HasPrefix s sub
             then S (count_skip (String.length sub - 1) s' sub)
             else count_skip 0 s' sub
      end
  end.
Definition Count (s sub : string) : nat := count_skip 0 s sub.

(** [strings.IndexByte]; [None] is the source's [-1]. *)
Fixpoint IndexByte (s : string) (c : ascii) : option nat :=
  match s with
  | EmptyString => None
  | String d s => if bool_decide (c = d) then Some 0 else S <$> IndexByte s c
  end.

(** The ASCII white space of [unicode.IsSpace] (byte strings: the two
    non-ASCII Latin-1 spaces are multi-byte in UTF-8 and not trimmed here). *)
Definition IsSpace (c : ascii) : bool :=
  let n := nat_of_ascii c in (Nat.eqb n 32) || (Nat.leb 9 n && Nat.leb n 13).

Fixpoint TrimLeft (s : string) : string :=
  match s with
  | EmptyString => EmptyString
  | String c s' => if IsSpace c then TrimLeft s' else s
  end.

Fixpoint TrimRight (s : string) : string :=
  match s with
  | EmptyString => EmptyString
  | String c s' =>
      match TrimRight s' with
      | EmptyString => if IsSpace c then EmptyString else String c EmptyString
      | t => String c t
      end
  end.

Definition TrimSpace (s : string) : string := TrimRight (TrimLeft s).

(** [strings.ToLower] on ASCII letters. *)
Definition lower_ascii (c : ascii) : ascii :=
  let n := nat_of_ascii c in
  if Nat.leb 65 n && Nat.leb n 90 then ascii_of_nat (n + 32) else c.

Fixpoint ToLower (s : string) : string :=
  match s with
  | EmptyString => EmptyString
  | String c s => String (lower_ascii c) (ToLower s)
  end.

(** [strings.SplitN(s, sep, 2)] for a one-byte separator. *)
Definition SplitN2 (s : string) (sep : ascii) : list string :=
  match IndexByte s sep with
  | None => [s]
  | Some i => [str_take i s; str_drop (S i) s]
  end.

(** [strings.Split(s, sep)] for a one-byte separator. *)
Fixpoint SplitOn (sep : ascii) (s : string) : list string :=
  match s with
  | EmptyString => [EmptyString]
  | String c s =>
      if Ascii.eqb c sep then EmptyString :: SplitOn sep s
      else match SplitOn sep s with
           | [] => [String c EmptyString]
           | seg :: segs => String c seg :: segs
           end
  end.

(** [path.Clean] of a rooted path: the segments between slashes, with empty and
    [.] segments dropped and [..] taking back the segment before it. *)
Definition clean_step (stack : list string) (seg : string) : list string :=
  if (seg =s "") || (seg =s ".") then stack
  else if seg =s ".." then match stack with [] => [] | _ :: stack => stack end
  else seg :: stack.

Fixpoint join_rooted (segs : list string) : string :=
  match segs with
  | [] => ""
  | seg :: segs => "/" +:+ seg +:+ join_rooted segs
  end.

Definition CleanRooted (p : string) : string :=
  match reverse (foldl clean_step [] (SplitOn "/" p)) with
  | [] => "/"
  | segs => join_rooted segs
  end.

(** The [%q] verb, for values without characters that need an escape. *)
Definition dquote : string := String (ascii_of_nat 34) EmptyString.
Definition quoted (s : string) : string := dquote +:+ s +:+ dquote.

(** ** Time: nanoseconds since Go's zero [time.Time]; [int64] durations *)

Abbreviation Time := Z (only parsing).
Abbreviation Duration := Z (only parsing).

Definition IsZero (t : Time) : bool := (t =? 0)%Z.
Definition Before (t u : Time) : bool := (t <? u)%Z.
Definition After (t u : Time) : bool := (u <? t)%Z.
Definition Second : Duration := 1000000000%Z.
Definition Minute : Duration := (60 * Second)%Z.
Definition Hour : Duration := (60 * Minute)%Z.

(** The Unix epoch and [t.Unix()]. *)
Definition unix_epoch : Time := (62135596800 * Second)%Z.
Definition Unix (t : Time) : Z := ((t - unix_epoch) / Second)%Z.
Lemma Unix_bounds t : (unix_epoch + Unix t * Second ≤ t < unix_epoch + (Unix t + 1) * Second)%Z.
Proof.
  unfold Unix. assert (Hs : (0 < Second)%Z) by done. assert (E := Z.div_mod (t - unix_epoch) Second ltac:(lia)).
  assert (M := Z.mod_pos_bound (t - unix_epoch) Second Hs). lia.
Qed.

Definition newline : string := String (ascii_of_nat 10) EmptyString.

(** ** UUIDs: 128-bit numbers, [uuid.Nil] is zero *)

Abbreviation UUID := N (only parsing).
Definition uuid_Nil : UUID := 0%N.
Definition is_nil_uuid (u : UUID) : bool := bool_decide (u = uuid_Nil).

(** [UUID.String()]: 32 hexadecimal digits in groups of 8-4-4-4-12. *)
Definition hex_digit (n : N) : ascii := ascii_of_N (if (n <? 10)%N then 48 + n else 87 + n).
Fixpoint hex_digits (k : nat) (n : N) : string :=
  match k with
  | O => ""
  | S k => hex_digits k (n / 16) +:+ String (hex_digit (n mod 16)) ""
  end.
Definition uuid_string (u : UUID) : string :=
  let h := hex_digits 32 u in
  str_take 8 h +:+ "-" +:+ str_take 4 (str_drop 8 h) +:+ "-" +:+ str_take 4 (str_drop 12 h) +:+ "-" +:+
  str_take 4 (str_drop 16 h) +:+ "-" +:+ str_drop 20 h.

(** Byte slices. *)
Abbreviation bytes := (list ascii) (only parsing).

(** ** [any]: what [encoding/json] decodes into an interface value *)

Inductive any :=
  | VNil
  | VBool (b : bool)
  | VNum (z : Z)
  | VStr (s : string)
  | VStrs (l : list string)
  | VList (l : list any)
  | VMap (l : list (string * any)).

(** Induction with a hypothesis for every value inside a list or map. *)
Fixpoint any_nested_ind (P : any → Prop) (Hnil : P VNil) (Hbool : ∀ b, P (VBool b)) (Hnum : ∀ z, P (VNum z))
    (Hstr : ∀ s, P (VStr s)) (Hstrs : ∀ l, P (VStrs l)) (Hlist : ∀ l, Forall P l → P (VList l))
    (Hmap : ∀ l, Forall (λ kv, P kv.2) l → P (VMap l)) (v : any) : P v :=
  let rec := any_nested_ind P Hnil Hbool Hnum Hstr Hstrs Hlist Hmap in
  match v with
  | VNil => Hnil
  | VBool b => Hbool b
  | VNum z => Hnum z
  | VStr s => Hstr s
  | VStrs l => Hstrs l
  | VList l => Hlist l ((fix go l : Forall P l := match l with
                         | [] => Forall_nil_2 P
                         | x :: l => Forall_cons_2 P x l (rec x) (go l)
                         end) l)
  | VMap l => Hmap l ((fix go l : Forall (λ kv, P kv.2) l := match l with
                       | [] => Forall_nil_2 _
                       | kv :: l => Forall_cons_2 (λ kv, P kv.2) kv l (rec kv.2) (go l)
                       end) l)
  end.

(** Values are countable, by way of finite trees. *)
Definition any_leaf : Type := bool + Z + string + list string.

Fixpoint any_to_tree (v : any) : gen_tree any_leaf :=
  match v with
  | VNil => GenNode 0 []
  | VBool b => GenLeaf (inl (inl (inl b)))
  | VNum z => GenLeaf (inl (inl (inr z)))
  | VStr s => GenLeaf (inl (inr s))
  | VStrs l => GenLeaf (inr l)
  | VList l => GenNode 1 (any_to_tree <$> l)
  | VMap l => GenNode 2 ((λ kv, GenNode 3 [GenLeaf (inl (inr kv.1)); any_to_tree kv.2]) <$> l)
  end.

Fixpoint any_of_tree (t : gen_tree any_leaf) : any :=
  match t with
  | GenLeaf (inl (inl (inl b))) => VBool b
  | GenLeaf (inl (inl (inr z))) => VNum z
  | GenLeaf (inl (inr s)) => VStr s
  | GenLeaf (inr l) => VStrs l
  | GenNode 1 l => VList (any_of_tree <$> l)
  | GenNode 2 l => VMap ((λ u, match u with
                               | GenNode _ [GenLeaf (inl (inr k)); w] => (k, any_of_tree w)
                               | _ => ("", VNil)
                               end) <$> l)
  | _ => VNil
  end.

Lemma any_of_to_tree v : any_of_tree (any_to_tree v) = v.
Proof.
  induction v as [| | | | |l IH|l IH] using any_nested_ind; try done; simpl; f_equal.
  - induction IH as [|x l Hx _ IHl]; [done|]. rewrite !fmap_cons. by rewrite Hx, IHl.
  - induction IH as [|[k x] l Hx _ IHl]; [done|]. rewrite !fmap_cons. simpl in Hx |- *. by rewrite Hx, IHl.
Qed.

#[global] Instance any_eq_dec : EqDecision any.
Proof.
  refine (λ v w, cast_if (decide (any_to_tree v = any_to_tree w))); [|congruence].
  rewrite <- (any_of_to_tree v), <- (any_of_to_tree w). by f_equal.
Defined.
#[global] Instance any_countable : Countable any := inj_countable' any_to_tree any_of_tree any_of_to_tree.

(** A type assertion [v.(string)] on a map lookup: [m[k].(string)]. *)
Definition as_string (v : option any) : option string :=
  match v with Some (VStr s) => Some s | _ => None end.

(** ** [sort.Slice] by a key

    The comparison of a [sort.Slice] call is given as the non-strict order of
    its [less]; the result is a sorted permutation. *)

Definition string_key_le {A} (key : A → string) : relation A := λ x y, String.le (key x) (key y).
Definition Z_key_le {A} (key : A → Z) : relation A := λ x y, (key x ≤ key y)%Z.

#[global] Instance string_key_le_dec {A} (key : A → string) : RelDecision (string_key_le key).
Proof. intros x y. apply String.le_dec. Defined.
#[global] Instance string_key_le_trans {A} (key : A → string) : Transitive (string_key_le key).
Proof. intros x y z. unfold string_key_le. apply transitivity. Qed.
#[global] Instance string_key_le_total {A} (key : A → string) : Total (string_key_le key).
Proof. intros x y. apply String.le_total. Qed.
#[global] Instance Z_key_le_dec {A} (key : A → Z) : RelDecision (Z_key_le key).
Proof. intros x y. apply Z_le_dec. Defined.
#[global] Instance Z_key_le_trans {A} (key : A → Z) : Transitive (Z_key_le key).
Proof. intros x y z. unfold Z_key_le. lia. Qed.
#[global] Instance Z_key_le_total {A} (key : A → Z) : Total (Z_key_le key).
Proof. intros x y. unfold Z_key_le. lia. Qed.

Definition sort_by_string {A} (key : A → string) (l : list A) : list A := merge_sort (string_key_le key) l.
Definition sort_by_Z {A} (key : A → Z) (l : list A) : list A := merge_sort (Z_key_le key) l.

Lemma sort_by_string_perm {A} (key : A → string) l : sort_by_string key l ≡ₚ l.
Proof. apply merge_sort_Permutation. Qed.
Lemma sort_by_Z_perm {A} (key : A → Z) l : sort_by_Z key l ≡ₚ l.
Proof. apply merge_sort_Permutation. Qed.
Lemma sort_by_string_sorted {A} (key : A → string) l : StronglySorted (string_key_le key) (sort_by_string key l).
Proof. apply Sorted_StronglySorted, Sorted_merge_sort; apply _. Qed.
Lemma sort_by_Z_sorted {A} (key : A → Z) l : StronglySorted (Z_key_le key) (sort_by_Z key l).
Proof. apply Sorted_StronglySorted, Sorted_merge_sort; apply _. Qed.
Lemma elem_of_sort_by_string {A} (key : A → string) l x : x ∈ sort_by_string key l ↔ x ∈ l.
Proof. by rewrite sort_by_string_perm. Qed.
Lemma elem_of_sort_by_Z {A} (key : A → Z) l x : x ∈ sort_by_Z key l ↔ x ∈ l.
Proof. by rewrite sort_by_Z_perm. Qed.

(** ** Lemmas on strings *)

Lemma string_eqb_refl s : (s =s s) = true.
Proof. by rewrite bool_decide_eq_true. Qed.

Lemma str_app_assoc s t u : (s +:+ t) +:+ u = s +:+ t +:+ u.
Proof. induction s as [|c s IH]; simpl; [done|]. by rewrite IH. Qed.

Lemma str_app_empty_r s : s +:+ "" = s.
Proof. induction s as [|c s IH]; simpl; [done|]. by rewrite IH. Qed.

Lemma str_app_length s t : String.length (s +:+ t) = String.length s + String.length t.
Proof. induction s as [|c s IH]; simpl; [done|]. by rewrite IH. Qed.

Lemma HasPrefix_spec s p : HasPrefix s p = true ↔ ∃ t, s = p +:+ t.
Proof.
  revert s; induction p as [|c p IH]; intros s; simpl.
  - split; [intros _; by exists s | done].
  - destruct s as [|d s]; [split; [done|intros (?&?); done]|].
    rewrite andb_true_iff, bool_decide_eq_true, IH. split.
    + intros (-> & t & ->). by exists t.
    + intros (t & Ht). injection Ht as -> ->. eauto.
Qed.

Lemma HasSuffix_spec s t : HasSuffix s t = true ↔ ∃ p, s = p +:+ t.
Proof.
  induction s as [|c s IH]; simpl; rewrite orb_true_iff, bool_decide_eq_true.
  - split; [intros [<-|?]; [by exists "" | done]|].
    intros ([|] & H); [by left | done].
  - rewrite IH. split.
    + intros [<-|(p & ->)]; [by exists "" | by exists (String c p)].
    + intros ([|d p] & H); simpl in H; [by left|]. injection H as -> ->. eauto.
Qed.

Lemma str_drop_app s t : str_drop (String.length s) (s +:+ t) = t.
Proof. by induction s. Qed.

Lemma str_take_app s t : str_take (String.length s) (s +:+ t) = s.
Proof. induction s as [|c s IH]; simpl; [by destruct t|]. by rewrite IH. Qed.

Lemma TrimPrefix_app p t : TrimPrefix (p +:+ t) p = t.
Proof.
  unfold TrimPrefix. assert (HasPrefix (p +:+ t) p = true) as ->.
  { apply HasPrefix_spec; eauto. }
  apply str_drop_app.
Qed.

Lemma TrimSuffix_app p t : TrimSuffix (p +:+ t) t = p.
Proof.
  unfold TrimSuffix. assert (HasSuffix (p +:+ t) t = true) as ->.
  { apply HasSuffix_spec; eauto. }
  rewrite str_app_length. replace (_ - _) with (String.length p) by lia. apply str_take_app.
Qed.

Lemma str_mem_app c s t : str_mem c (s +:+ t) = str_mem c s || str_mem c t.
Proof. induction s as [|d s IH]; [done|]. simpl. by rewrite IH, orb_assoc. Qed.

Lemma str_mem_spec c s : str_mem c s = true ↔ ∃ s1 s2, s = s1 +:+ String c s2.
Proof.
  induction s as [|d s IH]; simpl.
  - split; [done|]. intros ([|] & ? & H); done.
  - rewrite orb_true_iff, bool_decide_eq_true, IH. split.
    + intros [->|(s1 & s2 & ->)]; [by exists "", s | by exists (String d s1), s2].
    + intros ([|e s1] & s2 & H); injection H as -> H; subst; eauto.
Qed.

Lemma Contains_spec s sub : Contains s sub = true ↔ ∃ a b, s = a +:+ sub +:+ b.
Proof.
  induction s as [|c s IH]; simpl; rewrite orb_true_iff, HasPrefix_spec.
  - split; [intros [(t & H)|?]; [by exists "", t | done]|].
    intros ([|] & b & H); [left; eauto | done].
  - rewrite IH. split.
    + intros [(t & H)|(a & b & ->)]; [by exists "", t | by exists (String c a), b].
    + intros ([|d a] & b & H); simpl in H; [left; eauto|]. injection H as -> ->. eauto.
Qed.

Lemma IndexByte_spec s c i :
  IndexByte s c = Some i ↔
  String.length (str_take i s) = i ∧ str_mem c (str_take i s) = false ∧ s = str_take i s +:+ String c (str_drop (S i) s).
Proof.
  revert i; induction s as [|d s IH]; intros i; simpl.
  - destruct i; simpl; naive_solver.
  - case_bool_decide as Hc; subst.
    + split; [intros [= <-]; done|]. destruct i; [done|]. simpl. rewrite bool_decide_true by done. naive_solver.
    + destruct i as [|i]; simpl.
      * destruct (IndexByte s c); simpl; naive_solver.
      * rewrite fmap_Some. setoid_rewrite IH. rewrite (bool_decide_false (c = d)) by done. simpl.
        split.
        -- intros (x & (H1 & H2 & H3) & [= ->]). repeat split; [lia | done | by f_equal].
        -- intros (H1 & H2 & H3). exists i. injection H3 as H3. repeat split; [lia | done | done].
Qed.

#[export] Hint Resolve string_eqb_refl HasPrefix_spec HasSuffix_spec : knx.

(** ** Indices and suffixes *)

Lemma str_drop_drop n k s : str_drop k (str_drop n s) = str_drop (n + k) s.
Proof.
  revert s; induction n as [|n IH]; intros s; simpl; [done|].
  destruct s; simpl; [by destruct k | apply IH].
Qed.

Lemma str_drop_ge n s : String.length s ≤ n → str_drop n s = "".
Proof.
  revert n; induction s as [|c s IH]; intros [|n]; simpl; try done; [lia|].
  intros. apply IH. lia.
Qed.

Lemma str_drop_length n s : String.length (str_drop n s) = String.length s - n.
Proof. revert n; induction s as [|c s IH]; intros [|n]; simpl; try done. Qed.

Lemma str_get_drop n k s : String.get k (str_drop n s) = String.get (n + k) s.
Proof.
  revert s; induction n as [|n IH]; intros s; simpl; [done|].
  destruct s; simpl; [by destruct k | apply IH].
Qed.

(** [s[i]] exists exactly when [i < len(s)], and then heads the suffix. *)
Lemma str_get_Some i s c :
  String.get i s = Some c ↔ str_drop i s = String c (str_drop (i + 1) s).
Proof.
  revert i; induction s as [|d s IH]; intros [|i]; simpl; try naive_solver.
Qed.

Lemma str_get_lt i s : i < String.length s → ∃ c, String.get i s = Some c.
Proof.
  revert i; induction s as [|d s IH]; intros [|i]; simpl; intros; [lia..|eauto|].
  apply IH. lia.
Qed.

Lemma str_get_None i s : String.get i s = None ↔ String.length s ≤ i.
Proof.
  revert i; induction s as [|d s IH]; intros [|i]; simpl; split; intros H; try done; try lia.
  - apply IH in H. lia.
  - apply IH. lia.
Qed.

Lemma str_app_inv_length s1 s2 t1 t2 :
  s1 +:+ s2 = t1 +:+ t2 → String.length s1 = String.length t1 → s1 = t1 ∧ s2 = t2.
Proof.
  revert t1; induction s1 as [|c s1 IH]; intros [|d t1]; simpl; intros H Hl; try lia; [done|].
  injection H as -> H. apply IH in H as [-> ->]; auto.
Qed.

Lemma str_take_drop n s : str_take n s +:+ str_drop n s = s.
Proof. revert n; induction s as [|c s IH]; intros [|n]; simpl; try done. by rewrite IH. Qed.

(** A later index of a subject splits what is left of it. *)
Lemma suffix_split s i t u :
  str_drop i s = t +:+ u → i ≤ String.length s → u = str_drop (i + String.length t) s.
Proof. intros H Hi. rewrite <-str_drop_drop, H. symmetry. apply str_drop_app. Qed.

(** The conversions [[]byte(s)] and [string(b)]. *)
Definition bytes_of (s : string) : bytes := String.list_ascii_of_string s.
Definition string_of (b : bytes) : string := String.string_of_list_ascii b.

Lemma string_of_bytes s : string_of (bytes_of s) = s.
Proof. apply String.string_of_list_ascii_of_string. Qed.
Lemma bytes_of_string b : bytes_of (string_of b) = b.
Proof. apply String.list_ascii_of_string_of_list_ascii. Qed.

(** ** Package strconv: decimal [int]s *)

Definition digit (n : Z) : ascii := ascii_of_nat (48 + Z.to_nat n).
Definition is_digit (c : ascii) : bool := let n := nat_of_ascii c in Nat.leb 48 n && Nat.leb n 57.
Definition digit_val (c : ascii) : Z := Z.of_nat (nat_of_ascii c) - 48.

(** The digits of a number before [rest]; twenty are enough for 64 bits. *)
Fixpoint digits (fuel : nat) (n : Z) (rest : string) : string :=
  match fuel with
  | O => rest
  | S fuel => let rest := String (digit (n mod 10)) rest in
              if (n <? 10)%Z then rest else digits fuel (n / 10) rest
  end.
Definition Itoa (n : Z) : string := if (n <? 0)%Z then "-" +:+ digits 20 (- n) "" else digits 20 n "".

Fixpoint parse_digits (acc : Z) (s : string) : option Z :=
  match s with
  | EmptyString => Some acc
  | String c s => if is_digit c then parse_digits (acc * 10 + digit_val c) s else None
  end.
Definition parse_nonempty (s : string) : option Z := if s =s "" then None else parse_digits 0 s.

(** [strconv.Atoi] and [strconv.ParseInt(s, 10, 64)]: [None] is an error, of
    syntax or of range. *)
Definition Atoi (s : string) : option Z :=
  let n := match s with
           | String "+" t => parse_nonempty t
           | String "-" t => Z.opp <$> parse_nonempty t
           | _ => parse_nonempty s
           end in
  match n with
  | Some n => if ((- 2 ^ 63 <=? n) && (n <? 2 ^ 63))%Z then Some n else None
  | None => None
  end.

Lemma digit_facts n : (0 ≤ n < 10)%Z → is_digit (digit n) = true ∧ digit_val (digit n) = n.
Proof.
  intros Hn. assert (∃ k, k < 10 ∧ n = Z.of_nat k) as (k & Hk & ->) by (exists (Z.to_nat n); lia).
  do 10 (destruct k as [|k]; [done|]). lia.
Qed.

Lemma parse_digits_digits fuel n rest : (0 ≤ n < 10 ^ Z.of_nat fuel)%Z →
  parse_digits 0 (digits fuel n rest) = parse_digits n rest.
Proof.
  revert n rest. induction fuel as [|fuel IH]; intros n rest Hn; [simpl; f_equal; lia|].
  cbn [digits]. destruct (digit_facts (n mod 10)) as [Hd Hv]; [apply Z.mod_pos_bound; lia|].
  assert (Hdm := Z.div_mod n 10 ltac:(lia)). assert (Hm := Z.mod_pos_bound n 10 ltac:(lia)).
  destruct (Z.ltb_spec n 10); [|rewrite IH].
  - cbn [parse_digits]. rewrite Hd, Hv. f_equal. assert (n / 10 = 0)%Z by (apply Z.div_small; lia). lia.
  - cbn [parse_digits]. rewrite Hd, Hv. f_equal. lia.
  - rewrite Nat2Z.inj_succ, Z.pow_succ_r in Hn by lia. split; [apply Z.div_pos; lia|].
    apply Z.div_lt_upper_bound; lia.
Qed.

Lemma digits_head fuel n rest : (0 ≤ n)%Z → ∃ d s, (0 ≤ d < 10)%Z ∧ digits (S fuel) n rest = String (digit d) s.
Proof.
  revert n rest. induction fuel as [|fuel IH]; intros n rest Hn;
    (destruct (Z.ltb_spec n 10) as [Hlt|Hge]; cbn [digits];
     [rewrite (proj2 (Z.ltb_lt n 10) Hlt); exists (n mod 10)%Z, rest; split; [apply Z.mod_pos_bound; lia|done]|
      rewrite (proj2 (Z.ltb_ge n 10) Hge)]).
  - exists (n mod 10)%Z, rest. split; [apply Z.mod_pos_bound; lia|done].
  - apply IH, Z.div_pos; lia.
Qed.

Lemma digit_signs d : (0 ≤ d < 10)%Z → digit d ≠ "+"%char ∧ digit d ≠ "-"%char.
Proof. intros Hd. destruct (digit_facts d Hd) as [H _]. split; intros E; by rewrite E in H. Qed.

Lemma Atoi_unsigned d s : (0 ≤ d < 10)%Z → Atoi (String (digit d) s) =
  match parse_digits 0 (String (digit d) s) with
  | Some n => if ((- 2 ^ 63 <=? n) && (n <? 2 ^ 63))%Z then Some n else None
  | None => None
  end.
Proof.
  intros Hd. assert (∃ k, k < 10 ∧ d = Z.of_nat k) as (k & Hk & ->) by (exists (Z.to_nat d); lia).
  do 10 (destruct k as [|k]; [done|]). lia.
Qed.

Lemma Atoi_range n : (- 2 ^ 63 ≤ n < 2 ^ 63)%Z → ((- 2 ^ 63 <=? n) && (n <? 2 ^ 63))%Z = true.
Proof. intros Hn. apply andb_true_iff. split; [apply Z.leb_le|apply Z.ltb_lt]; lia. Qed.

Lemma parse_Itoa n : (0 ≤ n ≤ 2 ^ 63)%Z → ∃ d s, (0 ≤ d < 10)%Z ∧ digits 20 n "" = String (digit d) s ∧
  parse_digits 0 (String (digit d) s) = Some n.
Proof.
  intros Hn. destruct (digits_head 19 n "" ltac:(lia)) as (d & s & Hd & E). exists d, s. split; [done|]. split; [done|].
  rewrite <-E, parse_digits_digits; [done|]. change (10 ^ Z.of_nat 20)%Z with 100000000000000000000%Z. lia.
Qed.

Lemma Atoi_Itoa n : (- 2 ^ 63 ≤ n < 2 ^ 63)%Z → Atoi (Itoa n) = Some n.
Proof.
  intros Hn. unfold Itoa. destruct (Z.ltb_spec n 0) as [Hneg|Hpos].
  - destruct (parse_Itoa (- n) ltac:(lia)) as (d & s & Hd & -> & Hp).
    change ("-" +:+ String (digit d) s) with (String "-" (String (digit d) s)). unfold Atoi.
    unfold parse_nonempty. rewrite bool_decide_eq_false_2, Hp by done. cbn [fmap option_fmap option_map].
    rewrite Z.opp_involutive, Atoi_range; done.
  - destruct (parse_Itoa n ltac:(lia)) as (d & s & Hd & -> & Hp). by rewrite Atoi_unsigned, Hp, Atoi_range.
Qed.

Lemma str_app_inj_r s t u : t +:+ s = u +:+ s → t = u.
Proof.
  intros E. assert (Hl : String.length t = String.length u) by (apply (f_equal String.length) in E; rewrite !str_app_length in E; lia).
  by apply str_app_inv_length in E as [? _].
Qed.

(** ** Trimming and lowering a string with a known start *)

Lemma TrimRight_app_nonspace p c t : IsSpace c = false → TrimRight (p +:+ String c t) = p +:+ String c (TrimRight t).
Proof.
  intros Hc. induction p as [|d p IH]; cbn [String.append TrimRight].
  - destruct (TrimRight t); [by rewrite Hc|done].
  - rewrite IH. by destruct p.
Qed.

Lemma TrimRight_nonspace s : (∀ c, str_mem c s = true → IsSpace c = false) → ∀ t, (∀ c, str_mem c t = true → IsSpace c = true) → TrimRight (s +:+ t) = s.
Proof.
  intros Hs t Ht. assert (E : TrimRight t = "").
  { induction t as [|c t IH]; [done|]. cbn. rewrite IH by (intros d Hd; apply Ht; cbn; by rewrite Hd, orb_true_r). by rewrite Ht by (cbn; by rewrite bool_decide_eq_true_2). }
  induction s as [|c s IH]; [done|]. cbn [String.append TrimRight]. rewrite IH by (intros d Hd; apply Hs; cbn; by rewrite Hd, orb_true_r).
  destruct s; [|done]. by rewrite Hs by (cbn; by rewrite bool_decide_eq_true_2).
Qed.

Lemma nonspace_trim s : (∀ c, str_mem c s = true → IsSpace c = false) → TrimSpace s = s.
Proof.
  intros Hs. unfold TrimSpace. assert (Hl : TrimLeft s = s).
  { destruct s as [|c s]; [done|]. cbn. rewrite Hs; [done|]. cbn. by rewrite bool_decide_eq_true_2. }
  rewrite Hl, <-(str_app_empty_r s) at 1. by apply TrimRight_nonspace.
Qed.

Lemma ToLower_app s t : ToLower (s +:+ t) = ToLower s +:+ ToLower t.
Proof. induction s as [|c s IH]; simpl; [done|]. by rewrite IH. Qed.

(** A string is split in one way at the first occurrence of a separator. *)
Lemma str_sep_inj c s1 s2 t1 t2 : str_mem c s1 = false → str_mem c s2 = false →
  s1 +:+ String c t1 = s2 +:+ String c t2 → s1 = s2 ∧ t1 = t2.
Proof.
  revert s2. induction s1 as [|d s1 IH]; intros [|e s2]; simpl; intros H1 H2 Heq.
  - by injection Heq.
  - injection Heq as <- _. by rewrite bool_decide_eq_true_2 in H2.
  - injection Heq as -> _. by rewrite bool_decide_eq_true_2 in H1.
  - injection Heq as <- Heq. apply orb_false_iff in H1 as [_ H1], H2 as [_ H2].
    destruct (IH _ H1 H2 Heq) as [-> ->]. done.
Qed.

(** Splitting at a separator, and decimal numbers, which hold none. *)
Lemma SplitOn_app sep a b : SplitOn sep (a +:+ String sep b) = SplitOn sep a ++ SplitOn sep b.
Proof.
  induction a as [|c a IH]; cbn; [by rewrite Ascii.eqb_refl|]. rewrite IH. destruct (Ascii.eqb c sep); [done|].
  by destruct (SplitOn sep a) as [|seg segs] eqn:E; [destruct a as [|d a]; cbn in E; [|repeat case_match]|].
Qed.

Lemma SplitOn_none sep b : str_mem sep b = false → SplitOn sep b = [b].
Proof.
  induction b as [|c b IH]; [done|]. cbn. intros [Hc%bool_decide_eq_false Hb]%orb_false_iff. destruct (Ascii.eqb_spec c sep) as [->|]; [done|]. by rewrite IH.
Qed.

Lemma digits_plain fuel n rest : (0 ≤ n)%Z → (∀ c, str_mem c rest = true → is_digit c = true) → ∀ c, str_mem c (digits fuel n rest) = true → is_digit c = true.
Proof.
  revert n rest. induction fuel as [|fuel IH]; intros n rest Hn Hr; [done|]. cbn [digits].
  assert (Hd : ∀ c, str_mem c (String (digit (n mod 10)%Z) rest) = true → is_digit c = true).
  { intros c. cbn [str_mem]. intros [->%bool_decide_eq_true|Hc]%orb_true_iff; [|by apply Hr]. apply (digit_facts (n mod 10)%Z). apply Z.mod_pos_bound. lia. }
  destruct (n <? 10)%Z; [done|]. apply IH; [by apply Z.div_pos|done].
Qed.

Lemma Itoa_digits n c : (0 ≤ n)%Z → str_mem c (Itoa n) = true → is_digit c = true.
Proof. intros Hn. unfold Itoa. destruct (Z.ltb_spec n 0); [lia|]. by apply digits_plain. Qed.

Lemma Itoa_plain n c : (0 ≤ n)%Z → is_digit c = false → str_mem c (Itoa n) = false.
Proof. intros Hn Hc. apply not_true_iff_false. intros Hm%Itoa_digits; [congruence|done]. Qed.
