(* ===== verification/Net.v ===== *)
(** Addresses and networks: the allow-list of the unseal request
    (internal/netutil, internal/api/router.go, internal/api/handlers/sys.go) and
    the protection of outgoing requests against internal destinations
    (internal/acme/ssrf.go).

    A [net.IP] is the number its 16-byte form stands for; an IPv4 address is the
    mapped one, as in package net, whose methods give the same answer for both
    forms. The parsers of addresses, networks and URLs are the class [NetText],
    with the documented ranges of their results as [NetTextLaws]. *)

From S2P Require Import Prelude.
From S2P Require Import GoLib.

From Stdlib Require Import Btauto.

#[local] Open Scope Z_scope.

(** ** Package net *)

Abbreviation IP := Z.

Definition v4_prefix : Z := Z.shiftl 0xffff 32.
Definition To4 (ip : IP) : option Z := if Z.shiftr ip 32 =? 0xffff then Some (Z.land ip 0xffffffff) else None.
(** Byte [i] of an address of [n] bytes. *)
Definition ip_byte (n i : Z) (ip : Z) : Z := Z.land (Z.shiftr ip (8 * (n - 1 - i))) 0xff.
Abbreviation b4 := (ip_byte 4).
Abbreviation b16 := (ip_byte 16).

Definition IsUnspecified (ip : IP) : bool := match To4 ip with Some a => a =? 0 | None => ip =? 0 end.
Definition IsLoopback (ip : IP) : bool := match To4 ip with Some a => b4 0 a =? 127 | None => ip =? 1 end.
Definition IsPrivate (ip : IP) : bool :=
  match To4 ip with
  | Some a => (b4 0 a =? 10) || ((b4 0 a =? 172) && (Z.land (b4 1 a) 0xf0 =? 16)) || ((b4 0 a =? 192) && (b4 1 a =? 168))
  | None => Z.land (b16 0 ip) 0xfe =? 0xfc
  end.
Definition IsLinkLocalMulticast (ip : IP) : bool :=
  match To4 ip with
  | Some a => (b4 0 a =? 224) && (b4 1 a =? 0) && (b4 2 a =? 0)
  | None => (b16 0 ip =? 0xff) && (Z.land (b16 1 ip) 0x0f =? 0x02)
  end.
Definition IsLinkLocalUnicast (ip : IP) : bool :=
  match To4 ip with
  | Some a => (b4 0 a =? 169) && (b4 1 a =? 254)
  | None => (b16 0 ip =? 0xfe) && (Z.land (b16 1 ip) 0xc0 =? 0x80)
  end.

(** A network as [ParseCIDR] gives it: the masked address, 4 bytes long for a
    network written as IPv4, with the size of the mask. *)
Record IPNet := mkIPNet { in_IP : Z; in_ones : Z; in_bits : Z }.

(** [networkNumberAndMask]: number, ones of the mask and length in bits. *)
Definition number_and_mask (n : IPNet) : Z * Z * Z :=
  if in_bits n =? 32 then (in_IP n, in_ones n, 32)
  else match To4 (in_IP n) with
       | Some a => (a, Z.max 0 (in_ones n - 96), 32)
       | None => (in_IP n, in_ones n, 128)
       end.

Definition IPNet_Contains (n : IPNet) (ip : IP) : bool :=
  let '(nn, ones, bits) := number_and_mask n in
  let '(x, l) := match To4 ip with Some a => (a, 32) | None => (ip, 128) end in
  (l =? bits) && (Z.shiftr nn (bits - ones) =? Z.shiftr x (bits - ones)).

Record NetURL := mkNetURL { nu_Scheme : string; nu_Hostname : string; nu_Username : string; nu_HasUser : bool; nu_HasPassword : bool }.

Class NetText := {
  net_ParseIP : string → option IP;
  net_ParseCIDR : string → res IPNet;
  url_Parse : string → res NetURL;
  ip_String : IP → string;
}.

Definition ip_range (ip : IP) : Prop := 0 ≤ ip < 2 ^ 128.
Record net_ok (n : IPNet) : Prop := {
  no_bits : in_bits n = 32 ∨ in_bits n = 128;
  no_ones : 0 ≤ in_ones n ≤ in_bits n;
  no_IP : 0 ≤ in_IP n < 2 ^ in_bits n;
}.
Class NetTextLaws `{NetText} := {
  ParseIP_range : ∀ s ip, net_ParseIP s = Some ip → ip_range ip;
  ParseCIDR_ok : ∀ s n, net_ParseCIDR s = Ok n → net_ok n;
}.

(** ** internal/netutil *)

Section netutil.
Context `{NetText}.

Definition is_v4 (ip : IP) : bool := match To4 ip with Some _ => true | None => false end.

(** One entry of the list; an address alone is a network of its own. *)
Definition parse_entry (raw : string) : res IPNet :=
  cidr ← (if Contains raw "/" then Ok raw
          else match net_ParseIP raw with
               | None => Err (Plain ("invalid IP " +:+ quoted raw))
               | Some ip => Ok (raw +:+ if is_v4 ip then "/32" else "/128")
               end);
  match net_ParseCIDR cidr with
  | Ok n => Ok n
  | Err e => Err (Plain ("invalid CIDR " +:+ quoted cidr +:+ ": " +:+ error_string e))
  end.

Fixpoint ParseCIDRs (cidrs : list string) : res (list IPNet) :=
  match cidrs with
  | [] => Ok []
  | raw :: cidrs =>
      let raw := TrimSpace raw in
      if raw =s "" then ParseCIDRs cidrs
      else n ← parse_entry raw; out ← ParseCIDRs cidrs; Ok (n :: out)
  end.

Definition IPAllowed (ipStr : string) (nets : list IPNet) : bool :=
  match nets with
  | [] => true
  | _ => match net_ParseIP (TrimSpace ipStr) with
         | None => false
         | Some ip => existsb (λ n, IPNet_Contains n ip) nets
         end
  end.

Definition ValidateVaultBaseURL (raw : string) (requireHTTPS : bool) : res unit :=
  let raw := TrimSpace raw in
  if raw =s "" then Err (Plain "vault address is required")
  else match url_Parse raw with
       | Err e => Err (Plain ("invalid vault address: " +:+ error_string e))
       | Ok u =>
           let scheme := ToLower (nu_Scheme u) in
           if negb (scheme =s "http") && negb (scheme =s "https") then Err (Plain "vault address scheme must be http or https")
           else if negb requireHTTPS || (scheme =s "https") then Ok tt
           else
             let host := ToLower (nu_Hostname u) in
             if (host =s "127.0.0.1") || (host =s "localhost") || (host =s "::1") then Ok tt
             else Err (Plain "vault address must use https (loopback http allowed for lab only)")
       end.

(** The networks of the router, and the check of the unseal handler. *)
Definition unseal_nets (cidrs : list string) : list IPNet :=
  match cidrs with
  | [] => []
  | _ => match ParseCIDRs cidrs with
         | Ok nets => nets
         | Err _ => match net_ParseCIDR "0.0.0.0/32" with Ok n => [n] | Err _ => [] end
         end
  end.
Definition unseal_allowed (cidrs : list string) (clientIP : string) : bool :=
  match unseal_nets cidrs with [] => true | nets => IPAllowed clientIP nets end.

(** ** internal/acme/ssrf.go *)

Definition isBlockedHostname (host : string) : bool :=
  bool_decide (host ∈ ["metadata"; "metadata.google.internal"; "metadata.goog"; "kubernetes.default"; "kubernetes.default.svc"; "instance-data";
                       "instance-data.ec2.internal"]) ||
  (HasSuffix host ".internal" || HasSuffix host ".localhost") || Contains host "169.254.169.254".

Definition isBlockedIP (ip : IP) : bool :=
  if IsLoopback ip || IsPrivate ip || IsLinkLocalUnicast ip || IsLinkLocalMulticast ip || IsUnspecified ip then true
  else match To4 ip with
       | None => false
       | Some a =>
           ((b4 0 a =? 100) && (64 <=? b4 1 a) && (b4 1 a <=? 127)) ||
           ((b4 0 a =? 198) && ((b4 1 a =? 18) || (b4 1 a =? 19))) ||
           ((b4 0 a =? 198) && (b4 1 a =? 51) && (b4 2 a =? 100)) ||
           ((b4 0 a =? 203) && (b4 1 a =? 0) && (b4 2 a =? 113))
       end.

(** [lookup] is [net.LookupIP]. *)
Definition validateOutboundURL (lookup : string → res (list IP)) (raw : string) (resolveDNS : bool) : res unit :=
  let raw := TrimSpace raw in
  if raw =s "" then Err (Plain "url is required")
  else match url_Parse raw with
       | Err e => Err (Plain ("invalid url: " +:+ error_string e))
       | Ok u =>
           let scheme := ToLower (nu_Scheme u) in
           if negb (scheme =s "http") && negb (scheme =s "https") then Err (Plain "url scheme must be http or https")
           else
             let host := nu_Hostname u in
             if host =s "" then Err (Plain "url host required")
             else if isBlockedHostname (ToLower host) then Err (Plain "url host not allowed")
             else match net_ParseIP host with
                  | Some ip => if isBlockedIP ip then Err (Plain "url host is not a public address") else Ok tt
                  | None =>
                      if negb resolveDNS then Ok tt
                      else match lookup host with
                           | Err e => Err (Plain ("url host resolve failed: " +:+ error_string e))
                           | Ok ips => if existsb isBlockedIP ips then Err (Plain "url host resolves to a non-public address") else Ok tt
                           end
                  end
       end.
Definition ValidateOutboundURL (lookup : string → res (list IP)) (raw : string) : res unit := validateOutboundURL lookup raw true.
Definition ValidateDirectoryURL (lookup : string → res (list IP)) (raw : string) : res unit := validateOutboundURL lookup raw false.

Definition PublicLEHost (raw : string) : bool :=
  match url_Parse raw with
  | Err _ => false
  | Ok u => let h := ToLower (nu_Hostname u) in (h =s "letsencrypt.org") || HasSuffix h ".letsencrypt.org"
  end.

Definition IsLoopbackDirectoryURL (raw : string) : bool :=
  match url_Parse (TrimSpace raw) with
  | Err _ => false
  | Ok u => let host := ToLower (nu_Hostname u) in
            if host =s "localhost" then true else match net_ParseIP host with Some ip => IsLoopback ip | None => false end
  end.

(** The dialer of the safe client, on the answers of the resolver: [connect] is
    the attempt to reach an address, and the addresses attempted are recorded. *)
Fixpoint dial_loop (allowLoopback : bool) (connect : IP → res unit) (host : string) (last : option error) (tried : list IP) (ips : list IP) : list IP * res IP :=
  match ips with
  | [] => (tried, Err (match last with Some e => e | None => Plain ("no allowed addresses for " +:+ host) end))
  | ip :: ips =>
      if negb (allowLoopback && IsLoopback ip) && isBlockedIP ip then dial_loop allowLoopback connect host (Some (Plain ("blocked address " +:+ ip_String ip))) tried ips
      else match connect ip with
           | Ok _ => (tried ++ [ip], Ok ip)
           | Err e => dial_loop allowLoopback connect host (Some e) (tried ++ [ip]) ips
           end
  end.
Definition safe_dial (allowLoopback : bool) (resolve : string → res (list IP)) (connect : IP → res unit) (host : string) : list IP * res IP :=
  match resolve host with
  | Err e => ([], Err (Plain ("resolve " +:+ host +:+ ": " +:+ error_string e)))
  | Ok ips => dial_loop allowLoopback connect host None [] ips
  end.
End netutil.

(** ** The blocked addresses as networks *)

Lemma bool_eq_iff (a b : bool) : (a = true ↔ b = true) → a = b.
Proof. destruct a, b; intuition congruence. Qed.

Lemma To4_range ip a : To4 ip = Some a → 0 ≤ a < 2 ^ 32.
Proof.
  unfold To4. case_match; [|done]. intros [= <-]. change 0xffffffff with (Z.ones 32). rewrite Z.land_ones by lia. apply Z.mod_pos_bound. lia.
Qed.

Lemma land_byte x : Z.land x 0xff = x mod 256.
Proof. change 0xff with (Z.ones 8). rewrite Z.land_ones by lia. done. Qed.

Lemma b4_div i a : 0 ≤ i < 4 → 0 ≤ a → b4 i a = a / 2 ^ (8 * (3 - i)) mod 256.
Proof. intros Hi Ha. unfold ip_byte. rewrite land_byte, Z.shiftr_div_pow2 by lia. do 3 f_equal; lia. Qed.

(** A mask on a byte that keeps its upper bits is a division. *)
Definition mask_table (m k : Z) : bool := forallb (λ n, let b := Z.of_nat n in Z.land b m =? (b / 2 ^ k) * 2 ^ k) (seq 0 256).
Lemma mask_div m k b : mask_table m k = true → 0 ≤ b < 256 → Z.land b m = b / 2 ^ k * 2 ^ k.
Proof.
  intros Ht Hb. apply forallb_forall with (x := Z.to_nat b) in Ht; [|apply in_seq; lia]. rewrite Z2Nat.id in Ht by lia. by apply Z.eqb_eq in Ht.
Qed.

Definition v4_net (a b c d ones : Z) : IPNet := mkIPNet (a * 2 ^ 24 + b * 2 ^ 16 + c * 2 ^ 8 + d) ones 32.
Definition v6_net (hi ones : Z) : IPNet := mkIPNet (Z.shiftl hi 112) ones 128.

Definition blocked_v4 : list IPNet :=
  [v4_net 0 0 0 0 32; v4_net 127 0 0 0 8; v4_net 10 0 0 0 8; v4_net 172 16 0 0 12; v4_net 192 168 0 0 16; v4_net 169 254 0 0 16;
   v4_net 224 0 0 0 24; v4_net 100 64 0 0 10; v4_net 198 18 0 0 15; v4_net 198 51 100 0 24; v4_net 203 0 113 0 24].
Definition blocked_v6 : list IPNet :=
  mkIPNet 0 128 128 :: mkIPNet 1 128 128 :: v6_net 0xfc00 7 :: v6_net 0xfe80 10 :: ((λ i, v6_net (0xff02 + 16 * Z.of_nat i) 16) <$> seq 0 16).

Lemma contains_v4 a b c d ones ip x : To4 ip = Some x → 0 ≤ ones ≤ 32 →
  IPNet_Contains (v4_net a b c d ones) ip = ((a * 2 ^ 24 + b * 2 ^ 16 + c * 2 ^ 8 + d) / 2 ^ (32 - ones) =? x / 2 ^ (32 - ones)).
Proof.
  intros Hx Ho. unfold IPNet_Contains, number_and_mask, v4_net. cbn [in_bits in_IP in_ones]. rewrite Hx. 
  change (32 =? 32) with true. cbv iota beta. change (32 =? 32) with true. rewrite !Z.shiftr_div_pow2 by lia. done.
Qed.

(** The four bytes of an address, and its shifts in terms of them. *)
Definition byte_range (b : Z) : Prop := 0 ≤ b < 256.
Lemma quad a : 0 ≤ a < 2 ^ 32 → ∃ b0 b1 b2 b3, byte_range b0 ∧ byte_range b1 ∧ byte_range b2 ∧ byte_range b3 ∧ a = b0 * 2 ^ 24 + b1 * 2 ^ 16 + b2 * 2 ^ 8 + b3.
Proof.
  intros Ha. exists (a / 2 ^ 24), (a / 2 ^ 16 mod 256), (a / 2 ^ 8 mod 256), (a mod 256). unfold byte_range. change (2 ^ 32) with 4294967296 in *.
  change (2 ^ 24) with 16777216. change (2 ^ 16) with 65536. change (2 ^ 8) with 256. Z.to_euclidean_division_equations; lia.
Qed.

Lemma quad_divs b0 b1 b2 b3 : byte_range b0 → byte_range b1 → byte_range b2 → byte_range b3 → let a := b0 * 16777216 + b1 * 65536 + b2 * 256 + b3 in
  a / 16777216 = b0 ∧ a / 65536 = b0 * 256 + b1 ∧ a / 256 = b0 * 65536 + b1 * 256 + b2 ∧ a / 1 = a ∧
  a / 1048576 = b0 * 16 + b1 / 16 ∧ a / 4194304 = b0 * 4 + b1 / 64 ∧ a / 131072 = b0 * 128 + b1 / 2.
Proof. unfold byte_range. cbv zeta. intros. repeat split; Z.to_euclidean_division_equations; lia. Qed.

Lemma quad_mods b0 b1 b2 : byte_range b0 → byte_range b1 → byte_range b2 →
  b0 mod 256 = b0 ∧ (b0 * 256 + b1) mod 256 = b1 ∧ (b0 * 65536 + b1 * 256 + b2) mod 256 = b2.
Proof. unfold byte_range. intros. repeat split; Z.to_euclidean_division_equations; lia. Qed.

(** The tests on shifts as tests on bytes. *)
Lemma quad_tests b0 b1 b2 b3 : byte_range b0 → byte_range b1 → byte_range b2 → byte_range b3 →
  (0 =? b0 * 16777216 + b1 * 65536 + b2 * 256 + b3) = (b0 * 16777216 + b1 * 65536 + b2 * 256 + b3 =? 0) ∧
  (2753 =? b0 * 16 + b1 / 16) = (b0 =? 172) && (b1 / 16 * 16 =? 16) ∧
  (49320 =? b0 * 256 + b1) = (b0 =? 192) && (b1 =? 168) ∧
  (43518 =? b0 * 256 + b1) = (b0 =? 169) && (b1 =? 254) ∧
  (14680064 =? b0 * 65536 + b1 * 256 + b2) = (b0 =? 224) && (b1 =? 0) && (b2 =? 0) ∧
  (401 =? b0 * 4 + b1 / 64) = (b0 =? 100) && (64 <=? b1) && (b1 <=? 127) ∧
  (25353 =? b0 * 128 + b1 / 2) = (b0 =? 198) && ((b1 =? 18) || (b1 =? 19)) ∧
  (12989284 =? b0 * 65536 + b1 * 256 + b2) = (b0 =? 198) && (b1 =? 51) && (b2 =? 100) ∧
  (13303921 =? b0 * 65536 + b1 * 256 + b2) = (b0 =? 203) && (b1 =? 0) && (b2 =? 113).
Proof. unfold byte_range. intros. repeat split; Z.to_euclidean_division_equations; lia. Qed.

Ltac eval_quotients :=
  repeat match goal with |- context [(?c / ?d =? _)] => let v := eval vm_compute in (c / d) in lazymatch v with Z0 => idtac | Zpos _ => idtac end; change (c / d) with v end.
Ltac eval_nets :=
  repeat match goal with |- context [2 ^ ?k] => let y := eval vm_compute in (2 ^ k) in change (2 ^ k) with y end; eval_quotients.

Lemma blocked_v4_spec ip a : To4 ip = Some a → isBlockedIP ip = existsb (λ n, IPNet_Contains n ip) (blocked_v4 ++ blocked_v6).
Proof.
  intros Ha. assert (Hr := To4_range _ _ Ha). rewrite existsb_app.
  replace (existsb _ blocked_v6) with false; [|unfold IPNet_Contains; rewrite Ha; vm_compute; reflexivity].
  unfold isBlockedIP, IsLoopback, IsPrivate, IsLinkLocalUnicast, IsLinkLocalMulticast, IsUnspecified. rewrite !Ha.
  assert (H1 : 0 ≤ b4 1 a < 256) by (rewrite b4_div by lia; apply Z.mod_pos_bound; lia).
  rewrite (mask_div 0xf0 4 (b4 1 a) eq_refl H1). rewrite !b4_div in * by lia. unfold blocked_v4. cbn [existsb].
  rewrite !(contains_v4 _ _ _ _ _ ip a Ha) by lia. clear Ha H1.
  destruct (quad a Hr) as (b0 & b1 & b2 & b3 & H0 & H1 & H2 & H3 & ->). clear Hr.
  eval_nets. destruct (quad_divs b0 b1 b2 b3 H0 H1 H2 H3) as (-> & -> & -> & -> & -> & -> & ->).
  destruct (quad_mods b0 b1 b2 H0 H1 H2) as (-> & -> & ->).
  destruct (quad_tests b0 b1 b2 b3 H0 H1 H2 H3) as (-> & -> & -> & -> & -> & -> & -> & -> & ->). rewrite !(Z.eqb_sym _ b0).
  lazymatch goal with |- (if ?x then true else ?y) = ?z => change (x || y = z) end. btauto.
Qed.

Lemma contains_v6 num ones ip : To4 ip = None → To4 num = None → 0 ≤ ones ≤ 128 →
  IPNet_Contains (mkIPNet num ones 128) ip = (num / 2 ^ (128 - ones) =? ip / 2 ^ (128 - ones)).
Proof.
  intros Hip Hnum Ho. unfold IPNet_Contains, number_and_mask. cbn [in_bits in_IP in_ones]. rewrite Hip, Hnum. change (128 =? 32) with false. cbv iota beta.
  change (128 =? 128) with true. rewrite !Z.shiftr_div_pow2 by lia. done.
Qed.

(** The two leading bytes of an address that is not mapped. *)
Lemma lead_bytes ip : ip_range ip → ∃ c0 c1 r, byte_range c0 ∧ byte_range c1 ∧ 0 ≤ r < 2 ^ 112 ∧ ip = c0 * 2 ^ 120 + c1 * 2 ^ 112 + r.
Proof.
  unfold ip_range, byte_range. intros H. exists (ip / 2 ^ 120), (ip / 2 ^ 112 mod 256), (ip mod 2 ^ 112).
  assert (ip / 2 ^ 120 = ip / 2 ^ 112 / 256) as -> by (rewrite Z.div_div by lia; done).
  assert (0 ≤ ip / 2 ^ 112 < 65536) by (split; [apply Z.div_pos; lia|apply Z.div_lt_upper_bound; lia]).
  assert (Hm := Z.mod_pos_bound ip (2 ^ 112) ltac:(lia)). assert (Hd := Z.div_mod ip (2 ^ 112) ltac:(lia)). change (2 ^ 120) with (256 * 2 ^ 112).
  set (q := ip / 2 ^ 112) in *. set (P := 2 ^ 112) in *. assert (Hq := Z.div_mod q 256 ltac:(lia)). assert (Hqm := Z.mod_pos_bound q 256 ltac:(lia)).
  split_and!; try lia; nia.
Qed.

Lemma lead_divs c0 c1 r : byte_range c0 → byte_range c1 → 0 ≤ r < 2 ^ 112 → let ip := c0 * 2 ^ 120 + c1 * 2 ^ 112 + r in
  b16 0 ip = c0 ∧ b16 1 ip = c1 ∧ ip / 2 ^ 112 = c0 * 256 + c1 ∧ ip / 2 ^ 118 = c0 * 4 + c1 / 64 ∧ ip / 2 ^ 121 = c0 / 2.
Proof.
  unfold byte_range. cbv zeta. intros H0 H1 Hr. unfold ip_byte. set (ip := c0 * 2 ^ 120 + c1 * 2 ^ 112 + r).
  assert (Hip : ip / 2 ^ 112 = c0 * 256 + c1). { symmetry. apply (Z.div_unique _ _ _ r); [lia|]. unfold ip. change (2 ^ 120) with (2 ^ 112 * 256). lia. }
  assert (Hk : ∀ k, 0 ≤ k → ip / 2 ^ (112 + k) = (c0 * 256 + c1) / 2 ^ k) by (intros k Hk; rewrite Z.pow_add_r, <-Z.div_div, Hip by lia; done).
  rewrite !land_byte, !Z.shiftr_div_pow2 by lia. change (8 * (16 - 1 - 0)) with (112 + 8). change (8 * (16 - 1 - 1)) with 112.
  change 118 with (112 + 6). change 121 with (112 + 9). rewrite !Hk, Hip by lia. change (2 ^ 8) with 256. change (2 ^ 6) with 64. change (2 ^ 9) with 512.
  clearbody ip. repeat split; Z.to_euclidean_division_equations; lia.
Qed.

Lemma if_bool (b : bool) : (if b then true else false) = b.
Proof. by destruct b. Qed.

Lemma blocked_v6_spec ip : ip_range ip → To4 ip = None → isBlockedIP ip = existsb (λ n, IPNet_Contains n ip) (blocked_v4 ++ blocked_v6).
Proof.
  intros Hr Ha. rewrite existsb_app.
  replace (existsb _ blocked_v4) with false; [|unfold IPNet_Contains; rewrite Ha; vm_compute; reflexivity].
  unfold isBlockedIP, IsLoopback, IsPrivate, IsLinkLocalUnicast, IsLinkLocalMulticast, IsUnspecified. rewrite !Ha.
  unfold blocked_v6, v6_net. cbn [existsb fmap list_fmap seq].
  rewrite !(contains_v6 _ _ ip Ha) by (lia || reflexivity). clear Ha.
  destruct (lead_bytes ip Hr) as (c0 & c1 & r & H0 & H1 & H2 & E). destruct (lead_divs c0 c1 r H0 H1 H2) as (E0 & E1 & E112 & E118 & E121).
  rewrite <-E in E0, E1, E112, E118, E121. clear E Hr H2. change (128 - 16) with 112. change (128 - 7) with 121. change (128 - 10) with 118.
  change (2 ^ (128 - 128)) with 1. rewrite !Z.div_1_r, E0, E1, E112, E118, E121, !(mask_div 0xfe 1), !(mask_div 0xc0 6) by done.
  change 15 with (Z.ones 4). rewrite Z.land_ones by lia. eval_quotients. rewrite (Z.eqb_sym 0 ip), (Z.eqb_sym 1 ip). unfold byte_range in *.
  generalize (ip =? 0) (ip =? 1). clear E0 E1 E112 E118 E121. intros z o.
  rewrite (if_bool _). change (2 ^ 1) with 2. change (2 ^ 6) with 64. change (2 ^ 4) with 16. clear r ip.
  destruct z; [by rewrite orb_true_r|]. destruct o; [done|]. cbn [orb]. rewrite orb_false_r. Z.to_euclidean_division_equations; lia.
Qed.

(** The test of the source and the networks agree: an address is blocked exactly
    when it lies in one of the listed ranges. *)
Theorem isBlockedIP_ranges ip : ip_range ip → isBlockedIP ip = existsb (λ n, IPNet_Contains n ip) (blocked_v4 ++ blocked_v6).
Proof. intros Hr. destruct (To4 ip) as [a|] eqn:E; [by eapply blocked_v4_spec|by apply blocked_v6_spec]. Qed.

(** ** Outgoing connections *)

Section dial.
Context `{NetText}.

Definition may_dial (allowLoopback : bool) (ip : IP) : bool := (allowLoopback && IsLoopback ip) || negb (isBlockedIP ip).

(** The addresses up to and including the first that answers. *)
Fixpoint attempts (connect : IP → res unit) (ips : list IP) : list IP :=
  match ips with [] => [] | ip :: ips => ip :: match connect ip with Ok _ => [] | Err _ => attempts connect ips end end.

Lemma dial_loop_spec allow connect host last tried ips : let ok := filter (λ ip, may_dial allow ip = true) ips in
  (dial_loop allow connect host last tried ips).1 = tried ++ attempts connect ok ∧
  match (dial_loop allow connect host last tried ips).2 with
  | Ok ip => ∃ l k, ok = l ++ ip :: k ∧ connect ip = Ok tt ∧ Forall (λ x, ¬ is_Ok (connect x)) l
  | Err _ => Forall (λ x, ¬ is_Ok (connect x)) ok
  end.
Proof.
  cbv zeta. revert last tried. induction ips as [|ip ips IH]; intros last tried; cbn [dial_loop]; [split; [by rewrite app_nil_r|by constructor]|].
  assert (Hm : negb (allow && IsLoopback ip) && isBlockedIP ip = negb (may_dial allow ip)) by (unfold may_dial; by destruct (allow && _), (isBlockedIP ip)).
  rewrite Hm. destruct (may_dial allow ip) eqn:Ed; cbn [negb]; [rewrite filter_cons_True by done|rewrite filter_cons_False by congruence; apply IH].
  cbn [attempts]. destruct (connect ip) as [[]|e] eqn:Ec.
  - split; [done|]. exists [], (filter (λ ip, may_dial allow ip = true) ips). by split_and!.
  - destruct (IH (Some e) (tried ++ [ip])) as [E1 E2]. rewrite E1, <-app_assoc. split; [done|].
    assert (Hno : ¬ is_Ok (connect ip)) by (rewrite Ec; by intros []). destruct (dial_loop _ _ _ _ _ _).2 as [x|e']; [|by constructor].
    destruct E2 as (l & k & -> & Hx & Hl). exists (ip :: l), k. split_and!; [done..|by constructor].
Qed.

Lemma attempts_sub connect ips ip : ip ∈ attempts connect ips → ip ∈ ips.
Proof. induction ips as [|x ips IH]; cbn; [done|]. rewrite !elem_of_cons. intros [->|Hin]; [by left|]. destruct (connect x); [by apply not_elem_of_nil in Hin|]. right. by apply IH. Qed.

(** The loopback networks, and where the safe client may connect to: outside every
    listed network, or to the loopback where that is allowed. *)
Definition loopback_nets : list IPNet := [v4_net 127 0 0 0 8; mkIPNet 1 128 128].
Definition in_nets (nets : list IPNet) (ip : IP) : Prop := ∃ n, n ∈ nets ∧ IPNet_Contains n ip = true.
Definition dialable (allow : bool) (ip : IP) : Prop := ¬ in_nets (blocked_v4 ++ blocked_v6) ip ∨ allow = true ∧ in_nets loopback_nets ip.

Lemma in_nets_existsb nets ip : existsb (λ n, IPNet_Contains n ip) nets = true ↔ in_nets nets ip.
Proof. rewrite existsb_exists. unfold in_nets. by setoid_rewrite list_elem_of_In. Qed.

Lemma IsLoopback_nets ip : ip_range ip → IsLoopback ip = existsb (λ n, IPNet_Contains n ip) loopback_nets.
Proof.
  intros Hr. unfold IsLoopback, loopback_nets. cbn [existsb]. destruct (To4 ip) as [a|] eqn:E.
  - assert (Ha := To4_range _ _ E). rewrite (contains_v4 _ _ _ _ _ ip a E), b4_div by lia.
    replace (IPNet_Contains (mkIPNet 1 128 128) ip) with false by (unfold IPNet_Contains; rewrite E; vm_compute; reflexivity).
    change (32 - 8) with 24. change (127 * 2 ^ 24 + 0 * 2 ^ 16 + 0 * 2 ^ 8 + 0) with (127 * 16777216). change (2 ^ 24) with 16777216 in *.
    change (2 ^ 32) with 4294967296 in *. rewrite orb_false_r. apply eq_true_iff_eq. rewrite !Z.eqb_eq.
    Z.to_euclidean_division_equations; lia.
  - rewrite (contains_v6 1 128 ip) by (done || lia).
    replace (IPNet_Contains (v4_net 127 0 0 0 8) ip) with false by (unfold IPNet_Contains; rewrite E; vm_compute; reflexivity).
    cbn [orb]. rewrite orb_false_r. change (2 ^ (128 - 128)) with 1. rewrite !Z.div_1_r. apply Z.eqb_sym.
Qed.

Lemma may_dial_spec allow ip : ip_range ip → may_dial allow ip = true ↔ dialable allow ip.
Proof.
  intros Hr. unfold may_dial, dialable. rewrite orb_true_iff, andb_true_iff, negb_true_iff, IsLoopback_nets, in_nets_existsb, isBlockedIP_ranges by done.
  rewrite <-not_true_iff_false, in_nets_existsb. tauto.
Qed.

(** C16. Whatever the resolver answers at the time of the connection, the safe
    client contacts only addresses of the answer that lie in none of the networks
    of [blocked_v4] and [blocked_v6] (unspecified, loopback, private, link-local,
    local multicast, carrier-grade NAT, benchmarking and two of the three
    documentation networks) or, where loopback is allowed, in 127.0.0.0/8 or ::1.
    It reaches one of them that answers, and fails only if none of them does. The
    resolver answers, with addresses of 32 or 128 bits. *)
Theorem safe_dial_public allow resolve connect host ips : resolve host = Ok ips → Forall ip_range ips →
  let '(contacted, r) := safe_dial allow resolve connect host in
  (∀ ip, ip ∈ contacted → ip ∈ ips ∧ dialable allow ip) ∧
  match r with
  | Ok ip => ip ∈ ips ∧ dialable allow ip ∧ connect ip = Ok tt
  | Err _ => ∀ ip, ip ∈ ips → dialable allow ip → ¬ is_Ok (connect ip)
  end.
Proof.
  intros Hres Hr. rewrite Forall_forall in Hr. unfold safe_dial. rewrite Hres. destruct (dial_loop_spec allow connect host None [] ips) as [E1 E2]. cbv zeta in *.
  destruct (dial_loop _ _ _ _ _ _) as [tried r]. cbn in E1, E2. subst tried.
  assert (Hok : ∀ ip, ip ∈ filter (λ ip, may_dial allow ip = true) ips → ip ∈ ips ∧ dialable allow ip).
  { intros ip [Hd Hin]%list_elem_of_filter. split; [done|]. apply may_dial_spec; auto. }
  split; [intros ip Hin%attempts_sub; by apply Hok|]. destruct r as [ip|e].
  - destruct E2 as (l & k & E & Hc & _). assert (Hin : ip ∈ filter (λ ip, may_dial allow ip = true) ips) by (rewrite E, elem_of_app, elem_of_cons; auto).
    by destruct (Hok _ Hin).
  - intros ip Hin Hd. rewrite Forall_forall in E2. apply E2, list_elem_of_filter. split; [apply may_dial_spec; auto|done].
Qed.

(** An accepted destination is a web address whose host is neither internal by
    name nor, as written or as resolved, a blocked address. *)
Theorem outbound_url_public lookup raw : ValidateOutboundURL lookup raw = Ok tt →
  ∃ u, url_Parse (TrimSpace raw) = Ok u ∧ (ToLower (nu_Scheme u) = "http" ∨ ToLower (nu_Scheme u) = "https") ∧ nu_Hostname u ≠ "" ∧
    isBlockedHostname (ToLower (nu_Hostname u)) = false ∧
    match net_ParseIP (nu_Hostname u) with
    | Some ip => isBlockedIP ip = false
    | None => ∃ ips, lookup (nu_Hostname u) = Ok ips ∧ Forall (λ ip, isBlockedIP ip = false) ips
    end.
Proof.
  unfold ValidateOutboundURL, validateOutboundURL. cbv zeta. destruct (TrimSpace raw =s ""); [done|]. destruct (url_Parse (TrimSpace raw)) as [u|e]; [|done].
  destruct (bool_decide_reflect (ToLower (nu_Scheme u) = "http")) as [Hs|Hs], (bool_decide_reflect (ToLower (nu_Scheme u) = "https")) as [Hs'|Hs']; cbn [negb andb];
    try discriminate; (destruct (bool_decide_reflect (nu_Hostname u = "")) as [|Hh]; [done|]); destruct (isBlockedHostname _) eqn:Eb; try discriminate; intros Hr;
    exists u; (split_and!; [done|auto|done|done|]); destruct (net_ParseIP (nu_Hostname u)) as [ip|]; try (by destruct (isBlockedIP ip));
    cbn [negb] in Hr; (destruct (lookup (nu_Hostname u)) as [ips|e]; [|done]); (destruct (existsb isBlockedIP ips) eqn:Ee; [done|]);
    exists ips; (split; [done|]); apply Forall_forall; intros ip Hin; by apply (proj1 (existsb_false_elem _ _) Ee).
Qed.
End dial.

(** ** Networks as intervals, and the unseal allow-list *)

Lemma shifted_equal nn x k : 0 ≤ k → (Z.shiftr nn k =? Z.shiftr x k) = true ↔ nn / 2 ^ k * 2 ^ k ≤ x < nn / 2 ^ k * 2 ^ k + 2 ^ k.
Proof.
  intros Hk. rewrite Z.eqb_eq, !Z.shiftr_div_pow2 by lia. assert (Hp : 0 < 2 ^ k) by lia. assert (Hd := Z.div_mod x (2 ^ k) ltac:(lia)).
  assert (Hm := Z.mod_pos_bound x (2 ^ k) Hp). split; [intros ->; lia|]. intros Hx. apply (Z.div_unique _ _ _ (x - nn / 2 ^ k * 2 ^ k)); lia.
Qed.

(** A network holds the addresses of one family between its first and its last:
    two to the power of the bits its mask leaves. *)
Theorem network_interval n ip : net_ok n →
  let '(nn, ones, bits) := number_and_mask n in let size := 2 ^ (bits - ones) in
  IPNet_Contains n ip = true ↔
  let '(x, l) := match To4 ip with Some a => (a, 32) | None => (ip, 128) end in l = bits ∧ nn / size * size ≤ x < nn / size * size + size.
Proof.
  intros [Hb Ho Hi]. unfold IPNet_Contains. destruct (number_and_mask n) as [[nn ones] bits] eqn:E.
  assert (Hk : 0 ≤ bits - ones) by (unfold number_and_mask in E; destruct Hb as [Hb|Hb]; rewrite Hb in *; repeat case_match; simplify_eq; lia).
  destruct (match To4 ip with Some a => (a, 32) | None => (ip, 128) end) as [x l]. rewrite andb_true_iff, Z.eqb_eq, shifted_equal by done. done.
Qed.

Section unseal.
Context `{NetText}.

Lemma ParseCIDRs_elem cidrs nets n : ParseCIDRs cidrs = Ok nets → n ∈ nets ↔ ∃ raw, raw ∈ cidrs ∧ TrimSpace raw ≠ "" ∧ parse_entry (TrimSpace raw) = Ok n.
Proof.
  revert nets. induction cidrs as [|raw cidrs IH]; intros nets; cbn [ParseCIDRs]; [intros [= <-]; set_solver|]. cbv zeta.
  destruct (bool_decide_reflect (TrimSpace raw = "")) as [Hb|Hb].
  { intros Hr. rewrite (IH nets Hr). split; intros (r & Hin & Hne & Hp); exists r; [set_solver|]. apply elem_of_cons in Hin as [->|]; done. }
  destruct (parse_entry (TrimSpace raw)) as [m|] eqn:Em; [|done]. cbn. destruct (ParseCIDRs cidrs) as [out|]; [|done]. intros [= <-].
  rewrite elem_of_cons, (IH out eq_refl). split.
  - intros [->|(r & Hin & ?)]; [exists raw; set_solver|exists r; set_solver].
  - intros (r & Hin & Hne & Hp). apply elem_of_cons in Hin as [->|]; [left; congruence|right; eauto].
Qed.

(** With a list that parses and names a network, the unseal request is served
    exactly for the clients in one of the networks of the list. *)
Theorem unseal_allowed_correct cidrs nets client : ParseCIDRs cidrs = Ok nets → nets ≠ [] →
  unseal_allowed cidrs client = true ↔
  ∃ ip raw n, net_ParseIP (TrimSpace client) = Some ip ∧ raw ∈ cidrs ∧ TrimSpace raw ≠ "" ∧ parse_entry (TrimSpace raw) = Ok n ∧ IPNet_Contains n ip = true.
Proof.
  intros Hp Hne. unfold unseal_allowed, unseal_nets. destruct cidrs as [|c cidrs]; [by injection Hp as <-|]. rewrite Hp. destruct nets as [|n0 nets]; [done|].
  cbn [IPAllowed]. destruct (net_ParseIP (TrimSpace client)) as [ip|]; [|split; [done|by intros (? & ? & ? & ? & _)]].
  rewrite existsb_elem. split.
  - intros (n & Hn & Hc). apply (ParseCIDRs_elem _ _ _ Hp) in Hn as (raw & ? & ? & ?). by exists ip, raw, n.
  - intros (ip' & raw & n & [= <-] & Hin & Hb & Hpe & Hc). exists n. split; [|done]. apply (ParseCIDRs_elem _ _ _ Hp). eauto.
Qed.

(** An entry of blanks counts as an entry when the list is checked and as none when
    it is read: a list of only such entries lets every client unseal. *)
Theorem blank_list_allows_all client : unseal_allowed [" "] client = true.
Proof. reflexivity. Qed.
End unseal.

(** A network of mapped addresses, ::ffff:0.0.0.0/96, has a mask of 96 bits and
    holds every IPv4 address. *)
Theorem mapped_network_is_v4 ip a : To4 ip = Some a → IPNet_Contains (mkIPNet v4_prefix 96 128) ip = true.
Proof.
  intros Ha. assert (Hr := To4_range _ _ Ha). unfold IPNet_Contains. rewrite Ha. change (number_and_mask _) with (0, 0, 32). cbv iota beta.
  change (32 =? 32) with true. change (32 - 0) with 32. by rewrite !Z.shiftr_div_pow2, !Z.div_small by lia.
Qed.

(** ** Examples *)

Definition quad_ip (a b c d : Z) : IP := v4_prefix + (a * 2 ^ 24 + b * 2 ^ 16 + c * 2 ^ 8 + d).
#[local] Instance toy_net : NetText := {|
  net_ParseIP s := if s =s "10.1.2.3" then Some (quad_ip 10 1 2 3) else if s =s "93.184.216.34" then Some (quad_ip 93 184 216 34) else None;
  net_ParseCIDR s := if s =s "10.1.0.0/16" then Ok (v4_net 10 1 0 0 16) else if s =s "::ffff:0.0.0.0/96" then Ok (mkIPNet v4_prefix 96 128) else Err (Plain "invalid CIDR address");
  url_Parse s := if HasPrefix s "https://" then Ok (mkNetURL "https" (TrimPrefix s "https://") "" false false) else Err (Plain "parse");
  ip_String _ := ""
|}.

Example isBlockedIP_ranges_witness : isBlockedIP (quad_ip 172 31 0 1) = existsb (λ n, IPNet_Contains n (quad_ip 172 31 0 1)) (blocked_v4 ++ blocked_v6).
Proof. apply isBlockedIP_ranges. split; by vm_compute. Defined.

(** A name that resolves to the metadata service first and to a public address. *)
Definition rebinding : string → res (list IP) := λ _, Ok [quad_ip 169 254 169 254; quad_ip 93 184 216 34].
Example safe_dial_public_witness :
  let '(contacted, r) := safe_dial false rebinding (λ _, Ok tt) "hooks.example" in
  (∀ ip, ip ∈ contacted → ip ∈ [quad_ip 169 254 169 254; quad_ip 93 184 216 34] ∧ dialable false ip) ∧
  match r with
  | Ok ip => ip ∈ [quad_ip 169 254 169 254; quad_ip 93 184 216 34] ∧ dialable false ip ∧ Ok tt = Ok tt
  | Err _ => ∀ ip, ip ∈ [quad_ip 169 254 169 254; quad_ip 93 184 216 34] → dialable false ip → ¬ is_Ok (Ok tt)
  end.
Proof. apply (safe_dial_public false rebinding (λ _, Ok tt) "hooks.example"); [reflexivity|]. repeat constructor; by vm_compute. Defined.
Example rebinding_blocked : safe_dial false rebinding (λ _, Ok tt) "hooks.example" = ([quad_ip 93 184 216 34], Ok (quad_ip 93 184 216 34)).
Proof. by vm_compute. Qed.

Example outbound_url_public_witness : ∃ u, url_Parse (TrimSpace "https://93.184.216.34") = Ok u ∧ (ToLower (nu_Scheme u) = "http" ∨ ToLower (nu_Scheme u) = "https") ∧
  nu_Hostname u ≠ "" ∧ isBlockedHostname (ToLower (nu_Hostname u)) = false ∧
  match net_ParseIP (nu_Hostname u) with Some ip => isBlockedIP ip = false | None => ∃ ips, rebinding (nu_Hostname u) = Ok ips ∧ Forall (λ ip, isBlockedIP ip = false) ips end.
Proof. apply (outbound_url_public rebinding "https://93.184.216.34"). reflexivity. Defined.

Example network_interval_witness : IPNet_Contains (v4_net 10 1 0 0 16) (quad_ip 10 1 255 255) = true ↔ 32 = 32 ∧ 167837696 ≤ 167903231 < 167837696 + 2 ^ 16.
Proof. apply (network_interval (v4_net 10 1 0 0 16) (quad_ip 10 1 255 255)). split; cbn; lia. Defined.

Example unseal_allowed_correct_witness : unseal_allowed ["10.1.0.0/16"] "10.1.2.3" = true ↔
  ∃ ip raw n, net_ParseIP (TrimSpace "10.1.2.3") = Some ip ∧ raw ∈ ["10.1.0.0/16"] ∧ TrimSpace raw ≠ "" ∧ parse_entry (TrimSpace raw) = Ok n ∧ IPNet_Contains n ip = true.
Proof. apply (unseal_allowed_correct ["10.1.0.0/16"] [v4_net 10 1 0 0 16]); [reflexivity|discriminate]. Defined.

Example mapped_network_is_v4_witness : IPNet_Contains (mkIPNet v4_prefix 96 128) (quad_ip 8 8 8 8) = true.
Proof. apply (mapped_network_is_v4 _ 134744072). reflexivity. Defined.

(** Of the three documentation networks of RFC 5737 the first is not blocked. *)
Example documentation_networks : isBlockedIP (quad_ip 192 0 2 1) = false ∧ isBlockedIP (quad_ip 198 51 100 1) = true ∧ isBlockedIP (quad_ip 203 0 113 1) = true.
Proof. by vm_compute. Qed.
