(* ===== verification/Glob.v ===== *)
(** Resource patterns: the two glob matchers of the repository and
    [MatchResource], the one authorization uses.

    [globMatch] and [matchGlob] recurse on byte indices exactly as the source
    does. Every recursive call and every iteration of the outer loop moves the
    pattern index forward, so the distance to the end of the pattern bounds the
    recursion; the inner loops move the subject index forward and are bounded
    by the distance to the end of the subject. [glob] and [seg_glob] give the
    patterns a meaning without indices, and [globMatch_spec] and
    [matchGlob_spec] show that the loops decide it. *)

From Stdlib Require Import Ascii.
From S2P Require Import Prelude.
From S2P Require Import GoLib.

Open Scope char_scope.
Abbreviation star := ("*"%char) (only parsing).
Abbreviation question := ("?"%char) (only parsing).
Abbreviation slash := ("/"%char) (only parsing).
Close Scope char_scope.

(** ** The matchers *)

Section loops.
Context (pat str : string).

(** [for si <= len(str) { if rec(si) { return true }; si++ }; return false] *)
Fixpoint any_from (rec : nat → bool) (n si : nat) : bool :=
  match n with
  | O => false
  | S n => rec si || any_from rec n (S si)
  end.

(** The loop of [**/]: try [si], stop at the end, else move past the next
    slash (or to the end when there is none). *)
Fixpoint segments_from (rec : nat → bool) (n si : nat) : bool :=
  match n with
  | O => false
  | S n =>
      rec si ||
      (if Nat.eqb si (String.length str) then false
       else segments_from rec n
              (match IndexByte (str_drop si str) slash with
               | None => String.length str
               | Some next => si + next + 1
               end))
  end.

(** The single-[*] loop of internal/auth/glob.go: it stops at a slash. *)
Fixpoint segment_from (rec : nat → bool) (n si : nat) : bool :=
  match n with
  | O => false
  | S n =>
      rec si ||
      (if bool_decide (String.get si str = Some slash) then false
       else segment_from rec n (S si))
  end.

(** The iterations an inner loop makes at most. *)
Definition loop_bound (si : nat) : nat := String.length str + 1 - si.

(** internal/domain/auth/policy.go, [globMatch]. *)
Fixpoint globMatch_go (fuel pi si : nat) : bool :=
  match fuel with
  | O => false
  | S fuel =>
      if Nat.ltb pi (String.length pat) then
        match String.get pi pat with
        | Some c =>
            if bool_decide (c = star) then
              if bool_decide (String.get (pi + 1) pat = Some star) then
                if bool_decide (String.get (pi + 2) pat = Some slash) then
                  segments_from (globMatch_go fuel (pi + 3)) (loop_bound si) si
                else any_from (globMatch_go fuel (pi + 2)) (loop_bound si) si
              else any_from (globMatch_go fuel (pi + 1)) (loop_bound si) si
            else if bool_decide (c = question) then
              match String.get si str with
              | None => false
              | Some d => if bool_decide (d = slash) then false
                          else globMatch_go fuel (pi + 1) (si + 1)
              end
            else
              match String.get si str with
              | None => false
              | Some d => if bool_decide (c = d) then globMatch_go fuel (pi + 1) (si + 1)
                          else false
              end
        | None => false
        end
      else Nat.eqb si (String.length str)
  end.

Definition globMatch (pi si : nat) : bool := globMatch_go (String.length pat + 1 - pi) pi si.

(** internal/auth/glob.go, [matchGlob]: the same loops, but a single [*]
    stays inside a path segment. *)
Fixpoint matchGlob_go (fuel pi si : nat) : bool :=
  match fuel with
  | O => false
  | S fuel =>
      if Nat.ltb pi (String.length pat) then
        match String.get pi pat with
        | Some c =>
            if bool_decide (c = star) then
              if bool_decide (String.get (pi + 1) pat = Some star) then
                if bool_decide (String.get (pi + 2) pat = Some slash) then
                  segments_from (matchGlob_go fuel (pi + 3)) (loop_bound si) si
                else any_from (matchGlob_go fuel (pi + 2)) (loop_bound si) si
              else segment_from (matchGlob_go fuel (pi + 1)) (loop_bound si) si
            else if bool_decide (c = question) then
              match String.get si str with
              | None => false
              | Some d => if bool_decide (d = slash) then false
                          else matchGlob_go fuel (pi + 1) (si + 1)
              end
            else
              match String.get si str with
              | None => false
              | Some d => if bool_decide (c = d) then matchGlob_go fuel (pi + 1) (si + 1)
                          else false
              end
        | None => false
        end
      else Nat.eqb si (String.length str)
  end.

Definition matchGlob (pi si : nat) : bool := matchGlob_go (String.length pat + 1 - pi) pi si.
End loops.

Definition matchResourceGlob (pattern resource : string) : bool :=
  if (pattern =s "*") || (pattern =s "*/*") then true
  else globMatch pattern resource 0 0.

Definition MatchResource (pattern resource : string) : bool :=
  if (pattern =s "*") || (pattern =s "*/*") then true
  else if HasSuffix pattern "/*" && negb (Contains (TrimSuffix pattern "/*") "*")
          && negb (Contains pattern "?") then
    let prefix := TrimSuffix pattern "/*" in
    (resource =s prefix) || HasPrefix resource (prefix +:+ "/")
  else if ContainsAny pattern "*?" then matchResourceGlob pattern resource
  else pattern =s resource.

Definition MatchAction (pattern action : string) : bool :=
  (pattern =s "*") || (pattern =s action).

Definition MatchResourceLegacy (pattern resource : string) : bool :=
  if (pattern =s "*") || (pattern =s "*/*") then true
  else if HasSuffix pattern "/*" then
    let prefix := TrimSuffix pattern "/*" in
    (resource =s prefix) || HasPrefix resource (prefix +:+ "/")
  else pattern =s resource.

Definition MatchResourceGlob (pattern resource : string) : bool :=
  if (pattern =s "*") || (pattern =s "*/*") then true
  else if negb (ContainsAny pattern "*?") then MatchResourceLegacy pattern resource
  else matchGlob pattern resource 0 0.

Definition ValidateResourcePattern (pattern : string) : res unit :=
  if pattern =s "" then Err (Plain "empty resource pattern")
  else if Nat.ltb 1 (Count pattern "**")
  then Err (Plain ("ambiguous pattern: multiple ** in " +:+ quoted pattern))
  else Ok tt.

(** ** What a pattern means *)

(** [s = s1 ++ s2] split where the [**/] loop may resume: at the start, after
    a slash, or at the end of the subject. *)
Definition segment_split (s1 s2 : string) : Prop :=
  s1 = "" ∨ s2 = "" ∨ ∃ t, s1 = t +:+ "/".

(** [star_ok s1]: what a single [*] may consume. *)
Inductive glob (star_ok : string → Prop) : string → string → Prop :=
  | glob_end : glob star_ok "" ""
  | glob_char c p s : c ≠ star → c ≠ question →
      glob star_ok p s → glob star_ok (String c p) (String c s)
  | glob_question c p s : c ≠ slash →
      glob star_ok p s → glob star_ok (String question p) (String c s)
  | glob_star p s1 s2 : String.get 0 p ≠ Some star → star_ok s1 →
      glob star_ok p s2 → glob star_ok (String star p) (s1 +:+ s2)
  | glob_dstar p s1 s2 : String.get 0 p ≠ Some slash →
      glob star_ok p s2 → glob star_ok (String star (String star p)) (s1 +:+ s2)
  | glob_dstar_slash p s1 s2 : segment_split s1 s2 →
      glob star_ok p s2 →
      glob star_ok (String star (String star (String slash p))) (s1 +:+ s2).

(** The meaning for internal/domain/auth: [*] consumes any bytes. *)
Definition any_bytes (s : string) : Prop := True.
(** The meaning for internal/auth/glob.go: [*] stays inside a segment. *)
Definition no_slash (s : string) : Prop := str_mem slash s = false.

(** ** Inversion of the meaning, by the shape of the pattern *)

Section glob_shapes.
Context (ok : string → Prop).

Lemma glob_nil_iff s : glob ok "" s ↔ s = "".
Proof. split; [by inversion 1 | intros ->; constructor]. Qed.

Lemma glob_char_iff c p s : c ≠ star → c ≠ question →
  glob ok (String c p) s ↔ ∃ s', s = String c s' ∧ glob ok p s'.
Proof.
  intros H1 H2. split.
  - inversion 1; subst; try done. eauto.
  - intros (s' & -> & H). by constructor.
Qed.

Lemma glob_question_iff p s :
  glob ok (String question p) s ↔ ∃ c s', s = String c s' ∧ c ≠ slash ∧ glob ok p s'.
Proof.
  split.
  - inversion 1; subst; try done. eauto.
  - intros (c & s' & -> & Hc & H). by constructor.
Qed.

Lemma glob_star_iff p s : String.get 0 p ≠ Some star →
  glob ok (String star p) s ↔ ∃ s1 s2, s = s1 +:+ s2 ∧ ok s1 ∧ glob ok p s2.
Proof.
  intros Hp. split.
  - inversion 1; subst; try done. eauto.
  - intros (s1 & s2 & -> & H1 & H2). by constructor.
Qed.

Lemma glob_dstar_iff p s : String.get 0 p ≠ Some slash →
  glob ok (String star (String star p)) s ↔ ∃ s1 s2, s = s1 +:+ s2 ∧ glob ok p s2.
Proof.
  intros Hp. split.
  - inversion 1; subst; try done; eauto.
  - intros (s1 & s2 & -> & H). by apply glob_dstar.
Qed.

Lemma glob_dstar_slash_iff p s :
  glob ok (String star (String star (String slash p))) s ↔
  ∃ s1 s2, s = s1 +:+ s2 ∧ segment_split s1 s2 ∧ glob ok p s2.
Proof.
  split.
  - inversion 1; subst; try done; eauto.
  - intros (s1 & s2 & -> & H1 & H2). by apply glob_dstar_slash.
Qed.
End glob_shapes.

(** ** The inner loops *)

(** An occurrence of a byte is the first one or lies beyond it. *)
Lemma first_occurrence (c : ascii) a b t u :
  str_mem c a = false → a +:+ String c b = t +:+ String c u →
  (t = a ∧ u = b) ∨ ∃ t', t = a +:+ String c t' ∧ b = t' +:+ String c u.
Proof.
  revert t; induction a as [|d a IH]; intros [|e t]; simpl; intros Ha E.
  - injection E as ->. by left.
  - injection E as -> ->. right. by exists t.
  - injection E as -> _. rewrite bool_decide_true in Ha by done. done.
  - injection E as -> E. apply orb_false_iff in Ha as [_ Ha].
    destruct (IH _ Ha E) as [[-> ->]|(t' & -> & ->)]; [by left | right; by exists t'].
Qed.

Lemma IndexByte_None s c : IndexByte s c = None → str_mem c s = false.
Proof.
  induction s as [|d s IH]; simpl; [done|]. case_bool_decide; simpl; [done|].
  intros H'%fmap_None. by apply IH.
Qed.

Section loop_specs.
Context (str : string) (Q : string → Prop) (rec : nat → bool).
Hypothesis rec_spec : ∀ j, j ≤ String.length str → rec j = true ↔ Q (str_drop j str).

(** A split of what is left of the subject is an index reached later. *)
Lemma split_index si (R : string → string → Prop) : si ≤ String.length str →
  (∃ s1 s2, str_drop si str = s1 +:+ s2 ∧ R s1 s2) ↔
  (∃ k, si + k ≤ String.length str ∧ R (str_take k (str_drop si str)) (str_drop (si + k) str)).
Proof.
  intros Hsi. split.
  - intros (s1 & s2 & E & HR). exists (String.length s1).
    assert (Hl := f_equal String.length E). rewrite str_drop_length, str_app_length in Hl.
    split; [lia|]. rewrite <-(suffix_split _ _ _ _ E Hsi), E, str_take_app. done.
  - intros (k & Hk & HR). eexists _, _; split; [|exact HR].
    by rewrite <-str_drop_drop, str_take_drop.
Qed.

Lemma any_from_spec si : si ≤ String.length str →
  any_from rec (loop_bound str si) si = true ↔
  ∃ s1 s2, str_drop si str = s1 +:+ s2 ∧ Q s2.
Proof.
  intros Hsi. rewrite (split_index si (λ _ s2, Q s2)) by done.
  assert (∀ n i, i + n = String.length str + 1 →
    any_from rec n i = true ↔ ∃ k, i + k ≤ String.length str ∧ Q (str_drop (i + k) str)) as H.
  { induction n as [|n IH]; intros i Hi; simpl.
    - split; [done|]. intros (k & Hk & _). lia.
    - rewrite orb_true_iff, rec_spec, IH by lia. split.
      + intros [HQ|(k & Hk & HQ)].
        * exists 0. rewrite Nat.add_0_r. split; [lia|done].
        * exists (S k). rewrite <-plus_n_Sm. split; [lia|done].
      + intros ([|k] & Hk & HQ); [left|right; exists k].
        * by rewrite Nat.add_0_r in HQ.
        * rewrite <-plus_n_Sm in HQ. split; [lia|done]. }
  apply H. unfold loop_bound. lia.
Qed.

Lemma segment_from_spec si : si ≤ String.length str →
  segment_from str rec (loop_bound str si) si = true ↔
  ∃ s1 s2, str_drop si str = s1 +:+ s2 ∧ no_slash s1 ∧ Q s2.
Proof.
  intros Hsi. rewrite (split_index si (λ s1 s2, no_slash s1 ∧ Q s2)) by done.
  assert (∀ n i, i + n = String.length str + 1 →
    segment_from str rec n i = true ↔ ∃ k, i + k ≤ String.length str ∧
      no_slash (str_take k (str_drop i str)) ∧ Q (str_drop (i + k) str)) as H.
  { induction n as [|n IH]; intros i Hi; simpl.
    - split; [done|]. intros (k & Hk & _). lia.
    - rewrite orb_true_iff, rec_spec by lia. split.
      + intros [HQ|Hs]; [exists 0; rewrite Nat.add_0_r; split_and!; [lia|done|done]|].
        case_bool_decide as Hg; [done|]. apply IH in Hs as (k & Hk & Hn & HQ); [|lia].
        exists (S k). rewrite <-plus_n_Sm. split_and!; [lia| |done].
        destruct (str_get_lt i str) as [c Hc]; [lia|].
        rewrite (proj1 (str_get_Some _ _ _) Hc). unfold no_slash; simpl.
        rewrite orb_false_iff, bool_decide_eq_false. split; [congruence|].
        by rewrite Nat.add_1_r.
      + intros ([|k] & Hk & Hn & HQ); [left; by rewrite Nat.add_0_r in HQ|right].
        destruct (str_get_lt i str) as [c Hc]; [lia|].
        rewrite (proj1 (str_get_Some _ _ _) Hc) in Hn. unfold no_slash in Hn; simpl in Hn.
        rewrite orb_false_iff, bool_decide_eq_false in Hn. destruct Hn as [Hn1 Hn2].
        rewrite bool_decide_false by congruence. apply IH; [lia|]. exists k.
        rewrite <-plus_n_Sm in HQ. rewrite Nat.add_1_r in Hn2. split_and!; [lia|done|done]. }
  apply H. unfold loop_bound. lia.
Qed.

Lemma segments_from_ok n i : i ≤ String.length str → String.length str + 1 ≤ i + n →
  segments_from str rec n i = true ↔
  ∃ s1 s2, str_drop i str = s1 +:+ s2 ∧ segment_split s1 s2 ∧ Q s2.
Proof.
  revert i; induction n as [|n IH]; intros i Hi Hn; simpl; [lia|].
  rewrite orb_true_iff, rec_spec by done.
  destruct (Nat.eqb_spec i (String.length str)) as [->|Hne].
  { rewrite str_drop_ge by done. split.
    - intros [HQ|?]; [|done]. exists "", "". split_and!; [done|by left|done].
    - intros ([|] & s2 & E & _ & HQ); [|done]. left. simpl in E. by subst s2. }
  destruct (IndexByte (str_drop i str) slash) as [nx|] eqn:E.
  - apply IndexByte_spec in E as (Hlen & Hmem & Happ).
    set (a := str_take nx (str_drop i str)) in *. rewrite str_drop_drop in Happ.
    set (b := str_drop (i + S nx) str) in *.
    assert (i + nx + 1 ≤ String.length str) as Hle.
    { assert (H' := f_equal String.length Happ). rewrite str_drop_length, str_app_length in H'.
      simpl in H'. lia. }
    rewrite IH by lia. replace (i + nx + 1) with (i + S nx) by lia. fold b. split.
    + intros [HQ|(s1 & s2 & Hb & Hs & HQ)].
      { exists "", (str_drop i str). split_and!; [done|by left|done]. }
      exists (a +:+ String slash s1), s2. rewrite str_app_assoc. simpl. rewrite <-Hb.
      split_and!; [done| |done].
      destruct Hs as [->|[->|(t & ->)]]; [right; right; by exists a|by right; left|].
      right; right. exists (a +:+ String slash t). by rewrite str_app_assoc.
    + intros (s1 & s2 & Hd & Hs & HQ).
      destruct Hs as [->|[->|(t & ->)]].
      * left. simpl in Hd. by subst s2.
      * right. exists b, "". rewrite str_app_empty_r. split_and!; [done|by right; left|done].
      * right. rewrite Happ, str_app_assoc in Hd. simpl in Hd.
        destruct (first_occurrence slash a b t s2 Hmem Hd) as [[-> ->]|(t' & -> & ->)].
        -- exists "", b. split_and!; [done|by left|done].
        -- exists (t' +:+ "/"), s2. rewrite str_app_assoc. split_and!; [done|right; right; by exists t'|done].
  - apply IndexByte_None in E.
    rewrite IH by lia. rewrite (str_drop_ge (String.length str)) by done. split.
    + intros [HQ|(s1 & s2 & E2 & _ & HQ)].
      { exists "", (str_drop i str). split_and!; [done|by left|done]. }
      destruct s1; [|done]. simpl in E2; subst s2.
      exists (str_drop i str), "". rewrite str_app_empty_r. split_and!; [done|by right; left|done].
    + intros (s1 & s2 & Hd & [->|[->|(t & ->)]] & HQ).
      * left. simpl in Hd. by subst s2.
      * right. exists "", "". split_and!; [done|by left|done].
      * assert (str_mem slash (str_drop i str) = true); [|congruence].
        apply str_mem_spec. exists t, s2. by rewrite Hd, str_app_assoc.
Qed.

Lemma segments_from_spec si : si ≤ String.length str →
  segments_from str rec (loop_bound str si) si = true ↔
  ∃ s1 s2, str_drop si str = s1 +:+ s2 ∧ segment_split s1 s2 ∧ Q s2.
Proof. intros. apply segments_from_ok; unfold loop_bound; lia. Qed.
End loop_specs.

(** ** The matchers decide the meaning *)

(** Both matchers are one function of the loop a single [*] runs. *)
Section generic.
Context (pat str : string) (star_loop : (nat → bool) → nat → nat → bool).

Fixpoint glob_go (fuel pi si : nat) : bool :=
  match fuel with
  | O => false
  | S fuel =>
      if Nat.ltb pi (String.length pat) then
        match String.get pi pat with
        | Some c =>
            if bool_decide (c = star) then
              if bool_decide (String.get (pi + 1) pat = Some star) then
                if bool_decide (String.get (pi + 2) pat = Some slash) then
                  segments_from str (glob_go fuel (pi + 3)) (loop_bound str si) si
                else any_from (glob_go fuel (pi + 2)) (loop_bound str si) si
              else star_loop (glob_go fuel (pi + 1)) (loop_bound str si) si
            else if bool_decide (c = question) then
              match String.get si str with
              | None => false
              | Some d => if bool_decide (d = slash) then false
                          else glob_go fuel (pi + 1) (si + 1)
              end
            else
              match String.get si str with
              | None => false
              | Some d => if bool_decide (c = d) then glob_go fuel (pi + 1) (si + 1)
                          else false
              end
        | None => false
        end
      else Nat.eqb si (String.length str)
  end.

Context (ok : string → Prop).
Hypothesis star_loop_spec : ∀ (Q : string → Prop) rec,
  (∀ j, j ≤ String.length str → rec j = true ↔ Q (str_drop j str)) →
  ∀ si, si ≤ String.length str →
  star_loop rec (loop_bound str si) si = true ↔
  ∃ s1 s2, str_drop si str = s1 +:+ s2 ∧ ok s1 ∧ Q s2.

Lemma glob_go_spec fuel pi si :
  String.length pat < pi + fuel → pi ≤ String.length pat → si ≤ String.length str →
  glob_go fuel pi si = true ↔ glob ok (str_drop pi pat) (str_drop si str).
Proof.
  revert pi si; induction fuel as [|fuel IH]; intros pi si Hf Hpi Hsi; [lia|]. simpl.
  destruct (Nat.ltb_spec pi (String.length pat)) as [Hlt|Hge].
  2: { rewrite (str_drop_ge pi pat), glob_nil_iff, Nat.eqb_eq by lia.
       split; [intros ->; by apply str_drop_ge|]. intros Hd.
       assert (Hl := f_equal String.length Hd). rewrite str_drop_length in Hl. simpl in Hl. lia. }
  destruct (str_get_lt _ _ Hlt) as [c Hc]. rewrite Hc, (proj1 (str_get_Some _ _ _) Hc).
  assert (Hdrop : ∀ k x, String.get (pi + k) pat = Some x →
    str_drop (pi + k) pat = String x (str_drop (pi + S k) pat) ∧ pi + k < String.length pat).
  { intros k x Hk. split; [rewrite <-Nat.add_1_r, Nat.add_assoc; by apply str_get_Some|].
    assert (¬ String.length pat ≤ pi + k) by (rewrite <-str_get_None, Hk; done). lia. }
  destruct (decide (c = star)) as [->|Hstar].
  - rewrite bool_decide_true by done. case_bool_decide as H1; [case_bool_decide as H2|].
    + destruct (Hdrop _ _ H1) as [-> ?], (Hdrop _ _ H2) as [-> ?].
      rewrite glob_dstar_slash_iff. apply segments_from_spec; [|done]. intros. apply IH; lia.
    + destruct (Hdrop _ _ H1) as [-> ?].
      rewrite glob_dstar_iff by (by rewrite str_get_drop, Nat.add_0_r).
      apply any_from_spec; [|done]. intros. apply IH; lia.
    + rewrite glob_star_iff by (by rewrite str_get_drop, Nat.add_0_r).
      apply star_loop_spec; [|done]. intros. apply IH; lia.
  - rewrite (bool_decide_false (c = star)) by done.
    destruct (String.get si str) as [d|] eqn:Hd.
    + assert (Hs : ¬ String.length str ≤ si) by (rewrite <-str_get_None, Hd; done).
      apply str_get_Some in Hd. rewrite Hd. destruct (decide (c = question)) as [->|Hq].
      * rewrite bool_decide_true, glob_question_iff by done.
        case_bool_decide; [naive_solver|]. rewrite IH by lia. naive_solver.
      * rewrite bool_decide_false, glob_char_iff by done.
        case_bool_decide; [subst; rewrite IH by lia|]; naive_solver.
    + apply str_get_None in Hd. rewrite (str_drop_ge si str) by lia.
      destruct (decide (c = question)) as [->|Hq].
      * rewrite bool_decide_true, glob_question_iff by done. naive_solver.
      * rewrite bool_decide_false, glob_char_iff by done. naive_solver.
Qed.
End generic.

Lemma globMatch_glob_go pat str : globMatch_go pat str = glob_go pat str any_from.
Proof. reflexivity. Qed.

Lemma matchGlob_glob_go pat str : matchGlob_go pat str = glob_go pat str (segment_from str).
Proof. reflexivity. Qed.

Lemma any_bytes_loop str (Q : string → Prop) rec :
  (∀ j, j ≤ String.length str → rec j = true ↔ Q (str_drop j str)) →
  ∀ si, si ≤ String.length str →
  any_from rec (loop_bound str si) si = true ↔
  ∃ s1 s2, str_drop si str = s1 +:+ s2 ∧ any_bytes s1 ∧ Q s2.
Proof. intros Hr si Hsi. rewrite any_from_spec by done. unfold any_bytes. naive_solver. Qed.

Lemma globMatch_start pat str : globMatch pat str 0 0 = true ↔ glob any_bytes pat str.
Proof.
  unfold globMatch. rewrite globMatch_glob_go.
  apply (glob_go_spec pat str any_from any_bytes (any_bytes_loop str) _ 0 0); lia.
Qed.

Lemma matchGlob_start pat str : matchGlob pat str 0 0 = true ↔ glob no_slash pat str.
Proof.
  unfold matchGlob. rewrite matchGlob_glob_go.
  apply (glob_go_spec pat str (segment_from str) no_slash) with (pi := 0) (si := 0); [|lia..].
  intros Q rec Hr si Hsi. by apply segment_from_spec.
Qed.

Lemma glob_mono (ok1 ok2 : string → Prop) p s :
  (∀ t, ok1 t → ok2 t) → glob ok1 p s → glob ok2 p s.
Proof. intros Hi. induction 1; eauto using glob. Qed.

#[export] Hint Resolve globMatch_start matchGlob_start glob_mono : knx.

(** ** [MatchResource] *)

(** No wildcard: what [strings.ContainsAny(s, "*?")] denies. *)
Definition plain (s : string) : Prop := str_mem star s = false ∧ str_mem question s = false.

(** What a resource pattern of a policy grants, [star_ok] being what a single star
    stands for: any text in policy.go, text without a slash in the documents. *)
Inductive resource_matches (star_ok : string → Prop) : string → string → Prop :=
  | rm_all r : resource_matches star_ok "*" r
  | rm_all_segments r : resource_matches star_ok "*/*" r
  | rm_prefix_self base : plain base → resource_matches star_ok (base +:+ "/*") base
  | rm_prefix_below base t : plain base → resource_matches star_ok (base +:+ "/*") (base +:+ "/" +:+ t)
  | rm_exact p : plain p → resource_matches star_ok p p
  | rm_glob p r : ¬ plain p → (∀ base, plain base → p ≠ base +:+ "/*") →
      glob star_ok p r → resource_matches star_ok p r.

Lemma Contains_char s c : Contains s (String c "") = str_mem c s.
Proof.
  apply eq_true_iff_eq. rewrite Contains_spec, str_mem_spec.
  split; intros (a & b & ->); by exists a, b.
Qed.

Lemma ContainsAny_wild s : ContainsAny s "*?" = str_mem star s || str_mem question s.
Proof.
  induction s as [|c s IH]; simpl; [done|]. rewrite IH, orb_false_r.
  rewrite (bool_decide_ext (c = star) (star = c)), (bool_decide_ext (c = question) (question = c)) by done.
  destruct (bool_decide _), (bool_decide _), (str_mem _ _); done.
Qed.

Lemma plain_ContainsAny s : ContainsAny s "*?" = false ↔ plain s.
Proof. by rewrite ContainsAny_wild, orb_false_iff. Qed.

(** The guard of the prefix branch recognises [base/*] with a plain base. *)
Lemma prefix_form_spec p :
  HasSuffix p "/*" && negb (Contains (TrimSuffix p "/*") "*") && negb (Contains p "?") = true ↔
  ∃ base, plain base ∧ p = base +:+ "/*".
Proof.
  rewrite !andb_true_iff, !negb_true_iff, !Contains_char, HasSuffix_spec. split.
  - intros [[(b & ->) H1] H2]. rewrite TrimSuffix_app in H1. rewrite str_mem_app in H2.
    apply orb_false_iff in H2 as [H2 _]. exists b. done.
  - intros (b & [H1 H2] & ->). rewrite TrimSuffix_app, str_mem_app, H2. split_and!; eauto.
Qed.

Lemma resource_matches_all_iff p r :
  (p = "*" ∨ p = "*/*") → resource_matches any_bytes p r.
Proof. intros [-> | ->]; constructor. Qed.

(** The meanings of a star agree on a resource without a slash. *)
Lemma glob_no_slash p s : no_slash s → glob any_bytes p s → glob no_slash p s.
Proof.
  intros Hs Hg. induction Hg; unfold no_slash in *; cbn in *; rewrite ?str_mem_app in *;
    repeat match goal with H : _ || _ = false |- _ => apply orb_false_iff in H as [? ?] end; eauto using glob.
Qed.

Lemma MatchResource_decides p r : MatchResource p r = true ↔ resource_matches any_bytes p r.
Proof.
  unfold MatchResource. destruct ((p =s "*") || (p =s "*/*")) eqn:Eall.
  { split; [intros _|done]. apply resource_matches_all_iff.
    rewrite orb_true_iff, !bool_decide_eq_true in Eall. done. }
  apply orb_false_iff in Eall as [E1 E2]. bool_props.
  destruct (HasSuffix _ _ && _ && _) eqn:Epre.
  - apply prefix_form_spec in Epre as (b & Hb & ->). rewrite TrimSuffix_app. simpl.
    rewrite orb_true_iff, bool_decide_eq_true, HasPrefix_spec. split.
    + intros [->|(t & ->)]; [by constructor|]. rewrite str_app_assoc. by constructor.
    + inversion 1 as [|?|b' Hb' Eb|b' t Hb' Eb|? Hp|? ? Hnp Hnb]; subst; try done.
      * apply (f_equal (λ s, TrimSuffix s "/*")) in Eb. rewrite !TrimSuffix_app in Eb. subst. by left.
      * apply (f_equal (λ s, TrimSuffix s "/*")) in Eb. rewrite !TrimSuffix_app in Eb. subst. right.
        exists t. by rewrite str_app_assoc.
      * destruct Hp as [Hp _]. rewrite str_mem_app, orb_comm in Hp. done.
      * by destruct (Hnb b).
  - assert (Hnb : ∀ b, plain b → p ≠ b +:+ "/*").
    { intros b Hb ->. by rewrite (proj2 (prefix_form_spec _)) in Epre by eauto. }
    destruct (ContainsAny p "*?") eqn:Ew.
    + assert (¬ plain p) by (rewrite <-plain_ContainsAny; congruence).
      unfold matchResourceGlob. rewrite !bool_decide_false by done. simpl.
      rewrite globMatch_start. split; [by constructor|].
      inversion 1; subst; naive_solver.
    + apply plain_ContainsAny in Ew. rewrite bool_decide_eq_true. split; [intros ->; by constructor|].
      inversion 1; subst; naive_solver.
Qed.

(** C2. [MatchResource], the pattern test of every authorization decision,
    decides the declarative meaning of a resource pattern: the two universal
    patterns, the directory form [base/*] (the base itself and everything
    below it, never a sibling that merely shares the prefix), the exact form,
    and the glob form, in which a star stands for any text, slashes included.
    The documents let a single star stand for one segment only: all that this
    meaning grants is granted, and on a resource without a slash nothing else
    is; on others the code grants more (see [single_star_crosses_segments]). *)
Theorem MatchResource_correct p r :
  (MatchResource p r = true ↔ resource_matches any_bytes p r) ∧
  (resource_matches no_slash p r → MatchResource p r = true) ∧
  (no_slash r → MatchResource p r = true → resource_matches no_slash p r).
Proof.
  split; [apply MatchResource_decides|]. rewrite MatchResource_decides. split.
  - destruct 1; constructor; try done. by eapply glob_mono.
  - intros Hs. destruct 1; constructor; try done. by apply glob_no_slash.
Qed.

Lemma MatchResource_correct_witness : resource_matches no_slash "team-*" "team-a".
Proof. refine (proj2 (proj2 (MatchResource_correct "team-*" "team-a")) eq_refl _). vm_compute. reflexivity. Defined.

(** The segment-bounded matcher of internal/auth/glob.go refines the one
    policies are evaluated with: whatever [matchGlob] accepts, [globMatch]
    accepts. The inclusion is strict, because a single [*] of [globMatch] also
    consumes slashes. *)
Theorem matchGlob_refines_globMatch p s :
  matchGlob p s 0 0 = true → globMatch p s 0 0 = true.
Proof. rewrite globMatch_start, matchGlob_start. by apply glob_mono. Qed.

Lemma matchGlob_refines_globMatch_witness :
  matchGlob "secrets/*/db" "secrets/team/db" 0 0 = true ∧
  globMatch "secrets/*/db" "secrets/team/db" 0 0 = true.
Proof. split; [by vm_compute | apply matchGlob_refines_globMatch; by vm_compute]. Defined.

(** A single [*] of the pattern the policy engine evaluates crosses path
    segments: a policy on [secrets/*/db] also grants [secrets/team/prod/db],
    which the segment-bounded matcher (whose comment states that a single [*]
    matches one segment only) refuses. *)
Theorem single_star_crosses_segments :
  MatchResource "secrets/*/db" "secrets/team/prod/db" = true ∧
  MatchResourceGlob "secrets/*/db" "secrets/team/prod/db" = false.
Proof. split; by vm_compute. Qed.
