(* ===== verification/Policy.v ===== *)
(** The policy engine: policies and their validation
    (internal/domain/auth/policy.go), request conditions
    (internal/auth/evaluator.go) and the RBAC engine
    (internal/auth/{rbac,authz,capabilities}.go).

    Parsing of addresses, networks and timestamps is a parameter of the
    condition evaluator; every theorem holds for all parsers. *)

From Stdlib Require Import Ascii.
From S2P Require Import Prelude.
From S2P Require Import GoLib.
From S2P Require Import Glob.

(** ** internal/domain/auth/policy.go *)

Definition EffectAllow : string := "allow".
Definition EffectDeny : string := "deny".

Record Policy := mkPolicy {
  policy_ID : UUID;
  policy_Name : string;
  policy_Effect : string;
  policy_Resources : list string;
  policy_Actions : list string;
  policy_Capabilities : list string;
  policy_Includes : list string;
  policy_Conditions : gmap string any;
}.

Fixpoint check_globs (rs : list string) : res unit :=
  match rs with
  | [] => Ok tt
  | r :: rs =>
      if ContainsAny r "*?" && Nat.ltb 1 (Count r "**")
      then Err (Plain ("ambiguous glob pattern " +:+ quoted r))
      else check_globs rs
  end.

Definition Policy_Validate (p : Policy) : res unit :=
  if policy_Name p =s "" then Err (Plain "policy name is required")
  else if negb (policy_Effect p =s EffectAllow) && negb (policy_Effect p =s EffectDeny)
  then Err (Plain ("invalid policy effect " +:+ quoted (policy_Effect p)))
  else if bool_decide (policy_Resources p = []) then Err (Plain "policy resources are required")
  else if bool_decide (policy_Capabilities p = []) && bool_decide (policy_Actions p = [])
  then Err (Plain "policy capabilities or actions are required")
  else check_globs (policy_Resources p).

(** ** internal/auth/evaluator.go *)

Record RequestContext := mkRequestContext {
  rc_ClientIP : string;
  rc_Namespace : string;
  rc_Resource : string;
  rc_Action : string;
  rc_AgentID : string;
  rc_Now : Time;
  rc_Cluster : string;
  rc_Environment : string;
  rc_RequestPath : string;
  rc_RequestID : string;
  rc_ResourceLabels : option (gmap string string);
}.

Definition rc_with_now (r : RequestContext) (t : Time) : RequestContext :=
  mkRequestContext (rc_ClientIP r) (rc_Namespace r) (rc_Resource r) (rc_Action r) (rc_AgentID r) t
    (rc_Cluster r) (rc_Environment r) (rc_RequestPath r) (rc_RequestID r) (rc_ResourceLabels r).
Definition rc_with_target (r : RequestContext) (resource action : string) : RequestContext :=
  mkRequestContext (rc_ClientIP r) (rc_Namespace r) resource action (rc_AgentID r) (rc_Now r)
    (rc_Cluster r) (rc_Environment r) (rc_RequestPath r) (rc_RequestID r) (rc_ResourceLabels r).

(** What the evaluator uses of the packages net and time. *)
Class Parsers := {
  IP : Type;
  ParseIP : string → option IP;
  ParseCIDR : string → option (IP → bool);
  ParseRFC3339 : string → option Time;
  time_Now : Time;
}.

Section evaluator.
Context `{Parsers}.

(** [if v, ok := conditions[key].(string); ok && v != "" { if !test(v) {
    return false } }] *)
Definition cond_string (conditions : gmap string any) (key : string) (test : string → bool) : bool :=
  match as_string (conditions !! key) with
  | Some v => if v =s "" then true else test v
  | None => true
  end.

Fixpoint cidr_loop (ip : IP) (clientIP : string) (cidrs : list any) : bool :=
  match cidrs with
  | [] => false
  | VStr pattern :: rest =>
      if pattern =s "" then cidr_loop ip clientIP rest
      else match ParseCIDR pattern with
           | None => if pattern =s clientIP then true else cidr_loop ip clientIP rest
           | Some network => if network ip then true else cidr_loop ip clientIP rest
           end
  | _ :: rest => cidr_loop ip clientIP rest
  end.

Definition matchIPCIDR (cidrs : list any) (clientIP : string) : bool :=
  if clientIP =s "" then false
  else match ParseIP clientIP with
       | None => false
       | Some ip => cidr_loop ip clientIP cidrs
       end.

Definition matchIPCIDRAny (raw : any) (clientIP : string) : bool :=
  match raw with
  | VStr v => if TrimSpace v =s "" then false else matchIPCIDR [VStr v] clientIP
  | VList v => negb (Nat.eqb (length v) 0) && matchIPCIDR v clientIP
  | VStrs v => if Nat.eqb (length v) 0 then false else matchIPCIDR (VStr <$> v) clientIP
  | _ => false
  end.

(** [req.ResourceLabels == nil || req.ResourceLabels[key] != v], negated. *)
Definition label_is (req : RequestContext) (key v : string) : bool :=
  match rc_ResourceLabels req with
  | None => false
  | Some m => default "" (m !! key) =s v
  end.

Definition ip_condition (conditions : gmap string any) (req : RequestContext) : bool :=
  match conditions !! "ip_cidr" with
  | None | Some VNil => true
  | Some raw => matchIPCIDRAny raw (rc_ClientIP req)
  end.

Definition label_condition (conditions : gmap string any) (req : RequestContext) (labelKey : string) : bool :=
  match as_string (conditions !! "resource_label_value") with
  | None => false
  | Some expected => if expected =s "" then false else label_is req labelKey expected
  end.

Definition ConditionsMatch (conditions : gmap string any) (req0 : RequestContext) : bool :=
  if bool_decide (conditions = ∅) then true else
  let req := if IsZero (rc_Now req0) then rc_with_now req0 time_Now else req0 in
  ip_condition conditions req &&
  cond_string conditions "time_after" (λ after,
    match ParseRFC3339 after with None => false | Some t => negb (Before (rc_Now req) t) end) &&
  cond_string conditions "time_before" (λ before,
    match ParseRFC3339 before with None => false | Some t => Before (rc_Now req) t end) &&
  cond_string conditions "path_prefix" (λ prefix, HasPrefix (rc_Resource req) prefix) &&
  cond_string conditions "namespace" (λ ns, rc_Namespace req =s ns) &&
  cond_string conditions "agent_id" (λ agentID, rc_AgentID req =s agentID) &&
  cond_string conditions "cluster" (λ cluster, rc_Cluster req =s cluster) &&
  cond_string conditions "environment" (λ env, rc_Environment req =s env) &&
  cond_string conditions "request_path" (λ reqPath,
    (rc_RequestPath req =s reqPath) || HasPrefix (rc_RequestPath req) reqPath) &&
  cond_string conditions "resource_label" (label_condition conditions req) &&
  cond_string conditions "owner_match" (λ owner, label_is req "owner" owner).

Definition NormalizeCapabilities (capabilities actions : list string) : list string :=
  if Nat.ltb 0 (length capabilities) then capabilities else actions.

Definition policyMatchesResourceAction (p : Policy) (resource action : string) : bool :=
  let actions := if Nat.ltb 0 (length (policy_Capabilities p))
                 then policy_Capabilities p else policy_Actions p in
  existsb (λ resPattern, MatchResource resPattern resource &&
                         existsb (λ actPattern, MatchAction actPattern action) actions)
    (policy_Resources p).

Definition PolicyMatches (p : Policy) (resource action : string) (req : RequestContext) : bool :=
  if policyMatchesResourceAction p resource action
  then ConditionsMatch (policy_Conditions p) (rc_with_target req resource action)
  else false.
End evaluator.

(** ** internal/auth/rbac.go and authz.go *)

(** [RBAC.policies]; the mutex serialises the operations. *)
Abbreviation RBAC := (gmap string Policy).


Definition mk_default (name : string) (resources actions : list string) : Policy :=
  mkPolicy uuid_Nil name EffectAllow resources actions [] [] ∅.

Definition default_policies : list Policy := [
  mk_default "admin" ["*"] ["*"];
  mk_default "pki-admin" ["pki/*"] ["*"];
  mk_default "secrets-admin" ["secrets/*"] ["*"];
  mk_default "secrets-reader" ["secrets/*"] ["read"];
  mk_default "audit-reader" ["audit/*"] ["read"];
  mk_default "policy-admin" ["sys/policies"; "sys/roles"] ["*"];
  mk_default "inject-reader" ["inject/*"] ["read"];
  mk_default "agent-delegator" ["auth/agent/*"] ["write"]].

Definition UpsertPolicy (r : RBAC) (policy : Policy) : RBAC := <[policy_Name policy := policy]> r.
Definition DeletePolicy (r : RBAC) (name : string) : RBAC := delete name r.
Definition LoadPolicies (policies : list Policy) : RBAC := foldl UpsertPolicy ∅ policies.
Definition NewRBAC : RBAC := foldl UpsertPolicy ∅ default_policies.

(** A nil element of the slice is skipped. *)
Definition ReloadFromPersisted (policies : list (option Policy)) : RBAC :=
  foldl (λ fresh o, match o with Some p => UpsertPolicy fresh p | None => fresh end) NewRBAC policies.

Record AuthzResult := mkAuthzResult {
  Allowed : bool;
  MatchedPolicy : string;
  Reason : string;
  DeniedBy : string;
}.

(** [evalPolicy := policy; evalPolicy.Actions = actions] *)
Definition eval_policy (p : Policy) : Policy :=
  mkPolicy (policy_ID p) (policy_Name p) (policy_Effect p) (policy_Resources p)
    (NormalizeCapabilities (policy_Capabilities p) (policy_Actions p))
    (policy_Capabilities p) (policy_Includes p) (policy_Conditions p).

Section authorize.
Context `{Parsers}.
Context (r : RBAC).

Fixpoint authorize_loop (allowed : bool) (matchedAllow : string) (names : list string)
    (resource action : string) (req : RequestContext) : AuthzResult :=
  match names with
  | [] =>
      if negb allowed
      then mkAuthzResult false "" "default deny: no matching allow policy" ""
      else mkAuthzResult true matchedAllow ("allowed by " +:+ matchedAllow) ""
  | name :: names =>
      match r !! name with
      | None => authorize_loop allowed matchedAllow names resource action req
      | Some policy =>
          if negb (PolicyMatches (eval_policy policy) resource action req)
          then authorize_loop allowed matchedAllow names resource action req
          else if policy_Effect policy =s EffectDeny
          then mkAuthzResult false (policy_Name policy) "explicit deny" (policy_Name policy)
          else authorize_loop true (policy_Name policy) names resource action req
      end
  end.

Definition AuthorizeDetailed (policyNames : list string) (resource action : string)
    (req : RequestContext) : AuthzResult :=
  authorize_loop false "" policyNames resource action req.

(** The closure [walk] of [ResolvePolicyNames], threading [seen] and [out].
    A nested call follows the includes of a stored policy that was not seen
    before, so the number of stored policies bounds the nesting. *)
Fixpoint walk (fuel : nat) (acc : gset string * list string) (batch : list string)
    : gset string * list string :=
  match fuel with
  | O => acc
  | S fuel =>
      foldl (λ acc name,
        let '(seen, out) := acc in
        if bool_decide (name ∈ seen) then (seen, out)
        else
          let seen := {[name]} ∪ seen in
          match r !! name with
          | None => (seen, out ++ [name])
          | Some policy =>
              let '(seen, out) :=
                if Nat.ltb 0 (length (policy_Includes policy))
                then walk fuel (seen, out) (policy_Includes policy) else (seen, out) in
              (seen, out ++ [name])
          end) acc batch
  end.

Definition ResolvePolicyNames (names : list string) : list string :=
  (walk (S (size r)) (∅, []) names).2.

Definition Authorize (policyNames : list string) (resource action : string) (req : RequestContext) : bool :=
  Allowed (AuthorizeDetailed (ResolvePolicyNames policyNames) resource action req).

(** The loop body of [Capabilities]: collect [resource:action] once each. *)
Definition add_capability (acc : gset string * list string) (cap : string) : gset string * list string :=
  let '(seen, caps) := acc in
  if bool_decide (cap ∈ seen) then acc else ({[cap]} ∪ seen, caps ++ [cap]).

Definition Capabilities (policyNames : list string) : list string :=
  (foldl (λ acc name,
     match r !! name with
     | None => acc
     | Some policy =>
         let actions := NormalizeCapabilities (policy_Capabilities policy) (policy_Actions policy) in
         foldl (λ acc resource,
           foldl (λ acc action, add_capability acc (resource +:+ ":" +:+ action)) acc actions)
           acc (policy_Resources policy)
     end) (∅, []) (ResolvePolicyNames policyNames)).2.
End authorize.

(** ** Lemmas: authorization *)

Section authorize_lemmas.
Context `{Parsers}.
Context (r : RBAC).

(** A name whose stored policy matches the request, by its effect. *)
Definition grants (name resource action : string) (req : RequestContext) : Prop :=
  ∃ p, r !! name = Some p ∧ PolicyMatches (eval_policy p) resource action req = true ∧
       policy_Effect p ≠ EffectDeny.
Definition denies (name resource action : string) (req : RequestContext) : Prop :=
  ∃ p, r !! name = Some p ∧ PolicyMatches (eval_policy p) resource action req = true ∧
       policy_Effect p = EffectDeny.

Lemma grants_denies_iff n p resource action req : r !! n = Some p →
  (grants n resource action req ↔
     PolicyMatches (eval_policy p) resource action req = true ∧ policy_Effect p ≠ EffectDeny) ∧
  (denies n resource action req ↔
     PolicyMatches (eval_policy p) resource action req = true ∧ policy_Effect p = EffectDeny).
Proof.
  intros Hp. unfold grants, denies. rewrite Hp.
  split; split; [intros (? & [= <-] & ?)|intros ?; eexists|intros (? & [= <-] & ?)|intros ?; eexists]; eauto.
Qed.

Lemma grants_denies_None n resource action req : r !! n = None →
  ¬ grants n resource action req ∧ ¬ denies n resource action req.
Proof. intros Hp. unfold grants, denies. rewrite Hp. split; by intros (? & ? & _). Qed.

Lemma authorize_loop_Allowed allowed m names resource action req :
  Allowed (authorize_loop r allowed m names resource action req) = true ↔
  (allowed = true ∨ Exists (λ n, grants n resource action req) names) ∧
  Forall (λ n, ¬ denies n resource action req) names.
Proof.
  revert allowed m; induction names as [|n names IH]; intros allowed m; simpl.
  - rewrite Exists_nil, Forall_nil. destruct allowed; simpl; naive_solver.
  - rewrite Exists_cons, Forall_cons. destruct (r !! n) as [p|] eqn:Ep.
    + destruct (grants_denies_iff n p resource action req Ep) as [-> ->].
      destruct (PolicyMatches _ _ _ _) eqn:Em; simpl; [case_bool_decide as Hd; simpl|].
      * split; [done|]. by intros [_ [[] _]].
      * rewrite IH. split; [intros [_ ?]; split; [right; left|split]|intros [_ [_ ?]]; split; [left|]]; by try intros [_ ?].
      * rewrite IH. intuition congruence.
    + destruct (grants_denies_None n resource action req Ep). rewrite IH. tauto.
Qed.

Lemma AuthorizeDetailed_Allowed names resource action req :
  Allowed (AuthorizeDetailed r names resource action req) = true ↔
  (∃ n, n ∈ names ∧ grants n resource action req) ∧
  (∀ n, n ∈ names → ¬ denies n resource action req).
Proof.
  unfold AuthorizeDetailed. rewrite authorize_loop_Allowed, Exists_exists, Forall_forall.
  split; [intros [[?|?] ?]|intros [? ?]]; auto; done.
Qed.
End authorize_lemmas.

(** ** Lemmas: the include walk is a depth-first search *)

Section resolve_lemmas.
Context (r : RBAC).

(** [n] is a stored policy that includes [m]. *)
Definition includes (n m : string) : Prop :=
  ∃ p, r !! n = Some p ∧ m ∈ policy_Includes p.

(** What a walk from [batch] adds to what was seen before. *)
Record walk_post (seen : gset string) (out : list string) (batch : list string)
    (seen' : gset string) (out' : list string) : Prop := {
  wp_grow : seen ⊆ seen';
  wp_batch : ∀ n, n ∈ batch → n ∈ seen';
  wp_closed : ∀ n m, n ∈ seen' → n ∉ seen → includes n m → m ∈ seen';
  wp_reach : ∀ n, n ∈ seen' → n ∉ seen → ∃ b, b ∈ batch ∧ rtc includes b n;
  wp_out : ∃ new, out' = out ++ new ∧ NoDup new ∧ ∀ n, n ∈ new ↔ n ∈ seen' ∧ n ∉ seen;
}.

(** Stored policies not seen yet: what the nesting depth cannot exceed. *)
Definition unseen (seen : gset string) : nat := size (dom r ∖ seen).

Lemma unseen_mono seen seen' : seen ⊆ seen' → unseen seen' ≤ unseen seen.
Proof. intros. unfold unseen. apply subseteq_size. set_solver. Qed.

Lemma unseen_visit n p seen : r !! n = Some p → n ∉ seen → unseen ({[n]} ∪ seen) < unseen seen.
Proof.
  intros Hn Hs. unfold unseen. apply subset_size. apply elem_of_dom_2 in Hn.
  split; [set_solver|]. intros Hc. set_solver.
Qed.

Lemma walk_post_nil seen out : walk_post seen out [] seen out.
Proof.
  split; try set_solver. exists []. rewrite app_nil_r. split_and!; [done|constructor|]. set_solver.
Qed.

Lemma walk_post_seq seen out b1 seen1 out1 b2 seen2 out2 :
  walk_post seen out b1 seen1 out1 → walk_post seen1 out1 b2 seen2 out2 →
  walk_post seen out (b1 ++ b2) seen2 out2.
Proof.
  intros [G1 B1 C1 R1 (new1 & -> & N1 & E1)] [G2 B2 C2 R2 (new2 & -> & N2 & E2)]. split.
  - set_solver.
  - intros n [?|?]%elem_of_app; set_solver.
  - intros n m Hn Hns Hi. destruct (decide (n ∈ seen1)); eauto.
  - intros n Hn Hns. destruct (decide (n ∈ seen1)) as [Hn1|Hn1].
    + destruct (R1 n Hn1 Hns) as (b & Hb & ?). exists b. set_solver.
    + destruct (R2 n Hn Hn1) as (b & Hb & ?). exists b. set_solver.
  - exists (new1 ++ new2). rewrite app_assoc. split_and!; [done| |].
    + apply NoDup_app. split_and!; [done| |done]. intros n Hn1%E1 Hn2%E2. naive_solver.
    + intros n. rewrite elem_of_app, E1, E2. destruct (decide (n ∈ seen1)); set_solver.
Qed.

Lemma walk_post_seen seen out n : n ∈ seen → walk_post seen out [n] seen out.
Proof.
  intros Hn. destruct (walk_post_nil seen out) as [G B C R O].
  split; try done. intros m ->%list_elem_of_singleton. done.
Qed.

(** Visiting an unseen name whose includes, if it is stored, were walked. *)
Lemma walk_post_visit seen out n seen' out' :
  n ∉ seen → (∀ m, includes n m → m ∈ seen') → 
  (∃ incl, walk_post ({[n]} ∪ seen) out incl seen' out' ∧ ∀ m, m ∈ incl → includes n m) →
  walk_post seen out [n] seen' (out' ++ [n]).
Proof.
  intros Hn Hinc (incl & [G B C R (new & -> & N & E)] & Hincl). split.
  - set_solver.
  - intros m ->%list_elem_of_singleton. set_solver.
  - intros m k Hm Hms Hi. destruct (decide (m = n)) as [->|Hne]; [eauto|].
    eapply C; [done| |done]. set_solver.
  - intros m Hm Hms. exists n. split; [set_solver|].
    destruct (decide (m = n)) as [->|Hne]; [done|].
    destruct (R m) as (b & Hb & Hr); [done|set_solver|].
    eapply rtc_l; [by apply Hincl|done].
  - exists (new ++ [n]). rewrite app_assoc. split_and!; [done| |].
    + apply NoDup_app. split_and!; [done| |apply NoDup_singleton].
      intros m Hm%E ->%list_elem_of_singleton. set_solver.
    + intros m. rewrite elem_of_app, E, list_elem_of_singleton.
      destruct (decide (m = n)) as [->|]; set_solver.
Qed.

Lemma walk_ok fuel seen out batch seen' out' :
  unseen seen < fuel → walk r fuel (seen, out) batch = (seen', out') →
  walk_post seen out batch seen' out'.
Proof.
  revert seen out batch seen' out'.
  induction fuel as [|fuel IHf]; intros seen out batch seen' out' Hf; [lia|]. cbn [walk].
  revert seen out Hf; induction batch as [|n batch IHb]; intros seen out Hf; simpl.
  { intros [= <- <-]. apply walk_post_nil. }
  match goal with |- foldl _ ?acc _ = _ → _ => destruct acc as [seen1 out1] eqn:Estep end.
  intros Hrest.
  assert (walk_post seen out [n] seen1 out1) as Hstep.
  { case_bool_decide as Hns; [injection Estep as <- <-; by apply walk_post_seen|].
    destruct (r !! n) as [p|] eqn:Ep.
    - assert (Hu := unseen_visit _ _ _ Ep Hns).
      destruct (Nat.ltb_spec 0 (length (policy_Includes p))) as [Hi|Hi].
      + destruct (walk r fuel _ _) as [seen2 out2] eqn:Ew. injection Estep as <- <-.
        apply IHf in Ew; [|lia]. apply walk_post_visit; [done| |].
        * intros m (p' & Hp' & Hm). rewrite Ep in Hp'. injection Hp' as <-. by apply (wp_batch _ _ _ _ _ Ew).
        * exists (policy_Includes p). split; [done|]. intros m Hm. exists p. done.
      + injection Estep as <- <-. apply walk_post_visit; [done| |].
        * intros m (p' & Hp' & Hm). rewrite Ep in Hp'. injection Hp' as <-. destruct (policy_Includes p); simpl in Hi; [|lia].
          by apply elem_of_nil in Hm.
        * exists []. split; [apply walk_post_nil|]. intros m Hm. by apply elem_of_nil in Hm.
    - injection Estep as <- <-. apply walk_post_visit; [done| |].
      + intros m (p' & Hp' & _). congruence.
      + exists []. split; [apply walk_post_nil|]. intros m Hm. by apply elem_of_nil in Hm. }
  change (n :: batch) with ([n] ++ batch). eapply walk_post_seq; [done|].
  apply IHb; [|done]. assert (Hm := unseen_mono _ _ (wp_grow _ _ _ _ _ Hstep)). lia.
Qed.

Lemma ResolvePolicyNames_elem names n :
  n ∈ ResolvePolicyNames r names ↔ ∃ b, b ∈ names ∧ rtc includes b n.
Proof.
  unfold ResolvePolicyNames. destruct (walk r _ _ _) as [seen out] eqn:Ew.
  apply walk_ok in Ew as [G B C R (new & -> & N & E)].
  2: { unfold unseen. rewrite difference_empty_L, size_dom. lia. }
  simpl. rewrite E. split.
  - intros [Hs _]. apply R; set_solver.
  - intros (b & Hb & Hr). split; [|set_solver]. apply B in Hb. clear E.
    induction Hr as [|b c n Hbc _ IH]; [done|]. apply IH. eapply C; [done|set_solver|done].
Qed.

Lemma ResolvePolicyNames_NoDup names : NoDup (ResolvePolicyNames r names).
Proof.
  unfold ResolvePolicyNames. destruct (walk r _ _ _) as [seen out] eqn:Ew.
  apply walk_ok in Ew as [G B C R (new & -> & N & E)]; [done|].
  unfold unseen. rewrite difference_empty_L, size_dom. lia.
Qed.
End resolve_lemmas.

(** ** Lemmas: conditions *)

Section condition_lemmas.
Context `{Parsers}.

Lemma cond_string_mono c c' k f g : c ⊆ c' → (∀ v, c !! k = Some (VStr v) → f v = true → g v = true) →
  cond_string c' k f = true → cond_string c k g = true.
Proof.
  intros Hsub Hfg. unfold cond_string. destruct (c !! k) as [v|] eqn:E; [|done].
  rewrite (lookup_weaken _ _ _ _ E Hsub). destruct v; simpl; try done.
  case_bool_decide; [done|]. by apply Hfg.
Qed.

Lemma ip_condition_mono c c' req : c ⊆ c' → ip_condition c' req = true → ip_condition c req = true.
Proof.
  intros Hsub. unfold ip_condition. destruct (c !! "ip_cidr") as [v|] eqn:E; [|done].
  by rewrite (lookup_weaken _ _ _ _ E Hsub).
Qed.

(** A label test of [c] names the value it expects. *)
Definition label_value_present (c : gmap string any) : Prop :=
  is_Some (c !! "resource_label") → is_Some (c !! "resource_label_value").

Lemma label_condition_mono c c' req key : c ⊆ c' → is_Some (c !! "resource_label_value") →
  label_condition c' req key = true → label_condition c req key = true.
Proof.
  intros Hsub [v Hv]. unfold label_condition. by rewrite Hv, (lookup_weaken _ _ _ _ Hv Hsub).
Qed.
End condition_lemmas.

(** ** Lemmas: the policy table *)

(** The last element of [ps] that is named [n]. *)
Definition last_named (n : string) (ps : list (option Policy)) : option Policy :=
  foldl (λ acc o, match o with
                  | Some p => if policy_Name p =s n then Some p else acc
                  | None => acc
                  end) None ps.

Lemma last_named_snoc n ps o :
  last_named n (ps ++ [o]) =
  match o with
  | Some p => if policy_Name p =s n then Some p else last_named n ps
  | None => last_named n ps
  end.
Proof. unfold last_named. by rewrite foldl_app. Qed.

Lemma reload_lookup n ps :
  ReloadFromPersisted ps !! n =
  match last_named n ps with Some p => Some p | None => NewRBAC !! n end.
Proof.
  unfold ReloadFromPersisted. induction ps as [|o ps IH] using rev_ind; [done|].
  rewrite foldl_app, last_named_snoc. simpl. destruct o as [p|]; [|done].
  unfold UpsertPolicy. case_bool_decide as Hn; [subst; apply lookup_insert_eq|].
  by rewrite lookup_insert_ne.
Qed.

(** A single name without includes resolves to itself. *)
Lemma Authorize_single `{Parsers} r n p resource action req :
  r !! n = Some p → policy_Includes p = [] → policy_Effect p = EffectAllow →
  Authorize r [n] resource action req = PolicyMatches (eval_policy p) resource action req.
Proof.
  intros Hp Hi He. unfold Authorize, ResolvePolicyNames. simpl.
  rewrite bool_decide_false by set_solver. rewrite Hp, Hi. simpl.
  unfold AuthorizeDetailed. simpl. rewrite Hp, He.
  destruct (PolicyMatches _ _ _ _); done.
Qed.

(** ** Theorems *)

(** C1. Authorization is deny-overrides with default deny over the transitive
    closure of includes: a request is allowed exactly when some policy
    reachable from the caller's policy names matches with a non-deny effect
    and no reachable policy matches with effect deny, whatever the order of
    names and includes. *)
Theorem Authorize_correct `{Parsers} r names resource action req :
  Authorize r names resource action req = true ↔
  (∃ b n, b ∈ names ∧ rtc (includes r) b n ∧ grants r n resource action req) ∧
  (∀ b n, b ∈ names → rtc (includes r) b n → ¬ denies r n resource action req).
Proof.
  unfold Authorize. rewrite AuthorizeDetailed_Allowed. setoid_rewrite ResolvePolicyNames_elem.
  split.
  - intros [(n & (b & Hb & Hr) & Hg) HD]. split; [by exists b, n|].
    intros b' n' Hb' Hr'. apply HD. by exists b'.
  - intros [(b & n & Hb & Hr & Hg) HD]. split; [by eauto|].
    intros n' (b' & Hb' & Hr'). by eapply HD.
Qed.

(** C39. [ResolvePolicyNames] terminates on every include graph, cycles
    included, and lists each reachable policy name exactly once: the names
    given, everything stored policies among them include, and so on. *)
Theorem ResolvePolicyNames_correct (r : RBAC) names :
  NoDup (ResolvePolicyNames r names) ∧
  ∀ n, n ∈ ResolvePolicyNames r names ↔ ∃ b, b ∈ names ∧ rtc (includes r) b n.
Proof. split; [apply ResolvePolicyNames_NoDup | intros; apply ResolvePolicyNames_elem]. Qed.

(** Adding conditions to a policy never widens it: if the larger set of
    conditions admits a request, so does every subset of it that keeps a label
    test together with the value it expects. *)
Theorem ConditionsMatch_mono `{Parsers} c c' req :
  c ⊆ c' → label_value_present c → ConditionsMatch c' req = true → ConditionsMatch c req = true.
Proof.
  intros Hsub Hlab. unfold ConditionsMatch. case_bool_decide as E'.
  { subst. intros _. by rewrite bool_decide_true by (by apply (anti_symm (⊆)); [|apply map_empty_subseteq]). }
  case_bool_decide; [done|]. rewrite !andb_true_iff. intros Hall.
  repeat match goal with H : _ ∧ _ |- _ => destruct H end.
  repeat split; first [by eapply ip_condition_mono | by (eapply cond_string_mono; [done| |done]; auto) | idtac].
  eapply cond_string_mono; [done| |done]. intros v Hv. apply label_condition_mono; [done|]. by apply Hlab.
Qed.

(** Parsers for the witnesses: no address or time is readable. *)
Definition no_parsers : Parsers :=
  {| IP := unit; ParseIP := λ _, None; ParseCIDR := λ _, None; ParseRFC3339 := λ _, None; time_Now := 1%Z |}.

Definition sample_request : RequestContext :=
  mkRequestContext "10.0.0.1" "prod" "secrets/a" "read" "" 5%Z "" "staging" "/v1/secrets/a" "r1" None.

Lemma ConditionsMatch_mono_witness :
  let c := {["namespace" := VStr "prod"]} in
  let c' := <["environment" := VStr "staging"]> c in
  @ConditionsMatch no_parsers c' sample_request = true ∧
  @ConditionsMatch no_parsers c sample_request = true.
Proof.
  split; [by vm_compute|].
  apply (@ConditionsMatch_mono no_parsers) with
    (c' := <["environment" := VStr "staging"]> {["namespace" := VStr "prod"]}).
  - apply insert_subseteq. by vm_compute.
  - intros [x Hx]. by vm_compute in Hx.
  - by vm_compute.
Defined.

(** The built-in [secrets-reader] policy, which the default role maps to,
    grants reading of the secrets tree and nothing else: no other action and
    no resource outside [secrets] and [secrets/...]. *)
Theorem secrets_reader_least_privilege `{Parsers} resource action req :
  Authorize NewRBAC ["secrets-reader"] resource action req = true ↔
  action = "read" ∧ (resource = "secrets" ∨ ∃ t, resource = "secrets/" +:+ t).
Proof.
  rewrite <-HasPrefix_spec.
  rewrite (Authorize_single _ _ (mk_default "secrets-reader" ["secrets/*"] ["read"])) by done.
  unfold PolicyMatches.
  replace (policyMatchesResourceAction _ resource action) with
    (((resource =s "secrets") || HasPrefix resource "secrets/") && ("read" =s action))
    by (symmetry; etransitivity; [apply orb_false_r|]; apply (f_equal (andb _)), orb_false_r).
  replace (ConditionsMatch _ _) with true by (symmetry; unfold ConditionsMatch; by rewrite bool_decide_true).
  destruct (HasPrefix resource "secrets/");
    destruct (decide (resource = "secrets")), (decide (action = "read"));
    subst; rewrite ?bool_decide_true, ?bool_decide_false by congruence; naive_solver.
Qed.

(** Reloading from storage installs exactly the persisted policies over
    the built-in defaults: a name resolves to the last persisted policy of
    that name, else to the default of that name, else to nothing. *)
Theorem ReloadFromPersisted_lookup n ps :
  ReloadFromPersisted ps !! n =
  match last_named n ps with Some p => Some p | None => NewRBAC !! n end.
Proof. apply reload_lookup. Qed.

(** A policy passes validation exactly when it is named, its effect is
    allow or deny, it has a resource and a capability or action, and no
    resource pattern with a wildcard contains more than one double star. *)
Theorem Policy_Validate_correct p :
  Policy_Validate p = Ok tt ↔
  policy_Name p ≠ "" ∧ (policy_Effect p = EffectAllow ∨ policy_Effect p = EffectDeny) ∧
  policy_Resources p ≠ [] ∧ (policy_Capabilities p ≠ [] ∨ policy_Actions p ≠ []) ∧
  ∀ rp, rp ∈ policy_Resources p → ContainsAny rp "*?" = true → Count rp "**" ≤ 1.
Proof.
  assert (Hg : ∀ rs, check_globs rs = Ok tt ↔
    ∀ rp, rp ∈ rs → ContainsAny rp "*?" = true → Count rp "**" ≤ 1).
  { induction rs as [|rp rs IH]; simpl; [set_solver|].
    destruct (ContainsAny rp "*?") eqn:Ew, (Nat.ltb_spec 1 (Count rp "**")) as [Hc|Hc]; simpl; rewrite ?IH.
    - split; [done|]. intros Hall. specialize (Hall rp). set_solver by lia.
    - set_solver.
    - set_solver by congruence.
    - set_solver. }
  unfold Policy_Validate. repeat case_bool_decide; simpl; rewrite ?Hg; try naive_solver.
Qed.
