(* ===== verification/Shamir.v ===== *)
(** Shamir's secret sharing over GF(2^8), internal/crypto/shamir/shamir.go,
    which splits the master key into unseal shares.

    A byte is an [ascii], its eight bits: shifts, the test of the high bit and
    exclusive or are those of the source, bit by bit. [rand.Read] is a
    parameter: what the [i]-th call fills a buffer of the given length with, or
    its error. The order in which Go iterates over the map of shares is a
    parameter too. *)

From Stdlib Require Import Ascii Ring Field.
From S2P Require Import Prelude.
From S2P Require Import GoLib.

(** ** Arithmetic of bytes *)

Definition bxor (a b : ascii) : ascii :=
  let '(Ascii a0 a1 a2 a3 a4 a5 a6 a7) := a in
  let '(Ascii b0 b1 b2 b3 b4 b5 b6 b7) := b in
  Ascii (xorb a0 b0) (xorb a1 b1) (xorb a2 b2) (xorb a3 b3) (xorb a4 b4) (xorb a5 b5) (xorb a6 b6) (xorb a7 b7).

Definition b0 : ascii := Ascii false false false false false false false false.
Definition b1 : ascii := Ascii true false false false false false false false.
(** [0x1b] *)
Definition b1b : ascii := Ascii true true false true true false false false.

Definition bit0 (a : ascii) : bool := let '(Ascii x _ _ _ _ _ _ _) := a in x.
Definition bit7 (a : ascii) : bool := let '(Ascii _ _ _ _ _ _ _ x) := a in x.
Definition shl1 (a : ascii) : ascii := let '(Ascii x0 x1 x2 x3 x4 x5 x6 _) := a in Ascii false x0 x1 x2 x3 x4 x5 x6.
Definition shr1 (a : ascii) : ascii := let '(Ascii _ x1 x2 x3 x4 x5 x6 x7) := a in Ascii x1 x2 x3 x4 x5 x6 x7 false.

Definition gfSub (a b : ascii) : ascii := bxor a b.

(** The loop of [gfMul]. *)
Fixpoint gfMul_loop (n : nat) (p a b : ascii) : ascii :=
  match n with
  | O => p
  | S n =>
    let p := if bit0 b then bxor p a else p in
    let hi := bit7 a in
    let a := shl1 a in
    let a := if hi then bxor a b1b else a in
    gfMul_loop n p a (shr1 b)
  end.
Definition gfMul (a b : ascii) : ascii := gfMul_loop 8 b0 a b.

(** The square-and-multiply loop; 64 rounds cover every [int] exponent. *)
Fixpoint gfExp_loop (fuel : nat) (r a : ascii) (e : Z) : ascii :=
  match fuel with
  | O => r
  | S fuel =>
    if (e <=? 0)%Z then r
    else gfExp_loop fuel (if Z.odd e then gfMul r a else r) (gfMul a a) (Z.shiftr e 1)
  end.
Definition gfExp (a : ascii) (e : Z) : ascii := gfExp_loop 64 b1 a e.

Definition gfInv (a : ascii) : ascii := if bool_decide (a = b0) then b0 else gfExp a 254.
Definition gfDiv (a b : ascii) : ascii := if bool_decide (b = b0) then b0 else gfMul a (gfInv b).

(** ** Polynomials, splitting and combining *)

(** Horner's rule, from the last coefficient down. *)
Definition evalPoly (coeffs : list ascii) (x : ascii) : ascii :=
  foldl (λ y c, bxor (gfMul y x) c) b0 (reverse coeffs).

(** The inner loop of [interpolate]: numerator and denominator of the [i]-th
    basis polynomial, skipping [j = i]. *)
Definition basis_step (x xi : ascii) (i : nat) (nd : ascii * ascii) (jp : nat * (ascii * ascii)) : ascii * ascii :=
  if Nat.eqb i jp.1 then nd
  else (gfMul nd.1 (gfSub x jp.2.1), gfMul nd.2 (gfSub xi jp.2.1)).

Definition interpolate (points : list (ascii * ascii)) (x : ascii) : ascii :=
  foldl (λ result ip,
    let '(i, (xi, yi)) := ip in
    let '(num, den) := foldl (basis_step x xi i) (b1, b1) (imap pair points) in
    bxor result (gfMul yi (gfDiv num den))) b0 (imap pair points).

Definition byte_of (x : nat) : ascii := ascii_of_nat x.

Section split.
Context (rand : nat → nat → res (list ascii)).

(** The coefficients of every byte of the secret. *)
Fixpoint draw (t : nat) (i : nat) (secret : list ascii) : res (list (list ascii)) :=
  match secret with
  | [] => Ok []
  | b :: secret =>
    rnd ← rand i (t - 1);
    rest ← draw t (S i) secret;
    Ok ((b :: rnd) :: rest)
  end.

(** Share [x] is its number followed by the values of the polynomials there. *)
Definition share_at (polys : list (list ascii)) (x : ascii) : list ascii := x :: ((λ c, evalPoly c x) <$> polys).

Definition Split (secret : list ascii) (n t : Z) : res (list (list ascii)) :=
  _ ← reject ((t <? 1) || (n <? t) || (255 <? n))%Z (Plain "shamir: need 1 <= t <= n <= 255");
  _ ← reject (bool_decide (secret = [])) (Plain "shamir: empty secret");
  polys ← draw (Z.to_nat t) 0 secret;
  Ok ((λ x, share_at polys (byte_of x)) <$> seq 1 (Z.to_nat n)).
End split.

(** The shares by number, a later share of a number replacing an earlier one. *)
Fixpoint put_share (x : ascii) (s : list ascii) (m : list (ascii * list ascii)) : list (ascii * list ascii) :=
  match m with
  | [] => [(x, s)]
  | (y, u) :: m => if bool_decide (x = y) then (x, s) :: m else (y, u) :: put_share x s m
  end.

Definition collect (m : list (ascii * list ascii)) (s : list ascii) : res (list (ascii * list ascii)) :=
  match s with
  | [] => Err (Plain "shamir: invalid share x=0")
  | x :: _ => if bool_decide (x = b0) then Err (Plain "shamir: invalid share x=0") else Ok (put_share x s m)
  end.

Section combine.
Context (iter : list (ascii * list ascii) → list (ascii * list ascii)).

Definition Combine (shares : list (list ascii)) : res (list ascii) :=
  match shares with
  | [] => Err (Plain "shamir: need at least one share")
  | s0 :: _ =>
    _ ← reject (Nat.ltb (length s0) 2) (Plain "shamir: invalid share length");
    _ ← reject (negb (forallb (λ s, Nat.eqb (length s) (length s0)) shares)) (Plain "shamir: inconsistent share length");
    byX ← for_each collect [] shares;
    _ ← reject (bool_decide (byX = [])) (Plain "shamir: no valid shares");
    Ok ((λ i, interpolate ((λ xs, (xs.1, nth (S i) xs.2 b0)) <$> iter byX) b0) <$> seq 0 (length s0 - 1))
  end.
End combine.

(** ** GF(2^8) is a field *)

Declare Scope gf_scope.
Delimit Scope gf_scope with gf.
Infix "⊕" := bxor (at level 50, left associativity) : gf_scope.
Infix "⊗" := gfMul (at level 40, left associativity) : gf_scope.
#[local] Open Scope gf_scope.

Ltac bits8 := repeat match goal with a : ascii |- _ => destruct a end; simpl; f_equal; repeat case_match; done.

Lemma bxor_comm a b : a ⊕ b = b ⊕ a.
Proof. destruct a, b. simpl. f_equal; apply xorb_comm. Qed.
Lemma bxor_assoc a b c : a ⊕ (b ⊕ c) = a ⊕ b ⊕ c.
Proof. destruct a, b, c. simpl. f_equal; symmetry; apply xorb_assoc_reverse. Qed.
Lemma bxor_0_l a : b0 ⊕ a = a.
Proof. by destruct a. Qed.
Lemma bxor_0_r a : a ⊕ b0 = a.
Proof. by rewrite bxor_comm, bxor_0_l. Qed.
Lemma bxor_self a : a ⊕ a = b0.
Proof. destruct a. simpl. by rewrite !xorb_nilpotent. Qed.
Lemma bxor_swap a b c d : a ⊕ b ⊕ (c ⊕ d) = a ⊕ c ⊕ (b ⊕ d).
Proof. rewrite <-!bxor_assoc. f_equal. rewrite !bxor_assoc. f_equal. apply bxor_comm. Qed.
Lemma bxor_eq_0 a b : a ⊕ b = b0 → a = b.
Proof. intros H. rewrite <-(bxor_0_r a), <-(bxor_self b), bxor_assoc, H. apply bxor_0_l. Qed.

(** Multiplication by [x] modulo the polynomial is linear. *)
Definition xtime (a : ascii) : ascii := if bit7 a then shl1 a ⊕ b1b else shl1 a.

Lemma xtime_linear a b : xtime (a ⊕ b) = xtime a ⊕ xtime b.
Proof.
  assert (Hs : shl1 (a ⊕ b) = shl1 a ⊕ shl1 b) by (destruct a, b; done).
  assert (H7 : bit7 (a ⊕ b) = xorb (bit7 a) (bit7 b)) by (destruct a, b; done).
  unfold xtime. rewrite Hs, H7. destruct (bit7 a), (bit7 b); simpl.
  - rewrite bxor_swap, bxor_self. by rewrite bxor_0_r.
  - rewrite <-!bxor_assoc. f_equal. apply bxor_comm.
  - by rewrite bxor_assoc.
  - done.
Qed.

Lemma gfMul_loop_S n p a b : gfMul_loop (S n) p a b = gfMul_loop n (if bit0 b then p ⊕ a else p) (xtime a) (shr1 b).
Proof. done. Qed.

Lemma gfMul_loop_linear_l n p p' a a' b :
  gfMul_loop n (p ⊕ p') (a ⊕ a') b = gfMul_loop n p a b ⊕ gfMul_loop n p' a' b.
Proof.
  revert p p' a a' b. induction n as [|n IH]; intros p p' a a' b; [done|].
  rewrite !gfMul_loop_S, xtime_linear, <-IH. f_equal. destruct (bit0 b); [apply bxor_swap|done].
Qed.

Lemma gfMul_loop_linear_r n p p' a b b' :
  gfMul_loop n (p ⊕ p') a (b ⊕ b') = gfMul_loop n p a b ⊕ gfMul_loop n p' a b'.
Proof.
  revert p p' a b b'. induction n as [|n IH]; intros p p' a b b'; [done|].
  rewrite !gfMul_loop_S.
  assert (Hs : shr1 (b ⊕ b') = shr1 b ⊕ shr1 b') by (destruct b, b'; done).
  assert (H0 : bit0 (b ⊕ b') = xorb (bit0 b) (bit0 b')) by (destruct b, b'; done).
  rewrite Hs, H0, <-IH. f_equal. destruct (bit0 b), (bit0 b'); simpl; try done.
  - by rewrite bxor_swap, bxor_self, bxor_0_r.
  - rewrite <-!bxor_assoc. f_equal. apply bxor_comm.
  - by rewrite bxor_assoc.
Qed.

Definition linear (f : ascii → ascii) : Prop := ∀ a b, f (a ⊕ b) = f a ⊕ f b.

Lemma gfMul_linear_l b : linear (λ a, a ⊗ b).
Proof. intros a a'. unfold gfMul. rewrite <-gfMul_loop_linear_l. by rewrite bxor_self. Qed.
Lemma gfMul_linear_r a : linear (λ b, a ⊗ b).
Proof. intros b b'. unfold gfMul. rewrite <-gfMul_loop_linear_r. by rewrite bxor_self. Qed.

(** Two linear maps that agree on the eight single bits are equal. *)
Definition basis : list ascii :=
  (λ k : nat, Ascii (Nat.eqb k 0) (Nat.eqb k 1) (Nat.eqb k 2) (Nat.eqb k 3)
                    (Nat.eqb k 4) (Nat.eqb k 5) (Nat.eqb k 6) (Nat.eqb k 7)) <$> seq 0 8.

Definition pick (b : bool) (e : ascii) : ascii := if b then e else b0.

Lemma byte_basis (a : ascii) : ∃ bs : list bool, length bs = 8 ∧ a = foldr bxor b0 (zip_with pick bs basis).
Proof.
  destruct a as [x0 x1 x2 x3 x4 x5 x6 x7]. exists [x0; x1; x2; x3; x4; x5; x6; x7]. split; [done|].
  by destruct x0, x1, x2, x3, x4, x5, x6, x7.
Qed.

Lemma linear_0 f : linear f → f b0 = b0.
Proof. intros Hf. rewrite <-(bxor_self b0) at 1. rewrite Hf. apply bxor_self. Qed.

Lemma linear_ext f g : linear f → linear g → Forall (λ e, f e = g e) basis → ∀ a, f a = g a.
Proof.
  intros Hf Hg Hb a. destruct (byte_basis a) as (bs & _ & ->). revert bs.
  induction Hb as [|e es He Hes IH]; intros [|b bs]; simpl; try (by rewrite !linear_0).
  rewrite Hf, Hg, IH. f_equal. destruct b; simpl; [done|]. by rewrite !linear_0.
Qed.

Lemma linear_comp f g : linear f → linear g → linear (λ a, f (g a)).
Proof. intros Hf Hg a b. by rewrite Hg, Hf. Qed.

Lemma gfMul_comm a b : a ⊗ b = b ⊗ a.
Proof.
  revert a. apply (linear_ext (λ a, a ⊗ b) (λ a, b ⊗ a)); [apply gfMul_linear_l|apply gfMul_linear_r|].
  apply Forall_forall. intros e He. revert b.
  apply (linear_ext (λ b, e ⊗ b) (λ b, b ⊗ e)); [apply gfMul_linear_r|apply gfMul_linear_l|].
  revert e He. apply Forall_forall. repeat constructor.
Qed.

Lemma gfMul_assoc a b c : a ⊗ (b ⊗ c) = a ⊗ b ⊗ c.
Proof.
  revert a. apply (linear_ext (λ a, a ⊗ (b ⊗ c)) (λ a, a ⊗ b ⊗ c)).
  { apply gfMul_linear_l. }
  { apply (linear_comp (λ x, x ⊗ c) (λ a, a ⊗ b)); apply gfMul_linear_l. }
  apply Forall_forall. intros e He. revert b. apply (linear_ext (λ b, e ⊗ (b ⊗ c)) (λ b, e ⊗ b ⊗ c)).
  { apply (linear_comp (λ x, e ⊗ x) (λ b, b ⊗ c)); [apply gfMul_linear_r|apply gfMul_linear_l]. }
  { apply (linear_comp (λ x, x ⊗ c) (λ b, e ⊗ b)); [apply gfMul_linear_l|apply gfMul_linear_r]. }
  apply Forall_forall. intros e' He'. revert c. apply (linear_ext (λ c, e ⊗ (e' ⊗ c)) (λ c, e ⊗ e' ⊗ c)).
  { apply (linear_comp (λ x, e ⊗ x) (λ c, e' ⊗ c)); apply gfMul_linear_r. }
  { apply gfMul_linear_r. }
  revert e' He'. apply Forall_forall. revert e He. apply Forall_forall. repeat constructor.
Qed.

Lemma gfMul_1_l a : b1 ⊗ a = a.
Proof. revert a. apply linear_ext; [apply gfMul_linear_r|done|]. repeat constructor. Qed.

(** A decidable statement about every byte, by enumeration. *)
Definition all_bytes : list ascii := ascii_of_nat <$> seq 0 256.

Lemma all_bytes_spec (P : ascii → bool) : forallb P all_bytes = true → ∀ a, P a = true.
Proof.
  intros H a. rewrite forallb_elem in H. apply H. unfold all_bytes. apply list_elem_of_fmap.
  exists (nat_of_ascii a). split; [by rewrite ascii_nat_embedding|]. apply elem_of_seq.
  assert (Hb := nat_ascii_bounded a). lia.
Qed.

Lemma gfInv_l a : a ≠ b0 → gfInv a ⊗ a = b1.
Proof.
  assert (H := all_bytes_spec (λ a, Ascii.eqb a b0 || Ascii.eqb (gfInv a ⊗ a) b1) ltac:(by vm_compute) a).
  simpl in H. rewrite orb_true_iff, !Ascii.eqb_eq in H. tauto.
Qed.

Lemma gfDiv_def a b : gfDiv a b = a ⊗ gfInv b.
Proof.
  unfold gfDiv. case_bool_decide as Hb; [|done]. subst. change (gfInv b0) with b0. symmetry.
  apply (linear_0 (λ x, a ⊗ x)), gfMul_linear_r.
Qed.

Lemma gf_ring : ring_theory b0 b1 bxor gfMul gfSub (λ a, a) eq.
Proof.
  split; intros.
  - apply bxor_0_l.
  - apply bxor_comm.
  - apply bxor_assoc.
  - apply gfMul_1_l.
  - apply gfMul_comm.
  - apply gfMul_assoc.
  - apply (gfMul_linear_l z).
  - done.
  - apply bxor_self.
Qed.

Lemma gf_field : field_theory b0 b1 bxor gfMul gfSub (λ a, a) gfDiv gfInv eq.
Proof. split; [apply gf_ring|done|apply gfDiv_def|apply gfInv_l]. Qed.

Add Field gf_field_inst : gf_field.

(** ** Polynomials over the field *)

Infix "⊖" := gfSub (at level 50, left associativity) : gf_scope.

Lemma gfMul_0_l a : b0 ⊗ a = b0.
Proof. ring. Qed.

Lemma gfMul_neq_0 a b : a ≠ b0 → b ≠ b0 → a ⊗ b ≠ b0.
Proof.
  intros Ha Hb H. apply Ha.
  replace a with (a ⊗ b ⊗ gfInv b) by (field; done). rewrite H. apply gfMul_0_l.
Qed.

Lemma evalPoly_cons c cs x : evalPoly (c :: cs) x = evalPoly cs x ⊗ x ⊕ c.
Proof. unfold evalPoly. by rewrite reverse_cons, foldl_app. Qed.

Lemma evalPoly_at_0 c cs : evalPoly (c :: cs) b0 = c.
Proof. rewrite evalPoly_cons. ring. Qed.

(** Synthetic division by [x - r]. *)
Lemma evalPoly_divide cs r :
  ∃ q, length q = pred (length cs) ∧ ∀ y, evalPoly cs y = (y ⊖ r) ⊗ evalPoly q y ⊕ evalPoly cs r.
Proof.
  induction cs as [|c cs (q & Hl & Hq)].
  - exists []. split; [done|]. intros y. change (evalPoly [] y) with b0. change (evalPoly [] r) with b0. ring.
  - destruct cs as [|c' cs].
    + exists []. split; [done|]. intros y. rewrite !evalPoly_cons.
      change (evalPoly [] y) with b0. change (evalPoly [] r) with b0. ring.
    + exists (evalPoly (c' :: cs) r :: q). split; [simpl in *; lia|].
      intros y. rewrite (evalPoly_cons c _ y), (evalPoly_cons c _ r), (evalPoly_cons _ q), Hq. ring.
Qed.

(** A polynomial with as many distinct roots as coefficients vanishes. *)
Lemma evalPoly_roots xs : ∀ cs, NoDup xs → length cs ≤ length xs →
  (∀ x, x ∈ xs → evalPoly cs x = b0) → ∀ y, evalPoly cs y = b0.
Proof.
  induction xs as [|r xs IH]; intros cs Hnd Hl Hr y.
  { by destruct cs; [|simpl in Hl; lia]. }
  apply NoDup_cons in Hnd as [Hx Hnd]. destruct (evalPoly_divide cs r) as (q & Hq & Hdiv).
  rewrite Hdiv, (Hr r), (IH q); [ring|done|simpl in Hl; lia| |left].
  intros x Hin. assert (Hxr : x ⊖ r ≠ b0) by (intros ->%bxor_eq_0; done).
  assert (H0 := Hr x ltac:(by right)). rewrite Hdiv, (Hr r ltac:(left)) in H0.
  destruct (decide (evalPoly q x = b0)) as [|Hne]; [done|].
  destruct (gfMul_neq_0 _ _ Hxr Hne). rewrite <-H0. ring.
Qed.

(** Sums and multiples of coefficient lists. *)
Fixpoint padd (cs ds : list ascii) : list ascii :=
  match cs, ds with
  | [], _ => ds
  | _, [] => cs
  | c :: cs, d :: ds => (c ⊕ d) :: padd cs ds
  end.

Lemma padd_eval cs ds x : evalPoly (padd cs ds) x = evalPoly cs x ⊕ evalPoly ds x.
Proof.
  revert ds. induction cs as [|c cs IH]; intros [|d ds]; cbn [padd]; try (change (evalPoly [] x) with b0; ring).
  rewrite !evalPoly_cons, IH. ring.
Qed.
Lemma padd_length cs ds : length (padd cs ds) = length cs `max` length ds.
Proof. revert ds. induction cs as [|c cs IH]; intros [|d ds]; simpl; [done..|]. by rewrite IH. Qed.
Lemma pscale_eval k cs x : evalPoly (gfMul k <$> cs) x = k ⊗ evalPoly cs x.
Proof.
  induction cs as [|c cs IH]; [change (evalPoly (gfMul k <$> []) x) with b0; change (evalPoly [] x) with b0; ring|].
  rewrite fmap_cons, !evalPoly_cons, IH. ring.
Qed.

(** [f] is a polynomial with at most [k] coefficients. *)
Definition poly (k : nat) (f : ascii → ascii) : Prop :=
  ∃ cs, length cs ≤ k ∧ ∀ x, f x = evalPoly cs x.

Lemma poly_add k f g : poly k f → poly k g → poly k (λ x, f x ⊕ g x).
Proof.
  intros (cs & Hc & Hf) (ds & Hd & Hg). exists (padd cs ds). rewrite padd_length. split; [lia|].
  intros x. by rewrite padd_eval, Hf, Hg.
Qed.
Lemma poly_scale k a f : poly k f → poly k (λ x, a ⊗ f x).
Proof.
  intros (cs & Hc & Hf). exists (gfMul a <$> cs). rewrite length_fmap. split; [done|].
  intros x. by rewrite pscale_eval, Hf.
Qed.
Lemma poly_factor k r f : poly k f → poly (S k) (λ x, f x ⊗ (x ⊖ r)).
Proof.
  intros (cs & Hc & Hf). exists (padd (b0 :: cs) (gfMul r <$> cs)).
  rewrite padd_length, length_fmap. split; [simpl; lia|].
  intros x. rewrite padd_eval, evalPoly_cons, pscale_eval, Hf. unfold gfSub. ring.
Qed.
Lemma poly_ext k f g : (∀ x, f x = g x) → poly k g → poly k f.
Proof. intros H (cs & Hc & Hg). exists cs. split; [done|]. intros x. by rewrite H. Qed.

Lemma poly_unique k f g xs : poly k f → poly k g → NoDup xs → k ≤ length xs →
  (∀ x, x ∈ xs → f x = g x) → ∀ y, f y = g y.
Proof.
  intros Hf Hg Hnd Hk Heq y. apply bxor_eq_0. destruct (poly_add k f g Hf Hg) as (cs & Hl & Hcs).
  rewrite Hcs. apply (evalPoly_roots xs); [done|lia|]. intros x Hx. rewrite <-Hcs, (Heq x Hx). apply bxor_self.
Qed.

(** ** The Lagrange interpolant *)

Definition num_step (i : nat) (x : ascii) (acc : ascii) (jp : nat * (ascii * ascii)) : ascii :=
  if Nat.eqb i jp.1 then acc else acc ⊗ (x ⊖ jp.2.1).

Lemma basis_step_nums x xi i l u v :
  foldl (basis_step x xi i) (u, v) l = (foldl (num_step i x) u l, foldl (num_step i xi) v l).
Proof.
  revert u v. induction l as [|jp l IH]; intros u v; simpl; [done|].
  unfold basis_step at 2, num_step at 2 4. destruct (Nat.eqb i jp.1); apply IH.
Qed.

Lemma num_0 i x l : foldl (num_step i x) b0 l = b0.
Proof.
  induction l as [|jp l IH]; simpl; [done|]. unfold num_step at 2. destruct (Nat.eqb i jp.1); [done|].
  by rewrite gfMul_0_l.
Qed.

Lemma num_root i x l u j p : (j, p) ∈ l → j ≠ i → p.1 = x → foldl (num_step i x) u l = b0.
Proof.
  intros Hin Hj Hp. apply list_elem_of_split in Hin as (l1 & l2 & ->).
  rewrite foldl_app. simpl. unfold num_step at 2. simpl. rewrite Hp.
  destruct (Nat.eqb_spec i j); [done|]. change (x ⊖ x) with (x ⊕ x). rewrite bxor_self, gfMul_comm, gfMul_0_l.
  apply num_0.
Qed.

Lemma num_neq_0 i x l u : u ≠ b0 → (∀ j p, (j, p) ∈ l → j ≠ i → p.1 ≠ x) → foldl (num_step i x) u l ≠ b0.
Proof.
  revert u. induction l as [|[j p] l IH]; intros u Hu Hl; simpl; [done|].
  apply IH; [|intros; apply (Hl j0); [by right|done]].
  unfold num_step. simpl. destruct (Nat.eqb_spec i j); [done|].
  apply gfMul_neq_0; [done|]. intros H%bxor_eq_0. by apply (Hl j p); [left|..].
Qed.

Lemma num_poly_weak i l k f : poly k f → poly (k + length l) (λ x, foldl (num_step i x) (f x) l).
Proof.
  revert k f. induction l as [|[j p] l IH]; intros k f Hf; simpl; [by rewrite Nat.add_0_r|].
  rewrite <-Nat.add_succ_comm. apply (IH (S k) (λ x, num_step i x (f x) (j, p))).
  unfold num_step. simpl. destruct (Nat.eqb i j); [|by apply poly_factor].
  destruct Hf as (cs & Hc & Hf). exists cs. split; [lia|done].
Qed.

Lemma num_poly i p l : (i, p) ∈ l → poly (length l) (λ x, foldl (num_step i x) b1 l).
Proof.
  intros (l1 & l2 & ->)%list_elem_of_split. rewrite length_app. simpl.
  apply poly_ext with (g := λ x, foldl (num_step i x) (foldl (num_step i x) b1 l1) l2).
  { intros x. rewrite foldl_app. simpl. unfold num_step at 2. simpl. by rewrite Nat.eqb_refl. }
  replace (length l1 + S (length l2)) with (1 + length l1 + length l2) by lia.
  apply num_poly_weak, (num_poly_weak i l1 1 (λ _, b1)). exists [b1]. split; [done|].
  intros x. rewrite evalPoly_cons. change (evalPoly [] x) with b0. ring.
Qed.

(** The contribution of one point to the interpolant. *)
Definition term (points : list (ascii * ascii)) (x : ascii) (ip : nat * (ascii * ascii)) : ascii :=
  ip.2.2 ⊗ gfDiv (foldl (num_step ip.1 x) b1 (imap pair points)) (foldl (num_step ip.1 ip.2.1) b1 (imap pair points)).

Lemma foldl_funext {A B} (f g : A → B → A) a l : (∀ a b, f a b = g a b) → foldl f a l = foldl g a l.
Proof. intros H. revert a. induction l as [|b l IH]; intros a; simpl; [done|]. by rewrite H, IH. Qed.

Lemma interpolate_terms points x :
  interpolate points x = foldl (λ r ip, r ⊕ term points x ip) b0 (imap pair points).
Proof.
  unfold interpolate. apply foldl_funext. intros r [i [xi yi]]. by rewrite basis_step_nums.
Qed.

Lemma sum_poly {A} k (T : ascii → A → ascii) l f :
  poly k f → (∀ a, a ∈ l → poly k (λ x, T x a)) → poly k (λ x, foldl (λ r a, r ⊕ T x a) (f x) l).
Proof.
  revert f. induction l as [|a l IH]; intros f Hf HT; simpl; [done|].
  apply (IH (λ x, f x ⊕ T x a)); [|intros; apply HT; by right].
  apply poly_add; [done|]. apply HT. left.
Qed.

Lemma sum_single {A} `{EqDecision A} (T : A → ascii) l u a :
  NoDup l → a ∈ l → (∀ b, b ∈ l → b ≠ a → T b = b0) → foldl (λ r b, r ⊕ T b) u l = u ⊕ T a.
Proof.
  assert (Hz : ∀ l u, (∀ b, b ∈ l → T b = b0) → foldl (λ r b, r ⊕ T b) u l = u).
  { intros l'. induction l' as [|b l' IH]; intros u' H; simpl; [done|].
    rewrite (H b) by left. rewrite bxor_0_r. apply IH. intros; apply H; by right. }
  revert u. induction l as [|b l IH]; intros u Hnd Hin HT; simpl; [by apply not_elem_of_nil in Hin|].
  apply NoDup_cons in Hnd as [Hb Hnd]. destruct (decide (b = a)) as [->|Hne].
  - apply Hz. intros b Hbl. apply HT; [by right|]. by intros ->.
  - rewrite (HT b), bxor_0_r by (done || left). apply elem_of_cons in Hin as [?|Hin]; [congruence|].
    apply IH; [done..|]. intros; apply HT; [by right|done].
Qed.

Lemma elem_of_indexed {A} (l : list A) i a : (i, a) ∈ imap pair l ↔ l !! i = Some a.
Proof. rewrite elem_of_lookup_imap. split; [intros (?&?&[= -> ->]&?); done|eauto]. Qed.

Lemma NoDup_indexed {A} (l : list A) : NoDup (imap pair l).
Proof.
  apply NoDup_alt. intros i j [i' a]. rewrite !list_lookup_imap.
  destruct (l !! i), (l !! j); simpl; congruence.
Qed.

Lemma interpolate_poly points : poly (length points) (interpolate points).
Proof.
  eapply poly_ext; [apply interpolate_terms|].
  apply (sum_poly _ (term points) (imap pair points) (λ _, b0)).
  - exists []. split; [simpl; lia|done].
  - intros [i [xi yi]] Hin. unfold term. simpl.
    eapply poly_ext; [intros x; rewrite gfDiv_def, gfMul_assoc, gfMul_comm, gfMul_assoc; reflexivity|].
    apply poly_scale. rewrite <-(length_imap pair points). by apply (num_poly i (xi, yi)).
Qed.

Lemma interpolate_point points xi yi :
  NoDup points.*1 → (xi, yi) ∈ points → interpolate points xi = yi.
Proof.
  intros Hnd (i & Hi)%list_elem_of_lookup.
  assert (Hinj : ∀ j p, points !! j = Some p → p.1 = xi → j = i).
  { intros j [xj yj] Hj Hx. simpl in Hx. subst. apply (NoDup_lookup points.*1 j i xi); [done| |];
      by rewrite list_lookup_fmap, ?Hj, ?Hi. }
  rewrite interpolate_terms, (sum_single (term points xi) _ b0 (i, (xi, yi))).
  - rewrite bxor_0_l. unfold term. cbn [fst snd]. rewrite gfDiv_def.
    set (d := foldl _ _ _). assert (Hd : d ≠ b0).
    { apply num_neq_0; [done|]. intros j p Hj%elem_of_indexed Hne Hx. by apply Hne, (Hinj j p). }
    rewrite (gfMul_comm d), gfInv_l by done. ring.
  - apply NoDup_indexed.
  - by apply elem_of_indexed.
  - intros [j [xj yj]] Hj%elem_of_indexed Hne. unfold term. cbn [fst snd].
    rewrite (num_root j xi _ _ i (xi, yi)); [rewrite gfDiv_def; ring|by apply elem_of_indexed| |done].
    intros ->. apply Hne. rewrite Hi in Hj. congruence.
Qed.

(** Interpolating at least as many points of a polynomial as it has
    coefficients gives the polynomial back. *)
Lemma interpolate_evalPoly cs points y :
  NoDup points.*1 → length cs ≤ length points →
  (∀ p, p ∈ points → p.2 = evalPoly cs p.1) → interpolate points y = evalPoly cs y.
Proof.
  intros Hnd Hl Hp. apply (poly_unique (length points) (interpolate points) (evalPoly cs) points.*1).
  - apply interpolate_poly.
  - by exists cs.
  - done.
  - by rewrite length_fmap.
  - intros x ([xi yi] & -> & Hin)%list_elem_of_fmap. rewrite (interpolate_point _ xi yi) by done.
    apply (Hp _ Hin).
Qed.

(** ** Splitting and combining *)

(** [rand.Read] never returns an error and always fills its buffer. *)
Definition reader (rand : nat → nat → res (list ascii)) : Prop :=
  ∀ i k, ∃ l, rand i k = Ok l ∧ length l = k.

Lemma draw_spec rand t i secret : reader rand →
  ∃ polys, draw rand t i secret = Ok polys ∧ length polys = length secret ∧
    ∀ j b, secret !! j = Some b → ∃ rnd, rand (i + j) (t - 1) = Ok rnd ∧ length rnd = t - 1 ∧ polys !! j = Some (b :: rnd).
Proof.
  intros Hr. revert i. induction secret as [|b secret IH]; intros i; simpl.
  - exists []. repeat split. intros j b H. by rewrite lookup_nil in H.
  - destruct (Hr i (t - 1)) as (l & Hl0 & Hl). rewrite Hl0. destruct (IH (S i)) as (ps & -> & Hps & Hj). simpl.
    exists ((b :: l) :: ps). split; [done|]. split; [simpl; lia|].
    intros [|j] b' Hb; simpl in *; [simplify_eq; exists l; by rewrite Nat.add_0_r|].
    rewrite <-Nat.add_succ_comm. by apply Hj.
Qed.

Lemma Split_spec rand secret n t :
  reader rand → (1 ≤ t ≤ n)%Z → (n ≤ 255)%Z → secret ≠ [] →
  ∃ polys, Split rand secret n t = Ok ((λ x, share_at polys (byte_of x)) <$> seq 1 (Z.to_nat n)) ∧
    length polys = length secret ∧
    ∀ j b, secret !! j = Some b →
      ∃ rnd, rand j (Z.to_nat t - 1) = Ok rnd ∧ length rnd = Z.to_nat t - 1 ∧ polys !! j = Some (b :: rnd).
Proof.
  intros Hr Ht Hn Hs. unfold Split. rewrite bool_decide_eq_false_2 by done.
  destruct (draw_spec rand (Z.to_nat t) 0 secret Hr) as (ps & -> & Hps). exists ps. split; [|done].
  destruct (Z.ltb_spec t 1), (Z.ltb_spec n t), (Z.ltb_spec 255 n); simpl; (done || lia).
Qed.

Lemma byte_of_inj x y : x ≤ 255 → y ≤ 255 → byte_of x = byte_of y → x = y.
Proof.
  intros Hx Hy H. unfold byte_of in H. rewrite <-(nat_ascii_embedding x), <-(nat_ascii_embedding y) by lia.
  by rewrite H.
Qed.
Lemma byte_of_neq_0 x : 1 ≤ x ≤ 255 → byte_of x ≠ b0.
Proof. intros Hx H. change b0 with (byte_of 0) in H. apply byte_of_inj in H; lia. Qed.

Lemma put_share_form (sh : ascii → list ascii) x ks :
  put_share x (sh x) ((λ k, (k, sh k)) <$> ks) =
  (λ k, (k, sh k)) <$> (if bool_decide (x ∈ ks) then ks else ks ++ [x]).
Proof.
  induction ks as [|k ks IH]; [done|]. rewrite fmap_cons. simpl.
  destruct (decide (x = k)) as [->|Hne].
  - rewrite (bool_decide_eq_true_2 (k ∈ _)) by left. by rewrite (bool_decide_eq_true_2 (k = k)).
  - rewrite (bool_decide_eq_false_2 (x = k)), IH by done.
    rewrite (bool_decide_ext (x ∈ k :: ks) (x ∈ ks)) by (rewrite elem_of_cons; naive_solver).
    by destruct (bool_decide (x ∈ ks)).
Qed.

Lemma collect_share polys x ks : x ≠ b0 →
  collect ((λ k, (k, share_at polys k)) <$> ks) (share_at polys x) =
  Ok ((λ k, (k, share_at polys k)) <$> (if bool_decide (x ∈ ks) then ks else ks ++ [x])).
Proof.
  intros Hx. rewrite <-put_share_form. generalize ((λ k, (k, share_at polys k)) <$> ks). intros m.
  unfold share_at, collect. by rewrite bool_decide_eq_false_2.
Qed.

(** Collecting shares of the given polynomials keeps one share per number. *)
Lemma collect_shares polys xs ks :
  NoDup ks → (∀ x, x ∈ xs → x ≠ b0) →
  ∃ ks', for_each collect ((λ k, (k, share_at polys k)) <$> ks) (share_at polys <$> xs)
           = Ok ((λ k, (k, share_at polys k)) <$> ks') ∧
         NoDup ks' ∧ ∀ x, x ∈ ks' ↔ x ∈ ks ∨ x ∈ xs.
Proof.
  revert ks. induction xs as [|x xs IH]; intros ks Hnd Hx; rewrite ?fmap_cons; cbn [for_each].
  - exists ks. split; [done|]. split; [done|]. intros y. rewrite elem_of_nil. tauto.
  - rewrite collect_share by (apply Hx; left). simpl.
    destruct (IH (if bool_decide (x ∈ ks) then ks else ks ++ [x])) as (ks' & -> & Hnd' & Hks').
    + case_bool_decide; [done|]. apply NoDup_app. split; [done|]. split; [|apply NoDup_singleton].
      intros y Hy Hyx. apply list_elem_of_singleton in Hyx. by subst.
    + intros y Hy. apply Hx. by right.
    + exists ks'. split; [done|]. split; [done|]. intros y. rewrite Hks', elem_of_cons.
      case_bool_decide; rewrite ?elem_of_app, ?list_elem_of_singleton; naive_solver.
Qed.

(** The byte of the secret at [i], from the shares numbered [ks] in any order. *)
Lemma interpolate_shares iter polys (ks : list ascii) i c :
  (∀ m, iter m ≡ₚ m) → NoDup ks → polys !! i = Some c → length c ≤ length ks →
  interpolate ((λ xs, (xs.1, nth (S i) xs.2 b0)) <$> iter ((λ k, (k, share_at polys k)) <$> ks)) b0 = evalPoly c b0.
Proof.
  intros Hit Hnd Hc Hl. set (m := (λ k, (k, share_at polys k)) <$> ks).
  assert (Hpts : (λ xs, (xs.1, nth (S i) xs.2 b0)) <$> iter m ≡ₚ (λ k, (k, evalPoly c k)) <$> ks).
  { rewrite (Hit m). unfold m. rewrite <-list_fmap_compose. apply reflexive_eq, list_fmap_ext.
    intros _ k _. simpl. f_equal. by rewrite nth_lookup, list_lookup_fmap, Hc. }
  apply interpolate_evalPoly.
  - rewrite Hpts, <-list_fmap_compose. by rewrite list_fmap_id.
  - by rewrite Hpts, length_fmap.
  - intros p Hin. rewrite Hpts in Hin. by apply list_elem_of_fmap in Hin as (k & -> & _).
Qed.

(** Past its guards [Combine] interpolates every byte. *)
Lemma Combine_collected iter polys x xs m :
  polys ≠ [] → m ≠ [] → for_each collect [] (share_at polys <$> x :: xs) = Ok m →
  Combine iter (share_at polys <$> x :: xs) =
  Ok ((λ i, interpolate ((λ xs, (xs.1, nth (S i) xs.2 b0)) <$> iter m) b0) <$> seq 0 (length polys)).
Proof.
  intros Hp Hm Hc. assert (Hlp : ∀ x, length (share_at polys x) = S (length polys)) by (intros; simpl; by rewrite length_fmap).
  unfold Combine. rewrite fmap_cons in *. rewrite Hc, Hlp.
  replace (Nat.ltb (S (length polys)) 2) with false by (by destruct polys).
  replace (forallb _ _) with true.
  2:{ symmetry. rewrite <-fmap_cons. apply forallb_elem. intros s (y & -> & _)%list_elem_of_fmap. by rewrite Hlp, Nat.eqb_refl. }
  simpl. rewrite bool_decide_eq_false_2 by done. simpl. by rewrite Nat.sub_0_r.
Qed.

(** Enough shares of the same polynomials give back their constant terms. *)
Lemma Combine_shares iter t polys xs :
  (∀ m, iter m ≡ₚ m) → polys ≠ [] → Forall (λ c, length c ≤ t) polys →
  xs ≠ [] → (∀ x, x ∈ xs → x ≠ b0) → t ≤ length (remove_dups (share_at polys <$> xs)) →
  Combine iter (share_at polys <$> xs) = Ok ((λ c, evalPoly c b0) <$> polys).
Proof.
  intros Hit Hp Hlen Hxs Hx Ht. destruct (collect_shares polys xs [] ltac:(constructor) Hx) as (ks & Hc & Hnd & Hks).
  assert (Htk : t ≤ length ks).
  { etrans; [exact Ht|]. rewrite <-(length_fmap (share_at polys) ks). apply submseteq_length, NoDup_submseteq.
    - apply NoDup_remove_dups.
    - intros s (x & -> & Hin)%elem_of_remove_dups%list_elem_of_fmap. apply list_elem_of_fmap.
      exists x. split; [done|]. apply Hks. by right. }
  destruct xs as [|x xs]; [done|].
  assert (Hne : (λ k, (k, share_at polys k)) <$> ks ≠ []).
  { intros ->%fmap_nil_inv. apply (not_elem_of_nil x), Hks. right. left. }
  rewrite (Combine_collected iter polys x xs _ Hp Hne Hc).
  f_equal. apply list_eq. intros i. rewrite !list_lookup_fmap. destruct (polys !! i) as [c|] eqn:Ei.
  - rewrite lookup_seq_lt by (by apply lookup_lt_Some in Ei). simpl. f_equal.
    apply interpolate_shares; [done..|]. apply Forall_lookup_1 with (i := i) (x := c) in Hlen; [lia|done].
  - rewrite lookup_seq_ge by (by apply lookup_ge_None in Ei). done.
Qed.

Lemma elem_of_shares polys n s :
  s ∈ (λ x, share_at polys (byte_of x)) <$> seq 1 n → n ≤ 255 → ∃ x, x ≠ b0 ∧ s = share_at polys x.
Proof.
  intros (x & -> & Hx%elem_of_seq)%list_elem_of_fmap Hn. exists (byte_of x). split; [|done].
  apply byte_of_neq_0. lia.
Qed.

Lemma shares_of_numbers polys (sel : list (list ascii)) :
  (∀ s, s ∈ sel → ∃ x, x ≠ b0 ∧ s = share_at polys x) →
  ∃ xs, sel = share_at polys <$> xs ∧ ∀ x, x ∈ xs → x ≠ b0.
Proof.
  induction sel as [|s sel IH]; intros H.
  - exists []. split; [done|]. intros x Hx. by apply not_elem_of_nil in Hx.
  - destruct (H s ltac:(left)) as (x & Hx & ->). destruct IH as (xs & -> & Hxs); [intros; apply H; by right|].
    exists (x :: xs). split; [done|]. intros y [->|Hy]%elem_of_cons; auto.
Qed.

(** The round trip, for its theorem below and for the unsealing ceremony. *)
Lemma Split_Combine_all rand iter secret n t :
  reader rand → (∀ m, iter m ≡ₚ m) → (1 ≤ t ≤ n)%Z → (n ≤ 255)%Z → secret ≠ [] →
  ∃ shares, Split rand secret n t = Ok shares ∧ length shares = Z.to_nat n ∧ NoDup shares ∧
    ∀ sel, (∀ s, s ∈ sel → s ∈ shares) → (t ≤ Z.of_nat (length (remove_dups sel)))%Z →
      Combine iter sel = Ok secret.
Proof.
  intros Hr Hit Ht Hn Hs. destruct (Split_spec rand secret n t Hr Ht Hn Hs) as (polys & -> & Hlp & Hj).
  eexists. split; [done|]. split; [by rewrite length_fmap, length_seq|]. split.
  { apply NoDup_fmap_2_strong; [|apply NoDup_seq]. intros x y Hx%elem_of_seq Hy%elem_of_seq [= H _].
    apply byte_of_inj; [lia..|done]. }
  intros sel Hsel Hlen. destruct (shares_of_numbers polys sel) as (xs & -> & Hxs).
  { intros s Hin. eapply elem_of_shares; [by apply Hsel|lia]. }
  assert (Hlook : ∀ j c, polys !! j = Some c → ∃ b rnd, secret !! j = Some b ∧ c = b :: rnd ∧ length c ≤ Z.to_nat t).
  { intros j c Hc. assert (Hjl : j < length secret) by (rewrite <-Hlp; by eapply lookup_lt_Some).
    apply lookup_lt_is_Some in Hjl as [b Hb]. destruct (Hj j b Hb) as (rnd & _ & Hl & Hpj).
    exists b, rnd. split; [done|]. simplify_eq. split; [done|]. simpl. lia. }
  rewrite (Combine_shares iter (Z.to_nat t)); [|done| | | |done|lia].
  - f_equal. apply list_eq_same_length with (n := length secret); [done|by rewrite length_fmap|].
    intros j x y _ Hx Hy. rewrite list_lookup_fmap in Hx. destruct (polys !! j) as [c|] eqn:Ec; [|done].
    destruct (Hlook j c Ec) as (b & rnd & Hb & -> & _). simpl in Hx. rewrite evalPoly_at_0 in Hx. congruence.
  - intros ->. destruct secret; [done|]. simpl in Hlp. lia.
  - apply Forall_lookup. intros j c Hc. by destruct (Hlook j c Hc) as (? & ? & _ & _ & ?).
  - intros ->. simpl in Hlen. lia.
Qed.

(** C19. Splitting a secret and combining any selection of its shares that has
    at least [t] distinct ones gives the secret back: whatever random bytes
    were drawn, however often a share is repeated, in whatever order the shares
    are listed and the map of shares is iterated over. *)
Theorem Combine_Split rand iter secret n t :
  reader rand → (∀ m, iter m ≡ₚ m) → (1 ≤ t ≤ n)%Z → (n ≤ 255)%Z → secret ≠ [] →
  ∃ shares, Split rand secret n t = Ok shares ∧ length shares = Z.to_nat n ∧ NoDup shares ∧
    ∀ sel, (∀ s, s ∈ sel → s ∈ shares) → (t ≤ Z.of_nat (length (remove_dups sel)))%Z →
      Combine iter sel = Ok secret.
Proof. apply Split_Combine_all. Qed.

Definition const_rand (i k : nat) : res (list ascii) := Ok (replicate k (byte_of (7 * i + 3))).
Lemma const_rand_reader : reader const_rand.
Proof. intros i k. eexists. split; [done|]. apply length_replicate. Qed.

Definition demo_secret : list ascii := byte_of <$> [75; 78; 88].
Definition demo_shares : list (list ascii) :=
  match Split const_rand demo_secret 5 3 with Ok s => s | Err _ => [] end.

Lemma Combine_Split_witness :
  Combine reverse (nth 4 demo_shares [] :: nth 1 demo_shares [] :: nth 4 demo_shares [] :: nth 2 demo_shares [] :: []) = Ok demo_secret.
Proof.
  destruct (Combine_Split const_rand reverse demo_secret 5 3 const_rand_reader) as (shares & Hsh & _ & _ & H);
    [apply reverse_Permutation|lia|lia|done|].
  assert (demo_shares = shares) as <- by (unfold demo_shares; by rewrite Hsh).
  apply H; [|vm_compute; done].
  intros s Hs. assert (Hl : Forall (λ s, s ∈ demo_shares) (nth 4 demo_shares [] :: nth 1 demo_shares [] :: nth 4 demo_shares [] :: nth 2 demo_shares [] :: [])).
  { repeat constructor; apply bool_decide_unpack; by vm_compute. }
  by apply (proj1 (Forall_forall _ _) Hl).
Defined.

(** ** Independence of the order of the map *)

Lemma put_share_keys x s m : NoDup m.*1 → NoDup (put_share x s m).*1 ∧ ∀ y, y ∈ (put_share x s m).*1 → y = x ∨ y ∈ m.*1.
Proof.
  induction m as [|[y u] m IH]; intros Hnd; simpl.
  - split; [apply NoDup_singleton|]. intros y. rewrite list_elem_of_singleton. tauto.
  - apply NoDup_cons in Hnd as [Hy Hnd]. case_bool_decide as Hxy; simpl.
    + subst. split; [by apply NoDup_cons|]. tauto.
    + destruct (IH Hnd) as [Hnd' Hin]. split.
      * apply NoDup_cons. split; [|done]. intros [?|?]%Hin; [by subst|done].
      * intros z. rewrite !elem_of_cons. intros [?|[?|?]%Hin]; tauto.
Qed.

Lemma collect_NoDup shares m : for_each collect [] shares = Ok m → NoDup m.*1.
Proof.
  apply (for_each_inv (λ m : list (ascii * list ascii), NoDup m.*1)); [constructor|].
  intros m0 [|x s] m1 Hnd; simpl; [done|]. case_bool_decide; [done|]. intros [= <-].
  by apply put_share_keys.
Qed.

Lemma interpolate_perm ps qs x : NoDup ps.*1 → ps ≡ₚ qs → interpolate ps x = interpolate qs x.
Proof.
  intros Hnd Hp. assert (Hq : NoDup qs.*1) by (by rewrite <-Hp).
  apply (poly_unique (length ps) (interpolate ps) (interpolate qs) ps.*1);
    [apply interpolate_poly|rewrite Hp; apply interpolate_poly|done|by rewrite length_fmap|].
  intros y ([a b] & -> & Hin)%list_elem_of_fmap. simpl.
  rewrite (interpolate_point ps a b), (interpolate_point qs a b) by (done || by rewrite <-Hp). done.
Qed.

(** The order in which Go iterates over the map of shares never shows in
    the result of [Combine], for any shares at all, well-formed or not. *)
Theorem Combine_deterministic iter iter' shares :
  (∀ m, iter m ≡ₚ m) → (∀ m, iter' m ≡ₚ m) → Combine iter shares = Combine iter' shares.
Proof.
  intros Hi Hi'. destruct shares as [|s0 shares]; [done|]. unfold Combine.
  destruct (reject (Nat.ltb _ _) _), (reject (negb _) _); simpl; try done.
  destruct (for_each collect [] (s0 :: shares)) as [m|e] eqn:Em; simpl in *; rewrite Em; simpl; [|done].
  destruct (reject _ _); simpl; [|done]. f_equal. apply list_fmap_ext. intros _ i _.
  apply interpolate_perm; [|by rewrite Hi, Hi'].
  rewrite <-list_fmap_compose. rewrite (list_fmap_ext _ fst) by done. rewrite Hi. by apply collect_NoDup with (s0 :: shares).
Qed.

Lemma Combine_deterministic_witness :
  Combine reverse demo_shares = Combine (λ m, m) demo_shares.
Proof. apply Combine_deterministic; [apply reverse_Permutation|done]. Defined.

(** ** Secrecy *)

(** A coefficient list with as many distinct non-zero roots is zero. *)
Lemma evalPoly_zero xs cs :
  NoDup xs → b0 ∉ xs → length cs ≤ length xs → (∀ x, x ∈ xs → evalPoly cs x = b0) → Forall (eq b0) cs.
Proof.
  intros Hnd H0. induction cs as [|c cs IH]; intros Hl Hr; [done|].
  assert (Hc : b0 = c) by (rewrite <-(evalPoly_at_0 c cs); symmetry; by apply (evalPoly_roots xs)).
  constructor; [done|]. apply IH; [simpl in Hl; lia|]. intros x Hx.
  destruct (decide (evalPoly cs x = b0)) as [|Hne]; [done|]. assert (Hx0 : x ≠ b0) by congruence.
  destruct (gfMul_neq_0 _ _ Hne Hx0). rewrite <-(Hr x Hx), evalPoly_cons, <-Hc. by rewrite bxor_0_r.
Qed.

Lemma padd_zero cs ds : length cs = length ds → Forall (eq b0) (padd cs ds) → cs = ds.
Proof.
  revert ds. induction cs as [|c cs IH]; intros [|d ds] Hl; try done. cbn [padd].
  intros [Hc Hcs]%Forall_cons. f_equal; [by apply bxor_eq_0|apply IH; [simpl in Hl; lia|done]].
Qed.

Lemma evalPoly_pad cs n x : evalPoly (cs ++ replicate n b0) x = evalPoly cs x.
Proof.
  assert (Hz : evalPoly (replicate n b0) x = b0).
  { induction n as [|n IH]; [done|]. cbn [replicate]. rewrite evalPoly_cons, IH. ring. }
  induction cs as [|c cs IH]; [done|]. cbn [app]. by rewrite !evalPoly_cons, IH.
Qed.

(** Given a byte and the values at distinct non-zero points, exactly one choice
    of the other coefficients explains them. *)
Lemma masks_exist xs (b : ascii) (g : ascii → ascii) :
  NoDup xs → b0 ∉ xs → ∃ rnd, length rnd = length xs ∧ ∀ x, x ∈ xs → evalPoly (b :: rnd) x = g x.
Proof.
  intros Hnd H0. set (points := (b0, b) :: ((λ x, (x, g x)) <$> xs)).
  assert (Hk : NoDup points.*1).
  { unfold points. rewrite fmap_cons, <-list_fmap_compose. simpl.
    rewrite (list_fmap_ext _ id), list_fmap_id by done. by apply NoDup_cons. }
  destruct (interpolate_poly points) as (cs & Hl & Hcs).
  assert (Hlp : length points = S (length xs)) by (unfold points; simpl; by rewrite length_fmap).
  assert (Hpad := evalPoly_pad cs (length points - length cs)).
  assert (Hlen : length (cs ++ replicate (length points - length cs) b0) = S (length xs))
    by (rewrite length_app, length_replicate; lia).
  destruct (cs ++ _) as [|c rnd]; [done|]. exists rnd. split; [simpl in Hlen; lia|].
  assert (c = b) as ->.
  { rewrite <-(evalPoly_at_0 c rnd), Hpad, <-Hcs. apply interpolate_point; [done|left]. }
  intros x Hx. rewrite Hpad, <-Hcs. apply interpolate_point; [done|]. right.
  apply list_elem_of_fmap. eauto.
Qed.

Lemma masks_unique xs (b : ascii) rnd rnd' :
  NoDup xs → b0 ∉ xs → length rnd = length xs → length rnd' = length xs →
  (∀ x, x ∈ xs → evalPoly (b :: rnd) x = evalPoly (b :: rnd') x) → rnd = rnd'.
Proof.
  intros Hnd H0 Hl Hl' Heq. apply padd_zero; [lia|].
  apply (evalPoly_zero xs); [done..|rewrite padd_length; lia|]. intros x Hx. rewrite padd_eval.
  specialize (Heq x Hx). rewrite !evalPoly_cons in Heq. assert (Hx0 : x ≠ b0) by congruence.
  destruct (decide (evalPoly rnd x ⊕ evalPoly rnd' x = b0)) as [|Hne]; [done|].
  destruct (gfMul_neq_0 _ _ Hne Hx0).
  replace ((evalPoly rnd x ⊕ evalPoly rnd' x) ⊗ x) with ((evalPoly rnd x ⊗ x ⊕ b) ⊖ (evalPoly rnd' x ⊗ x ⊕ b))
    by (change (evalPoly rnd x ⊕ evalPoly rnd' x) with (evalPoly rnd x ⊖ evalPoly rnd' x); ring).
  rewrite Heq. apply bxor_self.
Qed.

Lemma choose_list {A} n (P : nat → A → Prop) :
  (∀ i, i < n → ∃ a, P i a) → ∃ l, length l = n ∧ ∀ i a, l !! i = Some a → P i a.
Proof.
  induction n as [|n IH]; intros H; [exists []; split; [done|]; intros i a Hi; by rewrite lookup_nil in Hi|].
  destruct IH as (l & Hl & Hp); [intros; apply H; lia|]. destruct (H n) as [a Ha]; [lia|].
  exists (l ++ [a]). split; [rewrite length_app; simpl; lia|].
  intros i b [Hi|[Hge Hi]]%lookup_app_Some; [by apply Hp|]. apply list_lookup_singleton_Some in Hi as [Hi ->].
  by replace i with n by lia.
Qed.

(** The reader that answers the [i]-th request for [k] bytes from a list. *)
Definition scripted (k : nat) (rnds : list (list ascii)) (i len : nat) : res (list ascii) :=
  match rnds !! i with
  | Some l => if Nat.eqb len k then Ok l else Ok (replicate len b0)
  | None => Ok (replicate len b0)
  end.

Lemma scripted_reader k rnds : (∀ i l, rnds !! i = Some l → length l = k) → reader (scripted k rnds).
Proof.
  intros H i len. unfold scripted. destruct (rnds !! i) as [l|] eqn:E;
    [destruct (Nat.eqb_spec len k) as [->|]|]; eexists; (split; [done|]);
    (by eapply H) || apply length_replicate.
Qed.

(** The shares at the given positions determine the values of the polynomials
    there, and are determined by them. *)
Lemma same_shares polys polys' n k :
  k < n → length polys = length polys' →
  ((λ x, share_at polys (byte_of x)) <$> seq 1 n) !! k = ((λ x, share_at polys' (byte_of x)) <$> seq 1 n) !! k ↔
  ∀ j c c', polys !! j = Some c → polys' !! j = Some c' → evalPoly c (byte_of (S k)) = evalPoly c' (byte_of (S k)).
Proof.
  intros Hk Hl. rewrite !list_lookup_fmap, lookup_seq_lt by done. simpl. split.
  - intros [= H] j c c' Hc Hc'. apply (f_equal (λ l : list ascii, l !! j)) in H.
    rewrite !list_lookup_fmap, Hc, Hc' in H. by injection H.
  - intros H. unfold share_at. do 2 f_equal. apply list_eq_same_length with (n := length polys'); [by rewrite length_fmap|by rewrite length_fmap|].
    intros j x y _ Hx Hy. rewrite list_lookup_fmap in Hx, Hy.
    destruct (polys !! j) eqn:E, (polys' !! j) eqn:E'; simplify_eq/=. by eapply H.
Qed.

(** The points of distinct share positions are distinct and non-zero. *)
Lemma positions_points X n :
  NoDup X → Forall (λ k, k < n) X → n ≤ 255 →
  NoDup ((λ k, byte_of (S k)) <$> X) ∧ b0 ∉ (λ k, byte_of (S k)) <$> X.
Proof.
  intros Hnd HX Hn. rewrite Forall_forall in HX. split.
  - apply NoDup_fmap_2_strong; [|done]. intros x y Hx%HX Hy%HX H%byte_of_inj; lia.
  - intros (k & Hk & Hin%HX)%list_elem_of_fmap. symmetry in Hk. by apply byte_of_neq_0 in Hk; [|lia].
Qed.

(** Random bytes for another secret that agree with given polynomials at the
    points [xs]. *)
Lemma masks_for (polys : list (list ascii)) secret' xs :
  NoDup xs → b0 ∉ xs →
  ∃ rnds : list (list ascii), length rnds = length secret' ∧ ∀ i rnd, rnds !! i = Some rnd →
    length rnd = length xs ∧
    ∀ b c, secret' !! i = Some b → polys !! i = Some c → ∀ x, x ∈ xs → evalPoly (b :: rnd) x = evalPoly c x.
Proof.
  intros Hnd H0. apply choose_list. intros i [b Hb]%lookup_lt_is_Some.
  destruct (masks_exist xs b (evalPoly (polys !!! i)) Hnd H0) as (rnd & Hl & Hv).
  exists rnd. split; [done|]. intros b' c Hb' Hc. simplify_eq. by rewrite (list_lookup_total_correct _ _ _ Hc) in Hv.
Qed.

(** C20. Fewer shares than the threshold say nothing about the secret: for any
    [t - 1] shares of a split and any other secret of the same length there is
    a run of the random reader under which [Split] of that secret hands out the
    very same [t - 1] shares, and the bytes it reads are the only ones that do.
    With uniform random bytes every secret is thus equally likely given the
    shares. *)
Theorem Split_perfectly_secret rand secret secret' n t X :
  reader rand → (1 ≤ t ≤ n)%Z → (n ≤ 255)%Z → secret ≠ [] → length secret' = length secret →
  NoDup X → Forall (λ k, k < Z.to_nat n) X → length X = Z.to_nat t - 1 →
  ∃ shares rand' shares', reader rand' ∧
    Split rand secret n t = Ok shares ∧ Split rand' secret' n t = Ok shares' ∧
    (∀ k, k ∈ X → shares' !! k = shares !! k) ∧
    ∀ rand'' shares'', reader rand'' → Split rand'' secret' n t = Ok shares'' →
      (∀ k, k ∈ X → shares'' !! k = shares !! k) →
      ∀ i, i < length secret' → rand'' i (Z.to_nat t - 1) = rand' i (Z.to_nat t - 1).
Proof.
  intros Hr Ht Hn Hs Hs' HX HXn HXl.
  destruct (positions_points X (Z.to_nat n) HX HXn ltac:(lia)) as [Hnd H0].
  assert (Hxl := length_fmap (λ k, byte_of (S k)) X). rewrite HXl in Hxl.
  set (xs := (λ k, byte_of (S k)) <$> X) in *. rewrite Forall_forall in HXn.
  assert (Hxs : ∀ k, k ∈ X → byte_of (S k) ∈ xs) by (intros k Hk; unfold xs; apply list_elem_of_fmap; eauto).
  assert (Hne : secret' ≠ []) by (intros ->; by destruct secret).
  destruct (Split_spec rand secret n t Hr Ht Hn Hs) as (polys & Hsp & Hlp & Hj).
  destruct (masks_for polys secret' xs Hnd H0) as (rnds & Hrl & Hrnds).
  assert (Hr' : reader (scripted (Z.to_nat t - 1) rnds)) by (apply scripted_reader; intros; rewrite <-Hxl; by eapply Hrnds).
  destruct (Split_spec _ secret' n t Hr' Ht Hn Hne) as (polys' & Hsp' & Hlp' & Hj').
  assert (Hsc : ∀ i rnd, rnds !! i = Some rnd → scripted (Z.to_nat t - 1) rnds i (Z.to_nat t - 1) = Ok rnd).
  { intros i rnd H. unfold scripted. by rewrite H, Nat.eqb_refl. }
  eexists _, _, _. split; [exact Hr'|]. split; [done|]. split; [done|]. split.
  - intros k Hk. apply same_shares; [by apply HXn|lia|]. intros j c c' Hc Hc'.
    destruct (lookup_lt_is_Some_2 secret' j) as [b Hb]; [rewrite <-Hlp'; by eapply lookup_lt_Some|].
    destruct (lookup_lt_is_Some_2 rnds j) as [rnd Hrnd]; [rewrite Hrl; by eapply lookup_lt_Some|].
    destruct (Hj' j b Hb) as (rnd' & Hrnd' & _ & Hpj). rewrite (Hsc j rnd Hrnd) in Hrnd'. simplify_eq.
    eapply Hrnds; eauto.
  - intros rand'' shares'' Hr'' Hsp'' Hsame i Hi.
    destruct (Split_spec _ secret' n t Hr'' Ht Hn Hne) as (polys'' & Hsp3 & Hlp'' & Hj'').
    rewrite Hsp3 in Hsp''. injection Hsp'' as <-.
    destruct (lookup_lt_is_Some_2 secret' i Hi) as [b Hb].
    destruct (lookup_lt_is_Some_2 rnds i) as [rnd Hrnd]; [lia|]. rewrite (Hsc i rnd Hrnd).
    destruct (lookup_lt_is_Some_2 polys i) as [c Hc]; [lia|].
    destruct (Hj'' i b Hb) as (rnd'' & -> & Hl'' & Hpi). f_equal. destruct (Hrnds i rnd Hrnd) as [Hl Hv].
    apply (masks_unique xs b); [done..|lia|lia|]. intros x Hx. rewrite (Hv b c) by done.
    apply list_elem_of_fmap in Hx as (k & -> & Hk).
    by apply (proj1 (same_shares polys'' polys (Z.to_nat n) k (HXn k Hk) ltac:(lia)) (Hsame k Hk) i).
Qed.

Lemma Split_perfectly_secret_witness :
  ∃ rand' shares', reader rand' ∧ Split rand' (byte_of <$> [1; 2; 3]) 5 3 = Ok shares' ∧
    ∀ k, k ∈ [0; 3] → shares' !! k = demo_shares !! k.
Proof.
  destruct (Split_perfectly_secret const_rand demo_secret (byte_of <$> [1; 2; 3]) 5 3 [0; 3] const_rand_reader)
    as (shares & rand' & shares' & Hr & Hs & Hs' & H & _).
  - lia.
  - lia.
  - done.
  - done.
  - apply (bool_decide_unpack (NoDup [0; 3])). by vm_compute.
  - repeat (apply Forall_cons; split); [vm_compute; lia..|constructor].
  - done.
  - exists rand', shares'. split; [done|]. split; [done|].
    assert (demo_shares = shares) as -> by (unfold demo_shares; by rewrite Hs). done.
Defined.
