(* ===== verification/Domain.v ===== *)
(** The entities of internal/domain and internal/repository with their
    validation and normalisation: secret versions, leases, tokens, audit
    entries, certificate authorities, PKI roles, issued certificates, RBAC
    roles, machine identities and rotation policies.

    A [Validate] method that fills in defaults on its receiver returns the
    updated value. *)

From Stdlib Require Import Ascii.
From S2P Require Import Prelude.
From S2P Require Import GoLib.

(** ** internal/domain/secrets/version.go *)

Record SecretVersion := mkSecretVersion {
  sv_ID : UUID;
  sv_Path : string;
  sv_Version : Z;
  sv_DataEnc : bytes;
  sv_DEKEnc : bytes;
  sv_LeaseID : option string;
  sv_TTLSeconds : option Z;
  sv_CreatedAt : Time;
  sv_ExpiresAt : option Time;
  sv_Destroyed : bool;
  sv_Labels : gmap string string;
}.

Definition SecretVersion_Validate (s : SecretVersion) : res unit :=
  _ ← reject (is_nil_uuid (sv_ID s)) (Plain "secret id is required");
  _ ← reject (sv_Path s =s "") (Plain "secret path is required");
  _ ← reject (sv_Version s <? 1)%Z (Plain "secret version must be >= 1");
  reject (bool_decide (sv_DataEnc s = []) || bool_decide (sv_DEKEnc s = []))
    (Plain "encrypted payload and dek are required").

(** Field updates the repositories make. *)
Definition sv_with_version (s : SecretVersion) (v : Z) : SecretVersion :=
  mkSecretVersion (sv_ID s) (sv_Path s) v (sv_DataEnc s) (sv_DEKEnc s) (sv_LeaseID s)
    (sv_TTLSeconds s) (sv_CreatedAt s) (sv_ExpiresAt s) (sv_Destroyed s) (sv_Labels s).
Definition sv_with_dek (s : SecretVersion) (dek : bytes) : SecretVersion :=
  mkSecretVersion (sv_ID s) (sv_Path s) (sv_Version s) (sv_DataEnc s) dek (sv_LeaseID s)
    (sv_TTLSeconds s) (sv_CreatedAt s) (sv_ExpiresAt s) (sv_Destroyed s) (sv_Labels s).
Definition sv_destroy (s : SecretVersion) : SecretVersion :=
  mkSecretVersion (sv_ID s) (sv_Path s) (sv_Version s) (sv_DataEnc s) (sv_DEKEnc s) (sv_LeaseID s)
    (sv_TTLSeconds s) (sv_CreatedAt s) (sv_ExpiresAt s) true (sv_Labels s).

(** ** internal/domain/secrets/lease.go *)

Record Lease := mkLease {
  lease_ID : string;
  lease_Path : string;
  lease_RoleName : string;
  lease_Engine : string;
  lease_TTLSeconds : Z;
  lease_CreatedAt : Time;
  lease_ExpiresAt : Time;
  lease_RevokedAt : option Time;
  lease_Renewable : bool;
  lease_TokenID : string;
  lease_Metadata : gmap string string;
}.

Definition Lease_Validate (l : Lease) : res unit :=
  _ ← reject (lease_ID l =s "") (Plain "lease id is required");
  _ ← reject (lease_Path l =s "") (Plain "lease path is required");
  _ ← reject (lease_RoleName l =s "") (Plain "lease role is required");
  _ ← reject (lease_Engine l =s "") (Plain "lease engine is required");
  _ ← reject (lease_TTLSeconds l <=? 0)%Z (Plain "lease ttl must be positive");
  reject (IsZero (lease_ExpiresAt l)) (Plain "lease expires_at is required").

Definition Lease_Active (l : Lease) (now : Time) : bool :=
  match lease_RevokedAt l with
  | Some _ => false
  | None => Before now (lease_ExpiresAt l)
  end.

Definition lease_revoke (l : Lease) (at_ : Time) : Lease :=
  mkLease (lease_ID l) (lease_Path l) (lease_RoleName l) (lease_Engine l) (lease_TTLSeconds l)
    (lease_CreatedAt l) (lease_ExpiresAt l) (Some at_) (lease_Renewable l) (lease_TokenID l) (lease_Metadata l).

(** ** internal/domain/auth/token.go *)

Record ClientToken := mkClientToken {
  ct_ID : string;
  ct_Subject : string;
  ct_Policies : list string;
  ct_ExpiresAt : Time;
  ct_Renewable : bool;
  ct_Revoked : bool;
  ct_ParentIdentityID : string;
  ct_AgentID : string;
  ct_AllowedActions : list string;
  ct_PathPrefix : string;
  ct_MaxExpiresAt : Time;
}.

Definition ClientToken_Active (t : ClientToken) (now : Time) : bool :=
  negb (ct_Revoked t) && Before now (ct_ExpiresAt t).

Definition ct_revoke (t : ClientToken) (at_ : Time) : ClientToken :=
  mkClientToken (ct_ID t) (ct_Subject t) (ct_Policies t) at_ (ct_Renewable t) true
    (ct_ParentIdentityID t) (ct_AgentID t) (ct_AllowedActions t) (ct_PathPrefix t) (ct_MaxExpiresAt t).

(** ** internal/domain/audit/entry.go *)

Record Entry := mkEntry {
  en_ID : Z;
  en_Timestamp : Time;
  en_Actor : string;
  en_Action : string;
  en_Resource : string;
  en_Status : string;
  en_Details : list (string * any);
  en_Hash : string;
  en_Signature : string;
  en_AuthMethod : string;
  en_SourceIP : string;
  en_ClientIdentity : string;
  en_FailureReason : string;
  en_RequestID : string;
  en_Namespace : string;
}.

Definition Entry_Validate (e : Entry) : res unit :=
  _ ← reject (en_Action e =s "") (Plain "audit action is required");
  reject (en_Status e =s "") (Plain "audit status is required").

Definition en_with_id (e : Entry) (id : Z) : Entry :=
  mkEntry id (en_Timestamp e) (en_Actor e) (en_Action e) (en_Resource e) (en_Status e) (en_Details e)
    (en_Hash e) (en_Signature e) (en_AuthMethod e) (en_SourceIP e) (en_ClientIdentity e)
    (en_FailureReason e) (en_RequestID e) (en_Namespace e).
Definition en_with_stamp (e : Entry) (ts : Time) (hash : string) : Entry :=
  mkEntry (en_ID e) ts (en_Actor e) (en_Action e) (en_Resource e) (en_Status e) (en_Details e)
    hash (en_Signature e) (en_AuthMethod e) (en_SourceIP e) (en_ClientIdentity e)
    (en_FailureReason e) (en_RequestID e) (en_Namespace e).

(** ** internal/domain/pki/ca.go *)

Definition CATypeRoot : string := "root".
Definition CATypeIntermediate : string := "intermediate".

Record DistinguishedName := mkDN {
  dn_CommonName : string;
  dn_Organization : string;
  dn_OrganizationalUnit : string;
  dn_Country : string;
}.

Record CA := mkCA {
  ca_ID : UUID;
  ca_ParentID : option UUID;
  ca_Name : string;
  ca_Type : string;
  ca_Subject : DistinguishedName;
  ca_Serial : string;
  ca_CertPEM : string;
  ca_PrivateKeyEnc : bytes;
  ca_DEKEnc : bytes;
  ca_Status : string;
  ca_CreatedAt : Time;
  ca_ExpiresAt : Time;
  ca_CRLNextUpdate : option Time;
}.

Definition CA_Validate (c : CA) : res unit :=
  _ ← reject (is_nil_uuid (ca_ID c)) (Plain "ca id is required");
  _ ← reject (ca_Name c =s "") (Plain "ca name is required");
  _ ← reject (negb (ca_Type c =s CATypeRoot) && negb (ca_Type c =s CATypeIntermediate))
        (Plain ("invalid ca type " +:+ quoted (ca_Type c)));
  _ ← reject ((ca_Type c =s CATypeRoot) && bool_decide (is_Some (ca_ParentID c)))
        (Plain "root ca must not have parent_id");
  _ ← reject ((ca_Type c =s CATypeIntermediate) &&
              (bool_decide (ca_ParentID c = None) || bool_decide (ca_ParentID c = Some uuid_Nil)))
        (Plain "intermediate ca requires parent_id");
  _ ← reject (ca_CertPEM c =s "") (Plain "cert_pem is required");
  reject (bool_decide (ca_PrivateKeyEnc c = []) || bool_decide (ca_DEKEnc c = []))
    (Plain "encrypted key material is required").

(** ** internal/domain/pki/role.go *)

Definition RoleUsageServer : string := "server".
Definition RoleUsageClient : string := "client".
Definition RoleUsageCodeSigning : string := "code_signing".

Record PKIRole := mkPKIRole {
  pr_Name : string;
  pr_CAName : string;
  pr_AllowedDomains : list string;
  pr_MaxTTLSeconds : Z;
  pr_KeyUsage : string;
  pr_AllowSubdomains : bool;
}.

Definition pr_with_usage (r : PKIRole) (u : string) : PKIRole :=
  mkPKIRole (pr_Name r) (pr_CAName r) (pr_AllowedDomains r) (pr_MaxTTLSeconds r) u (pr_AllowSubdomains r).

Definition normalizeAllowedDomains (inp : list string) : list string :=
  filter (λ d, d ≠ "") (TrimSpace <$> inp).

Definition PKIRole_Validate (r : PKIRole) : res PKIRole :=
  _ ← reject (pr_Name r =s "") (Plain "pki role name is required");
  _ ← reject (pr_CAName r =s "") (Plain "pki role ca_name is required");
  _ ← reject (negb (existsb (λ u, pr_KeyUsage r =s u)
                      [""; RoleUsageServer; RoleUsageClient; RoleUsageCodeSigning]))
        (Plain ("invalid pki role key_usage " +:+ quoted (pr_KeyUsage r)));
  let r := if pr_KeyUsage r =s "" then pr_with_usage r RoleUsageServer else r in
  _ ← reject (bool_decide (normalizeAllowedDomains (pr_AllowedDomains r) = []))
        (Plain "pki role allowed_domains is required");
  Ok r.

Definition AllowsAnyDomain (r : PKIRole) : bool :=
  existsb (λ allowed, TrimSpace allowed =s "*") (pr_AllowedDomains r).

Definition AllowedDomain (r : PKIRole) (name0 : string) : bool :=
  let name := ToLower (TrimSpace name0) in
  if name =s "" then false
  else if AllowsAnyDomain r then true
  else existsb (λ allowed0,
         let allowed := ToLower (TrimSpace allowed0) in
         if (allowed =s "") || (allowed =s "*") then false
         else (allowed =s name) || (pr_AllowSubdomains r && HasSuffix name ("." +:+ allowed)))
         (pr_AllowedDomains r).

(** ** internal/domain/pki/issued_cert.go *)

Record IssuedCertificate := mkIssued {
  ic_ID : UUID;
  ic_CAID : UUID;
  ic_Role : string;
  ic_Serial : string;
  ic_CommonName : string;
  ic_DNSNames : list string;
  ic_TTLSeconds : Z;
  ic_IssuedAt : Time;
  ic_ExpiresAt : Time;
  ic_AutoRenew : bool;
  ic_RenewedFromSerial : option string;
}.

Definition IssuedCertificate_Validate (c : IssuedCertificate) : res unit :=
  _ ← reject (is_nil_uuid (ic_ID c)) (Plain "issued certificate id is required");
  _ ← reject (is_nil_uuid (ic_CAID c)) (Plain "ca id is required");
  _ ← reject ((ic_Role c =s "") || (ic_Serial c =s "") || (ic_CommonName c =s ""))
        (Plain "role, serial, and common_name are required");
  _ ← reject (ic_TTLSeconds c <=? 0)%Z (Plain "ttl must be positive");
  reject (IsZero (ic_ExpiresAt c)) (Plain "expires_at is required").

Definition NeedsRenewal (c : IssuedCertificate) (now : Time) (grace : Duration) : bool :=
  if negb (ic_AutoRenew c) then false else negb (Before now (ic_ExpiresAt c - grace)%Z).

(** ** internal/repository/interfaces.go *)

Record RevokedCertificate := mkRevoked {
  rv_Serial : string;
  rv_CAID : UUID;
  rv_RevokedAt : Time;
  rv_Reason : string;
}.

(** ** internal/domain/auth/policy.go, roles *)

Record OIDCConfig := mkOIDC {
  oidc_Issuer : string;
  oidc_Audience : string;
  oidc_JWKSURL : string;
  oidc_MaxTTL : Z;
}.

Record Role := mkRole {
  role_Name : string;
  role_Policies : list string;
  role_PolicyGroups : list string;
  role_BoundServiceAccountNames : list string;
  role_BoundServiceAccountNamespaces : list string;
  role_AuthMethod : string;
  role_OIDC : option OIDCConfig;
  role_RequireMFA : bool;
}.

Definition Role_Validate (r : Role) : res unit :=
  _ ← reject (role_Name r =s "") (Plain "role name is required");
  reject (bool_decide (role_Policies r = [])) (Plain "role requires at least one policy").

(** ** internal/domain/auth/machine_identity.go *)

Definition IdentityTypeK8sSA : string := "k8s_sa".
Definition IdentityTypeOIDC : string := "oidc".
Definition IdentityTypeAPIKey : string := "api_key".
Definition IdentityTypeAgent : string := "agent".

Record MachineIdentity := mkMachineIdentity {
  mi_ID : string;
  mi_Type : string;
  mi_BoundNamespace : string;
  mi_BoundName : string;
  mi_Policies : list string;
  mi_MaxTTL : Z;
  mi_LastSeen : Time;
  mi_Revoked : bool;
  mi_ParentIdentityID : string;
}.

Definition MachineIdentity_Validate (m : MachineIdentity) : res unit :=
  _ ← reject (mi_ID m =s "") (Plain "machine identity id is required");
  _ ← reject (mi_Type m =s "") (Plain "machine identity type is required");
  reject (negb (existsb (λ t, mi_Type m =s t)
                  [IdentityTypeK8sSA; IdentityTypeOIDC; IdentityTypeAPIKey; IdentityTypeAgent]))
    (Plain ("invalid machine identity type " +:+ quoted (mi_Type m))).

Definition NHIKey (typ namespace name subject : string) : string :=
  if typ =s IdentityTypeK8sSA then "k8s_sa:" +:+ namespace +:+ ":" +:+ name
  else if typ =s IdentityTypeOIDC then "oidc:" +:+ subject
  else typ +:+ ":" +:+ subject.

Definition mi_revoke (m : MachineIdentity) : MachineIdentity :=
  mkMachineIdentity (mi_ID m) (mi_Type m) (mi_BoundNamespace m) (mi_BoundName m) (mi_Policies m)
    (mi_MaxTTL m) (mi_LastSeen m) true (mi_ParentIdentityID m).

(** ** internal/domain/secrets/rotation_policy.go *)

Definition GeneratorRandomPassword : string := "random_password".
Definition GeneratorScriptRef : string := "script_ref".

Record RotationPolicy := mkRotationPolicy {
  rp_Path : string;
  rp_Interval : Z;
  rp_Generator : string;
  rp_ScriptRef : string;
  rp_LastRotatedAt : Time;
  rp_Enabled : bool;
}.

Definition RotationPolicy_Validate (p : RotationPolicy) : res unit :=
  _ ← reject (rp_Path p =s "") (Plain "rotation path is required");
  _ ← reject (rp_Interval p <=? 0)%Z (Plain "rotation interval must be positive");
  _ ← reject (negb (rp_Generator p =s GeneratorRandomPassword) && negb (rp_Generator p =s GeneratorScriptRef))
        (Plain ("invalid rotation generator " +:+ quoted (rp_Generator p)));
  reject ((rp_Generator p =s GeneratorScriptRef) && (rp_ScriptRef p =s ""))
    (Plain "script_ref required for script_ref generator").

(** [time.Duration] arithmetic wraps at 64 bits; [Time.Sub] saturates. *)
Definition wrap64 (z : Z) : Z := ((z + 2 ^ 63) mod 2 ^ 64 - 2 ^ 63)%Z.
Lemma wrap64_id z : (- 2 ^ 63 ≤ z < 2 ^ 63)%Z → wrap64 z = z.
Proof. intros. unfold wrap64. rewrite Z.mod_small by lia. lia. Qed.
Definition Sub (t u : Time) : Duration := (Z.max (- 2 ^ 63) (Z.min (2 ^ 63 - 1) (t - u)))%Z.

Definition Due (p : RotationPolicy) (now : Time) : bool :=
  if negb (rp_Enabled p) then false
  else if IsZero (rp_LastRotatedAt p) then true
  else (wrap64 (rp_Interval p * Second) <=? Sub now (rp_LastRotatedAt p))%Z.
