(* ===== verification/Lockout.v ===== *)
(** Lockout of identities after failed logins, internal/auth/lockout.go.

    Receivers are not nil; on a nil tracker every method of the source returns
    at once. The clock is an argument: [RecordFailure] reads it twice, once to
    purge and once to lock. The order in which Go iterates over the map of
    attempts when it evicts is a parameter. *)

From S2P Require Import Prelude.
From S2P Require Import GoLib.
From S2P Require Import Domain.
#[local] Open Scope Z_scope.

Record LockoutTracker := mkLockoutTracker {
  lo_attempts : gmap string Z;
  lo_locked : gmap string Time;
  lo_threshold : Z;
  lo_ttl : Duration;
  lo_maxEntries : Z
}.

Definition NewLockoutTracker (threshold : Z) (ttl : Duration) : LockoutTracker :=
  let threshold := if threshold <=? 0 then 5 else threshold in
  let ttl := if ttl <=? 0 then 15 * Minute else ttl in
  mkLockoutTracker ∅ ∅ threshold ttl 50000.

Definition LockoutKey (authMethod subjectOrIP : string) : string := authMethod +:+ ":" +:+ subjectOrIP.

Definition with_maps (t : LockoutTracker) (attempts : gmap string Z) (locked : gmap string Time) : LockoutTracker :=
  mkLockoutTracker attempts locked (lo_threshold t) (lo_ttl t) (lo_maxEntries t).

(** [delete(t.locked, key); delete(t.attempts, key)] *)
Definition forget (t : LockoutTracker) (key : string) : LockoutTracker :=
  with_maps t (delete key (lo_attempts t)) (delete key (lo_locked t)).

Definition IsLocked (t : LockoutTracker) (now : Time) (key : string) : LockoutTracker * bool :=
  match lo_locked t !! key with
  | None => (t, false)
  | Some until => if After now until then (forget t key, false) else (t, true)
  end.

(** Each key is checked at a later reading of the clock. *)
Fixpoint IsLockedAny (t : LockoutTracker) (nows : nat → Time) (keys : list string) : LockoutTracker * bool :=
  match keys with
  | [] => (t, false)
  | k :: keys =>
    match IsLocked t (nows O) k with
    | (t, true) => (t, true)
    | (t, false) => IsLockedAny t (λ i, nows (S i)) keys
    end
  end.

Definition purge_step (now : Time) (t : LockoutTracker) (ku : string * Time) : LockoutTracker :=
  if After now ku.2 then forget t ku.1 else t.
Definition purgeExpiredLocked (t : LockoutTracker) (now : Time) : LockoutTracker :=
  foldl (purge_step now) t (map_to_list (lo_locked t)).

(** The end of [RecordFailure]: count the failure and lock at the threshold. *)
Definition count_failure (t : LockoutTracker) (now : Time) (key : string) : LockoutTracker * bool :=
  let n := wrap64 (default 0 (lo_attempts t !! key) + 1) in
  let t := with_maps t (<[key := n]> (lo_attempts t)) (lo_locked t) in
  if lo_threshold t <=? n
  then (with_maps t (lo_attempts t) (<[key := now + lo_ttl t]> (lo_locked t)), true)
  else (t, false).

Section evict.
Context (range_keys : gmap string Z → list string).

Fixpoint evict_loop (t : LockoutTracker) (keys : list string) : LockoutTracker :=
  match keys with
  | [] => t
  | k :: keys =>
    match lo_locked t !! k with
    | Some _ => evict_loop t keys
    | None =>
      let t := with_maps t (delete k (lo_attempts t)) (lo_locked t) in
      if Z.of_nat (size (lo_attempts t)) <? Z.quot (lo_maxEntries t) 2 then t else evict_loop t keys
    end
  end.
Definition evictAttemptsLocked (t : LockoutTracker) : LockoutTracker := evict_loop t (range_keys (lo_attempts t)).

Definition RecordFailure (t : LockoutTracker) (now1 now2 : Time) (key : string) : LockoutTracker * bool :=
  let t := purgeExpiredLocked t now1 in
  let full := match lo_attempts t !! key with
              | Some _ => false
              | None => (0 <? lo_maxEntries t) && (lo_maxEntries t <=? Z.of_nat (size (lo_attempts t)))
              end in
  count_failure (if full then evictAttemptsLocked t else t) now2 key.

Definition RecordSuccess (t : LockoutTracker) (key : string) : LockoutTracker := forget t key.
Definition Clear (t : LockoutTracker) (key : string) : LockoutTracker := forget t key.

(** ** Runs of the tracker *)

Inductive event :=
  | EvIsLocked (now : Time) (key : string)
  | EvFailure (now1 now2 : Time) (key : string)
  | EvSuccess (key : string)
  | EvClear (key : string).

Definition step (t : LockoutTracker) (e : event) : LockoutTracker :=
  match e with
  | EvIsLocked now key => (IsLocked t now key).1
  | EvFailure now1 now2 key => (RecordFailure t now1 now2 key).1
  | EvSuccess key => RecordSuccess t key
  | EvClear key => Clear t key
  end.
Definition run (t : LockoutTracker) (es : list event) : LockoutTracker := foldl step t es.
End evict.

Definition ev_key (e : event) : string :=
  match e with EvIsLocked _ k | EvFailure _ _ k | EvSuccess k | EvClear k => k end.

(** The clock does not run backwards during the events, from [now] on. *)
Fixpoint clocked (now : Time) (es : list event) : Prop :=
  match es with
  | [] => True
  | EvIsLocked n _ :: es => now ≤ n ∧ clocked n es
  | EvFailure n1 n2 _ :: es => now ≤ n1 ∧ n1 ≤ n2 ∧ clocked n2 es
  | _ :: es => clocked now es
  end.
Fixpoint clock_after (now : Time) (es : list event) : Time :=
  match es with
  | [] => now
  | EvIsLocked n _ :: es | EvFailure _ n _ :: es => clock_after n es
  | _ :: es => clock_after now es
  end.

(** The keys that fail in a run. *)
Fixpoint failing (es : list event) : gset string :=
  match es with
  | [] => ∅
  | EvFailure _ _ k :: es => {[ k ]} ∪ failing es
  | _ :: es => failing es
  end.

(** ** What one identity sees: the specification *)

Inductive slot := Free | Counting (n : Z) | Locked (n : Z) (until : Time).

(** A lock that has run out is forgotten. *)
Definition expire (now : Time) (s : slot) : slot :=
  match s with Locked n until => if until <? now then Free else s | _ => s end.
Definition is_locked (s : slot) : bool := match s with Locked _ _ => true | _ => false end.

Definition slot_failure (threshold : Z) (ttl : Duration) (now : Time) (s : slot) : slot :=
  let bump n := wrap64 (n + 1) in
  match s with
  | Free => if threshold <=? bump 0 then Locked (bump 0) (now + ttl) else Counting (bump 0)
  | Counting n => if threshold <=? bump n then Locked (bump n) (now + ttl) else Counting (bump n)
  | Locked n until => Locked (bump n) (if threshold <=? bump n then now + ttl else until)
  end.

Definition slot_step (threshold : Z) (ttl : Duration) (s : slot) (e : event) : slot :=
  match e with
  | EvIsLocked now _ => expire now s
  | EvFailure now1 now2 _ => slot_failure threshold ttl now2 (expire now1 s)
  | EvSuccess _ | EvClear _ => Free
  end.

(** The slot of a key in the tracker's maps. *)
Definition slot_of (t : LockoutTracker) (key : string) : slot :=
  match lo_locked t !! key with
  | Some until => Locked (default 0 (lo_attempts t !! key)) until
  | None => match lo_attempts t !! key with Some n => Counting n | None => Free end
  end.

(** ** The maps after each operation *)

Lemma forget_attempts t k k' : lo_attempts (forget t k) !! k' = if bool_decide (k = k') then None else lo_attempts t !! k'.
Proof. simpl. case_bool_decide; subst; by simplify_map_eq. Qed.
Lemma forget_locked t k k' : lo_locked (forget t k) !! k' = if bool_decide (k = k') then None else lo_locked t !! k'.
Proof. simpl. case_bool_decide; subst; by simplify_map_eq. Qed.

Definition expires (now : Time) (l : list (string * Time)) (k : string) : bool :=
  existsb (λ ku, bool_decide (ku.1 = k) && After now ku.2) l.

Lemma purge_loop now l t k :
  lo_locked (foldl (purge_step now) t l) !! k = (if expires now l k then None else lo_locked t !! k) ∧
  lo_attempts (foldl (purge_step now) t l) !! k = (if expires now l k then None else lo_attempts t !! k).
Proof.
  revert t. induction l as [|[k' u] l IH]; intros t; [done|].
  destruct (IH (purge_step now t (k', u))) as [H1 H2]. cbn [foldl]. rewrite H1, H2. simpl.
  unfold purge_step. simpl. destruct (After now u); [rewrite forget_locked, forget_attempts|];
    case_bool_decide; subst; simpl; by destruct (expires now l k).
Qed.

Lemma expires_map now (m : gmap string Time) k :
  expires now (map_to_list m) k = match m !! k with Some u => After now u | None => false end.
Proof.
  apply eq_true_iff_eq. unfold expires. rewrite existsb_elem. split.
  - intros ([k' u] & Hin%elem_of_map_to_list & H). simpl in H. apply andb_true_iff in H as [->%bool_decide_eq_true H].
    by rewrite Hin.
  - destruct (m !! k) as [u|] eqn:E; [|done]. intros H. exists (k, u). split; [by apply elem_of_map_to_list|].
    simpl. by rewrite bool_decide_eq_true_2.
Qed.

Lemma purge_slot t now k : slot_of (purgeExpiredLocked t now) k = expire now (slot_of t k).
Proof.
  unfold slot_of, purgeExpiredLocked. destruct (purge_loop now (map_to_list (lo_locked t)) t k) as [-> ->].
  rewrite expires_map. destruct (lo_locked t !! k) as [u|]; simpl; [unfold After; by destruct (u <? now)|].
  by destruct (lo_attempts t !! k).
Qed.

Lemma purge_config now l t :
  lo_threshold (foldl (purge_step now) t l) = lo_threshold t ∧ lo_ttl (foldl (purge_step now) t l) = lo_ttl t ∧
  lo_maxEntries (foldl (purge_step now) t l) = lo_maxEntries t.
Proof.
  revert t. induction l as [|ku l IH]; intros t; [done|]. simpl. destruct (IH (purge_step now t ku)) as (-> & -> & ->).
  unfold purge_step. by destruct (After _ _).
Qed.

(** Purging only removes counters. *)
Lemma purge_dom t now : dom (lo_attempts (purgeExpiredLocked t now)) ⊆ dom (lo_attempts t).
Proof.
  intros k. rewrite !elem_of_dom. unfold purgeExpiredLocked.
  destruct (purge_loop now (map_to_list (lo_locked t)) t k) as [_ ->]. by destruct (expires _ _ _).
Qed.

Lemma expire_expire now now' s : now ≤ now' → expire now' (expire now s) = expire now' s.
Proof.
  intros Hn. destruct s as [|n|n u]; simpl; [done..|]. destruct (Z.ltb_spec u now); simpl; [|done].
  by destruct (Z.ltb_spec u now'); [|lia].
Qed.

(** Counting a failure, on the slot of the key and on every other. *)
Lemma count_failure_slot t now key :
  slot_of (count_failure t now key).1 key = slot_failure (lo_threshold t) (lo_ttl t) now (slot_of t key).
Proof.
  unfold count_failure, slot_of at 2. simpl.
  destruct (lo_locked t !! key) as [u|] eqn:El; [|destruct (lo_attempts t !! key) as [n|] eqn:Ea];
    simpl; destruct (_ <=? _) eqn:Et; unfold slot_of; simpl; by simplify_map_eq.
Qed.
Lemma count_failure_other t now key k : key ≠ k → slot_of (count_failure t now key).1 k = slot_of t k.
Proof. intros Hk. unfold count_failure. simpl. destruct (_ <=? _); unfold slot_of; simpl; by simplify_map_eq. Qed.
Lemma count_failure_dom t now key : dom (lo_attempts (count_failure t now key).1) = {[ key ]} ∪ dom (lo_attempts t).
Proof. unfold count_failure. simpl. destruct (_ <=? _); simpl; by rewrite dom_insert_L. Qed.

Lemma IsLocked_slot t now key : slot_of (IsLocked t now key).1 key = expire now (slot_of t key).
Proof.
  unfold IsLocked, slot_of at 2. destruct (lo_locked t !! key) as [u|] eqn:E; simpl.
  - unfold After. destruct (u <? now); simpl; unfold slot_of; simpl; by simplify_map_eq.
  - unfold slot_of. rewrite E. by destruct (lo_attempts t !! key).
Qed.
Lemma IsLocked_result t now key : (IsLocked t now key).2 = is_locked (expire now (slot_of t key)).
Proof.
  unfold IsLocked, slot_of. destruct (lo_locked t !! key) as [u|]; [|by destruct (lo_attempts t !! key)].
  simpl. unfold After. by destruct (u <? now).
Qed.
Lemma forget_other t key k : key ≠ k → slot_of (forget t key) k = slot_of t k.
Proof. intros Hk. unfold slot_of. by rewrite forget_locked, forget_attempts, bool_decide_eq_false_2. Qed.
Lemma forget_slot t key : slot_of (forget t key) key = Free.
Proof. unfold slot_of. by rewrite forget_locked, forget_attempts, bool_decide_eq_true_2. Qed.
Lemma IsLocked_other t now key k : key ≠ k → slot_of (IsLocked t now key).1 k = slot_of t k.
Proof.
  intros Hk. unfold IsLocked. destruct (lo_locked t !! key) as [u|]; [|done].
  destruct (After now u); [by apply forget_other|done].
Qed.

(** ** Refinement *)

Definition same_config (t t' : LockoutTracker) : Prop :=
  lo_threshold t = lo_threshold t' ∧ lo_ttl t = lo_ttl t' ∧ lo_maxEntries t = lo_maxEntries t'.

Section runs.
Context (range_keys : gmap string Z → list string).

Lemma RecordFailure_no_evict t now1 now2 key (F : gset string) :
  dom (lo_attempts t) ⊆ F → Z.of_nat (size ({[ key ]} ∪ F)) ≤ lo_maxEntries t →
  RecordFailure range_keys t now1 now2 key = count_failure (purgeExpiredLocked t now1) now2 key.
Proof.
  intros HF Hsz. unfold RecordFailure. assert (Hd := purge_dom t now1).
  assert (Hm : lo_maxEntries (purgeExpiredLocked t now1) = lo_maxEntries t) by apply purge_config.
  set (t' := purgeExpiredLocked t now1) in *. destruct (lo_attempts t' !! key) eqn:E; [done|].
  replace (lo_maxEntries t' <=? Z.of_nat (size (lo_attempts t'))) with false; [by rewrite andb_false_r|].
  symmetry. apply Z.leb_gt. rewrite Hm. rewrite <-size_dom.
  apply not_elem_of_dom in E. assert (Hs : (size ({[ key ]} ∪ dom (lo_attempts t')) ≤ size ({[ key ]} ∪ F))%nat)
    by (apply subseteq_size; set_solver).
  rewrite size_union, size_singleton in Hs by set_solver. lia.
Qed.

(** One event, seen from one key: the invariant on counters and the slot. *)
Lemma step_slot t e key now (F : gset string) :
  dom (lo_attempts t) ⊆ F → Z.of_nat (size (failing [e] ∪ F)) ≤ lo_maxEntries t → clocked now [e] →
  dom (lo_attempts (step range_keys t e)) ⊆ failing [e] ∪ F ∧ same_config (step range_keys t e) t ∧
  ∀ s, expire now (slot_of t key) = expire now s →
    expire (clock_after now [e]) (slot_of (step range_keys t e) key) =
    expire (clock_after now [e])
      (if bool_decide (ev_key e = key) then slot_step (lo_threshold t) (lo_ttl t) s e else s).
Proof.
  assert (Hfg : ∀ k, dom (lo_attempts (forget t k)) ⊆ dom (lo_attempts t)) by (intros k; simpl; rewrite dom_delete_L; set_solver).
  intros HF Hsz Hc. destruct e as [n k|n1 n2 k|k|k]; simpl in *.
  - destruct Hc as [Hn _]. split; [|split].
    + rewrite union_empty_l_L. etrans; [|exact HF]. unfold IsLocked. case_match; [|done]. case_match; [apply Hfg|done].
    + unfold IsLocked. case_match; [|done]. by case_match.
    + intros s Hs. apply (f_equal (expire n)) in Hs. rewrite !expire_expire in Hs by done. case_bool_decide as Hk.
      * subst. by rewrite IsLocked_slot, Hs.
      * by rewrite IsLocked_other.
  - destruct Hc as (Hn1 & Hn2 & _). rewrite union_empty_r_L in *.
    rewrite (RecordFailure_no_evict t n1 n2 k F HF Hsz).
    destruct (purge_config n1 (map_to_list (lo_locked t)) t) as (Ht & Hl & Hm). fold (purgeExpiredLocked t n1) in *.
    split; [|split].
    + rewrite count_failure_dom. assert (Hd := purge_dom t n1). set_solver.
    + unfold count_failure. simpl. by destruct (_ <=? _).
    + intros s Hs. apply (f_equal (expire n1)) in Hs. rewrite !expire_expire in Hs by done. case_bool_decide as Hk.
      * subst. by rewrite count_failure_slot, purge_slot, Hs, Ht, Hl.
      * rewrite count_failure_other, purge_slot, Hs by done. by apply expire_expire.
  - rewrite union_empty_l_L. split; [by rewrite Hfg|]. split; [done|]. intros s Hs. case_bool_decide as Hk.
    + subst. by rewrite forget_slot.
    + by rewrite forget_other.
  - rewrite union_empty_l_L. split; [by rewrite Hfg|]. split; [done|]. intros s Hs. case_bool_decide as Hk.
    + subst. by rewrite forget_slot.
    + by rewrite forget_other.
Qed.

Lemma run_slot key es : ∀ t now (F : gset string) s,
  dom (lo_attempts t) ⊆ F → Z.of_nat (size (failing es ∪ F)) ≤ lo_maxEntries t → clocked now es →
  expire now (slot_of t key) = expire now s →
  expire (clock_after now es) (slot_of (run range_keys t es) key) =
  expire (clock_after now es)
    (foldl (slot_step (lo_threshold t) (lo_ttl t)) s (filter (λ e, ev_key e = key) es)).
Proof.
  induction es as [|e es IH]; intros t now F s HF Hsz Hc Hs; [done|].
  assert (Hf : failing (e :: es) = failing [e] ∪ failing es) by (destruct e; simpl; set_solver).
  assert (Hc' : clocked now [e] ∧ clocked (clock_after now [e]) es) by (destruct e; simpl in *; tauto).
  assert (Ha : clock_after now (e :: es) = clock_after (clock_after now [e]) es) by (by destruct e).
  destruct Hc' as [Hc1 Hc2]. rewrite Hf in Hsz.
  destruct (step_slot t e key now F HF) as (HF' & (Ht & Hl & Hm) & Hslot); [|done|].
  { etrans; [|exact Hsz]. apply inj_le, subseteq_size. set_solver. }
  rewrite Ha, filter_cons. change (run range_keys t (e :: es)) with (run range_keys (step range_keys t e) es).
  erewrite (IH (step range_keys t e) (clock_after now [e]) (failing [e] ∪ F)); [|done| |done|by apply Hslot].
  - rewrite Ht, Hl. case_bool_decide as Hk; case_decide; done.
  - rewrite Hm. etrans; [|exact Hsz]. apply inj_le, subseteq_size. set_solver.
Qed.

Lemma lockout_slot threshold ttl es key now0 now :
  clocked now0 (es ++ [EvIsLocked now key]) → Z.of_nat (size (failing es)) ≤ 50000 →
  let t := NewLockoutTracker threshold ttl in
  (IsLocked (run range_keys t es) now key).2 =
  is_locked (expire now (foldl (slot_step (lo_threshold t) (lo_ttl t)) Free (filter (λ e, ev_key e = key) es))).
Proof.
  intros Hc Hsz t. rewrite IsLocked_result. f_equal.
  assert (Hcs : ∀ n, clocked n (es ++ [EvIsLocked now key]) → clocked n es ∧ clock_after n es ≤ now).
  { clear. induction es as [|[]]; intros n; simpl; try naive_solver. }
  destruct (Hcs now0 Hc) as [Hc1 Hc2].
  assert (H := run_slot key es t now0 ∅ Free). specialize (H ltac:(done)).
  rewrite union_empty_r_L in H. specialize (H Hsz Hc1 ltac:(done)).
  apply (f_equal (expire now)) in H. by rewrite !expire_expire in H by done.
Qed.
End runs.

(** An unused slot counts from zero. *)
Lemma slot_failure_next threshold ttl now n {A} (ts : list A) :
  Z.of_nat (length ts) < 2 ^ 63 - 1 →
  slot_failure threshold ttl now (expire n (if bool_decide (ts = []) then Free else Counting (Z.of_nat (length ts)))) =
  if threshold <=? Z.of_nat (length ts) + 1 then Locked (Z.of_nat (length ts) + 1) (now + ttl)
  else Counting (Z.of_nat (length ts) + 1).
Proof.
  intros Hl. assert (Hw : wrap64 (Z.of_nat (length ts) + 1) = Z.of_nat (length ts) + 1) by (unfold wrap64; rewrite Z.mod_small; lia).
  case_bool_decide; subst; simpl expire; unfold slot_failure; [done|by rewrite Hw].
Qed.

(** A run of failures below the threshold only counts; the one that reaches it
    locks. *)
Lemma slot_failures threshold ttl (ts : list (Time * Time)) key :
  Z.of_nat (length ts) < threshold → threshold < 2 ^ 63 →
  foldl (slot_step threshold ttl) Free ((λ n, EvFailure n.1 n.2 key) <$> ts) =
  if bool_decide (ts = []) then Free else Counting (Z.of_nat (length ts)).
Proof.
  intros Hl Ht. induction ts as [|n ts IH] using rev_ind; [done|].
  rewrite length_app in *. simpl in Hl. rewrite fmap_app, foldl_app, IH by lia.
  cbn [foldl fmap list_fmap slot_step]. rewrite slot_failure_next by lia.
  rewrite (bool_decide_eq_false_2 (ts ++ [n] = [])) by (by destruct ts).
  destruct (Z.leb_spec threshold (Z.of_nat (length ts) + 1)); [lia|]. simpl. f_equal. lia.
Qed.

(** A tracker that has seen failures of at most fifty thousand identities
    is a table of independent slots: whether a key is locked depends only on
    the events of that key, counted and timed by [slot_step], whatever the other
    keys do and whenever their calls purge the maps. *)
Theorem lockout_refines range_keys threshold ttl es key now0 now :
  clocked now0 (es ++ [EvIsLocked now key]) → Z.of_nat (size (failing es)) ≤ 50000 →
  let t := NewLockoutTracker threshold ttl in
  (IsLocked (run range_keys t es) now key).2 =
  is_locked (expire now (foldl (slot_step (lo_threshold t) (lo_ttl t)) Free (filter (λ e, ev_key e = key) es))).
Proof. apply lockout_slot. Qed.

(** As many failures of a key as the threshold, with no success in between
    and any events of other keys around them, lock the key, until exactly the
    lockout time has passed since the last one. *)
Theorem lockout_after_threshold range_keys threshold ttl es key now0 now ts last :
  clocked now0 (es ++ [EvIsLocked now key]) → Z.of_nat (size (failing es)) ≤ 50000 → threshold < 2 ^ 63 →
  let t := NewLockoutTracker threshold ttl in
  filter (λ e, ev_key e = key) es = (λ n, EvFailure n.1 n.2 key) <$> (ts ++ [last]) →
  Z.of_nat (length (ts ++ [last])) = lo_threshold t →
  (IsLocked (run range_keys t es) now key).2 = (now <=? last.2 + lo_ttl t).
Proof.
  intros Hc Hsz Hth t Hes Hlen. rewrite (lockout_slot range_keys threshold ttl es key now0) by done. fold t. rewrite Hes.
  rewrite fmap_app, foldl_app. rewrite length_app in Hlen. change (length [last]) with 1%nat in Hlen.
  assert (Hth' : lo_threshold t < 2 ^ 63) by (simpl; destruct (threshold <=? 0); lia).
  rewrite slot_failures by lia. cbn [foldl fmap list_fmap slot_step]. rewrite slot_failure_next by lia.
  destruct (Z.leb_spec (lo_threshold t) (Z.of_nat (length ts) + 1)); [|lia].
  unfold expire. rewrite Z.leb_antisym. by destruct (last.2 + lo_ttl t <? now).
Qed.

Definition demo_events : list event :=
  [EvFailure 1 1 "oidc:alice"; EvFailure 2 2 "oidc:bob"; EvFailure 3 4 "oidc:alice"; EvSuccess "oidc:bob"; EvIsLocked 5 "oidc:carol"].

Lemma lockout_refines_witness :
  (IsLocked (run (λ m, (map_to_list m).*1) (NewLockoutTracker 2 100) demo_events) 104 "oidc:alice").2 = true.
Proof. rewrite (lockout_refines _ 2 100 demo_events "oidc:alice" 0 104); [done| |]; vm_compute; intuition discriminate. Defined.

Lemma lockout_after_threshold_witness :
  (IsLocked (run (λ m, (map_to_list m).*1) (NewLockoutTracker 2 100) demo_events) 105 "oidc:alice").2 = false.
Proof.
  rewrite (lockout_after_threshold _ 2 100 demo_events "oidc:alice" 0 105 [(1, 1)] (3, 4)).
  - reflexivity.
  - vm_compute. intuition discriminate.
  - vm_compute. discriminate.
  - lia.
  - vm_compute. reflexivity.
  - reflexivity.
Defined.

(** ** The bound on counters *)

(** Counters of identities that are not locked. *)
Definition unlocked (t : LockoutTracker) : gset string := dom (lo_attempts t) ∖ dom (lo_locked t).

Section bound.
Context (range_keys : gmap string Z → list string).
Hypothesis range_all : ∀ m k, k ∈ dom m → k ∈ range_keys m.

Lemma evict_loop_maps t keys :
  lo_locked (evict_loop t keys) = lo_locked t ∧ lo_maxEntries (evict_loop t keys) = lo_maxEntries t ∧
  lo_attempts (evict_loop t keys) ⊆ lo_attempts t.
Proof.
  revert t. induction keys as [|k keys IH]; intros t; simpl; [done|].
  destruct (lo_locked t !! k); [apply IH|]. case_match; simpl; [split_and!; [done..|apply delete_subseteq]|].
  destruct (IH (with_maps t (delete k (lo_attempts t)) (lo_locked t))) as (H1 & H2 & H3).
  rewrite H1, H2. split_and!; [done..|]. etrans; [exact H3|]. simpl. apply delete_subseteq.
Qed.

(** Eviction ends below half the limit or has removed every counter of the
    listed keys that are not locked. *)
Lemma evict_loop_spec t keys :
  Z.of_nat (size (lo_attempts (evict_loop t keys))) < Z.quot (lo_maxEntries t) 2 ∨
  ∀ k, k ∈ keys → lo_locked t !! k = None → lo_attempts (evict_loop t keys) !! k = None.
Proof.
  revert t. induction keys as [|k keys IH]; intros t; simpl; [right; intros k Hk; by apply not_elem_of_nil in Hk|].
  destruct (lo_locked t !! k) as [u|] eqn:El.
  - destruct (IH t) as [|H]; [by left|right]. intros k' [->|Hk]%elem_of_cons Hn; [congruence|by apply H].
  - set (t' := with_maps t (delete k (lo_attempts t)) (lo_locked t)).
    destruct (Z.ltb_spec (Z.of_nat (size (delete k (lo_attempts t)))) (Z.quot (lo_maxEntries t) 2)); [left; done|].
    destruct (IH t') as [Hlt|H']; [by left|right]. intros k' [->|Hk]%elem_of_cons Hn; [|by apply H'].
    destruct (evict_loop_maps t' keys) as (_ & _ & Hsub). apply (lookup_weaken_None _ (lo_attempts t')); [|done].
    unfold t'. simpl. apply lookup_delete_eq.
Qed.

Lemma unlocked_le t : (size (unlocked t) ≤ size (lo_attempts t))%nat.
Proof. rewrite <-size_dom. apply subseteq_size. unfold unlocked. set_solver. Qed.

Lemma evict_unlocked t : 0 < lo_maxEntries t →
  Z.of_nat (size (unlocked (evictAttemptsLocked range_keys t))) < lo_maxEntries t.
Proof.
  intros Hm. unfold evictAttemptsLocked. destruct (evict_loop_spec t (range_keys (lo_attempts t))) as [H|H].
  - assert (Hu := unlocked_le (evict_loop t (range_keys (lo_attempts t)))).
    assert (Hq : Z.quot (lo_maxEntries t) 2 ≤ lo_maxEntries t) by (apply Z.quot_le_upper_bound; lia). lia.
  - replace (unlocked _) with (∅ : gset string); [done|]. symmetry. apply elem_of_equiv_empty_L. intros k.
    unfold unlocked. rewrite elem_of_difference, not_elem_of_dom. intros [Hk Hl].
    destruct (evict_loop_maps t (range_keys (lo_attempts t))) as (Hlk & _ & Hsub). rewrite Hlk in Hl.
    assert (Hin : k ∈ dom (lo_attempts t)) by (by apply (subseteq_dom _ _ Hsub)).
    apply elem_of_dom in Hk as [n Hn]. rewrite H in Hn; [done|by apply range_all|done].
Qed.

Lemma unlocked_forget t k : unlocked (forget t k) ⊆ unlocked t.
Proof. unfold unlocked. simpl. rewrite !dom_delete_L. set_solver. Qed.

Lemma unlocked_purge t now : unlocked (purgeExpiredLocked t now) ⊆ unlocked t.
Proof.
  unfold purgeExpiredLocked. generalize (map_to_list (lo_locked t)). intros l. revert t.
  induction l as [|ku l IH]; intros t; simpl; [done|]. rewrite IH. unfold purge_step.
  destruct (After _ _); [apply unlocked_forget|done].
Qed.

Lemma unlocked_count t now key :
  unlocked (count_failure t now key).1 ⊆ {[ key ]} ∪ unlocked t ∧
  (key ∈ dom (lo_attempts t) → unlocked (count_failure t now key).1 ⊆ unlocked t).
Proof.
  unfold count_failure, unlocked. simpl. destruct (_ <=? _); simpl; rewrite ?dom_insert_L; set_solver.
Qed.

Lemma step_bounded t e : 0 < lo_maxEntries t → Z.of_nat (size (unlocked t)) ≤ lo_maxEntries t →
  lo_maxEntries (step range_keys t e) = lo_maxEntries t ∧
  Z.of_nat (size (unlocked (step range_keys t e))) ≤ lo_maxEntries t.
Proof.
  intros Hm Hb.
  assert (Hle : ∀ X, X ⊆ unlocked t → Z.of_nat (size X) ≤ lo_maxEntries t).
  { intros X HX. etrans; [apply inj_le, subseteq_size, HX|done]. }
  destruct e as [n k|n1 n2 k|k|k]; simpl.
  - unfold IsLocked. repeat case_match; simpl; (split; [done|]); auto using unlocked_forget.
  - assert (Hc : ∀ t, lo_maxEntries (count_failure t n2 k).1 = lo_maxEntries t) by (intros t'; unfold count_failure; simpl; by destruct (_ <=? _)).
    assert (Hp : lo_maxEntries (purgeExpiredLocked t n1) = lo_maxEntries t) by apply purge_config.
    assert (Hpu := unlocked_purge t n1). unfold RecordFailure. set (p := purgeExpiredLocked t n1) in *.
    assert (Hnew : ∀ t', Z.of_nat (size (unlocked t')) < lo_maxEntries t → Z.of_nat (size (unlocked (count_failure t' n2 k).1)) ≤ lo_maxEntries t).
    { intros t' Ht. destruct (unlocked_count t' n2 k) as [H _]. apply subseteq_size in H.
      assert (Hu := size_union_alt {[ k ]} (unlocked t')). rewrite size_singleton in Hu.
      assert (Hd : (size (unlocked t' ∖ {[ k ]}) ≤ size (unlocked t'))%nat) by (apply subseteq_size; set_solver). lia. }
    rewrite Hc. destruct (lo_attempts p !! k) eqn:E.
    + split; [done|]. apply Hle. etrans; [|exact Hpu]. apply unlocked_count. by apply elem_of_dom_2 in E.
    + rewrite (proj2 (Z.ltb_lt 0 (lo_maxEntries p))) by lia. cbn [andb].
      destruct (Z.leb_spec (lo_maxEntries p) (Z.of_nat (size (lo_attempts p)))).
      * split; [etrans; [apply evict_loop_maps|done]|]. apply Hnew. rewrite <-Hp. apply evict_unlocked. lia.
      * split; [done|]. apply Hnew. assert (Hu := unlocked_le p). lia.
  - split; [done|]. apply Hle, unlocked_forget.
  - split; [done|]. apply Hle, unlocked_forget.
Qed.

(** However many identities fail, the tracker never holds more than fifty
    thousand counters of identities that are not locked. *)
Theorem counters_bounded threshold ttl es :
  Z.of_nat (size (unlocked (run range_keys (NewLockoutTracker threshold ttl) es))) ≤ 50000.
Proof.
  set (t := NewLockoutTracker threshold ttl).
  assert (H : lo_maxEntries (run range_keys t es) = 50000 ∧ Z.of_nat (size (unlocked (run range_keys t es))) ≤ 50000); [|tauto].
  induction es as [|e es [Hm IH]] using rev_ind; [done|]. unfold run in *. rewrite foldl_app. cbn [foldl].
  destruct (step_bounded (foldl (step range_keys) t es) e) as [H1 H2]; [lia|lia|]. lia.
Qed.
End bound.

Lemma counters_bounded_witness :
  Z.of_nat (size (unlocked (run (λ m, (map_to_list m).*1) (NewLockoutTracker 2 100) demo_events))) ≤ 50000.
Proof.
  apply counters_bounded. intros m k [n Hn]%elem_of_dom. apply list_elem_of_fmap. exists (k, n).
  split; [done|]. by apply elem_of_map_to_list.
Defined.
