(* ===== verification/Cache.v ===== *)
(** The cache, internal/cache/valkey.go, and what counts with it: the cluster-wide
    lockout internal/auth/shared_lockout.go.

    [CacheStore] is the interface Store, with the optional increment of
    IncrStore; [MemoryStore] and [ValkeyStore] implement it. A remote server is a
    store of its own whose operations are a parameter. The clock is an argument
    of every operation that reads it. *)

From S2P Require Import Prelude.
From S2P Require Import GoLib.
From S2P Require Import Domain.
From S2P Require Import Lockout.

#[local] Open Scope Z_scope.

(** ** internal/cache/valkey.go *)

Class CacheStore (S : Type) := {
  cs_Get : S → Time → string → option bytes;
  cs_Set : S → Time → string → bytes → Duration → S;
  cs_Delete : S → string → S;
  cs_Incr : option (S → Time → string → Duration → S * res Z);
}.

Record entry := mkEntry { en_value : bytes; en_until : Time }.
Definition MemoryStore : Type := gmap string entry.
Definition NewMemoryStore : MemoryStore := ∅.

Definition cache_ttl (ttl : Duration) : Duration := if ttl <=? 0 then 5 * Minute else ttl.

Definition Memory_Get (s : MemoryStore) (now : Time) (key : string) : option bytes :=
  match (s : gmap string entry) !! key with
  | Some e => if After now (en_until e) then None else Some (en_value e)
  | None => None
  end.

Definition Memory_Set (s : MemoryStore) (now : Time) (key : string) (value : bytes) (ttl : Duration) : MemoryStore :=
  <[key := mkEntry value (now + cache_ttl ttl)]> (s : gmap string entry).

Definition Memory_Delete (s : MemoryStore) (key : string) : MemoryStore := delete key (s : gmap string entry).

(** The loop that reads the previous count; any other byte resets it. *)
Fixpoint parse_prior (n : Z) (value : bytes) : Z :=
  match value with
  | [] => n
  | b :: value => if is_digit b then parse_prior (wrap64 (wrap64 (n * 10) + digit_val b)) value else 0
  end.

(** The negation of the least integer is itself, so that its digits are lost. *)
Definition itoa (n : Z) : string := if n =? - 2 ^ 63 then "-" else Itoa n.

Definition Memory_Incr (s : MemoryStore) (now : Time) (key : string) (ttl : Duration) : MemoryStore * res Z :=
  let n := match (s : gmap string entry) !! key with
           | Some e => if Before now (en_until e) then parse_prior 0 (en_value e) else 0
           | None => 0
           end in
  let n := wrap64 (n + 1) in
  (<[key := mkEntry (bytes_of (itoa n)) (now + cache_ttl ttl)]> (s : gmap string entry), Ok n).

#[global] Instance memory_store : CacheStore MemoryStore := {|
  cs_Get := Memory_Get;
  cs_Set := Memory_Set;
  cs_Delete := Memory_Delete;
  cs_Incr := Some Memory_Incr;
|}.

(** A remote server in front of a memory store. *)
Record ValkeyStore (R : Type) := mkValkey { vk_remote : option R; vk_fallback : MemoryStore }.
Arguments mkValkey {R}.
Arguments vk_remote {R}.
Arguments vk_fallback {R}.

Section valkey.
Context {R : Type} `{CacheStore R}.

Definition Valkey_Get (v : ValkeyStore R) (now : Time) (key : string) : option bytes :=
  match vk_remote v ≫= λ r, cs_Get r now key with
  | Some raw => Some raw
  | None => Memory_Get (vk_fallback v) now key
  end.

Definition Valkey_Set (v : ValkeyStore R) (now : Time) (key : string) (value : bytes) (ttl : Duration) : ValkeyStore R :=
  mkValkey ((λ r, cs_Set r now key value ttl) <$> vk_remote v) (Memory_Set (vk_fallback v) now key value ttl).

Definition Valkey_Delete (v : ValkeyStore R) (key : string) : ValkeyStore R :=
  mkValkey ((λ r, cs_Delete r key) <$> vk_remote v) (Memory_Delete (vk_fallback v) key).

(** The remote counter when there is one and it answers, else the local one. *)
Definition Valkey_Incr (v : ValkeyStore R) (now : Time) (key : string) (ttl : Duration) : ValkeyStore R * res Z :=
  let local v := let '(m, n) := Memory_Incr (vk_fallback v) now key ttl in (mkValkey (vk_remote v) m, n) in
  match vk_remote v, cs_Incr with
  | Some r, Some incr =>
      let '(r, n) := incr r now key ttl in
      let v := mkValkey (Some r) (vk_fallback v) in
      match n with Ok n => (v, Ok n) | Err _ => local v end
  | _, _ => local v
  end.

#[global] Instance valkey_store : CacheStore (ValkeyStore R) := {|
  cs_Get := Valkey_Get;
  cs_Set := Valkey_Set;
  cs_Delete := Valkey_Delete;
  cs_Incr := Some Valkey_Incr;
|}.
End valkey.

(** ** internal/auth/shared_lockout.go *)

Record SharedLockoutTracker (S : Type) := mkShared {
  sl_local : LockoutTracker;
  sl_store : option S;
  sl_threshold : Z;
  sl_ttl : Duration;
}.
Arguments mkShared {S}.
Arguments sl_local {S}.
Arguments sl_store {S}.
Arguments sl_threshold {S}.
Arguments sl_ttl {S}.

Definition lockout_prefix : string := "knxvault:lockout:".
Definition locked_key (key : string) : string := lockout_prefix +:+ "locked:" +:+ key.
Definition fail_key (key : string) : string := lockout_prefix +:+ "fail:" +:+ key.

Section shared.
Context {S : Type} `{CacheStore S} (range_keys : gmap string Z → list string).
Implicit Type t : SharedLockoutTracker S.

Definition NewSharedLockoutTracker (threshold : Z) (ttl : Duration) (store : option S) : SharedLockoutTracker S :=
  mkShared (NewLockoutTracker threshold ttl) store threshold ttl.

Definition AsLockoutTracker t : LockoutTracker := sl_local t.

Definition with_store t (store : S) : SharedLockoutTracker S := mkShared (sl_local t) (Some store) (sl_threshold t) (sl_ttl t).
Definition with_local t (local : LockoutTracker) : SharedLockoutTracker S := mkShared local (sl_store t) (sl_threshold t) (sl_ttl t).

(** [now1] is the clock of the lookup, [now2] that of the comparison, [now3] the
    one the local tracker reads. *)
Definition Shared_IsLocked t (now1 now2 now3 : Time) (key : string) : SharedLockoutTracker S * bool :=
  let local t := let '(l, b) := IsLocked (sl_local t) now3 key in (with_local t l, b) in
  match sl_store t with
  | None => local t
  | Some store =>
      match cs_Get store now1 (locked_key key) with
      | Some (b :: raw) =>
          match Atoi (string_of (b :: raw)) with
          | Some until => if Unix now2 <? until then (t, true) else local (with_store t (cs_Delete store (locked_key key)))
          | None => local (with_store t (cs_Delete store (locked_key key)))
          end
      | _ => local t
      end
  end.

Fixpoint Shared_IsLockedAny t (nows : nat → Time * Time * Time) (keys : list string) : SharedLockoutTracker S * bool :=
  match keys with
  | [] => (t, false)
  | k :: keys =>
      let '(n1, n2, n3) := nows O in
      match Shared_IsLocked t n1 n2 n3 k with
      | (t, true) => (t, true)
      | (t, false) => Shared_IsLockedAny t (λ i, nows (Datatypes.S i)) keys
      end
  end.

(** [n, _ = strconv.Atoi(s)]: zero for a text that is no number, the nearest
    integer for one out of range. *)
Definition Atoi_value (s : string) : Z :=
  let n := match s with
           | String "+" t => parse_nonempty t
           | String "-" t => Z.opp <$> parse_nonempty t
           | _ => parse_nonempty s
           end in
  match n with Some n => Z.max (- 2 ^ 63) (Z.min (2 ^ 63 - 1) n) | None => 0 end.

(** [incr]: the atomic increment, or the read, count and write without one. *)
Definition shared_incr t (store : S) (now1 now2 now3 : Time) (key : string) : S * Z :=
  let slow store :=
    let n := match cs_Get store now2 key with Some raw => Atoi_value (string_of raw) | None => 0 end in
    let n := wrap64 (n + 1) in
    (cs_Set store now3 key (bytes_of (Itoa n)) (sl_ttl t), n) in
  match cs_Incr with
  | Some incr => match incr store now1 key (sl_ttl t) with
                 | (store, Ok n) => (store, n)
                 | (store, Err _) => slow store
                 end
  | None => slow store
  end.

(** [clk] are the readings of the clock: three for [incr], then the end of the
    lockout, then the write; the local tracker reads two. *)
Definition Shared_RecordFailure t (clk : nat → Time) (key : string) : SharedLockoutTracker S * bool :=
  match sl_store t with
  | Some store =>
      let '(store, n) := shared_incr t store (clk 0%nat) (clk 1%nat) (clk 2%nat) (fail_key key) in
      if sl_threshold t <=? n then
        let until := Unix (clk 3%nat + sl_ttl t) in
        (with_store t (cs_Set store (clk 4%nat) (locked_key key) (bytes_of (Itoa until)) (sl_ttl t)), true)
      else (with_store t store, false)
  | None => let '(l, b) := RecordFailure range_keys (sl_local t) (clk 0%nat) (clk 1%nat) key in (with_local t l, b)
  end.

Definition Shared_RecordSuccess t (key : string) : SharedLockoutTracker S :=
  let t := match sl_store t with
           | Some store => with_store t (cs_Delete (cs_Delete store (fail_key key)) (locked_key key))
           | None => t
           end in
  with_local t (RecordSuccess (sl_local t) key).

Definition Shared_Clear t (key : string) : SharedLockoutTracker S := Shared_RecordSuccess t key.
End shared.

(** ** Lemmas *)

Lemma digit_val_bounds c : is_digit c = true → 0 ≤ digit_val c < 10.
Proof. unfold is_digit, digit_val. intros [H1%Nat.leb_le H2%Nat.leb_le]%andb_true_iff. lia. Qed.

Lemma parse_digits_grows s : ∀ acc m, 0 ≤ acc → parse_digits acc s = Some m → acc ≤ m.
Proof.
  induction s as [|c s IH]; intros acc m Ha Hp; cbn [parse_digits] in Hp; [by injection Hp as <-|]. destruct (is_digit c) eqn:Ec; [|done].
  assert (Hd := digit_val_bounds c Ec). apply IH in Hp; lia.
Qed.

Lemma parse_prior_digits s : ∀ acc m, 0 ≤ acc → m < 2 ^ 63 → parse_digits acc s = Some m → parse_prior acc (bytes_of s) = m.
Proof.
  induction s as [|c s IH]; intros acc m Ha Hm Hp; cbn [parse_digits parse_prior bytes_of String.list_ascii_of_string] in Hp |- *; [by injection Hp|]. destruct (is_digit c) eqn:Ec; [|done].
  assert (Hd := digit_val_bounds c Ec). assert (Hg := parse_digits_grows s (acc * 10 + digit_val c) m ltac:(lia) Hp). rewrite (wrap64_id (acc * 10)), wrap64_id by lia.
  apply IH; [lia|done|done].
Qed.

Lemma parse_prior_itoa n : 0 ≤ n < 2 ^ 63 → parse_prior 0 (bytes_of (itoa n)) = n.
Proof.
  intros Hn. unfold itoa, Itoa. destruct (Z.eqb_spec n (- 2 ^ 63)); [lia|]. destruct (Z.ltb_spec n 0); [lia|].
  destruct (parse_Itoa n ltac:(lia)) as (d & s & Hd & -> & Hp). apply parse_prior_digits; [done|lia|done].
Qed.

Lemma Itoa_nonempty n : 0 ≤ n < 2 ^ 63 → ∃ b raw, bytes_of (Itoa n) = b :: raw.
Proof.
  intros Hn. unfold Itoa. destruct (Z.ltb_spec n 0); [lia|]. destruct (parse_Itoa n ltac:(lia)) as (d & s & Hd & -> & Hp). by eexists _, _.
Qed.

Lemma lockout_keys key key' : fail_key key ≠ locked_key key' ∧ (fail_key key = fail_key key' → key = key') ∧ (locked_key key = locked_key key' → key = key').
Proof.
  unfold fail_key, locked_key, lockout_prefix. split_and!; [discriminate|..]; intros E; by repeat injection E as E.
Qed.

(** ** Stores while they answer *)

(** A request to a store with a server may fail: reads then find nothing, writes are
    lost and an increment is an error. While a store [answers], it answers at least
    what a memory store would, its [cview]; it may answer more, as [ValkeyStore]
    does from its local copies. *)
Class LawfulCache (S : Type) `{CacheStore S} := {
  cview : S → MemoryStore;
  answers : S → Prop;
  cache_hit s now k v : answers s → Memory_Get (cview s) now k = Some v → cs_Get s now k = Some v;
  cache_set s now k v ttl : answers s → cview (cs_Set s now k v ttl) = Memory_Set (cview s) now k v ttl;
  cache_delete s k : answers s → cview (cs_Delete s k) = Memory_Delete (cview s) k;
  cache_incr : ∃ incr, cs_Incr = Some incr ∧ ∀ s now k ttl, answers s → ∃ s' n,
    incr s now k ttl = (s', Ok n) ∧ Memory_Incr (cview s) now k ttl = (cview s', Ok n);
}.

#[global, program] Instance memory_lawful : LawfulCache MemoryStore := {| cview := id; answers := λ _, True |}.
Next Obligation. done. Qed.
Next Obligation. done. Qed.
Next Obligation. done. Qed.
Next Obligation. exists Memory_Incr. split; [done|]. intros. unfold Memory_Incr. eauto. Qed.

(** With a server that answers, or with none at all. *)
Definition valkey_view {R} `{LawfulCache R} (v : ValkeyStore R) : MemoryStore :=
  match vk_remote v with Some r => cview r | None => vk_fallback v end.
Definition valkey_answers {R} `{LawfulCache R} (v : ValkeyStore R) : Prop :=
  match vk_remote v with Some r => answers r | None => True end.

#[global, program] Instance valkey_lawful {R} `{LawfulCache R} : LawfulCache (ValkeyStore R) := {| cview := valkey_view; answers := valkey_answers |}.
Next Obligation.
  intros R ?? [[r|] m] now k v Ha Hv; cbn in *; unfold Valkey_Get; cbn; [|done]. by rewrite (cache_hit _ _ _ _ Ha Hv).
Qed.
Next Obligation. intros R ?? [[r|] m] now k v ttl Ha; cbn; [by apply cache_set|done]. Qed.
Next Obligation. intros R ?? [[r|] m] k Ha; cbn; [by apply cache_delete|done]. Qed.
Next Obligation.
  intros R HS HL. exists Valkey_Incr. split; [done|]. intros [[r|] m] now k ttl Ha; cbn in *.
  - destruct cache_incr as (incr & Hi & Hl). destruct (Hl r now k ttl Ha) as (r' & n & E1 & E2).
    exists (mkValkey (Some r') m), n. unfold Valkey_Incr. cbn. by rewrite Hi, E1.
  - eexists _, _. split; [unfold Valkey_Incr; cbn; by destruct cs_Incr|done].
Qed.

(** ** Counters of a server that may fail

    What an increment and the expiry that follows it do to the counts of a server,
    whatever is lost on the way: the count of a key, and when it is forgotten, if
    ever. *)
Abbreviation counts := (string → option (Z * option Time)).

Definition expired (now : Time) (u : option Time) : bool := match u with Some u => u <=? now | None => false end.
Definition prior (c : counts) (now : Time) (k : string) : Z * option Time :=
  match c k with Some (n, u) => if expired now u then (0, None) else (n, u) | None => (0, None) end.

(** One more, and the expiry as it was or as asked for. *)
Definition counted_once (c c' : counts) (now : Time) (k : string) (ttl : Duration) : Prop :=
  ∃ u, c' k = Some ((prior c now k).1 + 1, u) ∧ (u = Some (now + Z.quot ttl Second * Second) ∨ u = (prior c now k).2).

(** An increment that is answered was counted, with the count it answers; one that
    is not was counted or not. Other keys stay. *)
Class RemoteCounter (R : Type) `{CacheStore R} := {
  rc_counts : R → counts;
  rc_incr : ∃ incr, cs_Incr = Some incr ∧ ∀ r now k ttl, Z.of_nat (String.length k) < 2 ^ 63 → Second ≤ ttl < 2 ^ 63 →
    let '(r', x) := incr r now k ttl in
    (∀ k', k' ≠ k → rc_counts r' k' = rc_counts r k') ∧
    (0 ≤ (prior (rc_counts r) now k).1 < 2 ^ 63 - 1 →
     match x with
     | Ok n => n = (prior (rc_counts r) now k).1 + 1 ∧ counted_once (rc_counts r) (rc_counts r') now k ttl
     | Err _ => counted_once (rc_counts r) (rc_counts r') now k ttl ∨ rc_counts r' k = rc_counts r k
     end);
}.

(** ** A cluster: nodes with one store *)

Section cluster.
Context {S : Type} `{LawfulCache S} (range_keys : gmap string Z → list string) (threshold : Z) (ttl : Duration).
Context (up : ∀ s : S, answers s).

Record cluster := mkCluster { cl_store : S; cl_locals : nat → LockoutTracker }.

Inductive cevent :=
  | CFailure (node : nat) (clk : nat → Time) (key : string)
  | CSuccess (node : nat) (key : string)
  | CIsLocked (node : nat) (now1 now2 now3 : Time) (key : string).

Definition node (c : cluster) (i : nat) : SharedLockoutTracker S := mkShared (cl_locals c i) (Some (cl_store c)) threshold ttl.
Definition put (c : cluster) (i : nat) (t : SharedLockoutTracker S) : cluster :=
  mkCluster (default (cl_store c) (sl_store t)) (λ j, if Nat.eqb j i then sl_local t else cl_locals c j).

Definition cstep (c : cluster) (e : cevent) : cluster :=
  match e with
  | CFailure i clk k => put c i (Shared_RecordFailure range_keys (node c i) clk k).1
  | CSuccess i k => put c i (Shared_RecordSuccess (node c i) k)
  | CIsLocked i n1 n2 n3 k => put c i (Shared_IsLocked (node c i) n1 n2 n3 k).1
  end.
Definition crun (c : cluster) (es : list cevent) : cluster := foldl cstep c es.

Definition ce_key (e : cevent) : string := match e with CFailure _ _ k | CSuccess _ k | CIsLocked _ _ _ _ k => k end.

(** The specification: the failures of a key since its last success, none more
    than the time to live after the one before, and when they are forgotten. *)
Definition streak_step (key : string) (st : option (Z * Time)) (e : cevent) : option (Z * Time) :=
  match e with
  | CFailure _ clk k =>
      if k =s key then
        let n := match st with Some (n, until) => if Before (clk 0%nat) until then n else 0 | None => 0 end in
        Some (n + 1, clk 0%nat + cache_ttl ttl)
      else st
  | CSuccess _ k => if k =s key then None else st
  | CIsLocked _ _ _ _ _ => st
  end.
Definition streak (key : string) (es : list cevent) : option (Z * Time) := foldl (streak_step key) None es.

Definition counter (st : option (Z * Time)) : option entry :=
  (λ '(n, until), mkEntry (bytes_of (itoa n)) until) <$> st.

Definition view_of (c : cluster) (k : string) : option entry := (cview (cl_store c) : gmap string entry) !! k.

Lemma fail_not_locked key key' : fail_key key ≠ locked_key key'.
Proof. apply (lockout_keys key key'). Qed.

Lemma shared_incr_view t store n1 n2 n3 k : ∃ store' n, shared_incr t store n1 n2 n3 k = (store', n) ∧
  Memory_Incr (cview store) n1 k (sl_ttl t) = (cview store', Ok n).
Proof.
  destruct cache_incr as (incr & Hi & Hl). destruct (Hl store n1 k (sl_ttl t) (up store)) as (s' & n & E1 & E2).
  exists s', n. unfold shared_incr. by rewrite Hi, E1.
Qed.

(** What one event does to the entries of the shared store. *)
Lemma failure_view c i clk k : ∃ n, (Memory_Incr (cview (cl_store c)) (clk 0%nat) (fail_key k) ttl).2 = Ok n ∧
  (Shared_RecordFailure range_keys (node c i) clk k).2 = (threshold <=? n) ∧
  cview (cl_store (cstep c (CFailure i clk k))) =
    let m := (Memory_Incr (cview (cl_store c)) (clk 0%nat) (fail_key k) ttl).1 in
    if threshold <=? n then Memory_Set m (clk 4%nat) (locked_key k) (bytes_of (Itoa (Unix (clk 3%nat + ttl)))) ttl else m.
Proof.
  cbn [cstep]. unfold Shared_RecordFailure. cbn [node sl_store sl_ttl sl_threshold].
  destruct (shared_incr_view (node c i) (cl_store c) (clk 0%nat) (clk 1%nat) (clk 2%nat) (fail_key k)) as (s' & n & E1 & E2).
  fold (node c i). cbn [node sl_ttl] in E2. rewrite E1, E2. exists n. split; [done|].
  destruct (threshold <=? n); cbn; [by rewrite cache_set by apply up|done].
Qed.

Lemma success_view c i k :
  cview (cl_store (cstep c (CSuccess i k))) = Memory_Delete (Memory_Delete (cview (cl_store c)) (fail_key k)) (locked_key k).
Proof. cbn. by rewrite !cache_delete by apply up. Qed.

Lemma is_locked_view c i n1 n2 n3 k : cview (cl_store (cstep c (CIsLocked i n1 n2 n3 k))) = cview (cl_store c) ∨
  cview (cl_store (cstep c (CIsLocked i n1 n2 n3 k))) = Memory_Delete (cview (cl_store c)) (locked_key k).
Proof.
  cbn. unfold Shared_IsLocked. cbn. repeat case_match; cbn in *; simplify_eq/=; rewrite ?cache_delete by apply up; auto.
Qed.

(** Entries an event leaves alone. *)
Lemma cstep_other c e k : k ≠ fail_key (ce_key e) → k ≠ locked_key (ce_key e) → view_of (cstep c e) k = view_of c k.
Proof.
  intros Hf Hl. unfold view_of. destruct e as [i clk key|i key|i n1 n2 n3 key]; cbn [ce_key] in *.
  - destruct (failure_view c i clk key) as (n & _ & _ & ->). unfold Memory_Incr, Memory_Set. cbn [fst].
    case_match; by rewrite ?lookup_insert_ne by done.
  - rewrite success_view. unfold Memory_Delete. by rewrite !lookup_delete_ne.
  - destruct (is_locked_view c i n1 n2 n3 key) as [->| ->]; [done|]. unfold Memory_Delete. by rewrite lookup_delete_ne.
Qed.

Lemma crun_other c es k : Forall (λ e, k ≠ fail_key (ce_key e) ∧ k ≠ locked_key (ce_key e)) es → view_of (crun c es) k = view_of c k.
Proof. intros Hes. revert c. induction Hes as [|e es [? ?] _ IH]; intros c; [done|]. cbn. by rewrite IH, cstep_other. Qed.

(** The count an increment finds. *)
Lemma incr_counter m now k st : (m : gmap string entry) !! k = counter st →
  match st with Some (n, _) => 0 ≤ n < 2 ^ 63 - 1 | None => True end →
  let n := match st with Some (n, until) => if Before now until then n else 0 | None => 0 end in
  Memory_Incr m now k ttl = (<[k := mkEntry (bytes_of (itoa (n + 1))) (now + cache_ttl ttl)]> m, Ok (n + 1)).
Proof.
  intros Hk Hn. unfold Memory_Incr. rewrite Hk. destruct st as [[n until]|]; cbn; [|done]. destruct (Before now until); [|done].
  by rewrite parse_prior_itoa, wrap64_id by lia.
Qed.

(** The counter of a key in the shared store is the streak of its failures. *)
Lemma streak_counter key st c e : view_of c (fail_key key) = counter st →
  match st with Some (n, _) => 0 ≤ n < 2 ^ 63 - 1 | None => True end →
  view_of (cstep c e) (fail_key key) = counter (streak_step key st e).
Proof.
  intros Hc Hn. destruct (decide (ce_key e = key)) as [<-|Hk].
  - destruct e as [i clk key|i key|i n1 n2 n3 key]; cbn [ce_key streak_step] in *; rewrite ?(bool_decide_eq_true_2 (key = key)) by done.
    + destruct (failure_view c i clk key) as (n & _ & _ & Hv). unfold view_of. rewrite Hv, (incr_counter _ _ _ st Hc Hn). cbn.
      case_match; [unfold Memory_Set; rewrite lookup_insert_ne by (symmetry; apply fail_not_locked)|]; by rewrite lookup_insert_eq.
    + unfold view_of. rewrite success_view. unfold Memory_Delete. rewrite lookup_delete_ne by (symmetry; apply fail_not_locked).
      by rewrite lookup_delete_eq.
    + destruct (is_locked_view c i n1 n2 n3 key) as [Hv|Hv]; unfold view_of in *; rewrite Hv; [done|].
      unfold Memory_Delete. by rewrite lookup_delete_ne by (symmetry; apply fail_not_locked).
  - rewrite cstep_other, Hc; [|intros E; apply lockout_keys in E; congruence|apply fail_not_locked].
    destruct e; cbn [ce_key streak_step] in *; by rewrite ?(bool_decide_eq_false_2 (_ = key)).
Qed.

Lemma streak_bound key es n u : streak key es = Some (n, u) → 0 ≤ n ≤ Z.of_nat (length es).
Proof.
  revert n u. unfold streak. induction es as [|e es IH] using rev_ind; [done|]. intros n u. rewrite foldl_app, length_app. cbn.
  destruct (foldl _ _ _) as [[m v]|] eqn:E; [assert (Hm := IH _ _ eq_refl)|];
    destruct e; cbn; repeat case_match; intros; simplify_eq; lia.
Qed.

Lemma run_counter key c es : view_of c (fail_key key) = None → Z.of_nat (length es) < 2 ^ 63 →
  view_of (crun c es) (fail_key key) = counter (streak key es).
Proof.
  intros Hc. unfold crun, streak. induction es as [|e es IH] using rev_ind; [done|]. rewrite length_app, !foldl_app. cbn. intros Hl.
  apply streak_counter; [apply IH; lia|]. destruct (foldl (streak_step key) None es) as [[n u]|] eqn:E; [|done].
  apply streak_bound in E. lia.
Qed.

(** The streak a failure would end. *)
Definition failures_with (key : string) (es : list cevent) (clk : nat → Time) : Z :=
  match streak key (es ++ [CFailure 0 clk key]) with Some (n, _) => n | None => 0 end.
End cluster.

Section shared_theorems.
Context {S : Type} `{HL : LawfulCache S} (range_keys : gmap string Z → list string) (threshold : Z) (ttl : Duration).
Context (up : ∀ s : S, answers s).

(** While the store answers every request, a failed login is answered by the count of the cluster's failures: whatever
    the nodes did before, on whichever node they did it, a node that records a
    failure of a key reports it locked exactly when the failures of that key since
    its last success, none more than the time to live after the one before, have
    reached the threshold. *)
Theorem shared_failures_counted (c : cluster) es i clk key :
  view_of c (fail_key key) = None → Z.of_nat (length es) < 2 ^ 63 - 1 →
  (Shared_RecordFailure range_keys (node threshold ttl (crun range_keys threshold ttl c es) i) clk key).2 =
    (threshold <=? failures_with ttl key es clk).
Proof.
  intros Hc Hl. destruct (failure_view range_keys threshold ttl up (crun range_keys threshold ttl c es) i clk key) as (n & Hi & -> & _).
  assert (Hv := run_counter range_keys threshold ttl up key c es Hc ltac:(lia)). unfold view_of in Hv. unfold failures_with, streak.
  rewrite foldl_app. cbn. rewrite bool_decide_eq_true_2 by done.
  destruct (streak ttl key es) as [[m u]|] eqn:E; rewrite (incr_counter _ _ _ _ _ Hv) in Hi;
    rewrite ?E in Hi |- *; cbn in Hi; try (apply streak_bound in E; lia); try done.
  all: unfold streak in E; rewrite E; by injection Hi as <-.
Qed.

(** A lockout holds across the cluster, while the store answers every request: once a node has reported a key locked,
    every node answers that it is, whatever the nodes do for other keys, until the
    second in which the lockout was to end. *)
Theorem shared_lockout_holds (c : cluster) i clk key es j n1 n2 n3 :
  (Shared_RecordFailure range_keys (node threshold ttl c i) clk key).2 = true →
  Forall (λ e, ce_key e ≠ key) es →
  n1 ≤ clk 4%nat + cache_ttl ttl → Unix n2 < Unix (clk 3%nat + ttl) → 0 ≤ Unix (clk 3%nat + ttl) < 2 ^ 63 →
  (Shared_IsLocked (node threshold ttl (crun range_keys threshold ttl c (CFailure i clk key :: es)) j) n1 n2 n3 key).2 = true.
Proof.
  intros Ht Hes Hn1 Hn2 Hu. unfold Shared_IsLocked. cbn [node sl_store].
  destruct (failure_view range_keys threshold ttl up c i clk key) as (n & _ & Hb & Hv). rewrite Ht in Hb. rewrite <-Hb in Hv. cbn [crun foldl].
  set (c1 := cstep range_keys threshold ttl c (CFailure i clk key)) in *.
  assert (Hl : view_of c1 (locked_key key) = Some (mkEntry (bytes_of (Itoa (Unix (clk 3%nat + ttl)))) (clk 4%nat + cache_ttl ttl)))
    by (unfold view_of; rewrite Hv; apply lookup_insert_eq).
  rewrite <-(crun_other range_keys threshold ttl up c1 es) in Hl;
    [|eapply Forall_impl; [exact Hes|]; intros e He; split; [apply not_eq_sym, fail_not_locked|intros E; apply lockout_keys in E; congruence]].
  destruct (Itoa_nonempty _ Hu) as (b & raw & Hi). fold (crun range_keys threshold ttl c1 es).
  erewrite cache_hit by (apply up || unfold Memory_Get, After; unfold view_of in Hl; rewrite Hl; cbn; rewrite Hi, (proj2 (Z.ltb_ge _ _)) by lia; done).
  cbv beta iota. rewrite <-Hi, string_of_bytes, Atoi_Itoa, (proj2 (Z.ltb_lt _ _)) by lia. done.
Qed.
End shared_theorems.

(** ** Witnesses *)

Definition epoch_clock (s : Z) (_ : nat) : Time := unix_epoch + s * Second.
Definition empty_cluster : cluster (S:=MemoryStore) := mkCluster NewMemoryStore (λ _, NewLockoutTracker 3 (10 * Minute)).
Definition two_failures : list cevent :=
  [CFailure 0 (epoch_clock 10) "approle:r1"; CFailure 1 (epoch_clock 20) "userpass:eve"; CFailure 2 (epoch_clock 30) "approle:r1"].

Lemma shared_failures_counted_witness :
  (Shared_RecordFailure (λ _, []) (node 3 (10 * Minute) (crun (λ _, []) 3 (10 * Minute) empty_cluster two_failures) 1) (epoch_clock 40) "approle:r1").2 = true.
Proof.
  rewrite (shared_failures_counted (HL:=memory_lawful) (λ _, []) 3 (10 * Minute) (λ _, I) empty_cluster two_failures 1 (epoch_clock 40) "approle:r1"
    ltac:(vm_compute; reflexivity) ltac:(vm_compute; reflexivity)). vm_compute. reflexivity.
Defined.

Lemma shared_lockout_holds_witness :
  (Shared_IsLocked (node 1 (10 * Minute) (crun (λ _, []) 1 (10 * Minute) empty_cluster [CFailure 0 (epoch_clock 10) "approle:r1"; CSuccess 1 "userpass:eve"]) 2)
     (epoch_clock 500 0) (epoch_clock 500 0) (epoch_clock 500 0) "approle:r1").2 = true.
Proof.
  apply (shared_lockout_holds (HL:=memory_lawful) (λ _, []) 1 (10 * Minute) (λ _, I) empty_cluster 0 (epoch_clock 10) "approle:r1" [CSuccess 1 "userpass:eve"] 2).
  - vm_compute. reflexivity.
  - repeat constructor. intros E. vm_compute in E. discriminate E.
  - vm_compute. discriminate.
  - vm_compute. reflexivity.
  - split; vm_compute; [discriminate|reflexivity].
Defined.

(** A threshold or a time to live that is not set: the local tracker has
    defaults for both, the shared one locks at the first failure, and then for no
    time at all. *)
Example shared_tracker_without_defaults :
  let t := NewSharedLockoutTracker 0 0 (Some NewMemoryStore) in
  (lo_threshold (sl_local t), lo_ttl (sl_local t)) = (5, 15 * Minute) ∧
  (Shared_RecordFailure (λ _, []) t (epoch_clock 10) "k").2 = true ∧
  let t := (Shared_RecordFailure (λ _, []) (NewSharedLockoutTracker 3 0 (Some NewMemoryStore)) (epoch_clock 10) "k").1 in
  let t := (Shared_RecordFailure (λ _, []) t (epoch_clock 10) "k").1 in
  (Shared_RecordFailure (λ _, []) t (epoch_clock 10) "k").2 = true ∧
  let t := (Shared_RecordFailure (λ _, []) t (epoch_clock 10) "k").1 in
  (Shared_IsLocked t (epoch_clock 10 0) (epoch_clock 10 0) (epoch_clock 10 0) "k").2 = false.
Proof. vm_compute. split_and!; reflexivity. Qed.

(** A key another node deleted from the server is still answered from the copy
    the first node keeps. *)
Example deleted_key_still_cached :
  let server := NewMemoryStore in
  let a := Valkey_Set (mkValkey (Some server) NewMemoryStore) (epoch_clock 10 0) "knxvault:lockout:locked:k" (bytes_of "600") (10 * Minute) in
  let b := mkValkey (vk_remote a) NewMemoryStore in
  let b := Valkey_Delete b "knxvault:lockout:locked:k" in
  Valkey_Get b (epoch_clock 20 0) "knxvault:lockout:locked:k" = None ∧
  Valkey_Get (mkValkey (vk_remote b) (vk_fallback a)) (epoch_clock 20 0) "knxvault:lockout:locked:k" = Some (bytes_of "600").
Proof. vm_compute. split; reflexivity. Qed.
