(* ===== verification/Resp.v ===== *)
(** The client of the cache server, internal/cache/resp_client.go: commands and
    replies of the RESP protocol and the operations of the store over them.

    A connection delivers its bytes in chunks, as the network does; [ReadString]
    and [Read] of a buffered reader are modelled on lists of chunks, the latter
    returning what the chunk at hand has. The server is a class over its own
    state, with the documented effect of the commands the client sends. *)

From S2P Require Import Prelude.
From S2P Require Import GoLib.
From S2P Require Import Domain.
From S2P Require Import Cache.

#[local] Open Scope Z_scope.

(** ** Commands *)

Definition crlf : string := String (ascii_of_nat 13) (String (ascii_of_nat 10) "").

Definition bulk (p : string) : string := "$" +:+ Itoa (Z.of_nat (String.length p)) +:+ crlf +:+ p +:+ crlf.

Definition writeCommand (parts : list string) : string :=
  foldl (λ b p, b +:+ bulk p) ("*" +:+ Itoa (Z.of_nat (length parts)) +:+ crlf) parts.

Definition parseValkeyURL (url : string) : res string :=
  let url := TrimSpace url in
  if url =s "" then Err (Plain "valkey cache url is required")
  else
    let under prefix := let addr := TrimPrefix url prefix in
                        if addr =s "" then Err (Plain "invalid valkey cache url") else Ok addr in
    if HasPrefix url "valkey://" then under "valkey://"
    else if HasPrefix url "redis://" then under "redis://"
    else Ok url.

(** ** Replies *)

Definition reader : Type := list string.

(** What is left of a chunk stays buffered; an empty rest is not. *)
Definition buffered (rest : string) (r : reader) : reader := if rest =s "" then r else rest :: r.

(** [ReadString('\n')]: the line with its end, or the end of the stream. *)
Fixpoint ReadString (r : reader) : option (string * reader) :=
  match r with
  | [] => None
  | chunk :: r =>
      match IndexByte chunk (ascii_of_nat 10) with
      | Some i => Some (str_take (S i) chunk, buffered (str_drop (S i) chunk) r)
      | None => '(line, r) ← ReadString r; Some (chunk +:+ line, r)
      end
  end.

(** [Read(buf)] with room for [n] bytes. *)
Definition chunk_Read (n : nat) (r : reader) : option (string * reader) :=
  match r with
  | [] => None
  | chunk :: r => Some (str_take n chunk, buffered (str_drop n chunk) r)
  end.

(** [fmt.Sscanf(s, "<c>%d", &n)]: the character, spaces, a sign and digits, what
    follows being left; an underscore is taken for a digit and refused after. *)
Fixpoint scan_token (s : string) : string :=
  match s with
  | String c s => if is_digit c || Ascii.eqb c "_" then String c (scan_token s) else ""
  | EmptyString => ""
  end.
Definition scan_int (s : string) : option Z :=
  match TrimLeft s with
  | String "-" t => Atoi (String "-" (scan_token t))
  | String "+" t => Atoi (scan_token t)
  | t => Atoi (scan_token t)
  end.
Definition Sscanf (c : ascii) (s : string) : option Z :=
  match s with
  | String d s => if Ascii.eqb c d then scan_int s else None
  | EmptyString => None
  end.

Definition readInteger (r : reader) : res Z :=
  match ReadString r with
  | None => Err (Plain "EOF")
  | Some (line, _) =>
      let line := TrimSpace line in
      _ ← reject (negb (HasPrefix line ":")) (Plain ("unexpected RESP integer: " +:+ quoted line));
      match Sscanf ":" line with Some n => Ok n | None => Err (Plain "expected integer") end
  end.

(** The rest of the buffer that is not filled is zero. *)
Fixpoint pad (n : nat) (s : string) : string :=
  match n with
  | O => ""
  | S n => match s with
           | String c s => String c (pad n s)
           | EmptyString => String (ascii_of_nat 0) (pad n "")
           end
  end.

Definition readBulkString (r : reader) : option string :=
  match ReadString r with
  | None => None
  | Some (line, r) =>
      if HasPrefix line "$-1" then None
      else if negb (HasPrefix line "$") then None
      else match Sscanf "$" (TrimSpace line) with
           | None => None
           | Some n =>
               if n <=? 0 then None
               else match chunk_Read (Z.to_nat n + 2) r with
                    | None => None
                    | Some (got, _) => Some (pad (Z.to_nat n) got)
                    end
           end
  end.

(** ** The client *)

Class RespServer (S : Type) := {
  srv_dial : S → bool;
  srv_exec : S → Time → string → S * reader;
}.

(** [int(ttl.Seconds())]. *)
Definition whole_seconds (ttl : Duration) : Z := Z.quot ttl Second.

Section client.
Context {S : Type} `{RespServer S}.

Definition Resp_Get (s : S) (now : Time) (key : string) : option bytes :=
  if srv_dial s then bytes_of <$> readBulkString (srv_exec s now (writeCommand ["GET"; key])).2 else None.

Definition Resp_Set (s : S) (now : Time) (key : string) (value : bytes) (ttl : Duration) : S :=
  if srv_dial s then
    (srv_exec s now (writeCommand (if 0 <? ttl then ["SET"; key; string_of value; "EX"; Itoa (whole_seconds ttl)] else ["SET"; key; string_of value]))).1
  else s.

(** Deletion is told the time here, which the interface does not need. *)
Definition Resp_Delete (s : S) (now : Time) (key : string) : S :=
  if srv_dial s then (srv_exec s now (writeCommand ["DEL"; key])).1 else s.

Definition Resp_Incr (s : S) (now : Time) (key : string) (ttl : Duration) : S * res Z :=
  if srv_dial s then
    let '(s, r) := srv_exec s now (writeCommand ["INCR"; key]) in
    match readInteger r with
    | Err e => (s, Err e)
    | Ok n => (if 0 <? ttl then (srv_exec s now (writeCommand ["EXPIRE"; key; Itoa (whole_seconds ttl)])).1 else s, Ok n)
    end
  else (s, Err (Plain "dial")).
End client.

(** ** What a server reads *)

(** A line up to its end. *)
Fixpoint cut_crlf (s : string) : option (string * string) :=
  if HasPrefix s crlf then Some ("", str_drop 2 s)
  else match s with
       | EmptyString => None
       | String c s => '(l, r) ← cut_crlf s; Some (String c l, r)
       end.

Definition decode_head (c : ascii) (s : string) : option (Z * string) :=
  match s with
  | String d s => if Ascii.eqb c d then '(l, r) ← cut_crlf s; n ← Atoi l; if 0 <=? n then Some (n, r) else None else None
  | EmptyString => None
  end.

Definition decode_bulk (s : string) : option (string * string) :=
  '(n, r) ← decode_head "$" s;
  let n := Z.to_nat n in
  if (n <=? String.length r)%nat && HasPrefix (str_drop n r) crlf then Some (str_take n r, str_drop (n + 2) r) else None.

Fixpoint decode_bulks (k : nat) (s : string) : option (list string * string) :=
  match k with
  | O => Some ([], s)
  | S k => '(p, s) ← decode_bulk s; '(ps, s) ← decode_bulks k s; Some (p :: ps, s)
  end.

Definition decode_command (s : string) : option (list string * string) :=
  '(n, r) ← decode_head "*" s; decode_bulks (Z.to_nat n) r.

Definition no_cr (s : string) : Prop := str_mem (ascii_of_nat 13) s = false.

Lemma cut_crlf_app l r : no_cr l → cut_crlf (l +:+ crlf +:+ r) = Some (l, r).
Proof.
  unfold no_cr. induction l as [|c l IH]; [done|]. cbn [str_mem]. intros [Hc%bool_decide_eq_false Hl]%orb_false_iff. cbn [String.append cut_crlf].
  assert (HasPrefix (String c (l +:+ crlf +:+ r)) crlf = false) as -> by (unfold crlf at 2; cbn [HasPrefix]; by rewrite bool_decide_eq_false_2). by rewrite IH.
Qed.

Lemma digits_no_cr fuel n rest : 0 ≤ n → no_cr rest → no_cr (digits fuel n rest).
Proof.
  unfold no_cr. revert n rest. induction fuel as [|fuel IH]; intros n rest Hn Hr; [done|]. cbn [digits].
  assert (Hd : str_mem (ascii_of_nat 13) (String (digit (n mod 10)) rest) = false).
  { cbn [str_mem]. rewrite Hr, orb_false_r. apply bool_decide_eq_false. intros E.
    destruct (digit_facts (n mod 10) ltac:(apply Z.mod_pos_bound; lia)) as [Hd _]. by rewrite <-E in Hd. }
  destruct (n <? 10); [done|]. apply IH; [by apply Z.div_pos|done].
Qed.

Lemma decode_head_app c n r : 0 ≤ n < 2 ^ 63 → decode_head c (String c "" +:+ Itoa n +:+ crlf +:+ r) = Some (n, r).
Proof.
  intros Hn. cbn [decode_head String.append]. rewrite Ascii.eqb_refl, cut_crlf_app.
  - cbn [mbind option_bind]. rewrite Atoi_Itoa by lia. cbn [mbind option_bind]. by rewrite (proj2 (Z.leb_le 0 n)) by lia.
  - unfold Itoa. destruct (Z.ltb_spec n 0); [lia|]. by apply digits_no_cr; [lia|].
Qed.

Lemma decode_bulk_app p r : Z.of_nat (String.length p) < 2 ^ 63 → decode_bulk (bulk p +:+ r) = Some (p, r).
Proof.
  intros Hp. unfold decode_bulk, bulk. rewrite !str_app_assoc. change "$" with (String "$" "") at 1. rewrite decode_head_app by lia. cbn [mbind option_bind].
  rewrite Nat2Z.id. rewrite str_app_length, (proj2 (Nat.leb_le _ _)) by lia. rewrite str_drop_app.
  rewrite (proj2 (HasPrefix_spec _ _)) by (by exists r). cbn [andb]. rewrite str_take_app, <-str_drop_drop, str_drop_app. done.
Qed.

Lemma writeCommand_eq parts : writeCommand parts = "*" +:+ Itoa (Z.of_nat (length parts)) +:+ crlf +:+ foldr (λ p b, bulk p +:+ b) "" parts.
Proof.
  unfold writeCommand. set (h := _ +:+ crlf). assert (Hg : ∀ b, foldl (λ b p, b +:+ bulk p) b parts = b +:+ foldr (λ p b, bulk p +:+ b) "" parts).
  { clear h. induction parts as [|p parts IH]; intros b; cbn [foldl foldr]; [by rewrite str_app_empty_r|]. by rewrite IH, str_app_assoc. }
  rewrite Hg. unfold h. by rewrite !str_app_assoc.
Qed.

(** A command reads back as its parts, whatever bytes they hold: no key or value
    can end its argument, or start another command. *)
Theorem command_decodes parts rest : Z.of_nat (length parts) < 2 ^ 63 → Forall (λ p, Z.of_nat (String.length p) < 2 ^ 63) parts →
  decode_command (writeCommand parts +:+ rest) = Some (parts, rest).
Proof.
  intros Hn Hp. rewrite writeCommand_eq. unfold decode_command. rewrite !str_app_assoc. change "*" with (String "*" "") at 1. rewrite decode_head_app by lia.
  cbn [mbind option_bind]. rewrite Nat2Z.id. clear Hn. induction Hp as [|p parts H1 _ IH]; [done|]. cbn [length decode_bulks foldr].
  rewrite str_app_assoc, decode_bulk_app by done. cbn [mbind option_bind]. by rewrite IH.
Qed.

(** ** What the client reads *)

Lemma IndexByte_app c a b : str_mem c a = false → IndexByte (a +:+ String c b) c = Some (String.length a).
Proof.
  induction a as [|d a IH]; cbn [str_mem IndexByte String.append String.length]; [by rewrite bool_decide_eq_true_2|].
  intros [Hd Ha]%orb_false_iff. rewrite Hd. by rewrite IH.
Qed.

Lemma scan_token_all s : (∀ c, str_mem c s = true → is_digit c = true) → scan_token s = s.
Proof.
  induction s as [|c s IH]; [done|]. intros Hs. cbn [scan_token]. rewrite Hs by (cbn; by rewrite bool_decide_eq_true_2). cbn [orb]. rewrite IH; [done|].
  intros d Hd. apply Hs. cbn. by rewrite Hd, orb_true_r.
Qed.

Lemma is_digit_space c : is_digit c = true → IsSpace c = false ∧ c ≠ "-"%char ∧ c ≠ "+"%char.
Proof. intros Hc. split_and!; [|by intros ->..]. revert Hc. by destruct c as [[] [] [] [] [] [] [] []]. Qed.

Lemma scan_int_Itoa n : 0 ≤ n < 2 ^ 63 → scan_int (Itoa n) = Some n.
Proof.
  intros Hn. assert (Ha := Atoi_Itoa n ltac:(lia)). assert (Hd := λ c, Itoa_digits n c (proj1 Hn)). destruct (Itoa n) as [|c t] eqn:E; [done|].
  unfold scan_int. cbn [TrimLeft]. destruct (is_digit_space c) as (-> & Hm & Hp); [apply Hd; cbn; by rewrite bool_decide_eq_true_2|].
  rewrite <-Ha. assert (Hs := scan_token_all (String c t) Hd). by destruct c as [[] [] [] [] [] [] [] []]; rewrite ?Hs.
Qed.

(** The first line of a chunk that holds it whole. *)
Lemma ReadString_line body rest r : str_mem (ascii_of_nat 10) body = false →
  ReadString ((body +:+ crlf +:+ rest) :: r) = Some (body +:+ crlf, buffered rest r).
Proof.
  intros Hb. cbn [ReadString].
  assert (E : body +:+ crlf +:+ rest = (body +:+ String (ascii_of_nat 13) "") +:+ String (ascii_of_nat 10) rest) by (unfold crlf; by rewrite str_app_assoc).
  rewrite E, IndexByte_app by (rewrite str_mem_app, Hb; done).
  assert (E2 : (body +:+ String (ascii_of_nat 13) "") +:+ String (ascii_of_nat 10) rest = (body +:+ crlf) +:+ rest) by (unfold crlf; by rewrite !str_app_assoc).
  assert (El : S (String.length (body +:+ String (ascii_of_nat 13) "")) = String.length (body +:+ crlf)) by (rewrite !str_app_length; cbn; lia).
  by rewrite E2, El, str_take_app, str_drop_app.
Qed.

(** The header line of a reply, trimmed. *)
Lemma header_trimmed c n : IsSpace c = false → 0 ≤ n → TrimSpace (String c "" +:+ Itoa n +:+ crlf) = String c (Itoa n).
Proof.
  intros Hc Hn. unfold TrimSpace. cbn [String.append TrimLeft]. rewrite Hc. change (String c (Itoa n +:+ crlf)) with (String c (Itoa n) +:+ crlf).
  apply TrimRight_nonspace; intros d; cbn [str_mem crlf].
  - intros [->%bool_decide_eq_true|Hd%Itoa_digits]%orb_true_iff; [done| |done]. by apply is_digit_space.
  - rewrite orb_false_r. by intros [->%bool_decide_eq_true| ->%bool_decide_eq_true]%orb_true_iff.
Qed.

Lemma pad_take n s : (n ≤ String.length s)%nat → pad n s = str_take n s.
Proof. revert s. induction n as [|n IH]; intros [|c s] Hl; cbn in *; [done|done|lia|]. by rewrite IH by lia. Qed.

Lemma str_take_take n m s : (n ≤ m)%nat → str_take n (str_take m s) = str_take n s.
Proof. revert m s. induction n as [|n IH]; intros [|m] [|c s] Hl; cbn; try done; [lia|]. by rewrite IH by lia. Qed.

Lemma str_take_length n s : String.length (str_take n s) = Nat.min n (String.length s).
Proof. revert s. induction n as [|n IH]; intros [|c s]; cbn; try done. by rewrite IH. Qed.

(** A value that is not empty comes back from the reply that carries it, when the
    chunk with the header holds all of it. *)
Theorem bulk_reply_read v tail r : v ≠ "" → Z.of_nat (String.length v) < 2 ^ 63 → readBulkString ((bulk v +:+ tail) :: r) = Some v.
Proof.
  intros Hv Hl. set (n := Z.of_nat (String.length v)). assert (Hn : 0 < n) by (unfold n; destruct v; [done|cbn; lia]).
  unfold readBulkString, bulk. fold n. rewrite !str_app_assoc, <-(str_app_assoc "$"), ReadString_line.
  2:{ cbn [String.append str_mem]. rewrite Itoa_plain by (done || lia). done. }
  assert (Hpre : HasPrefix (("$" +:+ Itoa n) +:+ crlf) "$-1" = false).
  { destruct (Itoa n) as [|c t] eqn:E; [done|]. cbn [String.append HasPrefix]. rewrite bool_decide_eq_true_2 by done. cbn [andb].
    rewrite bool_decide_eq_false_2; [done|]. intros <-. assert (Hd := Itoa_digits n "-" ltac:(lia)). rewrite E in Hd. by specialize (Hd eq_refl). }
  rewrite Hpre. cbn [HasPrefix String.append]. rewrite bool_decide_eq_true_2 by done. cbn [andb negb].
  change (String "$" (Itoa n +:+ crlf)) with (String "$" "" +:+ Itoa n +:+ crlf). rewrite header_trimmed by (done || lia). cbn [Sscanf]. rewrite Ascii.eqb_refl.
  rewrite scan_int_Itoa by lia. rewrite (proj2 (Z.leb_gt n 0)) by lia. unfold buffered. rewrite bool_decide_eq_false_2 by (by destruct v).
  cbn [chunk_Read]. f_equal. unfold n. rewrite Nat2Z.id, pad_take by (rewrite str_take_length, !str_app_length; cbn; lia). rewrite str_take_take by lia. apply str_take_app.
Qed.

Lemma integer_reply_read n r : 0 ≤ n < 2 ^ 63 → readInteger ((":" +:+ Itoa n +:+ crlf) :: r) = Ok n.
Proof.
  intros Hn. unfold readInteger. assert (E := ReadString_line (":" +:+ Itoa n) "" r). rewrite str_app_empty_r, str_app_assoc in E. rewrite E.
  2:{ cbn [String.append str_mem]. rewrite Itoa_plain by (done || lia). done. }
  change (":" +:+ Itoa n +:+ crlf) with (String ":" "" +:+ Itoa n +:+ crlf). rewrite header_trimmed by (done || lia). cbn [HasPrefix]. rewrite bool_decide_eq_true_2 by done.
  cbn [andb negb reject mbind res_bind Sscanf]. rewrite Ascii.eqb_refl. by rewrite scan_int_Itoa.
Qed.

(** ** The operations against a server

    The documented effect of GET, SET, DEL, INCR and EXPIRE on a map of values
    with an optional expiry, for a command that decodes to them; a server that
    cannot be dialled is not asked. *)

Abbreviation entries := (gmap string (string * option Time)).

Definition live (now : Time) (m : entries) (k : string) : option string :=
  match m !! k with
  | Some (v, Some until) => if now <? until then Some v else None
  | Some (v, None) => Some v
  | None => None
  end.

Class RespServerLaws (S : Type) `{RespServer S} := {
  entries_of : S → entries;
  exec_get : ∀ s now c k, decode_command c = Some (["GET"; k], "") →
    entries_of (srv_exec s now c).1 = entries_of s ∧
    (srv_exec s now c).2 = [match live now (entries_of s) k with Some v => bulk v | None => "$-1" +:+ crlf end];
  exec_set : ∀ s now c k v, decode_command c = Some (["SET"; k; v], "") →
    entries_of (srv_exec s now c).1 = <[k := (v, None)]> (entries_of s) ∧ srv_dial (srv_exec s now c).1 = srv_dial s;
  (** An expiry that is not positive is an error. *)
  exec_set_ex : ∀ s now c k v n, 0 ≤ n < 2 ^ 63 → decode_command c = Some (["SET"; k; v; "EX"; Itoa n], "") →
    entries_of (srv_exec s now c).1 = (if 0 <? n then <[k := (v, Some (now + n * Second))]> (entries_of s) else entries_of s) ∧
    srv_dial (srv_exec s now c).1 = srv_dial s;
  exec_del : ∀ s now c k, decode_command c = Some (["DEL"; k], "") →
    entries_of (srv_exec s now c).1 = delete k (entries_of s) ∧ srv_dial (srv_exec s now c).1 = srv_dial s;
}.

Section laws.
Context {S : Type} {server : RespServer S} {laws : RespServerLaws S}.

Lemma command_whole parts : Z.of_nat (length parts) < 2 ^ 63 → Forall (λ p, Z.of_nat (String.length p) < 2 ^ 63) parts →
  decode_command (writeCommand parts) = Some (parts, "").
Proof. intros H1 H2. rewrite <-(str_app_empty_r (writeCommand parts)). by apply command_decodes. Qed.

Definition fits (s : string) : Prop := Z.of_nat (String.length s) < 2 ^ 63.

(** A read gives what the server holds, but for the empty value. *)
Lemma Resp_Get_spec s now k : srv_dial s = true → fits k → (∀ v, live now (entries_of s) k = Some v → fits v) →
  Resp_Get s now k = match live now (entries_of s) k with Some v => if v =s "" then None else Some (bytes_of v) | None => None end.
Proof.
  intros Hd Hk Hf. unfold Resp_Get. rewrite Hd. destruct (exec_get s now _ k (command_whole ["GET"; k] ltac:(cbn; lia) ltac:(by repeat constructor))) as [_ ->].
  destruct (live now (entries_of s) k) as [v|]; [|done]. destruct (bool_decide_reflect (v = "")) as [->|Hv]; [done|].
  assert (E := bulk_reply_read v "" [] Hv (Hf v eq_refl)). rewrite str_app_empty_r in E. by rewrite E.
Qed.

Lemma fits_Itoa n : fits (Itoa n).
Proof.
  assert (Hd : ∀ fuel n rest, (String.length (digits fuel n rest) ≤ fuel + String.length rest)%nat).
  { intros fuel. induction fuel as [|fuel IH]; intros m rest; [done|]. cbn [digits]. destruct (m <? 10); [cbn; lia|]. etrans; [apply IH|]. cbn. lia. }
  unfold fits, Itoa. destruct (n <? 0).
  - assert (H := Hd 20%nat (- n) ""). rewrite str_app_length. cbn [String.length] in *. lia.
  - assert (H := Hd 20%nat n ""). cbn [String.length] in *. lia.
Qed.

(** A value that is not empty, stored for a second or more or for ever, is read
    back until the whole seconds of its time to live have passed, and not after;
    no other key changes. *)
Theorem resp_set_get s now k v ttl : srv_dial s = true → fits k → fits v → v ≠ "" → ttl ≤ 0 ∨ Second ≤ ttl < 2 ^ 63 →
  let s' := Resp_Set s now k (bytes_of v) ttl in
  (∀ now', Resp_Get s' now' k = if (ttl <=? 0) || (now' <? now + whole_seconds ttl * Second) then Some (bytes_of v) else None) ∧
  (∀ k' now', k' ≠ k → live now' (entries_of s') k' = live now' (entries_of s) k').
Proof.
  intros Hd Hk Hfv Hv Httl. cbv zeta. unfold Resp_Set. rewrite Hd, string_of_bytes.
  destruct (Z.ltb_spec 0 ttl) as [Hpos|Hneg].
  - assert (Hw : 0 < whole_seconds ttl < 2 ^ 63).
    { unfold whole_seconds. split; [apply Z.lt_le_trans with (Z.quot Second Second); [done|apply Z.quot_le_mono; [done|lia]]|].
      rewrite Z.quot_div_nonneg by (done || lia). apply Z.div_lt_upper_bound; [done|]. unfold Second. lia. }
    destruct (exec_set_ex s now _ k v (whole_seconds ttl) ltac:(lia) (command_whole ["SET"; k; v; "EX"; Itoa (whole_seconds ttl)] ltac:(cbn; lia)
      ltac:(repeat constructor; by apply fits_Itoa || done))) as [He Hd'].
    rewrite (proj2 (Z.ltb_lt _ _) (proj1 Hw)) in He. split; [|intros k' now' Hne; unfold live; by rewrite He, lookup_insert_ne].
    intros now'. rewrite Resp_Get_spec; [|by rewrite Hd'|done|].
    + rewrite (proj2 (Z.leb_gt ttl 0)) by lia. unfold live. rewrite He, lookup_insert_eq. cbn [orb]. destruct (now' <? _); [by rewrite bool_decide_eq_false_2|done].
    + unfold live. rewrite He, lookup_insert_eq. intros w. by destruct (now' <? _); [intros [= <-]|].
  - destruct (exec_set s now _ k v (command_whole ["SET"; k; v] ltac:(cbn; lia) ltac:(by repeat constructor))) as [He Hd'].
    split; [|intros k' now' Hne; unfold live; by rewrite He, lookup_insert_ne].
    intros now'. rewrite Resp_Get_spec; [|by rewrite Hd'|done|]; unfold live; rewrite He, lookup_insert_eq; [|by intros w [= <-]].
    rewrite (proj2 (Z.leb_le ttl 0)) by lia. by rewrite bool_decide_eq_false_2.
Qed.

(** A time to live under a second is sent as zero seconds, which the server
    refuses: the value is not stored. *)
Theorem resp_short_ttl_dropped s now k v ttl : srv_dial s = true → fits k → fits (string_of v) → 0 < ttl < Second →
  entries_of (Resp_Set s now k v ttl) = entries_of s.
Proof.
  intros Hd Hk Hv Httl. unfold Resp_Set. rewrite Hd, (proj2 (Z.ltb_lt 0 ttl)) by lia.
  assert (Hz : whole_seconds ttl = 0) by (unfold whole_seconds; by apply Z.quot_small; lia).
  destruct (exec_set_ex s now _ k (string_of v) (whole_seconds ttl) ltac:(lia) (command_whole ["SET"; k; string_of v; "EX"; Itoa (whole_seconds ttl)] ltac:(cbn; lia)
    ltac:(repeat constructor; by apply fits_Itoa || done))) as [-> _].
  by rewrite Hz.
Qed.
End laws.

(** ** Counters

    The documented effect of INCR and EXPIRE, for a server that may lose the
    connection before or after it ran a command: a reply that does not come is the
    end of the stream. INCR keeps the expiry of its key; a value that is no number,
    or too great, is an error. *)

Definition incremented (now : Time) (m : entries) (k : string) : option (Z * option Time) :=
  match m !! k with
  | Some (v, u) => if expired now u then Some (1, None) else n ← Atoi v; if n <? 2 ^ 63 - 1 then Some (n + 1, u) else None
  | None => Some (1, None)
  end.
Definition expire_at (m : entries) (k : string) (u : Time) : entries := alter (λ x, (x.1, Some u)) k m.

Class RespCounterLaws (S : Type) `{RespServer S} := {
  held : S → entries;
  exec_incr : ∀ s now c k, decode_command c = Some (["INCR"; k], "") →
    let '(s', r) := srv_exec s now c in
    (∃ n u, incremented now (held s) k = Some (n, u) ∧ held s' = <[k := (Itoa n, u)]> (held s) ∧ (r = [":" +:+ Itoa n +:+ crlf] ∨ r = [])) ∨
    held s' = held s ∧ (r = [] ∨ ∃ e, r = ["-" +:+ e]);
  exec_expire : ∀ s now c k n, 0 < n < 2 ^ 63 → decode_command c = Some (["EXPIRE"; k; Itoa n], "") →
    held (srv_exec s now c).1 = held s ∨ held (srv_exec s now c).1 = expire_at (held s) k (now + n * Second);
}.

(** [respClient] as a store; the time of a deletion does not matter. *)
#[global] Instance respClient {S} `{RespServer S} : CacheStore S := {|
  cs_Get := Resp_Get; cs_Set := Resp_Set; cs_Delete := λ s, Resp_Delete s 0; cs_Incr := Some Resp_Incr
|}.

Lemma TrimSpace_head c s : IsSpace c = false → ∃ t, TrimSpace (String c s) = String c t.
Proof. intros Hc. unfold TrimSpace. cbn [TrimLeft]. rewrite Hc. cbn [TrimRight]. rewrite Hc. destruct (TrimRight s); eauto. Qed.

Lemma error_reply_read e : ∃ x, readInteger ["-" +:+ e] = Err x.
Proof.
  unfold readInteger. cbn [ReadString String.append]. destruct (IndexByte _ _) as [i|]; [|eauto]. cbn [str_take].
  destruct (TrimSpace_head "-" (str_take i e) eq_refl) as [t ->]. cbn. eauto.
Qed.

Section counters.
Context {S : Type} {server : RespServer S} {counter_laws : RespCounterLaws S}.

Definition counts_of (m : entries) : counts := λ k, '(v, u) ← m !! k; n ← Atoi v; Some (n, u).

Lemma counts_insert m k n u : 0 ≤ n < 2 ^ 63 → counts_of (<[k := (Itoa n, u)]> m) k = Some (n, u).
Proof. intros Hn. unfold counts_of. rewrite lookup_insert_eq. cbn. by rewrite Atoi_Itoa by lia. Qed.

Lemma counts_expire m k u : counts_of (expire_at m k u) k = (λ x, (x.1, Some u)) <$> counts_of m k.
Proof. unfold counts_of, expire_at. rewrite lookup_alter_eq. destruct (m !! k) as [[v w]|]; [cbn; by destruct (Atoi v)|done]. Qed.

(** No other key changes. *)
Lemma counts_insert_ne m k v k' : k' ≠ k → counts_of (<[k := v]> m) k' = counts_of m k'.
Proof. intros Hk. unfold counts_of. by rewrite lookup_insert_ne. Qed.
Lemma counts_expire_ne m k u k' : k' ≠ k → counts_of (expire_at m k u) k' = counts_of m k'.
Proof. intros Hk. unfold counts_of, expire_at. by rewrite lookup_alter_ne. Qed.

Lemma incremented_prior now m k n u : incremented now m k = Some (n, u) → prior (counts_of m) now k = (n - 1, u).
Proof.
  unfold incremented, prior, counts_of. destruct (m !! k) as [[v w]|]; [|by intros [= <- <-]]. cbn. destruct (expired now w) eqn:Ex.
  - intros [= <- <-]. destruct (Atoi v); cbn; [by rewrite Ex|done].
  - destruct (Atoi v) as [z|]; cbn; [|done]. rewrite Ex. destruct (z <? _); [|done]. intros [= <- <-]. f_equal. lia.
Qed.

(** What the increment leaves, before and after its expiry is asked for. *)
Lemma incr_counted now m k n u ttl m' : incremented now m k = Some (n, u) → 0 < n < 2 ^ 63 →
  m' = <[k := (Itoa n, u)]> m ∨ m' = expire_at (<[k := (Itoa n, u)]> m) k (now + whole_seconds ttl * Second) →
  counted_once (counts_of m) (counts_of m') now k ttl.
Proof.
  intros Hi%incremented_prior Hn Hm. unfold counted_once. rewrite Hi. cbn [fst snd].
  assert (E1 := counts_insert m k n u ltac:(lia)). destruct Hm as [->| ->].
  - exists u. rewrite E1. split; [do 2 f_equal; lia|auto].
  - exists (Some (now + whole_seconds ttl * Second)). rewrite counts_expire, E1. cbn. split; [do 2 f_equal; lia|auto].
Qed.

Lemma whole_seconds_bounds ttl : Second ≤ ttl < 2 ^ 63 → 0 < whole_seconds ttl < 2 ^ 63.
Proof.
  intros Ht. unfold whole_seconds. split; [apply Z.lt_le_trans with (Z.quot Second Second); [done|apply Z.quot_le_mono; [done|lia]]|].
  rewrite Z.quot_div_nonneg by (unfold Second in *; lia). apply Z.div_lt_upper_bound; [done|]. unfold Second in *. lia.
Qed.

(** The state an increment leaves, and its answer. *)
Lemma Resp_Incr_cases s now k ttl : Z.of_nat (String.length k) < 2 ^ 63 → Second ≤ ttl < 2 ^ 63 →
  let '(s', x) := Resp_Incr s now k ttl in
  (∃ n u, incremented now (held s) k = Some (n, u) ∧ (x = readInteger [":" +:+ Itoa n +:+ crlf] ∨ ∃ e, x = Err e) ∧
    (held s' = <[k := (Itoa n, u)]> (held s) ∨ held s' = expire_at (<[k := (Itoa n, u)]> (held s)) k (now + whole_seconds ttl * Second))) ∨
  held s' = held s ∧ ∃ e, x = Err e.
Proof.
  intros Hk Ht. unfold Resp_Incr. destruct (srv_dial s); [|eauto].
  assert (Hi := exec_incr s now _ k (command_whole ["INCR"; k] ltac:(cbn; lia) ltac:(by repeat constructor))).
  destruct (srv_exec s now (writeCommand ["INCR"; k])) as [s1 r].
  destruct Hi as [(n & u & Hi & Hs & Hr)|[Hs Hr]].
  - destruct Hr as [->| ->]; [|cbn; left; exists n, u; eauto 10]. destruct (readInteger _) as [z|e] eqn:Er; left; exists n, u; [|eauto 10].
    rewrite (proj2 (Z.ltb_lt 0 ttl)) by (unfold Second in *; lia).
    split; [done|]. split; [auto|]. rewrite <-Hs. apply exec_expire; [by apply whole_seconds_bounds|].
    apply command_whole; [cbn; lia|repeat constructor; by apply fits_Itoa || done].
  - destruct Hr as [->|[e ->]]; [cbn; eauto|]. destruct (error_reply_read e) as [x ->]. eauto.
Qed.

Lemma Resp_Incr_counter s now k ttl : Z.of_nat (String.length k) < 2 ^ 63 → Second ≤ ttl < 2 ^ 63 →
  let c := counts_of (held s) in
  let '(s', x) := Resp_Incr s now k ttl in
  (∀ k', k' ≠ k → counts_of (held s') k' = c k') ∧
  (0 ≤ (prior c now k).1 < 2 ^ 63 - 1 →
   match x with
   | Ok n => n = (prior c now k).1 + 1 ∧ counted_once c (counts_of (held s')) now k ttl
   | Err _ => counted_once c (counts_of (held s')) now k ttl ∨ counts_of (held s') k = c k
   end).
Proof.
  intros Hk Ht. cbv zeta. assert (Hc := Resp_Incr_cases s now k ttl Hk Ht). destruct (Resp_Incr s now k ttl) as [s' x].
  destruct Hc as [(n & u & Hi & Hx & Hs)|[-> [e ->]]]; [|auto]. split.
  - intros k' Hne. by destruct Hs as [->| ->]; rewrite ?counts_expire_ne, ?counts_insert_ne.
  - pose proof (incremented_prior _ _ _ _ _ Hi) as Hn. rewrite Hn. cbn [fst]. intros Hp.
    assert (Hco := incr_counted now _ k n u ttl _ Hi ltac:(lia) Hs). destruct Hx as [->|[e ->]]; [|auto].
    rewrite integer_reply_read by lia. split; [lia|done].
Qed.

#[global, program] Instance resp_counter : RemoteCounter S := {| rc_counts s := counts_of (held s) |}.
Next Obligation. exists Resp_Incr. split; [done|]. apply Resp_Incr_counter. Qed.
End counters.

(** ** Examples *)

(** A server that runs the commands the client sends. *)
Definition toy_exec (m : entries) (now : Time) (c : string) : entries * reader :=
  match decode_command c with
  | Some (["GET"; k], "") => (m, [match live now m k with Some v => bulk v | None => "$-1" +:+ crlf end])
  | Some (["SET"; k; v], "") => (<[k := (v, None)]> m, ["+OK" +:+ crlf])
  | Some (["SET"; k; v; "EX"; n], "") =>
      match Atoi n with
      | Some n => if 0 <? n then (<[k := (v, Some (now + n * Second))]> m, ["+OK" +:+ crlf]) else (m, ["-ERR" +:+ crlf])
      | None => (m, ["-ERR" +:+ crlf])
      end
  | Some (["DEL"; k], "") => (delete k m, [":1" +:+ crlf])
  | _ => (m, ["-ERR" +:+ crlf])
  end.

#[local] Instance toy_resp_server : RespServer entries := {| srv_dial := λ _, true; srv_exec := toy_exec |}.
#[local] Instance toy_resp_laws : RespServerLaws entries.
Proof.
  refine {| entries_of := id |}; unfold srv_exec, toy_resp_server, toy_exec.
  - intros s now c k ->. done.
  - intros s now c k v ->. done.
  - intros s now c k v n Hn ->. cbn -[Atoi Itoa]. rewrite Atoi_Itoa by lia. by destruct (0 <? n).
  - intros s now c k ->. done.
Defined.

Lemma command_decodes_witness : decode_command (writeCommand ["SET"; "k" +:+ crlf; "v"] +:+ "rest") = Some (["SET"; "k" +:+ crlf; "v"], "rest").
Proof. apply (command_decodes ["SET"; "k" +:+ crlf; "v"] "rest"); [vm_compute; reflexivity|repeat constructor]. Defined.

Lemma bulk_reply_read_witness : readBulkString [bulk "hello"] = Some "hello".
Proof. apply (bulk_reply_read "hello" "" []); [discriminate|vm_compute; reflexivity]. Defined.

Lemma resp_set_get_witness : Resp_Get (Resp_Set (∅ : entries) 0 "k" (bytes_of "v") (90 * Second)) (80 * Second) "k" = Some (bytes_of "v").
Proof.
  apply (resp_set_get (laws := toy_resp_laws) (∅ : entries) 0 "k" "v" (90 * Second)); [vm_compute; reflexivity..|discriminate|]. right. vm_compute. split; [discriminate|reflexivity].
Defined.

Lemma resp_short_ttl_dropped_witness : Resp_Set (∅ : entries) 0 "k" (bytes_of "v") (500 * 1000000) = ∅.
Proof. apply (resp_short_ttl_dropped (laws := toy_resp_laws) (∅ : entries) 0 "k" (bytes_of "v") (500 * 1000000)); [vm_compute; reflexivity..|]. vm_compute. split; reflexivity. Defined.

(** A value that arrives in two parts is read as its first part and zero bytes:
    [Read] is called once. *)
Example short_read_corrupts : readBulkString ["$5" +:+ crlf +:+ "he"; "llo" +:+ crlf] = Some ("he" +:+ String (ascii_of_nat 0) (String (ascii_of_nat 0) (String (ascii_of_nat 0) ""))).
Proof. vm_compute. reflexivity. Qed.

(** An empty value is stored and read as missing. *)
Example empty_value_missed : Resp_Get (Resp_Set (∅ : entries) 0 "k" [] 0) 1 "k" = None.
Proof. vm_compute. reflexivity. Qed.

(** A server that loses the connection where its script says so. *)
Definition flaky : Type := entries * list bool.
Definition flaky_exec (s : flaky) (now : Time) (c : string) : flaky * reader :=
  let '(m, script) := s in
  match decode_command c with
  | Some (["INCR"; k], "") =>
      if head script is Some false then ((m, tail script), [])
      else match incremented now m k with
           | Some (n, u) => ((<[k := (Itoa n, u)]> m, tail script), [":" +:+ Itoa n +:+ crlf])
           | None => ((m, tail script), ["-" +:+ "ERR" +:+ crlf])
           end
  | Some (["EXPIRE"; k; n], "") =>
      match Atoi n with Some n => ((expire_at m k (now + n * Second), script), [":1" +:+ crlf]) | None => (s, ["-ERR" +:+ crlf]) end
  | _ => (s, [])
  end.
#[local] Instance flaky_server : RespServer flaky := {| srv_dial := λ _, true; srv_exec := flaky_exec |}.
#[local] Instance flaky_laws : RespCounterLaws flaky.
Proof.
  refine {| held := fst |}; unfold srv_exec, flaky_server, flaky_exec.
  - intros [m script] now c k ->. cbn [fst].
    destruct (head script) as [[]|]; [|by right; auto|]; (destruct (incremented now m k) as [[n u]|]; [left; by exists n, u; auto|right; split; [done|eauto]]).
  - intros [m script] now c k n Hn ->. cbn -[Atoi Itoa]. rewrite Atoi_Itoa by lia. auto.
Defined.

(** An increment that is lost is an error; the next one counts on. *)
Example lost_increment :
  let s : flaky := (∅, [true; false; true]) in
  let '(s, x) := Resp_Incr s 0 "k" Second in
  let '(s, y) := Resp_Incr s 0 "k" Second in
  let '(s, z) := Resp_Incr s 0 "k" Second in
  x = Ok 1 ∧ y = Err (Plain "EOF") ∧ z = Ok 2.
Proof. vm_compute. split_and!; reflexivity. Qed.
