(* ===== verification/RateLimit.v ===== *)
(** Limits on the rate of requests: the token buckets of one process
    (internal/api/middleware/ratelimit.go), the count of the cluster by minute
    (shared_ratelimit.go), and the throttles and guards around them
    (auth_throttle.go).

    A [float64] is Rocq's specification of binary floating point at 53 bits. The
    order in which Go iterates over the buckets when it evicts one is a
    parameter. A middleware answers whether the request is passed on. *)

From Stdlib Require Import SpecFloat.
From S2P Require Import Prelude.
From S2P Require Import GoLib.
From S2P Require Import Domain.
From S2P Require Import Lockout.
From S2P Require Import Cache.
From S2P Require Import Resp.

#[local] Open Scope Z_scope.

(** ** Floating point *)

Definition float64 : Type := spec_float.
Definition float_of (z : Z) : float64 := binary_normalize 53 1024 z 0 false.
Definition fadd (x y : float64) : float64 := SFadd 53 1024 x y.
Definition fsub (x y : float64) : float64 := SFsub 53 1024 x y.
Definition fmul (x y : float64) : float64 := SFmul 53 1024 x y.
Definition fdiv (x y : float64) : float64 := SFdiv 53 1024 x y.
Definition flt (x y : float64) : bool := SFltb x y.

(** ** ratelimit.go *)

Definition defaultMaxBuckets : Z := 10000.
Definition bucketIdleTTL : Duration := 10 * Minute.

Record bucket := mkBucket { bk_tokens : float64; bk_lastRefill : Time; bk_lastSeen : Time }.

Record RateLimiter := mkRateLimiter {
  rl_buckets : gmap string bucket;
  rl_limit : float64;
  rl_interval : Duration;
  rl_enabled : bool;
  rl_maxBuckets : Z;
}.

Definition NewRateLimiter (requestsPerMinute : Z) (enabled : bool) : RateLimiter :=
  let requestsPerMinute := if requestsPerMinute <=? 0 then 300 else requestsPerMinute in
  mkRateLimiter ∅ (float_of requestsPerMinute) Minute enabled defaultMaxBuckets.

Definition SetMaxBuckets (l : RateLimiter) (n : Z) : RateLimiter :=
  if n <=? 0 then l else mkRateLimiter (rl_buckets l) (rl_limit l) (rl_interval l) (rl_enabled l) n.

Definition set_buckets (l : RateLimiter) (m : gmap string bucket) : RateLimiter :=
  mkRateLimiter m (rl_limit l) (rl_interval l) (rl_enabled l) (rl_maxBuckets l).

Definition evictLocked (l : RateLimiter) (now : Time) : RateLimiter :=
  set_buckets l (filter (λ kb, bucketIdleTTL <? Sub now (bk_lastSeen kb.2) = false) (rl_buckets l)).

(** [min] of the source. *)
Definition fmin (a b : float64) : float64 := if flt a b then a else b.

Definition oldest_step (best : option (string * Time)) (kb : string * bucket) : option (string * Time) :=
  match best with
  | None => Some (kb.1, bk_lastSeen kb.2)
  | Some (_, t) => if Before (bk_lastSeen kb.2) t then Some (kb.1, bk_lastSeen kb.2) else best
  end.

Section limiter.
Context (order : gmap string bucket → list (string * bucket)).

(** An empty key is taken for none. *)
Definition evictOldestLocked (l : RateLimiter) : RateLimiter :=
  match foldl oldest_step None (order (rl_buckets l)) with
  | Some (k, _) => if k =s "" then l else set_buckets l (delete k (rl_buckets l))
  | None => l
  end.

Definition refilled (l : RateLimiter) (now : Time) (b : bucket) : bucket :=
  let elapsed := Sub now (bk_lastRefill b) in
  let tokens := if rl_interval l <=? elapsed then rl_limit l
                else fmin (rl_limit l) (fadd (bk_tokens b) (fmul (fdiv (float_of elapsed) (float_of (rl_interval l))) (rl_limit l))) in
  mkBucket tokens now now.

Definition allow (l : RateLimiter) (now : Time) (key : string) : RateLimiter * bool :=
  let l := evictLocked l now in
  match rl_buckets l !! key with
  | None =>
      let l := if rl_maxBuckets l <=? Z.of_nat (size (rl_buckets l)) then evictOldestLocked l else l in
      (set_buckets l (<[key := mkBucket (fsub (rl_limit l) (float_of 1)) now now]> (rl_buckets l)), true)
  | Some b =>
      let b := refilled l now b in
      if flt (bk_tokens b) (float_of 1) then (set_buckets l (<[key := b]> (rl_buckets l)), false)
      else (set_buckets l (<[key := mkBucket (fsub (bk_tokens b) (float_of 1)) now now]> (rl_buckets l)), true)
  end.

(** The key is the token of the principal, if there is one, else the address of
    the client. *)
Definition limit_key (clientIP : string) (tokenID : option string) : string :=
  match tokenID with Some t => if t =s "" then clientIP else t | None => clientIP end.

Definition RateLimiter_Middleware (l : RateLimiter) (now : Time) (clientIP : string) (tokenID : option string) : RateLimiter * bool :=
  if negb (rl_enabled l) then (l, true) else allow l now (limit_key clientIP tokenID).

Definition BucketCount (l : RateLimiter) : Z := Z.of_nat (size (rl_buckets l)).

(** ** auth_throttle.go *)

(** A throttle passes its request when there is no limiter. *)
Definition AuthLoginThrottle (l : option RateLimiter) (now : Time) (clientIP : string) (tokenID : option string) : option RateLimiter * bool :=
  match l with
  | None => (None, true)
  | Some l => let '(l, b) := RateLimiter_Middleware l now clientIP tokenID in (Some l, b)
  end.
Definition TokenCreateThrottle := AuthLoginThrottle.
End limiter.

(** [peers] is the number of certificates the client presented, none without TLS. *)
Definition ClientCertRequired (enabled : bool) (peers : option nat) : option string :=
  if negb enabled then None
  else match peers with Some (S _) => None | _ => Some "client certificate required" end.

(** The environment put into the request context. *)
Definition EnvironmentHeader (header : string) : option string :=
  let env := TrimSpace header in if env =s "" then None else Some env.

(** ** Dates *)

(** The civil date of a day, counted from the first of January of year 1, by its
    cycles of four hundred, one hundred, four and single years. *)
Definition is_leap (y : Z) : bool := ((y mod 4 =? 0) && negb (y mod 100 =? 0)) || (y mod 400 =? 0).
Definition year_day (days : Z) : Z * Z :=
  let n400 := days / 146097 in let d := days mod 146097 in
  let n100 := Z.min 3 (d / 36524) in let d := d - n100 * 36524 in
  let n4 := d / 1461 in let d := d mod 1461 in
  let n1 := Z.min 3 (d / 365) in
  (n400 * 400 + n100 * 100 + n4 * 4 + n1 + 1, d - n1 * 365).
Definition month_lengths (y : Z) : list Z := [31; if is_leap y then 29 else 28; 31; 30; 31; 30; 31; 31; 30; 31; 30; 31].
Fixpoint month_day (m : Z) (lengths : list Z) (d : Z) : Z * Z :=
  match lengths with
  | [] => (m, d + 1)
  | n :: lengths => if d <? n then (m, d + 1) else month_day (m + 1) lengths (d - n)
  end.

Fixpoint zeros (n : nat) : string := match n with O => "" | S n => String "0" (zeros n) end.
Definition padded (width : nat) (z : Z) : string := let s := Itoa z in zeros (width - String.length s) +:+ s.

(** [t.UTC().Format("200601021504")]. *)
Definition format_minute (t : Time) : string :=
  let minute := t / Minute in
  let '(y, d) := year_day (minute / 1440) in
  let '(m, d) := month_day 1 (month_lengths y) d in
  padded 4 y +:+ padded 2 m +:+ padded 2 d +:+ padded 2 (minute / 60 mod 24) +:+ padded 2 (minute mod 60).

(** ** shared_ratelimit.go *)

Record SharedRateLimiter (S : Type) := mkSharedRateLimiter {
  sr_local : RateLimiter;
  sr_store : option S;
  sr_limit : Z;
  sr_enabled : bool;
}.
Arguments mkSharedRateLimiter {S}.
Arguments sr_local {S}.
Arguments sr_store {S}.
Arguments sr_limit {S}.
Arguments sr_enabled {S}.

Definition ratelimit_prefix : string := "knxvault:ratelimit:".
Definition minute_key (now : Time) (key : string) : string := ratelimit_prefix +:+ format_minute now +:+ ":" +:+ key.

Section shared.
Context {S : Type} `{CacheStore S} (order : gmap string bucket → list (string * bucket)).
Implicit Type l : SharedRateLimiter S.

Definition NewSharedRateLimiter (rpm : Z) (enabled : bool) (store : option S) : SharedRateLimiter S :=
  mkSharedRateLimiter (NewRateLimiter rpm enabled) store rpm enabled.

(** The readings of the clock: for the minute, the increment, the read and the
    write of a store without increment. *)
Definition allowShared (limit : Z) (store : S) (clk : nat → Time) (key : string) : S * bool :=
  let ck := minute_key (clk 0%nat) key in
  let slow store :=
    let n := match cs_Get store (clk 2%nat) ck with Some raw => Atoi_value (string_of raw) | None => 0 end in
    let n := wrap64 (n + 1) in
    if limit <? n then (store, false) else (cs_Set store (clk 3%nat) ck (bytes_of (Itoa n)) (2 * Minute), true) in
  match cs_Incr with
  | Some incr => match incr store (clk 1%nat) ck (2 * Minute) with
                 | (store, Ok n) => (store, n <=? limit)
                 | (store, Err _) => slow store
                 end
  | None => slow store
  end.

Definition with_parts l (store : option S) (local : RateLimiter) : SharedRateLimiter S := mkSharedRateLimiter local store (sr_limit l) (sr_enabled l).

(** The local limiter is a second layer; it reads the clock last. *)
Definition Shared_Middleware l (clk : nat → Time) (clientIP : string) (tokenID : option string) : SharedRateLimiter S * bool :=
  if negb (sr_enabled l) then (l, true)
  else
    let key := limit_key clientIP tokenID in
    let local l := let '(r, b) := RateLimiter_Middleware order (sr_local l) (clk 4%nat) clientIP tokenID in (with_parts l (sr_store l) r, b) in
    match sr_store l with
    | None => local l
    | Some store =>
        let '(store, ok) := allowShared (sr_limit l) store clk key in
        let l := with_parts l (Some store) (sr_local l) in
        if ok then local l else (l, false)
    end.

Definition Local l : RateLimiter := sr_local l.
End shared.

Example format_examples :
  format_minute (unix_epoch + 1700000000 * Second) = "202311142213" ∧ format_minute (unix_epoch + 951827696 * Second) = "200002291234" ∧
  format_minute (unix_epoch + 4107542399 * Second) = "210002282359" ∧ format_minute 0 = "000101010000".
Proof. vm_compute. split_and!; reflexivity. Qed.

(** ** The shared limit

    Nodes with buckets and a local copy of the store of their own, and one server.
    Increments may fail, and the node then counts on its own. *)

Record limit_node := mkLimitNode { ln_fallback : MemoryStore; ln_local : RateLimiter }.
Record rate_request := mkRateRequest { rq_node : nat; rq_clk : nat → Time; rq_ip : string; rq_token : option string }.

Section shared_limit.
Context {R : Type} `{RemoteCounter R} (order : gmap string bucket → list (string * bucket)) (limit : Z).

Record limit_cluster := mkLimitCluster { lc_remote : R; lc_nodes : nat → limit_node }.

Definition limiter_of (c : limit_cluster) (i : nat) : SharedRateLimiter (ValkeyStore R) :=
  mkSharedRateLimiter (ln_local (lc_nodes c i)) (Some (mkValkey (Some (lc_remote c)) (ln_fallback (lc_nodes c i)))) limit true.

Definition put_limiter (c : limit_cluster) (i : nat) (l : SharedRateLimiter (ValkeyStore R)) : limit_cluster :=
  match sr_store l with
  | Some (mkValkey (Some r) m) => mkLimitCluster r (λ j, if Nat.eqb j i then mkLimitNode m (sr_local l) else lc_nodes c j)
  | _ => c
  end.

Definition limit_step (c : limit_cluster) (q : rate_request) : limit_cluster * bool :=
  let '(l, ok) := Shared_Middleware order (limiter_of c (rq_node q)) (rq_clk q) (rq_ip q) (rq_token q) in (put_limiter c (rq_node q) l, ok).

Definition request_key (q : rate_request) : string := minute_key (rq_clk q 0%nat) (limit_key (rq_ip q) (rq_token q)).
Definition counted_as (ck : string) (q : rate_request) : bool := request_key q =s ck.

(** Whether the server does not answer the increment of a request. *)
Definition unanswered (c : limit_cluster) (q : rate_request) : bool :=
  match cs_Incr with
  | Some incr => match (incr (lc_remote c) (rq_clk q 1%nat) (request_key q) (2 * Minute)).2 with Ok _ => false | Err _ => true end
  | None => true
  end.

(** Of the requests of a run counted under [ck]: how many were passed on, and the
    nodes on which an increment was not answered. *)
Fixpoint passed (ck : string) (c : limit_cluster) (qs : list rate_request) : Z :=
  match qs with
  | [] => 0
  | q :: qs => let '(c', ok) := limit_step c q in (if ok && counted_as ck q then 1 else 0) + passed ck c' qs
  end.
Fixpoint cut_off (ck : string) (c : limit_cluster) (qs : list rate_request) : gset nat :=
  match qs with
  | [] => ∅
  | q :: qs => (if counted_as ck q && unanswered c q then {[rq_node q]} else ∅) ∪ cut_off ck (limit_step c q).1 qs
  end.

(** A counter of the minute that starts at [t0], alive for its two minutes. *)
Definition local_counter (ck : string) (t0 : Time) (m : MemoryStore) (n : Z) : Prop :=
  n = 0 ∧ (m : gmap string entry) !! ck = None ∨
  ∃ until, 0 < n ∧ t0 + 2 * Minute ≤ until ∧ (m : gmap string entry) !! ck = Some (mkEntry (bytes_of (itoa n)) until).
Definition remote_counter (ck : string) (t0 : Time) (r : R) (n : Z) : Prop :=
  n = 0 ∧ rc_counts r ck = None ∨
  ∃ u, 0 < n ∧ match u with Some u => t0 + 2 * Minute ≤ u | None => True end ∧ rc_counts r ck = Some (n, u).

Lemma local_incr ck t0 m n now k : local_counter ck t0 m n → 0 ≤ n < 2 ^ 63 - 1 → (k = ck → t0 ≤ now < t0 + 2 * Minute) →
  ∃ m' x, Memory_Incr m now k (2 * Minute) = (m', Ok x) ∧ local_counter ck t0 m' (if k =s ck then n + 1 else n) ∧ (k = ck → x = n + 1).
Proof.
  intros Hc Hn Hk. unfold local_counter in *. case_bool_decide as E.
  - subst k. specialize (Hk eq_refl). eexists _, _. split; [|split].
    + unfold Memory_Incr. reflexivity.
    + right. exists (now + 2 * Minute). split_and!; [lia|lia|]. rewrite lookup_insert_eq. do 4 f_equal.
      destruct Hc as [[-> ->]|(until & Hpos & Hun & ->)]; [done|]. cbn [en_value en_until]. unfold Before. rewrite (proj2 (Z.ltb_lt _ _)) by lia.
      by rewrite parse_prior_itoa, wrap64_id by lia.
    + intros _. destruct Hc as [[-> ->]|(until & Hpos & Hun & ->)]; [done|]. cbn [en_value en_until]. unfold Before. rewrite (proj2 (Z.ltb_lt _ _)) by lia.
      by rewrite parse_prior_itoa, wrap64_id by lia.
  - eexists _, _. split; [unfold Memory_Incr; reflexivity|]. split; [|done]. by rewrite lookup_insert_ne by done.
Qed.

Lemma remote_incr ck t0 r n now k : remote_counter ck t0 r n → 0 ≤ n < 2 ^ 63 - 1 → (k = ck → t0 ≤ now < t0 + 2 * Minute) → Z.of_nat (String.length k) < 2 ^ 63 →
  ∃ incr, cs_Incr = Some incr ∧ let '(r', x) := incr r now k (2 * Minute) in
  (k ≠ ck → remote_counter ck t0 r' n) ∧
  (k = ck → match x with
            | Ok z => z = n + 1 ∧ remote_counter ck t0 r' (n + 1)
            | Err _ => remote_counter ck t0 r' (n + 1) ∨ remote_counter ck t0 r' n
            end).
Proof.
  intros Hc Hn Hk Hl. destruct rc_incr as (incr & Hi & Hlaw). exists incr. split; [done|].
  assert (Ht := Hlaw r now k (2 * Minute) Hl ltac:(by split)). destruct (incr r now k (2 * Minute)) as [r' x]. destruct Ht as [Hother Hsame].
  split; [intros Hne; unfold remote_counter in *; by rewrite Hother by done|]. intros ->. specialize (Hk eq_refl).
  assert (Hp : (prior (rc_counts r) now ck).1 = n ∧ match (prior (rc_counts r) now ck).2 with Some u => t0 + 2 * Minute ≤ u | None => True end).
  { unfold prior. destruct Hc as [[-> ->]|([u|] & _ & Hu & ->)]; [done| |done]. cbn [expired]. rewrite (proj2 (Z.leb_gt _ _)) by lia. done. }
  destruct Hp as [Hp Hu]. rewrite Hp in Hsame. specialize (Hsame Hn).
  assert (Hco : counted_once (rc_counts r) (rc_counts r') now ck (2 * Minute) → remote_counter ck t0 r' (n + 1)).
  { intros (u & E & Hor). rewrite Hp in E. right. exists u. split_and!; [lia| |done].
    destruct Hor as [->| ->]; [|done]. change (Z.quot (2 * Minute) Second * Second) with (2 * Minute). lia. }
  destruct x as [z|e]; [naive_solver|]. destruct Hsame as [Hs|Hs]; [auto|]. right. unfold remote_counter in *. by rewrite Hs.
Qed.

(** A request increments the counter of its node's store, and is passed on only
    when the count is within the limit. *)
Lemma limit_step_incr c q : let i := rq_node q in let '(c', ok) := limit_step c q in ∃ r' m' x,
  Valkey_Incr (mkValkey (Some (lc_remote c)) (ln_fallback (lc_nodes c i))) (rq_clk q 1%nat) (request_key q) (2 * Minute) = (mkValkey (Some r') m', Ok x) ∧
  lc_remote c' = r' ∧ (∀ j, ln_fallback (lc_nodes c' j) = if Nat.eqb j i then m' else ln_fallback (lc_nodes c j)) ∧ (ok = true → x ≤ limit).
Proof.
  cbv zeta. unfold limit_step, Shared_Middleware, limiter_of, allowShared. cbn [sr_enabled sr_store sr_limit sr_local negb cs_Incr valkey_store].
  fold (request_key q). set (v := mkValkey _ _).
  assert (Hv : ∃ r' m' x, Valkey_Incr v (rq_clk q 1%nat) (request_key q) (2 * Minute) = (mkValkey (Some r') m', Ok x)).
  { unfold Valkey_Incr, v. cbn [vk_remote vk_fallback]. destruct cs_Incr as [incr|]; [destruct (incr _ _ _ _) as [r' [z|e]]|]; unfold Memory_Incr; eauto. }
  destruct Hv as (r' & m' & x & E). rewrite E. destruct (x <=? limit) eqn:Ex.
  - destruct (RateLimiter_Middleware _ _ _ _ _) as [l b]. exists r', m', x. cbn. split_and!; [done|done|intros j; by destruct (Nat.eqb j _)|intros _; lia].
  - exists r', m', x. cbn. split_and!; [done|done|intros j; by destruct (Nat.eqb j _)|done].
Qed.

Definition limit_state (ck : string) (t0 : Time) (c : limit_cluster) (n : Z) (f : nat → Z) : Prop :=
  remote_counter ck t0 (lc_remote c) n ∧ ∀ i, local_counter ck t0 (ln_fallback (lc_nodes c i)) (f i).
Definition bump (f : nat → Z) (i : nat) : nat → Z := λ j, if Nat.eqb j i then f j + 1 else f j.

Lemma limit_step_state ck t0 c q n f : limit_state ck t0 c n f → 0 ≤ n < 2 ^ 63 - 1 → (∀ i, 0 ≤ f i < 2 ^ 63 - 1) →
  (counted_as ck q = true → t0 ≤ rq_clk q 1%nat < t0 + 2 * Minute) → Z.of_nat (String.length (request_key q)) < 2 ^ 63 →
  let '(c', ok) := limit_step c q in
  if counted_as ck q then
    if unanswered c q then ∃ n', n ≤ n' ≤ n + 1 ∧ limit_state ck t0 c' n' (bump f (rq_node q)) ∧ (ok = true → f (rq_node q) + 1 ≤ limit)
    else limit_state ck t0 c' (n + 1) f ∧ (ok = true → n + 1 ≤ limit)
  else limit_state ck t0 c' n f.
Proof.
  intros [Hr Hf] Hn Hfn Hclk Hlen. assert (Hs := limit_step_incr c q). destruct (limit_step c q) as [c' ok].
  destruct Hs as (r' & m' & x & E & Er & Em & Hok). unfold counted_as, unanswered in *.
  assert (Hw : request_key q = ck → t0 ≤ rq_clk q 1%nat < t0 + 2 * Minute) by (intros Ek; apply Hclk; by apply bool_decide_eq_true_2).
  destruct (remote_incr ck t0 (lc_remote c) n (rq_clk q 1%nat) (request_key q) Hr Hn Hw Hlen) as (incr & Hi & Hremote).
  destruct (local_incr ck t0 _ (f (rq_node q)) (rq_clk q 1%nat) (request_key q) (Hf (rq_node q)) (Hfn _) Hw) as (m1 & y & Ey & Hm1 & Hy).
  unfold Valkey_Incr in E. cbn [vk_remote vk_fallback] in E. rewrite Hi in E |- *.
  destruct (incr (lc_remote c) (rq_clk q 1%nat) (request_key q) (2 * Minute)) as [r1 z]. destruct Hremote as [Hne Heq]. cbn [snd].
  assert (Hlocals : ∀ g, (∀ j, g j = if Nat.eqb j (rq_node q) then g (rq_node q) else f j) → local_counter ck t0 m' (g (rq_node q)) →
    ∀ j, local_counter ck t0 (ln_fallback (lc_nodes c' j)) (g j)).
  { intros g Hg Hm j. rewrite Em, Hg. destruct (Nat.eqb j (rq_node q)); [done|apply Hf]. }
  destruct z as [z|e]; [injection E as <- <- <-|rewrite Ey in E; injection E as <- <- <-].
  - assert (Hsame : ∀ j, local_counter ck t0 (ln_fallback (lc_nodes c' j)) (f j)).
    { apply (Hlocals f); [|apply Hf]. intros j. by destruct (Nat.eqb_spec j (rq_node q)) as [->|]. }
    case_bool_decide as Ek; unfold limit_state; rewrite Er; [|auto]. destruct (Heq Ek) as [-> Hc]. auto.
  - case_bool_decide as Ek; unfold limit_state; rewrite Er.
    + rewrite (Hy Ek) in Hok. assert (Hb : ∀ j, local_counter ck t0 (ln_fallback (lc_nodes c' j)) (bump f (rq_node q) j)).
      { apply Hlocals; unfold bump; [|by rewrite Nat.eqb_refl]. intros j. rewrite Nat.eqb_refl. by destruct (Nat.eqb_spec j (rq_node q)) as [->|]. }
      destruct (Heq Ek) as [Hc|Hc]; [exists (n + 1)|exists n]; (split; [lia|auto]).
    + split; [auto|]. apply (Hlocals f); [|done]. intros j. by destruct (Nat.eqb_spec j (rq_node q)) as [->|].
Qed.

(** What the counters of some nodes still let pass. *)
Definition room (f : nat → Z) (X : gset nat) : Z := set_fold (λ i z, Z.max 0 (limit - f i) + z) 0 X.

Lemma room_insert f i X : i ∉ X → room f ({[i]} ∪ X) = Z.max 0 (limit - f i) + room f X.
Proof.
  intros Hi. unfold room. rewrite (set_fold_disj_union_strong (=)); [|intros x y z; by intros ->|intros x y z _ _ _; lia|set_solver].
  rewrite set_fold_singleton. apply (set_fold_comm_acc _ (λ z, Z.max 0 (limit - f i) + z)). intros. lia.
Qed.

Lemma room_le f g X : (∀ i, i ∈ X → g i ≤ f i) → room f X ≤ room g X.
Proof.
  induction X as [|i X Hi IH] using set_ind_L; [done|]. intros Hg. rewrite !room_insert by done.
  specialize (Hg i ltac:(set_solver)) as Hgi. specialize (IH ltac:(set_solver)). lia.
Qed.

Lemma room_size f X : (∀ i, 0 ≤ f i) → room f X ≤ Z.of_nat (size X) * Z.max 0 limit.
Proof.
  intros Hf. induction X as [|i X Hi IH] using set_ind_L; [done|]. rewrite room_insert, size_union, size_singleton by (done || set_solver).
  specialize (Hf i). lia.
Qed.
(** One count more on a node that is cut off: what it lets pass was room it had. *)
Lemma room_bump f i X (b : bool) : (b = true → f i + 1 ≤ limit) → (if b then 1 else 0) + room (bump f i) X ≤ room f ({[i]} ∪ X).
Proof.
  intros Hb. assert (Hsplit : ∀ g, room g ({[i]} ∪ X) = Z.max 0 (limit - g i) + room g (X ∖ {[i]})).
  { intros g. rewrite <-room_insert by set_solver. f_equal. apply leibniz_equiv. intros j. destruct (decide (j = i)); set_solver. }
  assert (Hrest : room (bump f i) (X ∖ {[i]}) ≤ room f (X ∖ {[i]})).
  { apply room_le. intros j Hj. unfold bump. destruct (Nat.eqb_spec j i); [set_solver|lia]. }
  rewrite Hsplit. destruct (decide (i ∈ X)) as [Hi|Hi].
  - assert (HX : {[i]} ∪ X = X) by set_solver. specialize (Hsplit (bump f i)). rewrite HX in Hsplit. rewrite Hsplit.
    unfold bump at 1. rewrite Nat.eqb_refl. destruct b; [specialize (Hb eq_refl)|]; lia.
  - assert (X ∖ {[i]} = X) as -> by set_solver. assert (Hle : room (bump f i) X ≤ room f X).
    { apply room_le. intros j Hj. unfold bump. destruct (Nat.eqb j i); lia. }
    destruct b; [specialize (Hb eq_refl)|]; lia.
Qed.

Lemma passed_bound ck t0 qs : ∀ c n f, limit_state ck t0 c n f → 0 ≤ n → n + Z.of_nat (length qs) < 2 ^ 63 - 1 →
  (∀ i, 0 ≤ f i ∧ f i + Z.of_nat (length qs) < 2 ^ 63 - 1) →
  Forall (λ q, (counted_as ck q = true → t0 ≤ rq_clk q 1%nat < t0 + 2 * Minute) ∧ Z.of_nat (String.length (request_key q)) < 2 ^ 63) qs →
  passed ck c qs ≤ Z.max 0 (limit - n) + room f (cut_off ck c qs).
Proof.
  induction qs as [|q qs IH]; intros c n f Hst Hn Hlen Hf Hqs; [cbn; unfold room; rewrite set_fold_empty; lia|].
  apply Forall_cons in Hqs as [[Hclk Hfit] Hqs]. cbn [passed cut_off length] in *.
  assert (Hs := limit_step_state ck t0 c q n f Hst ltac:(lia) ltac:(intros i; specialize (Hf i); lia) Hclk Hfit).
  destruct (limit_step c q) as [c' ok]. cbn [fst]. destruct (counted_as ck q); cbn [andb]; rewrite ?andb_true_r, ?andb_false_r.
  - destruct (unanswered c q).
    + destruct Hs as (n' & Hn' & Hst' & Hok).
      specialize (IH c' n' (bump f (rq_node q)) Hst' ltac:(lia) ltac:(lia) ltac:(intros i; specialize (Hf i); unfold bump; destruct (Nat.eqb i _); lia) Hqs).
      assert (Hb := room_bump f (rq_node q) (cut_off ck c' qs) ok Hok). lia.
    + destruct Hs as [Hst' Hok]. specialize (IH c' (n + 1) f Hst' ltac:(lia) ltac:(lia) ltac:(intros i; specialize (Hf i); lia) Hqs). rewrite (left_id_L ∅ (∪)).
      destruct ok; [specialize (Hok eq_refl)|]; lia.
  - specialize (IH c' n f Hs ltac:(lia) ltac:(lia) ltac:(intros i; specialize (Hf i); lia) Hqs). rewrite (left_id_L ∅ (∪)). lia.
Qed.

(** C33. The shared limit holds, and degrades gracefully. Nodes limit requests against one
    server; an increment may fail, before or after the server counted it, and the
    node then counts in its own memory. Of the requests counted under one key of
    one minute, on whichever nodes and in whatever order with others they arrive,
    no more than the limit are passed on while the server answers, and no more than
    once the limit again for each node on which one of these increments was not
    answered. Assumed: no counter of that key at the start, each of these requests is
    counted within two minutes of the first, fewer than 2^63 - 1 requests, keys
    shorter than 2^63 bytes, and a server that increments atomically and keeps
    counters until they expire ([RemoteCounter], which [respClient] meets). *)
Theorem minute_limit_holds c ck t0 qs :
  rc_counts (lc_remote c) ck = None → (∀ i, (ln_fallback (lc_nodes c i) : gmap string entry) !! ck = None) → Z.of_nat (length qs) < 2 ^ 63 - 1 →
  Forall (λ q, (counted_as ck q = true → t0 ≤ rq_clk q 1%nat < t0 + 2 * Minute) ∧ Z.of_nat (String.length (request_key q)) < 2 ^ 63) qs →
  passed ck c qs ≤ (1 + Z.of_nat (size (cut_off ck c qs))) * Z.max 0 limit.
Proof.
  intros Hr Hl Hlen Hqs. assert (Hst : limit_state ck t0 c 0 (λ _, 0)) by (split; [|intros i]; left; auto).
  assert (Hp := passed_bound ck t0 qs c 0 (λ _, 0) Hst ltac:(lia) ltac:(lia) ltac:(intros i; lia) Hqs).
  assert (Hs := room_size (λ _, 0) (cut_off ck c qs) ltac:(done)). lia.
Qed.
End shared_limit.

(** ** The buckets *)

Section buckets.
Context (order : gmap string bucket → list (string * bucket)).
Hypothesis Horder : ∀ m, order m ≡ₚ map_to_list m.

Lemma oldest_in kbs best k t : foldl oldest_step best kbs = Some (k, t) → best = Some (k, t) ∨ k ∈ (fst <$> kbs).
Proof.
  revert best. induction kbs as [|kb kbs IH]; intros best; [auto|]. cbn. intros [Hb|Hin]%IH; [|right; by right].
  destruct best as [[k' t']|]; cbn in Hb; [case_match|]; simplify_eq; [right; by left|auto|right; by left].
Qed.

Lemma oldest_some kbs : kbs ≠ [] → is_Some (foldl oldest_step None kbs).
Proof.
  assert (Hg : ∀ kbs best, is_Some best → is_Some (foldl oldest_step best kbs)).
  { clear kbs. induction kbs as [|kb kbs IH]; intros best Hb; [done|]. cbn. apply IH. destruct Hb as [[k t] ->]. cbn. case_match; eauto. }
  destruct kbs as [|kb kbs]; [done|]. intros _. cbn. apply Hg. eauto.
Qed.

(** Full buckets make room for one, unless the oldest has an empty key. *)
Lemma evictOldestLocked_size l : rl_buckets l !! "" = None → rl_buckets l ≠ ∅ → size (rl_buckets (evictOldestLocked order l)) = (size (rl_buckets l) - 1)%nat.
Proof.
  intros He Hne. unfold evictOldestLocked.
  destruct (oldest_some (order (rl_buckets l))) as [[k t] E]; [intros E; apply Hne; assert (Hp := Horder (rl_buckets l)); rewrite E in Hp; apply Permutation_nil, map_to_list_empty_iff in Hp; done|].
  rewrite E. apply oldest_in in E as [|Hin]; [done|]. rewrite Horder in Hin. apply list_elem_of_fmap in Hin as ([k' b] & Ek & Hin).
  apply elem_of_map_to_list in Hin. cbn in Ek. subst k'. rewrite bool_decide_eq_false_2 by (intros ->; congruence). cbn [set_buckets rl_buckets]. rewrite map_size_delete, Hin. cbn. lia.
Qed.

Definition bucket_run (l : RateLimiter) (rs : list (Time * string)) : RateLimiter := foldl (λ l r, (allow order l r.1 r.2).1) l rs.

Lemma allow_bounded l now key : key ≠ "" → 0 < rl_maxBuckets l → rl_buckets l !! "" = None ∧ BucketCount l ≤ rl_maxBuckets l →
  let l' := (allow order l now key).1 in rl_maxBuckets l' = rl_maxBuckets l ∧ rl_buckets l' !! "" = None ∧ BucketCount l' ≤ rl_maxBuckets l'.
Proof.
  intros Hk Hpos [He Hb]. unfold allow. set (l1 := evictLocked l now).
  assert (He1 : rl_buckets l1 !! "" = None) by (apply map_lookup_filter_None; auto).
  assert (Hb1 : BucketCount l1 ≤ rl_maxBuckets l1).
  { unfold BucketCount in *. cbn. assert (Hs := map_filter_subseteq (λ kb : string * bucket, (bucketIdleTTL <? Sub now (bk_lastSeen kb.2)) = false) (rl_buckets l)).
    apply map_subseteq_size in Hs. lia. }
  change (rl_maxBuckets l) with (rl_maxBuckets l1) in *. clearbody l1. clear He Hb. destruct (rl_buckets l1 !! key) as [b|] eqn:Ek; cbv zeta.
  - destruct (flt _ _); cbn [fst]; unfold BucketCount, set_buckets in *; cbn; rewrite lookup_insert_ne, map_size_insert, Ek by done; split_and!; try done.
  - cbn [fst]. destruct (rl_maxBuckets l1 <=? Z.of_nat (size (rl_buckets l1))) eqn:Em.
    + apply Z.leb_le in Em. assert (Hne : rl_buckets l1 ≠ ∅) by (intros E; rewrite E, map_size_empty in Em; lia).
      assert (Hsz := evictOldestLocked_size l1 He1 Hne).
      assert (Hs2 : rl_maxBuckets (evictOldestLocked order l1) = rl_maxBuckets l1 ∧ rl_buckets (evictOldestLocked order l1) !! "" = None ∧ rl_buckets (evictOldestLocked order l1) !! key = None).
      { unfold evictOldestLocked. destruct (foldl _ _ _) as [[k t]|]; [|done]. case_bool_decide; [done|]. cbn. rewrite !lookup_delete_None. auto. }
      destruct Hs2 as (Hmax & He2 & Hk2). unfold BucketCount in *. cbn. rewrite lookup_insert_ne, map_size_insert, Hk2, Hmax, Hsz by done. split_and!; [done|done|].
      assert (size (rl_buckets l1) ≠ 0%nat) by (by apply map_size_non_empty_iff). cbn. lia.
    + apply Z.leb_gt in Em. unfold BucketCount in *. cbn. rewrite lookup_insert_ne, map_size_insert, Ek by done. split_and!; [done|done|cbn; lia].
Qed.

(** The memory of the limiter is bounded: whatever keys are limited, none of them
    empty, it never keeps more buckets than its maximum. *)
Theorem buckets_bounded rpm enabled rs :
  Forall (λ r, r.2 ≠ "") rs → BucketCount (bucket_run (NewRateLimiter rpm enabled) rs) ≤ defaultMaxBuckets.
Proof.
  intros Hrs. assert (Hg : ∀ l, 0 < rl_maxBuckets l → rl_buckets l !! "" = None ∧ BucketCount l ≤ rl_maxBuckets l →
    BucketCount (bucket_run l rs) ≤ rl_maxBuckets l).
  { induction Hrs as [|[now key] rs Hk _ IH]; intros l Hpos Hl; [apply Hl|]. cbn in *. destruct (allow_bounded l now key Hk Hpos Hl) as (E & Hl').
    rewrite <-E. apply IH; [by rewrite E|]. done. }
  apply (Hg (NewRateLimiter rpm enabled)); [done|]. split; [done|]. cbn. unfold BucketCount. cbn. rewrite map_size_empty. done.
Qed.
End buckets.

(** ** Examples *)

Definition at_second (s : Z) : Time := unix_epoch + s * Second.
Definition request_at (node : nat) (s : Z) (ip : string) : rate_request := mkRateRequest node (λ _, at_second s) ip None.
(** Two nodes and a server that loses the third and the fifth increment. *)
#[local] Existing Instance flaky_server.
#[local] Existing Instance flaky_laws.
Definition two_nodes (script : list bool) : limit_cluster (R:=flaky) := mkLimitCluster (∅, script) (λ _, mkLimitNode NewMemoryStore (NewRateLimiter 3 true)).
Definition burst : list rate_request :=
  [request_at 0 0 "a"; request_at 1 1 "b"; request_at 1 2 "a"; request_at 0 30 "a"; request_at 1 40 "a"; request_at 1 50 "a"; request_at 0 59 "a"; request_at 0 60 "a"].

Lemma minute_limit_holds_witness : passed map_to_list 3 (minute_key (at_second 0) "a") (two_nodes [true; true; false; true; false]) burst ≤ 6.
Proof.
  etransitivity; [apply (minute_limit_holds (H0:=resp_counter) map_to_list 3 (two_nodes [true; true; false; true; false]) (minute_key (at_second 0) "a") (at_second 0) burst)|].
  - vm_compute. reflexivity.
  - intros i. vm_compute. reflexivity.
  - vm_compute. reflexivity.
  - repeat constructor; try (intros E; vm_compute in E; first [discriminate E|split; [vm_compute; discriminate|vm_compute; reflexivity]]); vm_compute; reflexivity.
  - vm_compute. discriminate.
Defined.

(** The limit is reached while the server answers, and exceeded by the node that
    is cut off; the next minute starts afresh. *)
Example minute_limit_tight :
  let ck := minute_key (at_second 0) "a" in
  passed map_to_list 3 ck (two_nodes []) burst = 3 ∧ cut_off map_to_list 3 ck (two_nodes []) burst = ∅ ∧
  passed map_to_list 3 ck (two_nodes [true; true; false; true; false]) burst = 5 ∧
  passed map_to_list 3 (minute_key (at_second 60) "a") (two_nodes []) burst = 1.
Proof. vm_compute. split_and!; reflexivity. Qed.

Lemma buckets_bounded_witness : BucketCount (bucket_run map_to_list (NewRateLimiter 300 true) [(at_second 0, "a"); (at_second 1, "b")]) ≤ 10000.
Proof. apply (buckets_bounded map_to_list (λ m, Permutation_refl (map_to_list m)) 300 true); repeat constructor; discriminate. Defined.

(** A bucket of ten lets ten requests of one instant pass, then one after six
    seconds more. *)
Definition verdicts (l : RateLimiter) (ts : list Z) : list bool :=
  (foldl (λ x t, let '(l, b) := allow map_to_list x.1 (at_second t) "k" in (l, x.2 ++ [b])) (l, []) ts).2.
Example bucket_of_ten : verdicts (NewRateLimiter 10 true) (replicate 12 0 ++ [3; 6; 7]) = replicate 10 true ++ [false; false; false; true; false].
Proof. vm_compute. reflexivity. Qed.

(** A limit that is not set: the local buckets hold three hundred requests, the
    shared count refuses every one. *)
Example shared_limit_without_default :
  (RateLimiter_Middleware map_to_list (NewRateLimiter 0 true) (at_second 0) "a" None).2 = true ∧
  (Shared_Middleware map_to_list (NewSharedRateLimiter 0 true (Some NewMemoryStore)) (λ _, at_second 0) "a" None).2 = false.
Proof. vm_compute. split; reflexivity. Qed.

(** An empty key that is the oldest is never evicted, and then no other is: the
    maximum is exceeded. *)
Example empty_key_stops_eviction :
  BucketCount (bucket_run map_to_list (SetMaxBuckets (NewRateLimiter 300 true) 1) [(at_second 0, ""); (at_second 1, "a"); (at_second 2, "b")]) = 3.
Proof. vm_compute. reflexivity. Qed.
