(* ===== verification/Seal.v ===== *)
(** The operational seal, internal/app/seal.go: the vault starts sealed when an
    unseal key is configured and serves requests only after the key, or enough
    Shamir shares of it, have been presented.

    The clock is an argument, read once for the backoff and once for recording
    a failure. SHA-256 is a parameter, and so are the orders in which Go iterates
    over the map of pending shares and over the map inside [Combine]. The
    state file is a field of the state: its name and its content; [wr] says
    whether a write to it succeeds. *)

From S2P Require Import Prelude.
From S2P Require Import GoLib.
From S2P Require Import Domain.
From S2P Require Import Shamir.

#[local] Open Scope Z_scope.

Record SealState := mkSealState {
  ss_sealed : bool;
  ss_unsealKey : bytes;
  ss_stateFile : string;
  ss_failCount : Z;
  ss_lastFail : Time;
  ss_maxFailDelay : Duration;
  ss_threshold : Z;
  ss_pending : gmap ascii bytes;
  ss_disk : gmap string string;
}.

Definition set_sealed (s : SealState) (b : bool) : SealState :=
  mkSealState b (ss_unsealKey s) (ss_stateFile s) (ss_failCount s) (ss_lastFail s) (ss_maxFailDelay s) (ss_threshold s) (ss_pending s) (ss_disk s).
Definition set_fails (s : SealState) (n : Z) (t : Time) : SealState :=
  mkSealState (ss_sealed s) (ss_unsealKey s) (ss_stateFile s) n t (ss_maxFailDelay s) (ss_threshold s) (ss_pending s) (ss_disk s).
Definition set_pending (s : SealState) (m : gmap ascii bytes) : SealState :=
  mkSealState (ss_sealed s) (ss_unsealKey s) (ss_stateFile s) (ss_failCount s) (ss_lastFail s) (ss_maxFailDelay s) (ss_threshold s) m (ss_disk s).

Definition NewSealState (unsealKey : bytes) (disk : gmap string string) : SealState :=
  mkSealState (negb (bool_decide (unsealKey = []))) unsealKey "" 0 0 0 1 ∅ disk.

Definition SetUnsealThreshold (s : SealState) (t : Z) : SealState :=
  mkSealState (ss_sealed s) (ss_unsealKey s) (ss_stateFile s) (ss_failCount s) (ss_lastFail s) (ss_maxFailDelay s)
    (if t <? 1 then 1 else t) ∅ (ss_disk s).

(** The file may keep the vault sealed, never unseal it. *)
Definition SetStateFile (s : SealState) (path : string) : SealState :=
  if path =s "" then s
  else
    let sealed := match ss_disk s !! path with
                  | Some content => if content =s "sealed" then true else ss_sealed s
                  | None => ss_sealed s
                  end in
    let sealed := if bool_decide (ss_unsealKey s = []) then sealed else true in
    mkSealState sealed (ss_unsealKey s) path (ss_failCount s) (ss_lastFail s) (ss_maxFailDelay s) (ss_threshold s)
      (ss_pending s) (ss_disk s).

Definition Sealed (s : SealState) : bool := ss_sealed s.

Definition persistLocked (s : SealState) (wr : bool) : SealState :=
  if (ss_stateFile s =s "") || negb wr then s
  else mkSealState (ss_sealed s) (ss_unsealKey s) (ss_stateFile s) (ss_failCount s) (ss_lastFail s) (ss_maxFailDelay s)
         (ss_threshold s) (ss_pending s)
         (<[ss_stateFile s := if ss_sealed s then "sealed" else "unsealed"]> (ss_disk s)).

Definition SealVault (s : SealState) (wr : bool) : SealState := persistLocked (set_sealed s true) wr.

Definition markUnsealedLocked (s : SealState) (wr : bool) : SealState :=
  persistLocked (set_pending (set_sealed (set_fails s 0 0) false) ∅) wr.

Definition unsealBackoffLocked (s : SealState) (now : Time) : Duration :=
  if ss_failCount s <=? 0 then 0
  else
    let capDelay := if ss_maxFailDelay s <=? 0 then 30 * Second else ss_maxFailDelay s in
    let shift := ss_failCount s - 1 in
    let shift := if 5 <? shift then 5 else shift in
    let delay := Z.shiftl 1 shift * Second in
    let delay := if capDelay <? delay then capDelay else delay in
    let elapsed := Sub now (ss_lastFail s) in
    if delay <=? elapsed then 0 else delay - elapsed.

Definition UnsealRetryAfter (s : SealState) (now : Time) : Duration := unsealBackoffLocked s now.

(** [s.failCount++; s.lastFail = time.Now()] *)
Definition note_failure (s : SealState) (now : Time) : SealState := set_fails s (wrap64 (ss_failCount s + 1)) now.

Definition share_need (s : SealState) : Z := if ss_threshold s <? 1 then 1 else ss_threshold s.
Definition have (s : SealState) : Z := Z.of_nat (size (ss_pending s)).
Definition UnsealProgress (s : SealState) : Z * Z := (have s, share_need s).

Section unseal.
Context (sha256 : bytes → bytes).
Context (range_shares : gmap ascii bytes → list bytes).
Context (iter : list (ascii * bytes) → list (ascii * bytes)).

Definition constantTimeKeyEqual (a b : bytes) : bool := bool_decide (sha256 a = sha256 b).

Definition Unseal (s : SealState) (now1 now2 : Time) (wr : bool) (key : bytes) : SealState * bool :=
  if bool_decide (ss_unsealKey s = []) then (s, false)
  else if 0 <? unsealBackoffLocked s now1 then (s, false)
  else if constantTimeKeyEqual key (ss_unsealKey s) then (markUnsealedLocked s wr, true)
  else (note_failure s now2, false).

(** What [SubmitShare] returns: whether it unsealed, the progress, a message. *)
Record ShareResult := mkShareResult { sh_unsealed : bool; sh_have : Z; sh_need : Z; sh_msg : string }.

(** The comparison with the first pending share, whichever Go's iteration finds. *)
Definition length_mismatch (s : SealState) (share : bytes) : bool :=
  match range_shares (ss_pending s) with
  | [] => false
  | existing :: _ => negb (Nat.eqb (length existing) (length share))
  end.

(** The end of [SubmitShare], once enough shares are pending. *)
Definition combine_pending (s : SealState) (now2 : Time) (wr : bool) : SealState * ShareResult :=
  let need := share_need s in
  match Combine iter (range_shares (ss_pending s)) with
  | Err _ =>
    let h := have s in
    let s := note_failure s now2 in
    if 3 <=? ss_failCount s
    then (set_pending s ∅, mkShareResult false 0 need "share combine failed")
    else (s, mkShareResult false h need "share combine failed")
  | Ok combined =>
    if constantTimeKeyEqual combined (ss_unsealKey s)
    then (markUnsealedLocked (set_pending s ∅) wr, mkShareResult true need need "")
    else (set_pending (note_failure s now2) ∅, mkShareResult false 0 need "invalid shares")
  end.

Definition SubmitShare (s : SealState) (now1 now2 : Time) (wr : bool) (share : bytes) : SealState * ShareResult :=
  if bool_decide (ss_unsealKey s = []) then (s, mkShareResult false 0 1 "unseal not configured")
  else match share with
  | x :: _ :: _ =>
    if 256 <? Z.of_nat (length share) then (s, mkShareResult false 0 1 "invalid share")
    else
      let need := share_need s in
      if 0 <? unsealBackoffLocked s now1 then (s, mkShareResult false (have s) need "unseal rate limited")
      else if bool_decide (x = b0) then
        let s := note_failure s now2 in (s, mkShareResult false (have s) need "invalid share index")
      else if length_mismatch s share then
        let s := note_failure s now2 in
        let s := if 5 <=? ss_failCount s then set_pending s ∅ else s in
        (s, mkShareResult false (have s) need "share length mismatch")
      else
        let s := set_pending s (<[x := share]> (ss_pending s)) in
        if have s <? need then (s, mkShareResult false (have s) need "")
        else combine_pending s now2 wr
  | _ => (s, mkShareResult false 0 1 "invalid share")
  end.
End unseal.

(** ** What unseals *)

Section seal_theorems.
Context (sha256 : bytes → bytes).
Context (range_shares : gmap ascii bytes → list bytes).
Context (iter : list (ascii * bytes) → list (ascii * bytes)).

Inductive seal_event :=
  | EvSeal (wr : bool)
  | EvUnseal (now1 now2 : Time) (wr : bool) (key : bytes)
  | EvShare (now1 now2 : Time) (wr : bool) (share : bytes)
  | EvThreshold (t : Z)
  | EvStateFile (path : string).

Definition seal_step (s : SealState) (e : seal_event) : SealState :=
  match e with
  | EvSeal wr => SealVault s wr
  | EvUnseal n1 n2 wr key => (Unseal sha256 s n1 n2 wr key).1
  | EvShare n1 n2 wr share => (SubmitShare sha256 range_shares iter s n1 n2 wr share).1
  | EvThreshold t => SetUnsealThreshold s t
  | EvStateFile path => SetStateFile s path
  end.

(** The event presents the key: itself, or as the last of enough shares. *)
Definition presents_key (s : SealState) (e : seal_event) : Prop :=
  match e with
  | EvUnseal _ _ _ key => sha256 key = sha256 (ss_unsealKey s)
  | EvShare _ _ _ share => ∃ x m combined, head share = Some x ∧ m = <[x := share]> (ss_pending s) ∧
      share_need s ≤ Z.of_nat (size m) ∧ Combine iter (range_shares m) = Ok combined ∧
      sha256 combined = sha256 (ss_unsealKey s)
  | _ => False
  end.

Lemma persist_fields s wr : ss_sealed (persistLocked s wr) = ss_sealed s ∧ ss_unsealKey (persistLocked s wr) = ss_unsealKey s.
Proof. unfold persistLocked. by destruct (_ || _). Qed.

Lemma combine_pending_sealed s now2 wr : ss_sealed s = true →
  ss_sealed (combine_pending sha256 range_shares iter s now2 wr).1 = false →
  ∃ c, Combine iter (range_shares (ss_pending s)) = Ok c ∧ sha256 c = sha256 (ss_unsealKey s).
Proof.
  intros Hs. unfold combine_pending. destruct (Combine _ _) as [c|e].
  - unfold constantTimeKeyEqual. case_bool_decide as Hc; [eauto|]. simpl. congruence.
  - destruct (3 <=? _); simpl; congruence.
Qed.

Lemma SubmitShare_sealed s n1 n2 wr share : ss_sealed s = true →
  ss_sealed (SubmitShare sha256 range_shares iter s n1 n2 wr share).1 = false → presents_key s (EvShare n1 n2 wr share).
Proof.
  intros Hs. unfold SubmitShare. destruct (bool_decide _); [simpl; congruence|].
  destruct share as [|x [|y share]]; [simpl; congruence..|]. destruct (256 <? _); [simpl; congruence|].
  destruct (0 <? _); [simpl; congruence|]. destruct (bool_decide (x = b0)); [simpl; congruence|].
  destruct (length_mismatch _ _ _); [destruct (5 <=? _); simpl; congruence|].
  destruct (Z.ltb_spec (have (set_pending s (<[x:=x :: y :: share]> (ss_pending s)))) (share_need s)); [simpl; congruence|].
  intros (c & Hc & He)%combine_pending_sealed; [|done]. exists x, (<[x := x :: y :: share]> (ss_pending s)), c. done.
Qed.

Lemma seal_step_key s e : ss_unsealKey (seal_step s e) = ss_unsealKey s.
Proof.
  assert (Hp : ∀ s wr, ss_unsealKey (persistLocked s wr) = ss_unsealKey s) by (intros; apply persist_fields).
  destruct e; simpl; unfold SealVault.
  - by rewrite Hp.
  - unfold Unseal, markUnsealedLocked. repeat case_match; simpl; try done. by rewrite Hp.
  - unfold SubmitShare, combine_pending, markUnsealedLocked. repeat case_match; simpl; try done; by rewrite Hp.
  - done.
  - unfold SetStateFile. by case_match.
Qed.

Lemma seal_step_sealed s e : ss_unsealKey s ≠ [] → ss_sealed s = true → ss_sealed (seal_step s e) = false → presents_key s e.
Proof.
  intros Hk Hs. destruct e as [wr|n1 n2 wr key|n1 n2 wr share|t|path]; simpl seal_step.
  - unfold SealVault. rewrite (proj1 (persist_fields _ wr)). done.
  - unfold Unseal. rewrite bool_decide_eq_false_2 by done. destruct (0 <? _); [simpl; congruence|].
    unfold constantTimeKeyEqual. case_bool_decide; [done|]. simpl. congruence.
  - by apply SubmitShare_sealed.
  - simpl. congruence.
  - unfold SetStateFile. rewrite (bool_decide_eq_false_2 (ss_unsealKey s = [])) by done. case_match; simpl; congruence.
Qed.

(** C24. A vault with an unseal key starts sealed, and however seals, state
    files and wrong attempts interleave, it can only be found unsealed after an
    event that presented the key: a key with its digest, or the last of enough
    shares that combine to one. In particular the file on disk never unseals. *)
Theorem unsealed_only_by_key key disk es :
  key ≠ [] → ss_sealed (foldl seal_step (NewSealState key disk) es) = false →
  ∃ es1 e es2, es = es1 ++ e :: es2 ∧ presents_key (foldl seal_step (NewSealState key disk) es1) e.
Proof.
  intros Hk. induction es as [|e es IH] using rev_ind; [simpl; by rewrite bool_decide_eq_false_2|].
  rewrite foldl_app. cbn [foldl]. intros Hu.
  destruct (ss_sealed (foldl seal_step (NewSealState key disk) es)) eqn:Es.
  - exists es, e, []. split; [done|]. apply seal_step_sealed; [|done..].
    assert (Hkey : ∀ l, ss_unsealKey (foldl seal_step (NewSealState key disk) l) = key).
    { intros l. induction l as [|e' l IHl] using rev_ind; [done|]. rewrite foldl_app. cbn [foldl]. by rewrite seal_step_key. }
    by rewrite Hkey.
  - destruct (IH eq_refl) as (es1 & e' & es2 & -> & Hp). exists es1, e', (es2 ++ [e]). split; [|done].
    by rewrite <-app_assoc.
Qed.
End seal_theorems.

(** ** The unsealing ceremony *)

Section ceremony.
Context (sha256 : bytes → bytes).
Context (range_shares : gmap ascii bytes → list bytes).
Context (iter : list (ascii * bytes) → list (ascii * bytes)).
Hypothesis range_perm : ∀ m, range_shares m ≡ₚ (map_to_list m).*2.
Hypothesis iter_perm : ∀ m, iter m ≡ₚ m.

Record submission := mkSubmission { sub_now1 : Time; sub_now2 : Time; sub_wr : bool; sub_share : bytes }.
Definition submit (s : SealState) (u : submission) : SealState :=
  (SubmitShare sha256 range_shares iter s (sub_now1 u) (sub_now2 u) (sub_wr u) (sub_share u)).1.

(** The shares numbered [xs] as the pending map. *)
Definition share_map (polys : list (list ascii)) (xs : list ascii) : gmap ascii bytes :=
  list_to_map ((λ x, (x, share_at polys x)) <$> xs).

Lemma share_map_keys polys xs : ((λ x, (x, share_at polys x)) <$> xs).*1 = xs.
Proof. rewrite <-list_fmap_compose. by rewrite list_fmap_id. Qed.

Lemma share_map_range polys xs : NoDup xs → range_shares (share_map polys xs) ≡ₚ share_at polys <$> xs.
Proof.
  intros Hnd. rewrite range_perm. unfold share_map. rewrite map_to_list_to_map by (by rewrite share_map_keys).
  by rewrite <-list_fmap_compose.
Qed.

Lemma share_map_size polys xs : NoDup xs → size (share_map polys xs) = length xs.
Proof. intros Hnd. unfold share_map. rewrite map_size_list_to_map; [by rewrite length_fmap|by rewrite share_map_keys]. Qed.

Lemma share_map_snoc polys xs x : NoDup (xs ++ [x]) →
  share_map polys (xs ++ [x]) = <[x := share_at polys x]> (share_map polys xs).
Proof.
  intros Hnd. unfold share_map. rewrite fmap_app. simpl. rewrite <-list_to_map_cons. apply list_to_map_proper.
  - by rewrite fmap_app, share_map_keys.
  - rewrite Permutation_app_comm. done.
Qed.

(** A share of the ceremony is taken in, whatever is pending of it. *)
Lemma submit_share s u polys xs x :
  ss_unsealKey s ≠ [] → ss_failCount s = 0 → ss_pending s = share_map polys xs → NoDup (xs ++ [x]) →
  sub_share u = share_at polys x → x ≠ b0 → polys ≠ [] → (length polys ≤ 255)%nat →
  let s' := set_pending s (share_map polys (xs ++ [x])) in
  submit s u = if have s' <? share_need s then s' else (combine_pending sha256 range_shares iter s' (sub_now2 u) (sub_wr u)).1.
Proof.
  intros Hk Hf Hm Hnd Hsh Hx Hp Hl s'. unfold submit, SubmitShare. rewrite bool_decide_eq_false_2 by done.
  rewrite Hsh. destruct polys as [|c polys]; [done|]. set (ps := c :: polys) in *.
  assert (Hlen : ∀ y, length (share_at ps y) = S (length ps)) by (intros y; simpl; by rewrite length_fmap).
  assert (Hcase : share_at ps x = x :: evalPoly c x :: ((λ c, evalPoly c x) <$> polys)) by done.
  rewrite Hcase. cbv beta iota. rewrite <-Hcase, Hlen.
  replace (256 <? Z.of_nat (S (length ps))) with false by (symmetry; apply Z.ltb_ge; lia).
  unfold unsealBackoffLocked. rewrite Hf. simpl (0 <=? 0). cbv iota. simpl (0 <? 0). cbv iota.
  rewrite bool_decide_eq_false_2 by done.
  assert (Hmm : length_mismatch range_shares s (share_at ps x) = false).
  { unfold length_mismatch. rewrite Hm. assert (Hr := share_map_range ps xs (proj1 (proj1 (NoDup_app xs [x]) Hnd))).
    destruct (range_shares (share_map ps xs)) as [|e l]; [done|].
    assert (He : e ∈ share_at ps <$> xs) by (rewrite <-Hr; left). apply list_elem_of_fmap in He as (y & -> & _).
    by rewrite !Hlen, Nat.eqb_refl. }
  rewrite Hmm, Hm, <-share_map_snoc by done. fold s'. change (share_need s) with (share_need s').
  by destruct (have s' <? share_need s').
Qed.

Lemma ceremony_prefix s polys xs us :
  ss_unsealKey s ≠ [] → ss_failCount s = 0 → ss_pending s = ∅ → NoDup xs → Forall (λ x, x ≠ b0) xs → polys ≠ [] →
  (length polys ≤ 255)%nat → sub_share <$> us = share_at polys <$> xs → Z.of_nat (length xs) < share_need s →
  foldl submit s us = set_pending s (share_map polys xs).
Proof.
  intros Hk Hf Hm. revert us. induction xs as [|x xs IH] using rev_ind; intros us Hnd Hx Hp Hl Hus Hlen.
  - destruct us; [|done]. simpl. unfold share_map. simpl. destruct s; simpl in *; by subst.
  - rewrite fmap_app in Hus. destruct us as [|u us _] using rev_ind; [by destruct xs|].
    rewrite fmap_app in Hus. simpl in Hus. apply app_inj_tail in Hus as [Hus Hu].
    rewrite length_app in Hlen. simpl in Hlen. apply Forall_app in Hx as [Hx Hx1]. apply Forall_inv in Hx1.
    assert (Hnd' : NoDup xs) by (by apply NoDup_app in Hnd as [? _]).
    rewrite foldl_app, IH by (done || lia). cbn [foldl].
    rewrite (submit_share _ u polys xs x) by done. unfold have, share_need. simpl.
    rewrite share_map_size by done. rewrite length_app. simpl. unfold share_need in Hlen.
    destruct (Z.ltb_spec (Z.of_nat (length xs + 1)) (if ss_threshold s <? 1 then 1 else ss_threshold s)); [|lia].
    by destruct s.
Qed.

Lemma remove_dups_NoDup_length {A} `{EqDecision A} (l : list A) : NoDup l → (length l ≤ length (remove_dups l))%nat.
Proof.
  intros Hnd. apply submseteq_length, NoDup_submseteq; [done|]. intros x Hx. by apply elem_of_remove_dups.
Qed.

(** C25. Shares unseal. Let a key of 1 to 255 bytes be split into [n] shares with
    threshold [t], 1 ≤ t ≤ n ≤ 255, and let the vault be sealed under that key and
    threshold with no failed attempt counted and no share pending. Then any [t]
    distinct shares, submitted in any order and at any times with nothing else in
    between, unseal it; the failure counter and the pending shares are cleared, and
    the state file records it when the last write succeeds. *)
Theorem shares_unseal rand key n t shares s us :
  reader rand → (1 ≤ t ≤ n) → n ≤ 255 → key ≠ [] → (length key ≤ 255)%nat →
  Split rand key n t = Ok shares →
  ss_unsealKey s = key → ss_threshold s = t → ss_failCount s = 0 → ss_pending s = ∅ →
  NoDup (sub_share <$> us) → (∀ u, u ∈ us → sub_share u ∈ shares) → Z.of_nat (length us) = t →
  let s' := foldl submit s us in
  ss_sealed s' = false ∧ ss_pending s' = ∅ ∧ ss_failCount s' = 0 ∧
  (ss_stateFile s ≠ "" → (∃ u, last us = Some u ∧ sub_wr u = true) → ss_disk s' !! ss_stateFile s = Some "unsealed").
Proof.
  intros Hr Ht Hn Hkey Hkl Hsp Hk Hth Hf Hp Hnd Hin Hlen s'.
  destruct (Split_Combine_all rand iter key n t Hr iter_perm Ht Hn Hkey) as (shares' & Hsp' & _ & _ & Hall).
  assert (shares' = shares) as -> by congruence.
  destruct (Split_spec rand key n t Hr Ht Hn Hkey) as (polys & Hsp2 & Hpl & _). rewrite Hsp in Hsp2. injection Hsp2 as Hsh.
  destruct (shares_of_numbers polys (sub_share <$> us)) as (xs & Hxs & Hx0).
  { intros w (u & -> & Hu)%list_elem_of_fmap. apply (elem_of_shares polys (Z.to_nat n)); [|lia]. rewrite <-Hsh. by apply Hin. }
  assert (Hxnd : NoDup xs) by (rewrite Hxs in Hnd; by apply NoDup_fmap_1 in Hnd).
  assert (Hxl : length xs = length us) by (rewrite <-(length_fmap (share_at polys)), <-Hxs; by rewrite length_fmap).
  assert (Hpn : polys ≠ []) by (intros ->; destruct key; [done|simpl in Hpl; lia]).
  destruct xs as [|x xs _] using rev_ind; [simpl in Hxl; lia|]. destruct us as [|u us _] using rev_ind; [simpl in Hlen; lia|].
  rewrite !fmap_app in Hxs. simpl in Hxs. apply app_inj_tail in Hxs as [Hxs Hu]. rewrite !length_app in *. simpl in *.
  assert (Hneed : share_need s = t) by (unfold share_need; rewrite Hth; destruct (Z.ltb_spec t 1); lia).
  assert (Hpre : foldl submit s us = set_pending s (share_map polys xs)).
  { apply ceremony_prefix; try done; [congruence|by apply NoDup_app in Hxnd as [? _]| |lia|lia].
    apply Forall_forall. intros y Hy. apply Hx0, elem_of_app. by left. }
  unfold s'. rewrite foldl_app, Hpre. cbn [foldl].
  rewrite (submit_share _ u polys xs x); [|simpl; congruence|done|done|done|done| |done|lia].
  2:{ apply Hx0, elem_of_app. right. left. }
  set (s1 := set_pending (set_pending s (share_map polys xs)) (share_map polys (xs ++ [x]))).
  replace (have s1 <? share_need (set_pending s (share_map polys xs))) with false.
  2:{ symmetry. apply Z.ltb_ge. change (share_need (set_pending s (share_map polys xs))) with (share_need s).
      unfold have. simpl. rewrite share_map_size, length_app by done. simpl. lia. }
  assert (Hrange := share_map_range polys (xs ++ [x]) Hxnd).
  assert (Hc : Combine iter (range_shares (ss_pending s1)) = Ok key).
  { apply Hall.
    - intros w Hw. simpl in Hw. rewrite Hrange, fmap_app, <-Hxs in Hw. simpl in Hw. rewrite <-Hu in Hw.
      apply elem_of_app in Hw as [(u' & -> & Hu')%list_elem_of_fmap|Hw].
      + apply Hin, elem_of_app. by left.
      + apply list_elem_of_singleton in Hw as ->. apply Hin, elem_of_app. right. left.
    - assert (Hnd2 : NoDup (range_shares (ss_pending s1))).
      { simpl. rewrite Hrange, fmap_app, <-Hxs. simpl. rewrite <-Hu. by rewrite fmap_app in Hnd. }
      assert (Hle := remove_dups_NoDup_length _ Hnd2). simpl in Hle. rewrite Hrange, length_fmap, length_app in Hle at 1. simpl in *. lia. }
  unfold combine_pending. rewrite Hc. unfold constantTimeKeyEqual. rewrite bool_decide_eq_true_2 by (simpl; congruence).
  unfold markUnsealedLocked, persistLocked. simpl. split; [by case_match|]. split; [by case_match|]. split; [by case_match|].
  intros Hfile (u' & Hu' & Hwr). rewrite last_snoc in Hu'. injection Hu' as <-. rewrite bool_decide_eq_false_2, Hwr by done. simpl.
  apply lookup_insert_eq.
Qed.
End ceremony.

(** ** The backoff *)

(** After a failure the next attempt is refused for at most half a minute
    by default, and never once that time has passed; the wait grows with the
    failures up to the cap. *)
Theorem unsealBackoff_bounds s now :
  ss_maxFailDelay s ≤ 0 → ss_lastFail s ≤ now < ss_lastFail s + 2 ^ 62 →
  0 ≤ unsealBackoffLocked s now ≤ 30 * Second ∧
  (ss_lastFail s + 30 * Second ≤ now → unsealBackoffLocked s now = 0) ∧
  (0 < ss_failCount s → now < ss_lastFail s + Second → 0 < unsealBackoffLocked s now).
Proof.
  intros Hm Hnow. unfold unsealBackoffLocked. destruct (Z.leb_spec (ss_failCount s) 0); [unfold Second; lia|].
  destruct (Z.leb_spec (ss_maxFailDelay s) 0); [|lia].
  assert (Hsub : Sub now (ss_lastFail s) = now - ss_lastFail s) by (unfold Sub; lia). rewrite Hsub.
  set (shift := if 5 <? ss_failCount s - 1 then 5 else ss_failCount s - 1).
  assert (Hsh : 0 ≤ shift ≤ 5) by (unfold shift; destruct (Z.ltb_spec 5 (ss_failCount s - 1)); lia).
  assert (Hd : 1 ≤ Z.shiftl 1 shift).
  { rewrite Z.shiftl_1_l. assert (0 < 2 ^ shift) by (apply Z.pow_pos_nonneg; lia). lia. }
  destruct (Z.ltb_spec (30 * Second) (Z.shiftl 1 shift * Second)); case_match eqn:E; bool_props; unfold Second in *; lia.
Qed.

(** ** Examples *)

Definition shares_in (m : gmap ascii bytes) : list bytes := (map_to_list m).*2.

Lemma unsealed_only_by_key_witness : ∃ es1 e es2,
  [EvSeal true; EvUnseal 1 1 true demo_secret] = es1 ++ e :: es2 ∧
  presents_key id shares_in id (foldl (seal_step id shares_in id) (NewSealState demo_secret ∅) es1) e.
Proof.
  apply (unsealed_only_by_key id shares_in id demo_secret ∅ [EvSeal true; EvUnseal 1 1 true demo_secret]);
    [done|vm_compute; reflexivity].
Defined.

Definition demo_seal : SealState := SetStateFile (SetUnsealThreshold (NewSealState demo_secret ∅) 3) "/var/seal".
Definition demo_submissions : list submission :=
  (λ i, mkSubmission 5 5 true (nth i demo_shares [])) <$> [4%nat; 0%nat; 2%nat].

Lemma shares_unseal_witness :
  ss_sealed (foldl (submit id shares_in id) demo_seal demo_submissions) = false.
Proof.
  apply (shares_unseal id shares_in id (λ m, reflexivity _) (λ m, reflexivity _) const_rand demo_secret 5 3 demo_shares
           demo_seal demo_submissions const_rand_reader).
  - lia.
  - lia.
  - done.
  - vm_compute. lia.
  - vm_compute. reflexivity.
  - reflexivity.
  - reflexivity.
  - reflexivity.
  - reflexivity.
  - apply (bool_decide_unpack (NoDup (sub_share <$> demo_submissions))). vm_compute. exact I.
  - assert (Hl : Forall (λ u, sub_share u ∈ demo_shares) demo_submissions).
    { repeat constructor; apply bool_decide_unpack; by vm_compute. }
    intros u Hu. by apply (proj1 (Forall_forall _ _) Hl).
  - reflexivity.
Defined.

Lemma unsealBackoff_bounds_witness :
  unsealBackoffLocked (set_fails demo_seal 9 100) (100 + 30 * Second) = 0.
Proof. apply unsealBackoff_bounds; simpl; unfold Second; lia. Defined.
