(* ===== verification/Crypto.v ===== *)
(** Envelope encryption: internal/crypto/envelope.go, keyring.go, service.go.

    AES-256-GCM is a parameter ([Aead]): sealing under a key and a nonce, and
    opening, which fails or gives a plaintext. What the theorems use of it is
    [AeadLaws]; where a result depends on a forgery not happening by chance the
    theorem says which bytes must not open under which key. Random bytes are
    arguments, each the bytes read or the error of the reader. A key version is
    a byte; receivers are not nil; wiping key material from memory has no
    counterpart. *)

From S2P Require Import Prelude.
From S2P Require Import GoLib.

#[local] Open Scope Z_scope.

Class Aead := {
  gcm_seal : bytes → bytes → bytes → bytes;
  gcm_open : bytes → bytes → bytes → option bytes;
}.

(** What [cipher.AEAD] documents: opening undoes sealing, and the ciphertext is
    the plaintext's length plus the tag. *)
Class AeadLaws `{Aead} := {
  open_seal : ∀ k n p, gcm_open k n (gcm_seal k n p) = Some p;
  seal_length : ∀ k n p, length (gcm_seal k n p) = (length p + 16)%nat;
}.

Definition nonce_size : nat := 12.
Definition dekSize : Z := 32.
Definition len (b : bytes) : Z := Z.of_nat (length b).

(** ** internal/crypto/envelope.go *)

Section crypto.
Context `{Aead}.

(** An [Envelope] is its key. *)
Definition NewEnvelope (masterKey : bytes) : res bytes :=
  _ ← reject (negb (len masterKey =? 32)) (Plain ("master key must be 32 bytes, got " +:+ pretty (len masterKey)));
  Ok masterKey.

Definition Envelope_Encrypt (key : bytes) (nonce : res bytes) (plaintext : bytes) : res bytes :=
  n ← nonce;
  Ok (n ++ gcm_seal key n plaintext).

Definition Envelope_Decrypt (key ciphertext : bytes) : res bytes :=
  _ ← reject (Nat.ltb (length ciphertext) nonce_size) (Plain "ciphertext too short");
  match gcm_open key (take nonce_size ciphertext) (drop nonce_size ciphertext) with
  | Some p => Ok p
  | None => Err (Plain "cipher: message authentication failed")
  end.

(** ** internal/crypto/keyring.go *)

Record KeyRing := mkKeyRing {
  kr_keys : gmap ascii bytes;
  kr_active : ascii;
  kr_legacy : bool;
}.

Definition byte_num (v : ascii) : Z := Z.of_nat (nat_of_ascii v).
Definition byte_0 : ascii := ascii_of_nat 0.
Definition byte_1 : ascii := ascii_of_nat 1.

Definition NewKeyRing (masterKey : bytes) : res KeyRing :=
  _ ← reject (negb (len masterKey =? 32)) (Plain ("master key must be 32 bytes, got " +:+ pretty (len masterKey)));
  Ok (mkKeyRing {[ byte_1 := masterKey ]} byte_1 true).

Definition ActiveVersion (k : KeyRing) : ascii := kr_active k.

Definition SetActiveVersion (k : KeyRing) (version : ascii) : res KeyRing :=
  match kr_keys k !! version with
  | None => Err (Plain ("unknown key version " +:+ pretty (byte_num version)))
  | Some _ => Ok (mkKeyRing (kr_keys k) version (kr_legacy k))
  end.

Definition AddKey (k : KeyRing) (version : ascii) (masterKey : bytes) : res KeyRing :=
  _ ← reject (bool_decide (version = byte_0)) (Plain "key version must be > 0");
  _ ← reject (negb (len masterKey =? 32)) (Plain ("master key must be 32 bytes, got " +:+ pretty (len masterKey)));
  match kr_keys k !! version with
  | Some _ => Err (Plain ("key version " +:+ pretty (byte_num version) +:+ " already exists"))
  | None => Ok (mkKeyRing (<[version := masterKey]> (kr_keys k)) version false)
  end.

Definition Versions (k : KeyRing) : list ascii := sort_by_Z byte_num (map_to_list (kr_keys k)).*1.

Definition envelope (k : KeyRing) (version : ascii) : res bytes :=
  match kr_keys k !! version with
  | None => Err (Plain ("unknown key version " +:+ pretty (byte_num version)))
  | Some key => NewEnvelope key
  end.

Definition KeyRing_EncryptDEK (k : KeyRing) (nonce : res bytes) (dek : bytes) : res bytes :=
  _ ← reject (negb (len dek =? dekSize)) (Plain ("dek must be " +:+ pretty dekSize +:+ " bytes, got " +:+ pretty (len dek)));
  let version := kr_active k in
  env ← envelope k version;
  enc ← Envelope_Encrypt env nonce dek;
  if kr_legacy k && bool_decide (version = byte_1) then Ok enc else Ok (version :: enc).

(** The reading of a blob as a version byte before a sealed key, in
    [DecryptDEK] and in [versionedDEKVersionLocked]. *)
Definition minVersionedLen : Z := 1 + 13 + dekSize.
Definition versioned_dek (k : KeyRing) (enc : bytes) : option (ascii * bytes) :=
  match enc with
  | [] => None
  | version :: sealed =>
    if (len enc <? minVersionedLen) || bool_decide (version = byte_0) then None
    else match envelope k version with
         | Err _ => None
         | Ok env => match Envelope_Decrypt env sealed with
                     | Err _ => None
                     | Ok dek => if len dek =? dekSize then Some (version, dek) else None
                     end
         end
  end.

(** The loop over the known versions; [lastErr] is the error of the last try. *)
Fixpoint try_versions (k : KeyRing) (enc : bytes) (lastErr : option error) (versions : list ascii) : res bytes :=
  match versions with
  | [] => Err (default (Plain "unable to decrypt dek") lastErr)
  | version :: versions =>
    match envelope k version with
    | Err _ => try_versions k enc lastErr versions
    | Ok env =>
      match Envelope_Decrypt env enc with
      | Err e => try_versions k enc (Some e) versions
      | Ok dek =>
        if len dek =? dekSize then Ok dek
        else try_versions k enc (Some (Plain ("decrypted dek invalid length " +:+ pretty (len dek)))) versions
      end
    end
  end.

Definition KeyRing_DecryptDEK (k : KeyRing) (enc : bytes) : res bytes :=
  _ ← reject (bool_decide (enc = [])) (Plain "empty encrypted dek");
  match versioned_dek k enc with
  | Some (_, dek) => Ok dek
  | None => try_versions k enc None (Versions k)
  end.

Definition versionedDEKVersionLocked (k : KeyRing) (enc : bytes) : option ascii := fst <$> versioned_dek k enc.

Definition KeyRing_DEKNeedsReencrypt (k : KeyRing) (enc : bytes) : bool :=
  if kr_legacy k && bool_decide (kr_active k = byte_1) then false
  else match versionedDEKVersionLocked k enc with
       | Some version => negb (bool_decide (version = kr_active k))
       | None => true
       end.

Definition KeyRing_ReencryptDEK (k : KeyRing) (nonce : res bytes) (enc : bytes) : res bytes :=
  dek ← KeyRing_DecryptDEK k enc;
  KeyRing_EncryptDEK k nonce dek.

(** ** internal/crypto/service.go *)

(** A [Service] is its key ring. *)
Definition NewService (masterKey : bytes) : res KeyRing := NewKeyRing masterKey.

(** The highest version plus one, as a byte: it wraps to 0 after 255. *)
Definition next_version (k : KeyRing) : ascii :=
  match last (Versions k) with
  | None => byte_1
  | Some v => ascii_of_nat (nat_of_ascii v + 1)
  end.

Definition RotateMasterKey (k : KeyRing) (newMasterKey : bytes) : res (KeyRing * ascii) :=
  let next := next_version k in
  k ← AddKey k next newMasterKey;
  Ok (k, next).

Definition LoadPreviousMasterKey (k : KeyRing) (masterKey : bytes) : res KeyRing :=
  _ ← reject (negb (len masterKey =? 32)) (Plain ("previous master key must be 32 bytes, got " +:+ pretty (len masterKey)));
  let active := ActiveVersion k in
  k ← AddKey k (next_version k) masterKey;
  SetActiveVersion k active.

Definition GenerateDEK (random : res bytes) : res bytes :=
  match random with Ok dek => Ok dek | Err e => Err (Wrapf "generate dek: " e) end.

Definition DecryptDEK (k : KeyRing) (enc : bytes) : res bytes :=
  dek ← KeyRing_DecryptDEK k enc;
  _ ← reject (negb (len dek =? dekSize)) (Plain ("decrypted dek invalid length " +:+ pretty (len dek)));
  Ok dek.

Definition EncryptWithDEK (dek : bytes) (nonce : res bytes) (plaintext : bytes) : res bytes :=
  env ← NewEnvelope dek;
  Envelope_Encrypt env nonce plaintext.

Definition DecryptWithDEK (dek ciphertext : bytes) : res bytes :=
  env ← NewEnvelope dek;
  Envelope_Decrypt env ciphertext.

(** What [Seal] reads: the key, and the nonces of the data and of the key. *)
Record Entropy := mkEntropy { en_dek : res bytes; en_data : res bytes; en_wrap : res bytes }.

Definition Seal (k : KeyRing) (rnd : Entropy) (plaintext : bytes) : res (bytes * bytes) :=
  dek ← GenerateDEK (en_dek rnd);
  ciphertext ← EncryptWithDEK dek (en_data rnd) plaintext;
  dekEnc ← KeyRing_EncryptDEK k (en_wrap rnd) dek;
  Ok (ciphertext, dekEnc).

Definition Open (k : KeyRing) (ciphertext dekEnc : bytes) : res bytes :=
  dek ← DecryptDEK k dekEnc;
  DecryptWithDEK dek ciphertext.
End crypto.

(** ** Invariant and evolution of a key ring *)

(** Version 1 is always there, 0 never is; keys have 32 bytes; the active
    version is known; a legacy ring has only version 1. *)
Record ring_wf (k : KeyRing) : Prop := {
  rw_first : is_Some (kr_keys k !! byte_1);
  rw_zero : kr_keys k !! byte_0 = None;
  rw_len : ∀ v key, kr_keys k !! v = Some key → len key = 32;
  rw_active : is_Some (kr_keys k !! kr_active k);
  rw_legacy : kr_legacy k = true → kr_active k = byte_1 ∧ ∀ v key, kr_keys k !! v = Some key → v = byte_1;
}.

(** What the service can do to its ring. *)
Inductive ring_step : KeyRing → KeyRing → Prop :=
  | ring_add k v key k' : AddKey k v key = Ok k' → ring_step k k'
  | ring_activate k v k' : SetActiveVersion k v = Ok k' → ring_step k k'
  | ring_rotate k key k' v : RotateMasterKey k key = Ok (k', v) → ring_step k k'
  | ring_load k key k' : LoadPreviousMasterKey k key = Ok k' → ring_step k k'.

Lemma NewKeyRing_wf key k : NewKeyRing key = Ok k → ring_wf k.
Proof.
  unfold NewKeyRing. intros. inv_res. bool_props. split; simpl.
  - rewrite lookup_singleton_eq. eauto.
  - by rewrite lookup_singleton_ne.
  - intros v key'. rewrite lookup_singleton_Some. by intros [<- <-].
  - rewrite lookup_singleton_eq. eauto.
  - intros _. split; [done|]. intros v key' [<- _]%lookup_singleton_Some. done.
Qed.

Lemma AddKey_ok k v key k' : AddKey k v key = Ok k' →
  v ≠ byte_0 ∧ len key = 32 ∧ kr_keys k !! v = None ∧ k' = mkKeyRing (<[v := key]> (kr_keys k)) v false.
Proof. unfold AddKey. intros. inv_res. bool_props. destruct (kr_keys k !! v) eqn:E; inv_res; done. Qed.

Lemma AddKey_wf k v key k' : ring_wf k → AddKey k v key = Ok k' → ring_wf k' ∧ kr_keys k ⊆ kr_keys k'.
Proof.
  intros [H1 H0 Hl Ha Hg] (Hv & Hk & Hn & ->)%AddKey_ok. split; [split; simpl|].
  - destruct (decide (v = byte_1)) as [->|]; [rewrite lookup_insert_eq; eauto|by rewrite lookup_insert_ne].
  - by rewrite lookup_insert_ne.
  - intros w key'. rewrite lookup_insert_Some. intros [[<- <-]|[_ ?]]; eauto.
  - rewrite lookup_insert_eq. eauto.
  - done.
  - simpl. by apply insert_subseteq.
Qed.

Lemma SetActive_wf k v k' : ring_wf k → SetActiveVersion k v = Ok k' → ring_wf k' ∧ kr_keys k ⊆ kr_keys k'.
Proof.
  intros [H1 H0 Hl Ha Hg]. unfold SetActiveVersion. destruct (kr_keys k !! v) as [key|] eqn:E; [|done].
  intros [= <-]. split; [split; simpl; eauto|done].
  intros Hleg. destruct (Hg Hleg) as [_ Hall]. split; [by eapply Hall|done].
Qed.

Lemma ring_step_wf k k' : ring_wf k → ring_step k k' → ring_wf k' ∧ kr_keys k ⊆ kr_keys k'.
Proof.
  intros Hwf Hst. revert Hwf. destruct Hst as [? v key ? Hs|? v ? Hs|? key ? v Hs|? key ? Hs]; intros Hwf.
  - by eapply AddKey_wf.
  - by eapply SetActive_wf.
  - unfold RotateMasterKey in Hs. inv_res. by eapply AddKey_wf.
  - unfold LoadPreviousMasterKey in Hs. inv_res.
    match goal with Ha : AddKey _ _ _ = Ok _ |- _ => destruct (AddKey_wf _ _ _ _ Hwf Ha) as [Hw Hsub] end.
    destruct (SetActive_wf _ _ _ Hw Hs) as [Hw' Hsub']. split; [done|by etrans].
Qed.

Lemma ring_steps_wf k k' : ring_wf k → rtc ring_step k k' → ring_wf k' ∧ kr_keys k ⊆ kr_keys k'.
Proof.
  intros Hwf. induction 1 as [|k k1 k2 Hs _ IH]; [done|].
  destruct (ring_step_wf _ _ Hwf Hs) as [Hw Hsub]. destruct (IH Hw) as [? ?]. split; [done|by etrans].
Qed.

(** The versions are listed from version 1. *)
Lemma Versions_elem k v : v ∈ Versions k ↔ is_Some (kr_keys k !! v).
Proof.
  unfold Versions. rewrite elem_of_sort_by_Z, list_elem_of_fmap. split.
  - intros ([v' key] & -> & Hin%elem_of_map_to_list). eauto.
  - intros [key Hk]. exists (v, key). split; [done|]. by apply elem_of_map_to_list.
Qed.

Lemma Versions_head k : ring_wf k → ∃ vs, Versions k = byte_1 :: vs.
Proof.
  intros Hwf. assert (Hin : byte_1 ∈ Versions k) by apply Versions_elem, Hwf.
  assert (Hs := sort_by_Z_sorted byte_num (map_to_list (kr_keys k)).*1). fold (Versions k) in Hs.
  destruct (Versions k) as [|v vs] eqn:E; [by apply not_elem_of_nil in Hin|]. exists vs. f_equal.
  assert (Hv : is_Some (kr_keys k !! v)) by (apply Versions_elem; rewrite E; left).
  assert (Hv0 : v ≠ byte_0) by (intros ->; rewrite (rw_zero k Hwf) in Hv; by destruct Hv).
  apply elem_of_cons in Hin as [?|Hin]; [done|]. apply StronglySorted_inv in Hs as [_ Hs].
  rewrite Forall_forall in Hs. specialize (Hs _ Hin). unfold Z_key_le, byte_num in Hs.
  change (nat_of_ascii byte_1) with 1%nat in Hs.
  assert (Hn : nat_of_ascii v ≠ 0%nat).
  { intros Hn. apply Hv0. rewrite <-(ascii_nat_embedding v), Hn. done. }
  rewrite <-(ascii_nat_embedding v). by replace (nat_of_ascii v) with 1%nat by lia.
Qed.

(** ** Round trips *)

Section roundtrip.
Context {aead : Aead} {laws : AeadLaws}.

Lemma envelope_known k v key : ring_wf k → kr_keys k !! v = Some key → envelope k v = Ok key.
Proof. intros Hwf Hk. unfold envelope, NewEnvelope. rewrite Hk, (rw_len k Hwf v key Hk). done. Qed.

Lemma Envelope_roundtrip key n p : length n = nonce_size → Envelope_Decrypt key (n ++ gcm_seal key n p) = Ok p.
Proof.
  intros Hn. unfold Envelope_Decrypt. rewrite length_app, Hn.
  replace (Nat.ltb (nonce_size + length (gcm_seal key n p)) nonce_size) with false by (symmetry; apply Nat.ltb_ge; lia).
  simpl. rewrite <-Hn, take_app_length, drop_app_length. by rewrite open_seal.
Qed.

Lemma EncryptDEK_shape k n dek enc : ring_wf k → KeyRing_EncryptDEK k (Ok n) dek = Ok enc →
  len dek = dekSize ∧ ∃ key, kr_keys k !! kr_active k = Some key ∧
    enc = if kr_legacy k then n ++ gcm_seal key n dek else kr_active k :: n ++ gcm_seal key n dek.
Proof.
  intros Hwf. unfold KeyRing_EncryptDEK. destruct (rw_active k Hwf) as [key Hkey].
  rewrite (envelope_known k _ key Hwf Hkey). simpl. destruct (len dek =? dekSize) eqn:Hd; simpl; [|done].
  intros He. apply Z.eqb_eq in Hd. split; [done|]. exists key. split; [done|].
  destruct (kr_legacy k) eqn:El; simpl in *; [|congruence].
  rewrite bool_decide_eq_true_2 in He by apply (rw_legacy k Hwf El). congruence.
Qed.

(** Opening one key: a blob with a version prefix is read as such. *)
Lemma versioned_dek_seal k v key n dek : ring_wf k → kr_keys k !! v = Some key → length n = nonce_size →
  len dek = dekSize → versioned_dek k (v :: n ++ gcm_seal key n dek) = Some (v, dek).
Proof.
  intros Hwf Hk Hn Hd. unfold versioned_dek. rewrite (envelope_known k v key Hwf Hk), Envelope_roundtrip, Hd by done.
  rewrite bool_decide_eq_false_2 by (intros ->; by rewrite (rw_zero k Hwf) in Hk).
  replace (len (v :: n ++ gcm_seal key n dek) <? minVersionedLen) with false; [done|].
  symmetry. apply Z.ltb_ge. unfold len, minVersionedLen, dekSize in *. simpl. rewrite length_app, seal_length, Hn.
  unfold nonce_size. lia.
Qed.

(** The bytes after the first are not themselves a sealed key of the version
    the first byte names. *)
Definition shift_refused (k : KeyRing) (enc : bytes) : Prop :=
  ∀ v sealed key, enc = v :: sealed → kr_keys k !! v = Some key →
    gcm_open key (take nonce_size sealed) (drop nonce_size sealed) = None.

Lemma versioned_dek_refused k enc : ring_wf k → shift_refused k enc → versioned_dek k enc = None.
Proof.
  intros Hwf Hs. unfold versioned_dek. destruct enc as [|v sealed]; [done|].
  destruct (_ || _); [done|]. destruct (kr_keys k !! v) as [key|] eqn:Ek; [|unfold envelope; by rewrite Ek].
  rewrite (envelope_known k v key Hwf Ek). unfold Envelope_Decrypt. rewrite (Hs v sealed key eq_refl Ek).
  by destruct (reject _ _).
Qed.

Lemma DecryptDEK_later k k' n dek enc :
  ring_wf k → rtc ring_step k k' → length n = nonce_size → KeyRing_EncryptDEK k (Ok n) dek = Ok enc →
  (kr_legacy k = true → shift_refused k' enc) → KeyRing_DecryptDEK k' enc = Ok dek.
Proof.
  intros Hwf Hst Hn He Hs. destruct (ring_steps_wf k k' Hwf Hst) as [Hwf' Hsub].
  destruct (EncryptDEK_shape k n dek enc Hwf He) as (Hd & key & Hkey & ->).
  assert (Hkey' := lookup_weaken _ _ _ _ Hkey Hsub). unfold KeyRing_DecryptDEK. destruct (kr_legacy k) eqn:El.
  - destruct (rw_legacy k Hwf El) as [Hact _]. rewrite Hact in Hkey'.
    rewrite (versioned_dek_refused k' _ Hwf' (Hs eq_refl)). destruct (Versions_head k' Hwf') as [vs ->]. cbn [try_versions].
    rewrite (envelope_known k' byte_1 key Hwf' Hkey'), Envelope_roundtrip, Hd by done.
    destruct n; [done|]. done.
  - by rewrite (versioned_dek_seal k' (kr_active k) key) by done.
Qed.

Lemma Open_later k k' dek n1 n2 p :
  ring_wf k → rtc ring_step k k' → len dek = dekSize → length n1 = nonce_size → length n2 = nonce_size →
  ∃ c enc, Seal k (mkEntropy (Ok dek) (Ok n1) (Ok n2)) p = Ok (c, enc) ∧ c ≠ [] ∧ enc ≠ [] ∧
    ((kr_legacy k = true → shift_refused k' enc) → Open k' c enc = Ok p).
Proof.
  intros Hwf Hst Hd H1 H2. unfold Seal. simpl.
  assert (Hnew : NewEnvelope dek = Ok dek) by (unfold NewEnvelope; by rewrite Hd).
  unfold EncryptWithDEK. rewrite Hnew. simpl.
  destruct (KeyRing_EncryptDEK k (Ok n2) dek) as [enc|e] eqn:He.
  - exists (n1 ++ gcm_seal dek n1 p), enc. split; [done|]. split; [by destruct n1|]. split.
    { destruct (EncryptDEK_shape k n2 dek enc Hwf He) as (_ & key & _ & ->). destruct (kr_legacy k); [by destruct n2|done]. }
    intros Hs. unfold Open, DecryptDEK.
    rewrite (DecryptDEK_later k k' n2 dek enc) by done. simpl. rewrite Hd. simpl.
    unfold DecryptWithDEK. rewrite Hnew. simpl. by apply Envelope_roundtrip.
  - exfalso. destruct (rw_active k Hwf) as [key Hkey]. unfold KeyRing_EncryptDEK in He.
    rewrite Hd, (envelope_known k _ key Hwf Hkey) in He. simpl in He. by destruct (_ && _).
Qed.

(** C27. Data sealed by the service stays readable whatever happens to its key
    ring afterwards: rotations, keys loaded as previous ones, changes of the
    active version. For data sealed before the first rotation, whose wrapped
    key has no version prefix, the wrapped key must not, by chance, open under
    a ring key when its first byte is left out. *)
Theorem Open_Seal masterKey k0 k k' dek n1 n2 p :
  NewService masterKey = Ok k0 → rtc ring_step k0 k → rtc ring_step k k' →
  len dek = dekSize → length n1 = nonce_size → length n2 = nonce_size →
  ∃ c enc, Seal k (mkEntropy (Ok dek) (Ok n1) (Ok n2)) p = Ok (c, enc) ∧
    ((kr_legacy k = true → shift_refused k' enc) → Open k' c enc = Ok p).
Proof.
  intros H0 Hk Hk' Hd H1 H2. apply NewKeyRing_wf in H0. destruct (ring_steps_wf k0 k H0 Hk) as [Hwf _].
  destruct (Open_later k k' dek n1 n2 p Hwf Hk' Hd H1 H2) as (c & enc & ? & _ & _ & ?). eauto.
Qed.

(** ** Re-encryption *)

(** A wrapped key that was re-encrypted opens to the same key and needs no
    further re-encryption. *)
Lemma ReencryptDEK_spec k n dek enc : ring_wf k → length n = nonce_size →
  KeyRing_DecryptDEK k enc = Ok dek → len dek = dekSize → kr_legacy k = false →
  ∃ enc', KeyRing_ReencryptDEK k (Ok n) enc = Ok enc' ∧ enc' ≠ [] ∧ KeyRing_DecryptDEK k enc' = Ok dek ∧
    KeyRing_DEKNeedsReencrypt k enc' = false.
Proof.
  intros Hwf Hn Hdec Hd Hl. unfold KeyRing_ReencryptDEK. rewrite Hdec. simpl.
  destruct (KeyRing_EncryptDEK k (Ok n) dek) as [enc'|e] eqn:He.
  - exists enc'. split; [done|]. assert (Hdec' : KeyRing_DecryptDEK k enc' = Ok dek).
    { apply (DecryptDEK_later k k n dek enc'); [done|reflexivity|done..|congruence]. }
    destruct (EncryptDEK_shape k n dek enc' Hwf He) as (_ & key & Hkey & ->). rewrite Hl in *.
    split; [done|]. split; [done|]. unfold KeyRing_DEKNeedsReencrypt, versionedDEKVersionLocked. rewrite Hl.
    rewrite (versioned_dek_seal k (kr_active k) key) by done. simpl. by rewrite bool_decide_eq_true_2.
  - exfalso. destruct (rw_active k Hwf) as [key Hkey]. unfold KeyRing_EncryptDEK in He.
    rewrite Hd, (envelope_known k _ key Hwf Hkey) in He. simpl in He. by destruct (_ && _).
Qed.
End roundtrip.

(** ** A concrete AEAD for examples

    Plaintext followed by a tag that shows the start of the key and the nonce. *)
Definition toy_tag (k n : bytes) : bytes := take 16 (take 8 k ++ n ++ replicate 16 byte_0).
#[local] Instance toy_aead : Aead := {|
  gcm_seal k n p := p ++ toy_tag k n;
  gcm_open k n c :=
    let i := (length c - 16)%nat in
    if bool_decide (drop i c = toy_tag k n) then Some (take i c) else None
|}.

#[local] Instance toy_laws : AeadLaws.
Proof.
  assert (Ht : ∀ k n : bytes, length (toy_tag k n) = 16%nat)
    by (intros k n; unfold toy_tag; rewrite length_take, !length_app, length_replicate; lia).
  split; intros k n p; simpl; rewrite ?length_app, Ht; [|done].
  replace (length p + 16 - 16)%nat with (length p) by lia.
  by rewrite drop_app_length, take_app_length, bool_decide_eq_true_2.
Qed.

Definition demo_key (c : ascii) : bytes := replicate 32 c.
Definition demo_nonce : bytes := replicate 12 "n"%char.
Definition demo_ring (c : ascii) : KeyRing := mkKeyRing {[ byte_1 := demo_key c ]} byte_1 true.

Lemma Open_Seal_witness : ∃ k' v c enc,
  RotateMasterKey (demo_ring "a") (demo_key "b") = Ok (k', v) ∧
  Seal (demo_ring "a") (mkEntropy (Ok (demo_key "d")) (Ok demo_nonce) (Ok demo_nonce)) (bytes_of "hi") = Ok (c, enc) ∧
  Open k' c enc = Ok (bytes_of "hi").
Proof.
  destruct (RotateMasterKey (demo_ring "a") (demo_key "b")) as [[k' v]|e] eqn:Hr; [|by vm_compute in Hr].
  destruct (Open_Seal (demo_key "a") (demo_ring "a") (demo_ring "a") k' (demo_key "d") demo_nonce demo_nonce
              (bytes_of "hi")) as (c & enc & Hs & Ho).
  - reflexivity.
  - reflexivity.
  - eapply rtc_once, ring_rotate, Hr.
  - reflexivity.
  - reflexivity.
  - reflexivity.
  - exists k', v, c, enc. split; [done|]. split; [done|]. apply Ho. intros _.
    vm_compute in Hr. injection Hr as <- _. vm_compute in Hs. injection Hs as <- <-.
    intros w sealed key [= <- <-]. vm_compute. discriminate.
Defined.

(** ** A restart after a rotation *)

Section restart.
Context {aead : Aead} {laws : AeadLaws}.

Lemma try_versions_refused k enc vs e : ring_wf k →
  (∀ v key, kr_keys k !! v = Some key → gcm_open key (take nonce_size enc) (drop nonce_size enc) = None) →
  ∃ e', try_versions k enc e vs = Err e'.
Proof.
  intros Hwf Ho. revert e. induction vs as [|v vs IH]; intros e; simpl; [eauto|].
  destruct (kr_keys k !! v) as [key|] eqn:Ek; [|unfold envelope; rewrite Ek; apply IH].
  rewrite (envelope_known k v key Hwf Ek). unfold Envelope_Decrypt. rewrite (Ho v key Ek).
  by destruct (reject _ _); apply IH.
Qed.

Definition byte_2 : ascii := ascii_of_nat 2.

(** The first key added to a fresh ring, by rotation or as a previous one. *)
Lemma rotation_version_fresh key : next_version (mkKeyRing {[ byte_1 := key ]} byte_1 true) = byte_2.
Proof. unfold next_version, Versions. simpl. by rewrite map_to_list_singleton. Qed.

Lemma AddKey_fresh key key2 : len key2 = 32 →
  AddKey (mkKeyRing {[ byte_1 := key ]} byte_1 true) byte_2 key2 =
  Ok (mkKeyRing (<[byte_2 := key2]> {[ byte_1 := key ]}) byte_2 false).
Proof. intros Hl. unfold AddKey. by rewrite Hl. Qed.

(** The key a rotation added is unreadable after a restart. The running
    service wraps keys under version 2, the rotated key; a service started, as
    documented, with the rotated key as its master key and the old one as a
    previous key knows them as versions 1 and 2, and refuses what was wrapped:
    version 2 now names the old key, and every other reading takes the version
    byte for part of the nonce. *)
Theorem rotated_keys_lost_on_restart old new n dek :
  len old = 32 → len new = 32 → len dek = dekSize → length n = nonce_size →
  gcm_open old n (gcm_seal new n dek) = None →
  (∀ key, key ∈ [old; new] → gcm_open key (byte_2 :: take 11 n) (drop 11 n ++ gcm_seal new n dek) = None) →
  ∃ k0 k1 enc r0 r1 e,
    NewService old = Ok k0 ∧ RotateMasterKey k0 new = Ok (k1, byte_2) ∧
    KeyRing_EncryptDEK k1 (Ok n) dek = Ok enc ∧ DecryptDEK k1 enc = Ok dek ∧
    NewService new = Ok r0 ∧ LoadPreviousMasterKey r0 old = Ok r1 ∧ DecryptDEK r1 enc = Err e.
Proof.
  intros Ho Hn Hd Hl H1 H2.
  assert (HNew : ∀ key, len key = 32 → NewService key = Ok (mkKeyRing {[ byte_1 := key ]} byte_1 true)).
  { intros key Hk. unfold NewService, NewKeyRing. by rewrite Hk. }
  set (k1 := mkKeyRing (<[byte_2 := new]> {[ byte_1 := old ]}) byte_2 false).
  set (r1 := mkKeyRing (<[byte_2 := old]> {[ byte_1 := new ]}) byte_1 false).
  assert (Hk1 : RotateMasterKey (mkKeyRing {[ byte_1 := old ]} byte_1 true) new = Ok (k1, byte_2)).
  { unfold RotateMasterKey. by rewrite rotation_version_fresh, AddKey_fresh. }
  assert (Hr1 : LoadPreviousMasterKey (mkKeyRing {[ byte_1 := new ]} byte_1 true) old = Ok r1).
  { unfold LoadPreviousMasterKey. rewrite Ho, rotation_version_fresh, AddKey_fresh by done. done. }
  assert (Hw1 : ring_wf k1) by (eapply ring_step_wf; [eapply NewKeyRing_wf, HNew, Ho|eapply ring_rotate, Hk1]).
  assert (Hwr : ring_wf r1) by (eapply ring_step_wf; [eapply NewKeyRing_wf, HNew, Hn|eapply ring_load, Hr1]).
  set (enc := byte_2 :: n ++ gcm_seal new n dek).
  assert (He : KeyRing_EncryptDEK k1 (Ok n) dek = Ok enc).
  { unfold KeyRing_EncryptDEK. rewrite Hd. simpl. rewrite (envelope_known k1 byte_2 new); done. }
  assert (Hdec : KeyRing_DecryptDEK k1 enc = Ok dek)
    by (apply (DecryptDEK_later k1 k1 n dek enc); [done|reflexivity|done..]).
  assert (Hall : ∀ v key, kr_keys r1 !! v = Some key → key ∈ [old; new]).
  { intros v key. simpl. rewrite lookup_insert_Some, lookup_singleton_Some. intros [[_ <-]|(_ & _ & <-)]; set_solver. }
  assert (Hvd : versioned_dek r1 enc = None).
  { apply versioned_dek_refused; [done|]. intros v sealed key [= <- <-] Hk. simpl in Hk. injection Hk as <-.
    by rewrite <-Hl, take_app_length, drop_app_length. }
  destruct (try_versions_refused r1 enc (Versions r1) None Hwr) as [e Ht].
  { intros v key Hk. unfold enc, nonce_size. rewrite !firstn_cons, skipn_cons.
    rewrite take_app_le, drop_app_le by (rewrite Hl; unfold nonce_size; lia). by apply H2, (Hall v). }
  exists (mkKeyRing {[ byte_1 := old ]} byte_1 true), k1, enc, (mkKeyRing {[ byte_1 := new ]} byte_1 true), r1, e.
  split; [by apply HNew|]. split; [done|]. split; [done|]. split; [unfold DecryptDEK; by rewrite Hdec; simpl; rewrite Hd|].
  split; [by apply HNew|]. split; [done|]. unfold DecryptDEK, KeyRing_DecryptDEK. rewrite Hvd, Ht. done.
Qed.
End restart.

Lemma rotated_keys_lost_on_restart_witness : ∃ k0 k1 enc r0 r1 e,
  NewService (demo_key "a") = Ok k0 ∧ RotateMasterKey k0 (demo_key "b") = Ok (k1, byte_2) ∧
  KeyRing_EncryptDEK k1 (Ok demo_nonce) (demo_key "d") = Ok enc ∧ DecryptDEK k1 enc = Ok (demo_key "d") ∧
  NewService (demo_key "b") = Ok r0 ∧ LoadPreviousMasterKey r0 (demo_key "a") = Ok r1 ∧ DecryptDEK r1 enc = Err e.
Proof.
  apply rotated_keys_lost_on_restart.
  - reflexivity.
  - reflexivity.
  - reflexivity.
  - reflexivity.
  - vm_compute. reflexivity.
  - intros key Hin. repeat (apply elem_of_cons in Hin as [->|Hin]); [vm_compute; reflexivity..|by apply not_elem_of_nil in Hin].
Defined.
