(* ===== verification/Ttl.v ===== *)
(** Parsing of durations, internal/utils/duration.go. [time.ParseDuration] is a
    parameter: the duration, or [None] for its error. *)

From S2P Require Import Prelude.
From S2P Require Import GoLib.
From S2P Require Import Domain.

#[local] Open Scope Z_scope.

Definition MaxParseTTL : Duration := 10 * 365 * 24 * Hour.

(** [raw[:len(raw)-1]] and [raw[len(raw)-1]] *)
Definition unit_split (raw : string) : option (string * ascii) :=
  let n := String.length raw in
  if Nat.ltb n 2 then None
  else match String.get (n - 1) raw with
       | Some unit => Some (str_take (n - 1) raw, unit)
       | None => None
       end.

Section ttl.
Context (parse_duration : string → option Duration).

(** The fallback for what [time.ParseDuration] refuses. *)
Definition parse_units (raw : string) : res Duration :=
  match unit_split raw with
  | None => Err (Plain ("invalid ttl " +:+ quoted raw))
  | Some (num, unit) =>
    match Atoi num with
    | None => Err (Plain ("invalid ttl " +:+ quoted raw))
    | Some value =>
      if value <=? 0 then Err (Plain "ttl must be positive")
      else if bool_decide (unit = "d"%char) then Ok (wrap64 (wrap64 (value * 24) * Hour))
      else if bool_decide (unit = "h"%char) then Ok (wrap64 (value * Hour))
      else if bool_decide (unit = "m"%char) then Ok (wrap64 (value * Minute))
      else if bool_decide (unit = "s"%char) then Ok (wrap64 (value * Second))
      else Err (Plain ("unsupported ttl unit in " +:+ quoted raw))
    end
  end.

Definition ParseTTL (raw : string) : res Duration :=
  let raw := TrimSpace raw in
  _ ← reject (raw =s "") (Plain "ttl is required");
  d ← match parse_duration raw with Some d => Ok d | None => parse_units raw end;
  _ ← reject (d <=? 0) (Plain "ttl must be positive");
  _ ← reject (MaxParseTTL <? d) (Plain "ttl exceeds maximum of 87600h0m0s");
  Ok d.

Lemma ParseTTL_bounds raw d : ParseTTL raw = Ok d → 0 < d ≤ MaxParseTTL.
Proof. unfold ParseTTL. intros. inv_res. bool_props. lia. Qed.

(** A lifetime of more than seven hundred million years is accepted as one
    day: the number of days is multiplied to nanoseconds modulo 2^64 before the
    bound of ten years is checked. *)
Theorem ParseTTL_overflow :
  parse_duration "281474976710657d" = None → ParseTTL "281474976710657d" = Ok (24 * Hour).
Proof. intros H. unfold ParseTTL. change (TrimSpace "281474976710657d") with "281474976710657d". by rewrite H. Qed.
End ttl.

Lemma ParseTTL_overflow_witness : ParseTTL (λ _, None) "281474976710657d" = Ok 86400000000000.
Proof. apply (ParseTTL_overflow (λ _, None)). reflexivity. Defined.
