(* ===== verification/SqlAllow.v ===== *)
(** The allow-list for managed SQL statements
    (internal/domain/secrets/sql_allow.go): comment stripping, normalisation
    and the checks on one statement. *)

From Stdlib Require Import Ascii.
From S2P Require Import Prelude.
From S2P Require Import GoLib.

Definition managedSQLAllowPrefixes : list string := [
  "create role"; "create user"; "alter role"; "alter user"; "alter default privileges";
  "drop role"; "drop user"; "grant "; "revoke "; "create table"; "drop table";
  "create temporary table"].

Definition managedSQLDenySubstrings : list string := [
  "drop database"; "drop schema"; "truncate "; "alter system"; "copy ";
  "pg_read_file"; "pg_write_file"; "lo_import"; "lo_export"; ";--"; " union ";
  " into outfile"; "load_file";
  "superuser"; "createdb"; "createrole"; "replication"; "bypassrls"; "with admin option";
  "grant all"; "grant all privileges"; "set role"; "grant create"; "with grant option";
  "security invoker"; "security definer"].

Definition managedSQLDenyRoles : list string := [
  "pg_read_server_files"; "pg_write_server_files"; "pg_execute_server_program";
  "pg_checkpoint"; "pg_monitor"; "pg_read_all_data"; "pg_write_all_data"].

(** Where the scan of [stripSQLComments] stands. *)
Inductive scan_mode := Code | LineComment | BlockComment.

Definition newline : ascii := ascii_of_nat 10.

(** [stripSQLComments]: the index loop as a scan of what is left of [s]. A
    line comment ends at a newline, which becomes a space; a block comment
    becomes a space where it starts; an unterminated comment drops the rest. *)
Fixpoint strip_scan (m : scan_mode) (s : string) : string :=
  match m, s with
  | _, EmptyString => EmptyString
  | Code, String c s' =>
      match s' with
      | String d r =>
          if bool_decide (c = "-"%char) && bool_decide (d = "-"%char) then strip_scan LineComment r
          else if bool_decide (c = "/"%char) && bool_decide (d = "*"%char)
          then String " " (strip_scan BlockComment r)
          else String c (strip_scan Code s')
      | EmptyString => String c EmptyString
      end
  | LineComment, String c s' =>
      if bool_decide (c = newline) then String " " (strip_scan Code s') else strip_scan LineComment s'
  | BlockComment, String c s' =>
      match s' with
      | String d r =>
          if bool_decide (c = "*"%char) && bool_decide (d = "/"%char) then strip_scan Code r
          else strip_scan BlockComment s'
      | EmptyString => EmptyString
      end
  end.

Definition stripSQLComments (s : string) : string := strip_scan Code s.

(** The whitespace-collapsing loop of [normalizeManagedSQL]. *)
Fixpoint collapse_spaces (prevSpace : bool) (s : string) : string :=
  match s with
  | EmptyString => EmptyString
  | String c s =>
      if IsSpace c then
        if prevSpace then collapse_spaces true s else String " " (collapse_spaces true s)
      else String c (collapse_spaces false s)
  end.

Definition normalizeManagedSQL (s : string) : string :=
  TrimSpace (collapse_spaces false (ToLower (stripSQLComments s))).

Definition isBareRoleMembershipGrant (norm : string) : bool :=
  if negb (HasPrefix norm "grant ") then false
  else if Contains norm " on " then false
  else Contains norm " to ".

(** The first listed prefix that applies is removed. *)
Fixpoint trim_first_prefix (s : string) (ps : list string) : string :=
  match ps with
  | [] => s
  | p :: ps => if HasPrefix s p then TrimPrefix s p else trim_first_prefix s ps
  end.

Definition hasRoleMembershipEscalation (norm : string) : bool :=
  let rest := trim_first_prefix norm
    ["create role "; "alter role "; "drop role "; "create user "; "alter user "; "drop user "] in
  if existsb (Contains rest) [" in role "; " in group "; " role "; " admin "] then true
  else if Contains rest " role " || HasSuffix rest " role" then true
  else false.

Definition disallowed (what : string) : error := Plain ("disallowed SQL construct " +:+ quoted what).

(** [for _, bad := range l { if strings.Contains(norm, bad) { return err } }] *)
Fixpoint deny_substrings (norm : string) (show : string → string) (l : list string) : res unit :=
  match l with
  | [] => Ok tt
  | bad :: l => if Contains norm bad then Err (disallowed (show bad)) else deny_substrings norm show l
  end.

Definition validateOneManagedSQL (stmt : string) : res unit :=
  let s := TrimSpace stmt in
  _ ← reject (s =s "") (Plain "empty statement");
  let body := TrimSuffix (TrimSpace s) ";" in
  _ ← reject (Contains body ";") (Plain "stacked SQL statements are not allowed");
  let norm := normalizeManagedSQL body in
  _ ← deny_substrings norm TrimSpace managedSQLDenySubstrings;
  _ ← reject (hasRoleMembershipEscalation norm)
        (disallowed "role membership (IN ROLE/ROLE/ADMIN/IN GROUP)");
  _ ← reject (isBareRoleMembershipGrant norm)
        (disallowed "GRANT role TO user (use GRANT privileges ON object TO role)");
  _ ← deny_substrings norm (λ r, r) managedSQLDenyRoles;
  _ ← reject (negb (existsb (HasPrefix norm) managedSQLAllowPrefixes))
        (Plain "statement must start with an allowed verb (CREATE/ALTER/DROP ROLE|USER, GRANT, REVOKE, CREATE/DROP TABLE)");
  reject (Contains norm "password" && negb (Contains s "{{"))
    (Plain "password clauses must use template placeholders (e.g. {{password}})").

Fixpoint validate_statements (i : Z) (statements : list string) : res unit :=
  match statements with
  | [] => Ok tt
  | stmt :: rest =>
      match validateOneManagedSQL stmt with
      | Err e => Err (Wrapf ("statement[" +:+ pretty i +:+ "]: ") e)
      | Ok _ => validate_statements (i + 1)%Z rest
      end
  end.

Definition ValidateManagedSQLStatements (statements : list string) : res unit :=
  validate_statements 0 statements.

(** ** Comment stripping *)

(** No comment opener is left in [s]. *)
Definition comment_free (s : string) : Prop := Contains s "--" = false ∧ Contains s "/*" = false.

Lemma comment_free_cons c s :
  comment_free s → (c = "-"%char → String.get 0 s ≠ Some "-"%char) →
  (c = "/"%char → String.get 0 s ≠ Some "*"%char) → comment_free (String c s).
Proof.
  intros [H1 H2] Hd Hs. unfold comment_free. simpl. rewrite H1, H2, !orb_false_r.
  destruct s as [|d s]; simpl in *; rewrite ?andb_false_r; [done|]. rewrite !andb_true_r.
  split; apply andb_false_iff; rewrite !bool_decide_eq_false.
  - destruct (decide ("-"%char = c)) as [<-|]; [right; intros <-; by apply Hd|by left].
  - destruct (decide ("/"%char = c)) as [<-|]; [right; intros <-; by apply Hs|by left].
Qed.

Lemma comment_free_space s : comment_free s → comment_free (String " " s).
Proof. intros. by apply comment_free_cons. Qed.

(** What the scan emits first: a space after a comment, in code possibly the
    next input byte. *)
Definition head_ok (m : scan_mode) (s t : string) : Prop :=
  match t, m with
  | EmptyString, _ => True
  | String d _, Code => d = " "%char ∨ String.get 0 s = Some d
  | String d _, LineComment => d = " "%char
  | String _ _, BlockComment => True
  end.

Lemma strip_scan_ok n : ∀ m s, String.length s ≤ n →
  comment_free (strip_scan m s) ∧ head_ok m s (strip_scan m s).
Proof.
  induction n as [|n IH]; intros m s Hn; destruct s as [|c s]; simpl in Hn; try (by destruct m); [lia|].
  destruct m; simpl.
  - destruct s as [|d r]; [by split; [apply comment_free_cons|right]|]. simpl in Hn.
    destruct (bool_decide (c = "-"%char) && bool_decide (d = "-"%char)) eqn:Ed.
    + destruct (IH LineComment r) as [Hf Hh]; [lia|]. split; [done|].
      destruct (strip_scan LineComment r); [done|by left].
    + destruct (bool_decide (c = "/"%char) && bool_decide (d = "*"%char)) eqn:Es.
      * destruct (IH BlockComment r) as [Hf _]; [lia|]. split; [by apply comment_free_space|by left].
      * destruct (IH Code (String d r)) as [Hf Hh]; [simpl; lia|].
        rewrite andb_false_iff, !bool_decide_eq_false in Ed, Es.
        split; [|by right]. apply comment_free_cons; [done| |]; intros ->;
          destruct (strip_scan Code (String d r)) as [|e t]; simpl in *; naive_solver.
  - case_bool_decide.
    + destruct (IH Code s) as [Hf _]; [lia|]. split; [by apply comment_free_space|done].
    + destruct (IH LineComment s) as [Hf Hh]; [lia|done].
  - destruct s as [|d r]; [done|]. simpl in Hn. destruct (_ && _).
    + destruct (IH Code r) as [Hf _]; [lia|]. split; [done|]. by destruct (strip_scan Code r).
    + apply (IH BlockComment (String d r)). simpl. lia.
Qed.

Lemma strip_scan_id s : comment_free s → strip_scan Code s = s.
Proof.
  induction s as [|c s IH]; [done|]. intros [H1 H2]. simpl in *.
  apply orb_false_iff in H1 as [H1 H1'], H2 as [H2 H2'].
  destruct s as [|d r]; [done|]. simpl in H1, H2.
  rewrite andb_true_r, (bool_decide_eq_sym _ c), (bool_decide_eq_sym _ d) in H1.
  rewrite andb_true_r, (bool_decide_eq_sym _ c), (bool_decide_eq_sym _ d) in H2.
  rewrite H1, H2. f_equal. by apply IH.
Qed.

(** ** What an accepted statement satisfies *)

Lemma deny_substrings_ok norm show l :
  deny_substrings norm show l = Ok tt ↔ ∀ bad, bad ∈ l → Contains norm bad = false.
Proof.
  induction l as [|b l IH]; simpl; [set_solver|].
  destruct (Contains norm b) eqn:E; [|rewrite IH; set_solver].
  split; [done|]. intros H. specialize (H b). rewrite E in H. set_solver.
Qed.

Lemma validate_statements_ok i l :
  validate_statements i l = Ok tt ↔ ∀ st, st ∈ l → validateOneManagedSQL st = Ok tt.
Proof.
  revert i; induction l as [|st l IH]; intros i; simpl; [set_solver|].
  destruct (validateOneManagedSQL st) as [[]|e] eqn:E; [rewrite IH; set_solver|].
  split; [done|]. intros H. specialize (H st). rewrite E in H. set_solver.
Qed.

(** What the checks see of a statement. *)
Definition sql_norm (stmt : string) : string :=
  normalizeManagedSQL (TrimSuffix (TrimSpace (TrimSpace stmt)) ";").

(** The properties an accepted statement has after normalisation. *)
Record sql_safe (stmt : string) : Prop := {
  safe_single : Contains (TrimSuffix (TrimSpace (TrimSpace stmt)) ";") ";" = false;
  safe_verb : ∃ p, p ∈ managedSQLAllowPrefixes ∧ HasPrefix (sql_norm stmt) p = true;
  safe_constructs : ∀ b, b ∈ managedSQLDenySubstrings ++ managedSQLDenyRoles →
    Contains (sql_norm stmt) b = false;
  safe_membership : hasRoleMembershipEscalation (sql_norm stmt) = false;
  safe_grant : HasPrefix (sql_norm stmt) "grant " = true →
    Contains (sql_norm stmt) " on " = true ∨ Contains (sql_norm stmt) " to " = false;
  safe_password : Contains (sql_norm stmt) "password" = true → Contains (TrimSpace stmt) "{{" = true;
}.

Lemma bare_grant_false norm :
  isBareRoleMembershipGrant norm = false ↔
  (HasPrefix norm "grant " = true → Contains norm " on " = true ∨ Contains norm " to " = false).
Proof.
  unfold isBareRoleMembershipGrant.
  destruct (HasPrefix norm "grant "), (Contains norm " on "), (Contains norm " to "); simpl; naive_solver.
Qed.

(** Managed SQL is accepted exactly when every statement is a single one
    (no stacking), begins with an allow-listed verb and, after comments are
    stripped and case and whitespace normalised, holds no denied construct or
    server role, no role membership, no bare role grant, and a password only
    with a template placeholder. *)
Theorem ValidateManagedSQLStatements_correct l :
  ValidateManagedSQLStatements l = Ok tt ↔
  ∀ st, st ∈ l → TrimSpace st ≠ "" ∧ sql_safe st.
Proof.
  unfold ValidateManagedSQLStatements. rewrite validate_statements_ok.
  apply forall_proper. intros st. apply forall_proper. intros _.
  unfold validateOneManagedSQL. fold (sql_norm st).
  rewrite !res_bind_unit_ok, !reject_ok, !deny_substrings_ok.
  rewrite bool_decide_eq_false, negb_false_iff, existsb_elem, bare_grant_false, andb_false_iff, negb_false_iff.
  split.
  - intros (H1 & H2 & H3 & H4 & H5 & H6 & H7 & H8). split; [done|]. split; try done.
    + intros b [?|?]%elem_of_app; auto.
    + intros Hp. destruct H8; congruence.
  - intros [H1 [H2 H3 H4 H5 H6 H7]]. split_and!; try done.
    + intros b Hb. apply H4. apply elem_of_app. by left.
    + intros b Hb. apply H4. apply elem_of_app. by right.
    + destruct (Contains (sql_norm st) "password"); [right; by apply H7|by left].
Qed.

(** Comment stripping leaves no comment opener behind, so no second pass
    is needed: the output contains neither [--] nor [/*], and stripping is
    idempotent. *)
Theorem stripSQLComments_complete s :
  comment_free (stripSQLComments s) ∧ stripSQLComments (stripSQLComments s) = stripSQLComments s.
Proof.
  assert (comment_free (stripSQLComments s)) as Hf by (by apply (strip_scan_ok (String.length s))).
  split; [done|]. by apply strip_scan_id.
Qed.

(** A single quote, for SQL literals. *)
Definition squote : string := String (ascii_of_nat 39) EmptyString.

(** Comment stripping does not know string literals: a comment opener
    inside a quoted password hides what follows from the deny list. The
    statement below is accepted although it creates a superuser role; without
    the two dashes in the literal it is refused. *)
Theorem quoted_comment_hides_superuser :
  validateOneManagedSQL ("CREATE ROLE {{name}} PASSWORD " +:+ squote +:+ "{{password}}--" +:+ squote +:+ " SUPERUSER") = Ok tt ∧
  validateOneManagedSQL ("CREATE ROLE {{name}} PASSWORD " +:+ squote +:+ "{{password}}" +:+ squote +:+ " SUPERUSER")
    = Err (disallowed "superuser").
Proof. split; by vm_compute. Qed.
