(* ===== verification/DynamicRoles.v ===== *)
(** Roles of the dynamic secret engines: lease tuning
    (internal/domain/secrets/lease_tuning.go), SSH roles (ssh_role.go) and
    database roles with their configuration checks (database_role.go,
    database_role_config.go).

    Durations are computed in Go's wrapping [int64]. Whether [url.Parse] finds
    a password in a value is a parameter. *)

From Stdlib Require Import Ascii.
From S2P Require Import Prelude.
From S2P Require Import GoLib.
From S2P Require Import Domain.
From S2P Require Import SqlAllow.

#[local] Open Scope Z_scope.

(** ** lease_tuning.go *)

Record LeaseTuning := mkLeaseTuning {
  lt_DefaultTTL : Z;
  lt_MaxTTL : Z;
  lt_Period : Z;
  lt_Renewable : bool;
  lt_MaxLeases : Z;
}.

(** The defaulting steps both [LeaseTuningFrom...Role] functions end with. *)
Definition fill_tuning (t : LeaseTuning) (ttlSeconds : Z) : LeaseTuning :=
  let d := if lt_DefaultTTL t <=? 0 then ttlSeconds else lt_DefaultTTL t in
  let m := if lt_MaxTTL t <=? 0 then d else lt_MaxTTL t in
  let d := if d <=? 0 then 3600 else d in
  let m := if m <=? 0 then d else m in
  mkLeaseTuning d m (lt_Period t) (lt_Renewable t) (lt_MaxLeases t).

Definition ResolveIssueTTL (t : LeaseTuning) (requested : Z) : res Z :=
  let ttl := lt_DefaultTTL t in
  let ttl := if 0 <? requested then requested else ttl in
  let ttl := if 0 <? lt_Period t then lt_Period t else ttl in
  if ttl <=? 0 then Err (Plain "ttl must be positive")
  else if lt_MaxTTL t <? ttl
  then Err (Plain ("requested ttl " +:+ pretty ttl +:+ "s exceeds role max_ttl " +:+ pretty (lt_MaxTTL t) +:+ "s"))
  else Ok ttl.

(** [int(d.Seconds())], exact for whole seconds below 2^53. *)
Definition Seconds (d : Duration) : Z := Z.quot d Second.

Definition ResolveRenewTTL (t : LeaseTuning) (requested currentTTL : Z) (now expiresAt : Time) : Z :=
  let requested := if requested <=? 0 then currentTTL else requested in
  let requested := if 0 <? lt_Period t then lt_Period t else requested in
  let maxUntil := now + wrap64 (lt_MaxTTL t * Second) in
  let candidate := now + wrap64 (requested * Second) in
  if After candidate maxUntil then Seconds (Sub maxUntil now) else requested.

(** [LeaseWarnings]; the text of the last warning also shows the time left. *)
Definition LeaseWarnings (now expiresAt : Time) (ttlSeconds : Z) : list string :=
  if ttlSeconds <=? 0 then []
  else
    let remaining := Sub expiresAt now in
    let total := wrap64 (ttlSeconds * Second) in
    if remaining <=? 0 then ["lease has expired"]
    else if remaining <? Z.quot total 10 then ["lease expires in less than 10% of ttl"]
    else [].

(** ** ssh_role.go *)

Definition SSHKeyTypeED25519 : string := "ed25519".
Definition SSHKeyTypeRSA : string := "rsa".

(** [Extensions] distinguishes nil from an empty map. *)
Record SSHRole := mkSSHRole {
  ssh_Name : string;
  ssh_TTLSeconds : Z;
  ssh_DefaultTTL : Z;
  ssh_MaxTTL : Z;
  ssh_Period : Z;
  ssh_Renewable : bool;
  ssh_MaxLeases : Z;
  ssh_CAKeyPath : string;
  ssh_AllowedUsers : list string;
  ssh_DefaultUser : string;
  ssh_KeyType : string;
  ssh_Extensions : option (gmap string string);
  ssh_CreatedAt : Time;
  ssh_UpdatedAt : Time;
}.

Definition NormalizeSSHRole (r : SSHRole) : SSHRole :=
  let ttl := if ssh_TTLSeconds r <=? 0 then 3600 else ssh_TTLSeconds r in
  let dflt := if ssh_DefaultTTL r <=? 0 then ttl else ssh_DefaultTTL r in
  let mx := if ssh_MaxTTL r <=? 0 then dflt else ssh_MaxTTL r in
  let kt := if ssh_KeyType r =s "" then SSHKeyTypeED25519 else ssh_KeyType r in
  let ext := match ssh_Extensions r with None => {["permit-pty" := ""]} | Some m => m end in
  mkSSHRole (ssh_Name r) ttl dflt mx (ssh_Period r) (ssh_Renewable r) (ssh_MaxLeases r)
    (ssh_CAKeyPath r) (ssh_AllowedUsers r) (ssh_DefaultUser r) kt (Some ext)
    (ssh_CreatedAt r) (ssh_UpdatedAt r).

Definition SSHRole_Validate (r0 : SSHRole) : res SSHRole :=
  let r := NormalizeSSHRole r0 in
  _ ← reject (ssh_Name r =s "") (Plain "ssh role name is required");
  _ ← reject (ssh_TTLSeconds r <=? 0) (Plain "ssh role ttl must be positive");
  _ ← reject (TrimSpace (ssh_CAKeyPath r) =s "") (Plain "ca_key_path is required");
  _ ← reject (negb (ssh_KeyType r =s SSHKeyTypeED25519) && negb (ssh_KeyType r =s SSHKeyTypeRSA))
        (Plain ("invalid ssh key_type " +:+ quoted (ssh_KeyType r)));
  _ ← reject ((ssh_DefaultUser r =s "") && bool_decide (ssh_AllowedUsers r = []))
        (Plain "default_user or allowed_users is required");
  Ok r.

Definition AllowedUser (r : SSHRole) (username0 : string) : bool :=
  let username := TrimSpace username0 in
  if username =s "" then false
  else if bool_decide (ssh_AllowedUsers r = [])
  then (ssh_DefaultUser r =s "") || (ssh_DefaultUser r =s username)
  else existsb (λ allowed, TrimSpace allowed =s username) (ssh_AllowedUsers r).

Definition LeaseTuningFromSSHRole (r : SSHRole) : LeaseTuning :=
  fill_tuning (mkLeaseTuning (ssh_DefaultTTL r) (ssh_MaxTTL r) (ssh_Period r) (ssh_Renewable r) (ssh_MaxLeases r))
    (ssh_TTLSeconds r).

(** ** database_role.go and database_role_config.go *)

(** [Config]: a nil map and an empty one are the same value here. *)
Record DatabaseRole := mkDatabaseRole {
  db_Name : string;
  db_TTLSeconds : Z;
  db_DefaultTTL : Z;
  db_MaxTTL : Z;
  db_Period : Z;
  db_Renewable : bool;
  db_MaxLeases : Z;
  db_UsernamePrefix : string;
  db_DefaultUsername : string;
  db_CreationStatements : list string;
  db_RevocationStatements : list string;
  db_ExecutionMode : string;
  db_AdminCredentialsPath : string;
  db_Config : gmap string any;
  db_CreatedAt : Time;
  db_UpdatedAt : Time;
}.

Definition LeaseTuningFromDatabaseRole (r : DatabaseRole) : LeaseTuning :=
  fill_tuning (mkLeaseTuning (db_DefaultTTL r) (db_MaxTTL r) (db_Period r) (db_Renewable r) (db_MaxLeases r))
    (db_TTLSeconds r).

Definition ExecutionModeClient : string := "client".
Definition ExecutionModeManaged : string := "managed".

Definition bannedConfigKeys : list string := [
  "password"; "passwd"; "secret"; "token"; "api_key"; "apikey"; "credential"; "credentials";
  "connection_url"; "connection_string"; "connectionuri"; "database_url"; "dsn"; "uri"; "url";
  "private_key"; "access_key"; "secret_key"; "admin_password"; "admin_credentials";
  "admin_credentials_path"].

Definition db_with (r : DatabaseRole) (ttl dflt mx : Z) (mode path : string) : DatabaseRole :=
  mkDatabaseRole (db_Name r) ttl dflt mx (db_Period r) (db_Renewable r) (db_MaxLeases r)
    (db_UsernamePrefix r) (db_DefaultUsername r) (db_CreationStatements r) (db_RevocationStatements r)
    mode path (db_Config r) (db_CreatedAt r) (db_UpdatedAt r).

Definition NormalizeDatabaseLeaseTuning (r : DatabaseRole) : DatabaseRole :=
  let dflt := if db_DefaultTTL r <=? 0 then db_TTLSeconds r else db_DefaultTTL r in
  let mx := if db_MaxTTL r <=? 0 then dflt else db_MaxTTL r in
  let ttl := if db_TTLSeconds r <=? 0 then dflt else db_TTLSeconds r in
  db_with r ttl dflt mx (db_ExecutionMode r) (db_AdminCredentialsPath r).

Definition NormalizeDatabaseRole (r : DatabaseRole) : DatabaseRole :=
  let mode := if TrimSpace (db_ExecutionMode r) =s "" then ExecutionModeClient else db_ExecutionMode r in
  NormalizeDatabaseLeaseTuning
    (db_with r (db_TTLSeconds r) (db_DefaultTTL r) (db_MaxTTL r) mode (TrimSpace (db_AdminCredentialsPath r))).

Definition is_alpha (c : ascii) : bool :=
  let n := nat_of_ascii c in (Nat.leb 65 n && Nat.leb n 90) || (Nat.leb 97 n && Nat.leb n 122).
Definition is_digit (c : ascii) : bool := let n := nat_of_ascii c in Nat.leb 48 n && Nat.leb n 57.

(** [x*] of a character class: what it consumes and what is left. *)
Fixpoint span (p : ascii → bool) (s : string) : nat * string :=
  match s with
  | String c s' => if p c then let '(n, r) := span p s' in (S n, r) else (0%nat, s)
  | EmptyString => (0%nat, EmptyString)
  end.

(** embeddedCredsPattern: a scheme, two slashes, a non-empty user without
    [:], [@] or blanks, a colon, a non-empty password without [@] or blanks,
    an at sign. Each class excludes the separator after it, so the match is
    deterministic. *)
Definition embeddedCredsPattern (s : string) : bool :=
  match s with
  | String c s1 =>
      is_alpha c &&
      let '(_, r1) := span (λ c, is_alpha c || is_digit c || str_mem c "+.-") s1 in
      HasPrefix r1 "://" &&
      let '(n2, r2) := span (λ c, negb (str_mem c ":@" || IsSpace c)) (str_drop 3 r1) in
      negb (Nat.eqb n2 0) && HasPrefix r2 ":" &&
      let '(n3, r3) := span (λ c, negb (bool_decide (c = "@"%char) || IsSpace c)) (str_drop 1 r2) in
      negb (Nat.eqb n3 0) && HasPrefix r3 "@"
  | EmptyString => false
  end.

(** kvPathPattern *)
Definition kvPathPattern (s : string) : bool :=
  match s with
  | String c s1 =>
      (is_alpha c || is_digit c) &&
      bool_decide (snd (span (λ c, is_alpha c || is_digit c || str_mem c "/_-") s1) = "")
  | EmptyString => false
  end.

Definition ValidateExecutionMode (mode : string) : res unit :=
  if mode =s ExecutionModeClient then Ok tt
  else if mode =s ExecutionModeManaged then Ok tt
  else Err (Plain ("unsupported execution mode " +:+ quoted mode)).

Definition ValidateAdminCredentialsPath (path0 : string) : res unit :=
  let path := TrimSpace path0 in
  if path =s "" then Ok tt
  else if Contains path ".." || HasPrefix path "/"
  then Err (Plain "admin_credentials_path must be a relative KV path without .. segments")
  else if negb (kvPathPattern path)
  then Err (Plain ("admin_credentials_path " +:+ quoted path +:+ " has invalid characters"))
  else Ok tt.

Definition validateConfigKey (path key : string) : res unit :=
  let normalized := ToLower (TrimSpace key) in
  if existsb (λ k, normalized =s k) bannedConfigKeys
  then Err (Plain (path +:+ ": key " +:+ quoted key +:+ " is not allowed in database role config"))
  else Ok tt.

(** [url.Parse(v)] succeeds with a user whose password is set. *)
Class UrlParser := url_has_password : string → bool.

Section database_role.
Context `{UrlParser}.

Definition validateConfigString (path value : string) : res unit :=
  let trimmed := TrimSpace value in
  if trimmed =s "" then Ok tt
  else if embeddedCredsPattern trimmed
  then Err (Plain (path +:+ ": value resembles a connection string with embedded credentials"))
  else if url_has_password trimmed
  then Err (Plain (path +:+ ": URL contains embedded credentials"))
  else Ok tt.

Fixpoint validateConfigValue (path : string) (value : any) : res unit :=
  match value with
  | VMap m =>
      (fix each (m : list (string * any)) : res unit :=
         match m with
         | [] => Ok tt
         | (key, nested) :: m =>
             _ ← validateConfigKey path key;
             _ ← validateConfigValue (path +:+ "." +:+ key) nested;
             each m
         end) m
  | VList l =>
      (fix each (i : Z) (l : list any) : res unit :=
         match l with
         | [] => Ok tt
         | item :: l =>
             _ ← validateConfigValue (path +:+ "[" +:+ pretty i +:+ "]") item;
             each (i + 1) l
         end) 0 l
  | VStr v => validateConfigString path v
  | _ => Ok tt
  end.

Definition ValidateDatabaseRoleConfig (config : gmap string any) : res unit :=
  validateConfigValue "config" (VMap (map_to_list config)).

(** The [sql_strict] switch: only an explicit false is rejected. *)
Definition sql_strict_ok (config : gmap string any) : bool :=
  match config !! "sql_strict" with
  | Some (VBool t) => t
  | Some (VStr t) => negb (t =s "false") && negb (t =s "0")
  | _ => true
  end.

Definition wrap_err (prefix : string) (r : res unit) : res unit :=
  match r with Ok _ => Ok tt | Err e => Err (Wrapf prefix e) end.

Definition DatabaseRole_Validate (r0 : DatabaseRole) : res DatabaseRole :=
  let r := NormalizeDatabaseRole r0 in
  _ ← reject (db_Name r =s "") (Plain "database role name is required");
  _ ← reject (db_TTLSeconds r <=? 0) (Plain "database role ttl must be positive");
  _ ← reject (db_UsernamePrefix r =s "") (Plain "database role username prefix is required");
  _ ← ValidateExecutionMode (db_ExecutionMode r);
  _ ← ValidateAdminCredentialsPath (db_AdminCredentialsPath r);
  _ ← ValidateDatabaseRoleConfig (db_Config r);
  _ ← (if db_ExecutionMode r =s ExecutionModeManaged then
         _ ← reject (db_AdminCredentialsPath r =s "")
               (Plain "admin_credentials_path is required for managed execution mode");
         _ ← reject (bool_decide (db_CreationStatements r = []))
               (Plain "creation_statements are required for managed execution mode");
         _ ← reject (negb (sql_strict_ok (db_Config r)))
               (Plain "sql_strict=false is not allowed; managed roles must use template-only SQL");
         _ ← wrap_err "creation_statements: " (ValidateManagedSQLStatements (db_CreationStatements r));
         if bool_decide (db_RevocationStatements r = []) then Ok tt
         else wrap_err "revocation_statements: " (ValidateManagedSQLStatements (db_RevocationStatements r))
       else Ok tt);
  Ok r.
End database_role.

(** ** Lemmas *)

Lemma Sub_add now d : - 2 ^ 63 ≤ d < 2 ^ 63 → Sub (now + d) now = d.
Proof. intros. unfold Sub. lia. Qed.

Lemma Seconds_mul n : Seconds (n * Second) = n.
Proof. unfold Seconds. by apply Z.quot_mul. Qed.

(** The TTL an issue or renewal asks for: the period when the role has one,
    else the request, else the default. *)
Definition asked_ttl (t : LeaseTuning) (requested dflt : Z) : Z :=
  if 0 <? lt_Period t then lt_Period t else if 0 <? requested then requested else dflt.

Lemma NormalizeSSHRole_idemp r : NormalizeSSHRole (NormalizeSSHRole r) = NormalizeSSHRole r.
Proof.
  destruct r as [nm ttl dflt mx pe re ml ca au du kt [ext|] cr up]; unfold NormalizeSSHRole; simpl; f_equal;
    repeat case_match; bool_props; subst; try done; lia.
Qed.

Lemma SSHRole_Validate_fixed r r' : SSHRole_Validate r = Ok r' → SSHRole_Validate r' = Ok r'.
Proof.
  unfold SSHRole_Validate. intros H. inv_res. rewrite NormalizeSSHRole_idemp.
  repeat match goal with H : _ = false |- _ => rewrite H; clear H end. done.
Qed.

Lemma TrimLeft_suffix s : ∃ p, s = p +:+ TrimLeft s.
Proof.
  induction s as [|c s [p Hp]]; simpl; [by exists ""|].
  destruct (IsSpace c); [exists (String c p); simpl; by rewrite <-Hp | by exists ""].
Qed.

Lemma TrimLeft_idemp s : TrimLeft (TrimLeft s) = TrimLeft s.
Proof. induction s as [|c s IH]; simpl; [done|]. destruct (IsSpace c) eqn:E; [done|]. simpl. by rewrite E. Qed.

Lemma TrimRight_idemp s : TrimRight (TrimRight s) = TrimRight s.
Proof.
  induction s as [|c s IH]; simpl; [done|].
  destruct (TrimRight s) as [|d t] eqn:E.
  - destruct (IsSpace c) eqn:Ec; simpl; [done|]. by rewrite Ec.
  - change (TrimRight (String c (String d t)) = String c (String d t)).
    simpl in *. by rewrite IH.
Qed.

Lemma TrimLeft_TrimRight s : TrimLeft s = s → TrimLeft (TrimRight s) = TrimRight s.
Proof.
  destruct s as [|c s]; simpl; [done|]. destruct (IsSpace c) eqn:Ec.
  - intros H. exfalso. destruct (TrimLeft_suffix s) as [p Hp].
    assert (Hl := f_equal String.length Hp). rewrite H, str_app_length in Hl. simpl in Hl. lia.
  - intros _. destruct (TrimRight s); simpl; by rewrite Ec.
Qed.

Lemma TrimSpace_idemp s : TrimSpace (TrimSpace s) = TrimSpace s.
Proof.
  unfold TrimSpace. rewrite (TrimLeft_TrimRight (TrimLeft s)) by apply TrimLeft_idemp.
  apply TrimRight_idemp.
Qed.

Lemma NormalizeDatabaseRole_idemp r :
  0 < db_TTLSeconds (NormalizeDatabaseRole r) →
  NormalizeDatabaseRole (NormalizeDatabaseRole r) = NormalizeDatabaseRole r.
Proof.
  destruct r as [nm ttl dflt mx pe re ml upre du cs rs mode path cfg cr up].
  unfold NormalizeDatabaseRole, NormalizeDatabaseLeaseTuning, db_with; simpl. intros Hpos.
  rewrite TrimSpace_idemp. f_equal.
  - repeat case_match; bool_props; subst; lia.
  - repeat case_match; bool_props; subst; lia.
  - repeat case_match; bool_props; subst; lia.
  - destruct (TrimSpace mode =s "") eqn:E; [done|]. by rewrite E.
Qed.

Section database_lemmas.
Context `{UrlParser}.

Lemma DatabaseRole_Validate_fixed r r' :
  DatabaseRole_Validate r = Ok r' → DatabaseRole_Validate r' = Ok r'.
Proof.
  unfold DatabaseRole_Validate. intros Hv.
  assert (r' = NormalizeDatabaseRole r ∧ 0 < db_TTLSeconds (NormalizeDatabaseRole r)) as [-> Hpos].
  { inv_res. bool_props. done. }
  by rewrite NormalizeDatabaseRole_idemp.
Qed.

(** [k] is a key of [v] or of a map nested in it. *)
Inductive key_in (k : string) : any → Prop :=
  | key_here m x : (k, x) ∈ m → key_in k (VMap m)
  | key_below m k' x : (k', x) ∈ m → key_in k x → key_in k (VMap m)
  | key_item l x : x ∈ l → key_in k x → key_in k (VList l).

(** [s] is a string value of [v] or of a value nested in it. *)
Inductive str_in (s : string) : any → Prop :=
  | str_here : str_in s (VStr s)
  | str_below m k x : (k, x) ∈ m → str_in s x → str_in s (VMap m)
  | str_item l x : x ∈ l → str_in s x → str_in s (VList l).

Lemma validateConfigValue_map path m :
  validateConfigValue path (VMap m) = Ok tt → ∀ k x, (k, x) ∈ m →
  validateConfigKey path k = Ok tt ∧ validateConfigValue (path +:+ "." +:+ k) x = Ok tt.
Proof.
  induction m as [|[k' x'] m IH]; [set_solver|]. intros Hv k x Hin.
  cbn [validateConfigValue] in Hv. apply res_bind_unit_ok in Hv as [Hk Hv].
  apply res_bind_unit_ok in Hv as [Hx Hm].
  apply elem_of_cons in Hin as [[= -> ->]|Hin]; [done|]. by apply IH.
Qed.

Lemma validateConfigValue_list path l :
  validateConfigValue path (VList l) = Ok tt →
  ∀ x, x ∈ l → ∃ path', validateConfigValue path' x = Ok tt.
Proof.
  cbn [validateConfigValue]. generalize 0 as i.
  induction l as [|y l IH]; intros i Hv x Hin; [set_solver|].
  apply res_bind_unit_ok in Hv as [Hy Hl].
  apply elem_of_cons in Hin as [->|Hin]; [by eexists|]. by eapply IH.
Qed.

Lemma config_key_ok k v : key_in k v →
  ∀ path, validateConfigValue path v = Ok tt → ∃ path', validateConfigKey path' k = Ok tt.
Proof.
  induction 1 as [m x Hin|m k' x Hin _ IH|l x Hin _ IH]; intros path Hv.
  - eexists. by eapply validateConfigValue_map.
  - eapply IH. by eapply validateConfigValue_map.
  - destruct (validateConfigValue_list _ _ Hv _ Hin) as [path' Hx]. by eapply IH.
Qed.

Lemma config_str_ok s v : str_in s v →
  ∀ path, validateConfigValue path v = Ok tt → ∃ path', validateConfigString path' s = Ok tt.
Proof.
  induction 1 as [|m k x Hin _ IH|l x Hin _ IH]; intros path Hv.
  - by exists path.
  - eapply IH. by eapply validateConfigValue_map.
  - destruct (validateConfigValue_list _ _ Hv _ Hin) as [path' Hx]. by eapply IH.
Qed.
End database_lemmas.

(** ** Theorems *)

(** Issuing a credential yields the period of the role, else the
    requested TTL, else the default, and only when it is positive and within
    the role's maximum; in every other case it fails. *)
Theorem ResolveIssueTTL_correct t requested ttl :
  ResolveIssueTTL t requested = Ok ttl ↔
  ttl = asked_ttl t requested (lt_DefaultTTL t) ∧ 0 < ttl ≤ lt_MaxTTL t.
Proof.
  unfold ResolveIssueTTL, asked_ttl. simpl.
  set (a := if 0 <? lt_Period t then _ else _).
  destruct (a <=? 0) eqn:E1; [|destruct (lt_MaxTTL t <? a) eqn:E2]; bool_props;
    (split; [intros H; by inv_res | intros [-> ?]; try lia]); done.
Qed.

(** A renewal is capped at the role's maximum TTL as long as the seconds
    fit a 64-bit duration: it returns the smaller of what is asked and the
    maximum. *)
Theorem ResolveRenewTTL_capped t requested currentTTL now expiresAt :
  let asked := asked_ttl t requested currentTTL in
  0 ≤ asked → asked * Second < 2 ^ 63 → 0 ≤ lt_MaxTTL t → lt_MaxTTL t * Second < 2 ^ 63 →
  ResolveRenewTTL t requested currentTTL now expiresAt = Z.min asked (lt_MaxTTL t).
Proof.
  intros asked Ha Hao Hm Hmo. unfold ResolveRenewTTL, After.
  replace (if 0 <? lt_Period t then lt_Period t else _) with asked
    by (unfold asked, asked_ttl; repeat case_match; bool_props; lia).
  assert (0 < Second) by done. assert (0 ≤ asked * Second) by lia. assert (0 ≤ lt_MaxTTL t * Second) by lia.
  rewrite !wrap64_id, Sub_add, Seconds_mul by lia.
  destruct (_ <? _) eqn:E; bool_props; nia.
Qed.

Definition hourly : LeaseTuning := mkLeaseTuning 3600 7200 0 true 0.

Lemma ResolveRenewTTL_capped_witness : ResolveRenewTTL hourly 86400 3600 5 5 = 7200.
Proof. rewrite ResolveRenewTTL_capped; by vm_compute. Defined.

(** Beyond 64-bit nanoseconds the cap does not apply: a request whose
    duration wraps around to under a second is returned unchanged, far above
    the role's maximum. *)
Theorem ResolveRenewTTL_overflow :
  ResolveRenewTTL hourly 18446744074 3600 5 5 = 18446744074 ∧ lt_MaxTTL hourly = 7200.
Proof. split; by vm_compute. Qed.

(** An accepted database role configuration holds no secret: no map in
    it, at any depth, has a banned key (compared without case and surrounding
    blanks), and no string value in it embeds credentials in a URL. *)
Theorem ValidateDatabaseRoleConfig_sound `{UrlParser} config :
  ValidateDatabaseRoleConfig config = Ok tt →
  (∀ k, key_in k (VMap (map_to_list config)) → ToLower (TrimSpace k) ∉ bannedConfigKeys) ∧
  (∀ s, str_in s (VMap (map_to_list config)) → TrimSpace s ≠ "" →
        embeddedCredsPattern (TrimSpace s) = false ∧ url_has_password (TrimSpace s) = false).
Proof.
  intros Hv. split.
  - intros k Hk. destruct (config_key_ok _ _ Hk _ Hv) as [p Hp]. unfold validateConfigKey in Hp.
    destruct (existsb _ _) eqn:E; [done|]. intros Hin.
    rewrite existsb_false_elem in E. apply E in Hin. by rewrite bool_decide_eq_false in Hin.
  - intros s Hs Hne. destruct (config_str_ok _ _ Hs _ Hv) as [p Hp]. unfold validateConfigString in Hp.
    rewrite bool_decide_false in Hp by done. by repeat case_match.
Qed.

Lemma ValidateDatabaseRoleConfig_sound_witness :
  ToLower (TrimSpace "host") ∉ bannedConfigKeys.
Proof.
  apply (@ValidateDatabaseRoleConfig_sound (λ _, false) {["host" := VStr "db.internal"]}).
  - by vm_compute.
  - apply (key_here _ _ (VStr "db.internal")). rewrite map_to_list_singleton. apply elem_of_cons. by left.
Defined.

(** Validation of database and SSH roles is stable: what it returns (the
    normalised role, which is what is stored) validates again to itself, so
    saving, exporting and restoring a role does not change it. *)
Theorem dynamic_role_validation_stable `{UrlParser} :
  (∀ r r', DatabaseRole_Validate r = Ok r' → DatabaseRole_Validate r' = Ok r') ∧
  (∀ r r', SSHRole_Validate r = Ok r' → SSHRole_Validate r' = Ok r').
Proof. split; [apply DatabaseRole_Validate_fixed | apply SSHRole_Validate_fixed]. Qed.
