(* ===== verification/Repos.v ===== *)
(** The in-memory repositories keyed by a name or identifier
    (internal/repository/memory): leases, tokens, policies, roles, database
    and SSH roles, PKI roles, machine identities, rotation policies, issued
    certificates, certificate authorities and revocations.

    A repository is the finite map the Go struct holds. A mutating method
    either returns the new map or an error and leaves the map unchanged, so it
    is a function to [res]. Values are copied on the way in and out, as the
    source does with [stored := *x]. The mutex makes every method atomic. *)

From Stdlib Require Import Ascii.
From S2P Require Import Prelude.
From S2P Require Import GoLib.
From S2P Require Import Glob.
From S2P Require Import Policy.
From S2P Require Import Domain.
From S2P Require Import SqlAllow.
From S2P Require Import DynamicRoles.

(** ** What the keyed repositories share *)

(** An entity stored under a string key: its key, its validation (with the
    defaults it fills in) and the messages of its repository. The laws say
    that validation keeps the key and that a validated entity is a fixed
    point of it. *)
Class Keyed (A : Type) := {
  ent_key : A → string;
  ent_validate : A → res A;
  ent_invalid : string;
  ent_missing : string;
}.

Class KeyedLaws (A : Type) `{Keyed A} := {
  ent_validate_key : ∀ a a', ent_validate a = Ok a' → ent_key a' = ent_key a;
  ent_validate_fixed : ∀ a a', ent_validate a = Ok a' → ent_validate a' = Ok a';
}.

(** [if err := x.Validate(); err != nil { return err }] for a [Validate] that
    does not change its receiver. *)
Definition checked {A} (v : A → res unit) (a : A) : res A := _ ← v a; Ok a.

Lemma checked_ok {A} (v : A → res unit) a a' : checked v a = Ok a' ↔ v a = Ok tt ∧ a' = a.
Proof.
  unfold checked. rewrite res_bind_unit_ok. split; intros [? H]; split; try done.
  - by injection H.
  - by subst.
Qed.

Section keyed.
Context {A : Type} `{Keyed A}.
Implicit Types (r : gmap string A) (a : A) (k : string).

Definition keyed_Save r a : res (gmap string A) :=
  match ent_validate a with
  | Err e => Err (Wrap ErrCodeValidation ent_invalid e)
  | Ok stored => Ok (<[ent_key stored := stored]> r)
  end.

Definition keyed_Get r k : res A :=
  match r !! k with
  | None => Err (New ErrCodeNotFound ent_missing)
  | Some a => Ok a
  end.

Definition keyed_List r : list A := sort_by_string ent_key (snd <$> map_to_list r).

Definition keyed_Delete r k : res (gmap string A) :=
  match r !! k with
  | None => Err (New ErrCodeNotFound ent_missing)
  | Some _ => Ok (delete k r)
  end.

(** Update of a stored entity in place. *)
Definition keyed_Alter (f : A → A) r k : res (gmap string A) :=
  match r !! k with
  | None => Err (New ErrCodeNotFound ent_missing)
  | Some a => Ok (<[k := f a]> r)
  end.

(** Every entity is stored under its own key and passed validation. *)
Definition keyed_wf r : Prop := map_Forall (λ k a, ent_key a = k ∧ ent_validate a = Ok a) r.
End keyed.

(** [limit <= 0] means 100. *)
Definition effective_limit (limit : Z) : nat := Z.to_nat (if (limit <=? 0)%Z then 100 else limit).

(** ** lease_repository.go *)

#[global] Instance lease_keyed : Keyed Lease := {|
  ent_key := lease_ID; ent_validate := checked Lease_Validate;
  ent_invalid := "invalid lease"; ent_missing := "lease not found" |}.

Definition LeaseRepository_Save (r : gmap string Lease) (l : Lease) := keyed_Save r l.
Definition LeaseRepository_Get (r : gmap string Lease) (id : string) := keyed_Get r id.
Definition LeaseRepository_List (r : gmap string Lease) : list Lease := keyed_List r.

Definition LeaseRepository_ListExpired (r : gmap string Lease) (before : Time) (limit : Z) : list Lease :=
  let out := filter (λ l, lease_RevokedAt l = None ∧ After (lease_ExpiresAt l) before = false)
               (snd <$> map_to_list r) in
  take (effective_limit limit) (sort_by_Z lease_ExpiresAt out).

Definition LeaseRepository_CountActive (r : gmap string Lease) (now : Time) : Z :=
  Z.of_nat (length (filter (λ l, Lease_Active l now = true) (snd <$> map_to_list r))).

Definition LeaseRepository_Revoke (r : gmap string Lease) (id : string) (revokedAt : Time) : res (gmap string Lease) :=
  keyed_Alter (λ l, lease_revoke l revokedAt) r id.

(** ** token_repository.go *)

Definition token_check (t : ClientToken) : res unit :=
  reject (ct_ID t =s "") (Plain "token id is required").

#[global] Instance token_keyed : Keyed ClientToken := {|
  ent_key := ct_ID; ent_validate := checked token_check;
  ent_invalid := "token id is required"; ent_missing := "token not found" |}.

(** [Save] has its own check and error, without a cause. *)
Definition TokenRepository_Save (r : gmap string ClientToken) (t : ClientToken) : res (gmap string ClientToken) :=
  if ct_ID t =s "" then Err (New ErrCodeValidation "token id is required")
  else Ok (<[ct_ID t := t]> r).

Definition TokenRepository_Get (r : gmap string ClientToken) (id : string) := keyed_Get r id.
Definition TokenRepository_List (r : gmap string ClientToken) : list ClientToken := keyed_List r.
Definition TokenRepository_Revoke (r : gmap string ClientToken) (id : string) (revokedAt : Time) :=
  keyed_Alter (λ t, ct_revoke t revokedAt) r id.

Definition TokenRepository_ListExpired (r : gmap string ClientToken) (before : Time) (limit : Z) : list ClientToken :=
  let out := filter (λ t, ct_Revoked t = false ∧ Before (ct_ExpiresAt t) before = true)
               (snd <$> map_to_list r) in
  take (effective_limit limit) (sort_by_Z ct_ExpiresAt out).

(** ** policy_repository.go *)

#[global] Instance policy_keyed : Keyed Policy := {|
  ent_key := policy_Name; ent_validate := checked Policy_Validate;
  ent_invalid := "invalid policy"; ent_missing := "policy not found" |}.

Definition policy_with_id (p : Policy) (id : UUID) : Policy :=
  mkPolicy id (policy_Name p) (policy_Effect p) (policy_Resources p) (policy_Actions p)
    (policy_Capabilities p) (policy_Includes p) (policy_Conditions p).

(** [fresh] is what [uuid.New()] returns; the saved policy, whose ID the
    method writes back to its argument, is returned as well. *)
Definition PolicyRepository_Save (fresh : UUID) (r : gmap string Policy) (p : Policy)
    : res (gmap string Policy * Policy) :=
  match Policy_Validate p with
  | Err e => Err (Wrap ErrCodeValidation "invalid policy" e)
  | Ok _ =>
      let stored := if is_nil_uuid (policy_ID p) then policy_with_id p fresh else p in
      Ok (<[policy_Name p := stored]> r, stored)
  end.

Definition PolicyRepository_GetByName (r : gmap string Policy) (name : string) := keyed_Get r name.
Definition PolicyRepository_List (r : gmap string Policy) : list Policy := keyed_List r.
Definition PolicyRepository_Delete (r : gmap string Policy) (name : string) := keyed_Delete r name.

(** ** role_repository.go *)

#[global] Instance role_keyed : Keyed Role := {|
  ent_key := role_Name; ent_validate := checked Role_Validate;
  ent_invalid := "invalid role"; ent_missing := "role not found" |}.

Definition RoleRepository_Save (r : gmap string Role) (x : Role) := keyed_Save r x.
Definition RoleRepository_Get (r : gmap string Role) (name : string) := keyed_Get r name.
Definition RoleRepository_List (r : gmap string Role) : list Role := keyed_List r.
Definition RoleRepository_Delete (r : gmap string Role) (name : string) := keyed_Delete r name.

(** ** database_role_repository.go and ssh_role_repository.go *)

#[global] Instance database_role_keyed `{UrlParser} : Keyed DatabaseRole := {|
  ent_key := db_Name; ent_validate := DatabaseRole_Validate;
  ent_invalid := "invalid database role"; ent_missing := "database role not found" |}.

Definition DatabaseRoleRepository_Save `{UrlParser} (r : gmap string DatabaseRole) (x : DatabaseRole) := keyed_Save r x.
Definition DatabaseRoleRepository_Get `{UrlParser} (r : gmap string DatabaseRole) (name : string) := keyed_Get r name.
Definition DatabaseRoleRepository_List `{UrlParser} (r : gmap string DatabaseRole) : list DatabaseRole := keyed_List r.
Definition DatabaseRoleRepository_Delete `{UrlParser} (r : gmap string DatabaseRole) (name : string) := keyed_Delete r name.

#[global] Instance ssh_role_keyed : Keyed SSHRole := {|
  ent_key := ssh_Name; ent_validate := SSHRole_Validate;
  ent_invalid := "invalid ssh role"; ent_missing := "ssh role not found" |}.

Definition SSHRoleRepository_Save (r : gmap string SSHRole) (x : SSHRole) := keyed_Save r x.
Definition SSHRoleRepository_Get (r : gmap string SSHRole) (name : string) := keyed_Get r name.
Definition SSHRoleRepository_List (r : gmap string SSHRole) : list SSHRole := keyed_List r.
Definition SSHRoleRepository_Delete (r : gmap string SSHRole) (name : string) := keyed_Delete r name.

(** ** pki_role_repository.go *)

#[global] Instance pki_role_keyed : Keyed PKIRole := {|
  ent_key := pr_Name; ent_validate := PKIRole_Validate;
  ent_invalid := "invalid pki role"; ent_missing := "pki role not found" |}.

Definition PKIRoleRepository_Save (r : gmap string PKIRole) (x : PKIRole) := keyed_Save r x.
Definition PKIRoleRepository_Get (r : gmap string PKIRole) (name : string) := keyed_Get r name.
Definition PKIRoleRepository_List (r : gmap string PKIRole) : list PKIRole := keyed_List r.

(** ** machine_identity_repository.go *)

#[global] Instance machine_identity_keyed : Keyed MachineIdentity := {|
  ent_key := mi_ID; ent_validate := checked MachineIdentity_Validate;
  ent_invalid := "invalid machine identity"; ent_missing := "machine identity not found" |}.

Definition MachineIdentityRepository_Save (r : gmap string MachineIdentity) (x : MachineIdentity) := keyed_Save r x.
Definition MachineIdentityRepository_Get (r : gmap string MachineIdentity) (id : string) := keyed_Get r id.
Definition MachineIdentityRepository_List (r : gmap string MachineIdentity) : list MachineIdentity := keyed_List r.
Definition MachineIdentityRepository_Revoke (r : gmap string MachineIdentity) (id : string) := keyed_Alter mi_revoke r id.

(** ** rotation_policy_repository.go *)

#[global] Instance rotation_policy_keyed : Keyed RotationPolicy := {|
  ent_key := rp_Path; ent_validate := checked RotationPolicy_Validate;
  ent_invalid := "invalid rotation policy"; ent_missing := "rotation policy not found" |}.

Definition RotationPolicyRepository_Save (r : gmap string RotationPolicy) (x : RotationPolicy) := keyed_Save r x.
Definition RotationPolicyRepository_Get (r : gmap string RotationPolicy) (path : string) := keyed_Get r path.
Definition RotationPolicyRepository_List (r : gmap string RotationPolicy) : list RotationPolicy := keyed_List r.
Definition RotationPolicyRepository_Delete (r : gmap string RotationPolicy) (path : string) := keyed_Delete r path.

(** ** issued_cert_repository.go *)

(** [caID.String() + ":" + serial]: the rendering of a UUID has a fixed
    length, so the key determines and is determined by the pair. *)
Definition certKey (caID : UUID) (serial : string) : UUID * string := (caID, serial).

Definition IssuedCertRepository_Save (r : gmap (UUID * string) IssuedCertificate) (c : IssuedCertificate)
    : res (gmap (UUID * string) IssuedCertificate) :=
  match IssuedCertificate_Validate c with
  | Err e => Err (Wrap ErrCodeValidation "invalid issued certificate" e)
  | Ok _ => Ok (<[certKey (ic_CAID c) (ic_Serial c) := c]> r)
  end.

Definition IssuedCertRepository_GetBySerial (r : gmap (UUID * string) IssuedCertificate)
    (caID : UUID) (serial : string) : res IssuedCertificate :=
  match r !! certKey caID serial with
  | None => Err (New ErrCodeNotFound "issued certificate not found")
  | Some c => Ok c
  end.

(** By CA, then by serial (the hexadecimal rendering of UUIDs orders them as
    numbers). *)
Definition issued_le : relation IssuedCertificate := λ x y,
  (ic_CAID x < ic_CAID y)%N ∨ (ic_CAID x = ic_CAID y ∧ String.le (ic_Serial x) (ic_Serial y)).
#[global] Instance issued_le_dec : RelDecision issued_le.
Proof. intros x y. unfold issued_le. apply _. Defined.

Definition IssuedCertRepository_List (r : gmap (UUID * string) IssuedCertificate) : list IssuedCertificate :=
  merge_sort issued_le (snd <$> map_to_list r).

Definition IssuedCertRepository_ListExpiring (r : gmap (UUID * string) IssuedCertificate)
    (before : Time) (limit : Z) : list IssuedCertificate :=
  let out := filter (λ c, ic_AutoRenew c = true ∧ After (ic_ExpiresAt c) before = false)
               (snd <$> map_to_list r) in
  take (effective_limit limit) (sort_by_Z ic_ExpiresAt out).

(** ** ca_repository.go *)

Definition CARepository_Save (r : gmap UUID CA) (c : CA) : res (gmap UUID CA) :=
  match CA_Validate c with
  | Err e => Err (Wrap ErrCodeValidation "invalid ca" e)
  | Ok _ =>
      if existsb (λ existing, negb (bool_decide (ca_ID existing = ca_ID c)) && (ca_Name existing =s ca_Name c))
           (snd <$> map_to_list r)
      then Err (New ErrCodeValidation "ca name already exists")
      else Ok (<[ca_ID c := c]> r)
  end.

Definition CARepository_GetByID (r : gmap UUID CA) (id : UUID) : res CA :=
  match r !! id with
  | None => Err (New ErrCodeNotFound "ca not found")
  | Some c => Ok c
  end.

Definition CARepository_GetByName (r : gmap UUID CA) (name : string) : res CA :=
  match head (filter (λ c, ca_Name c = name) (snd <$> map_to_list r)) with
  | None => Err (New ErrCodeNotFound "ca not found")
  | Some c => Ok c
  end.

Definition CARepository_List (r : gmap UUID CA) : list CA :=
  sort_by_Z ca_CreatedAt (snd <$> map_to_list r).

(** ** revocation_repository.go *)

Record RevocationRepository := mkRevocations {
  rev_serial : gmap string RevokedCertificate;
  rev_byCA : gmap UUID (list RevokedCertificate);
}.

Definition RevocationRepository_Revoke (r : RevocationRepository) (c : RevokedCertificate) : RevocationRepository :=
  match rev_serial r !! rv_Serial c with
  | Some _ => r
  | None =>
      mkRevocations (<[rv_Serial c := c]> (rev_serial r))
        (<[rv_CAID c := default [] (rev_byCA r !! rv_CAID c) ++ [c]]> (rev_byCA r))
  end.

Definition RevocationRepository_IsRevoked (r : RevocationRepository) (serial : string) : bool :=
  bool_decide (is_Some (rev_serial r !! serial)).

Definition RevocationRepository_ListByCA (r : RevocationRepository) (caID : UUID) : list RevokedCertificate :=
  default [] (rev_byCA r !! caID).

(** ** Lemmas on keyed repositories *)

Lemma checked_laws {A} `{Keyed A} v : ent_validate = checked v → KeyedLaws A.
Proof.
  intros Hv. split; intros a a'; rewrite Hv, checked_ok; intros [? ->]; [done|].
  by rewrite checked_ok.
Qed.

#[global] Instance lease_laws : KeyedLaws Lease.
Proof. by eapply checked_laws. Qed.
#[global] Instance token_laws : KeyedLaws ClientToken.
Proof. by eapply checked_laws. Qed.
#[global] Instance policy_laws : KeyedLaws Policy.
Proof. by eapply checked_laws. Qed.
#[global] Instance role_laws : KeyedLaws Role.
Proof. by eapply checked_laws. Qed.
#[global] Instance machine_identity_laws : KeyedLaws MachineIdentity.
Proof. by eapply checked_laws. Qed.
#[global] Instance rotation_policy_laws : KeyedLaws RotationPolicy.
Proof. by eapply checked_laws. Qed.

#[global] Instance ssh_role_laws : KeyedLaws SSHRole.
Proof.
  split; [|apply SSHRole_Validate_fixed]. intros a a'. cbn. unfold SSHRole_Validate.
  intros Hv. by inv_res.
Qed.

#[global] Instance database_role_laws `{UrlParser} : KeyedLaws DatabaseRole.
Proof.
  split; [|apply DatabaseRole_Validate_fixed]. intros a a'. cbn. unfold DatabaseRole_Validate.
  intros Hv. by inv_res.
Qed.

Lemma PKIRole_Validate_fixed r r' : PKIRole_Validate r = Ok r' → pr_Name r' = pr_Name r ∧ PKIRole_Validate r' = Ok r'.
Proof.
  unfold PKIRole_Validate. intros Hv.
  destruct (pr_KeyUsage r =s "") eqn:E; inv_res; (split; [done|]); simpl in *; rewrite ?E in *;
    repeat match goal with H : reject _ _ = _ |- _ => apply reject_ok in H end;
    repeat match goal with H : ?x = false |- context [reject ?x _] => rewrite H end; done.
Qed.

#[global] Instance pki_role_laws : KeyedLaws PKIRole.
Proof. split; intros a a' Hv; by apply PKIRole_Validate_fixed in Hv as [? ?]. Qed.

Lemma elem_of_map_values {K V} `{Countable K} (m : gmap K V) v :
  v ∈ (snd <$> map_to_list m) ↔ ∃ k, m !! k = Some v.
Proof.
  rewrite list_elem_of_fmap. split.
  - intros ([k x] & -> & Hin). exists k. by apply elem_of_map_to_list.
  - intros [k Hk]. exists (k, v). by rewrite elem_of_map_to_list.
Qed.

Section keyed_lemmas.
Context {A : Type} `{KeyedLaws A}.
Implicit Types (r : gmap string A) (a : A) (k : string).

Lemma keyed_Save_ok r a r' :
  keyed_Save r a = Ok r' ↔ ∃ a', ent_validate a = Ok a' ∧ r' = <[ent_key a := a']> r.
Proof.
  unfold keyed_Save. destruct (ent_validate a) as [a'|e] eqn:E.
  - rewrite (ent_validate_key _ _ E). split; [intros [= <-]; eauto | intros (x & [= <-] & ->); done].
  - split; [done | by intros (x & ? & _)].
Qed.

Lemma keyed_Save_wf r a r' : keyed_wf r → keyed_Save r a = Ok r' → keyed_wf r'.
Proof.
  intros Hwf (a' & Hv & ->)%keyed_Save_ok. apply map_Forall_insert_2; [|done].
  split; [by apply ent_validate_key | by eapply ent_validate_fixed].
Qed.

Lemma keyed_Delete_wf r k r' : keyed_wf r → keyed_Delete r k = Ok r' → keyed_wf r'.
Proof.
  unfold keyed_Delete. intros Hwf. destruct (r !! k); [|done]. intros [= <-]. by apply map_Forall_delete.
Qed.

Lemma keyed_Alter_wf f r k r' :
  (∀ a, ent_validate a = Ok a → ent_key (f a) = ent_key a ∧ ent_validate (f a) = Ok (f a)) →
  keyed_wf r → keyed_Alter f r k = Ok r' → keyed_wf r'.
Proof.
  unfold keyed_Alter. intros Hf Hwf. destruct (r !! k) as [a|] eqn:E; [|done]. intros [= <-].
  destruct (Hwf _ _ E) as [Hk Hv]. apply map_Forall_insert_2; [|done].
  destruct (Hf _ Hv). split; congruence.
Qed.

Lemma keyed_List_elem r a : a ∈ keyed_List r ↔ ∃ k, r !! k = Some a.
Proof. unfold keyed_List. by rewrite elem_of_sort_by_string, elem_of_map_values. Qed.

Lemma String_le_antisym (s t : string) : String.le s t → String.le t s → s = t.
Proof. apply (anti_symm String.le). Qed.

Lemma keyed_wf_inj r a b : keyed_wf r → a ∈ (snd <$> map_to_list r) → b ∈ (snd <$> map_to_list r) →
  ent_key a = ent_key b → a = b.
Proof.
  intros Hwf [k1 H1]%elem_of_map_values [k2 H2]%elem_of_map_values E.
  destruct (Hwf _ _ H1) as [<- _], (Hwf _ _ H2) as [<- _]. rewrite E in H1. congruence.
Qed.

Lemma keyed_List_NoDup r : keyed_wf r → NoDup (ent_key <$> keyed_List r).
Proof.
  intros Hwf. unfold keyed_List. rewrite sort_by_string_perm. rewrite <-list_fmap_compose.
  rewrite (list_fmap_ext _ fst); [apply NoDup_fst_map_to_list|].
  intros i [key a] Hi. apply list_elem_of_lookup_2, elem_of_map_to_list in Hi. by destruct (Hwf _ _ Hi).
Qed.

Lemma keyed_List_any_order r l : keyed_wf r → l ≡ₚ map_to_list r →
  sort_by_string ent_key (snd <$> l) = keyed_List r.
Proof.
  intros Hwf Hl. symmetry.
  apply (merge_sort_perm_unique (string_key_le ent_key)); [|by apply fmap_Permutation].
  intros x y Hx Hy Hxy Hyx. eapply keyed_wf_inj; eauto. by apply String_le_antisym.
Qed.

(** Saving entities with distinct keys one after the other builds the map of
    them. *)
Lemma keyed_restore_aux (l : list A) (r0 : gmap string A) :
  (∀ a, a ∈ l → ent_validate a = Ok a) →
  for_each keyed_Save r0 l = Ok (foldl (λ r a, <[ent_key a := a]> r) r0 l).
Proof.
  revert r0; induction l as [|a l IH]; intros r0 Hv; simpl; [done|].
  assert (keyed_Save r0 a = Ok (<[ent_key a := a]> r0)) as ->.
  { apply keyed_Save_ok. exists a. split; [apply Hv; by left|done]. }
  simpl. apply IH. intros b Hb. apply Hv. by right.
Qed.

Lemma foldl_insert_lookup (l : list A) (r0 : gmap string A) k :
  NoDup (ent_key <$> l) →
  foldl (λ r a, <[ent_key a := a]> r) r0 l !! k =
  match list_find (λ a, ent_key a = k) l with Some (_, a) => Some a | None => r0 !! k end.
Proof.
  revert r0; induction l as [|a l IH]; intros r0; simpl; [done|].
  rewrite NoDup_cons. intros [Hna Hnd]. rewrite IH by done.
  case_decide as Hk.
  - assert (list_find (λ b, ent_key b = k) l = None) as ->.
    { apply list_find_None, Forall_forall. intros b Hb Hbk. apply Hna.
      rewrite list_elem_of_fmap. exists b. split; [congruence|done]. }
    subst. apply lookup_insert_eq.
  - destruct (list_find _ l) as [[i b]|] eqn:E; simpl; [done|]. by rewrite lookup_insert_ne.
Qed.

Lemma keyed_keys_NoDup r : keyed_wf r → NoDup (ent_key <$> (snd <$> map_to_list r)).
Proof.
  intros Hwf. rewrite <-list_fmap_compose.
  erewrite list_fmap_ext; [apply NoDup_fst_map_to_list|].
  intros i [k a] Hi. simpl. apply list_elem_of_lookup_2, elem_of_map_to_list in Hi.
  by destruct (Hwf _ _ Hi).
Qed.

(** The list of a repository, saved into an empty one, gives it back. *)
Lemma keyed_restore r l : keyed_wf r → l ≡ₚ (snd <$> map_to_list r) →
  for_each keyed_Save ∅ l = Ok r.
Proof.
  intros Hwf Hl.
  assert (Hv : ∀ a, a ∈ l → ent_validate a = Ok a).
  { intros a. rewrite Hl. intros [k Hk]%elem_of_map_values. by destruct (Hwf _ _ Hk). }
  assert (Hnd : NoDup (ent_key <$> l)) by (rewrite Hl; by apply keyed_keys_NoDup).
  rewrite keyed_restore_aux by done. f_equal. apply map_eq. intros k.
  rewrite foldl_insert_lookup by done.
  destruct (list_find _ l) as [[i a]|] eqn:E.
  - apply list_find_Some in E as (Hi & <- & _). apply list_elem_of_lookup_2 in Hi.
    rewrite Hl in Hi. apply elem_of_map_values in Hi as [k Hk].
    by destruct (Hwf _ _ Hk) as [-> _].
  - rewrite lookup_empty. destruct (r !! k) as [a|] eqn:Ek; [|done].
    apply list_find_None in E. rewrite Forall_forall in E. destruct (E a).
    + rewrite Hl. apply elem_of_map_values. eauto.
    + by destruct (Hwf _ _ Ek).
Qed.
End keyed_lemmas.

#[export] Hint Resolve keyed_Save_wf keyed_Delete_wf : knx.

(** A saved policy keeps the table well formed; only its ID may be new. *)
Lemma PolicySave_wf fresh r p r' p' : keyed_wf r → PolicyRepository_Save fresh r p = Ok (r', p') → keyed_wf r'.
Proof.
  unfold PolicyRepository_Save. intros Hwf Hs. destruct (Policy_Validate p) as [[]|] eqn:E; [|done].
  injection Hs as <- _. apply map_Forall_insert_2; [|done].
  split; [by destruct (is_nil_uuid (policy_ID p))|]. apply checked_ok. split; [|done].
  by destruct (is_nil_uuid (policy_ID p)).
Qed.

(** ** Lemmas on certificate authorities *)

(** Every CA is valid, stored under its ID, and names are unique. *)
Record ca_wf (r : gmap UUID CA) : Prop := {
  ca_wf_key : ∀ id c, r !! id = Some c → ca_ID c = id ∧ CA_Validate c = Ok tt;
  ca_wf_name : ∀ id1 id2 c1 c2, r !! id1 = Some c1 → r !! id2 = Some c2 →
    ca_Name c1 = ca_Name c2 → id1 = id2;
}.

Lemma CARepository_Save_ok r c r' : CARepository_Save r c = Ok r' ↔
  CA_Validate c = Ok tt ∧ r' = <[ca_ID c := c]> r ∧
  ∀ id e, r !! id = Some e → ca_ID e ≠ ca_ID c → ca_Name e ≠ ca_Name c.
Proof.
  unfold CARepository_Save. destruct (CA_Validate c) as [[]|e]; [|naive_solver].
  destruct (existsb _ _) eqn:E.
  - split; [done|]. intros (_ & _ & Hn). apply existsb_elem in E as (x & Hx & Hb).
    apply elem_of_map_values in Hx as [id Hid]. bool_props. by destruct (Hn id x Hid).
  - rewrite existsb_false_elem in E. split.
    + intros [= <-]. split_and!; [done..|]. intros id x Hid Hne Hnm.
      assert (Hx : x ∈ (snd <$> map_to_list r)) by (apply elem_of_map_values; eauto).
      apply E in Hx. rewrite bool_decide_false, bool_decide_true in Hx by done. done.
    + by intros (_ & -> & _).
Qed.

Lemma CARepository_Save_wf r c r' : ca_wf r → CARepository_Save r c = Ok r' → ca_wf r'.
Proof.
  intros [Hk Hn] (Hv & -> & Hu)%CARepository_Save_ok. split.
  - intros id x [[<- <-]|[Hne Hx]]%lookup_insert_Some; [done|]. by apply Hk.
  - intros id1 id2 c1 c2 [[<- <-]|[Hne1 H1]]%lookup_insert_Some [[<- <-]|[Hne2 H2]]%lookup_insert_Some E;
      [done| | |by eauto].
    + destruct (Hk _ _ H2) as [<- _]. by destruct (Hu _ _ H2).
    + destruct (Hk _ _ H1) as [<- _]. by destruct (Hu _ _ H1).
Qed.

Lemma CARepository_GetByName_ok r name c : ca_wf r →
  CARepository_GetByName r name = Ok c ↔ ∃ id, r !! id = Some c ∧ ca_Name c = name.
Proof.
  intros Hwf. unfold CARepository_GetByName.
  assert (Hf : ∀ x, x ∈ filter (λ c, ca_Name c = name) (snd <$> map_to_list r) ↔
                    ca_Name x = name ∧ ∃ id, r !! id = Some x).
  { intros x. by rewrite list_elem_of_filter, elem_of_map_values. }
  destruct (filter _ _) as [|x l] eqn:E; simpl.
  - split; [done|]. intros (id & Hid & Hnm).
    assert (c ∈ @nil CA) by (apply Hf; eauto). set_solver.
  - destruct (proj1 (Hf x)) as [Hx [idx Hidx]]; [by left|]. split.
    + intros [= <-]. eauto.
    + intros (id & Hid & Hnm). f_equal.
      assert (idx = id) as -> by (eapply ca_wf_name; [done..|congruence]). congruence.
Qed.

(** ** Lemmas on revocations *)

(** The two indexes agree: a CA's list holds, once each, the revocations of
    that CA. *)
Record revocations_wf (r : RevocationRepository) : Prop := {
  rev_wf_key : ∀ s c, rev_serial r !! s = Some c → rv_Serial c = s;
  rev_wf_list : ∀ ca c, c ∈ RevocationRepository_ListByCA r ca ↔
    rv_CAID c = ca ∧ rev_serial r !! rv_Serial c = Some c;
  rev_wf_nodup : ∀ ca, NoDup (RevocationRepository_ListByCA r ca);
}.

Definition NewRevocationRepository : RevocationRepository := mkRevocations ∅ ∅.

Lemma revocations_wf_new : revocations_wf NewRevocationRepository.
Proof.
  split; unfold RevocationRepository_ListByCA; simpl.
  - intros s c. by rewrite lookup_empty.
  - intros ca c. rewrite !lookup_empty. simpl. set_solver.
  - intros ca. rewrite lookup_empty. constructor.
Qed.

Lemma revocations_wf_revoke r c : revocations_wf r → revocations_wf (RevocationRepository_Revoke r c).
Proof.
  intros [Hk Hl Hn]. unfold RevocationRepository_Revoke.
  destruct (rev_serial r !! rv_Serial c) as [?|] eqn:E; [done|].
  split; unfold RevocationRepository_ListByCA in *; simpl.
  - intros s x [[<- <-]|[_ Hx]]%lookup_insert_Some; eauto.
  - intros ca x. rewrite !lookup_insert. specialize (Hl ca x).
    destruct (decide (rv_CAID c = ca)) as [<-|Hca]; simpl.
    + rewrite elem_of_app, list_elem_of_singleton, Hl.
      case_decide as Hs; [|naive_solver]. rewrite <-Hs. rewrite E. naive_solver.
    + rewrite Hl. case_decide as Hs; [|done]. rewrite <-Hs, E. naive_solver.
  - intros ca. rewrite lookup_insert. case_decide as Hca; [|apply Hn]. subst. simpl.
    apply NoDup_app. split_and!; [apply Hn| |apply NoDup_singleton].
    intros x Hx ->%list_elem_of_singleton. apply Hl in Hx as [_ Hx]. congruence.
Qed.

(** ** Lemmas on expiry listings *)

(** The first [n] of a list sorted by expiry are the soonest to expire. *)
Lemma take_sorted_soonest {A} (key : A → Z) (n : nat) (l : list A) x y :
  x ∈ take n (sort_by_Z key l) → y ∈ l → y ∉ take n (sort_by_Z key l) → (key x ≤ key y)%Z.
Proof.
  intros Hx Hy Hny. rewrite <-(elem_of_sort_by_Z key) in Hy.
  assert (Hs := sort_by_Z_sorted key l). revert Hx Hy Hny Hs.
  rewrite <-(take_drop n (sort_by_Z key l)) at 2 4. generalize (sort_by_Z key l) as s. intros s Hx Hy Hny Hs.
  apply elem_of_app in Hy as [Hy|Hy]; [done|].
  by apply (StronglySorted_app_1_elem_of _ _ _ _ _ Hs Hx Hy).
Qed.

Definition expired_leases (r : gmap string Lease) (before : Time) : list Lease :=
  filter (λ l, lease_RevokedAt l = None ∧ After (lease_ExpiresAt l) before = false) (snd <$> map_to_list r).

Lemma expired_leases_elem r before l : l ∈ expired_leases r before ↔
  (∃ id, r !! id = Some l) ∧ lease_RevokedAt l = None ∧ (lease_ExpiresAt l ≤ before)%Z.
Proof.
  unfold expired_leases, After. rewrite list_elem_of_filter, elem_of_map_values, Z.ltb_ge. naive_solver.
Qed.

(** ** Theorems *)

(** Every keyed repository is a key-value store over validated entities:
    a successful save makes the validated entity readable under its key,
    leaves every other key alone and preserves well-formedness; it succeeds
    exactly when validation does. *)
Theorem keyed_repository_correct {A} `{KeyedLaws A} (r : gmap string A) (a : A) :
  keyed_wf r →
  match ent_validate a with
  | Err e => keyed_Save r a = Err (Wrap ErrCodeValidation ent_invalid e)
  | Ok stored => ∃ r', keyed_Save r a = Ok r' ∧ keyed_wf r' ∧
      keyed_Get r' (ent_key a) = Ok stored ∧ ∀ k, k ≠ ent_key a → keyed_Get r' k = keyed_Get r k
  end.
Proof.
  intros Hwf. destruct (ent_validate a) as [s|e] eqn:E; [|unfold keyed_Save; by rewrite E].
  assert (Hs : keyed_Save r a = Ok (<[ent_key a := s]> r)) by (apply keyed_Save_ok; eauto).
  exists (<[ent_key a := s]> r). split_and!; [done|by eapply keyed_Save_wf| |].
  - unfold keyed_Get. by rewrite lookup_insert_eq.
  - intros k Hk. unfold keyed_Get. by rewrite lookup_insert_ne.
Qed.

Definition sample_lease (id : string) (exp : Time) : Lease :=
  mkLease id "database/creds/app" "app" "database" 3600 1%Z exp None true "tok" ∅.

Lemma keyed_repository_correct_witness :
  ∃ r', keyed_Save (∅ : gmap string Lease) (sample_lease "l1" 10) = Ok r' ∧ keyed_wf r' ∧
    keyed_Get r' "l1" = Ok (sample_lease "l1" 10) ∧
    ∀ k, k ≠ "l1" → keyed_Get r' k = keyed_Get (∅ : gmap string Lease) k.
Proof.
  assert (keyed_wf (∅ : gmap string Lease)) as Hwf by apply map_Forall_empty.
  exact (keyed_repository_correct ∅ (sample_lease "l1" 10) Hwf).
Defined.

(** What a repository lists does not depend on Go's map iteration order:
    sorting the values met in any order gives the same list. *)
Theorem keyed_List_deterministic {A} `{KeyedLaws A} (r : gmap string A) l :
  keyed_wf r → l ≡ₚ map_to_list r → sort_by_string ent_key (snd <$> l) = keyed_List r.
Proof. apply keyed_List_any_order. Qed.

Lemma keyed_List_deterministic_witness :
  let r := <["l2" := sample_lease "l2" 7]> {["l1" := sample_lease "l1" 10]} in
  sort_by_string ent_key (snd <$> reverse (map_to_list r)) = LeaseRepository_List r.
Proof.
  apply keyed_List_deterministic; [|apply reverse_Permutation].
  apply map_Forall_insert_2; [by split|]. apply map_Forall_singleton. by split.
Defined.

(** CA names identify CAs: starting from a well-formed store, a
    successful save keeps IDs and names unique, makes the CA readable by its
    name, and a name already used by another CA is refused. *)
Theorem CARepository_Save_correct r c :
  ca_wf r → CA_Validate c = Ok tt →
  (∀ id e, r !! id = Some e → ca_ID e ≠ ca_ID c → ca_Name e ≠ ca_Name c) ∧
    (∃ r', CARepository_Save r c = Ok r' ∧ ca_wf r' ∧ CARepository_GetByName r' (ca_Name c) = Ok c) ∨
  (∃ id e, r !! id = Some e ∧ ca_ID e ≠ ca_ID c ∧ ca_Name e = ca_Name c) ∧
    CARepository_Save r c = Err (New ErrCodeValidation "ca name already exists").
Proof.
  intros Hwf Hv. destruct (CARepository_Save r c) as [r'|e] eqn:E.
  - left. assert (Hs := E). apply CARepository_Save_ok in E as (_ & -> & Hu). split; [done|].
    eexists. split_and!; [done|by eapply CARepository_Save_wf|].
    apply CARepository_GetByName_ok; [by eapply CARepository_Save_wf|].
    exists (ca_ID c). by rewrite lookup_insert_eq.
  - right. unfold CARepository_Save in E. rewrite Hv in E.
    destruct (existsb _ _) eqn:Ex; [|done]. split; [|congruence].
    apply existsb_elem in Ex as (x & [id Hid]%elem_of_map_values & Hb). bool_props. eauto.
Qed.

Definition sample_ca : CA :=
  mkCA 7%N None "root" CATypeRoot (mkDN "Root" "" "" "") "01" "PEM" ["k"%char] ["d"%char] "active" 1%Z 9%Z None.

Lemma CARepository_Save_correct_witness :
  (∀ id e, (∅ : gmap UUID CA) !! id = Some e → ca_ID e ≠ ca_ID sample_ca → ca_Name e ≠ ca_Name sample_ca) ∧
    (∃ r', CARepository_Save ∅ sample_ca = Ok r' ∧ ca_wf r' ∧ CARepository_GetByName r' "root" = Ok sample_ca) ∨
  (∃ id e, (∅ : gmap UUID CA) !! id = Some e ∧ ca_ID e ≠ ca_ID sample_ca ∧ ca_Name e = ca_Name sample_ca) ∧
    CARepository_Save ∅ sample_ca = Err (New ErrCodeValidation "ca name already exists").
Proof.
  apply (CARepository_Save_correct ∅ sample_ca); [|by vm_compute].
  split; intros *; by rewrite lookup_empty.
Defined.

(** Revocation is permanent and its two indexes agree: after any sequence
    of revocations a serial is reported revoked exactly when one of them
    named it, and the list of a CA holds exactly the first revocation of each
    of its serials, once. *)
Theorem revocations_correct cs :
  let r := foldl RevocationRepository_Revoke NewRevocationRepository cs in
  revocations_wf r ∧
  ∀ s, RevocationRepository_IsRevoked r s = true ↔ ∃ c, c ∈ cs ∧ rv_Serial c = s.
Proof.
  induction cs as [|c cs IH] using rev_ind; simpl.
  { split; [apply revocations_wf_new|]. intros s. unfold RevocationRepository_IsRevoked. simpl.
    rewrite bool_decide_eq_true, lookup_empty. split; [by intros []|set_solver]. }
  rewrite foldl_app. simpl. destruct IH as [Hwf Hs]. split; [by apply revocations_wf_revoke|].
  intros s. setoid_rewrite elem_of_app. setoid_rewrite list_elem_of_singleton.
  transitivity (RevocationRepository_IsRevoked
    (foldl RevocationRepository_Revoke NewRevocationRepository cs) s = true ∨ rv_Serial c = s);
    [|rewrite Hs; naive_solver].
  unfold RevocationRepository_IsRevoked, RevocationRepository_Revoke. rewrite !bool_decide_eq_true.
  destruct (rev_serial _ !! rv_Serial c) eqn:E; simpl.
  - split; [by left|]. intros [?|<-]; [done|by rewrite E].
  - rewrite lookup_insert. case_decide; naive_solver.
Qed.

(** The expiry sweep is handed the right leases: every lease returned is
    stored, not revoked and past its expiry; at most the limit are returned
    (100 when the limit is not positive); and an expired lease that is left
    out expires no sooner than any returned one, and is left out only when
    the limit is reached. *)
Theorem LeaseRepository_ListExpired_correct r before limit :
  let out := LeaseRepository_ListExpired r before limit in
  length out ≤ effective_limit limit ∧
  (∀ l, l ∈ out → (∃ id, r !! id = Some l) ∧ lease_RevokedAt l = None ∧ (lease_ExpiresAt l ≤ before)%Z) ∧
  (∀ id l, r !! id = Some l → lease_RevokedAt l = None → (lease_ExpiresAt l ≤ before)%Z → l ∉ out →
     length out = effective_limit limit ∧ ∀ o, o ∈ out → (lease_ExpiresAt o ≤ lease_ExpiresAt l)%Z).
Proof.
  unfold LeaseRepository_ListExpired. fold (expired_leases r before). split_and!.
  - rewrite length_take. lia.
  - intros l Hl. apply expired_leases_elem. rewrite <-(elem_of_sort_by_Z lease_ExpiresAt).
    by eapply subseteq_take.
  - intros id l Hid Hrev Hexp Hout.
    assert (Hin : l ∈ expired_leases r before) by (apply expired_leases_elem; eauto). split.
    + rewrite length_take. destruct (decide (effective_limit limit ≤ length (sort_by_Z lease_ExpiresAt (expired_leases r before)))); [lia|].
      rewrite take_ge, elem_of_sort_by_Z in Hout by lia. done.
    + intros o Ho. by eapply take_sorted_soonest.
Qed.
