(* ===== verification/AuditHelper.v ===== *)
(** The audit helper internal/service/audithelper: the event a service records
    for an operation, with the caller as its actor and the outcome as its
    status. An audit service is the list of the events recorded through it,
    absent when none is configured; its errors are dropped by the source. *)

From S2P Require Import Prelude.
From S2P Require Import GoLib.

Record AuditEvent := mkAuditEvent {
  ae_actor : string;
  ae_action : string;
  ae_resource : string;
  ae_status : string;
  ae_details : list (string * any);
}.

Definition Actor (subject : option string) : string := default "anonymous" subject.

Definition audit_status {A} (err : res A) : string := if is_ok err then "success" else "failure".

Abbreviation AuditSink := (option (list AuditEvent)).

Definition audithelper_Record {A} (audit : AuditSink) (subject : option string) (action resource : string) (err : res A)
    (details : list (string * any)) : AuditSink :=
  match audit with
  | None => None
  | Some log => Some (log ++ [mkAuditEvent (Actor subject) action resource (audit_status err) details])
  end.
