(* ===== verification/Tenant.v ===== *)
(** Multi-tenancy: the scoping functions of internal/tenant and the checks the
    services share (internal/service/tenant_scope.go).

    What a request's context carries is the record [TenantCtx]: the namespace
    the tenant middleware stored, and the namespace of the request context. *)

From S2P Require Import Prelude.
From S2P Require Import GoLib.

(** ** internal/tenant *)

Definition ScopePath (tenant path : string) (enabled : bool) : string :=
  let path := TrimPrefix path "/" in
  if negb enabled || (tenant =s "") then path
  else if HasPrefix path (tenant +:+ "/") then path
  else tenant +:+ "/" +:+ path.

Definition ValidateAccess (tenant path : string) (enabled : bool) : bool :=
  if negb enabled || (tenant =s "") then true
  else let path := TrimPrefix path "/" in HasPrefix path (tenant +:+ "/") || (path =s tenant).

Definition LeaseIDSeparator : string := ".".

Definition ScopeLeaseID (tenant leaseID : string) (enabled : bool) : string :=
  let leaseID := TrimSpace leaseID in
  if negb enabled || (tenant =s "") || (leaseID =s "") then leaseID
  else if HasPrefix leaseID (tenant +:+ LeaseIDSeparator) || HasPrefix leaseID (tenant +:+ "/") then leaseID
  else tenant +:+ LeaseIDSeparator +:+ leaseID.

Definition ValidateLeaseIDAccess (tenant leaseID : string) (enabled : bool) : bool :=
  if negb enabled || (tenant =s "") then true
  else let leaseID := TrimSpace leaseID in
       HasPrefix leaseID (tenant +:+ LeaseIDSeparator) || HasPrefix leaseID (tenant +:+ "/").

(** ** tenant_scope.go *)

Record TenantCtx := mkTenantCtx {
  cx_tenant : string;
  cx_request : option string;
}.

Definition scopeResourceName (cx : TenantCtx) (tenantMode : bool) (name : string) : res string :=
  if negb tenantMode then Ok name
  else if cx_tenant cx =s "" then Err (New ErrCodeValidation "tenant namespace required")
  else Ok (ScopePath (cx_tenant cx) name true).

Definition assertTenantAccess (cx : TenantCtx) (tenantMode : bool) (scopedName : string) : res unit :=
  if negb tenantMode then Ok tt
  else if cx_tenant cx =s "" then Err (New ErrCodeValidation "tenant namespace required")
  else reject (negb (ValidateAccess (cx_tenant cx) scopedName true)) (New ErrCodeNotFound "resource not found").

(** The namespace of the request context. *)
Definition tenantNamespaceFromCtx (cx : TenantCtx) : string :=
  match cx_request cx with Some ns => TrimSpace ns | None => "" end.

Definition assertTenantLeaseAccess (cx : TenantCtx) (tenantMode : bool) (leaseID : string) : res unit :=
  if negb tenantMode then Ok tt
  else
    let ns := if cx_tenant cx =s "" then tenantNamespaceFromCtx cx else cx_tenant cx in
    if ns =s "" then Err (New ErrCodeForbidden "tenant namespace required for lease access")
    else reject (negb (ValidateLeaseIDAccess ns leaseID true)) (New ErrCodeForbidden "cross-tenant lease access denied").

(** ** What scoping promises *)

Lemma ScopePath_in tenant path : tenant ≠ "" → HasPrefix (ScopePath tenant path true) (tenant +:+ "/") = true.
Proof.
  intros Ht. unfold ScopePath. rewrite bool_decide_eq_false_2 by done. simpl.
  destruct (HasPrefix (TrimPrefix path "/") (tenant +:+ "/")) eqn:E; [done|].
  apply HasPrefix_spec. exists (TrimPrefix path "/"). by rewrite str_app_assoc.
Qed.

(** Two namespaces with the same prefix ended by a separator are one, when
    neither holds the separator. *)
Lemma tenant_prefix_unique c t t' s : str_mem c t = false → str_mem c t' = false →
  HasPrefix s (t +:+ String c "") = true → HasPrefix s (t' +:+ String c "") = true → t = t'.
Proof.
  intros Ht Ht' [a Ha]%HasPrefix_spec [b Hb]%HasPrefix_spec. rewrite Ha, !str_app_assoc in Hb. simpl in Hb.
  by destruct (str_sep_inj c t t' a b Ht Ht' Hb).
Qed.

Lemma TrimPrefix_other s p : HasPrefix s p = false → TrimPrefix s p = s.
Proof. unfold TrimPrefix. by intros ->. Qed.

Lemma prefix_no_slash t s : t ≠ "" → str_mem "/" t = false → HasPrefix s (t +:+ "/") = true → TrimPrefix s "/" = s.
Proof.
  intros Hne Ht [u ->]%HasPrefix_spec. apply TrimPrefix_other. destruct t as [|c t]; [done|]. simpl in *.
  apply orb_false_iff in Ht as [Hc _]. apply bool_decide_eq_false in Hc. by rewrite bool_decide_eq_false_2.
Qed.

Lemma ScopePath_idemp t name : t ≠ "" → str_mem "/" t = false → ScopePath t (ScopePath t name true) true = ScopePath t name true.
Proof.
  intros Hne Ht. assert (Hp := ScopePath_in t name Hne). set (s := ScopePath t name true) in *. clearbody s. unfold ScopePath.
  rewrite bool_decide_eq_false_2 by done. simpl. by rewrite (prefix_no_slash t s Hne Ht Hp), Hp.
Qed.

(** Names of different tenants never coincide once scoped, whatever the tenants
    call them; a scoped name passes the access check of its tenant and of no
    other; and scoping is idempotent. *)
Theorem tenant_names_disjoint t t' name name' :
  t ≠ "" → t' ≠ "" → str_mem "/" t = false → str_mem "/" t' = false → t ≠ t' →
  ScopePath t name true ≠ ScopePath t' name' true ∧
  ValidateAccess t (ScopePath t name true) true = true ∧
  ValidateAccess t' (ScopePath t name true) true = false ∧
  ScopePath t (ScopePath t name true) true = ScopePath t name true.
Proof.
  intros Hne Hne' Ht Ht' Hd. assert (Hp := ScopePath_in t name Hne). assert (Hp' := ScopePath_in t' name' Hne').
  assert (Hx : HasPrefix (ScopePath t name true) (t' +:+ "/") = false).
  { apply not_true_is_false. intros Hp2. by apply Hd, (tenant_prefix_unique "/" t t' (ScopePath t name true)). }
  split_and!.
  - intros E. rewrite E in Hx. congruence.
  - unfold ValidateAccess. rewrite bool_decide_eq_false_2, (prefix_no_slash t _ Hne Ht Hp) by done. simpl. by rewrite Hp.
  - unfold ValidateAccess. rewrite bool_decide_eq_false_2, (prefix_no_slash t _ Hne Ht Hp) by done. simpl. rewrite Hx. simpl.
    apply bool_decide_eq_false. intros E. apply HasPrefix_spec in Hp as [u Hu]. rewrite E in Hu.
    rewrite Hu, !str_mem_app in Ht'. simpl in Ht'. by rewrite orb_true_r in Ht'.
  - by apply ScopePath_idemp.
Qed.

Lemma tenant_names_disjoint_witness :
  ValidateAccess "team-b" (ScopePath "team-a" "/team-b/db" true) true = false.
Proof. refine (proj1 (proj2 (proj2 (tenant_names_disjoint "team-a" "team-b" "/team-b/db" "" _ _ _ _ _)))); first [discriminate|reflexivity]. Defined.

(** Identifiers of leases use a dot, which a namespace taken from the request
    header may contain: the tenant [a] passes the access check for a lease of
    the tenant [a.b]. *)
Theorem dotted_namespace_crosses :
  assertTenantLeaseAccess (mkTenantCtx "a" None) true (ScopeLeaseID "a.b" "l_0aZ" true) = Ok tt ∧
  ScopeLeaseID "a.b" "l_0aZ" true = "a.b.l_0aZ".
Proof. by vm_compute. Qed.
