(* ===== verification/TokenStore.v ===== *)
(** Client tokens, internal/auth/token.go ([TokenStore]) and the agent tokens of
    internal/auth/agent.go. A token is an opaque string; the store keeps a
    record under its SHA-256 hash, in a map of the process or, when a
    repository is configured, in the repository, the map then being a cache
    that only [save] and [get] fill.

    The repository is the class [TokenRepo]: its methods and the table a
    reader sees; [TokenRepoLaws] is what the store relies on. A write that
    reports an error may still have taken effect (a Raft proposal that timed
    out), so the laws leave both outcomes open. SHA-256 and the token encoding
    are the class [TokenCodec]. Each reading of the clock is an argument, and
    so are the random bytes. The store's lock covers the map only, so [Renew]
    is not atomic: [renew_read] and [save] are its two halves. *)

From S2P Require Import Prelude.
From S2P Require Import Effects.
From S2P Require Import GoLib.
From S2P Require Import Domain.
From S2P Require Import Repos.

#[local] Open Scope Z_scope.

(** ** internal/repository/interfaces.go, [TokenRepository] *)

Class TokenRepo (R : Type) := {
  tr_Save : R → ClientToken → R * res unit;
  tr_Get : R → string → res ClientToken;
  tr_Revoke : R → string → Time → R * res unit;
  tr_view : R → gmap string ClientToken;
}.

(** The table after a revocation. *)
Definition revoke_in (m : gmap string ClientToken) (id : string) (at_ : Time) : gmap string ClientToken :=
  alter (λ t, ct_revoke t at_) id m.

Class TokenRepoLaws (R : Type) `{TokenRepo R} := {
  tr_Save_ok : ∀ r t r', tr_Save r t = (r', Ok tt) → tr_view r' = <[ct_ID t := t]> (tr_view r);
  tr_Save_err : ∀ r t r' e, tr_Save r t = (r', Err e) →
    tr_view r' = tr_view r ∨ tr_view r' = <[ct_ID t := t]> (tr_view r);
  tr_Get_ok : ∀ r id t, tr_Get r id = Ok t → tr_view r !! id = Some t;
  tr_Revoke_ok : ∀ r id at_ r', tr_Revoke r id at_ = (r', Ok tt) →
    is_Some (tr_view r !! id) ∧ tr_view r' = revoke_in (tr_view r) id at_;
  tr_Revoke_err : ∀ r id at_ r' e, tr_Revoke r id at_ = (r', Err e) →
    tr_view r' = tr_view r ∨ tr_view r' = revoke_in (tr_view r) id at_;
}.

(** The memory repository: a method that fails leaves the map as it was. *)
Definition or_same {A} (r : A) (x : res A) : A * res unit :=
  match x with Ok r' => (r', Ok tt) | Err e => (r, Err e) end.

#[global] Instance memory_token_repo : TokenRepo (gmap string ClientToken) := {|
  tr_Save := λ r t, or_same r (TokenRepository_Save r t);
  tr_Get := TokenRepository_Get;
  tr_Revoke := λ r id at_, or_same r (TokenRepository_Revoke r id at_);
  tr_view := id |}.

#[global] Instance memory_token_repo_laws : TokenRepoLaws (gmap string ClientToken).
Proof.
  split; simpl; unfold TokenRepository_Save, TokenRepository_Get, TokenRepository_Revoke, keyed_Get, keyed_Alter, id, or_same.
  - intros r t r' Hs. by case_all_in Hs; simplify_eq.
  - intros r t r' e Hs. case_all_in Hs; simplify_eq. by left.
  - intros r i t Hs. by case_all_in Hs; simplify_eq.
  - intros r i at_ r' Hs. destruct (r !! i) as [t|] eqn:E; simplify_eq. split; [by eexists|].
    unfold revoke_in. apply map_eq. intros j. destruct (decide (i = j)) as [->|Hj].
    + rewrite lookup_insert_eq, lookup_alter_eq. by rewrite E.
    + by rewrite lookup_insert_ne, lookup_alter_ne by done.
  - intros r i at_ r' e Hs. destruct (r !! i); simplify_eq. by left.
Qed.

(** ** The store *)

Class TokenCodec := {
  sha256_hex_string : string → string;
  RawURLEncode : bytes → string;
}.

Record TokenStore (R : Type) := mkTokenStore {
  ts_tokens : gmap string ClientToken;
  ts_repo : option R;
  ts_ttl : Duration;
}.
Arguments mkTokenStore {R}.
Arguments ts_tokens {R}.
Arguments ts_repo {R}.
Arguments ts_ttl {R}.

Definition defaultTTL : Duration := 24 * Hour.
Definition DefaultRootTokenTTL : Duration := 72 * Hour.
Definition defaultAgentTTL : Duration := 15 * Minute.
Definition maxAgentTTL : Duration := Hour.

Record AgentTokenScope := mkAgentTokenScope {
  as_ParentIdentityID : string;
  as_AgentID : string;
  as_AllowedActions : list string;
  as_PathPrefix : string;
}.

Definition ct_with_expiry (t : ClientToken) (e : Time) : ClientToken :=
  mkClientToken (ct_ID t) (ct_Subject t) (ct_Policies t) e (ct_Renewable t) (ct_Revoked t)
    (ct_ParentIdentityID t) (ct_AgentID t) (ct_AllowedActions t) (ct_PathPrefix t) (ct_MaxExpiresAt t).

Definition invalid_token : error := New ErrCodeUnauthorized "invalid token".
Definition token_revoked : error := New ErrCodeUnauthorized "token revoked".
Definition token_expired : error := New ErrCodeUnauthorized "token expired".

Section store.
Context {R : Type} `{TokenRepo R} {codec : TokenCodec}.

Definition NewTokenStore (ttl : Duration) : TokenStore R :=
  mkTokenStore ∅ None (if ttl <=? 0 then defaultTTL else ttl).
Definition SetRepository (s : TokenStore R) (repo : R) : TokenStore R :=
  mkTokenStore (ts_tokens s) (Some repo) (ts_ttl s).

Definition set_tokens (s : TokenStore R) (m : gmap string ClientToken) : TokenStore R :=
  mkTokenStore m (ts_repo s) (ts_ttl s).

Definition hashToken (token : string) : string := sha256_hex_string token.

(** [s.repo != nil]: the call on the repository, nothing without one. *)
Definition on_repo (call : R → R * res unit) : prog (TokenStore R) unit := λ s,
  match ts_repo s with
  | None => (s, Ok tt)
  | Some repo => let '(repo', r) := call repo in (SetRepository s repo', r)
  end.

Definition save (record : ClientToken) : prog (TokenStore R) unit :=
  _ ← on_repo (λ repo, tr_Save repo record);
  modify (λ s, set_tokens s (<[ct_ID record := record]> (ts_tokens s))).

Definition get (id : string) : prog (TokenStore R) ClientToken :=
  repo ← gets ts_repo;
  match repo with
  | Some repo =>
      record ← lift (tr_Get repo id);
      _ ← modify (λ s, set_tokens s (<[id := record]> (ts_tokens s)));
      mret record
  | None =>
      tokens ← gets ts_tokens;
      match tokens !! id with
      | None => raise (New ErrCodeNotFound "token not found")
      | Some record => mret record
      end
  end.

(** The random read fails or gives 32 bytes. *)
Definition new_token (raw : res bytes) : prog (TokenStore R) string :=
  match raw with
  | Err e => raise e
  | Ok raw => mret ("knxv_" +:+ RawURLEncode raw)
  end.

Definition Create (subject : string) (policies : list string) (ttl : Duration) (renewable : bool)
    (maxExpiresAt : Time) (raw : res bytes) (now : Time) : prog (TokenStore R) (string * ClientToken) :=
  own ← gets ts_ttl;
  let ttl := if ttl <=? 0 then own else ttl in
  token ← new_token raw;
  let expires := now + ttl in
  let record := mkClientToken (hashToken token) subject policies
    (if negb (IsZero maxExpiresAt) && After expires maxExpiresAt then maxExpiresAt else expires)
    renewable false "" "" [] "" maxExpiresAt in
  _ ← save record;
  mret (token, record).

Definition Issue (subject : string) (policies : list string) (raw : res bytes) (now1 now2 : Time)
    : prog (TokenStore R) (string * ClientToken) :=
  own ← gets ts_ttl;
  let ttl := if own <=? 0 then defaultTTL else own in
  Create subject policies ttl true (now1 + ttl) raw now2.

(** [Renew] up to its write: the record it will save. *)
Definition renew_read (token : string) (increment : Duration) (now1 now2 : Time) : prog (TokenStore R) ClientToken :=
  own ← gets ts_ttl;
  let increment := if increment <=? 0 then own else increment in
  record ← on_error (get (hashToken token)) (λ _, raise invalid_token);
  _ ← guard_not (ct_Revoked record) token_revoked;
  _ ← guard_not (negb (ct_Renewable record)) (New ErrCodeValidation "token is not renewable");
  _ ← guard_not (After now1 (ct_ExpiresAt record)) token_expired;
  let newExpiry := now2 + increment in
  let newExpiry := if negb (IsZero (ct_MaxExpiresAt record)) && After newExpiry (ct_MaxExpiresAt record)
                   then ct_MaxExpiresAt record else newExpiry in
  mret (ct_with_expiry record newExpiry).

Definition Renew (token : string) (increment : Duration) (now1 now2 : Time) : prog (TokenStore R) ClientToken :=
  record ← renew_read token increment now1 now2;
  _ ← save record;
  mret record.

Definition Revoke (token : string) (now : Time) : prog (TokenStore R) unit :=
  let id := hashToken token in
  repo ← gets ts_repo;
  match repo with
  | Some _ =>
      _ ← on_error (on_repo (λ repo, tr_Revoke repo id now))
            (λ e, match errors_As e with
                  | Some (ErrCodeNotFound, _) => raise invalid_token
                  | _ => raise e
                  end);
      modify (λ s, set_tokens s (delete id (ts_tokens s)))
  | None =>
      tokens ← gets ts_tokens;
      match tokens !! id with
      | None => raise invalid_token
      | Some record => modify (λ s, set_tokens s (<[id := ct_revoke record now]> (ts_tokens s)))
      end
  end.

Definition Authenticate (token : string) (now : Time) : prog (TokenStore R) ClientToken :=
  record ← on_error (get (hashToken token)) (λ _, raise invalid_token);
  _ ← guard_not (ct_Revoked record) token_revoked;
  _ ← guard_not (After now (ct_ExpiresAt record)) token_expired;
  mret record.

Definition RegisterRootTokenTTL (token : string) (policies : list string) (ttl : Duration) (now : Time)
    : prog (TokenStore R) unit :=
  let ttl := if ttl <=? 0 then DefaultRootTokenTTL else ttl in
  save (mkClientToken (hashToken token) "root" policies (now + ttl) false false "" "" [] "" 0).

Definition RegisterRootToken (token : string) (policies : list string) (now : Time) : prog (TokenStore R) unit :=
  RegisterRootTokenTTL token policies DefaultRootTokenTTL now.

Definition CreateAgent (subject : string) (policies : list string) (ttl : Duration) (scope : AgentTokenScope)
    (raw : res bytes) (now : Time) : prog (TokenStore R) (string * ClientToken) :=
  let ttl := if ttl <=? 0 then defaultAgentTTL else ttl in
  token ← new_token raw;
  let record := mkClientToken (hashToken token) subject policies (now + ttl) false false
    (as_ParentIdentityID scope) (as_AgentID scope) (as_AllowedActions scope) (as_PathPrefix scope) 0 in
  _ ← save record;
  mret (token, record).

(** ** Sequences of requests *)

Inductive token_op :=
  | OpIssue (subject : string) (policies : list string) (raw : res bytes) (now1 now2 : Time)
  | OpCreate (subject : string) (policies : list string) (ttl : Duration) (renewable : bool) (maxExpiresAt : Time)
      (raw : res bytes) (now : Time)
  | OpCreateAgent (subject : string) (policies : list string) (ttl : Duration) (scope : AgentTokenScope)
      (raw : res bytes) (now : Time)
  | OpRegisterRoot (token : string) (policies : list string) (ttl : Duration) (now : Time)
  | OpRenew (token : string) (increment : Duration) (now1 now2 : Time)
  | OpRevoke (token : string) (now : Time)
  | OpAuthenticate (token : string) (now : Time).

Definition token_step (op : token_op) : prog (TokenStore R) unit :=
  match op with
  | OpIssue subject policies raw now1 now2 => ignore (Issue subject policies raw now1 now2)
  | OpCreate subject policies ttl renewable max raw now => ignore (Create subject policies ttl renewable max raw now)
  | OpCreateAgent subject policies ttl scope raw now => ignore (CreateAgent subject policies ttl scope raw now)
  | OpRegisterRoot token policies ttl now => ignore (RegisterRootTokenTTL token policies ttl now)
  | OpRenew token increment now1 now2 => ignore (Renew token increment now1 now2)
  | OpRevoke token now => ignore (Revoke token now)
  | OpAuthenticate token now => ignore (Authenticate token now)
  end.

Definition token_run (ops : list token_op) (s : TokenStore R) : TokenStore R :=
  foldl (λ s op, (token_step op s).1) s ops.

(** The identifier an operation stores a new record under, if any. *)
Definition op_new_id (op : token_op) : option string :=
  match op with
  | OpIssue _ _ (Ok raw) _ _ | OpCreate _ _ _ _ _ (Ok raw) _ | OpCreateAgent _ _ _ _ (Ok raw) _ =>
      Some (hashToken ("knxv_" +:+ RawURLEncode raw))
  | OpRegisterRoot token _ _ _ => Some (hashToken token)
  | _ => None
  end.

(** None of the operations draws, or registers, this identifier again. *)
Definition never_reissued (id : string) (ops : list token_op) : Prop :=
  ∀ op, op ∈ ops → op_new_id op ≠ Some id.
End store.

(** ** The table a reader sees *)

Section table.
Context {R : Type} `{TokenRepoLaws R} {codec : TokenCodec}.
Implicit Types (s : TokenStore R) (t : ClientToken).

Definition view s : gmap string ClientToken :=
  match ts_repo s with Some repo => tr_view repo | None => ts_tokens s end.

(** Every record is stored under its identifier. *)
Definition table_wf s : Prop := map_Forall (λ id t, ct_ID t = id) (view s).

(** [get] and [save] on the table. *)
Lemma get_view id s : view (get id s).1 = view s.
Proof.
  unfold get, mbind, prog_bind, gets, lift, modify, view. cbn. destruct (ts_repo s) as [repo|] eqn:E; cbn.
  - destruct (tr_Get repo id); cbn; by rewrite ?E.
  - destruct (ts_tokens s !! id); cbn; by rewrite ?E.
Qed.

Lemma get_ok id s s' t : get id s = (s', Ok t) → view s !! id = Some t.
Proof.
  unfold get, mbind, prog_bind, gets, lift, modify, view. cbn. destruct (ts_repo s) as [repo|] eqn:E; cbn.
  - destruct (tr_Get repo id) eqn:G; cbn; intros [= _ ->]. by apply tr_Get_ok.
  - destruct (ts_tokens s !! id) eqn:G; cbn; by intros [= _ ->].
Qed.

Lemma fetch_ok id s s' t : on_error (get id) (λ _, raise invalid_token) s = (s', Ok t) →
  view s !! id = Some t ∧ view s' = view s.
Proof.
  unfold on_error. pose proof (get_view id s) as Hv. destruct (get id s) as [s1 [t1|e]] eqn:G; [|done].
  intros [= <- <-]. split; [by eapply get_ok|done].
Qed.

Lemma on_repo_view_none call s : ts_repo s = None → on_repo call s = (s, Ok tt).
Proof. unfold on_repo. by intros ->. Qed.

Lemma save_run t s s' r : save t s = (s', r) →
  (r = Ok tt ∧ view s' = <[ct_ID t := t]> (view s)) ∨
  (r ≠ Ok tt ∧ (view s' = view s ∨ view s' = <[ct_ID t := t]> (view s))).
Proof.
  unfold save, on_repo, mbind, prog_bind, view, modify. cbn. destruct (ts_repo s) as [repo|] eqn:E.
  - destruct (tr_Save repo t) as [repo' [[]|e]] eqn:G; cbn; intros [= <- <-]; cbn.
    + left. split; [done|]. by apply tr_Save_ok.
    + right. split; [done|]. by eapply tr_Save_err.
  - cbn. intros [= <- <-]. cbn. rewrite ?E. by left.
Qed.

Lemma save_view t s : view (save t s).1 = view s ∨ view (save t s).1 = <[ct_ID t := t]> (view s).
Proof. destruct (save t s) as [s' r] eqn:E. apply save_run in E as [[_ ?]|[_ ?]]; auto. Qed.

(** What can become of a record whose identifier is not issued again: renewed
    while it is active and renewable, up to its maximum, or revoked. *)
Record later (t t' : ClientToken) : Prop := {
  later_ID : ct_ID t' = ct_ID t;
  later_scope : ct_Policies t' = ct_Policies t ∧ ct_Subject t' = ct_Subject t ∧ ct_AllowedActions t' = ct_AllowedActions t ∧
    ct_PathPrefix t' = ct_PathPrefix t ∧ ct_AgentID t' = ct_AgentID t ∧ ct_ParentIdentityID t' = ct_ParentIdentityID t;
  later_renewable : ct_Renewable t' = ct_Renewable t;
  later_max : ct_MaxExpiresAt t' = ct_MaxExpiresAt t;
  later_revoked : ct_Revoked t = true → ct_Revoked t' = true;
  later_fixed : ct_Renewable t = false → ct_Revoked t' = false → ct_ExpiresAt t' = ct_ExpiresAt t;
  later_capped : ct_MaxExpiresAt t ≠ 0 → ct_ExpiresAt t ≤ ct_MaxExpiresAt t → ct_Revoked t' = false →
    ct_ExpiresAt t' ≤ ct_MaxExpiresAt t;
}.

Definition slot_later (o o' : option ClientToken) : Prop :=
  match o, o' with
  | None, None => True
  | Some t, Some t' => later t t'
  | _, _ => False
  end.

Lemma later_refl t : later t t.
Proof. by split. Qed.

Lemma later_trans t1 t2 t3 : later t1 t2 → later t2 t3 → later t1 t3.
Proof.
  intros [I1 (A1 & B1 & C1 & D1 & E1 & F1) R1 M1 V1 X1 P1] [I2 (A2 & B2 & C2 & D2 & E2 & F2) R2 M2 V2 X2 P2].
  assert (Hr : ct_Revoked t3 = false → ct_Revoked t2 = false).
  { intros H3. apply not_true_is_false. intros H2%V2. congruence. }
  split; try congruence; try (repeat split; congruence); auto.
  - intros Hn H3. rewrite X2, X1; auto. congruence.
  - intros Hm Hc H3. rewrite <- M1. apply P2; [congruence| |done]. rewrite M1. auto.
Qed.

#[global] Instance slot_later_preorder : PreOrder slot_later.
Proof.
  split.
  - intros [t|]; simpl; [apply later_refl|done].
  - intros [t1|] [t2|] [t3|]; simpl; try done. apply later_trans.
Qed.

Lemma later_revoke t at_ : later t (ct_revoke t at_).
Proof. by split. Qed.

(** The relation between two states of the store: the table stays well formed
    and the record of [id] only evolves. *)
Definition keeps (id : string) : relation (TokenStore R) := λ s s',
  table_wf s → table_wf s' ∧ slot_later (view s !! id) (view s' !! id).

#[global] Instance keeps_preorder id : PreOrder (keeps id).
Proof.
  split.
  - intros s Hs. done.
  - intros s1 s2 s3 H12 H23 Hs1. destruct (H12 Hs1) as [Hs2 L1]. destruct (H23 Hs2) as [Hs3 L2].
    split; [done|]. by etrans.
Qed.

Lemma keeps_same id s s' : view s' = view s → keeps id s s'.
Proof. unfold keeps, table_wf. by intros ->. Qed.

Lemma keeps_insert id s s' t : slot_later (view s !! ct_ID t) (Some t) ∨ ct_ID t ≠ id →
  view s' = <[ct_ID t := t]> (view s) → keeps id s s'.
Proof.
  intros Ht Hv Hs. unfold table_wf. rewrite Hv. split; [by apply map_Forall_insert_2|].
  destruct (decide (ct_ID t = id)) as [<-|Hne].
  - rewrite lookup_insert_eq. by destruct Ht.
  - by rewrite lookup_insert_ne.
Qed.

Lemma keeps_revoke id s s' id' at_ : view s' = revoke_in (view s) id' at_ → keeps id s s'.
Proof.
  intros Hv Hs. unfold table_wf, revoke_in in *. rewrite Hv. split.
  - intros k t Hk. apply lookup_alter_Some in Hk as [(-> & t0 & Hk & ->)|[_ Hk]]; by apply Hs in Hk.
  - destruct (decide (id' = id)) as [->|Hne].
    + rewrite lookup_alter_eq. destruct (view s !! id); [apply later_revoke|done].
    + by rewrite lookup_alter_ne.
Qed.

Lemma always_save_new id t : ct_ID t ≠ id → always (keeps id) (save (R := R) t).
Proof.
  intros Hne s. destruct (save_view t s) as [Hv|Hv].
  - by apply keeps_same.
  - eapply keeps_insert; eauto.
Qed.

Lemma always_get id k : always (keeps id) (get (R := R) k).
Proof. intros s. apply keeps_same, get_view. Qed.
#[local] Hint Resolve always_get : prog.

Lemma always_fetch id k : always (keeps id) (on_error (get (R := R) k) (λ _, raise invalid_token)).
Proof. eauto with prog. Qed.

(** Renewal up to its write. *)
Lemma renew_read_ok token increment now1 now2 s s1 t : renew_read token increment now1 now2 s = (s1, Ok t) →
  ∃ t0, view s !! hashToken token = Some t0 ∧ view s1 = view s ∧ later t0 t ∧
        ct_Revoked t0 = false ∧ now1 ≤ ct_ExpiresAt t0.
Proof.
  unfold renew_read. intros Hr. inv_run.
  match goal with Hf : on_error _ _ _ = _ |- _ => apply fetch_ok in Hf as [Hf Hv] end.
  eexists. split; [done|]. split; [done|]. unfold After, IsZero in *. bool_props. split; [|auto].
  split; try done; simpl; try congruence.
  intros Hm Hc _. case_all; bool_props; try lia.
Qed.

Lemma always_renew_read id token increment now1 now2 : always (keeps id) (renew_read (R := R) token increment now1 now2).
Proof. unfold renew_read. eauto 20 using always_fetch with prog. Qed.

Lemma always_Renew id token increment now1 now2 : always (keeps id) (Renew (R := R) token increment now1 now2).
Proof.
  intros s. unfold Renew. pose proof (always_renew_read id token increment now1 now2 s) as Hr.
  unfold mbind at 1, prog_bind at 1. destruct (renew_read token increment now1 now2 s) as [s1 [t|e]] eqn:E; [|done].
  apply renew_read_ok in E as (t0 & Ht0 & Hv & Hl & _). intros Hs.
  assert (Hk : keeps id s1 (save t s1).1).
  { destruct (save_view t s1) as [Hs1|Hs1]; [by apply keeps_same|].
    apply keeps_insert with (t := t); [left|done]. rewrite (later_ID _ _ Hl), (Hs _ _ Ht0), Hv, Ht0. done. }
  assert (Hs1 : table_wf s1) by (unfold table_wf in *; by rewrite Hv).
  unfold mbind, prog_bind. rewrite <- Hv in *. destruct (save t s1) as [s2 [u|e]]; by apply Hk.
Qed.

Lemma revoke_Some (m : gmap string ClientToken) id t at_ : m !! id = Some t →
  <[id := ct_revoke t at_]> m = revoke_in m id at_.
Proof.
  intros Hid. unfold revoke_in. apply map_eq. intros j. destruct (decide (id = j)) as [<-|Hj].
  - by rewrite lookup_insert_eq, lookup_alter_eq, Hid.
  - by rewrite lookup_insert_ne, lookup_alter_ne by done.
Qed.

(** Revocation on the table. *)
Lemma Revoke_run token now s s' r : Revoke token now s = (s', r) →
  (r = Ok tt ∧ is_Some (view s !! hashToken token) ∧ view s' = revoke_in (view s) (hashToken token) now) ∨
  (r ≠ Ok tt ∧ (view s' = view s ∨ view s' = revoke_in (view s) (hashToken token) now)).
Proof.
  unfold Revoke, on_repo, mbind, prog_bind, gets, on_error, modify, view. cbn. destruct (ts_repo s) as [repo|] eqn:E; cbn.
  - rewrite E. destruct (tr_Revoke repo (hashToken token) now) as [repo' [[]|e]] eqn:G; cbn.
    + intros [= <- <-]. left. apply tr_Revoke_ok in G as [? ?]. done.
    + intros Hr. right. apply tr_Revoke_err in G.
      destruct (errors_As e) as [[[] m]|]; injection Hr as <- <-; done.
  - destruct (ts_tokens s !! hashToken token) as [t|] eqn:G; cbn; intros [= <- <-]; cbn; rewrite ?E.
    + left. split; [done|]. split; [done|]. by apply revoke_Some.
    + right. auto.
Qed.

Lemma always_Revoke id token now : always (keeps id) (Revoke (R := R) token now).
Proof.
  intros s. destruct (Revoke token now s) as [s' r] eqn:E.
  apply Revoke_run in E as [(_ & _ & Hv)|(_ & [Hv|Hv])]; eauto using keeps_same, keeps_revoke.
Qed.

Lemma always_Authenticate id token now : always (keeps id) (Authenticate (R := R) token now).
Proof. unfold Authenticate. eauto 10 using always_fetch with prog. Qed.

(** What the operations that issue a token save. *)
Definition created (subject : string) (policies : list string) (ttl : Duration) (renewable : bool)
    (maxExpiresAt : Time) (raw : bytes) (now : Time) (own : Duration) : ClientToken :=
  let expires := now + (if ttl <=? 0 then own else ttl) in
  mkClientToken (hashToken ("knxv_" +:+ RawURLEncode raw)) subject policies
    (if negb (IsZero maxExpiresAt) && After expires maxExpiresAt then maxExpiresAt else expires)
    renewable false "" "" [] "" maxExpiresAt.

Lemma Create_eq subject policies ttl renewable max raw now s :
  Create subject policies ttl renewable max (Ok raw) now s =
  (let t := created subject policies ttl renewable max raw now (ts_ttl s) in
   (_ ← save t; mret ("knxv_" +:+ RawURLEncode raw, t)) s).
Proof. done. Qed.

Lemma Issue_eq subject policies raw now1 now2 s :
  Issue subject policies raw now1 now2 s =
  (let ttl := if ts_ttl s <=? 0 then defaultTTL else ts_ttl s in
   Create subject policies ttl true (now1 + ttl) raw now2 s).
Proof. done. Qed.

Lemma CreateAgent_run subject policies ttl scope raw now s s' token t :
  CreateAgent subject policies ttl scope raw now s = (s', Ok (token, t)) →
  ∃ rawb, raw = Ok rawb ∧ token = "knxv_" +:+ RawURLEncode rawb ∧ save t s = (s', Ok tt) ∧
    t = mkClientToken (hashToken token) subject policies (now + (if ttl <=? 0 then defaultAgentTTL else ttl)) false false
          (as_ParentIdentityID scope) (as_AgentID scope) (as_AllowedActions scope) (as_PathPrefix scope) 0.
Proof.
  destruct raw as [rawb|e]; [|done]. intros Hc. exists rawb. split; [done|].
  unfold CreateAgent, new_token in Hc. apply prog_bind_run in Hc as (s1 & tok & [= <- <-] & Hc).
  apply prog_bind_run in Hc as (s2 & [] & Hs & [= <- <- <-]). done.
Qed.

Lemma keeps_new id t s {A} (a : A) : ct_ID t ≠ id → keeps id s ((_ ← save t; mret a) s).1.
Proof. intros Hne. apply (always_bind (keeps id)); eauto using always_save_new with prog. Qed.

Lemma always_token_step id op : op_new_id op ≠ Some id → always (keeps id) (token_step (R := R) op).
Proof.
  destruct op; simpl; intros Hn; apply always_ignore; eauto using always_Renew, always_Revoke, always_Authenticate.
  - destruct raw as [raw|e]; [|by apply (always_pure (keeps id))]. intros s.
    rewrite Issue_eq, Create_eq. apply keeps_new. cbn. congruence.
  - destruct raw as [raw|e]; [|by apply (always_pure (keeps id))]. intros s. rewrite Create_eq. apply keeps_new. cbn. congruence.
  - destruct raw as [raw|e]; [|by apply (always_pure (keeps id))]. intros s. apply keeps_new. cbn. congruence.
  - apply always_save_new. cbn. congruence.
Qed.

Lemma token_run_keeps id ops s : never_reissued id ops → keeps id s (token_run ops s).
Proof.
  unfold never_reissued, token_run. revert s; induction ops as [|op ops IH]; intros s Hn; simpl; [done|].
  etrans; [apply always_token_step, Hn; by left|]. apply IH. intros op' Hop. apply Hn. by right.
Qed.

(** A successful authentication. *)
Lemma Authenticate_ok token now s s' t : Authenticate token now s = (s', Ok t) →
  view s !! hashToken token = Some t ∧ ct_Revoked t = false ∧ now ≤ ct_ExpiresAt t.
Proof.
  unfold Authenticate. intros Ha. inv_run.
  match goal with Hf : on_error _ _ _ = _ |- _ => apply fetch_ok in Hf as [Hf Hv] end.
  unfold After in *. bool_props. done.
Qed.

Lemma Authenticate_err token now s s' e : Authenticate token now s = (s', Err e) →
  e = invalid_token ∨
  ∃ t, view s !! hashToken token = Some t ∧
       ((e = token_revoked ∧ ct_Revoked t = true) ∨
        (e = token_expired ∧ ct_Revoked t = false ∧ ct_ExpiresAt t < now)).
Proof.
  unfold Authenticate, mbind, prog_bind.
  destruct (on_error (get (hashToken token)) (λ _, raise invalid_token) s) as [s1 [t|e1]] eqn:Hf.
  - apply fetch_ok in Hf as [Hf _]. unfold guard_not, lift, After. intros Ha. right. exists t. split; [done|].
    destruct (ct_Revoked t) eqn:Hrv; cbn in Ha; [injection Ha as _ <-; auto|].
    destruct (ct_ExpiresAt t <? now) eqn:Hx; cbn in Ha; [|done]. injection Ha as _ <-. bool_props. auto.
  - unfold on_error in Hf. destruct (get (hashToken token) s) as [s2 [t|e2]]; [done|]. injection Hf as <- <-.
    intros [= _ <-]. by left.
Qed.
End table.

(** ** Theorems *)

(** Two stores over one repository, whatever each process has in its cache. *)
Definition same_repo {R} (s s' : TokenStore R) : Prop :=
  is_Some (ts_repo s) ∧ ts_repo s = ts_repo s' ∧ ts_ttl s = ts_ttl s'.

Definition agree {R A} (x y : TokenStore R * res A) : Prop := same_repo x.1 y.1 ∧ x.2 = y.2.
Definition cache_blind {R A} (m : prog (TokenStore R) A) : Prop := ∀ s s', same_repo s s' → agree (m s) (m s').

Section blind.
Context {R : Type} `{TokenRepo R} {codec : TokenCodec}.

Lemma blind_bind {A B} (m : prog (TokenStore R) A) (k : A → prog (TokenStore R) B) :
  cache_blind m → (∀ a, cache_blind (k a)) → cache_blind (m ≫= k).
Proof.
  intros Hm Hk s s' Hs. destruct (Hm s s' Hs) as [H1 H2]. unfold mbind, prog_bind.
  destruct (m s) as [s1 r1], (m s') as [s2 r2]. simpl in *. subst r2. destruct r1; [by apply Hk|done].
Qed.
Lemma blind_ret {A} (a : A) : cache_blind (R := R) (mret a).
Proof. by intros s s' Hs. Qed.
Lemma blind_lift {A} (r : res A) : cache_blind (R := R) (lift r).
Proof. by intros s s' Hs. Qed.
Lemma blind_raise {A} e : cache_blind (R := R) (raise (A := A) e).
Proof. by intros s s' Hs. Qed.
Lemma blind_guard c e : cache_blind (R := R) (guard_not c e).
Proof. by intros s s' Hs. Qed.
Lemma blind_ttl : cache_blind (R := R) (gets ts_ttl).
Proof. intros s s' Hs. split; [done|]. destruct Hs as (_ & _ & Ht). cbn. by rewrite Ht. Qed.
Lemma blind_cache f : cache_blind (R := R) (modify (λ s, set_tokens s (f (ts_tokens s)))).
Proof. intros s s' Hs. split; [|done]. exact Hs. Qed.
Lemma blind_on_error {A} (m : prog (TokenStore R) A) h :
  cache_blind m → (∀ e, cache_blind (h e)) → cache_blind (on_error m h).
Proof.
  intros Hm Hh s s' Hs. destruct (Hm s s' Hs) as [H1 H2]. unfold on_error.
  destruct (m s) as [s1 r1], (m s') as [s2 r2]. simpl in *. subst r2. destruct r1; [done|by apply Hh].
Qed.
Lemma blind_ignore {A} (m : prog (TokenStore R) A) : cache_blind m → cache_blind (ignore m).
Proof. intros Hm s s' Hs. destruct (Hm s s' Hs) as [H1 _]. by split. Qed.
Lemma blind_on_repo call : cache_blind (R := R) (on_repo call).
Proof.
  intros s s' (Hs & He & Ht). unfold on_repo. rewrite <- He. destruct (ts_repo s) as [repo|]; [|by destruct Hs].
  destruct (call repo). by repeat split.
Qed.

(** A program that first asks for the repository, run where there is one. *)
Lemma blind_repo {A} (some : R → prog (TokenStore R) A) none :
  (∀ repo, cache_blind (some repo)) →
  cache_blind (repo ← gets ts_repo; match repo with Some repo => some repo | None => none end).
Proof.
  intros Hk s s' Hs. pose proof Hs as ([repo Hr] & He & _). unfold mbind, prog_bind, gets. rewrite <- He, Hr. by apply Hk.
Qed.
End blind.

Create HintDb blind discriminated.
#[export] Hint Resolve blind_bind blind_ret blind_lift blind_raise blind_guard blind_ttl blind_cache
  blind_on_error blind_ignore blind_on_repo blind_repo : blind.
#[export] Hint Extern 2 (cache_blind (match ?x with _ => _ end)) => destruct x : blind.

Section blind_ops.
Context {R : Type} `{TokenRepo R} {codec : TokenCodec}.

Lemma blind_get id : cache_blind (R := R) (get id).
Proof. unfold get. eauto 10 with blind. Qed.
Lemma blind_save t : cache_blind (R := R) (save t).
Proof. unfold save. eauto with blind. Qed.
#[local] Hint Resolve blind_get blind_save : blind.

Lemma blind_Authenticate token now : cache_blind (R := R) (Authenticate token now).
Proof. unfold Authenticate. eauto 10 with blind. Qed.
Lemma blind_Revoke token now : cache_blind (R := R) (Revoke token now).
Proof.
  unfold Revoke. apply blind_repo. intros repo. apply blind_bind; [|intros; apply (blind_cache (delete _))].
  apply blind_on_error; [eauto with blind|]. intros e. destruct (errors_As e) as [[[] m]|]; eauto with blind.
Qed.
Lemma blind_Renew token increment now1 now2 : cache_blind (R := R) (Renew token increment now1 now2).
Proof. unfold Renew, renew_read. eauto 20 with blind. Qed.
Lemma blind_Create subject policies ttl renewable max raw now :
  cache_blind (R := R) (Create subject policies ttl renewable max raw now).
Proof. unfold Create, new_token. eauto 20 with blind. Qed.
#[local] Hint Resolve blind_Authenticate blind_Revoke blind_Renew blind_Create : blind.

Lemma blind_step op : cache_blind (R := R) (token_step op).
Proof.
  destruct op; simpl; apply blind_ignore; unfold Issue, CreateAgent, new_token, RegisterRootTokenTTL; eauto 20 with blind.
Qed.

Lemma blind_run ops s s' : same_repo s s' → same_repo (token_run ops s) (token_run ops s').
Proof.
  unfold token_run. revert s s'; induction ops as [|op ops IH]; intros s s' Hs; simpl; [done|].
  apply IH, blind_step, Hs.
Qed.
End blind_ops.

Section theorems.
Context {R : Type} `{TokenRepoLaws R} {codec : TokenCodec}.

(** C5. A revocation that returned stays in force: whatever requests follow,
    on this process or through any other store on the same repository, as long
    as none issues the same identifier again, the token neither authenticates
    nor renews. *)
Theorem revocation_final (s s1 : TokenStore R) token now ops :
  table_wf s → Revoke token now s = (s1, Ok tt) → never_reissued (hashToken token) ops →
  (∀ now', (Authenticate token now' (token_run ops s1)).2 ∈ [Err token_revoked; Err invalid_token]) ∧
  (∀ increment now1 now2, ¬ is_Ok (Renew token increment now1 now2 (token_run ops s1)).2).
Proof.
  intros Hs Hr Hn. pose proof (always_run _ _ _ _ _ (always_Revoke (hashToken token) token now) Hr Hs) as [Hs1 _].
  apply Revoke_run in Hr as [(_ & [t0 Ht0] & Hv)|[? _]]; [|done].
  assert (Hv1 : view s1 !! hashToken token = Some (ct_revoke t0 now)).
  { rewrite Hv. unfold revoke_in. by rewrite lookup_alter_eq, Ht0. }
  destruct (token_run_keeps _ ops s1 Hn Hs1) as [_ Hl]. rewrite Hv1 in Hl.
  assert (Hrev : ∀ t, view (token_run ops s1) !! hashToken token = Some t → ct_Revoked t = true).
  { intros t Ht. rewrite Ht in Hl. by apply (later_revoked _ _ Hl). }
  split.
  - intros now'. destruct (Authenticate token now' (token_run ops s1)) as [s2 [t|e]] eqn:Ha; cbn.
    + apply Authenticate_ok in Ha as (Ht & Hf & _). apply Hrev in Ht. congruence.
    + apply Authenticate_err in Ha as [->|(t & Ht & [[-> _]|(_ & Hf & _)])]; [by do 2 constructor|by constructor|].
      apply Hrev in Ht. congruence.
  - intros increment now1 now2 [t Ht]. unfold Renew in Ht. unfold mbind at 1, prog_bind at 1 in Ht.
    destruct (renew_read token increment now1 now2 (token_run ops s1)) as [s2 [t'|e]] eqn:Hrr; [|done].
    apply renew_read_ok in Hrr as (t1 & Ht1 & _ & _ & Hf & _). apply Hrev in Ht1. congruence.
Qed.

(** The record a token authenticates with later is the one it was issued with,
    renewed. *)
Lemma issued_later (s s1 s2 : TokenStore R) t0 token ops now' t :
  table_wf s → save t0 s = (s1, Ok tt) → ct_ID t0 = hashToken token → never_reissued (hashToken token) ops →
  Authenticate token now' (token_run ops s1) = (s2, Ok t) →
  later t0 t ∧ ct_Revoked t = false ∧ now' ≤ ct_ExpiresAt t.
Proof.
  intros Hs Hsave Hid Hn Ha. apply save_run in Hsave as [[_ Hv]|[? _]]; [|done].
  assert (Hs1 : table_wf s1) by (unfold table_wf in *; rewrite Hv; by apply map_Forall_insert_2).
  destruct (token_run_keeps _ ops s1 Hn Hs1) as [_ Hl]. apply Authenticate_ok in Ha as (Ht & Hf & Hx).
  rewrite Ht, Hv, <- Hid, lookup_insert_eq in Hl. done.
Qed.

(** The maximum lifetime is hard: a token created with a maximum expiry
    authenticates at no later time, whatever renewals happen in between, and
    always with the subject, policies and scope it was created with. *)
Theorem token_lifetime_capped (s s1 s2 : TokenStore R) subject policies ttl renewable max raw now token t0 ops now' t :
  table_wf s → max ≠ 0 → Create subject policies ttl renewable max raw now s = (s1, Ok (token, t0)) →
  never_reissued (hashToken token) ops → Authenticate token now' (token_run ops s1) = (s2, Ok t) →
  now' ≤ max ∧ ct_Subject t = subject ∧ ct_Policies t = policies ∧
  (renewable = false → ct_ExpiresAt t = ct_ExpiresAt t0).
Proof.
  intros Hs Hm Hc Hn Ha. destruct raw as [raw|e]; [|done]. rewrite Create_eq in Hc. cbv zeta in Hc.
  apply prog_bind_run in Hc as (s1' & [] & Hsave & [= -> <- <-]).
  destruct (issued_later _ _ _ _ _ _ _ _ Hs Hsave eq_refl Hn Ha) as [[_ (Hp & Hsub & _) _ _ _ Hfix Hcap] [Hf Hx]].
  split; [|split; [done|split; [done|by intros; apply Hfix]]].
  transitivity (ct_ExpiresAt t); [done|]. apply Hcap; [done| |done]. cbn. unfold After, IsZero.
  case_all; bool_props; lia.
Qed.

(** With a repository the cache of a process is never consulted: two
    processes whose stores share a repository give the same answer to every
    authentication, after any requests and whatever their caches hold, so a
    stale cache cannot keep a revoked token alive. *)
Theorem cache_irrelevant (s s' : TokenStore R) ops token now :
  same_repo s s' → (Authenticate token now (token_run ops s)).2 = (Authenticate token now (token_run ops s')).2.
Proof. intros Hs. by apply blind_Authenticate, blind_run. Qed.
End theorems.

(** ** Two ways around a revocation *)

Section memory.
Context {codec : TokenCodec}.
Abbreviation store := (TokenStore (gmap string ClientToken)).

(** A store in which the token's record is [t]. *)
Definition holds (s : store) (token : string) (t : ClientToken) : Prop :=
  view s !! hashToken token = Some t ∧ ct_ID t = hashToken token ∧ ct_ID t ≠ "".

Lemma Authenticate_active (s : store) token t now : holds s token t → ct_Revoked t = false → now ≤ ct_ExpiresAt t →
  (Authenticate token now s).2 = Ok t.
Proof.
  intros (Hv & _) Hr Hx. unfold Authenticate, get, mbind, prog_bind, on_error, gets, lift, modify, view in *. cbn in *.
  assert (Ha : After now (ct_ExpiresAt t) = false) by (unfold After; apply Z.ltb_ge; lia).
  destruct (ts_repo s) as [repo|] eqn:E; cbn in *; unfold TokenRepository_Get, keyed_Get; rewrite ?Hv; cbn;
    unfold guard_not, lift; by rewrite Hr, Ha.
Qed.

Lemma save_holds (s : store) token t : ct_ID t = hashToken token → ct_ID t ≠ "" →
  ∃ s', save t s = (s', Ok tt) ∧ holds s' token t.
Proof.
  intros Hid Hne. destruct (save t s) as [s' r] eqn:E.
  assert (r = Ok tt) as ->.
  { revert E. unfold save, on_repo, mbind, prog_bind, modify. destruct (ts_repo s); cbn; [|by intros [= _ <-]].
    unfold TokenRepository_Save. rewrite bool_decide_eq_false_2 by done. by intros [= _ <-]. }
  exists s'. split; [done|]. apply save_run in E as [[_ Hv]|[? _]]; [|done].
  split; [|done]. by rewrite Hv, <- Hid, lookup_insert_eq.
Qed.

Lemma Revoke_succeeds (s : store) token t now : holds s token t → ∃ s', Revoke token now s = (s', Ok tt).
Proof.
  intros (Hv & _). unfold Revoke, on_repo, mbind, prog_bind, gets, on_error, modify, view in *. cbn in *.
  destruct (ts_repo s) as [repo|] eqn:E; cbn in *; rewrite ?E; cbn.
  - unfold TokenRepository_Revoke, keyed_Alter. rewrite Hv. cbn. by eexists.
  - rewrite Hv. by eexists.
Qed.

Lemma renew_read_active (s : store) token increment now1 now2 t : holds s token t → ct_Revoked t = false →
  ct_Renewable t = true → now1 ≤ ct_ExpiresAt t → 0 < increment →
  ∃ s1, renew_read token increment now1 now2 s = (s1, Ok (ct_with_expiry t
    (if negb (IsZero (ct_MaxExpiresAt t)) && After (now2 + increment) (ct_MaxExpiresAt t)
     then ct_MaxExpiresAt t else now2 + increment))) ∧ holds s1 token t.
Proof.
  intros (Hv & Hid) Hr Hn Hx Hi.
  assert (Ha : After now1 (ct_ExpiresAt t) = false) by (unfold After; apply Z.ltb_ge; lia).
  assert (Hp : (increment <=? 0) = false) by (apply Z.leb_gt; lia).
  unfold renew_read, holds. unfold mbind, prog_bind, gets. cbn. rewrite Hp. unfold on_error.
  pose proof (get_view (hashToken token) s) as Hg.
  assert (Ho : ∃ s1, get (hashToken token) s = (s1, Ok t)).
  { revert Hv. unfold get, view, mbind, prog_bind, gets, lift, modify. cbn. destruct (ts_repo s) as [repo|]; cbn; intros Hv.
    - unfold TokenRepository_Get, keyed_Get. rewrite Hv. by eexists.
    - rewrite Hv. by eexists. }
  destruct Ho as [s1 Ho]. rewrite Ho in *. cbn in Hg. unfold guard_not, lift. rewrite Hr, Hn, Ha. cbn.
  exists s1. rewrite Hg. done.
Qed.

(** [Renew] reads the record and writes it back without a lock, so a
    revocation that lands in between is lost: the renewal of the old record
    is saved over it, and the token, whose revocation was reported as done,
    authenticates again. *)
Theorem renew_revoke_race (s : store) token t increment now1 now2 now3 now4 :
  holds s token t → ct_Revoked t = false → ct_Renewable t = true → now1 ≤ ct_ExpiresAt t → 0 < increment →
  now4 ≤ now2 + increment → (ct_MaxExpiresAt t = 0 ∨ now4 ≤ ct_MaxExpiresAt t) →
  ∃ s1 t' s2 s3, renew_read token increment now1 now2 s = (s1, Ok t') ∧
    Revoke token now3 s1 = (s2, Ok tt) ∧ save t' s2 = (s3, Ok tt) ∧
    (Authenticate token now4 s3).2 = Ok t'.
Proof.
  intros Ht Hr Hn Hx Hi H4 Hm. destruct (renew_read_active s token increment now1 now2 t) as (s1 & E1 & H1); [done..|].
  destruct (Revoke_succeeds s1 token t now3 H1) as [s2 E2]. destruct H1 as (_ & Hid & Hne).
  match type of E1 with _ = (_, Ok ?t') => set (t1 := t') in * end.
  destruct (save_holds s2 token t1 Hid Hne) as (s3 & E3 & H3).
  exists s1, t1, s2, s3. split; [done|]. split; [done|]. split; [done|].
  apply Authenticate_active; [done|done|]. unfold After, IsZero in *. cbn in *. case_all; bool_props; lia.
Qed.

(** Revoking the bootstrap root token does not survive a restart: start-up
    registers the configured token again, which stores a fresh, unrevoked
    record under the same hash. *)
Theorem root_revocation_undone (s s1 : store) token policies ttl now now2 now3 :
  hashToken token ≠ "" → Revoke token now s = (s1, Ok tt) → 0 < ttl → now3 ≤ now2 + ttl →
  ∃ s2, RegisterRootTokenTTL token policies ttl now2 s1 = (s2, Ok tt) ∧
        is_Ok (Authenticate token now3 s2).2.
Proof.
  intros Hne _ Ht Hx. unfold RegisterRootTokenTTL. rewrite (proj2 (Z.leb_gt ttl 0) Ht).
  edestruct (save_holds s1 token) as (s2 & E & Hh); [| |exists s2; split; [exact E|]]; [done|done|].
  eexists. by apply Authenticate_active.
Qed.
End memory.

(** ** Witnesses *)

Definition toy_codec : TokenCodec := {|
  sha256_hex_string := λ s, "h:" +:+ s;
  RawURLEncode := string_of |}.

Definition demo_tokens : TokenStore (gmap string ClientToken) := SetRepository (NewTokenStore Hour) ∅.
Definition demo_raw : res bytes := Ok (bytes_of "r1").
Definition demo_token : string := "knxv_r1".
Definition demo_issued : TokenStore (gmap string ClientToken) :=
  (Create (codec := toy_codec) "ci" ["secrets-reader"] Hour true 5000000000000 demo_raw 1000 demo_tokens).1.
Definition demo_ops : list token_op :=
  [OpRenew demo_token Hour 2000 2001; OpAuthenticate demo_token 3000;
   OpCreate "other" ["admin"] Hour true 0 (Ok (bytes_of "r2")) 4000].

Lemma demo_tokens_wf : table_wf demo_tokens.
Proof. exact (map_Forall_empty (M := gmap string) _). Qed.

Lemma demo_issued_wf : table_wf demo_issued.
Proof. unfold table_wf. apply map_Forall_insert_2; [done|]. apply map_Forall_empty. Qed.

Lemma demo_ops_fresh : never_reissued (codec := toy_codec) (hashToken (codec := toy_codec) demo_token) demo_ops.
Proof. intros op Hop. repeat (apply elem_of_cons in Hop as [->|Hop]; [discriminate|]). by apply elem_of_nil in Hop. Qed.

Lemma revocation_final_witness :
  (Authenticate (codec := toy_codec) demo_token 2000
            (token_run (codec := toy_codec) demo_ops (Revoke (codec := toy_codec) demo_token 1500 demo_issued).1)).2
          ∈ [Err token_revoked; Err invalid_token].
Proof.
  refine (proj1 (revocation_final (codec := toy_codec) demo_issued _ demo_token 1500 demo_ops demo_issued_wf _ _) 2000).
  - apply run_eq. vm_compute. reflexivity.
  - exact demo_ops_fresh.
Defined.

Lemma token_lifetime_capped_witness :
  4000000000000 <= 5000000000000.
Proof.
  refine (proj1 (token_lifetime_capped (codec := toy_codec) demo_tokens _ _ "ci" ["secrets-reader"] Hour true 5000000000000
    demo_raw 1000 demo_token _ [OpRenew demo_token (2 * Hour) 2000 2001] 4000000000000 _ _ _ _ _ _)).
  - exact demo_tokens_wf.
  - discriminate.
  - apply run_eq. vm_compute. reflexivity.
  - intros op Hop. apply list_elem_of_singleton in Hop as ->. discriminate.
  - apply run_eq. vm_compute. reflexivity.
Defined.

Lemma cache_irrelevant_witness :
  (Authenticate (codec := toy_codec) demo_token 2000 (token_run (codec := toy_codec) demo_ops demo_issued)).2 =
  (Authenticate (codec := toy_codec) demo_token 2000 (token_run (codec := toy_codec) demo_ops (set_tokens demo_issued ∅))).2.
Proof.
  apply (cache_irrelevant (codec := toy_codec)). split; [|split; reflexivity]. eexists. reflexivity.
Defined.

Definition demo_record : ClientToken :=
  created (codec := toy_codec) "ci" ["secrets-reader"] Hour true 5000000000000 (bytes_of "r1") 1000 Hour.

Lemma demo_issued_holds : holds (codec := toy_codec) demo_issued demo_token demo_record.
Proof. split; [vm_compute; reflexivity|]. split; [reflexivity|discriminate]. Qed.

Lemma renew_revoke_race_witness :
  ∃ s1 t' s2 s3, renew_read (codec := toy_codec) demo_token Hour 2000 2001 demo_issued = (s1, Ok t') ∧
    Revoke (codec := toy_codec) demo_token 2002 s1 = (s2, Ok tt) ∧ save t' s2 = (s3, Ok tt) ∧
    (Authenticate (codec := toy_codec) demo_token 2003 s3).2 = Ok t'.
Proof.
  apply (renew_revoke_race (codec := toy_codec) demo_issued demo_token demo_record); try exact demo_issued_holds;
    try reflexivity; vm_compute; try discriminate. by right.
Defined.

Lemma root_revocation_undone_witness :
  ∃ s2, RegisterRootTokenTTL (codec := toy_codec) demo_token ["admin"] Hour 3000
          (Revoke (codec := toy_codec) demo_token 2000 demo_issued).1 = (s2, Ok tt) ∧
        is_Ok (Authenticate (codec := toy_codec) demo_token 4000 s2).2.
Proof.
  apply (root_revocation_undone (codec := toy_codec) demo_issued _ demo_token ["admin"] Hour 2000).
  - discriminate.
  - apply run_eq. vm_compute. reflexivity.
  - reflexivity.
  - vm_compute. discriminate.
Defined.
