(* ===== verification/Identity.v ===== *)
(** Who a caller is and what a delegated token may touch: principals
    (internal/auth/context.go), service accounts and role bindings
    (role_binding.go), role resolution (role_resolver.go, rbac.go), MFA claims
    (login_audit.go), OIDC claims and lifetimes (oidc.go), and the pure part of
    agent delegation (agent.go).

    Values of the request context that the source keeps in a
    [context.Context] are arguments. *)

From Stdlib Require Import Ascii.
From S2P Require Import Prelude.
From S2P Require Import GoLib.
From S2P Require Import Glob.
From S2P Require Import Policy.
From S2P Require Import Domain.
From S2P Require Import Ttl.
From S2P Require Import Repos.
From S2P Require Import TokenStore.

#[local] Open Scope Z_scope.

(** ** strings.Trim with a one-byte cutset and strings.ReplaceAll *)

Fixpoint TrimLeftByte (c : ascii) (s : string) : string :=
  match s with
  | String d s' => if Ascii.eqb c d then TrimLeftByte c s' else s
  | EmptyString => ""
  end.

Fixpoint TrimRightByte (c : ascii) (s : string) : string :=
  match s with
  | EmptyString => ""
  | String d s' =>
      let t := TrimRightByte c s' in
      if (t =s "") && Ascii.eqb c d then "" else String d t
  end.

Definition TrimByte (c : ascii) (s : string) : string := TrimRightByte c (TrimLeftByte c s).

(** Occurrences are replaced from the left and do not overlap; [skip] bytes of
    the current one are still to be dropped. [old] is not empty. *)
Fixpoint replace_skip (skip : nat) (s old new : string) : string :=
  match s with
  | EmptyString => ""
  | String c s' =>
      match skip with
      | S k => replace_skip k s' old new
      | O => if HasPrefix s old then new +:+ replace_skip (String.length old - 1) s' old new
             else String c (replace_skip 0 s' old new)
      end
  end.
Definition ReplaceAll (s old new : string) : string := replace_skip 0 s old new.

(** ** context.go *)

Record Principal := mkPrincipal {
  pp_Subject : string;
  pp_Policies : list string;
  pp_TokenID : string;
  pp_ParentIdentityID : string;
  pp_AgentID : string;
  pp_AllowedActions : list string;
  pp_PathPrefix : string;
}.

(** ** role_binding.go *)

Record ServiceAccountIdentity := mkServiceAccount {
  sa_Namespace : string;
  sa_Name : string;
  sa_Username : string;
}.

Definition no_identity : ServiceAccountIdentity := mkServiceAccount "" "" "".

Definition containsString (items : list string) (want : string) : bool := existsb (λ item, item =s want) items.

Definition sa_prefix : string := "system:serviceaccount:".

Definition ParseServiceAccountUsername (username : string) : option ServiceAccountIdentity :=
  if negb (HasPrefix username sa_prefix) then None
  else match SplitN2 (TrimPrefix username sa_prefix) ":" with
       | [ns; name] => if (ns =s "") || (name =s "") then None else Some (mkServiceAccount ns name username)
       | _ => None
       end.

Definition MatchServiceAccountBinding (role : option Role) (id : ServiceAccountIdentity) : res unit :=
  match role with
  | None => Ok tt
  | Some role =>
      let names := role_BoundServiceAccountNames role in
      let namespaces := role_BoundServiceAccountNamespaces role in
      _ ← reject (bool_decide (names = []) && bool_decide (namespaces = []))
            (New ErrCodeForbidden "kubernetes role requires service account bindings");
      _ ← reject ((sa_Namespace id =s "") || (sa_Name id =s ""))
            (New ErrCodeForbidden "service account identity required");
      _ ← reject (negb (bool_decide (namespaces = [])) && negb (containsString namespaces (sa_Namespace id)) &&
                  negb (containsString namespaces "*"))
            (New ErrCodeForbidden "service account namespace not bound to role");
      reject (negb (bool_decide (names = [])) && negb (containsString names (sa_Name id)) &&
              negb (containsString names "*"))
        (New ErrCodeForbidden "service account name not bound to role")
  end.

Definition ResolveTenantNamespace (header0 subject : string) : res string :=
  let header := TrimSpace header0 in
  match ParseServiceAccountUsername subject with
  | Some id =>
      if negb (header =s "") && negb (header =s sa_Namespace id)
      then Err (New ErrCodeForbidden "namespace header does not match service account")
      else Ok (sa_Namespace id)
  | None => Ok header
  end.

Definition RequestNamespace (header subject : string) : string :=
  match ResolveTenantNamespace header subject with Ok ns => ns | Err _ => "" end.

(** ** rbac.go and role_resolver.go *)

Definition RolePolicies : gmap string (list string) := list_to_map [
  ("admin", ["admin"]); ("pki-admin", ["pki-admin"]); ("secrets-admin", ["secrets-admin"]);
  ("secrets-reader", ["secrets-reader"]); ("audit-reader", ["audit-reader"]);
  ("policy-admin", ["policy-admin"]); ("inject-reader", ["inject-reader"]); ("default", ["secrets-reader"])].

Definition PoliciesForRole (role0 : string) : list string :=
  let role := TrimSpace role0 in
  match RolePolicies !! role with
  | Some policies => policies
  | None => default [] (RolePolicies !! "default")
  end.

(** The names seen so far and the output. *)
Definition flatten_step (acc : gset string * list string) (name : string) : gset string * list string :=
  let '(seen, out) := acc in
  if name =s "" then acc
  else if bool_decide (name ∈ seen) then acc
  else ({[name]} ∪ seen, out ++ [name]).

Definition flattenRolePolicies (policies groups : list string) : list string :=
  if bool_decide (groups = []) then policies
  else (foldl flatten_step (∅, []) (policies ++ groups)).2.

(** The resolver over a role repository, [None] when there is none. *)
Definition GetStoredRole (roles : option (gmap string Role)) (name : string) : res Role :=
  match roles with
  | None => Err (Plain "role not found")
  | Some roles => RoleRepository_Get roles name
  end.

Definition GetRole (roles : option (gmap string Role)) (name : string) : res Role :=
  match GetStoredRole roles name with
  | Ok stored => Ok stored
  | Err _ =>
      let policies := PoliciesForRole name in
      if bool_decide (policies = []) then Err (Plain "role not found")
      else Ok (mkRole name policies [] [] [] "" None false)
  end.

Definition resolver_PoliciesForRole (roles : option (gmap string Role)) (role : string) : list string :=
  match GetRole roles role with
  | Ok stored => flattenRolePolicies (role_Policies stored) (role_PolicyGroups stored)
  | Err _ => PoliciesForRole role
  end.

(** ** login_audit.go, [CheckMFA] *)

Definition acr_ok (claims : gmap string any) : bool :=
  match claims !! "acr" with
  | Some (VStr v) => (v =s "mfa") || (v =s "urn:mace:incommon:iap:silver")
  | Some (VNum v) => 2 <=? v
  | _ => false
  end.

Definition strong_factor (s : string) : bool := (s =s "mfa") || (s =s "otp") || (s =s "hwk").

Definition amr_ok (claims : gmap string any) : bool :=
  match claims !! "amr" with
  | Some (VStr v) => strong_factor v
  | Some (VList l) => existsb (λ item, match item with VStr s => strong_factor s | _ => false end) l
  | _ => false
  end.

Definition CheckMFA (requireMFA : bool) (claims : gmap string any) : res unit :=
  if negb requireMFA then Ok tt
  else if acr_ok claims then Ok tt
  else if amr_ok claims then Ok tt
  else Err (New ErrCodeForbidden "mfa required for administrative role").

(** ** oidc.go *)

Definition audienceMatches (audClaim : option any) (expected : string) : bool :=
  match audClaim with
  | Some (VStr v) => v =s expected
  | Some (VList l) => existsb (λ item, match item with VStr s => s =s expected | _ => false end) l
  | _ => false
  end.

(** [time.Duration(cfg.MaxTTL) * time.Second] wraps at 64 bits. *)
Definition OIDCTTL (cfg : option OIDCConfig) (defaultTTL : Duration) : Duration :=
  let fallback := if defaultTTL <=? 0 then Hour else defaultTTL in
  match cfg with
  | Some cfg => if 0 <? oidc_MaxTTL cfg
                then let max := wrap64 (oidc_MaxTTL cfg * Second) in
                     if max <? defaultTTL then max else fallback
                else fallback
  | None => fallback
  end.

Definition OIDCSubjectLabel (issuer0 sub : string) : string :=
  let issuer := TrimSpace issuer0 in
  if issuer =s "" then "oidc:" +:+ sub else "oidc:" +:+ issuer +:+ ":" +:+ sub.

(** ** agent.go *)

Definition normalizeAgentPathPrefix (prefix0 agentID : string) : string :=
  let prefix := TrimByte "/" (TrimSpace prefix0) in
  let prefix := if Contains prefix ".." then "" else prefix in
  let prefix := if prefix =s "" then "agent/" +:+ agentID else prefix in
  let prefix := if negb (HasPrefix prefix "agent/") then "agent/" +:+ prefix else prefix in
  let prefix := ReplaceAll prefix "//" "/" in
  TrimByte "/" prefix +:+ "/".

Definition ActionAllowedForPrincipal (principal : Principal) (action : string) : bool :=
  if bool_decide (pp_AllowedActions principal = []) then true
  else existsb (λ allowed, MatchAction allowed action) (pp_AllowedActions principal).

Definition KVPathAllowedForPrincipal (principal : Principal) (resource : string) : bool :=
  if pp_PathPrefix principal =s "" then true
  else let kvPrefix := "secrets/kv/" +:+ TrimSuffix (pp_PathPrefix principal) "/" in
       HasPrefix resource (kvPrefix +:+ "/") || (resource =s kvPrefix).

Definition delegated_outside : error := New ErrCodeForbidden "cannot delegate policy outside parent scope".

Definition validateDelegatedPolicies (rbac : option RBAC) (parentPolicies requested : list string) : res unit :=
  match rbac with
  | None => Err (New ErrCodeInternal "rbac not configured")
  | Some r =>
      let parentSet : gset string := list_to_set (ResolvePolicyNames r parentPolicies) in
      for_each (λ _ name, for_each (λ _ resolved, reject (negb (bool_decide (resolved ∈ parentSet))) delegated_outside)
                            tt (ResolvePolicyNames r [name]))
        tt requested
  end.

Definition ParseAgentDelegateTTL (parse_duration : string → option Duration) (raw : string) : res Duration :=
  if TrimSpace raw =s "" then Ok defaultAgentTTL else ParseTTL parse_duration raw.

(** ** Lemmas: strings *)

Lemma TrimLeftByte_head c d s : c ≠ d → TrimLeftByte c (String d s) = String d s.
Proof. intros Hc. simpl. by rewrite (proj2 (Ascii.eqb_neq c d) Hc). Qed.

Lemma TrimRightByte_cons c d s : c ≠ d → TrimRightByte c (String d s) = String d (TrimRightByte c s).
Proof. intros Hc. simpl. rewrite (proj2 (Ascii.eqb_neq c d) Hc), andb_false_r. done. Qed.

(** What is left of a string that starts with the byte: nothing, or it still
    starts with it. *)
Lemma TrimRightByte_same c s : TrimRightByte c (String c s) = "" ∨ ∃ t, TrimRightByte c (String c s) = String c t.
Proof. simpl. case_all; eauto. Qed.

Lemma replace_slashes_head s : ∃ t, replace_skip 0 (String "/" s) "//" "/" = String "/" t.
Proof.
  cbn [replace_skip]. destruct (HasPrefix (String "/" s) "//"); [|by eexists].
  exists (replace_skip (String.length "//" - 1) s "//" "/"). done.
Qed.

(** Collapsing slashes and trimming keeps the segment [agent] in front. *)
Lemma trimmed_agent r : ∃ t, TrimByte "/" (ReplaceAll ("agent/" +:+ r) "//" "/") +:+ "/" = "agent/" +:+ t.
Proof.
  destruct (replace_slashes_head r) as [q Hq].
  assert (Hr : ReplaceAll ("agent/" +:+ r) "//" "/" = "agent" +:+ String "/" q).
  { rewrite <- Hq. done. }
  rewrite Hr. unfold TrimByte. change ("agent" +:+ String "/" q) with (String "a" ("gent" +:+ String "/" q)).
  rewrite TrimLeftByte_head by done.
  change ("gent" +:+ String "/" q) with (String "g" (String "e" (String "n" (String "t" (String "/" q))))).
  rewrite !TrimRightByte_cons by done.
  destruct (TrimRightByte_same "/" q) as [->|[t ->]].
  - by exists "".
  - by exists (t +:+ "/").
Qed.

Lemma SplitN2_app s t c : str_mem c s = false → SplitN2 (s +:+ String c t) c = [s; t].
Proof.
  intros Hs. unfold SplitN2. destruct (IndexByte (s +:+ String c t) c) as [i|] eqn:E.
  - apply IndexByte_spec in E as (Hl & Hm & E). apply first_occurrence in E as [[E1 E2]|(t' & E1 & _)]; [| |done].
    + by rewrite E1, E2.
    + rewrite E1, str_mem_app in Hm. simpl in Hm. by rewrite bool_decide_true, orb_true_r in Hm.
  - apply IndexByte_None in E. rewrite str_mem_app in E. simpl in E. by rewrite bool_decide_true, orb_true_r in E.
Qed.

Lemma SplitN2_two s c a b : SplitN2 s c = [a; b] ↔ s = a +:+ String c b ∧ str_mem c a = false.
Proof.
  split.
  - unfold SplitN2. destruct (IndexByte s c) as [i|] eqn:E; [|done]. intros [= <- <-].
    by apply IndexByte_spec in E as (_ & Hm & Hs).
  - intros [-> Hm]. by apply SplitN2_app.
Qed.

(** ** Lemmas: delegation *)

Lemma validateDelegatedPolicies_ok r parent requested :
  validateDelegatedPolicies (Some r) parent requested = Ok tt →
  ∀ n, n ∈ ResolvePolicyNames r requested → n ∈ ResolvePolicyNames r parent.
Proof.
  unfold validateDelegatedPolicies. intros Hv n Hn. apply ResolvePolicyNames_elem in Hn as (b & Hb & Hr).
  assert (Hin : n ∈ ResolvePolicyNames r [b]).
  { apply ResolvePolicyNames_elem. exists b. split; [by apply list_elem_of_singleton|done]. }
  assert (Hstop : ∀ names, for_each (λ _ resolved, reject (negb (bool_decide (resolved ∈@{gset string}
    list_to_set (ResolvePolicyNames r parent)))) delegated_outside) tt names = Ok tt →
    ∀ m, m ∈ names → m ∈ ResolvePolicyNames r parent).
  { induction names as [|m names IH]; intros Hf m' Hm'; [by apply elem_of_nil in Hm'|]. simpl in Hf.
    apply res_bind_unit_ok in Hf as [Hr1 Hf]. apply reject_ok in Hr1. bool_props.
    apply elem_of_cons in Hm' as [->|Hm']; [by apply elem_of_list_to_set in Hr1|by apply IH]. }
  revert Hv Hb. clear Hr. induction requested as [|c requested IH]; intros Hv Hb; [by apply elem_of_nil in Hb|].
  simpl in Hv. apply res_bind_unit_ok in Hv as [Hc Hv].
  apply elem_of_cons in Hb as [<-|Hb]; [by eapply Hstop|by apply IH].
Qed.

(** The loop collects each non-empty name once, in the order of first occurrence. *)
Lemma flatten_fold names : ∀ seen out,
  (∀ n, n ∈ out ↔ n ∈ seen) → NoDup out →
  let '(seen', out') := foldl flatten_step (seen, out) names in
  NoDup out' ∧ ∀ n, n ∈ out' ↔ n ∈ out ∨ (n ∈ names ∧ n ≠ "").
Proof.
  induction names as [|c names IH]; intros seen out Hs Hd; simpl.
  - split; [done|]. intros n. set_solver.
  - case_bool_decide as Hc; [|case_bool_decide as Hin].
    + subst. specialize (IH seen out Hs Hd). destruct (foldl _ _ _). destruct IH as [? IH]. split; [done|].
      intros n. rewrite IH. set_solver.
    + specialize (IH seen out Hs Hd). destruct (foldl _ _ _). destruct IH as [? IH]. split; [done|].
      intros n. rewrite IH. set_solver.
    + specialize (IH ({[c]} ∪ seen) (out ++ [c])). destruct (foldl _ _ _).
      destruct IH as [? IH]; [set_solver|apply NoDup_app; repeat split; [done|set_solver|apply NoDup_singleton]|].
      split; [done|]. intros n. rewrite IH. set_solver.
Qed.

Lemma flattenRolePolicies_elem policies groups n : n ≠ "" →
  n ∈ flattenRolePolicies policies groups ↔ n ∈ policies ∨ n ∈ groups.
Proof.
  intros Hn. unfold flattenRolePolicies. case_bool_decide as Hg; [subst; set_solver|].
  pose proof (flatten_fold (policies ++ groups) ∅ []) as Hf. destruct (foldl _ _ _) as [seen out]. simpl.
  destruct Hf as [_ Hf]; [set_solver|constructor|]. rewrite Hf. set_solver.
Qed.

(** ** Theorems *)

(** Service account user names: [ParseServiceAccountUsername] accepts exactly
    the strings [system:serviceaccount:<ns>:<name>] with both parts non-empty,
    the namespace ending at the first colon, and returns these parts, so
    printing and parsing are inverse to one another. *)
Theorem ParseServiceAccountUsername_roundtrip username id :
  ParseServiceAccountUsername username = Some id ↔
  username = sa_prefix +:+ sa_Namespace id +:+ ":" +:+ sa_Name id ∧ sa_Username id = username ∧
  str_mem ":" (sa_Namespace id) = false ∧ sa_Namespace id ≠ "" ∧ sa_Name id ≠ "".
Proof.
  unfold ParseServiceAccountUsername. split.
  - destruct (HasPrefix username sa_prefix) eqn:Hp; [|done]. apply HasPrefix_spec in Hp as [t ->]. simpl negb. cbv iota.
    rewrite TrimPrefix_app. destruct (SplitN2 t ":") as [|a [|b [|]]] eqn:Hs; try done.
    apply SplitN2_two in Hs as [-> Hm]. case_all; bool_props; [done|]. intros [= <-]. done.
  - destruct id as [ns name u]. cbn [sa_Namespace sa_Name sa_Username]. intros (-> & -> & Hm & Hns & Hname).
    rewrite (proj2 (HasPrefix_spec _ _)) by by eexists. simpl negb. cbv iota. rewrite TrimPrefix_app.
    change (":" +:+ name) with (String ":" name). rewrite SplitN2_app by done.
    by rewrite !bool_decide_false.
Qed.

(** The directory a normalized prefix names: [agent], or below it. *)
Lemma agent_root prefix agentID :
  ∃ root, normalizeAgentPathPrefix prefix agentID = root +:+ "/" ∧ (root = "agent" ∨ HasPrefix root "agent/" = true).
Proof.
  assert (Hn : ∃ t, normalizeAgentPathPrefix prefix agentID = "agent/" +:+ t).
  { unfold normalizeAgentPathPrefix. cbv zeta. destruct (HasPrefix _ "agent/") eqn:Hp; simpl negb; cbv iota.
    - apply HasPrefix_spec in Hp as [r ->]. apply trimmed_agent.
    - apply trimmed_agent. }
  assert (Hs : ∃ u, normalizeAgentPathPrefix prefix agentID = u +:+ "/") by by eexists.
  destruct Hn as [t Hn], Hs as [u Hs]. exists u. split; [done|]. rewrite Hn in Hs. clear -Hs. simpl in Hs.
  destruct u as [|c1 [|c2 [|c3 [|c4 [|c5 [|c6 u]]]]]]; simplify_eq/=; [by left|right; done].
Qed.

(** A path a principal with a prefix may use is that directory or below it. *)
Lemma agent_scope principal root resource : pp_PathPrefix principal = root +:+ "/" → KVPathAllowedForPrincipal principal resource = true →
  resource = "secrets/kv/" +:+ root ∨ HasPrefix resource ("secrets/kv/" +:+ root +:+ "/") = true.
Proof.
  unfold KVPathAllowedForPrincipal. intros ->. rewrite TrimSuffix_app, bool_decide_false by by destruct root.
  intros [Hr|Hr]%orb_true_iff; [right|left; by bool_props]. by rewrite str_app_assoc in Hr.
Qed.

(** A plain directory name: not empty, no slash, no white space, no two dots. *)
Definition agent_dir (dir : string) : Prop :=
  dir ≠ "" ∧ Contains dir ".." = false ∧ ∀ c, str_mem c dir = true → c ≠ "/"%char ∧ IsSpace c = false.

Lemma TrimRightByte_other c s : (∀ d, str_mem d s = true → d ≠ c) → TrimRightByte c s = s.
Proof.
  induction s as [|d s IH]; [done|]. intros Hs. rewrite TrimRightByte_cons, IH; [done| |].
  - intros e He. apply Hs. cbn. by rewrite He, orb_true_r.
  - intros ->. apply (Hs d); [cbn; by rewrite bool_decide_eq_true_2|done].
Qed.

Lemma replace_slashes_cons d s : HasPrefix (String d s) "//" = false → replace_skip 0 (String d s) "//" "/" = String d (replace_skip 0 s "//" "/").
Proof. intros E. cbn [replace_skip]. by rewrite E. Qed.

Lemma replace_slashes_other s : (∀ d, str_mem d s = true → d ≠ "/"%char) → replace_skip 0 s "//" "/" = s.
Proof.
  induction s as [|d s IH]; [done|]. intros Hs. cbn [replace_skip]. destruct (HasPrefix (String d s) "//") eqn:E.
  - apply HasPrefix_spec in E as [t [= -> _]]. exfalso. apply (Hs "/"%char); [cbn; by rewrite bool_decide_eq_true_2|done].
  - f_equal. apply IH. intros e He. apply Hs. cbn. by rewrite He, orb_true_r.
Qed.

Lemma agent_dir_plain dir : agent_dir dir → TrimSpace dir = dir ∧ TrimByte "/" dir = dir ∧ HasPrefix dir "agent/" = false ∧
  TrimByte "/" ("agent/" +:+ dir) = "agent/" +:+ dir ∧ ReplaceAll ("agent/" +:+ dir) "//" "/" = "agent/" +:+ dir.
Proof.
  intros (Hne & Hdots & Hc). assert (Hr : TrimRightByte "/" ("/" +:+ dir) = "/" +:+ dir).
  { cbn. rewrite (TrimRightByte_other "/" dir) by (intros d Hd; by destruct (Hc d Hd)). by rewrite bool_decide_false. }
  assert (Hr0 : TrimRightByte "/" dir = dir) by (apply TrimRightByte_other; intros d Hd; by destruct (Hc d Hd)).
  assert (Hrep : replace_skip 0 dir "//" "/" = dir) by (apply replace_slashes_other; intros d Hd; by destruct (Hc d Hd)).
  split_and!.
  - apply nonspace_trim. intros c Hd. by destruct (Hc c Hd).
  - destruct dir as [|c dir]; [done|]. unfold TrimByte. rewrite TrimLeftByte_head; [done|].
    intros <-. destruct (Hc "/"%char) as [[] _]; [cbn; by rewrite bool_decide_eq_true_2|done].
  - destruct (HasPrefix dir "agent/") eqn:E; [|done]. apply HasPrefix_spec in E as [t ->]. destruct (Hc "/"%char) as [[] _]; done.
  - unfold TrimByte. cbn [String.append]. rewrite TrimLeftByte_head by done. rewrite !TrimRightByte_cons by done.
    change (String "/" dir) with ("/" +:+ dir). by rewrite Hr.
  - unfold ReplaceAll. cbn [String.append]. rewrite !replace_slashes_cons, Hrep; try done.
    destruct dir as [|c dir]; [done|]. destruct (Hc c) as [Hcc _]; [cbn; by rewrite bool_decide_eq_true_2|]. cbn.
    by rewrite (bool_decide_eq_false_2 ("/"%char = c)) by congruence.
Qed.

(** The directory a delegation asks for by name is the one it gets. *)
Lemma agent_own_root dir prefix agentID : agent_dir dir → prefix = dir ∨ prefix = "agent/" +:+ dir →
  normalizeAgentPathPrefix prefix agentID = ("agent/" +:+ dir) +:+ "/".
Proof.
  intros Hd. pose proof (agent_dir_plain dir Hd) as (Hs & Ht & Hp & Ha & Hr). destruct Hd as (Hne & Hdots & Hc).
  unfold normalizeAgentPathPrefix. cbv zeta. intros [->| ->].
  - rewrite Hs, Ht, Hdots, bool_decide_false by done. rewrite Hp. cbn [negb]. by rewrite Hr, Ha.
  - rewrite (nonspace_trim ("agent/" +:+ dir)), Ha.
    + change (Contains ("agent/" +:+ dir) "..") with (Contains dir ".."). rewrite Hdots, bool_decide_false by done.
      rewrite (proj2 (HasPrefix_spec ("agent/" +:+ dir) "agent/")) by by eexists. cbn [negb]. by rewrite Hr, Ha.
    + intros c. rewrite str_mem_app. intros [Hm|Hm]%orb_true_iff; [|by destruct (Hc c Hm)].
      cbn in Hm. repeat (apply orb_true_iff in Hm as [->%bool_decide_eq_true|Hm]; [done|]). done.
Qed.

(** Agents stay in their subtree: whatever prefix and agent identifier a
    delegation asks for, the principal of the token it yields passes the KV
    path check only at or below one directory under [secrets/kv/agent], which is
    the one asked for when that is a plain name. *)
Theorem agent_confined principal prefix agentID :
  pp_PathPrefix principal = normalizeAgentPathPrefix prefix agentID →
  ∃ root, (root = "agent" ∨ HasPrefix root "agent/" = true) ∧
    (∀ dir, agent_dir dir → prefix = dir ∨ prefix = "agent/" +:+ dir → root = "agent/" +:+ dir) ∧
    ∀ resource, KVPathAllowedForPrincipal principal resource = true →
      resource = "secrets/kv/" +:+ root ∨ HasPrefix resource ("secrets/kv/" +:+ root +:+ "/") = true.
Proof.
  intros Hp. destruct (agent_root prefix agentID) as (root & Hr & Ha). exists root. split; [done|]. split.
  - intros dir Hd Hx. rewrite (agent_own_root dir prefix agentID Hd Hx) in Hr. by apply str_app_inj_r in Hr.
  - intros resource. apply agent_scope. by rewrite Hp.
Qed.

(** An agent named by a slash whose prefix is dropped gets the tree of all agents. *)
Example slash_agent_gets_all : normalizeAgentPathPrefix ".." "/" = "agent/".
Proof. reflexivity. Qed.

#[global] Instance denies_dec `{Parsers} r n resource action req : Decision (denies r n resource action req).
Proof.
  destruct (r !! n) as [p|] eqn:E; [|right; intros (p & Hp & _); congruence].
  destruct (decide (PolicyMatches (eval_policy p) resource action req = true ∧ policy_Effect p = EffectDeny)) as [Hd|Hd].
  - left. by exists p.
  - right. intros (p' & Hp' & Hd'). congruence.
Qed.

(** Delegation adds no grants: if the parent may delegate the policies and
    they allow a request, the parent's own policies allow it too, unless one
    of the parent's policies denies it explicitly. *)
Theorem delegation_adds_no_grants `{Parsers} r parent requested resource action req :
  validateDelegatedPolicies (Some r) parent requested = Ok tt →
  Authorize r requested resource action req = true →
  Authorize r parent resource action req = true ∨
  ∃ n, n ∈ ResolvePolicyNames r parent ∧ denies r n resource action req.
Proof.
  intros Hv Ha. pose proof (validateDelegatedPolicies_ok _ _ _ Hv) as Hsub.
  unfold Authorize in *. rewrite AuthorizeDetailed_Allowed in Ha. destruct Ha as [(n & Hn & Hg) _].
  destruct (Allowed (AuthorizeDetailed r (ResolvePolicyNames r parent) resource action req)) eqn:E; [by left|right].
  apply not_true_iff_false in E. rewrite AuthorizeDetailed_Allowed in E.
  destruct (decide (Exists (λ m, denies r m resource action req) (ResolvePolicyNames r parent))) as [Hd|Hd].
  - apply Exists_exists in Hd as (m & Hm & Hd). eauto.
  - exfalso. apply E. split; [by exists n; auto|]. intros m Hm Hdm. apply Hd, Exists_exists. eauto.
Qed.

Definition ops_policies : RBAC := LoadPolicies [
  mkPolicy 0%N "ops" EffectAllow ["*"] ["*"] [] [] ∅;
  mkPolicy 0%N "no-issuing" EffectDeny ["pki/issue/*"] ["*"] [] [] ∅].

Lemma delegation_adds_no_grants_witness :
  Authorize (H := no_parsers) ops_policies ["ops"; "no-issuing"] "secrets/kv/agent/a" "read" sample_request = true ∨
  ∃ n, n ∈ ResolvePolicyNames ops_policies ["ops"; "no-issuing"] ∧
       denies (H := no_parsers) ops_policies n "secrets/kv/agent/a" "read" sample_request.
Proof.
  apply (delegation_adds_no_grants (H := no_parsers) ops_policies ["ops"; "no-issuing"] ["ops"]); vm_compute; reflexivity.
Defined.

(** A delegate can do what its parent is denied: the check compares policy
    names only, so a parent with an allowing and a denying policy delegates
    the first alone, and the agent's token passes where the parent's does
    not. *)
Theorem delegation_escapes_deny `{Parsers} req :
  validateDelegatedPolicies (Some ops_policies) ["ops"; "no-issuing"] ["ops"] = Ok tt ∧
  Authorize ops_policies ["ops"; "no-issuing"] "pki/issue/web" "write" req = false ∧
  Authorize ops_policies ["ops"] "pki/issue/web" "write" req = true.
Proof.
  split; [vm_compute; reflexivity|]. split; vm_compute; reflexivity.
Qed.

(** The traversal check covers the requested prefix only: when it is refused
    or empty the agent identifier is used unchecked, and the resulting scope
    can contain the very sequence the check rejects. *)
Theorem agent_id_traversal : normalizeAgentPathPrefix ".." "../admin" = "agent/../admin/".
Proof. reflexivity. Qed.

(** Role bindings: a Kubernetes login matches a stored role exactly when
    the role binds some service account, the identity has a namespace and a
    name, and each of the two is unrestricted, listed, or covered by a [*]. *)
Theorem MatchServiceAccountBinding_correct role id :
  let names := role_BoundServiceAccountNames role in
  let namespaces := role_BoundServiceAccountNamespaces role in
  MatchServiceAccountBinding (Some role) id = Ok tt ↔
  ¬ (names = [] ∧ namespaces = []) ∧ sa_Namespace id ≠ "" ∧ sa_Name id ≠ "" ∧
  (namespaces = [] ∨ sa_Namespace id ∈ namespaces ∨ "*" ∈ namespaces) ∧
  (names = [] ∨ sa_Name id ∈ names ∨ "*" ∈ names).
Proof.
  cbv zeta. unfold MatchServiceAccountBinding, containsString.
  assert (Hc : ∀ items want, existsb (λ item, item =s want) items = true ↔ want ∈ items).
  { intros items want. rewrite existsb_elem. split; [intros (x & Hx & Hw); by bool_props; subst|].
    intros Hw. exists want. by rewrite string_eqb_refl. }
  rewrite !res_bind_unit_ok, !reject_ok, !andb_false_iff, orb_false_iff, !negb_false_iff, !bool_decide_eq_false,
    !bool_decide_eq_true, !Hc.
  destruct (decide (role_BoundServiceAccountNames role = [])), (decide (role_BoundServiceAccountNamespaces role = [])); tauto.
Qed.

(** A service account acts in its own namespace only: the tenant resolved
    for it is the namespace in its user name, and a header naming another one
    is refused; callers that are not service accounts choose by header. *)
Theorem tenant_namespace_bound header subject ns :
  ResolveTenantNamespace header subject = Ok ns ↔
  match ParseServiceAccountUsername subject with
  | Some id => ns = sa_Namespace id ∧ (TrimSpace header = "" ∨ TrimSpace header = ns)
  | None => ns = TrimSpace header
  end.
Proof.
  unfold ResolveTenantNamespace. destruct (ParseServiceAccountUsername subject) as [id|].
  - case_bool_decide as H1; [naive_solver|]. case_bool_decide as H2; simpl; naive_solver.
  - naive_solver.
Qed.
