(* ===== verification/PolicyService.v ===== *)
(** Persisted policies and roles, internal/service/policies.go, which record
    through the audit helper.

    The service of a node holds the repositories, which the cluster shares, and
    two things of its own: the RBAC cache and the hash of the policy list it
    was loaded from. JSON encoding followed by SHA-256 is the class
    [PolicyDigest]. The audit service is the list of the events recorded; its
    errors are dropped by the source. A repository read that fails is the
    argument [failure]. *)

From S2P Require Import Prelude.
From S2P Require Import Effects.
From S2P Require Import GoLib.
From S2P Require Import Policy.
From S2P Require Import Domain.
From S2P Require Import Repos.
From S2P Require Import AuditHelper.

(** ** policies.go *)

Class PolicyDigest := {
  sha256_json_policies : list Policy → string;
}.

(** No collisions, and a digest is not the empty string. *)
Class PolicyDigestLaws `{PolicyDigest} := {
  policies_digest_inj : ∀ ps qs, sha256_json_policies ps = sha256_json_policies qs → ps = qs;
  policies_digest_nonempty : ∀ ps, sha256_json_policies ps ≠ "";
}.

Record PolicyService := mkPolicyService {
  ps_policies : gmap string Policy;
  ps_roles : gmap string Role;
  ps_rbac : RBAC;
  ps_policyHash : string;
  ps_audit : list AuditEvent;
}.

Definition NewPolicyService (policies : gmap string Policy) (roles : gmap string Role) (rbac : RBAC) : PolicyService :=
  mkPolicyService policies roles rbac "" [].

Definition with_policies (s : PolicyService) (m : gmap string Policy) : PolicyService :=
  mkPolicyService m (ps_roles s) (ps_rbac s) (ps_policyHash s) (ps_audit s).
Definition with_roles (s : PolicyService) (m : gmap string Role) : PolicyService :=
  mkPolicyService (ps_policies s) m (ps_rbac s) (ps_policyHash s) (ps_audit s).
Definition with_cache (s : PolicyService) (r : RBAC) (hash : string) : PolicyService :=
  mkPolicyService (ps_policies s) (ps_roles s) r hash (ps_audit s).

Definition record (subject : option string) (action resource status : string) (details : list (string * any))
    : prog PolicyService unit :=
  modify (λ s, mkPolicyService (ps_policies s) (ps_roles s) (ps_rbac s) (ps_policyHash s)
    (ps_audit s ++ [mkAuditEvent (Actor subject) action resource status details])).

Section service.
Context {digest : PolicyDigest}.

Definition hashPolicies (policies : list Policy) : string :=
  if bool_decide (policies = []) then ""
  else sha256_json_policies (sort_by_string policy_Name policies).

(** Run [m], then record its outcome, then return it. *)
Definition audited {A} (subject : option string) (action resource : string) (m : prog PolicyService A)
    : prog PolicyService A :=
  r ← attempt m;
  _ ← record subject action resource (audit_status r) [];
  lift r.

(** [fresh] is what [uuid.New()] returns. *)
Definition SavePolicy (subject : option string) (fresh : UUID) (policy : Policy) : prog PolicyService unit :=
  audited subject "policy.write" ("sys/policies/" +:+ policy_Name policy)
    (table ← gets ps_policies;
     '(table', stored) ← lift (PolicyRepository_Save fresh table policy);
     _ ← modify (λ s, with_policies s table');
     modify (λ s, with_cache s (UpsertPolicy (ps_rbac s) stored) "")).

Definition GetPolicy (name : string) : prog PolicyService Policy :=
  table ← gets ps_policies; lift (PolicyRepository_GetByName table name).
Definition ListPolicies : prog PolicyService (list Policy) := gets (λ s, PolicyRepository_List (ps_policies s)).

Definition DeletePolicy (subject : option string) (name : string) : prog PolicyService unit :=
  audited subject "policy.delete" ("sys/policies/" +:+ name)
    (table ← gets ps_policies;
     table' ← lift (PolicyRepository_Delete table name);
     _ ← modify (λ s, with_policies s table');
     modify (λ s, with_cache s (Policy.DeletePolicy (ps_rbac s) name) "")).

Definition SaveRole (subject : option string) (role : Role) : prog PolicyService unit :=
  audited subject "role.write" ("sys/roles/" +:+ role_Name role)
    (table ← gets ps_roles;
     table' ← lift (RoleRepository_Save table role);
     modify (λ s, with_roles s table')).

Definition ListRoles : prog PolicyService (list Role) := gets (λ s, RoleRepository_List (ps_roles s)).

Definition DeleteRole (subject : option string) (name : string) : prog PolicyService unit :=
  audited subject "role.delete" ("sys/roles/" +:+ name)
    (table ← gets ps_roles;
     table' ← lift (RoleRepository_Delete table name);
     modify (λ s, with_roles s table')).

(** [s.policies.List(ctx)]. *)
Definition list_or_fail (failure : option error) : prog PolicyService (list Policy) :=
  match failure with Some e => raise e | None => ListPolicies end.

Definition LoadIntoRBAC (failure : option error) : prog PolicyService unit :=
  policies ← list_or_fail failure;
  modify (λ s, with_cache s (ReloadFromPersisted (Some <$> policies)) (hashPolicies policies)).

Definition SyncRBAC (failure : option error) : prog PolicyService unit :=
  policies ← list_or_fail failure;
  current ← gets ps_policyHash;
  let hash := hashPolicies policies in
  if (hash =s current) && negb (current =s "") then mret tt
  else modify (λ s, with_cache s (ReloadFromPersisted (Some <$> policies)) hash).

(** ** A node of the cluster *)

(** What a node does, and [PolicyRemote]: another node writes the shared table. *)
Inductive policy_op :=
  | PolicySave (subject : option string) (fresh : UUID) (policy : Policy)
  | PolicyDelete (subject : option string) (name : string)
  | PolicyRoleSave (subject : option string) (role : Role)
  | PolicyRoleDelete (subject : option string) (name : string)
  | PolicyLoad (failure : option error)
  | PolicySync (failure : option error)
  | PolicyRemote (table : gmap string Policy).

Definition policy_step (op : policy_op) : prog PolicyService unit :=
  match op with
  | PolicySave subject fresh policy => ignore (SavePolicy subject fresh policy)
  | PolicyDelete subject name => ignore (DeletePolicy subject name)
  | PolicyRoleSave subject role => ignore (SaveRole subject role)
  | PolicyRoleDelete subject name => ignore (DeleteRole subject name)
  | PolicyLoad failure => ignore (LoadIntoRBAC failure)
  | PolicySync failure => ignore (SyncRBAC failure)
  | PolicyRemote table => modify (λ s, with_policies s table)
  end.

Definition policy_run (ops : list policy_op) (s : PolicyService) : PolicyService :=
  foldl (λ s op, (policy_step op s).1) s ops.
End service.

(** ** Lemmas *)

(** The table of a reloaded cache. *)
Lemma last_named_None n l : (∀ p, p ∈ l → policy_Name p ≠ n) → last_named n (Some <$> l) = None.
Proof.
  induction l as [|q l IH] using rev_ind; intros Hl; [done|]. rewrite fmap_app. simpl. rewrite last_named_snoc.
  rewrite bool_decide_false by (apply Hl; set_solver). apply IH. set_solver.
Qed.

Lemma last_named_unique n p l : p ∈ l → policy_Name p = n → (∀ q, q ∈ l → policy_Name q = n → q = p) →
  last_named n (Some <$> l) = Some p.
Proof.
  induction l as [|q l IH] using rev_ind; intros Hp Hn Hu; [by apply elem_of_nil in Hp|].
  rewrite fmap_app. simpl. rewrite last_named_snoc. case_bool_decide as Hq.
  - f_equal. apply Hu; [set_solver|done].
  - apply IH; [|done|set_solver]. apply elem_of_app in Hp as [Hp|Hp]; [done|].
    apply list_elem_of_singleton in Hp as ->. done.
Qed.

Lemma reload_table (table : gmap string Policy) n : keyed_wf table →
  ReloadFromPersisted (Some <$> PolicyRepository_List table) !! n =
  match table !! n with Some p => Some p | None => NewRBAC !! n end.
Proof.
  intros Hwf. rewrite reload_lookup. destruct (table !! n) as [p|] eqn:E.
  - rewrite (last_named_unique n p); [done| | |].
    + apply keyed_List_elem. eauto.
    + apply (Hwf _ _ E).
    + intros q [k Hk]%keyed_List_elem Hq. destruct (Hwf _ _ Hk) as [Hn _]. cbn in Hn. congruence.
  - rewrite last_named_None; [done|]. intros p [k Hk]%keyed_List_elem Hn.
    destruct (Hwf _ _ Hk) as [Hn' _]. cbn in Hn'. congruence.
Qed.

Section coherence.
Context {digest : PolicyDigest} {digest_laws : PolicyDigestLaws}.

Lemma hashPolicies_nonempty ps : ps ≠ [] → hashPolicies ps ≠ "".
Proof. intros Hps. unfold hashPolicies. rewrite bool_decide_false by done. apply policies_digest_nonempty. Qed.

Lemma hash_table_inj (t t' : gmap string Policy) : keyed_wf t → keyed_wf t' →
  hashPolicies (PolicyRepository_List t) = hashPolicies (PolicyRepository_List t') →
  hashPolicies (PolicyRepository_List t) ≠ "" → t = t'.
Proof.
  intros Ht Ht' Hh Hne.
  assert (Hn : ∀ l, hashPolicies l ≠ "" → l ≠ []) by (intros l Hl ->; by apply Hl).
  pose proof (Hn _ Hne) as H1. rewrite Hh in Hne. pose proof (Hn _ Hne) as H2.
  unfold hashPolicies in Hh. rewrite !bool_decide_false in Hh by done. apply policies_digest_inj in Hh.
  assert (Hp : ∀ p, p ∈ PolicyRepository_List t ↔ p ∈ PolicyRepository_List t').
  { intros p. rewrite <- (elem_of_sort_by_string policy_Name (PolicyRepository_List t)), Hh. apply elem_of_sort_by_string. }
  assert (Hsub : ∀ a b : gmap string Policy, keyed_wf a → keyed_wf b →
    (∀ p, p ∈ PolicyRepository_List a → p ∈ PolicyRepository_List b) → a ⊆ b).
  { intros a b Ha Hb Hab. apply map_subseteq_spec. intros k p Hk.
    assert (Hin : p ∈ PolicyRepository_List b) by (apply Hab, keyed_List_elem; eauto).
    apply keyed_List_elem in Hin as [k' Hk']. destruct (Ha _ _ Hk) as [E1 _], (Hb _ _ Hk') as [E2 _].
    cbn in E1, E2. congruence. }
  apply (anti_symm (⊆)); apply Hsub; try done; intros p; apply Hp.
Qed.

(** The cache is marked stale, or holds a table the cluster had, with its hash. *)
Definition cache_coherent (s : PolicyService) : Prop :=
  keyed_wf (ps_policies s) ∧
  (ps_policyHash s = "" ∨
   ∃ table, keyed_wf table ∧ ps_policyHash s = hashPolicies (PolicyRepository_List table) ∧
            ps_rbac s = ReloadFromPersisted (Some <$> PolicyRepository_List table)).

Definition op_wf (op : policy_op) : Prop :=
  match op with PolicyRemote table => keyed_wf table | _ => True end.

Lemma audited_state {A} subject action resource (m : prog PolicyService A) s :
  ps_policies (audited subject action resource m s).1 = ps_policies (m s).1 ∧
  ps_rbac (audited subject action resource m s).1 = ps_rbac (m s).1 ∧
  ps_policyHash (audited subject action resource m s).1 = ps_policyHash (m s).1 ∧
  (audited subject action resource m s).2 = (m s).2.
Proof. unfold audited, attempt, mbind, prog_bind. by destruct (m s). Qed.

Lemma audited_coherent {A} subject action resource (m : prog PolicyService A) :
  preserves cache_coherent m → preserves cache_coherent (audited subject action resource m).
Proof.
  intros Hm s Hs. specialize (Hm s Hs). unfold cache_coherent in *.
  by destruct (audited_state subject action resource m s) as (-> & -> & -> & _).
Qed.

Lemma reload_coherent s : keyed_wf (ps_policies s) →
  cache_coherent (with_cache s (ReloadFromPersisted (Some <$> PolicyRepository_List (ps_policies s)))
    (hashPolicies (PolicyRepository_List (ps_policies s)))).
Proof. intros Hs. split; [done|]. right. by exists (ps_policies s). Qed.

Lemma Sync_coherent failure : preserves cache_coherent (SyncRBAC failure).
Proof.
  intros s Hs. unfold SyncRBAC, list_or_fail. destruct failure as [e|]; [done|].
  unfold mbind, prog_bind, ListPolicies, gets. cbn. case_match; [done|]. apply reload_coherent, Hs.
Qed.

Lemma policy_step_coherent op : op_wf op → preserves cache_coherent (policy_step op).
Proof.
  destruct op; intros Hop; simpl; try (apply always_ignore, audited_coherent).
  - intros s [Hwf Hs]. unfold mbind, prog_bind, gets, lift. cbn.
    destruct (PolicyRepository_Save fresh (ps_policies s) policy) as [[t p]|e] eqn:E; cbn; [|done].
    split; [by eapply PolicySave_wf|by left].
  - intros s [Hwf Hs]. unfold mbind, prog_bind, gets, lift. cbn.
    destruct (PolicyRepository_Delete (ps_policies s) name) as [t|e] eqn:E; cbn; [|done].
    split; [by eapply keyed_Delete_wf|by left].
  - intros s Hs. unfold mbind, prog_bind, gets, lift. cbn. by destruct (RoleRepository_Save _ _).
  - intros s Hs. unfold mbind, prog_bind, gets, lift. cbn. by destruct (RoleRepository_Delete _ _).
  - apply always_ignore. intros s Hs. unfold LoadIntoRBAC, list_or_fail. destruct failure as [e|]; [done|].
    apply reload_coherent, Hs.
  - apply always_ignore, Sync_coherent.
  - intros s [_ Hs]. by split.
Qed.

Lemma policy_run_coherent ops s : Forall op_wf ops → cache_coherent s → cache_coherent (policy_run ops s).
Proof.
  unfold policy_run. intros Hops. revert s; induction Hops as [|op ops Hop Hops IH]; intros s Hs; simpl; [done|].
  apply IH. by apply policy_step_coherent.
Qed.

(** Synchronisation brings the cache to the persisted table, whether it reloads
    or not. *)
Lemma SyncRBAC_loads s s' : cache_coherent s → SyncRBAC None s = (s', Ok tt) →
  ps_policies s' = ps_policies s ∧
  ps_rbac s' = ReloadFromPersisted (Some <$> PolicyRepository_List (ps_policies s)).
Proof.
  intros [Hwf Hs]. unfold SyncRBAC, list_or_fail, mbind, prog_bind, ListPolicies, gets. cbn.
  case_match eqn:E; [|by intros [= <-]]. bool_props. intros [= <-]. split; [done|].
  destruct Hs as [Hs|(table & Ht & Hh & ->)]; [done|].
  rewrite (hash_table_inj (ps_policies s) table); [done|done|done|congruence|congruence].
Qed.
End coherence.

(** ** Theorems *)

(** Policies propagate: on any node, after any mixture of its own writes,
    synchronisations and writes of other nodes to the replicated table, a
    successful [SyncRBAC] leaves a cache in which every name resolves to the
    policy the cluster has stored under it, and to the built-in default only
    where none is stored. *)
Theorem SyncRBAC_propagates `{PolicyDigestLaws} (table : gmap string Policy) roles rbac ops s' n :
  keyed_wf table → Forall op_wf ops →
  SyncRBAC None (policy_run ops (NewPolicyService table roles rbac)) = (s', Ok tt) →
  ps_rbac s' !! n = match ps_policies s' !! n with Some p => Some p | None => NewRBAC !! n end.
Proof.
  intros Ht Hops Hs.
  assert (Hc : cache_coherent (policy_run ops (NewPolicyService table roles rbac))).
  { apply policy_run_coherent; [done|]. split; [done|by left]. }
  apply SyncRBAC_loads in Hs as [-> ->]; [|done]. apply reload_table, Hc.
Qed.

(** A digest without collisions: the position of the list in an enumeration. *)
Definition policy_tuple (p : Policy) :=
  (policy_ID p, policy_Name p, policy_Effect p, policy_Resources p, policy_Actions p, policy_Capabilities p,
   policy_Includes p, policy_Conditions p).

Definition toy_policy_digest : PolicyDigest :=
  {| sha256_json_policies := λ ps, "#" +:+ pretty (Npos (encode (policy_tuple <$> ps))) |}.

Lemma toy_policy_digest_laws : PolicyDigestLaws (H := toy_policy_digest).
Proof.
  split; [|done]. intros ps qs [= E]. apply (inj pretty) in E. injection E as E. apply (inj encode) in E.
  revert E. apply list_fmap_eq_inj. intros [] [] [= -> -> -> -> -> -> -> ->]. done.
Qed.

Definition deny_all : Policy := mkPolicy 7%N "freeze" EffectDeny ["*"] ["*"] [] [] ∅.

Lemma SyncRBAC_succeeds `{PolicyDigest} s : (SyncRBAC None s).2 = Ok tt.
Proof. unfold SyncRBAC, list_or_fail, mbind, prog_bind, ListPolicies, gets. cbn. by case_match. Qed.

(** This node synchronises, another one stores a policy, and it synchronises again. *)
Definition frozen : PolicyService :=
  (SyncRBAC (digest := toy_policy_digest) None
    (policy_run (digest := toy_policy_digest) [PolicySync None; PolicyRemote {["freeze" := deny_all]}]
      (NewPolicyService ∅ ∅ NewRBAC))).1.

Lemma SyncRBAC_propagates_witness :
  ps_rbac frozen !! "freeze" = match ps_policies frozen !! "freeze" with Some p => Some p | None => NewRBAC !! "freeze" end.
Proof.
  apply (SyncRBAC_propagates (H0 := toy_policy_digest_laws) ∅ ∅ NewRBAC
           [PolicySync None; PolicyRemote {["freeze" := deny_all]}] frozen "freeze").
  - exact (map_Forall_empty (M := gmap string) _).
  - constructor; [exact I|]. constructor; [|constructor].
    apply map_Forall_singleton. split; reflexivity.
  - apply run_eq, SyncRBAC_succeeds.
Defined.
