(* ===== verification/Hcl.v ===== *)
(** Import of policies in the language of HashiCorp Vault:
    internal/auth/hclimport.go and its handler (ImportHCL in
    internal/api/handlers/policies.go).

    The three regular expressions are scanners: in each of them a repetition is
    followed by a character it does not accept, so that at a position there is
    at most one match. *)

From S2P Require Import Prelude.
From S2P Require Import Effects.
From S2P Require Import GoLib.
From S2P Require Import Glob.
From S2P Require Import Domain.
From S2P Require Import Policy.
From S2P Require Import Repos.
From S2P Require Import AuditHelper.
From S2P Require Import PolicyService.

#[local] Open Scope Z_scope.

Definition dq : ascii := ascii_of_nat 34.

(** [\s] of the regular expressions: tab, newline, form feed, return, blank. *)
Definition is_ws (c : ascii) : bool := existsb (Nat.eqb (nat_of_ascii c)) [9; 10; 12; 13; 32]%nat.
Fixpoint skip_ws (s : string) : string :=
  match s with String c s' => if is_ws c then skip_ws s' else s | EmptyString => "" end.

(** The text before the first [stop] and the text after it. *)
Fixpoint take_until (stop : ascii) (s : string) : option (string * string) :=
  match s with
  | EmptyString => None
  | String c s => if Ascii.eqb c stop then Some ("", s) else '(a, b) ← take_until stop s; Some (String c a, b)
  end.

(** The rest after one expected character. *)
Definition expect (c : ascii) (s : string) : option string :=
  match s with String d s => if Ascii.eqb d c then Some s else None | EmptyString => None end.

Definition literal (l s : string) : option string := if HasPrefix s l then Some (str_drop (String.length l) s) else None.
Definition some_ws (s : string) : option string :=
  match s with String c s' => if is_ws c then Some (skip_ws s') else None | EmptyString => None end.

(** [hclPathBlock] at the start of [s]: the two groups and what follows. *)
Definition hclPathBlock (s : string) : option (string * string * string) :=
  s ← literal "path" s;
  s ← some_ws s;
  s ← expect dq s;
  '(pat, s) ← take_until dq s;
  if pat =s "" then None else
  s ← expect "{" (skip_ws s);
  '(body, s) ← take_until "}" s;
  Some (pat, body, s).

(** All matches from the left, none of them overlapping; [skip] bytes of the
    match before are still to be passed. *)
Fixpoint find_blocks (skip : nat) (s : string) : list (string * string) :=
  match s with
  | EmptyString => []
  | String _ s' =>
      match skip with
      | S k => find_blocks k s'
      | O => match hclPathBlock s with
             | Some (pat, body, rest) => (pat, body) :: find_blocks (String.length s' - String.length rest) s'
             | None => find_blocks 0 s'
             end
      end
  end.

Definition hclCapLine (s : string) : option string :=
  s ← literal "capabilities" s;
  s ← expect "=" (skip_ws s);
  s ← expect "[" (skip_ws s);
  '(caps, _) ← take_until "]" s;
  Some caps.
Fixpoint find_caps (s : string) : option string :=
  match hclCapLine s, s with
  | Some caps, _ => Some caps
  | None, String _ s' => find_caps s'
  | None, EmptyString => None
  end.

(** The strings between quotes: outside a string, or inside the one read so far. *)
Fixpoint find_quoted (open : option string) (s : string) : list string :=
  match s with
  | EmptyString => []
  | String c s =>
      match open with
      | None => if Ascii.eqb c dq then find_quoted (Some "") s else find_quoted None s
      | Some q => if Ascii.eqb c dq then q :: find_quoted None s else find_quoted (Some (q +:+ String c "")) s
      end
  end.

Definition hcl_policy (name pathPattern : string) (caps : list string) : Policy :=
  let filtered := filter (λ c, c ≠ "deny") caps in
  mkPolicy uuid_Nil name (if bool_decide ("deny" ∈ caps) then EffectDeny else EffectAllow) [TrimPrefix pathPattern "/"] filtered filtered [] ∅.

(** One match of the loop. *)
Definition import_block (name : string) (many : bool) (policies : list Policy) (m : string * string) : res (list Policy) :=
  match find_caps m.2 with
  | None => Err (Plain ("path " +:+ quoted m.1 +:+ " missing capabilities"))
  | Some text =>
      let caps := find_quoted None text in
      _ ← reject (bool_decide (caps = [])) (Plain ("path " +:+ quoted m.1 +:+ " has empty capabilities"));
      let policyName := if many then name +:+ "-" +:+ Itoa (Z.of_nat (length policies) + 1) else name in
      Ok (policies ++ [hcl_policy policyName m.1 caps])
  end.

Definition ImportHCLPolicy (name hcl : string) : res (list Policy) :=
  _ ← reject (TrimSpace name =s "") (Plain "policy name is required");
  let matches := find_blocks 0 hcl in
  _ ← reject (bool_decide (matches = [])) (Plain "no path blocks found in HCL");
  for_each (import_block name (Nat.ltb 1 (length matches))) [] matches.

(** The handler: the policies are saved one by one; [fresh] are the identifiers
    they get. *)
Section handler.
Context {digest : PolicyDigest}.

Fixpoint save_all (subject : option string) (fresh : nat → UUID) (n : nat) (policies : list Policy) : prog PolicyService unit :=
  match policies with
  | [] => mret tt
  | p :: policies => _ ← SavePolicy subject (fresh n) p; save_all subject fresh (S n) policies
  end.

Definition ImportHCL (subject : option string) (fresh : nat → UUID) (name hcl : string) : prog PolicyService nat :=
  policies ← lift (ImportHCLPolicy name hcl);
  _ ← save_all subject fresh 0 policies;
  mret (length policies).
End handler.

(** ** Round trip *)

Fixpoint print_caps (caps : list string) : string :=
  match caps with
  | [] => ""
  | [c] => quoted c
  | c :: caps => quoted c +:+ ", " +:+ print_caps caps
  end.
Definition print_body (caps : list string) : string := " capabilities = [" +:+ print_caps caps +:+ "] ".
Definition print_block (b : string * list string) : string := "path " +:+ quoted b.1 +:+ " {" +:+ print_body b.2 +:+ "}" +:+ newline.
Fixpoint print_blocks (bs : list (string * list string)) : string := match bs with [] => "" | b :: bs => print_block b +:+ print_blocks bs end.

(** Text that needs no escape. *)
Definition plain_cap (c : string) : Prop := str_mem dq c = false ∧ str_mem "]" c = false ∧ str_mem "}" c = false.
Definition printable (b : string * list string) : Prop := b.1 ≠ "" ∧ str_mem dq b.1 = false ∧ b.2 ≠ [] ∧ Forall plain_cap b.2.

Lemma str_cons_app c s t : String c s +:+ t = String c (s +:+ t).
Proof. done. Qed.
Lemma quoted_app s t : quoted s +:+ t = String dq (s +:+ String dq t).
Proof. unfold quoted. by rewrite !str_app_assoc. Qed.

Lemma take_until_app stop a b : str_mem stop a = false → take_until stop (a +:+ String stop b) = Some (a, b).
Proof.
  induction a as [|c a IH]; cbn; [by rewrite Ascii.eqb_refl|]. intros [Hc%bool_decide_eq_false Ha]%orb_false_iff.
  destruct (Ascii.eqb_spec c stop) as [->|_]; [done|]. by rewrite IH.
Qed.

Lemma find_blocks_skip a b : find_blocks (String.length a) (a +:+ b) = find_blocks 0 b.
Proof. induction a as [|c a IH]; [done|]. cbn. apply IH. Qed.

Lemma print_caps_free c caps : c ≠ dq → c ≠ ","%char → c ≠ " "%char → Forall (λ x, str_mem c x = false) caps → str_mem c (print_caps caps) = false.
Proof.
  intros Hq Hc Hs. induction caps as [|x caps IH]; intros Hf; [done|]. apply Forall_cons in Hf as [Hx Hf].
  assert (Hquot : str_mem c (quoted x) = false).
  { unfold quoted. rewrite !str_mem_app, Hx. cbn. fold dq. by rewrite bool_decide_eq_false_2. }
  destruct caps as [|y caps]; [done|]. cbn [print_caps]. rewrite !str_mem_app, Hquot. cbn [orb].
  cbn [str_mem]. rewrite !bool_decide_eq_false_2 by done. cbn [orb]. by apply IH.
Qed.

Lemma find_quoted_open q a b : str_mem dq a = false → find_quoted (Some q) (a +:+ String dq b) = (q +:+ a) :: find_quoted None b.
Proof.
  revert q. induction a as [|c a IH]; intros q; cbn [str_mem]; [intros _; cbn; by rewrite str_app_empty_r|].
  intros [Hc%bool_decide_eq_false Ha]%orb_false_iff. rewrite str_cons_app. cbn [find_quoted].
  destruct (Ascii.eqb_spec c dq) as [->|_]; [done|]. rewrite IH by done. by rewrite str_app_assoc.
Qed.

Lemma find_quoted_caps caps : Forall plain_cap caps → find_quoted None (print_caps caps) = caps.
Proof.
  induction caps as [|x caps IH]; intros Hf; [done|]. apply Forall_cons in Hf as [(Hq & _) Hf]. destruct caps as [|y caps].
  - cbn [print_caps]. rewrite <-(str_app_empty_r (quoted x)), quoted_app. cbn [find_quoted]. rewrite Ascii.eqb_refl. by rewrite find_quoted_open.
  - cbn [print_caps]. rewrite quoted_app. cbn [find_quoted]. rewrite Ascii.eqb_refl, find_quoted_open by done. f_equal. by apply IH.
Qed.

Lemma find_caps_body caps : Forall plain_cap caps → find_caps (print_body caps) = Some (print_caps caps).
Proof.
  intros Hf. unfold print_body.
  change (" capabilities = [" +:+ print_caps caps +:+ "] ") with (String " " ("capabilities = [" +:+ print_caps caps +:+ String "]" " ")).
  cbn [find_caps]. change (hclCapLine (String " " _)) with (@None string). cbn iota.
  assert (H : hclCapLine ("capabilities = [" +:+ print_caps caps +:+ String "]" " ") = Some (print_caps caps)).
  { change (hclCapLine ("capabilities = [" +:+ print_caps caps +:+ String "]" " ")) with
      ('(a, _) ← take_until "]" (print_caps caps +:+ String "]" " "); Some a). rewrite take_until_app; [done|].
    apply print_caps_free; [done..|]. eapply Forall_impl; [exact Hf|]. by intros x (_ & ? & _). }
  destruct ("capabilities = [" +:+ _) as [|c s] eqn:E; [done|]. cbn [find_caps]. by rewrite H.
Qed.

Lemma body_free caps : Forall plain_cap caps → str_mem "}" (print_body caps) = false.
Proof.
  intros Hf. unfold print_body. rewrite !str_mem_app, print_caps_free; [done..|]. eapply Forall_impl; [exact Hf|]. by intros x (_ & _ & ?).
Qed.

Lemma block_matched b rest : printable b →
  ∃ s', print_block b +:+ rest = String "p" (s' +:+ (newline +:+ rest)) ∧
    hclPathBlock (print_block b +:+ rest) = Some (b.1, print_body b.2, newline +:+ rest).
Proof.
  destruct b as [pat caps]. intros (Hne & Hq & _ & Hf). cbn [fst snd] in *.
  assert (E : print_block (pat, caps) +:+ rest = "path " +:+ String dq (pat +:+ String dq (" {" +:+ (print_body caps +:+ String "}" (newline +:+ rest))))).
  { unfold print_block. cbn [fst snd]. rewrite !str_app_assoc. rewrite quoted_app. done. }
  exists ("ath " +:+ String dq (pat +:+ String dq (" {" +:+ (print_body caps +:+ String "}" "")))). split.
  - rewrite E. change ("path " +:+ ?x) with (String "p" ("ath " +:+ x)). f_equal. rewrite str_app_assoc. f_equal. rewrite !str_cons_app, str_app_assoc.
    f_equal. f_equal. rewrite !str_cons_app. f_equal. rewrite !str_app_assoc. f_equal.
  - rewrite E. change (hclPathBlock ("path " +:+ String dq ?x)) with
      ('(p, s) ← take_until dq x; if p =s "" then None else s ← expect "{" (skip_ws s); '(body, s) ← take_until "}" s; Some (p, body, s)).
    rewrite take_until_app by done. cbn [mbind option_bind]. rewrite bool_decide_eq_false_2 by done.
    change (skip_ws (" {" +:+ ?x)) with (String "{" x). cbn [expect]. rewrite Ascii.eqb_refl. cbn [mbind option_bind].
    rewrite take_until_app by (by apply body_free). done.
Qed.

Lemma find_printed bs : Forall printable bs → find_blocks 0 (print_blocks bs) = (λ b, (b.1, print_body b.2)) <$> bs.
Proof.
  induction bs as [|b bs IH]; intros Hf; [done|]. apply Forall_cons in Hf as [Hb Hf]. cbn [print_blocks fmap list_fmap].
  destruct (block_matched b (print_blocks bs) Hb) as (s' & E & Hm). rewrite E in Hm. rewrite E. cbn [find_blocks]. rewrite Hm. f_equal.
  rewrite str_app_length. replace (String.length s' + _ - _)%nat with (String.length s') by lia. rewrite find_blocks_skip.
  change (find_blocks 0 (newline +:+ print_blocks bs)) with (find_blocks 0 (print_blocks bs)). by apply IH.
Qed.

Definition policy_name (name : string) (many : bool) (i : nat) : string := if many then name +:+ "-" +:+ Itoa (Z.of_nat i + 1) else name.

Lemma import_block_ok name many acc (b : string * list string) : printable b →
  import_block name many acc (b.1, print_body b.2) = Ok (acc ++ [hcl_policy (policy_name name many (length acc)) b.1 b.2]).
Proof.
  intros (_ & _ & Hne & Hp). assert (H1 := find_caps_body b.2 Hp). assert (H2 := find_quoted_caps b.2 Hp).
  unfold import_block. change (snd (b.1, print_body b.2)) with (print_body b.2). destruct (find_caps (print_body b.2)) as [text|]; [|done].
  injection H1 as ->. rewrite H2, bool_decide_eq_false_2 by done. done.
Qed.

Lemma import_all name many bs acc : Forall printable bs →
  for_each (import_block name many) acc ((λ b, (b.1, print_body b.2)) <$> bs) =
    Ok (acc ++ imap (λ i b, hcl_policy (policy_name name many (length acc + i)) b.1 b.2) bs).
Proof.
  revert acc. induction bs as [|b bs IH]; intros acc Hf; [cbn; by rewrite app_nil_r|].
  apply Forall_cons in Hf as [Hb Hf]. rewrite fmap_cons. cbn [for_each]. rewrite import_block_ok by done.
  etrans; [by apply IH|]. rewrite <-app_assoc. cbn [app imap]. rewrite Nat.add_0_r. do 3 f_equal. apply imap_ext. intros i x _. rewrite length_app. cbn. do 2 f_equal. lia.
Qed.

(** Importing what was printed gives the policies that were printed, one per
    block, in order: names numbered when there are several, [deny] turned into
    the effect, a leading slash dropped from the path. *)
Theorem hcl_roundtrip name bs : TrimSpace name ≠ "" → bs ≠ [] → Forall printable bs →
  ImportHCLPolicy name (print_blocks bs) = Ok (imap (λ i b, hcl_policy (policy_name name (Nat.ltb 1 (length bs)) i) b.1 b.2) bs).
Proof.
  intros Hn Hne Hf. unfold ImportHCLPolicy. rewrite (bool_decide_eq_false_2 (TrimSpace name = "")) by done. cbv zeta. rewrite find_printed by done.
  rewrite (bool_decide_eq_false_2 (_ <$> bs = [])) by (by intros ?%fmap_nil_inv). rewrite length_fmap. by apply import_all.
Qed.

(** A block that only denies gives a policy that no repository accepts. *)
Theorem deny_only_refused name pat caps : Forall (λ c, c = "deny") caps → ¬ is_Ok (Policy_Validate (hcl_policy name pat caps)).
Proof.
  intros Hf [u E]. assert (Hnil : filter (λ c, c ≠ "deny") caps = []).
  { clear E. induction Hf as [|c caps -> _ IH]; [done|]. by rewrite filter_cons_False by naive_solver. }
  unfold hcl_policy, Policy_Validate in E. rewrite Hnil in E. cbn in E. by repeat case_match.
Qed.

(** ** Examples *)

Lemma hcl_roundtrip_witness :
  ImportHCLPolicy "team" (print_blocks [("/secrets/kv/team/*", ["read"; "list"]); ("sys/*", ["deny"; "read"])]) =
  Ok [hcl_policy "team-1" "/secrets/kv/team/*" ["read"; "list"]; hcl_policy "team-2" "sys/*" ["deny"; "read"]].
Proof.
  apply (hcl_roundtrip "team" [("/secrets/kv/team/*", ["read"; "list"]); ("sys/*", ["deny"; "read"])]).
  - discriminate.
  - discriminate.
  - apply Forall_cons; split; [|apply Forall_cons; split; [|apply Forall_nil_2]]; (split; [discriminate|split; [reflexivity|split; [discriminate|]]]);
      cbn [snd]; repeat (apply Forall_cons; split); try apply Forall_nil_2; split_and!; reflexivity.
Defined.

Lemma deny_only_refused_witness : ¬ is_Ok (Policy_Validate (hcl_policy "team" "sys/*" ["deny"])).
Proof. apply (deny_only_refused "team" "sys/*" ["deny"]). repeat constructor. Defined.

(** A block that is commented out is imported. *)
Example comment_imported :
  (length <$> match ImportHCLPolicy "team" ("# " +:+ print_block ("*", ["sudo"])) with Ok ps => Some ps | Err _ => None end) = Some 1%nat.
Proof. vm_compute. reflexivity. Qed.

(** The handler saves the blocks before one that is refused. *)
#[local] Instance no_digest : PolicyDigest := {| sha256_json_policies _ := "" |}.
Example half_import :
  let '(s, r) := ImportHCL None N.of_nat "team" (print_blocks [("a", ["read"]); ("b", ["deny"])]) (NewPolicyService ∅ ∅ ∅) in
  is_ok r = false ∧ (map_to_list (ps_policies s)).*1 = ["team-1"].
Proof. vm_compute. split; reflexivity. Qed.
