(* ===== verification/AppRole.v ===== *)
(** AppRole credentials, internal/auth/approle.go, with the file persistence of
    approle_persist.go. A role is stored under its [role_id] with a hash of the
    [secret_id], salted by the [role_id].

    SHA-256 is a parameter. The file system is the list of records in the
    file, absent before the first write; JSON encoding of the list is the
    identity, and a [range] over the map is [map_to_list]. The replication of
    approle_backend.go is in AppRoleRaft.v. *)

From Stdlib Require Import Ascii.
From S2P Require Import Prelude.
From S2P Require Import GoLib.
From S2P Require Import Domain.

(** ** encoding/hex *)

Definition hex_byte (c : ascii) : string :=
  String (hex_digit (N_of_ascii c / 16)) (String (hex_digit (N_of_ascii c mod 16)) "").

Fixpoint HexEncode (b : bytes) : string :=
  match b with
  | [] => ""
  | c :: b => hex_byte c +:+ HexEncode b
  end.

(** The value of a hexadecimal digit, of either case. *)
Definition hex_val (c : ascii) : option N :=
  let n := N_of_ascii c in
  if ((48 <=? n) && (n <=? 57))%N then Some (n - 48)%N
  else if ((97 <=? n) && (n <=? 102))%N then Some (n - 87)%N
  else if ((65 <=? n) && (n <=? 70))%N then Some (n - 55)%N
  else None.

Fixpoint HexDecode (s : string) : option bytes :=
  match s with
  | EmptyString => Some []
  | String a (String b rest) =>
      x ← hex_val a; y ← hex_val b; bs ← HexDecode rest; Some (ascii_of_N (16 * x + y) :: bs)
  | _ => None
  end.

(** ** approle.go *)

Class Sha256 := { sha256_Sum : string → bytes }.

Record AppRole := mkAppRole {
  ap_RoleID : string;
  ap_Subject : string;
  ap_Policies : list string;
  ap_secretHash : string;
}.

Record AppRoleStore := mkAppRoleStore {
  ars_roles : gmap string AppRole;
  ars_persistPath : string;
  ars_disk : gmap string (list AppRole);
}.

Definition NewAppRoleStore (disk : gmap string (list AppRole)) : AppRoleStore := mkAppRoleStore ∅ "" disk.

Definition set_roles (s : AppRoleStore) (m : gmap string AppRole) : AppRoleStore :=
  mkAppRoleStore m (ars_persistPath s) (ars_disk s).

(** [wr] says whether the write of the file succeeds. *)
Definition saveLocked (wr : bool) (s : AppRoleStore) : AppRoleStore :=
  if (ars_persistPath s =s "") || negb wr then s
  else mkAppRoleStore (ars_roles s) (ars_persistPath s)
         (<[ars_persistPath s := snd <$> map_to_list (ars_roles s)]> (ars_disk s)).

Definition loadLocked (s : AppRoleStore) : AppRoleStore :=
  if ars_persistPath s =s "" then s
  else match ars_disk s !! ars_persistPath s with
       | None => s
       | Some l => set_roles s (foldl (λ m r, <[ap_RoleID r := r]> m) (ars_roles s) l)
       end.

Definition SetPersistPath (s : AppRoleStore) (path : string) : AppRoleStore :=
  loadLocked (mkAppRoleStore (ars_roles s) path (ars_disk s)).

Section approle.
Context `{Sha256}.

Definition nul : string := String (ascii_of_nat 0) "".

Definition hashSecretID (roleID secretID : string) : string := HexEncode (sha256_Sum (roleID +:+ nul +:+ secretID)).

Definition Register (wr : bool) (s : AppRoleStore) (roleID0 secretID0 subject : string) (policies : list string)
    : res AppRoleStore :=
  let roleID := TrimSpace roleID0 in
  let secretID := TrimSpace secretID0 in
  _ ← reject ((roleID =s "") || (secretID =s "")) (New ErrCodeValidation "role_id and secret_id are required");
  _ ← reject (String.length secretID <? 16)%nat (New ErrCodeValidation "secret_id must be at least 16 characters");
  _ ← reject (bool_decide (policies = [])) (New ErrCodeValidation "policies are required");
  let subject := if subject =s "" then "approle:" +:+ roleID else subject in
  Ok (saveLocked wr (set_roles s (<[roleID := mkAppRole roleID subject policies (hashSecretID roleID secretID)]> (ars_roles s)))).

Definition Delete (wr : bool) (s : AppRoleStore) (roleID : string) : AppRoleStore :=
  saveLocked wr (set_roles s (delete roleID (ars_roles s))).

Definition bad_approle : error := New ErrCodeUnauthorized "invalid role_id or secret_id".

Definition AppRole_Authenticate (s : option AppRoleStore) (roleID0 secretID0 : string) : res AppRole :=
  match s with
  | None => Err bad_approle
  | Some s =>
      let roleID := TrimSpace roleID0 in
      let secretID := TrimSpace secretID0 in
      _ ← reject ((roleID =s "") || (secretID =s "")) (New ErrCodeValidation "role_id and secret_id are required");
      match ars_roles s !! roleID with
      | None => Err bad_approle
      | Some role =>
          match HexDecode (ap_secretHash role) with
          | None => Err (New ErrCodeInternal "approle corrupt")
          | Some want => if bool_decide (want = sha256_Sum (roleID +:+ nul +:+ secretID)) then Ok role else Err bad_approle
          end
      end
  end.
End approle.

(** ** Lemmas *)

Lemma hex_byte_decode (c : ascii) (rest : string) bs : HexDecode rest = Some bs →
  HexDecode (hex_byte c +:+ rest) = Some (c :: bs).
Proof. intros Hr. destruct c as [[] [] [] [] [] [] [] []]; simpl; by rewrite Hr. Qed.

Lemma HexDecode_Encode b : HexDecode (HexEncode b) = Some b.
Proof. induction b as [|c b IH]; [done|]. simpl HexEncode. by apply hex_byte_decode. Qed.

Lemma saveLocked_roles wr s : ars_roles (saveLocked wr s) = ars_roles s.
Proof. unfold saveLocked. by case_match. Qed.

Section approle_lemmas.
Context `{Sha256}.

Lemma Register_ok wr s roleID secretID subject policies s' : Register wr s roleID secretID subject policies = Ok s' →
  TrimSpace roleID ≠ "" ∧ TrimSpace secretID ≠ "" ∧ policies ≠ [] ∧ (16 ≤ String.length (TrimSpace secretID))%nat ∧
  ∃ subject', ars_roles s' = <[TrimSpace roleID := mkAppRole (TrimSpace roleID) subject' policies
                 (hashSecretID (TrimSpace roleID) (TrimSpace secretID))]> (ars_roles s).
Proof.
  unfold Register. cbv zeta. intros Hr. inv_res. bool_props.
  match goal with Hl : (_ <? _)%nat = false |- _ => apply Nat.ltb_ge in Hl end.
  rewrite saveLocked_roles. repeat split; try done. by eexists.
Qed.

Lemma Authenticate_registered s roleID secretID secretID' subject policies :
  TrimSpace roleID ≠ "" → TrimSpace secretID ≠ "" →
  ars_roles s !! TrimSpace roleID = Some (mkAppRole (TrimSpace roleID) subject policies
    (hashSecretID (TrimSpace roleID) secretID')) →
  AppRole_Authenticate (Some s) roleID secretID =
  (if bool_decide (sha256_Sum (TrimSpace roleID +:+ nul +:+ secretID') = sha256_Sum (TrimSpace roleID +:+ nul +:+ TrimSpace secretID))
   then Ok (mkAppRole (TrimSpace roleID) subject policies (hashSecretID (TrimSpace roleID) secretID'))
   else Err bad_approle).
Proof.
  intros Hr Hs Hl. unfold AppRole_Authenticate. cbv zeta. rewrite !bool_decide_false by done. simpl.
  rewrite Hl. cbn [ap_secretHash]. unfold hashSecretID. by rewrite HexDecode_Encode.
Qed.
End approle_lemmas.

(** ** Theorems *)

(** AppRole credentials are checked exactly: after a registration
    the pair is accepted and gives the registered policies, and where the
    digest of another secret does not collide with the registered one that
    secret is refused as unauthorized. *)
Theorem approle_credentials `{Sha256} wr s roleID secretID subject policies s' secretID' :
  Register wr s roleID secretID subject policies = Ok s' → TrimSpace secretID' ≠ "" →
  (sha256_Sum (TrimSpace roleID +:+ nul +:+ TrimSpace secretID) =
     sha256_Sum (TrimSpace roleID +:+ nul +:+ TrimSpace secretID') → TrimSpace secretID = TrimSpace secretID') →
  match AppRole_Authenticate (Some s') roleID secretID' with
  | Ok role => TrimSpace secretID' = TrimSpace secretID ∧ ap_Policies role = policies
  | Err e => TrimSpace secretID' ≠ TrimSpace secretID ∧ e = bad_approle
  end.
Proof.
  intros Hr Hs Hinj. apply Register_ok in Hr as (Hid & _ & _ & _ & subject' & Hroles).
  rewrite (Authenticate_registered s' roleID secretID' (TrimSpace secretID) subject' policies) by
    (try done; by rewrite Hroles, lookup_insert_eq).
  case_bool_decide as Hd.
  - split; [by rewrite Hinj|done].
  - split; [|done]. intros E. by rewrite E in Hd.
Qed.

(** A digest for the witnesses: the string itself. *)
Definition toy_sha256 : Sha256 := {| sha256_Sum := bytes_of |}.

Lemma approle_credentials_witness :
  match AppRole_Authenticate (H := toy_sha256) (Some (mkAppRoleStore
      {["ci" := mkAppRole "ci" "approle:ci" ["deploy"] (hashSecretID (H := toy_sha256) "ci" "0123456789abcdef")]} "" ∅))
      "ci" "wrong" with
  | Ok role => TrimSpace "wrong" = TrimSpace "0123456789abcdef" ∧ ap_Policies role = ["deploy"]
  | Err e => TrimSpace "wrong" ≠ TrimSpace "0123456789abcdef" ∧ e = bad_approle
  end.
Proof.
  apply (approle_credentials (H := toy_sha256) true (NewAppRoleStore ∅) " ci" "0123456789abcdef " "" ["deploy"]).
  - reflexivity.
  - discriminate.
  - discriminate.
Defined.

(** Restarts keep AppRoles: loading the file that the last change wrote
    gives a new process the same roles. *)
Theorem approle_persist_roundtrip s path : path ≠ "" → ars_persistPath s = path →
  map_Forall (λ k r, ap_RoleID r = k) (ars_roles s) →
  ars_roles (SetPersistPath (NewAppRoleStore (ars_disk (saveLocked true s))) path) = ars_roles s.
Proof.
  intros Hp Hs Hwf. unfold SetPersistPath, loadLocked, saveLocked. rewrite Hs. cbn.
  rewrite bool_decide_false by done. cbn. rewrite lookup_insert_eq. cbn.
  assert (Hf : ∀ (l : list AppRole) (m : gmap string AppRole), foldl (λ m r, <[ap_RoleID r := r]> m) m l =
    list_to_map ((λ r, (ap_RoleID r, r)) <$> reverse l) ∪ m).
  { induction l as [|r l IH] using rev_ind; intros m; [by rewrite reverse_nil, fmap_nil, list_to_map_nil, (left_id_L ∅ (∪))|].
    rewrite foldl_app, reverse_app. simpl. rewrite IH. by rewrite insert_union_l. }
  rewrite Hf, (right_id_L ∅ (∪)). rewrite <- (list_to_map_to_list (ars_roles s)) at 2.
  assert (Hm : (λ r, (ap_RoleID r, r)) <$> (snd <$> map_to_list (ars_roles s)) = map_to_list (ars_roles s)).
  { rewrite <- list_fmap_compose. rewrite <- (list_fmap_id (map_to_list (ars_roles s))) at 2.
    apply list_fmap_ext. intros i [k r] Hi. apply list_elem_of_lookup_2, elem_of_map_to_list, Hwf in Hi. cbn in *. by rewrite Hi. }
  rewrite fmap_reverse, Hm. apply list_to_map_proper; [|apply reverse_Permutation].
  rewrite fmap_reverse. rewrite reverse_Permutation. apply NoDup_fst_map_to_list.
Qed.
