(* ===== verification/AuthService.v ===== *)
(** The authentication service, [Service] of internal/auth/token.go, with the
    login methods of login_audit.go, login_context.go, cert_login.go, approle.go
    and oidc.go, agent delegation (agent.go), and the machine identities it
    keeps (internal/service/machine_identity.go).

    The state gathers what the service points to: the token store, the policy
    service whose RBAC cache and roles it shares, the machine identities, the
    lockout tracker, the AppRoles, the audit trail, and a component [X] that
    is told of revoked tokens ([TokenHooks]). An optional collaborator is an
    [option]. Token review by the Kubernetes API, JWT parsing and the key sets
    of identity providers are the class [AuthExternals]. The k-th reading of
    the clock during a request is [clk k]. *)

From S2P Require Import Prelude.
From S2P Require Import Effects.
From S2P Require Import GoLib.
From S2P Require Import Policy.
From S2P Require Import Domain.
From S2P Require Import Lockout.
From S2P Require Import Repos.
From S2P Require Import TokenStore.
From S2P Require Import Identity.
From S2P Require Import AuditHelper.
From S2P Require Import PolicyService.
From S2P Require Import AppRole.

#[local] Open Scope Z_scope.

(** ** Collaborators *)

Record TokenReview := mkTokenReview {
  tv_Authenticated : bool;
  tv_Username : string;
  tv_Namespace : string;
  tv_ServiceAccountName : string;
}.

Abbreviation claims := (gmap string any).

Class AuthExternals := {
  token_review : string → res (option TokenReview);
  (** [jwt.Parse] with the shared secret, HS256 only; [None]: the claims are not a valid map. *)
  jwt_parse_hs256 : bytes → string → res (option claims);
  jwt_parse_unverified : string → res (option claims);
  (** The key set of a URL as the cache gives it at an attempt, and [jwt.Parse] with it. *)
  KeySet : Type;
  jwks_get : nat → string → res KeySet;
  jwt_parse_rsa : KeySet → string → res (option claims);
}.

Class TokenHooks (X : Type) := {
  RevokeByTokenID : string → prog X Z;
  WipeToken : string → prog X unit;
}.

Record K8sLoginOptions := mkK8sLoginOptions {
  k8_RaftEnabled : bool;
  k8_InsecureDev : bool;
  k8_TokenReviewer : bool;
}.

Record AuthConfig := mkAuthConfig {
  ac_rbacSync : bool;
  ac_rbacSyncFailClosed : bool;
  ac_persistedRoles : bool;
  ac_jwtSecret : bytes;
  ac_k8s : K8sLoginOptions;
  ac_oidc : bool;
  ac_oidcTTL : Duration;
}.

Record AuthService (R X : Type) := mkAuthService {
  au_config : AuthConfig;
  au_tokens : TokenStore R;
  au_policy : PolicyService;
  au_nhi : option (gmap string MachineIdentity);
  au_audit : option (list AuditEvent);
  au_lockout : option LockoutTracker;
  au_approles : option AppRoleStore;
  au_hooks : X;
}.
Arguments mkAuthService {R X}.
Arguments au_config {R X}.
Arguments au_tokens {R X}.
Arguments au_policy {R X}.
Arguments au_nhi {R X}.
Arguments au_audit {R X}.
Arguments au_lockout {R X}.
Arguments au_approles {R X}.
Arguments au_hooks {R X}.

Section setters.
Context {R X : Type}.
Implicit Type s : AuthService R X.
Definition set_au_tokens s t : AuthService R X :=
  mkAuthService (au_config s) t (au_policy s) (au_nhi s) (au_audit s) (au_lockout s) (au_approles s) (au_hooks s).
Definition set_au_policy s p : AuthService R X :=
  mkAuthService (au_config s) (au_tokens s) p (au_nhi s) (au_audit s) (au_lockout s) (au_approles s) (au_hooks s).
Definition set_au_nhi s m : AuthService R X :=
  mkAuthService (au_config s) (au_tokens s) (au_policy s) m (au_audit s) (au_lockout s) (au_approles s) (au_hooks s).
Definition set_au_audit s a : AuthService R X :=
  mkAuthService (au_config s) (au_tokens s) (au_policy s) (au_nhi s) a (au_lockout s) (au_approles s) (au_hooks s).
Definition set_au_lockout s l : AuthService R X :=
  mkAuthService (au_config s) (au_tokens s) (au_policy s) (au_nhi s) (au_audit s) l (au_approles s) (au_hooks s).
Definition set_au_approles s a : AuthService R X :=
  mkAuthService (au_config s) (au_tokens s) (au_policy s) (au_nhi s) (au_audit s) (au_lockout s) a (au_hooks s).
Definition set_au_hooks s x : AuthService R X :=
  mkAuthService (au_config s) (au_tokens s) (au_policy s) (au_nhi s) (au_audit s) (au_lockout s) (au_approles s) x.
End setters.

(** ** login_audit.go and login_context.go, the pure part *)

Record LoginAuditContext := mkLoginAudit {
  la_AuthMethod : string;
  la_SourceIP : string;
  la_ClientIdentity : string;
  la_RequestID : string;
  la_Namespace : string;
  la_FailureReason : string;
}.

Definition la_with_identity (c : LoginAuditContext) (id : string) : LoginAuditContext :=
  mkLoginAudit (la_AuthMethod c) (la_SourceIP c) id (la_RequestID c) (la_Namespace c) (la_FailureReason c).
Definition la_with_namespace (c : LoginAuditContext) (ns : string) : LoginAuditContext :=
  mkLoginAudit (la_AuthMethod c) (la_SourceIP c) (la_ClientIdentity c) (la_RequestID c) ns (la_FailureReason c).
Definition la_with_reason (c : LoginAuditContext) (reason : string) : LoginAuditContext :=
  mkLoginAudit (la_AuthMethod c) (la_SourceIP c) (la_ClientIdentity c) (la_RequestID c) (la_Namespace c) reason.

Definition loginAuditFromContext (rq : option RequestContext) (method : string) : LoginAuditContext :=
  match rq with
  | Some req => mkLoginAudit method (rc_ClientIP req) "" (rc_RequestID req) (rc_Namespace req) ""
  | None => mkLoginAudit method "" "" "" "" ""
  end.

Definition LoginLockoutKey (method : string) (c : LoginAuditContext) : string :=
  if negb (la_ClientIdentity c =s "") then LockoutKey method (la_ClientIdentity c)
  else if negb (la_SourceIP c =s "") then LockoutKey method (la_SourceIP c)
  else LockoutKey method "unknown".

Definition add_key (keys : list string) (k : string) : list string :=
  if k =s "" then keys else if bool_decide (k ∈ keys) then keys else keys ++ [k].

Definition LoginLockoutKeys (method : string) (c : LoginAuditContext) : list string :=
  let keys := if negb (la_ClientIdentity c =s "") then add_key [] (LockoutKey method (la_ClientIdentity c)) else [] in
  let keys := if negb (la_SourceIP c =s "") then add_key keys (LockoutKey method (la_SourceIP c)) else keys in
  if bool_decide (keys = []) then add_key keys (LockoutKey method "unknown") else keys.

(** ** The service *)

Definition MaxClientTokenTTL : Duration := 30 * 24 * Hour.
Definition locked_out : error := New ErrCodeForbidden "identity locked out".

Record ClientCert := mkClientCert {
  cc_NotBefore : Time;
  cc_NotAfter : Time;
  cc_CommonName : string;
  cc_DNSNames : list string;
}.

Record AgentDelegateRequest := mkAgentDelegateRequest {
  ad_AgentID : string;
  ad_PathPrefix : string;
  ad_AllowedActions : list string;
  ad_Policies : list string;
  ad_TTL : Duration;
}.

Section service.
Context {R X : Type} {repo : TokenRepo R} {codec : TokenCodec} {sha : Sha256} {digest : PolicyDigest} {parsers : Parsers}
  {ext : AuthExternals} {hooks : TokenHooks X} (range_keys : gmap string Z → list string).
Abbreviation M := (prog (AuthService R X)).

Definition NewService (tokens : TokenStore R) (policy : PolicyService) (config : AuthConfig) (x : X) : AuthService R X :=
  mkAuthService config tokens policy None None None None x.

(** Methods of the parts. *)
Definition tokens {A} (m : prog (TokenStore R) A) : M A := zoom au_tokens set_au_tokens m.
Definition policy {A} (m : prog PolicyService A) : M A := zoom au_policy set_au_policy m.

(** [s.audit.Record(...)] when an audit service is configured. *)
Definition audit_record (actor action resource status : string) (details : list (string * any)) : M unit :=
  modify (λ s, match au_audit s with
               | None => s
               | Some log => set_au_audit s (Some (log ++ [mkAuditEvent actor action resource status details]))
               end).

Definition or_anonymous (actor : string) : string := if actor =s "" then "anonymous" else actor.

Definition recordLoginAudit (success : bool) (c : LoginAuditContext) : M unit :=
  audit_record (or_anonymous (la_ClientIdentity c)) (if success then "auth.login" else "auth.login.failed")
    ("auth/" +:+ la_AuthMethod c) (if success then "success" else "failure")
    ([("auth_method", VStr (la_AuthMethod c)); ("source_ip", VStr (la_SourceIP c));
      ("client_identity", VStr (la_ClientIdentity c)); ("request_id", VStr (la_RequestID c));
      ("namespace", VStr (la_Namespace c))] ++
     if la_FailureReason c =s "" then [] else [("failure_reason", VStr (la_FailureReason c))]).

Definition recordLockoutAudit (lockKey : string) (c : LoginAuditContext) : M unit :=
  audit_record (or_anonymous (la_SourceIP c)) "auth.lockout" ("auth/" +:+ la_AuthMethod c) "failure"
    [("auth_method", VStr (la_AuthMethod c)); ("source_ip", VStr (la_SourceIP c));
     ("lockout_key", VStr lockKey); ("request_id", VStr (la_RequestID c))].

(** [s.lockout != nil && s.lockout.IsLockedAny(keys...)] *)
Definition locked_any (clk : nat → Time) (keys : list string) : M bool :=
  update (λ s, match au_lockout s with
               | None => (s, false)
               | Some t => let '(t', b) := IsLockedAny t clk keys in (set_au_lockout s (Some t'), b)
               end).

(** [if s.lockout != nil { s.lockout.RecordSuccess(key) }], and the same for [Clear]. *)
Definition on_lockout (f : LockoutTracker → LockoutTracker) : M unit :=
  modify (λ s, set_au_lockout s (f <$> au_lockout s)).

Definition record_failure (clk : nat → Time) (key : string) : M bool :=
  update (λ s, match au_lockout s with
               | None => (s, false)
               | Some t => let '(t', b) := RecordFailure range_keys t (clk 0%nat) (clk 1%nat) key in
                           (set_au_lockout s (Some t'), b)
               end).

Definition noteLockoutFailure (clk : nat → Time) (lockKey : string) (c : LoginAuditContext) : M unit :=
  lockout ← gets au_lockout;
  match lockout with
  | None => mret tt
  | Some _ =>
      let primary := LoginLockoutKey (la_AuthMethod c) c in
      let primary := if (primary =s "") || (primary =s LockoutKey (la_AuthMethod c) "unknown")
                     then if negb (lockKey =s "") then lockKey else primary
                     else primary in
      locked ← record_failure clk primary;
      when locked (recordLockoutAudit primary c)
  end.

Definition recordLoginFailure (clk : nat → Time) (lockKey : string) (c : LoginAuditContext) (reason : string) : M unit :=
  let c := la_with_reason c reason in
  _ ← recordLoginAudit false c;
  noteLockoutFailure clk lockKey c.

(** The refusals of a login: audit only, or audit and count the failure. *)
Definition refuse {A} (c : LoginAuditContext) (reason : string) (e : error) : M A :=
  _ ← recordLoginAudit false (la_with_reason c reason);
  raise e.
Definition refuse_counted {A} (clk : nat → Time) (lockKey : string) (c : LoginAuditContext) (reason : string) (e : error) : M A :=
  _ ← recordLoginFailure clk lockKey c reason;
  raise e.

(** The lockout check every login starts with. *)
Definition check_lockout (clk : nat → Time) (method : string) (c : LoginAuditContext) : M unit :=
  locked ← locked_any clk (LoginLockoutKeys method c);
  match locked with true => refuse c "identity locked out" locked_out | false => mret tt end.

Definition ClearLockout (actor authMethod sourceIP : string) : M unit :=
  lockout ← gets au_lockout;
  match lockout with
  | None => mret tt
  | Some _ =>
      let key := LockoutKey authMethod sourceIP in
      _ ← on_lockout (λ t, Clear t key);
      audit_record actor "auth.lockout.clear" ("auth/" +:+ authMethod) "success"
        [("auth_method", VStr authMethod); ("source_ip", VStr sourceIP); ("lockout_key", VStr key)]
  end.

(** *** Authorization *)

Definition syncRBAC (failure : option error) : M unit :=
  cfg ← gets au_config;
  if negb (ac_rbacSync cfg) then mret tt
  else r ← attempt (policy (SyncRBAC failure));
       match r with
       | Err e => if ac_rbacSyncFailClosed cfg then raise (Wrap ErrCodeUnavailable "rbac sync failed" e) else mret tt
       | Ok _ => mret tt
       end.

(** The request the policies are evaluated on: the one in the context, if any,
    with the target and the agent overwritten. *)
Definition request_for (rq : option RequestContext) (principal : Principal) (resource action : string) : RequestContext :=
  match rq with
  | Some r => mkRequestContext (rc_ClientIP r) (rc_Namespace r) resource action (pp_AgentID principal) (rc_Now r)
                (rc_Cluster r) (rc_Environment r) (rc_RequestPath r) (rc_RequestID r) (rc_ResourceLabels r)
  | None => mkRequestContext "" "" resource action (pp_AgentID principal) 0 "" "" "" "" None
  end.

Definition Service_Authorize (rq : option RequestContext) (failure : option error) (principal : Principal)
    (resource action : string) : M unit :=
  _ ← guard_not (negb (ActionAllowedForPrincipal principal action))
        (New ErrCodeForbidden "action not allowed for agent token");
  _ ← guard_not (HasPrefix resource "secrets/kv/" && negb (KVPathAllowedForPrincipal principal resource))
        (New ErrCodeForbidden "path outside agent prefix");
  _ ← syncRBAC failure;
  rbac ← gets (λ s, ps_rbac (au_policy s));
  guard_not (negb (Authorize rbac (pp_Policies principal) resource action (request_for rq principal resource action)))
    (New ErrCodeForbidden "access denied").

(** The two methods have the same body. *)
Definition AuthorizePath := Service_Authorize.

Definition SimulatePolicy (failure : option error) (policies : list string) (resource capability : string)
    (req : RequestContext) : M AuthzResult :=
  _ ← ignore (syncRBAC failure);
  rbac ← gets (λ s, ps_rbac (au_policy s));
  mret (AuthorizeDetailed rbac (ResolvePolicyNames rbac policies) resource capability req).

(** *** Tokens *)

Definition LoginWithToken (token : string) (now : Time) : M ClientToken := tokens (Authenticate token now).

Definition CreateToken (subject : string) (policies : list string) (ttl : Duration) (renewable : bool) (raw : res bytes)
    (now1 now2 : Time) : M (string * ClientToken) :=
  let subject := if subject =s "" then "token" else subject in
  _ ← guard_not (bool_decide (policies = [])) (New ErrCodeValidation "policies are required");
  let ttl := if MaxClientTokenTTL <? ttl then MaxClientTokenTTL else ttl in
  own ← gets (λ s, ts_ttl (au_tokens s));
  let ttl := if ttl <=? 0 then if own <=? 0 then defaultTTL else own else ttl in
  tokens (Create subject policies ttl renewable (now1 + ttl) raw now2).

Definition RenewToken (token : string) (increment : Duration) (now1 now2 : Time) : M ClientToken :=
  let increment := if MaxClientTokenTTL <? increment then MaxClientTokenTTL else increment in
  tokens (Renew token increment now1 now2).

Definition RevokeToken (token : string) (now : Time) : M unit :=
  let id := hashToken token in
  _ ← tokens (Revoke token now);
  _ ← ignore (zoom au_hooks set_au_hooks (RevokeByTokenID id));
  ignore (zoom au_hooks set_au_hooks (WipeToken id)).

(** *** Machine identities *)

Definition IsRevoked (id : string) : M bool :=
  m ← gets au_nhi;
  match m with
  | None => mret false
  | Some m => rec ← lift (MachineIdentityRepository_Get m id); mret (mi_Revoked rec)
  end.

Definition mi_seen (m : MachineIdentity) (now : Time) : MachineIdentity :=
  mkMachineIdentity (mi_ID m) (mi_Type m) (mi_BoundNamespace m) (mi_BoundName m) (mi_Policies m)
    (mi_MaxTTL m) now (mi_Revoked m) (mi_ParentIdentityID m).

(** [actor] is the principal of the request, none during a login. *)
Definition UpsertFromLogin (actor : option string) (identity : MachineIdentity) (now : Time) : M unit :=
  m ← gets au_nhi;
  match m with
  | None => mret tt
  | Some m =>
      let identity := mi_seen identity now in
      let saved := MachineIdentityRepository_Save m identity in
      _ ← match saved with Ok m' => modify (λ s, set_au_nhi s (Some m')) | Err _ => mret tt end;
      _ ← audit_record (Actor actor) "nhi.login" ("sys/machine-identities/" +:+ mi_ID identity) (audit_status saved)
            [("actor_type", VStr "nhi"); ("type", VStr (mi_Type identity))];
      match saved with Ok _ => mret tt | Err e => raise e end
  end.

Definition RevokeIdentity (actor : option string) (id : string) : M unit :=
  m ← gets au_nhi;
  match m with
  | None => mret tt
  | Some m =>
      let saved := MachineIdentityRepository_Revoke m id in
      _ ← match saved with Ok m' => modify (λ s, set_au_nhi s (Some m')) | Err _ => mret tt end;
      _ ← audit_record (Actor actor) "nhi.revoke" ("sys/machine-identities/" +:+ id) (audit_status saved) [];
      match saved with Ok _ => mret tt | Err e => raise e end
  end.

(** The check and the update of a login, when identities are tracked. *)
Definition admit_identity (identity : MachineIdentity) (now : Time) : M unit :=
  m ← gets au_nhi;
  match m with
  | None => mret tt
  | Some _ =>
      revoked ← on_error (IsRevoked (mi_ID identity)) (λ e, raise (Wrap ErrCodeUnavailable "identity check failed" e));
      _ ← guard_not revoked (New ErrCodeForbidden "machine identity revoked");
      ignore (UpsertFromLogin None identity now)
  end.
(** *** Kubernetes login *)

(** [claims["sub"].(string)] *)
Definition claim_string (c : claims) (key : string) : string := default "" (as_string (c !! key)).

Definition sa_subject (id : ServiceAccountIdentity) : string := sa_prefix +:+ sa_Namespace id +:+ ":" +:+ sa_Name id.

Definition identityFromJWTClaims (c : claims) (role : string) : res (ServiceAccountIdentity * string) :=
  let subject := claim_string c "sub" in
  if subject =s "" then Err (New ErrCodeUnauthorized "kubernetes jwt subject is required")
  else match ParseServiceAccountUsername subject with
       | None => Err (New ErrCodeUnauthorized "kubernetes jwt subject must be a service account")
       | Some id => Ok (id, if subject =s role then sa_subject id else subject)
       end.

Definition jwt_identity (parsed : res (option claims)) (role : string) : res (ServiceAccountIdentity * string) :=
  match parsed with
  | Err e => Err (Wrap ErrCodeUnauthorized "invalid kubernetes jwt" e)
  | Ok None => Err (New ErrCodeUnauthorized "invalid kubernetes jwt claims")
  | Ok (Some c) => identityFromJWTClaims c role
  end.

Definition parseUnverifiedKubernetesJWT (jwtToken role : string) : res (ServiceAccountIdentity * string) :=
  jwt_identity (jwt_parse_unverified jwtToken) role.

Definition review_identity (jwtToken : string) : res (ServiceAccountIdentity * string) :=
  match token_review jwtToken with
  | Err e => Err (Wrap ErrCodeUnauthorized "token review failed" e)
  | Ok None => Err (New ErrCodeUnauthorized "kubernetes token not authenticated")
  | Ok (Some review) =>
      if negb (tv_Authenticated review) then Err (New ErrCodeUnauthorized "kubernetes token not authenticated")
      else
        let id := mkServiceAccount (tv_Namespace review) (tv_ServiceAccountName review) (tv_Username review) in
        let id := if (sa_Namespace id =s "") || (sa_Name id =s "")
                  then default id (ParseServiceAccountUsername (tv_Username review)) else id in
        let subject := if tv_Username review =s "" then sa_subject id else tv_Username review in
        Ok (id, subject)
  end.

Definition validateKubernetesJWT (cfg : AuthConfig) (role jwtToken : string) : res (ServiceAccountIdentity * string) :=
  let k8s := ac_k8s cfg in
  if k8_TokenReviewer k8s then review_identity jwtToken
  else if k8_RaftEnabled k8s
       then Err (New ErrCodeUnauthorized "kubernetes token review required in production")
  else if k8_InsecureDev k8s then parseUnverifiedKubernetesJWT jwtToken role
  else if negb (bool_decide (ac_jwtSecret cfg = [])) then jwt_identity (jwt_parse_hs256 (ac_jwtSecret cfg) jwtToken) role
  else Err (New ErrCodeUnauthorized "kubernetes authentication not configured").

Definition AuthMethodKubernetes : string := "kubernetes".
Definition AuthMethodOIDC : string := "oidc".

(** Readings of the clock after those of the lockout check. *)
Definition fail_clock (clk : nat → Time) : nat → Time := λ i, clk (100 + i)%nat.

(** The end of a login whose identity [id] has passed: the machine identity,
    the lockout counter, the audit entry. *)
Definition login_succeeds (clk : nat → Time) (lockKey : string) (c : LoginAuditContext) (id : MachineIdentity) : M unit :=
  _ ← admit_identity id (clk 200%nat);
  _ ← on_lockout (λ t, RecordSuccess t lockKey);
  recordLoginAudit true c.

Definition k8s_machine (id : ServiceAccountIdentity) (subject : string) (policies : list string) : MachineIdentity :=
  mkMachineIdentity (NHIKey IdentityTypeK8sSA (sa_Namespace id) (sa_Name id) subject) IdentityTypeK8sSA
    (sa_Namespace id) (sa_Name id) policies 0 0 false "".

Definition LoginKubernetes (rq : option RequestContext) (clk : nat → Time) (raw : res bytes) (role jwtToken : string)
    : M (string * ClientToken) :=
  let c := loginAuditFromContext rq "kubernetes" in
  let lockKey := LoginLockoutKey "kubernetes" c in
  let counted {A} (c : LoginAuditContext) (reason : string) (e : error) : M A :=
    refuse_counted (fail_clock clk) lockKey c reason e in
  _ ← check_lockout clk "kubernetes" c;
  if jwtToken =s "" then refuse c "jwt is required" (New ErrCodeValidation "jwt is required")
  else if role =s "" then refuse c "role is required" (New ErrCodeValidation "role is required")
  else
    cfg ← gets au_config;
    match validateKubernetesJWT cfg role jwtToken with
    | Err e => counted (la_with_namespace (la_with_identity c "") "") "kubernetes jwt validation failed" e
    | Ok (identity, subject) =>
        let c := la_with_namespace (la_with_identity c subject) (sa_Namespace identity) in
        if negb (ac_persistedRoles cfg)
        then refuse c "kubernetes login requires persisted roles"
               (New ErrCodeForbidden "kubernetes login requires persisted roles")
        else
          roles ← gets (λ s, ps_roles (au_policy s));
          match GetStoredRole (Some roles) role with
          | Err e => counted c "role not found" (Wrap ErrCodeForbidden "role not found" e)
          | Ok storedRole =>
              if negb (role_AuthMethod storedRole =s "") && negb (role_AuthMethod storedRole =s AuthMethodKubernetes)
              then counted c "role does not allow kubernetes login"
                     (New ErrCodeForbidden "role does not allow kubernetes login")
              else match MatchServiceAccountBinding (Some storedRole) identity with
                   | Err e => counted c "service account binding mismatch" e
                   | Ok _ =>
                       let policies := resolver_PoliciesForRole (Some roles) role in
                       if bool_decide (policies = [])
                       then counted c "role has no policies" (New ErrCodeForbidden "role has no policies")
                       else
                         _ ← login_succeeds clk lockKey c (k8s_machine identity subject policies);
                         tokens (Issue subject policies raw (clk 201%nat) (clk 202%nat))
                   end
          end
    end.

(** *** OIDC login *)

(** The loop over two attempts: a token signed by an unknown key is tried again
    with a fresh key set. *)
Definition oidc_parse (cfg : OIDCConfig) (token : string) : res (option claims) :=
  let try_ (attempt : nat) (retry : res (option claims)) : res (option claims) :=
    match jwks_get attempt (oidc_JWKSURL cfg) with
    | Err e => Err (Wrap ErrCodeUnauthorized "jwks unavailable" e)
    | Ok keys =>
        match jwt_parse_rsa keys token with
        | Ok parsed => Ok parsed
        | Err e => if Nat.eqb attempt 0 && Contains (error_string e) "unknown kid" then retry
                   else Err (Wrap ErrCodeUnauthorized "invalid oidc jwt" e)
        end
    end in
  try_ 0%nat (try_ 1%nat (Err (New ErrCodeUnauthorized "invalid oidc jwt"))).

Definition oidc_Validate (cfg : OIDCConfig) (token : string) : res (string * claims) :=
  _ ← reject (oidc_JWKSURL cfg =s "") (New ErrCodeValidation "oidc jwks_url is required");
  parsed ← oidc_parse cfg token;
  match parsed with
  | None => Err (New ErrCodeUnauthorized "invalid oidc jwt claims")
  | Some c =>
      _ ← reject (TrimSpace (oidc_Issuer cfg) =s "") (New ErrCodeUnauthorized "oidc issuer is required");
      _ ← reject (negb (claim_string c "iss" =s oidc_Issuer cfg)) (New ErrCodeUnauthorized "issuer mismatch");
      _ ← reject (TrimSpace (oidc_Audience cfg) =s "") (New ErrCodeUnauthorized "oidc audience is required");
      _ ← reject (negb (audienceMatches (c !! "aud") (oidc_Audience cfg))) (New ErrCodeUnauthorized "audience mismatch");
      let sub := claim_string c "sub" in
      _ ← reject (sub =s "") (New ErrCodeUnauthorized "oidc subject required");
      Ok (sub, c)
  end.

(** [int64(ttl.Seconds())] for a duration that is a whole number of seconds, or truncated to one. *)
Definition seconds (d : Duration) : Z := Z.quot d Second.

Definition oidc_machine (subject : string) (policies : list string) (ttl : Duration) : MachineIdentity :=
  mkMachineIdentity (NHIKey IdentityTypeOIDC "" "" subject) IdentityTypeOIDC "" subject policies (seconds ttl) 0 false "".

(** The role of an OIDC login, when roles are persisted. *)
Definition oidc_role (persisted : bool) (roles : gmap string Role) (role : string) : res (option Role) :=
  if negb persisted then Ok None else Some <$> GetStoredRole (Some roles) role.

Definition LoginOIDC (rq : option RequestContext) (clk : nat → Time) (raw : res bytes) (role jwtToken : string)
    : M (string * ClientToken) :=
  let c := loginAuditFromContext rq "oidc" in
  let lockKey := LoginLockoutKey "oidc" c in
  let counted {A} (c : LoginAuditContext) (reason : string) (e : error) : M A :=
    refuse_counted (fail_clock clk) lockKey c reason e in
  _ ← check_lockout clk "oidc" c;
  if jwtToken =s "" then refuse c "jwt is required" (New ErrCodeValidation "jwt is required")
  else if role =s "" then refuse c "role is required" (New ErrCodeValidation "role is required")
  else
    cfg ← gets au_config;
    if negb (ac_oidc cfg) then refuse c "oidc not configured" (New ErrCodeUnauthorized "oidc authentication not configured")
    else
      roles ← gets (λ s, ps_roles (au_policy s));
      match oidc_role (ac_persistedRoles cfg) roles role with
      | Err e => refuse c "role not found" (Wrap ErrCodeForbidden "role not found" e)
      | Ok None => refuse c "oidc not configured for role" (New ErrCodeValidation "oidc not configured for role")
      | Ok (Some storedRole) =>
          if negb (role_AuthMethod storedRole =s "") && negb (role_AuthMethod storedRole =s AuthMethodOIDC)
          then refuse c "role does not allow oidc login" (New ErrCodeForbidden "role does not allow oidc login")
          else match role_OIDC storedRole with
               | None => refuse c "oidc not configured for role" (New ErrCodeValidation "oidc not configured for role")
               | Some oidcCfg =>
                   match oidc_Validate oidcCfg jwtToken with
                   | Err e => counted c "oidc jwt validation failed" e
                   | Ok (subject, cl) =>
                       let c := la_with_identity c subject in
                       match CheckMFA (role_RequireMFA storedRole) cl with
                       | Err e => counted c "mfa required for administrative role" e
                       | Ok _ =>
                           let policies := resolver_PoliciesForRole (Some roles) role in
                           let ttl := OIDCTTL (Some oidcCfg) (ac_oidcTTL cfg) in
                           _ ← login_succeeds clk lockKey c (oidc_machine subject policies ttl);
                           tokens (Create (OIDCSubjectLabel (oidc_Issuer oidcCfg) subject) policies ttl true
                                     (clk 201%nat + ttl) raw (clk 202%nat))
                       end
                   end
               end
      end.

(** *** AppRole, certificate and token logins *)

Definition EnsureAppRoleStore : M AppRoleStore :=
  update (λ s, match au_approles s with
               | Some st => (s, st)
               | None => let st := NewAppRoleStore ∅ in (set_au_approles s (Some st), st)
               end).

Definition RegisterAppRole (wr : bool) (roleID secretID subject : string) (policies : list string) : M unit :=
  st ← EnsureAppRoleStore;
  st' ← lift (Register wr st roleID secretID subject policies);
  modify (λ s, set_au_approles s (Some st')).

Definition LoginAppRole (rq : option RequestContext) (clk : nat → Time) (raw : res bytes) (roleID secretID : string)
    : M (string * ClientToken) :=
  let c := loginAuditFromContext rq "approle" in
  let lockKey := LoginLockoutKey "approle" c in
  _ ← check_lockout clk "approle" c;
  st ← EnsureAppRoleStore;
  match AppRole_Authenticate (Some st) roleID secretID with
  | Err e =>
      _ ← noteLockoutFailure (fail_clock clk) lockKey c;
      refuse c (error_string e) e
  | Ok role =>
      issued ← on_error (tokens (Issue (ap_Subject role) (ap_Policies role) raw (clk 201%nat) (clk 202%nat)))
                 (λ e, refuse c (error_string e) e);
      _ ← on_lockout (λ t, Clear t lockKey);
      _ ← recordLoginAudit true (la_with_identity c (ap_Subject role));
      mret issued
  end.

Definition cert_identity (leaf : ClientCert) : string :=
  let identity := TrimSpace (cc_CommonName leaf) in
  if identity =s "" then match cc_DNSNames leaf with [] => "" | d :: _ => TrimSpace d end else identity.

Definition LoginWithClientCert (rq : option RequestContext) (clk : nat → Time) (raw : res bytes)
    (certs : list ClientCert) (defaultPolicies : list string) : M (string * ClientToken) :=
  let c := loginAuditFromContext rq "cert" in
  let lockKey := LoginLockoutKey "cert" c in
  let counted {A} (c : LoginAuditContext) (reason : string) (e : error) : M A :=
    refuse_counted (fail_clock clk) lockKey c reason e in
  _ ← check_lockout clk "cert" c;
  match certs with
  | [] => counted c "client certificate required" (New ErrCodeUnauthorized "client certificate required")
  | leaf :: _ =>
      if Before (clk 200%nat) (cc_NotBefore leaf) || After (clk 200%nat) (cc_NotAfter leaf)
      then counted c "client certificate not valid at this time"
             (New ErrCodeUnauthorized "client certificate not valid at this time")
      else
        let identity := cert_identity leaf in
        if identity =s "" then counted c "client certificate has no CN or DNS SAN"
                                 (New ErrCodeUnauthorized "client certificate has no CN or DNS SAN")
        else
          let c := la_with_identity c identity in
          cfg ← gets au_config;
          roles ← gets (λ s, ps_roles (au_policy s));
          let policies := match oidc_role (ac_persistedRoles cfg) roles identity with
                          | Ok (Some stored) => flattenRolePolicies (role_Policies stored) (role_PolicyGroups stored)
                          | _ => defaultPolicies
                          end in
          if bool_decide (policies = [])
          then counted c "no cert role mapping"
                 (New ErrCodeUnauthorized "no role mapped for client certificate identity")
          else
            issued ← on_error (tokens (Issue ("cert:" +:+ identity) policies raw (clk 201%nat) (clk 202%nat)))
                       (λ e, counted c (error_string e) e);
            _ ← on_lockout (λ t, Clear t lockKey);
            _ ← recordLoginAudit true c;
            mret issued
  end.

Definition LoginWithTokenEndpoint (rq : option RequestContext) (clk : nat → Time) (token : string) : M ClientToken :=
  let c := loginAuditFromContext rq "token" in
  let lockKey := LoginLockoutKey "token" c in
  _ ← check_lockout clk "token" c;
  if token =s ""
  then refuse_counted (fail_clock clk) lockKey c "token is required" (New ErrCodeValidation "token is required")
  else
    record ← on_error (tokens (Authenticate token (clk 200%nat)))
               (λ e, refuse_counted (fail_clock clk) lockKey c "invalid token" e);
    _ ← on_lockout (λ t, RecordSuccess t lockKey);
    mret record.

Definition RecordTokenLogin (rq : option RequestContext) (subject : string) (success : bool) (reason : string) : M unit :=
  recordLoginAudit success (la_with_reason (la_with_identity (loginAuditFromContext rq "token") subject) reason).

(** *** Agent delegation *)

Definition agent_machine (agentID : string) (policies : list string) (ttl : Duration) (parentID : string) : MachineIdentity :=
  mkMachineIdentity (NHIKey IdentityTypeAgent "" "" agentID) IdentityTypeAgent "" agentID policies (seconds ttl) 0 false parentID.

Definition DelegateAgent (parent : Principal) (req : AgentDelegateRequest) (raw : res bytes) (now1 now2 : Time)
    : M (string * ClientToken) :=
  _ ← guard_not (ad_AgentID req =s "") (New ErrCodeValidation "agent_id is required");
  _ ← guard_not (ad_PathPrefix req =s "") (New ErrCodeValidation "path_prefix is required");
  _ ← guard_not (bool_decide (ad_AllowedActions req = [])) (New ErrCodeValidation "allowed_actions is required");
  let prefix := normalizeAgentPathPrefix (ad_PathPrefix req) (ad_AgentID req) in
  _ ← guard_not (bool_decide (ad_Policies req = []))
        (New ErrCodeValidation "policies are required for agent delegation (explicit subset of parent policies)");
  rbac ← gets (λ s, ps_rbac (au_policy s));
  _ ← lift (validateDelegatedPolicies (Some rbac) (pp_Policies parent) (ad_Policies req));
  let ttl := if ad_TTL req <=? 0 then defaultAgentTTL else ad_TTL req in
  let ttl := if maxAgentTTL <? ttl then maxAgentTTL else ttl in
  let parentID := if pp_Subject parent =s "" then pp_TokenID parent else pp_Subject parent in
  issued ← tokens (CreateAgent ("agent:" +:+ ad_AgentID req) (ad_Policies req) ttl
             (mkAgentTokenScope parentID (ad_AgentID req) (ad_AllowedActions req) prefix) raw now1);
  _ ← ignore (UpsertFromLogin (Some (pp_Subject parent)) (agent_machine (ad_AgentID req) (ad_Policies req) ttl parentID) now2);
  _ ← audit_record (pp_Subject parent) "auth.agent.delegate" ("auth/agent/" +:+ ad_AgentID req) "success"
        [("parent_identity_id", VStr parentID); ("agent_id", VStr (ad_AgentID req)); ("path_prefix", VStr prefix);
         ("allowed_actions", VStrs (ad_AllowedActions req))];
  mret issued.
End service.

(** ** Lemmas: what a request leaves alone *)

Section frames.
Context {R X : Type} {repo : TokenRepo R} {codec : TokenCodec} {sha : Sha256} {digest : PolicyDigest} {parsers : Parsers}
  {ext : AuthExternals} {hooks : TokenHooks X} (range_keys : gmap string Z → list string).

(** Requests that do not touch the machine identities. *)
Definition same_nhi : relation (AuthService R X) := λ s s', au_nhi s' = au_nhi s.
#[global] Instance same_nhi_preorder : PreOrder same_nhi.
Proof. split; [by intros s|]. intros s1 s2 s3. unfold same_nhi. congruence. Qed.

Lemma same_nhi_modify f : (∀ s : AuthService R X, au_nhi (f s) = au_nhi s) → always same_nhi (modify f).
Proof. intros Hf s. apply Hf. Qed.
Lemma same_nhi_update {A} (f : AuthService R X → AuthService R X * A) :
  (∀ s, au_nhi (f s).1 = au_nhi s) → always same_nhi (update f).
Proof. intros Hf s. specialize (Hf s). unfold update. by destruct (f s). Qed.
Lemma same_nhi_tokens {A} (m : prog (TokenStore R) A) : always same_nhi (tokens (X := X) m).
Proof. intros s. unfold tokens, zoom. by destruct (m (au_tokens s)). Qed.
Lemma same_nhi_audit actor action resource status details :
  always same_nhi (audit_record (R := R) (X := X) actor action resource status details).
Proof. apply same_nhi_modify. intros s. by destruct (au_audit s). Qed.
Lemma same_nhi_login_audit success c : always same_nhi (recordLoginAudit (R := R) (X := X) success c).
Proof. apply same_nhi_audit. Qed.
Lemma same_nhi_lockout f : always same_nhi (on_lockout (R := R) (X := X) f).
Proof. by apply same_nhi_modify. Qed.
Lemma same_nhi_locked clk keys : always same_nhi (locked_any (R := R) (X := X) clk keys).
Proof. apply same_nhi_update. intros s. destruct (au_lockout s) as [t|]; [|done]. by destruct (IsLockedAny t clk keys). Qed.
Lemma same_nhi_failure clk key : always same_nhi (record_failure (R := R) (X := X) range_keys clk key).
Proof. apply same_nhi_update. intros s. destruct (au_lockout s) as [t|]; [|done]. by destruct (RecordFailure _ _ _ _ _). Qed.
Hint Resolve same_nhi_tokens same_nhi_audit same_nhi_login_audit same_nhi_lockout same_nhi_locked same_nhi_failure : prog.

Lemma same_nhi_note clk lockKey c : always same_nhi (noteLockoutFailure (R := R) (X := X) range_keys clk lockKey c).
Proof. unfold noteLockoutFailure, recordLockoutAudit. eauto 10 with prog. Qed.
Hint Resolve same_nhi_note : prog.
Lemma same_nhi_refuse {A} c reason e : always same_nhi (refuse (R := R) (X := X) (A := A) c reason e).
Proof. unfold refuse. eauto with prog. Qed.
Lemma same_nhi_refuse_counted {A} clk lockKey c reason e :
  always same_nhi (refuse_counted (R := R) (X := X) (A := A) range_keys clk lockKey c reason e).
Proof. unfold refuse_counted, recordLoginFailure. eauto 10 with prog. Qed.
Hint Resolve same_nhi_refuse same_nhi_refuse_counted : prog.
Lemma same_nhi_check clk method c : always same_nhi (check_lockout (R := R) (X := X) clk method c).
Proof. unfold check_lockout. eauto 10 with prog. Qed.
Hint Resolve same_nhi_check : prog.

(** *** Machine identities before the first login *)

(** The only identities on record are those of delegated agents. *)
Definition agents_only (s : AuthService R X) : Prop :=
  ∀ m k, au_nhi s = Some m → is_Some (m !! k) → HasPrefix k "agent:" = true.

Definition shut : relation (AuthService R X) := λ s s', agents_only s → same_nhi s s'.
#[global] Instance shut_preorder : PreOrder shut.
Proof.
  split; [by intros s|]. intros s1 s2 s3 H12 H23 Hs. specialize (H12 Hs).
  etrans; [exact H12|]. apply H23. unfold agents_only. by rewrite H12.
Qed.

Lemma same_nhi_shut {A} (m : prog (AuthService R X) A) : always same_nhi m → always shut m.
Proof. apply always_mono. by intros s s' Hs _. Qed.

Lemma shut_agents_only s s' : shut s s' → agents_only s → agents_only s'.
Proof. intros Hs Ha. unfold agents_only. by rewrite (Hs Ha). Qed.

(** A lookup that finds nothing is an error of the check. *)
Lemma admit_unknown id now (s : AuthService R X) m : au_nhi s = Some m → m !! mi_ID id = None →
  admit_identity id now s = (s, Err (Wrap ErrCodeUnavailable "identity check failed"
                                       (New ErrCodeNotFound "machine identity not found"))).
Proof.
  intros Hm Hid. unfold admit_identity, mbind, prog_bind, gets. rewrite Hm. unfold on_error, IsRevoked, mbind, prog_bind, gets.
  rewrite Hm. unfold lift, MachineIdentityRepository_Get, keyed_Get. by rewrite Hid.
Qed.

Lemma admit_shut id now : HasPrefix (mi_ID id) "agent:" = false → always shut (admit_identity (R := R) (X := X) id now).
Proof.
  intros Hp s Hs. destruct (au_nhi s) as [m|] eqn:Hm.
  - destruct (m !! mi_ID id) as [rec|] eqn:Hl; [|by rewrite (admit_unknown _ _ _ m)].
    rewrite (Hs m (mi_ID id)) in Hp; [done|done|by eexists].
  - unfold admit_identity, mbind, prog_bind, gets. by rewrite Hm.
Qed.

Lemma login_succeeds_shut clk lockKey c id : HasPrefix (mi_ID id) "agent:" = false →
  always shut (login_succeeds (R := R) (X := X) clk lockKey c id).
Proof. intros Hp. unfold login_succeeds. eauto 10 using admit_shut, same_nhi_shut with prog. Qed.

Lemma k8s_machine_key id subject policies : HasPrefix (mi_ID (k8s_machine id subject policies)) "agent:" = false.
Proof. done. Qed.
Lemma oidc_machine_key subject policies ttl : HasPrefix (mi_ID (oidc_machine subject policies ttl)) "agent:" = false.
Proof. done. Qed.
Hint Resolve k8s_machine_key oidc_machine_key login_succeeds_shut : prog.
Hint Extern 3 (always shut _) => apply same_nhi_shut : prog.

(** Walk through the branches of a login. *)
Ltac login_branches :=
  repeat first [ progress intros | solve [eauto with prog] | apply always_if
               | apply always_bind; [apply _|solve [eauto with prog]|] | case_match ].

Lemma LoginKubernetes_shut rq clk raw role jwt :
  always shut (LoginKubernetes (R := R) (X := X) range_keys rq clk raw role jwt).
Proof. unfold LoginKubernetes. cbv zeta. login_branches. Qed.

Lemma LoginOIDC_shut rq clk raw role jwt : always shut (LoginOIDC (R := R) (X := X) range_keys rq clk raw role jwt).
Proof. unfold LoginOIDC. cbv zeta. login_branches. Qed.

Lemma LoginAppRole_nhi rq clk raw roleID secretID :
  always same_nhi (LoginAppRole (R := R) (X := X) range_keys rq clk raw roleID secretID).
Proof.
  unfold LoginAppRole. cbv zeta. apply always_bind; [apply _|eauto with prog|]. intros _.
  apply always_bind; [apply _|apply same_nhi_update; by intros s; destruct (au_approles s)|]. intros st. login_branches.
Qed.

Lemma LoginWithClientCert_nhi rq clk raw certs policies :
  always same_nhi (LoginWithClientCert (R := R) (X := X) range_keys rq clk raw certs policies).
Proof. unfold LoginWithClientCert. cbv zeta. login_branches. Qed.

Lemma LoginWithTokenEndpoint_nhi rq clk token :
  always same_nhi (LoginWithTokenEndpoint (R := R) (X := X) range_keys rq clk token).
Proof. unfold LoginWithTokenEndpoint. cbv zeta. login_branches. Qed.

(** *** No machine identity gets in first *)

Definition tracked (s : AuthService R X) : Prop := is_Some (au_nhi s) ∧ agents_only s.

Lemma shut_tracked {A} (m : prog (AuthService R X) A) : always shut m → preserves tracked m.
Proof.
  intros Hm s [Hs Ha]. specialize (Hm s). split; [by rewrite (Hm Ha)|by eapply shut_agents_only].
Qed.
Hint Extern 4 (preserves tracked _) => apply shut_tracked : prog.

Lemma refuse_fails {A} c reason e : never_ok tracked (refuse (R := R) (X := X) (A := A) c reason e).
Proof. unfold refuse. apply never_ok_then; eauto with prog. Qed.
Lemma refuse_counted_fails {A} clk lockKey c reason e :
  never_ok tracked (refuse_counted (R := R) (X := X) (A := A) range_keys clk lockKey c reason e).
Proof. unfold refuse_counted, recordLoginFailure. apply never_ok_then; eauto 10 with prog. Qed.

Lemma login_succeeds_fails clk lockKey c id : HasPrefix (mi_ID id) "agent:" = false →
  never_ok tracked (login_succeeds (R := R) (X := X) clk lockKey c id).
Proof.
  intros Hp. unfold login_succeeds. apply never_ok_first. intros s [[m Hm] Ha]. rewrite (admit_unknown _ _ _ m); [|done|].
  - by intros [? ?].
  - destruct (m !! mi_ID id) eqn:Hl; [|done]. rewrite (Ha m (mi_ID id)) in Hp; [done|done|by eexists].
Qed.
Hint Resolve refuse_fails refuse_counted_fails login_succeeds_fails : prog.

Ltac login_fails :=
  repeat first [ progress intros | solve [eauto with prog] | apply never_ok_if
               | apply never_ok_first; solve [eauto with prog]
               | apply never_ok_then; [solve [eauto with prog]|] | case_match ].

Lemma LoginKubernetes_fails rq clk raw role jwt :
  never_ok tracked (LoginKubernetes (R := R) (X := X) range_keys rq clk raw role jwt).
Proof. unfold LoginKubernetes. cbv zeta. login_fails. Qed.
Lemma LoginOIDC_fails rq clk raw role jwt :
  never_ok tracked (LoginOIDC (R := R) (X := X) range_keys rq clk raw role jwt).
Proof. unfold LoginOIDC. cbv zeta. login_fails. Qed.

(** The other writers of machine identities keep to agents. *)
Lemma UpsertFromLogin_agents actor id now : HasPrefix (mi_ID id) "agent:" = true →
  preserves tracked (UpsertFromLogin (R := R) (X := X) actor id now).
Proof.
  intros Hp s [[m Hm] Ha]. unfold UpsertFromLogin, mbind, prog_bind, gets. rewrite Hm.
  destruct (MachineIdentityRepository_Save m (mi_seen id now)) as [m'|e] eqn:Hs; unfold modify, audit_record, mret, prog_ret, raise; cbn.
  - apply keyed_Save_ok in Hs as (id' & _ & ->). unfold tracked, agents_only.
    destruct (au_audit s); cbn; (split; [by eexists|]); intros m1 k [= <-];
      (destruct (decide (mi_ID id = k)) as [<-|Hk]; [done|]); rewrite lookup_insert_ne by done; by apply Ha.
  - unfold tracked, agents_only. destruct (au_audit s); cbn; rewrite Hm; (split; [by eexists|]); intros m1 k [= <-]; by apply Ha.
Qed.

Lemma RevokeIdentity_agents actor id : preserves tracked (RevokeIdentity (R := R) (X := X) actor id).
Proof.
  intros s [[m Hm] Ha]. unfold RevokeIdentity, mbind, prog_bind, gets. rewrite Hm.
  destruct (MachineIdentityRepository_Revoke m id) as [m'|e] eqn:Hs; unfold modify, audit_record, mret, prog_ret, raise; cbn.
  - unfold MachineIdentityRepository_Revoke, keyed_Alter in Hs. destruct (m !! id) eqn:Hl; [|done]. injection Hs as <-.
    unfold tracked, agents_only.
    destruct (au_audit s); cbn; (split; [by eexists|]); intros m1 k [= <-];
      (destruct (decide (id = k)) as [<-|Hk]; [intros _; apply (Ha m id); [done|by eexists]|]);
      rewrite lookup_insert_ne by done; by apply Ha.
  - unfold tracked, agents_only. destruct (au_audit s); cbn; rewrite Hm; (split; [by eexists|]); intros m1 k [= <-]; by apply Ha.
Qed.

Lemma DelegateAgent_tracked parent req raw now1 now2 :
  preserves tracked (DelegateAgent (R := R) (X := X) parent req raw now1 now2).
Proof.
  unfold DelegateAgent.
  repeat (apply always_bind; [apply _|by first [solve [eauto with prog]
    | apply always_ignore, UpsertFromLogin_agents]|intros ?; cbv zeta]).
  eauto with prog.
Qed.
End frames.

(** ** Sequences of requests *)

Inductive auth_op :=
  | OpLoginKubernetes (rq : option RequestContext) (clk : nat → Time) (raw : res bytes) (role jwt : string)
  | OpLoginOIDC (rq : option RequestContext) (clk : nat → Time) (raw : res bytes) (role jwt : string)
  | OpLoginAppRole (rq : option RequestContext) (clk : nat → Time) (raw : res bytes) (roleID secretID : string)
  | OpLoginCert (rq : option RequestContext) (clk : nat → Time) (raw : res bytes) (certs : list ClientCert) (policies : list string)
  | OpLoginToken (rq : option RequestContext) (clk : nat → Time) (token : string)
  | OpDelegateAgent (parent : Principal) (req : AgentDelegateRequest) (raw : res bytes) (now1 now2 : Time)
  | OpRevokeIdentity (actor : option string) (id : string)
  | OpPolicy (op : policy_op)
  | OpToken (op : token_op).

Section requests.
Context {R X : Type} {repo : TokenRepo R} {codec : TokenCodec} {sha : Sha256} {digest : PolicyDigest} {parsers : Parsers}
  {ext : AuthExternals} {hooks : TokenHooks X} (range_keys : gmap string Z → list string).

Definition auth_step (op : auth_op) : prog (AuthService R X) unit :=
  match op with
  | OpLoginKubernetes rq clk raw role jwt => ignore (LoginKubernetes range_keys rq clk raw role jwt)
  | OpLoginOIDC rq clk raw role jwt => ignore (LoginOIDC range_keys rq clk raw role jwt)
  | OpLoginAppRole rq clk raw roleID secretID => ignore (LoginAppRole range_keys rq clk raw roleID secretID)
  | OpLoginCert rq clk raw certs policies => ignore (LoginWithClientCert range_keys rq clk raw certs policies)
  | OpLoginToken rq clk token => ignore (LoginWithTokenEndpoint range_keys rq clk token)
  | OpDelegateAgent parent req raw now1 now2 => ignore (DelegateAgent parent req raw now1 now2)
  | OpRevokeIdentity actor id => ignore (RevokeIdentity actor id)
  | OpPolicy op => policy (policy_step op)
  | OpToken op => tokens (token_step op)
  end.

Definition auth_run (ops : list auth_op) (s : AuthService R X) : AuthService R X :=
  foldl (λ s op, (auth_step op s).1) s ops.

Lemma auth_step_tracked op : preserves (tracked (R := R) (X := X)) (auth_step op).
Proof.
  destruct op; simpl; try apply always_ignore.
  - apply shut_tracked, LoginKubernetes_shut.
  - apply shut_tracked, LoginOIDC_shut.
  - apply shut_tracked, same_nhi_shut, LoginAppRole_nhi.
  - apply shut_tracked, same_nhi_shut, LoginWithClientCert_nhi.
  - apply shut_tracked, same_nhi_shut, LoginWithTokenEndpoint_nhi.
  - apply DelegateAgent_tracked.
  - apply RevokeIdentity_agents.
  - apply shut_tracked, same_nhi_shut. intros s. unfold policy, zoom. by destruct (policy_step op (au_policy s)).
  - apply shut_tracked, same_nhi_shut, same_nhi_tokens.
Qed.

Lemma auth_run_tracked ops s : tracked s → tracked (auth_run ops s).
Proof.
  unfold auth_run. revert s; induction ops as [|op ops IH]; intros s Hs; simpl; [done|].
  apply IH. by apply auth_step_tracked.
Qed.

(** *** Lockout of an identity *)

(** No lock on a key. *)
Definition unlocked_key (key : string) (s : AuthService R X) : Prop :=
  ∀ t, au_lockout s = Some t → lo_locked t !! key = None.

Lemma purge_unlocked t now key : lo_locked t !! key = None → lo_locked (purgeExpiredLocked t now) !! key = None.
Proof.
  unfold purgeExpiredLocked. generalize (map_to_list (lo_locked t)) as l. intros l. revert t.
  induction l as [|[k u] l IH]; intros t Ht; simpl; [done|]. apply IH. unfold purge_step. case_match; [|done].
  cbn. by rewrite lookup_delete, Ht; case_decide.
Qed.

Lemma evict_locked t : lo_locked (evictAttemptsLocked range_keys t) = lo_locked t.
Proof. unfold evictAttemptsLocked. by destruct (evict_loop_maps t (range_keys (lo_attempts t))) as (? & _). Qed.

Lemma RecordFailure_unlocked t now1 now2 key key' : key ≠ key' → lo_locked t !! key = None →
  lo_locked (RecordFailure range_keys t now1 now2 key').1 !! key = None.
Proof.
  intros Hk Ht. unfold RecordFailure.
  assert (Hc : ∀ t1, lo_locked t1 !! key = None → lo_locked (count_failure t1 now2 key').1 !! key = None).
  { intros t1 Ht1. unfold count_failure. cbv zeta.
    match goal with |- context [if ?c then _ else _] => destruct c end; cbn; [by rewrite lookup_insert_ne|done]. }
  apply Hc. apply (purge_unlocked _ now1) in Ht.
  match goal with |- context [if ?c then evictAttemptsLocked _ _ else _] => destruct c end; by rewrite ?evict_locked.
Qed.

(** What a counted refusal keeps: the configuration, the policies and, when it
    is counted under another key, the absence of a lock. *)
Definition keeps_setup (key : string) : relation (AuthService R X) := λ s s',
  au_config s' = au_config s ∧ au_policy s' = au_policy s ∧ (unlocked_key key s → unlocked_key key s').
#[global] Instance keeps_setup_preorder key : PreOrder (keeps_setup key).
Proof.
  split; [by intros s|]. intros s1 s2 s3 (C1 & P1 & U1) (C2 & P2 & U2). split; [congruence|]. split; [congruence|auto].
Qed.

Lemma keeps_audit key actor action resource status details :
  always (keeps_setup key) (audit_record (R := R) (X := X) actor action resource status details).
Proof. intros s. unfold audit_record, modify. by destruct (au_audit s) eqn:E. Qed.

Lemma keeps_failure key key' clk : key ≠ key' →
  always (keeps_setup key) (record_failure (R := R) (X := X) range_keys clk key').
Proof.
  intros Hk s. unfold record_failure, update. destruct (au_lockout s) as [t|] eqn:E; [|done].
  pose proof (RecordFailure_unlocked t (clk 0%nat) (clk 1%nat) key key' Hk) as Hu.
  destruct (RecordFailure range_keys t (clk 0%nat) (clk 1%nat) key') as [t' b]. split; [done|]. split; [done|].
  intros Hs t1 [= <-]. by apply Hu, Hs.
Qed.

Lemma LockoutKey_nonempty method a : LockoutKey method a ≠ "".
Proof. unfold LockoutKey. by destruct method. Qed.

Lemma keeps_refuse_counted {A} key clk lockKey c reason e :
  la_ClientIdentity c ≠ "" → key ≠ LockoutKey (la_AuthMethod c) (la_ClientIdentity c) →
  LockoutKey (la_AuthMethod c) (la_ClientIdentity c) ≠ LockoutKey (la_AuthMethod c) "unknown" →
  always (keeps_setup key) (refuse_counted (R := R) (X := X) (A := A) range_keys clk lockKey c reason e).
Proof.
  intros Hid Hkey Hunk. unfold refuse_counted, recordLoginFailure, noteLockoutFailure. cbv zeta.
  assert (Hp : LoginLockoutKey (la_AuthMethod (la_with_reason c reason)) (la_with_reason c reason) =
    LockoutKey (la_AuthMethod c) (la_ClientIdentity c)).
  { unfold LoginLockoutKey. cbn. by rewrite bool_decide_false. }
  rewrite Hp. cbn [la_AuthMethod la_with_reason]. rewrite (bool_decide_false _ Hunk), orb_false_r.
  assert (Hne : (LockoutKey (la_AuthMethod c) (la_ClientIdentity c) =s "") = false).
  { apply bool_decide_false, LockoutKey_nonempty. }
  rewrite Hne. unfold recordLoginAudit, recordLockoutAudit.
  eauto 15 using keeps_audit, keeps_failure with prog.
Qed.

Lemma LockoutKey_inj method a b : LockoutKey method a = LockoutKey method b → a = b.
Proof. unfold LockoutKey. induction method as [|c method IH]; simpl; [by intros [=]|]. intros [= E]. by apply IH. Qed.

Lemma check_unlocked clk method c key (s : AuthService R X) : LoginLockoutKeys method c = [key] → unlocked_key key s →
  check_lockout clk method c s = (s, Ok tt).
Proof.
  intros Hk Hu. unfold check_lockout, locked_any, update, mbind, prog_bind. rewrite Hk.
  destruct (au_lockout s) as [t|] eqn:E; [|done]. cbn. unfold IsLocked. rewrite (Hu t E). cbn. rewrite <- E. by destruct s.
Qed.

(** Before the caller is known the only key is the address. *)
Lemma login_keys rq method : rc_ClientIP rq ≠ "" →
  LoginLockoutKeys method (loginAuditFromContext (Some rq) method) = [LockoutKey method (rc_ClientIP rq)].
Proof.
  intros Hip. unfold LoginLockoutKeys, loginAuditFromContext. cbn [la_ClientIdentity la_SourceIP].
  rewrite (bool_decide_true ("" = "")), (bool_decide_false (rc_ClientIP rq = "")) by done. cbn [negb].
  unfold add_key. rewrite (bool_decide_false (LockoutKey _ _ = "")) by apply LockoutKey_nonempty. done.
Qed.

(** One login of an account the role does not bind. *)
Lemma mismatch_step rq clk raw role jwt (s : AuthService R X) id subject sr e :
  let ip := rc_ClientIP rq in
  ip ≠ "" → subject ≠ "" → subject ≠ ip → subject ≠ "unknown" → jwt ≠ "" → role ≠ "" →
  validateKubernetesJWT (au_config s) role jwt = Ok (id, subject) → ac_persistedRoles (au_config s) = true →
  ps_roles (au_policy s) !! role = Some sr → role_AuthMethod sr = "" →
  MatchServiceAccountBinding (Some sr) id = Err e → unlocked_key (LockoutKey "kubernetes" ip) s →
  (LoginKubernetes range_keys (Some rq) clk raw role jwt s).2 = Err e ∧
  keeps_setup (LockoutKey "kubernetes" ip) s (LoginKubernetes range_keys (Some rq) clk raw role jwt s).1.
Proof.
  intros ip Hip Hs1 Hs2 Hs3 Hj Hr Hv Hp Hrole Hm He Hu.
  set (c := la_with_namespace (la_with_identity (loginAuditFromContext (Some rq) "kubernetes") subject) (sa_Namespace id)).
  assert (E : LoginKubernetes range_keys (Some rq) clk raw role jwt s =
    refuse_counted range_keys (fail_clock clk) (LoginLockoutKey "kubernetes" (loginAuditFromContext (Some rq) "kubernetes"))
      c "service account binding mismatch" e s).
  { unfold LoginKubernetes. cbv zeta. unfold mbind at 1, prog_bind at 1.
    rewrite (check_unlocked _ _ _ (LockoutKey "kubernetes" ip)); [|by apply login_keys|done].
    rewrite (bool_decide_false (jwt = "")), (bool_decide_false (role = "")) by done.
    unfold mbind at 1, prog_bind at 1, gets at 1. rewrite Hv, Hp. cbn [negb].
    unfold mbind at 1, prog_bind at 1, gets at 1. cbn [GetStoredRole].
    unfold RoleRepository_Get, keyed_Get. by rewrite Hrole, Hm, He. }
  rewrite E. split.
  - unfold refuse_counted, mbind, prog_bind. destruct (recordLoginFailure _ _ _ _ _ s) as [s1 [u|e1]] eqn:E1; [done|].
    exfalso. revert E1. unfold recordLoginFailure, recordLoginAudit, audit_record, mbind, prog_bind, modify. cbn.
    unfold noteLockoutFailure, mbind, prog_bind, gets. case_match; [|done]. unfold record_failure, update, when. cbn.
    repeat case_match; try done; unfold recordLockoutAudit, audit_record, modify; by intros [=].
  - apply keeps_refuse_counted; [done| |]; intros Hk%LockoutKey_inj; [by apply Hs2|by apply Hs3].
Qed.
End requests.

(** ** Theorems *)

Section theorems.
Context {R X : Type} {repo : TokenRepo R} {codec : TokenCodec} {sha : Sha256} {digest : PolicyDigest} {parsers : Parsers}
  {ext : AuthExternals} {hooks : TokenHooks X} (range_keys : gmap string Z → list string).
Implicit Type s : AuthService R X.

(** The cache the policies are evaluated on. *)
Lemma syncRBAC_None s : cache_coherent (au_policy s) → ac_rbacSync (au_config s) = true → PolicyDigestLaws →
  ∃ s1, syncRBAC None s = (s1, Ok tt) ∧
    ps_rbac (au_policy s1) = ReloadFromPersisted (Some <$> PolicyRepository_List (ps_policies (au_policy s))).
Proof.
  intros Hc Hsync Hlaws. unfold syncRBAC, mbind, prog_bind, gets. rewrite Hsync. cbn [negb].
  unfold attempt, policy, zoom. destruct (SyncRBAC None (au_policy s)) as [p' r] eqn:E.
  pose proof (SyncRBAC_succeeds (au_policy s)) as Hr. rewrite E in Hr. cbn in Hr. subst r.
  eexists. split; [done|]. cbn. by apply SyncRBAC_loads in E as [_ ->].
Qed.

(** C3. Authorization end to end: when policies are synchronised from the
    replicated table, a request is allowed exactly if the action and KV path
    restrictions of the token permit it and the stored policies do, whatever
    the node had cached; and in fail-closed mode a failed synchronisation
    denies every request. *)
Theorem Service_Authorize_correct `{!PolicyDigestLaws} s rq principal resource action :
  cache_coherent (au_policy s) → ac_rbacSync (au_config s) = true →
  (is_Ok (Service_Authorize rq None principal resource action s).2 ↔
   ActionAllowedForPrincipal principal action = true ∧
   (HasPrefix resource "secrets/kv/" = true → KVPathAllowedForPrincipal principal resource = true) ∧
   Authorize (ReloadFromPersisted (Some <$> PolicyRepository_List (ps_policies (au_policy s)))) (pp_Policies principal)
     resource action (request_for rq principal resource action) = true) ∧
  (ac_rbacSyncFailClosed (au_config s) = true →
   ∀ e, ¬ is_Ok (Service_Authorize rq (Some e) principal resource action s).2).
Proof.
  intros Hc Hsync. split.
  - destruct (syncRBAC_None s Hc Hsync _) as (s1 & E & Hrbac).
    unfold Service_Authorize, guard_not, lift, mbind, prog_bind.
    destruct (ActionAllowedForPrincipal principal action); cbn [negb reject]; [|by split; [intros [??]|intros [??]]].
    destruct (HasPrefix resource "secrets/kv/"), (KVPathAllowedForPrincipal principal resource);
      cbn [negb andb reject]; try (split; [by intros [??]|intros (_ & Hk & _); by specialize (Hk eq_refl)]);
      rewrite E; unfold gets; rewrite Hrbac; clear Hrbac E;
      (destruct (Authorize _ _ _ _ _); cbn; split; intros HH; solve [done | by eexists | by destruct HH | by destruct HH as (_ & _ & ?)]).
  - intros Hf e [u Hu]. revert Hu. unfold Service_Authorize, guard_not, lift, mbind, prog_bind.
    repeat (match goal with |- context [reject ?c _] => destruct c end; cbn [reject]; [done|]).
    unfold syncRBAC, mbind, prog_bind, gets. rewrite Hsync. cbn [negb]. unfold attempt, policy, zoom, SyncRBAC, list_or_fail.
    cbn. by rewrite Hf.
Qed.

(** No Kubernetes or OIDC identity can log in on a fresh deployment: the
    revocation check looks the identity up and treats an unknown one as an
    error, while identities are only recorded after that check, so after any
    sequence of requests such a login still fails. *)
Theorem machine_login_never_succeeds s ops rq clk raw role jwt :
  au_nhi s = Some ∅ →
  ¬ is_Ok (LoginKubernetes range_keys rq clk raw role jwt (auth_run range_keys ops s)).2 ∧
  ¬ is_Ok (LoginOIDC range_keys rq clk raw role jwt (auth_run range_keys ops s)).2.
Proof.
  intros Hs. assert (Ht : tracked (auth_run range_keys ops s)).
  { apply auth_run_tracked. split; [by eexists|]. intros m k Hm [rec Hrec]. rewrite Hs in Hm. injection Hm as <-.
    by rewrite lookup_empty in Hrec. }
  split; [by apply LoginKubernetes_fails|by apply LoginOIDC_fails].
Qed.

(** Failed bindings are never locked out: a service account whose token
    verifies but which the role does not bind is counted under its own name,
    while the check before a login looks at the address only, so any number
    of attempts is answered with the binding error and never with a lockout. *)
Theorem binding_failures_never_lock s rq role jwt id subject sr e (tries : list ((nat → Time) * res bytes)) clk raw :
  rc_ClientIP rq ≠ "" → subject ≠ "" → subject ≠ rc_ClientIP rq → subject ≠ "unknown" → jwt ≠ "" → role ≠ "" →
  validateKubernetesJWT (au_config s) role jwt = Ok (id, subject) → ac_persistedRoles (au_config s) = true →
  ps_roles (au_policy s) !! role = Some sr → role_AuthMethod sr = "" →
  MatchServiceAccountBinding (Some sr) id = Err e → unlocked_key (LockoutKey "kubernetes" (rc_ClientIP rq)) s →
  let s' := foldl (λ s t, (LoginKubernetes range_keys (Some rq) t.1 t.2 role jwt s).1) s tries in
  (LoginKubernetes range_keys (Some rq) clk raw role jwt s').2 = Err e.
Proof.
  intros Hip Hs1 Hs2 Hs3 Hj Hr. revert s. induction tries as [|[clk' raw'] tries IH]; intros s Hv Hp Hrole Hm He Hu; simpl.
  - by eapply (mismatch_step range_keys rq clk raw role jwt s id subject sr e).
  - edestruct (mismatch_step range_keys rq clk' raw' role jwt s id subject sr e) as [_ (Hc & Hpol & Hu')]; [done..|].
    apply IH; rewrite ?Hc, ?Hpol; auto.
Qed.

(** Delegation lifts a revocation: issuing a token to an agent writes its
    identity afresh without looking at it, so an identity that was revoked to
    block the agent is active again. *)
Theorem delegation_unrevokes s s' parent req raw now1 now2 issued m rec :
  let key := "agent:" +:+ ad_AgentID req in
  au_nhi s = Some m → m !! key = Some rec → mi_Revoked rec = true →
  DelegateAgent parent req raw now1 now2 s = (s', Ok issued) →
  ∃ m' rec', au_nhi s' = Some m' ∧ m' !! key = Some rec' ∧ mi_Revoked rec' = false.
Proof.
  intros key Hm _ _ Hd. unfold DelegateAgent in Hd. inv_run.
  repeat match goal with
  | Ht : tokens _ _ = _ |- _ => apply (always_run _ _ _ _ _ (same_nhi_tokens _)) in Ht; unfold same_nhi in Ht
  | Ha : audit_record _ _ _ _ _ _ = _ |- _ => apply (always_run _ _ _ _ _ (same_nhi_audit _ _ _ _ _)) in Ha; unfold same_nhi in Ha
  end.
  match goal with Hu : ignore (UpsertFromLogin _ ?id ?now) ?s1 = (?s2, _) |- _ =>
    assert (E : au_nhi s2 = Some (<[key := mi_seen id now]> m)); [|exists (<[key := mi_seen id now]> m), (mi_seen id now)] end.
  - match goal with Hu : ignore _ _ = _ |- _ => revert Hu end. unfold ignore, UpsertFromLogin, mbind, prog_bind, gets.
    repeat match goal with Ht : au_nhi _ = au_nhi _ |- _ => rewrite Ht; clear Ht end. rewrite Hm. cbn.
    unfold modify, audit_record, mret, prog_ret. cbn. intros [= <- _]. by destruct (au_audit _).
  - split; [congruence|]. by rewrite lookup_insert_eq.
Qed.
End theorems.

(** ** Witnesses *)

Definition demo_review : TokenReview := mkTokenReview true "system:serviceaccount:prod:api" "prod" "api".

Definition toy_externals : AuthExternals := {|
  token_review := λ _, Ok (Some demo_review);
  jwt_parse_hs256 := λ _ _, Ok None;
  jwt_parse_unverified := λ _, Ok None;
  KeySet := unit;
  jwks_get := λ _ _, Ok tt;
  jwt_parse_rsa := λ _ _, Ok None |}.

Definition toy_hooks : TokenHooks unit := {| RevokeByTokenID := λ _, mret 0; WipeToken := λ _, mret tt |}.

Definition demo_config : AuthConfig :=
  mkAuthConfig true true true [] (mkK8sLoginOptions true false true) false Hour.
Definition batch_role : Role := mkRole "batch" ["secrets-reader"] [] ["batch"] ["prod"] "" None false.

Definition demo_auth (ids : gmap string MachineIdentity) : AuthService (gmap string ClientToken) unit :=
  mkAuthService demo_config demo_tokens (NewPolicyService ∅ {["batch" := batch_role]} NewRBAC) (Some ids) (Some [])
    (Some (NewLockoutTracker 3 Hour)) None tt.

Definition demo_principal : Principal := mkPrincipal "ci" ["secrets-reader"] "" "" "" ["read"] "agent/bot7/".
Definition demo_clock : nat → Time := λ n, 1000 + Z.of_nat n.

Lemma demo_coherent ids : cache_coherent (digest := toy_policy_digest) (au_policy (demo_auth ids)).
Proof. split; [exact (map_Forall_empty (M := gmap string) _)|by left]. Qed.

Lemma Service_Authorize_correct_witness :
  ¬ is_Ok (Service_Authorize (R := gmap string ClientToken) (X := unit) (digest := toy_policy_digest) (parsers := no_parsers)
             None (Some (Plain "no leader")) demo_principal "secrets/kv/agent/bot7/db" "read" (demo_auth ∅)).2.
Proof.
  apply (Service_Authorize_correct (digest := toy_policy_digest) (parsers := no_parsers) (demo_auth ∅) None demo_principal
           "secrets/kv/agent/bot7/db" "read" (H := toy_policy_digest_laws)).
  - exact (demo_coherent ∅).
  - reflexivity.
  - reflexivity.
Defined.

Lemma machine_login_never_succeeds_witness :
  ¬ is_Ok (LoginKubernetes (R := gmap string ClientToken) (X := unit) (codec := toy_codec) (ext := toy_externals)
             (λ _, []) None demo_clock demo_raw "batch" "jwt"
             (auth_run (codec := toy_codec) (sha := toy_sha256) (digest := toy_policy_digest) (ext := toy_externals) (λ _, [])
                [OpLoginKubernetes None demo_clock demo_raw "batch" "jwt"] (demo_auth ∅))).2.
Proof.
  refine (proj1 (machine_login_never_succeeds (codec := toy_codec) (sha := toy_sha256) (digest := toy_policy_digest)
           (ext := toy_externals) (λ _, []) (demo_auth ∅) [OpLoginKubernetes None demo_clock demo_raw "batch" "jwt"]
           None demo_clock demo_raw "batch" "jwt" _)).
  reflexivity.
Defined.

Lemma binding_failures_never_lock_witness :
  (LoginKubernetes (codec := toy_codec) (ext := toy_externals) (λ _, []) (Some sample_request) demo_clock demo_raw "batch" "jwt"
    (foldl (λ s t, (LoginKubernetes (codec := toy_codec) (ext := toy_externals) (λ _, []) (Some sample_request) t.1 t.2
                      "batch" "jwt" s).1) (demo_auth ∅) (replicate 50 (demo_clock, demo_raw)))).2 =
  Err (New ErrCodeForbidden "service account name not bound to role").
Proof.
  refine (binding_failures_never_lock (codec := toy_codec) (ext := toy_externals) (λ _, []) (demo_auth ∅) sample_request
    "batch" "jwt" (mkServiceAccount "prod" "api" "system:serviceaccount:prod:api") "system:serviceaccount:prod:api" batch_role
    (New ErrCodeForbidden "service account name not bound to role") (replicate 50 (demo_clock, demo_raw)) demo_clock demo_raw
    _ _ _ _ _ _ _ _ _ _ _ _).
  1-6: discriminate.
  1-5: reflexivity.
  intros t [= <-]. reflexivity.
Defined.

Definition revoked_bot : MachineIdentity :=
  mkMachineIdentity "agent:bot7" "agent" "" "bot7" ["secrets-reader"] 900 0 true "ci".
Definition bot_request : AgentDelegateRequest := mkAgentDelegateRequest "bot7" "bot7" ["read"] ["secrets-reader"] 0.

Lemma delegation_unrevokes_witness :
  ∃ m' rec', au_nhi (DelegateAgent (X := unit) (codec := toy_codec) (mkPrincipal "ci" ["secrets-reader"] "" "" "" [] "")
                       bot_request demo_raw 1000 1001 (demo_auth {["agent:bot7" := revoked_bot]})).1 = Some m' ∧
             m' !! "agent:bot7" = Some rec' ∧ mi_Revoked rec' = false.
Proof.
  eapply (delegation_unrevokes (codec := toy_codec) (demo_auth {["agent:bot7" := revoked_bot]}) _
    (mkPrincipal "ci" ["secrets-reader"] "" "" "" [] "") bot_request demo_raw 1000 1001 _ {["agent:bot7" := revoked_bot]} revoked_bot).
  - reflexivity.
  - reflexivity.
  - reflexivity.
  - apply run_eq. vm_compute. reflexivity.
Defined.
