(* ===== verification/Gate.v ===== *)
(** The gate in front of the handlers, internal/api/middleware: bearer
    authentication and permission checks (auth.go), path and KV capabilities
    (pathauth.go, kvauth.go), the audit of denials (authz_audit.go), the tenant
    header (tenant.go) and the seal (seal.go).

    A handler of the chain either passes the request on ([Ok], with what it
    puts into the request context) or aborts with an error. Of a request only
    what these handlers read is kept. *)

From Stdlib Require Import Ascii.
From S2P Require Import Prelude.
From S2P Require Import Effects.
From S2P Require Import GoLib.
From S2P Require Import Policy.
From S2P Require Import Domain.
From S2P Require Import Seal.
From S2P Require Import Repos.
From S2P Require Import TokenStore.
From S2P Require Import Identity.
From S2P Require Import AuditHelper.
From S2P Require Import PolicyService.
From S2P Require Import AppRole.
From S2P Require Import AuthService.

#[local] Open Scope Z_scope.

Record HttpRequest := mkHttpRequest {
  hq_Authorization : string;
  hq_KNXToken : string;
  hq_VaultToken : string;
  hq_Namespace : string;
  hq_Cluster : string;
  hq_RequestID : string;
  hq_Environment : string;
  hq_ClientIP : string;
  hq_FullPath : string;
  hq_URLPath : string;
  hq_path : string;
  hq_mount : string;
  hq_role : string;
  hq_list : bool;
}.

(** ** auth.go *)

Definition extractToken (c : HttpRequest) : string :=
  if HasPrefix (ToLower (hq_Authorization c)) "bearer " then TrimSpace (str_drop 7 (hq_Authorization c))
  else if negb (hq_KNXToken c =s "") then hq_KNXToken c
  else if negb (hq_VaultToken c =s "") then hq_VaultToken c
  else "".

Definition principal_of (record : ClientToken) : Principal :=
  mkPrincipal (ct_Subject record) (ct_Policies record) (ct_ID record) (ct_ParentIdentityID record) (ct_AgentID record)
    (ct_AllowedActions record) (ct_PathPrefix record).

Definition request_context (c : HttpRequest) (record : ClientToken) (ns : string) : RequestContext :=
  mkRequestContext (hq_ClientIP c) ns "" "" (ct_AgentID record) 0 (TrimSpace (hq_Cluster c)) (hq_Environment c)
    (if hq_FullPath c =s "" then hq_URLPath c else hq_FullPath c) (hq_RequestID c) None.

(** ** The chain *)

Record Gate (R X : Type) := mkGate {
  gt_auth : AuthService R X;
  gt_authzAudit : bool;
  gt_denied : gmap string Time;
}.
Arguments mkGate {R X}.
Arguments gt_auth {R X}.
Arguments gt_authzAudit {R X}.
Arguments gt_denied {R X}.

Definition minGap : Duration := 5 * Second.

Section gate.
Context {R X : Type} {repo : TokenRepo R} {codec : TokenCodec} {digest : PolicyDigest} {parsers : Parsers}.
Abbreviation M := (prog (Gate R X)).

Definition set_gt_auth (g : Gate R X) (a : AuthService R X) : Gate R X := mkGate a (gt_authzAudit g) (gt_denied g).
Definition auth {A} (m : prog (AuthService R X) A) : M A := zoom gt_auth set_gt_auth m.

Definition Auth (c : HttpRequest) (now : Time) : M (Principal * RequestContext) :=
  let token := extractToken c in
  _ ← guard_not (token =s "") (New ErrCodeUnauthorized "missing authentication token");
  record ← auth (LoginWithToken token now);
  ns ← lift (ResolveTenantNamespace (hq_Namespace c) (ct_Subject record));
  mret (principal_of record, request_context c record ns).

(** The loop over alternatives: the first that is authorized passes, else the
    last error; [failures] are the outcomes of synchronising the policies. *)
Fixpoint any_of (rq : RequestContext) (failures : nat → option error) (principal : Principal)
    (pairs : list (string * string)) (lastErr : error) : M unit :=
  match pairs with
  | [] => raise lastErr
  | (resource, action) :: pairs =>
      r ← attempt (auth (Service_Authorize (Some rq) (failures 0%nat) principal resource action));
      match r with
      | Ok _ => mret tt
      | Err e => any_of rq (λ i, failures (S i)) principal pairs e
      end
  end.

(** No principal in the context means no authentication ran. *)
Definition RequireAnyPermission (who : option (Principal * RequestContext)) (failures : nat → option error)
    (pairs : list (string * string)) : M unit :=
  _ ← guard_not (bool_decide (pairs = [])) (New ErrCodeInternal "invalid permission middleware config");
  match who with
  | None => raise (New ErrCodeUnauthorized "unauthenticated")
  | Some (principal, rq) => any_of rq failures principal pairs (New ErrCodeForbidden "permission denied")
  end.

Definition RequirePermission (who : option (Principal * RequestContext)) (failures : nat → option error)
    (resource action : string) : M unit :=
  RequireAnyPermission who failures [(resource, action)].

(** ** authz_audit.go *)

Definition deny_allow (key : string) (now : Time) : M bool :=
  update (λ g, match gt_denied g !! key with
               | Some prev => if now - prev <? minGap then (g, false)
                              else (mkGate (gt_auth g) (gt_authzAudit g) (<[key := now]> (gt_denied g)), true)
               | None => (mkGate (gt_auth g) (gt_authzAudit g) (<[key := now]> (gt_denied g)), true)
               end).

Definition recordDenied (c : HttpRequest) (principal : Principal) (resource capability : string) (err : error) (now : Time)
    : M unit :=
  on ← gets gt_authzAudit;
  match on with
  | false => mret tt
  | true =>
      fresh ← deny_allow (pp_Subject principal +:+ ":" +:+ resource +:+ ":" +:+ capability) now;
      when fresh (auth (audit_record (pp_Subject principal) "authz.denied" resource "failure"
        [("resource", VStr resource); ("capability", VStr capability); ("request_id", VStr (hq_RequestID c));
         ("source_ip", VStr (hq_ClientIP c)); ("reason", VStr (error_string err))]))
  end.

(** ** pathauth.go and kvauth.go *)

(** [svc.AuthorizePath], with the denial audited. *)
Definition authorize_audited (c : HttpRequest) (who : option (Principal * RequestContext)) (failure : option error)
    (resource capability : string) (now : Time) : M unit :=
  match who with
  | None => raise (New ErrCodeUnauthorized "unauthenticated")
  | Some (principal, rq) =>
      on_error (auth (AuthorizePath (Some rq) failure principal resource capability))
        (λ e, _ ← recordDenied c principal resource capability e now; raise e)
  end.

Definition RequirePathCapability (c : HttpRequest) (who : option (Principal * RequestContext)) (failure : option error)
    (baseResource capability pathValue : string) (now : Time) : M unit :=
  let path := TrimPrefix pathValue "/" in
  let resource := if negb (path =s "") then baseResource +:+ "/" +:+ path else baseResource in
  authorize_audited c who failure resource capability now.

Definition KVCapability (c : HttpRequest) : string :=
  let rawPath := TrimPrefix (hq_path c) "/" in
  if hq_list c then "list"
  else if HasSuffix rawPath "/metadata" || HasSuffix rawPath "/versions" then "list"
  else "read".

Definition kv_resource (c : HttpRequest) : string :=
  let path := TrimPrefix (hq_path c) "/" in
  let resource := if negb (path =s "") then "secrets/kv/" +:+ path else "secrets/kv" in
  let resource := if HasSuffix path "/metadata" then "secrets/kv/" +:+ TrimSuffix path "/metadata" else resource in
  if HasSuffix path "/versions" then "secrets/kv/" +:+ TrimSuffix path "/versions" else resource.

Definition RequireKVAccess (c : HttpRequest) (who : option (Principal * RequestContext)) (failure : option error)
    (capability : string) (now : Time) : M unit :=
  let cap := if capability =s "" then KVCapability c else capability in
  authorize_audited c who failure (kv_resource c) cap now.

Definition sign_candidates (mount role : string) : list string :=
  if negb (role =s "") then [mount +:+ "/sign/" +:+ role; mount +:+ "/sign/*"; mount +:+ "/sign"] else [mount +:+ "/sign"].

Definition RequirePKISignCapability (c : HttpRequest) (who : option (Principal * RequestContext))
    (failures : nat → option error) (defaultMount : string) : M unit :=
  match who with
  | None => raise (New ErrCodeUnauthorized "unauthenticated")
  | Some (principal, rq) =>
      let mount := TrimSpace (hq_mount c) in
      let mount := if mount =s "" then defaultMount else mount in
      let mount := if mount =s "" then "pki" else mount in
      let role := TrimSpace (hq_role c) in
      let candidates := sign_candidates mount role in
      on_error (any_of rq failures principal ((λ r, (r, "write")) <$> candidates) (New ErrCodeForbidden "access denied"))
        (λ lastErr,
           r ← attempt (auth (AuthorizePath (Some rq) (failures (length candidates)) principal (mount +:+ "/*") "write"));
           match r with Ok _ => mret tt | Err _ => raise lastErr end)
  end.

(** ** tenant.go *)

Definition TenantEnforcement (enabled : bool) (c : HttpRequest) (who : option (Principal * RequestContext))
    : res (option string) :=
  if negb enabled then Ok None
  else
    ns ← match who with
         | Some (principal, _) => ResolveTenantNamespace (hq_Namespace c) (pp_Subject principal)
         | None => Ok (TrimSpace (hq_Namespace c))
         end;
    if ns =s "" then Err (New ErrCodeValidation "X-KNX-Namespace is required in tenant mode") else Ok (Some ns).
End gate.

(** ** seal.go *)

(** Whether a request reaches the handlers behind the seal. *)
Definition SealGuard (checker : option SealState) (c : HttpRequest) : res unit :=
  match checker with
  | None => Ok tt
  | Some st =>
      if negb (Sealed st) then Ok tt
      else if CleanRooted ("/" +:+ TrimSpace (hq_URLPath c)) =s "/sys/unseal" then Ok tt
      else Err (New ErrCodeUnavailable "vault is sealed")
  end.

(** ** Lemmas *)

Section gate_lemmas.
Context {R X : Type} {repo : TokenRepo R} {codec : TokenCodec} {digest : PolicyDigest} {parsers : Parsers}.

Lemma Service_Authorize_ok rq failure principal resource action (s s' : AuthService R X) u :
  Service_Authorize rq failure principal resource action s = (s', Ok u) →
  ActionAllowedForPrincipal principal action = true ∧
  (HasPrefix resource "secrets/kv/" = true → KVPathAllowedForPrincipal principal resource = true).
Proof.
  unfold Service_Authorize. intros Ha. inv_run. bool_props. split; [done|]. intros Hp. rewrite Hp in *.
  match goal with H : true && negb _ = false |- _ => simpl in H; by apply negb_false_iff in H end.
Qed.

Lemma authorize_audited_ok c principal rq failure resource cap now (g : Gate R X) :
  is_Ok (authorize_audited c (Some (principal, rq)) failure resource cap now g).2 →
  ActionAllowedForPrincipal principal cap = true ∧
  (HasPrefix resource "secrets/kv/" = true → KVPathAllowedForPrincipal principal resource = true).
Proof.
  unfold authorize_audited, on_error, auth, zoom, AuthorizePath.
  destruct (Service_Authorize (Some rq) failure principal resource cap (gt_auth g)) as [s' [u|e]] eqn:E.
  - intros _. by eapply Service_Authorize_ok.
  - intros [u Hu]. exfalso. revert Hu. unfold mbind, prog_bind. by destruct (recordDenied _ _ _ _ _ _ _) as [g1 []].
Qed.

Lemma ActionAllowed_delegated principal action : pp_AllowedActions principal ≠ [] →
  ActionAllowedForPrincipal principal action = true →
  ∃ allowed, allowed ∈ pp_AllowedActions principal ∧ Glob.MatchAction allowed action = true.
Proof.
  intros Hne. unfold ActionAllowedForPrincipal. rewrite bool_decide_false by done. apply existsb_elem.
Qed.

(** The target of a KV request is the tree itself or below it. *)
Lemma kv_resource_shape c : kv_resource c = "secrets/kv" ∨ HasPrefix (kv_resource c) "secrets/kv/" = true.
Proof.
  unfold kv_resource. cbv zeta. repeat case_match; (by left) || (right; apply HasPrefix_spec; by eexists).
Qed.

(** Requests that leave the token store alone. *)
Definition same_tokens : relation (AuthService R X) := λ s s', au_tokens s' = au_tokens s.

Lemma same_tokens_upsert actor id now : always same_tokens (UpsertFromLogin (R := R) (X := X) actor id now).
Proof.
  intros s. unfold same_tokens, UpsertFromLogin, mbind, prog_bind, gets. destruct (au_nhi s) as [m|]; [|done].
  destruct (MachineIdentityRepository_Save m (mi_seen id now)); unfold modify, audit_record, mret, prog_ret, raise; cbn;
    by destruct (au_audit s).
Qed.

Lemma same_tokens_audit actor action resource status details :
  always same_tokens (audit_record (R := R) (X := X) actor action resource status details).
Proof. intros s. unfold same_tokens, audit_record, modify. cbn. by destruct (au_audit s). Qed.

(** What a delegation saves. *)
Definition agent_record (parent : Principal) (req : AgentDelegateRequest) (raw : bytes) (now : Time) (t : ClientToken) : Prop :=
  ct_ID t = hashToken ("knxv_" +:+ RawURLEncode raw) ∧ ct_Policies t = ad_Policies req ∧
  ct_AllowedActions t = ad_AllowedActions req ∧
  ct_PathPrefix t = normalizeAgentPathPrefix (ad_PathPrefix req) (ad_AgentID req) ∧
  ct_Renewable t = false ∧ ct_ExpiresAt t ≤ now + maxAgentTTL.

Lemma DelegateAgent_saves parent req raw now1 now2 (s s1 : AuthService R X) token t :
  DelegateAgent parent req raw now1 now2 s = (s1, Ok (token, t)) →
  ad_AllowedActions req ≠ [] ∧
  ∃ rawb, raw = Ok rawb ∧ token = "knxv_" +:+ RawURLEncode rawb ∧ agent_record parent req rawb now1 t ∧
          save t (au_tokens s) = (au_tokens s1, Ok tt).
Proof.
  unfold DelegateAgent. intros Hd. inv_run.
  match goal with Ha : audit_record _ _ _ _ _ _ = _ |- _ => apply (always_run _ _ _ _ _ (same_tokens_audit _ _ _ _ _)) in Ha end.
  match goal with Hu : ignore _ _ = _ |- _ => apply (always_run _ _ _ _ _ (always_ignore _ _ (same_tokens_upsert _ _ _))) in Hu end.
  unfold same_tokens in *. bool_props. split; [done|].
  match goal with Ht : tokens _ _ = _ |- _ => unfold tokens, zoom in Ht; revert Ht end.
  match goal with |- context [CreateAgent ?a ?b ?c ?d ?e ?f ?g] => destruct (CreateAgent a b c d e f g) as [ts r] eqn:Hc end.
  intros [= <- ->]. apply CreateAgent_run in Hc as (rawb & -> & -> & Hs & Ht). exists rawb. split; [done|]. split; [done|].
  split; [|cbn in *; congruence]. rewrite Ht. repeat split; cbn. unfold maxAgentTTL, defaultAgentTTL, Hour, Minute, Second.
  repeat case_match; bool_props; lia.
Qed.
End gate_lemmas.

(** ** Theorems *)

(** C8. A delegated agent is contained, from the delegation to the request. There
    is one directory, [agent] or below it, and [agent/dir] when the delegation
    asked for the plain name [dir], such that at any later time, whatever
    happened to the token store in between short of issuing the identifier
    again, a request that authenticates with the agent's token does so within
    an hour of the delegation and with the delegated policies, and passes the
    KV gate only for a delegated action, and only on that directory, on what is
    below it, or on the root of the tree, which has no path to check. The token
    table files tokens under their identifiers when the agent is made. *)
Theorem agent_request_contained {R X} {repo : TokenRepo R} {repo_laws : TokenRepoLaws R} {codec : TokenCodec}
    {digest : PolicyDigest} {parsers : Parsers} (s s1 : AuthService R X) parent req raw now1 now2 token t0 ops
    (g g1 : Gate R X) c now p rq :
  table_wf (au_tokens s) → DelegateAgent parent req raw now1 now2 s = (s1, Ok (token, t0)) →
  never_reissued (hashToken token) ops → au_tokens (gt_auth g) = token_run ops (au_tokens s1) →
  extractToken c = token → Auth c now g = (g1, Ok (p, rq)) →
  now ≤ now1 + Hour ∧ pp_Policies p = ad_Policies req ∧
  ∃ root, (root = "agent" ∨ HasPrefix root "agent/" = true) ∧
    (∀ dir, agent_dir dir → ad_PathPrefix req = dir ∨ ad_PathPrefix req = "agent/" +:+ dir → root = "agent/" +:+ dir) ∧
    ∀ (g2 : Gate R X) c' failure capability nowd, is_Ok (RequireKVAccess c' (Some (p, rq)) failure capability nowd g2).2 →
      (∃ allowed, allowed ∈ ad_AllowedActions req ∧
         Glob.MatchAction allowed (if capability =s "" then KVCapability c' else capability) = true) ∧
      (kv_resource c' = "secrets/kv" ∨ kv_resource c' = "secrets/kv/" +:+ root ∨ HasPrefix (kv_resource c') ("secrets/kv/" +:+ root +:+ "/") = true).
Proof.
  intros Hs Hd Hn Hg Hc Ha. apply DelegateAgent_saves in Hd as (Hne & rawb & -> & Htok & (Hid & Hpol & Hact & Hpre & Hren & Hexp) & Hsave).
  unfold Auth in Ha. rewrite Hc in Ha. inv_run.
  match goal with Hl : auth (LoginWithToken _ _) g = (?g3, Ok ?r) |- _ =>
    unfold auth, LoginWithToken, tokens, zoom in Hl; revert Hl end.
  rewrite Hg. match goal with |- context [Authenticate ?tok now ?ts0] => destruct (Authenticate tok now ts0) as [ts r] eqn:E end.
  intros [= _ ->].
  destruct (issued_later _ _ _ _ _ _ _ _ Hs Hsave Hid Hn E) as ([_ (Hp & _ & Hact' & Hpre' & _) Hren' _ _ Hfix _] & Hf & Hx).
  rewrite (Hfix Hren Hf) in Hx. match goal with |- _ ∧ pp_Policies ?q = _ ∧ _ => assert (Hq : pp_PathPrefix q = normalizeAgentPathPrefix (ad_PathPrefix req) (ad_AgentID req)) by (cbn; congruence) end.
  destruct (agent_confined _ _ _ Hq) as (root & Hroot & Hown & Hk). cbn. split; [unfold maxAgentTTL in *; lia|]. split; [congruence|].
  exists root. split; [done|]. split; [done|]. intros g2 c' failure capability nowd Hok. apply authorize_audited_ok in Hok as [Hk1 Hk2]. split.
  - apply ActionAllowed_delegated in Hk1 as (al & Hal & Hm); cbn in *; [|congruence]. exists al. split; [congruence|done].
  - destruct (kv_resource_shape c') as [Hr|Hr]; [by left|right]. by apply Hk, Hk2.
Qed.

(** An explicit deny on signing with one role does not hold: the gate tries
    the role's path, then [sign/*], [sign] and [mount/*] as literal resources,
    and a broad grant passes one of these, which the deny does not match. *)
Theorem sign_deny_bypassed {R X} {digest : PolicyDigest} {parsers : Parsers} (s : AuthService R X) c rq principal :
  ac_rbacSync (au_config s) = false → TrimSpace (hq_mount c) = "pki" → TrimSpace (hq_role c) = "prod" →
  pp_AllowedActions principal = [] → pp_PathPrefix principal = "" → pp_Policies principal = ["ca-ops"; "no-prod"] →
  ps_rbac (au_policy s) = LoadPolicies [
    mkPolicy 0%N "ca-ops" EffectAllow ["pki/*"] ["write"] [] [] ∅;
    mkPolicy 0%N "no-prod" EffectDeny ["pki/sign/prod"] ["write"] [] [] ∅] →
  ¬ is_Ok (Service_Authorize (Some rq) None principal "pki/sign/prod" "write" s).2 ∧
  is_Ok (RequirePKISignCapability c (Some (principal, rq)) (λ _, None) "pki" (mkGate s false ∅)).2.
Proof.
  intros Hsync Hmount Hrole Hact Hpre Hpol Hrbac.
  assert (Hauth : ∀ resource, HasPrefix resource "secrets/kv/" = false →
    Service_Authorize (Some rq) None principal resource "write" s =
    (s, reject (negb (Authorize (ps_rbac (au_policy s)) (pp_Policies principal) resource "write"
       (request_for (Some rq) principal resource "write"))) (New ErrCodeForbidden "access denied"))).
  { intros resource Hr. unfold Service_Authorize, guard_not, lift, mbind, prog_bind, ActionAllowedForPrincipal.
    rewrite Hact, Hr. cbn. unfold syncRBAC, mbind, prog_bind, gets. by rewrite Hsync. }
  rewrite Hrbac, Hpol in Hauth. split.
  - rewrite Hauth by done. intros [u Hu]. vm_compute in Hu. discriminate Hu.
  - assert (Hstep : ∀ resource, HasPrefix resource "secrets/kv/" = false →
      attempt (auth (Service_Authorize (Some rq) None principal resource "write")) (mkGate s false ∅) =
      (mkGate s false ∅, Ok (Service_Authorize (Some rq) None principal resource "write" s).2)).
    { intros resource Hr. unfold attempt, auth, zoom. cbn [gt_auth]. by rewrite (Hauth resource Hr). }
    unfold RequirePKISignCapability. cbv zeta. rewrite Hmount, Hrole. rewrite (bool_decide_false ("pki" = "")) by done.
    unfold on_error, sign_candidates. rewrite (bool_decide_false ("prod" = "")) by done. cbn [negb fmap list_fmap any_of].
    unfold mbind at 1, prog_bind at 1. rewrite Hstep by done. rewrite Hauth by done.
    match goal with |- context [reject ?c ?e] => assert (Hd : c = true) by (vm_compute; reflexivity) end. rewrite Hd. clear Hd.
    cbn [reject snd]. cbn [any_of]. unfold mbind at 1, prog_bind at 1. rewrite Hstep by done. rewrite Hauth by done.
    match goal with |- context [reject ?c ?e] => assert (Hd : c = false) by (vm_compute; reflexivity) end. rewrite Hd. clear Hd.
    by eexists.
Qed.

(** ** Witnesses *)

Definition bot_parent : Principal := mkPrincipal "ci" ["secrets-reader"] "" "" "" [] "".
Definition bot_http : HttpRequest :=
  mkHttpRequest "Bearer knxv_r1" "" "" "" "" "r9" "" "10.0.0.1" "" "/secrets/kv/agent/bot7/db" "/agent/bot7/db" "" "" false.
Definition bot_delegated : AuthService (gmap string ClientToken) unit :=
  (DelegateAgent (codec := toy_codec) bot_parent bot_request demo_raw 1000 1001 (demo_auth ∅)).1.

Lemma agent_request_contained_witness : 2000 <= 1000 + Hour.
Proof.
  refine (proj1 (agent_request_contained (codec := toy_codec) (digest := toy_policy_digest) (parsers := no_parsers)
    (demo_auth ∅) bot_delegated bot_parent bot_request demo_raw 1000 1001 demo_token _ demo_ops
    (mkGate (set_au_tokens bot_delegated (token_run (codec := toy_codec) demo_ops (au_tokens bot_delegated))) true ∅) _
    bot_http 2000 _ _ demo_tokens_wf _ demo_ops_fresh _ _ _)).
  - apply run_eq. vm_compute. reflexivity.
  - reflexivity.
  - reflexivity.
  - apply run_eq. vm_compute. reflexivity.
Defined.

Definition ca_ops_service : AuthService (gmap string ClientToken) unit :=
  mkAuthService (mkAuthConfig false false true [] (mkK8sLoginOptions true false true) false Hour) demo_tokens
    (NewPolicyService ∅ ∅ (LoadPolicies [
       mkPolicy 0%N "ca-ops" EffectAllow ["pki/*"] ["write"] [] [] ∅;
       mkPolicy 0%N "no-prod" EffectDeny ["pki/sign/prod"] ["write"] [] [] ∅])) None None None None tt.

Lemma sign_deny_bypassed_witness :
  ¬ is_Ok (Service_Authorize (digest := toy_policy_digest) (parsers := no_parsers) (Some sample_request) None
             (mkPrincipal "op" ["ca-ops"; "no-prod"] "" "" "" [] "") "pki/sign/prod" "write" ca_ops_service).2 ∧
  is_Ok (RequirePKISignCapability (digest := toy_policy_digest) (parsers := no_parsers)
           (mkHttpRequest "" "" "" "" "" "" "" "" "" "" "" "pki" " prod" false)
           (Some (mkPrincipal "op" ["ca-ops"; "no-prod"] "" "" "" [] "", sample_request)) (λ _, None) "pki"
           (mkGate ca_ops_service false ∅)).2.
Proof. apply sign_deny_bypassed; reflexivity. Defined.
