(* ===== verification/Router.v ===== *)
(** The routes of the API, internal/api/router.go, and what a request passes on
    its way to a handler.

    A route is its method, its path and the chain of handlers in front of the
    last one, in the order in which the router library runs them: those of the
    engine, of its groups at the time of registration, and its own. [NewRouter]
    builds the routes from what is configured ([RouterDeps]: whether an optional
    part is there). [serve] runs a chain with the middleware of Gate.v; what the
    limiters, the signature check, the client-certificate check and the label
    lookup answer comes from outside ([Wire]). *)

From S2P Require Import Prelude.
From S2P Require Import Effects.
From S2P Require Import GoLib.
From S2P Require Import Policy.
From S2P Require Import Domain.
From S2P Require Import Seal.
From S2P Require Import Repos.
From S2P Require Import Tenant.
From S2P Require Import TokenStore.
From S2P Require Import Identity.
From S2P Require Import PolicyService.
From S2P Require Import AuthService.
From S2P Require Import Gate.

(** ** internal/api/deps.go *)

Record RouterDeps := mkRouterDeps {
  rd_AuthService : bool;
  rd_Seal : bool;
  rd_RaftMembership : bool;
  rd_PKIService : bool;
  rd_SecretsService : bool;
  rd_DatabaseService : bool;
  rd_SSHService : bool;
  rd_PolicyService : bool;
  rd_AuditExportService : bool;
  rd_InjectService : bool;
  rd_BackupService : bool;
  rd_RotationService : bool;
  rd_LeaseService : bool;
  rd_AuditPackService : bool;
  rd_MachineIdentitySvc : bool;
  rd_CubbyholeService : bool;
  rd_WrappingService : bool;
  rd_TransitService : bool;
  rd_IdentityService : bool;
  rd_TenantMode : bool;
  rd_ExposureSigningKey : string;
  rd_MTLSRequired : bool;
  rd_RateLimiter : bool;
  rd_SharedRateLimiter : bool;
  rd_AuthLoginLimiter : bool;
  rd_TokenCreateLimiter : bool;
  rd_RequestSigning : bool;
  rd_MetricsDedicatedOnly : bool;
  rd_AllowCoarsePKIWrite : bool;
  rd_tracing : bool;
}.

(** ** Middleware and routes *)

Inductive middleware :=
  | Recovery | Tracing | RequestID | EnvironmentHeader | SecurityHeaders | MetricsMiddleware | RequestLogger | ErrorHandler
  | MAuth
  | MSealGuard
  | MTenantEnforcement
  | MRequestSigning
  | MSharedRateLimit
  | MRateLimit
  | MLoginThrottle
  | MTokenCreateThrottle
  | MFixedRate (rpm : Z)
  | MMTLSRequired
  | MEnrichLabels
  | MExposureSigning
  | MPermission (pairs : list (string * string))
  | MPathCapability (base capability param : string)
  | MKVAccess (capability : string)
  | MSignCapability (defaultMount : string).

#[global] Instance middleware_eq_dec : EqDecision middleware.
Proof. solve_decision. Defined.

Record route := mkRoute { rt_method : string; rt_path : string; rt_chain : list middleware; rt_handler : string }.

Definition GET := mkRoute "GET".
Definition POST := mkRoute "POST".
Definition PUT := mkRoute "PUT".
Definition DELETE := mkRoute "DELETE".

Definition opt (b : bool) (m : middleware) : list middleware := if b then [m] else [].
Definition routes_if (b : bool) (l : list route) : list route := if b then l else [].
Definition permission (resource action : string) : middleware := MPermission [(resource, action)].

(** ** internal/api/router.go *)

Section router.
Context (d : RouterDeps).

(** [r.Use]: what every route runs first. *)
Definition engine_chain : list middleware :=
  [Recovery] ++ opt (rd_tracing d) Tracing ++ [RequestID; EnvironmentHeader; SecurityHeaders; MetricsMiddleware; RequestLogger; ErrorHandler].

Definition status_routes : list route :=
  routes_if (negb (rd_MetricsDedicatedOnly d)) [GET "/metrics" engine_chain "metrics"] ++
  [GET "/health" engine_chain "health.Live"; GET "/ready" engine_chain "health.Ready";
   GET "/openapi.yaml" engine_chain "openapi"; GET "/swagger" engine_chain "swagger"].

Definition auth_chain : list middleware := engine_chain ++ opt (rd_Seal d) MSealGuard ++ opt (rd_AuthLoginLimiter d) MLoginThrottle.
Definition securedAuth_chain : list middleware := auth_chain ++ [MAuth] ++ opt (rd_Seal d) MSealGuard.

Definition auth_routes : list route :=
  routes_if (rd_AuthService d)
    [POST "/auth/kubernetes" auth_chain "auth.LoginKubernetes";
     POST "/auth/oidc/:role" auth_chain "auth.LoginOIDC";
     POST "/auth/token" auth_chain "auth.LoginToken";
     POST "/auth/cert" auth_chain "auth.LoginCert";
     POST "/auth/ldap" auth_chain "auth.LoginLDAP";
     POST "/auth/token/create" (securedAuth_chain ++ opt (rd_TokenCreateLimiter d) MTokenCreateThrottle ++ [permission "sys/auth" "sudo"]) "auth.CreateToken";
     POST "/auth/token/renew" securedAuth_chain "auth.RenewToken";
     DELETE "/auth/token/self" securedAuth_chain "auth.RevokeSelfToken";
     POST "/auth/agent/delegate" (securedAuth_chain ++ opt (rd_TokenCreateLimiter d) MTokenCreateThrottle ++ [permission "auth/agent" "write"])
       "auth.DelegateAgent"].

Definition secured_chain : list middleware :=
  engine_chain ++
  (if rd_AuthService d then
     opt (rd_RequestSigning d) MRequestSigning ++ [MAuth] ++ opt (rd_TenantMode d) MTenantEnforcement ++ opt (rd_Seal d) MSealGuard ++
     (if rd_SharedRateLimiter d then [MSharedRateLimit] else opt (rd_RateLimiter d) MRateLimit)
   else []).
Definition sec (check : middleware) : list middleware := secured_chain ++ [check].

Definition sys_routes : list route :=
  routes_if (rd_AuthService d)
    ([GET "/sys/capabilities" secured_chain "sys.Capabilities";
      POST "/sys/init" (sec (permission "sys/init" "write")) "sys.Init";
      POST "/sys/tls/issue-listener" (sec (permission "sys/tls" "write")) "sys.IssueListenerTLS";
      POST "/sys/rotation/run" (sec (permission "sys/rotate" "write")) "sys.RunRotation";
      DELETE "/sys/auth/lockout" (sec (permission "sys/auth" "sudo")) "auth.ClearLockout";
      POST "/sys/auth/approle" (sec (permission "sys/auth" "sudo")) "vault.RegisterAppRole";
      POST "/sys/rotate-master-key" (sec (permission "sys/rotate" "write")) "sys.RotateMasterKey";
      POST "/sys/seal" (sec (permission "sys/seal" "write")) "sys.Seal";
      POST "/sys/generate-unseal-shares" (sec (permission "sys/seal" "write")) "sys.GenerateUnsealShares"] ++
     routes_if (rd_RaftMembership d)
       [POST "/sys/raft/add-node" (sec (permission "sys/raft" "write")) "sys.RaftAddNode";
        POST "/sys/raft/remove-node" (sec (permission "sys/raft" "write")) "sys.RaftRemoveNode"]).

(** The Vault profile. The health route is registered before the group gets its
    throttle. *)
Definition v1_chain : list middleware := engine_chain ++ opt (rd_AuthLoginLimiter d) MLoginThrottle.
Definition v1Login_chain : list middleware := v1_chain ++ opt (rd_Seal d) MSealGuard.
Definition v1Auth_chain : list middleware := v1_chain ++ [MAuth] ++ opt (rd_Seal d) MSealGuard.

Definition v1_routes : list route :=
  routes_if (rd_AuthService d)
    [GET "/v1/sys/health" engine_chain "vault.SysHealth";
     POST "/v1/auth/kubernetes/login" v1Login_chain "vault.LoginKubernetes";
     POST "/v1/auth/approle/login" v1Login_chain "vault.LoginAppRole";
     POST "/v1/auth/:mount/login" v1Login_chain "vault.LoginMount";
     POST "/v1/pki/sign/:role" (v1Auth_chain ++ [MSignCapability "pki"]) "vault.SignPKI";
     POST "/v1/:mount/sign/:role" (v1Auth_chain ++ [MSignCapability ""]) "vault.SignPKI"].

Definition pkiWrite (resource : string) : list middleware :=
  sec (if rd_AllowCoarsePKIWrite d then MPermission [(resource, "write"); ("pki", "write")] else permission resource "write").

Definition pki_routes : list route :=
  routes_if (rd_PKIService d)
    ([POST "/pki/ocsp/:id" (engine_chain ++ opt (rd_Seal d) MSealGuard ++ [MFixedRate 120]) "pki.OCSP"] ++
     routes_if (rd_AuthService d)
       [POST "/pki/root" (pkiWrite "pki/ca") "pki.CreateRoot";
        POST "/pki/intermediate" (pkiWrite "pki/ca") "pki.CreateIntermediate";
        PUT "/pki/roles/:name" (pkiWrite "pki/roles") "pki.PutRole";
        POST "/pki/issue" (pkiWrite "pki/issue") "pki.Issue";
        POST "/pki/issue-client-cert" (pkiWrite "pki/issue") "pki.IssueClientCert";
        POST "/pki/sign" (pkiWrite "pki/sign") "pki.SignCSR";
        POST "/pki/renew" (pkiWrite "pki/issue") "pki.Renew";
        POST "/pki/revoke" (pkiWrite "pki/revoke") "pki.Revoke";
        POST "/pki/ca/import" (pkiWrite "pki/ca") "pki.ImportCA";
        POST "/pki/ca/:id/rotate" (sec (MPathCapability "pki/ca" "write" "id")) "pki.RotateCA";
        GET "/pki/ca/by-name/:name" (sec (permission "pki" "read")) "pki.GetCAByName";
        GET "/pki/ca/:id" (sec (MPathCapability "pki/ca" "read" "id")) "pki.GetCA";
        GET "/pki/ca/:id/export" (sec (MPathCapability "pki/ca" "read" "id")) "pki.ExportCA";
        GET "/pki/crl/:id" (sec (MPathCapability "pki/crl" "read" "id")) "pki.CRL"]).

Definition kv_routes : list route :=
  routes_if (rd_SecretsService d && rd_AuthService d)
    [POST "/secrets/kv/*path" (secured_chain ++ opt (rd_MTLSRequired d) MMTLSRequired ++ [MEnrichLabels; MKVAccess "write"]) "secrets.Write";
     GET "/secrets/kv/*path" (secured_chain ++ [MEnrichLabels; MKVAccess ""]) "secrets.Read";
     DELETE "/secrets/kv/*path" (secured_chain ++ [MEnrichLabels; MKVAccess "delete"]) "secrets.Delete"].

Definition database_routes : list route :=
  routes_if (rd_DatabaseService d && rd_AuthService d)
    [PUT "/secrets/database/roles/:name" (sec (permission "secrets/database" "write")) "database.PutRole";
     POST "/secrets/database/creds/:role" (sec (permission "secrets/database" "write")) "database.GenerateCreds";
     POST "/secrets/database/renew/:lease_id" (sec (permission "secrets/database" "write")) "database.Renew";
     PUT "/secrets/database/revoke/:lease_id" (sec (permission "secrets/database" "write")) "database.Revoke";
     GET "/secrets/database/roles/:name" (sec (permission "secrets/database" "read")) "database.GetRole"].

Definition ssh_routes : list route :=
  routes_if (rd_SSHService d && rd_AuthService d)
    [PUT "/secrets/ssh/roles/:name" (sec (permission "secrets/ssh" "write")) "ssh.PutRole";
     POST "/secrets/ssh/creds/:role" (sec (permission "secrets/ssh" "write")) "ssh.GenerateCreds";
     POST "/secrets/ssh/renew/:lease_id" (sec (permission "secrets/ssh" "write")) "ssh.Renew";
     PUT "/secrets/ssh/revoke/:lease_id" (sec (permission "secrets/ssh" "write")) "ssh.Revoke";
     GET "/secrets/ssh/roles/:name" (sec (permission "secrets/ssh" "read")) "ssh.GetRole"].

Definition rotation_routes : list route :=
  routes_if (rd_RotationService d && rd_AuthService d)
    [PUT "/sys/kv-rotation" (sec (permission "secrets/kv" "write")) "secrets.PutRotation";
     DELETE "/sys/kv-rotation" (sec (permission "secrets/kv" "write")) "secrets.DeleteRotation"].

Definition policy_routes : list route :=
  routes_if (rd_PolicyService d && rd_AuthService d)
    [PUT "/sys/policies/:name" (sec (permission "sys/policies" "write")) "policies.PutPolicy";
     DELETE "/sys/policies/:name" (sec (permission "sys/policies" "write")) "policies.DeletePolicy";
     PUT "/sys/roles/:name" (sec (permission "sys/policies" "write")) "policies.PutRole";
     DELETE "/sys/roles/:name" (sec (permission "sys/policies" "write")) "policies.DeleteRole";
     GET "/sys/policies" (sec (permission "sys/policies" "read")) "policies.ListPolicies";
     GET "/sys/policies/:name" (sec (permission "sys/policies" "read")) "policies.GetPolicy";
     GET "/sys/roles" (sec (permission "sys/roles" "read")) "policies.ListRoles";
     GET "/sys/roles/:name" (sec (permission "sys/roles" "read")) "policies.GetRole";
     POST "/sys/policies/:name/import" (sec (permission "sys/policies" "write")) "policies.ImportHCL";
     POST "/sys/policy/simulate" (sec (permission "sys/policies" "read")) "simulate.Simulate"].

Definition lease_routes : list route :=
  routes_if (rd_LeaseService d && rd_AuthService d)
    [GET "/sys/leases/:lease_id" (sec (permission "sys/leases" "read")) "leases.Get";
     GET "/sys/leases" (sec (permission "sys/leases" "read")) "leases.List";
     POST "/sys/leases/renew" (sec (permission "sys/leases" "write")) "leases.Renew";
     POST "/sys/leases/revoke/:lease_id" (sec (permission "sys/leases" "write")) "leases.RevokeOne";
     PUT "/sys/leases/revoke" (sec (permission "sys/leases" "write")) "leases.BulkRevoke";
     POST "/sys/leases/revoke-prefix" (sec (permission "sys/leases" "write")) "leases.RevokePrefix";
     POST "/sys/leases/tidy" (sec (permission "sys/leases" "write")) "leases.Tidy"].

Definition cubbyhole_routes : list route :=
  routes_if (rd_CubbyholeService d && rd_AuthService d)
    [PUT "/cubbyhole/*path" (sec (permission "cubbyhole" "write")) "cubbyhole.Put";
     GET "/cubbyhole/*path" (sec (permission "cubbyhole" "read")) "cubbyhole.Get";
     DELETE "/cubbyhole/*path" (sec (permission "cubbyhole" "delete")) "cubbyhole.Delete"].

Definition wrapping_routes : list route :=
  routes_if (rd_WrappingService d && rd_AuthService d)
    [POST "/sys/wrapping/wrap" (sec (permission "sys/wrapping" "write")) "wrapping.Wrap";
     POST "/sys/wrapping/unwrap" (sec (permission "sys/wrapping" "read")) "wrapping.Unwrap";
     POST "/sys/wrapping/lookup" (sec (permission "sys/wrapping" "read")) "wrapping.Lookup"].

Definition transit_routes : list route :=
  routes_if (rd_TransitService d && rd_AuthService d)
    [POST "/transit/keys/:name" (sec (permission "transit/keys" "write")) "transit.CreateKey";
     GET "/transit/keys/:name" (sec (permission "transit/keys" "read")) "transit.ReadKey";
     POST "/transit/keys/:name/rotate" (sec (permission "transit/keys" "write")) "transit.RotateKey";
     POST "/transit/encrypt/:name" (sec (permission "transit/encrypt" "write")) "transit.Encrypt";
     POST "/transit/decrypt/:name" (sec (permission "transit/decrypt" "write")) "transit.Decrypt";
     POST "/transit/rewrap/:name" (sec (permission "transit/encrypt" "write")) "transit.Rewrap";
     POST "/transit/sign/:name" (sec (permission "transit/sign" "write")) "transit.Sign";
     POST "/transit/verify/:name" (sec (permission "transit/sign" "read")) "transit.Verify";
     POST "/transit/hmac/:name" (sec (permission "transit/hmac" "write")) "transit.HMAC"].

Definition identity_routes : list route :=
  routes_if (rd_IdentityService d && rd_AuthService d)
    [POST "/identity/entity" (sec (permission "identity" "sudo")) "identity.CreateEntity";
     GET "/identity/entity" (sec (permission "identity" "read")) "identity.ListEntities";
     GET "/identity/entity/:id" (sec (permission "identity" "read")) "identity.GetEntity";
     POST "/identity/entity/:id/disable" (sec (permission "identity" "sudo")) "identity.DisableEntity";
     POST "/identity/alias" (sec (permission "identity" "sudo")) "identity.CreateAlias";
     POST "/identity/group" (sec (permission "identity" "sudo")) "identity.CreateGroup";
     GET "/identity/group" (sec (permission "identity" "read")) "identity.ListGroups"].

Definition inject_routes : list route :=
  routes_if (rd_InjectService d && rd_AuthService d)
    [POST "/inject/render" (sec (MPathCapability "inject/render" "read" "path")) "inject.Render";
     POST "/inject/csi/mount-audit" (sec (MPathCapability "inject/csi" "read" "path")) "inject.RecordCSIMount"].

Definition audit_routes : list route :=
  routes_if (rd_AuditExportService d && rd_AuthService d)
    [GET "/audit/export" (sec (permission "audit/export" "read")) "audit.Export";
     POST "/audit/verify" (sec (permission "audit/verify" "read")) "audit.Verify"] ++
  routes_if (rd_AuditPackService d && rd_AuthService d) [GET "/sys/audit/pack" (sec (permission "audit/export" "read")) "audit.ExportPack"].

Definition nhi_routes : list route :=
  routes_if (rd_MachineIdentitySvc d && rd_AuthService d)
    [GET "/sys/machine-identities" (sec (permission "sys/policies" "read")) "nhi.List";
     DELETE "/sys/machine-identities/:id" (sec (permission "sys/policies" "write")) "nhi.Revoke"].

Definition unseal_routes : list route :=
  routes_if (rd_Seal d) [POST "/sys/unseal" (engine_chain ++ [MFixedRate 10]) "sys.Unseal"].

Definition exposure_routes : list route :=
  routes_if (negb (rd_ExposureSigningKey d =s "")) [POST "/sys/exposure/report" (engine_chain ++ [MExposureSigning]) "sys.ReportExposure"].

Definition backup_routes : list route :=
  routes_if (rd_BackupService d && rd_AuthService d)
    [POST "/sys/backup" (sec (permission "sys/backup" "write")) "backup.Create";
     POST "/sys/restore" (sec (permission "sys/backup" "write")) "backup.Restore"].

Definition NewRouter : list route :=
  status_routes ++ auth_routes ++ sys_routes ++ v1_routes ++ pki_routes ++ kv_routes ++ database_routes ++ ssh_routes ++ rotation_routes ++
  policy_routes ++ lease_routes ++ cubbyhole_routes ++ wrapping_routes ++ transit_routes ++ identity_routes ++ inject_routes ++ audit_routes ++
  nhi_routes ++ unseal_routes ++ exposure_routes ++ backup_routes.
End router.

(** ** Serving a request *)

(** What a request meets besides the gate: the clock, the outcomes of
    synchronising policies, the seal, the parameters of the path, the answers of
    the middleware that is not modelled, and the labels of the addressed secret. *)
Record Wire := mkWire {
  wi_now : Time;
  wi_failures : nat → option error;
  wi_seal : SealState;
  wi_param : string → string;
  wi_other : middleware → option error;
  wi_labels : RequestContext → RequestContext;
}.

Section serving.
Context {R X : Type} {repo : TokenRepo R} {codec : TokenCodec} {digest : PolicyDigest} {parsers : Parsers} (w : Wire) (c : HttpRequest).
Abbreviation who := (option (Principal * RequestContext)).
Abbreviation M := (prog (Gate R X)).

Definition run_middleware (m : middleware) (x : who) : M who :=
  match m with
  | MAuth => y ← Auth c (wi_now w); mret (Some y)
  | MSealGuard => _ ← lift (SealGuard (Some (wi_seal w)) c); mret x
  | MTenantEnforcement => _ ← lift (TenantEnforcement true c x); mret x
  | MPermission pairs => _ ← RequireAnyPermission x (wi_failures w) pairs; mret x
  | MPathCapability base capability param =>
      _ ← RequirePathCapability c x (wi_failures w 0%nat) base capability (wi_param w param) (wi_now w); mret x
  | MKVAccess capability => _ ← RequireKVAccess c x (wi_failures w 0%nat) capability (wi_now w); mret x
  | MSignCapability defaultMount => _ ← RequirePKISignCapability c x (wi_failures w) defaultMount; mret x
  | MEnrichLabels => mret ((λ y, (y.1, wi_labels w y.2)) <$> x)
  | m => match wi_other w m with Some e => raise e | None => mret x end
  end.

Fixpoint serve (chain : list middleware) (x : who) : M who :=
  match chain with
  | [] => mret x
  | m :: chain => y ← run_middleware m x; serve chain y
  end.

(** The authorizations a check asks for, in order, each with the state and the
    outcome of synchronisation it sees. *)
Fixpoint attempts (rq : RequestContext) (failures : nat → option error) (p : Principal) (pairs : list (string * string)) (s : AuthService R X)
    : list (string * string * option error * AuthService R X) :=
  match pairs with
  | [] => []
  | (resource, action) :: pairs =>
      (resource, action, failures 0%nat, s) ::
      attempts rq (λ i, failures (S i)) p pairs (Service_Authorize (Some rq) (failures 0%nat) p resource action s).1
  end.

Definition demanded (m : middleware) : list (string * string) :=
  match m with
  | MPermission pairs => pairs
  | MPathCapability base capability param =>
      let path := TrimPrefix (wi_param w param) "/" in [(if negb (path =s "") then base +:+ "/" +:+ path else base, capability)]
  | MKVAccess capability => [(kv_resource c, if capability =s "" then KVCapability c else capability)]
  | MSignCapability defaultMount =>
      let mount := TrimSpace (hq_mount c) in
      let mount := if mount =s "" then defaultMount else mount in
      let mount := if mount =s "" then "pki" else mount in
      (λ r, (r, "write")) <$> (sign_candidates mount (TrimSpace (hq_role c)) ++ [mount +:+ "/*"])
  | _ => []
  end.

Definition is_check (m : middleware) : bool :=
  match m with MPermission _ | MPathCapability _ _ _ | MKVAccess _ | MSignCapability _ => true | _ => false end.

(** One of the authorizations of a check succeeded. *)
Definition granted (m : middleware) (p : Principal) (rq : RequestContext) (g : Gate R X) : Prop :=
  ∃ resource action failure s, (resource, action, failure, s) ∈ attempts rq (wi_failures w) p (demanded m) (gt_auth g) ∧
    is_Ok (Service_Authorize (Some rq) failure p resource action s).2.

Lemma any_of_granted rq p pairs : ∀ failures e (g : Gate R X), is_Ok (any_of rq failures p pairs e g).2 →
  ∃ resource action failure s, (resource, action, failure, s) ∈ attempts rq failures p pairs (gt_auth g) ∧
    is_Ok (Service_Authorize (Some rq) failure p resource action s).2.
Proof.
  induction pairs as [|[resource action] pairs IH]; intros failures e g Ho; [by destruct Ho|]. cbn [any_of attempts] in *.
  unfold mbind, prog_bind, attempt, auth, zoom in Ho. destruct (Service_Authorize (Some rq) (failures 0%nat) p resource action (gt_auth g)) as [s' [u|e']] eqn:E.
  - exists resource, action, (failures 0%nat), (gt_auth g). split; [by left|]. rewrite E. by eexists.
  - destruct (IH _ _ _ Ho) as (r & a & f & s & Hin & Hok). exists r, a, f, s. split; [right; exact Hin|done].
Qed.

Lemma audited_granted p rq failure resource cap (g : Gate R X) now :
  is_Ok (authorize_audited c (Some (p, rq)) failure resource cap now g).2 →
  is_Ok (Service_Authorize (Some rq) failure p resource cap (gt_auth g)).2.
Proof.
  unfold authorize_audited, on_error, auth, zoom, AuthorizePath. destruct (Service_Authorize _ _ _ _ _ (gt_auth g)) as [s' [u|e]] eqn:E.
  - intros _. by eexists.
  - intros [u Hu]. exfalso. revert Hu. unfold mbind, prog_bind. by destruct (recordDenied _ _ _ _ _ _ _) as [g1 []].
Qed.

Lemma attempts_app rq p pairs1 pairs2 : ∀ failures (s : AuthService R X), ∃ s',
  attempts rq failures p (pairs1 ++ pairs2) s = attempts rq failures p pairs1 s ++ attempts rq (λ i, failures (length pairs1 + i)%nat) p pairs2 s'.
Proof.
  induction pairs1 as [|[r a] pairs1 IH]; intros failures s; [by exists s|]. cbn.
  destruct (IH (λ i, failures (S i)) (Service_Authorize (Some rq) (failures 0%nat) p r a s).1) as [s' E]. exists s'. by rewrite E.
Qed.

(** The state in which the last alternative of a check runs. *)
Lemma any_of_failed rq p pairs : ∀ failures e (g g' : Gate R X) e', any_of rq failures p pairs e g = (g', Err e') →
  ∀ last, attempts rq failures p (pairs ++ [last]) (gt_auth g) =
    attempts rq failures p pairs (gt_auth g) ++ [(last.1, last.2, failures (length pairs), gt_auth g')].
Proof.
  induction pairs as [|[r a] pairs IH]; intros failures e g g' e' Ha [lr la]; cbn in *; [by injection Ha as <- _|].
  unfold mbind, prog_bind, attempt, auth, zoom in Ha. destruct (Service_Authorize (Some rq) (failures 0%nat) p r a (gt_auth g)) as [s' [u|e1]] eqn:E; [done|].
  cbn. f_equal. exact (IH _ _ _ _ _ Ha (lr, la)).
Qed.

Lemma check_grants m p rq x' (g g' : Gate R X) : is_check m = true → run_middleware m (Some (p, rq)) g = (g', Ok x') →
  x' = Some (p, rq) ∧ granted m p rq g.
Proof.
  intros Hm Hr. destruct m; try discriminate Hm; cbn [run_middleware] in Hr; apply prog_bind_run in Hr as (g1 & u & Hr & Hx); injection Hx as -> ->; (split; [done|]);
    unfold granted; cbn [demanded].
  - unfold RequireAnyPermission in Hr. apply prog_bind_run in Hr as (g2 & [] & [_ ->]%guard_not_run & Hr). 
    apply (any_of_granted rq p pairs (wi_failures w) (New ErrCodeForbidden "permission denied") g). rewrite Hr. by eexists.
  - assert (Ho : is_Ok (RequirePathCapability c (Some (p, rq)) (wi_failures w 0%nat) base capability (wi_param w param) (wi_now w) g).2)
      by (rewrite Hr; by eexists).
    apply audited_granted in Ho. do 4 eexists. split; [by left|exact Ho].
  - assert (Ho : is_Ok (RequireKVAccess c (Some (p, rq)) (wi_failures w 0%nat) capability (wi_now w) g).2) by (rewrite Hr; by eexists).
    apply audited_granted in Ho. do 4 eexists. split; [by left|exact Ho].
  - unfold RequirePKISignCapability in Hr. cbv zeta in Hr |- *. rewrite fmap_app. cbn [fmap list_fmap].
    set (mount := if (if _ =s "" then _ else _) =s "" then _ else _) in *. set (cands := sign_candidates mount _) in *. unfold on_error in Hr.
    destruct (any_of _ _ _ _ _ g) as [g2 [u2|e2]] eqn:Ea.
    + destruct (any_of_granted rq p ((λ r, (r, "write")) <$> cands) (wi_failures w) (New ErrCodeForbidden "access denied") g) as (r & a & f & s & Hin & Hok);
        [rewrite Ea; by eexists|].
      exists r, a, f, s. split; [|done]. destruct (attempts_app rq p ((λ r, (r, "write")) <$> cands) [(mount +:+ "/*", "write")] (wi_failures w) (gt_auth g))
        as [s' ->]. by apply elem_of_app; left.
    + rewrite (any_of_failed _ _ _ _ _ _ _ _ Ea). unfold mbind, prog_bind, attempt, auth, zoom, AuthorizePath in Hr. rewrite length_fmap in *.
      destruct (Service_Authorize _ _ _ (mount +:+ "/*") _ (gt_auth g2)) as [s3 [u3|e3]] eqn:E3; [|done].
      do 4 eexists. split; [apply elem_of_app; right; by left|]. cbn. rewrite E3. by eexists.
Qed.

Lemma serve_app chain1 chain2 x (g g' : Gate R X) y : serve (chain1 ++ chain2) x g = (g', Ok y) ↔
  ∃ g1 x1, serve chain1 x g = (g1, Ok x1) ∧ serve chain2 x1 g1 = (g', Ok y).
Proof.
  revert x g. induction chain1 as [|m chain1 IH]; intros x g; cbn [serve app].
  - split; [intros Hs; by exists g, x|]. by intros (g1 & x1 & [= <- <-] & Hs).
  - rewrite prog_bind_run. setoid_rewrite IH. setoid_rewrite prog_bind_run. naive_solver.
Qed.

(** Once known, the principal stays known. *)
Lemma serve_keeps chain p rq (g g' : Gate R X) y : MAuth ∉ chain → serve chain (Some (p, rq)) g = (g', Ok y) → ∃ rq', y = Some (p, rq').
Proof.
  revert rq g. induction chain as [|m chain IH]; intros rq g Hn Hs; cbn [serve] in Hs; [injection Hs as _ <-; by eexists|].
  apply not_elem_of_cons in Hn as [Hm Hn]. apply prog_bind_run in Hs as (g1 & x1 & Hr & Hs).
  assert (∃ rq1, x1 = Some (p, rq1)) as [rq1 ->].
  { destruct m; cbn in Hr; try done; try (destruct (wi_other w _); [done|]; injection Hr as _ <-; by eexists);
      try (apply prog_bind_run in Hr as (g2 & u & _ & Hr); injection Hr as _ <-; by eexists). injection Hr as _ <-. by eexists. }
  by apply (IH rq1 g1).
Qed.
End serving.

(** ** What stands in front of the handlers *)

Definition key (rt : route) : string * string := (rt_method rt, rt_path rt).

(** Reachable without a token: status, documentation, the logins, the responder,
    unsealing and signed exposure reports. *)
Definition status_keys : list (string * string) :=
  [("GET", "/metrics"); ("GET", "/health"); ("GET", "/ready"); ("GET", "/openapi.yaml"); ("GET", "/swagger"); ("GET", "/v1/sys/health")].
Definition login_keys : list (string * string) :=
  [("POST", "/auth/kubernetes"); ("POST", "/auth/oidc/:role"); ("POST", "/auth/token"); ("POST", "/auth/cert"); ("POST", "/auth/ldap");
   ("POST", "/v1/auth/kubernetes/login"); ("POST", "/v1/auth/approle/login"); ("POST", "/v1/auth/:mount/login")].
Definition open_keys : list (string * string) := [("POST", "/sys/unseal"); ("POST", "/sys/exposure/report")].
Definition public_keys : list (string * string) := status_keys ++ login_keys ++ [("POST", "/pki/ocsp/:id")] ++ open_keys.

(** With a token and no further check: these act on the caller's own token. *)
Definition self_keys : list (string * string) := [("GET", "/sys/capabilities"); ("POST", "/auth/token/renew"); ("DELETE", "/auth/token/self")].

(** A token is required, and a check of permissions after it. *)
Definition authenticated (chain : list middleware) : Prop := ∃ pre post, chain = pre ++ MAuth :: post ∧ MAuth ∉ pre ∧ MAuth ∉ post.
Definition guarded (chain : list middleware) : Prop :=
  ∃ pre mid check, chain = pre ++ MAuth :: mid ++ [check] ∧ MAuth ∉ pre ∧ MAuth ∉ mid ∧ is_check check = true.

Section table.
Context (d : RouterDeps).

Ltac no_auth := unfold auth_chain, v1_chain, engine_chain, opt; repeat case_match; apply (bool_decide_unpack _); reflexivity.

Lemma secured_authenticated : rd_AuthService d = true → authenticated (secured_chain d).
Proof.
  intros Ha. unfold secured_chain. rewrite Ha. rewrite (app_assoc (engine_chain d)). eexists _, _. split; [reflexivity|]. split; [no_auth|].
  no_auth.
Qed.

Lemma authenticated_guarded chain mws check : authenticated chain → MAuth ∉ mws → is_check check = true → guarded (chain ++ mws ++ [check]).
Proof.
  intros (pre & post & -> & H1 & H2) Hm Hc. exists pre, (post ++ mws), check. split; [by rewrite <-!app_assoc|]. split; [done|].
  split; [|done]. rewrite elem_of_app. by intros [?|?].
Qed.

Lemma sec_guarded check : rd_AuthService d = true → is_check check = true → guarded (sec d check).
Proof. intros Ha Hc. apply (authenticated_guarded _ [] check); [by apply secured_authenticated|apply not_elem_of_nil|done]. Qed.
Lemma pki_guarded resource : rd_AuthService d = true → guarded (pkiWrite d resource).
Proof. intros Ha. apply sec_guarded; [done|]. by destruct (rd_AllowCoarsePKIWrite d). Qed.
Lemma kv_guarded mtls cap : rd_AuthService d = true → guarded (secured_chain d ++ opt mtls MMTLSRequired ++ [MEnrichLabels; MKVAccess cap]).
Proof.
  intros Ha. change [MEnrichLabels; MKVAccess cap] with ([MEnrichLabels] ++ [MKVAccess cap]). rewrite (app_assoc (opt mtls MMTLSRequired)).
  apply authenticated_guarded; [by apply secured_authenticated| |done]. no_auth.
Qed.
Lemma securedAuth_authenticated : authenticated (securedAuth_chain d).
Proof. unfold securedAuth_chain. eexists _, _. split; [reflexivity|]. split; no_auth. Qed.
Lemma v1Auth_authenticated : authenticated (v1Auth_chain d).
Proof. unfold v1Auth_chain. eexists _, _. split; [reflexivity|]. split; no_auth. Qed.
Lemma throttled_guarded resource action : guarded (securedAuth_chain d ++ opt (rd_TokenCreateLimiter d) MTokenCreateThrottle ++ [permission resource action]).
Proof. apply authenticated_guarded; [apply securedAuth_authenticated|no_auth|done]. Qed.
Lemma v1_guarded mount : guarded (v1Auth_chain d ++ [MSignCapability mount]).
Proof. apply (authenticated_guarded _ [] _); [apply v1Auth_authenticated|apply not_elem_of_nil|done]. Qed.

(** Every route is public, or needs a token and acts on it alone, or needs a
    token and a permission. *)
Definition covered (rt : route) : Prop :=
  key rt ∈ public_keys ∨ (key rt ∈ self_keys ∧ authenticated (rt_chain rt)) ∨ guarded (rt_chain rt).
End table.

Create HintDb routes discriminated.
#[export] Hint Resolve sec_guarded pki_guarded throttled_guarded v1_guarded securedAuth_authenticated secured_authenticated : routes.
#[export] Hint Extern 1 (is_check _ = true) => reflexivity : routes.

Ltac each_group := repeat match goal with |- Forall _ (_ ++ _) => apply Forall_app_2 end.
Ltac listed := apply (bool_decide_unpack _); vm_compute; exact I.
Ltac route := unfold covered, GET, POST, PUT, DELETE; cbn [rt_chain]; first
  [ right; right; solve [eauto with routes]
  | left; listed
  | right; left; split; [listed|solve [eauto with routes]]
  | right; right; first [by apply kv_guarded | by apply (kv_guarded _ false)] ].

Lemma covered_if b l : (b = true → Forall covered l) → Forall covered (routes_if b l).
Proof. destruct b; [by auto|]. by constructor. Qed.

Lemma routes_covered d : Forall covered (NewRouter d).
Proof.
  assert (Hand : ∀ a b, a && b = true → b = true) by (by intros [] []).
  unfold NewRouter, status_routes, sys_routes, pki_routes, audit_routes. each_group; try (apply covered_if; intros Ha);
    each_group; try (apply covered_if; intros Hb); try apply Hand in Ha; try apply Hand in Hb;
    repeat (apply Forall_cons; split; [route|]); by apply Forall_nil.
Qed.

(** C4. Every request that reaches a handler is accounted for. For any configuration,
    a route that is not one of the public ones is reached only after the token
    of the request was authenticated; and, except for the three routes on the
    caller's own token, only after the policies granted that principal one of
    the permissions the route asks for, in the state at the time of the check. *)
Theorem requests_authorized {R X} {repo : TokenRepo R} {codec : TokenCodec} {digest : PolicyDigest} {parsers : Parsers} d rt w c
    (g g' : Gate R X) x : rt ∈ NewRouter d → key rt ∉ public_keys → serve w c (rt_chain rt) None g = (g', Ok x) →
  ∃ pre post g1 x1 g2 p rq, rt_chain rt = pre ++ MAuth :: post ∧ serve w c pre None g = (g1, Ok x1) ∧ Auth c (wi_now w) g1 = (g2, Ok (p, rq)) ∧
    (key rt ∈ self_keys ∨
     ∃ mid check g3 rq', post = mid ++ [check] ∧ serve w c mid (Some (p, rq)) g2 = (g3, Ok (Some (p, rq'))) ∧ granted w c check p rq' g3).
Proof.
  intros Hrt Hpub Hs. pose proof (proj1 (Forall_forall _ _) (routes_covered d) rt Hrt) as [Hp|[[Hself (pre & post & Hc & _ & _)]|(pre & mid & check & Hc & _ & Hm & Hck)]].
  - done.
  - rewrite Hc in Hs. apply serve_app in Hs as (g1 & x1 & H1 & Hs). cbn [serve run_middleware] in Hs. apply prog_bind_run in Hs as (g2 & x2 & Ha & Hs).
    apply prog_bind_run in Ha as (g3 & [p rq] & Ha & Hx). injection Hx as -> <-. exists pre, post, g1, x1, g2, p, rq. split_and!; try done. by left.
  - rewrite Hc in Hs. apply serve_app in Hs as (g1 & x1 & H1 & Hs). cbn [serve run_middleware app] in Hs. apply prog_bind_run in Hs as (g2 & x2 & Ha & Hs).
    apply prog_bind_run in Ha as (g3 & [p rq] & Ha & Hx). injection Hx as -> <-. apply serve_app in Hs as (g3 & x3 & H3 & Hs).
    destruct (serve_keeps _ _ _ _ _ _ _ _ Hm H3) as [rq' ->]. cbn [serve] in Hs. apply prog_bind_run in Hs as (g4 & x4 & Hr & _).
    apply check_grants in Hr as [_ Hgr]; [|done]. exists pre, (mid ++ [check]), g1, x1, g2, p, rq. split_and!; try done. right.
    by exists mid, check, g3, rq'.
Qed.

(** ** The seal *)

Definition sealed_open_keys : list (string * string) := status_keys ++ open_keys.

Lemma seal_in d : rd_Seal d = true → MSealGuard ∈ auth_chain d ∧ MSealGuard ∈ v1Login_chain d ∧ MSealGuard ∈ v1Auth_chain d ∧
  (rd_AuthService d = true → MSealGuard ∈ secured_chain d).
Proof. intros Hs. unfold auth_chain, v1Login_chain, v1Auth_chain, v1_chain, secured_chain. rewrite Hs. cbn [opt]. split_and!; [set_solver..|]. intros ->. set_solver. Qed.

Definition seal_covered (rt : route) : Prop := key rt ∈ sealed_open_keys ∨ MSealGuard ∈ rt_chain rt.

Lemma seal_covered_if b l : (b = true → Forall seal_covered l) → Forall seal_covered (routes_if b l).
Proof. destruct b; [by auto|]. by constructor. Qed.

Ltac behind_seal Hs := unfold seal_covered, GET, POST, PUT, DELETE; cbn [rt_chain]; first
  [ right; unfold pkiWrite, sec; apply elem_of_app; left; assumption
  | right; assumption
  | right; unfold securedAuth_chain; apply elem_of_app; left; try (apply elem_of_app; left); assumption
  | left; listed
  | right; rewrite Hs; apply elem_of_app; right; left ].

Lemma routes_behind_seal d : rd_Seal d = true → Forall seal_covered (NewRouter d).
Proof.
  intros Hs. destruct (seal_in d Hs) as (H1 & H2 & H3 & H4). assert (Hand : ∀ a b, a && b = true → b = true) by (by intros [] []).
  unfold NewRouter, status_routes, sys_routes, pki_routes, audit_routes. each_group; try (apply seal_covered_if; intros Ha);
    each_group; try (apply seal_covered_if; intros Hb); try apply Hand in Ha; try apply Hand in Hb;
    try specialize (H4 Ha); try specialize (H4 Hb);
    repeat (apply Forall_cons; split; [behind_seal Hs|]); by apply Forall_nil.
Qed.

Lemma serve_sealed {R X} {repo : TokenRepo R} {codec : TokenCodec} {digest : PolicyDigest} {parsers : Parsers} w c chain x (g : Gate R X) :
  MSealGuard ∈ chain → Sealed (wi_seal w) = true → CleanRooted ("/" +:+ TrimSpace (hq_URLPath c)) ≠ "/sys/unseal" → ¬ is_Ok (serve w c chain x g).2.
Proof.
  intros Hin Hs Hp [y Hy]. destruct (serve w c chain x g) as [g' r] eqn:E. cbn in Hy. subst r. apply list_elem_of_split in Hin as (l1 & l2 & ->).
  apply serve_app in E as (g1 & x1 & _ & E). cbn [serve run_middleware] in E. apply prog_bind_run in E as (g2 & x2 & E & _).
  apply prog_bind_run in E as (g3 & u & E & _). injection E as _ E. unfold SealGuard in E. rewrite Hs, (bool_decide_eq_false_2 _ Hp) in E. done.
Qed.

(** C26. A sealed vault serves nothing but its status routes (metrics, health,
    readiness and the API description), unsealing and reports at
    /sys/exposure/report: no other request, logins included, reaches its
    handler, when the router is built with the seal and the path of the request is
    not another spelling of /sys/unseal, which the guard lets pass. *)
Theorem sealed_serves_nothing {R X} {repo : TokenRepo R} {codec : TokenCodec} {digest : PolicyDigest} {parsers : Parsers} d rt w c (g : Gate R X) :
  rd_Seal d = true → Sealed (wi_seal w) = true → CleanRooted ("/" +:+ TrimSpace (hq_URLPath c)) ≠ "/sys/unseal" →
  rt ∈ NewRouter d → key rt ∉ sealed_open_keys → ¬ is_Ok (serve w c (rt_chain rt) None g).2.
Proof.
  intros Hd Hs Hp Hrt Hk. pose proof (proj1 (Forall_forall _ _) (routes_behind_seal d Hd) rt Hrt) as [?|Hin]; [done|].
  by apply serve_sealed.
Qed.

(** Without the service for tokens no route touches data. *)
Theorem no_service_no_routes d rt : rd_AuthService d = false → rt ∈ NewRouter d → key rt ∈ status_keys ++ [("POST", "/pki/ocsp/:id")] ++ open_keys.
Proof.
  intros Ha. unfold NewRouter, auth_routes, sys_routes, v1_routes, pki_routes, kv_routes, database_routes, ssh_routes, rotation_routes, policy_routes,
    lease_routes, cubbyhole_routes, wrapping_routes, transit_routes, identity_routes, inject_routes, audit_routes, nhi_routes, backup_routes.
  rewrite Ha, !andb_false_r. cbn [routes_if app]. rewrite !elem_of_app. unfold status_routes, unseal_routes, exposure_routes.
  destruct (negb (rd_MetricsDedicatedOnly d)), (rd_PKIService d), (rd_Seal d), (negb (rd_ExposureSigningKey d =s "")); cbn [routes_if app];
    rewrite ?elem_of_cons, ?elem_of_nil; intros Hrt; destruct_or? Hrt; try done; subst; listed.
Qed.

(** In tenant mode the routes of the Vault profile do not run the middleware that
    puts the tenant into the context, and without it the services refuse every
    name: signing over these routes cannot succeed. *)
Theorem compat_sign_without_tenant d rt request name : rt ∈ v1_routes d →
  MTenantEnforcement ∉ rt_chain rt ∧ scopeResourceName (mkTenantCtx "" request) true name = Err (New ErrCodeValidation "tenant namespace required").
Proof.
  intros Hrt. split; [|done]. unfold v1_routes in Hrt. destruct (rd_AuthService d); [|by apply not_elem_of_nil in Hrt].
  cbn [routes_if] in Hrt. unfold v1Auth_chain, v1Login_chain, v1_chain, engine_chain, opt in Hrt.
  rewrite !elem_of_cons in Hrt. destruct_or! Hrt; subst; try (by apply not_elem_of_nil in Hrt);
    destruct (rd_tracing d), (rd_AuthLoginLimiter d), (rd_Seal d); apply (bool_decide_unpack _); reflexivity.
Qed.

(** ** Examples *)

#[local] Existing Instance toy_codec.
#[local] Existing Instance toy_policy_digest.
#[local] Existing Instance no_parsers.

Definition all_deps : RouterDeps :=
  mkRouterDeps true true true true true true true true true true true true true true true true true true true true "k" true true false true true false
    false false false.
Definition operator_gate : Gate (gmap string ClientToken) unit :=
  mkGate (mkAuthService (au_config ca_ops_service) (Create "op" ["ops"] Hour true 0 demo_raw 1000 demo_tokens).1
    (NewPolicyService ∅ ∅ (LoadPolicies [mkPolicy 0%N "ops" EffectAllow ["pki/*"; "secrets/kv/*"] ["write"; "read"] [] [] ∅])) None None None None tt) true ∅.
Definition sealed_state (b : bool) : SealState := mkSealState b [] "" 0 0 0 0 ∅ ∅.
Definition demo_wire (sealed : bool) : Wire := mkWire 2000 (λ _, None) (sealed_state sealed) (λ _, "") (λ _, None) id.
Definition http (namespace url : string) : HttpRequest := mkHttpRequest "Bearer knxv_r1" "" "" namespace "" "" "" "" "" url "" "" "" false.
Definition revoke_route : route := POST "/pki/revoke" (pkiWrite all_deps "pki/revoke") "pki.Revoke".

Lemma revoke_route_in : revoke_route ∈ NewRouter all_deps.
Proof. unfold NewRouter. do 4 (apply elem_of_app; right). apply elem_of_app. left. do 8 right. left. Qed.
Definition demo_served := serve (demo_wire false) (http "team" "/pki/revoke") (rt_chain revoke_route) None operator_gate.

Lemma requests_authorized_witness : is_ok demo_served.2 = true ∧ ∃ (g1 g2 : Gate (gmap string ClientToken) unit) p rq, Auth (http "team" "/pki/revoke") 2000 g1 = (g2, Ok (p, rq)) ∧
  ∃ check (g3 : Gate (gmap string ClientToken) unit) rq', granted (demo_wire false) (http "team" "/pki/revoke") check p rq' g3.
Proof.
  assert (Ho : is_ok demo_served.2 = true) by (vm_compute; reflexivity). split; [exact Ho|]. unfold demo_served in Ho.
  destruct (serve _ _ _ _ _) as [g' [x|e]] eqn:E; [|discriminate Ho].
  destruct (requests_authorized all_deps revoke_route (demo_wire false) (http "team" "/pki/revoke") operator_gate g' x revoke_route_in
              ltac:(listed) E) as (pre & post & g1 & x1 & g2 & p & rq & _ & _ & Ha & Hor).
  exists g1, g2, p, rq. split; [exact Ha|]. destruct Hor as [Hself|(mid & check & g3 & rq' & _ & _ & Hg)].
  - exfalso. revert Hself. listed.
  - by exists check, g3, rq'.
Defined.

Lemma sealed_serves_nothing_witness : ¬ is_Ok (serve (demo_wire true) (http "team" "/pki/revoke") (rt_chain revoke_route) None operator_gate).2.
Proof. apply (sealed_serves_nothing all_deps); [reflexivity|reflexivity|listed|exact revoke_route_in|listed]. Defined.

Lemma no_service_no_routes_witness : ("POST", "/sys/unseal") ∈ status_keys ++ [("POST", "/pki/ocsp/:id")] ++ open_keys.
Proof.
  apply (no_service_no_routes (mkRouterDeps false true false false false false false false false false false false false false false false false false
    false false "" false false false false false false true false false) (POST "/sys/unseal" (engine_chain all_deps ++ [MFixedRate 10]) "sys.Unseal"));
    [reflexivity|]. do 4 right. left.
Defined.

(** The guard of the seal compares the cleaned path of the request, the router the
    path as sent: a request for a secret below a path with dots is taken for the
    unseal request and passes a sealed vault. *)
Definition kv_read_route : route := GET "/secrets/kv/*path" (secured_chain all_deps ++ [MEnrichLabels; MKVAccess ""]) "secrets.Read".
Example seal_guard_bypassed :
  let sneaky := mkHttpRequest "Bearer knxv_r1" "" "" "team" "" "" "" "" "" "/secrets/kv/../../sys/unseal" "/../../sys/unseal" "" "" false in
  SealGuard (Some (sealed_state true)) sneaky = Ok tt ∧ is_ok (serve (demo_wire true) sneaky (rt_chain kv_read_route) None operator_gate).2 = true.
Proof. split; vm_compute; reflexivity. Qed.

Lemma compat_sign_without_tenant_witness : MTenantEnforcement ∉ v1Auth_chain all_deps ++ [MSignCapability "pki"].
Proof. apply (compat_sign_without_tenant all_deps (POST "/v1/pki/sign/:role" _ "vault.SignPKI") None ""). do 4 right. left. Defined.
