(* ===== verification/Inject.v ===== *)
(** Secrets for pods: the renderer and its service (internal/inject/renderer.go,
    internal/service/inject.go), the admission webhook that mounts a volume
    (internal/webhook/mutate.go) and the CSI provider that fills it
    (internal/inject/csi).

    A [range] over a Go map visits its entries in an order of its own each time:
    [range] of the class [MapRange] is the order of the [n]th loop. [fmt.Sprint],
    the JSON and YAML decoders and the HTTP client are parameters. *)

From S2P Require Import Prelude.
From S2P Require Import Effects.
From S2P Require Import GoLib.
From S2P Require Import Net.
From S2P Require Import Glob.
From S2P Require Import Identity.

#[local] Open Scope Z_scope.

Class MapRange := {
  range : ∀ {A : Type}, nat → gmap string A → list (string * A);
  Sprint : any → string;
}.
Class MapRangeLaws `{MapRange} := {
  range_perm : ∀ A n (m : gmap string A), range n m ≡ₚ map_to_list m;
  Sprint_string : ∀ s, Sprint (VStr s) = s;
}.

(** ** internal/inject/renderer.go *)

Module Renderer.

Definition FormatFiles : string := "files".
Definition FormatEnv : string := "env".
Definition FormatBoth : string := "both".

Record SecretRef := mkSecretRef { sr_Path : string; sr_FileName : string; sr_EnvName : string }.
Record RenderRequest := mkRenderRequest { rq_Secrets : list SecretRef; rq_Format : string }.
Record FileEntry := mkFileEntry { fe_Path : string; fe_Content : string; fe_Mode : string }.
Record EnvEntry := mkEnvEntry { ev_Name : string; ev_Value : string }.
Record RenderResult := mkRenderResult { rr_Files : list FileEntry; rr_Env : list EnvEntry }.

Definition sanitizeFileName (p : string) : string :=
  let p := TrimPrefix p "/" in
  let p := ReplaceAll p "/" "_" in
  if p =s "" then "secret" else p.

(** [strings.ToUpper] on ASCII letters. *)
Definition upper_ascii (c : ascii) : ascii :=
  let n := nat_of_ascii c in if Nat.leb 97 n && Nat.leb n 122 then ascii_of_nat (n - 32) else c.
Definition env_char (c : ascii) : bool :=
  let n := nat_of_ascii c in (Nat.leb 65 n && Nat.leb n 90) || (Nat.leb 48 n && Nat.leb n 57).
Fixpoint map_string (f : ascii → ascii) (s : string) : string :=
  match s with EmptyString => EmptyString | String c s => String (f c) (map_string f s) end.

(** Names are taken byte by byte: a character outside ASCII gives one [_] per
    byte where the source writes one for the character. *)
Definition sanitizeEnvName (raw : string) : string :=
  let raw := map_string upper_ascii raw in
  let out := TrimByte "_" (map_string (λ c, if env_char c then c else "_"%char) raw) in
  if out =s "" then "SECRET" else out.

Section render.
Context {ranges : MapRange}.

(** The lines of [flattenSecret] after the first. *)
Definition flat_line (kv : string * any) : string := kv.1 +:+ "=" +:+ Sprint kv.2.
Fixpoint join_lines (lines : list string) : string :=
  match lines with
  | [] => ""
  | [l] => l
  | l :: lines => l +:+ newline +:+ join_lines lines
  end.

Definition flattenSecret (n : nat) (data : gmap string any) : string :=
  if Nat.eqb (size data) 0 then ""
  else match Nat.eqb (size data) 1, range n data with
       | true, (_, v) :: _ => Sprint v
       | _, entries => join_lines (flat_line <$> entries)
       end.

Definition env_name (ref : SecretRef) (keys : nat) (key : string) : string :=
  if sr_EnvName ref =s "" then sanitizeEnvName (sr_Path ref +:+ "_" +:+ key)
  else if Nat.eqb keys 1 then sr_EnvName ref
  else sanitizeEnvName (sr_EnvName ref +:+ "_" +:+ key).

Definition wants_files (format : string) : bool := (format =s FormatFiles) || (format =s FormatBoth).
Definition wants_env (format : string) : bool := (format =s FormatEnv) || (format =s FormatBoth).

(** One reference; [n] counts the loops over maps so far. *)
Definition render_ref {S} (ReadSecret : string → prog S (gmap string any)) (format : string)
    (acc : nat * RenderResult) (ref : SecretRef) : prog S (nat * RenderResult) :=
  let '(n, result) := acc in
  _ ← guard_not (sr_Path ref =s "") (Plain "secret path is required");
  data ← ReadSecret (sr_Path ref);
  let fileName := if sr_FileName ref =s "" then sanitizeFileName (sr_Path ref) else sr_FileName ref in
  let files := if wants_files format
    then [mkFileEntry (CleanRooted ("/vault/secrets/" +:+ fileName)) (flattenSecret n data) "0400"] else [] in
  let env := if wants_env format
    then (λ kv, mkEnvEntry (env_name ref (size data) kv.1) (Sprint kv.2)) <$> range (n + 1) data else [] in
  mret ((n + 2)%nat, mkRenderResult (rr_Files result ++ files) (rr_Env result ++ env)).

Fixpoint render_refs {S} (ReadSecret : string → prog S (gmap string any)) (format : string)
    (acc : nat * RenderResult) (refs : list SecretRef) : prog S (nat * RenderResult) :=
  match refs with
  | [] => mret acc
  | ref :: refs => acc ← render_ref ReadSecret format acc ref; render_refs ReadSecret format acc refs
  end.

Definition Render {S} (reader : option (string → prog S (gmap string any))) (req : RenderRequest) : prog S RenderResult :=
  match reader with
  | None => raise (Plain "secret reader not configured")
  | Some ReadSecret =>
      _ ← guard_not (bool_decide (rq_Secrets req = [])) (Plain "at least one secret reference is required");
      let format := if rq_Format req =s "" then FormatBoth else rq_Format req in
      r ← render_refs ReadSecret format (0%nat, mkRenderResult [] []) (rq_Secrets req);
      mret r.2
  end.

(** ** internal/service/inject.go *)

Definition Service_Render {S} (record : string → string → res unit → list (string * any) → prog S unit)
    (reader : option (string → prog S (gmap string any))) (req : RenderRequest) : prog S RenderResult :=
  result ← attempt (Render reader req);
  _ ← record "inject.render" "inject/render" (match result with Ok _ => Ok tt | Err e => Err e end)
        [("count", VNum (Z.of_nat (length (rq_Secrets req))))];
  lift result.

Record CSIMountAuditRequest := mkCSIMountAuditRequest {
  cm_Role : string; cm_Namespace : string; cm_ServiceAccount : string; cm_PodName : string; cm_Paths : list string }.

Definition RecordCSIMount {S} (record : string → string → res unit → list (string * any) → prog S unit)
    (req : CSIMountAuditRequest) : prog S unit :=
  record "csi.mount" "inject/csi/mount" (Ok tt)
    [("role", VStr (cm_Role req)); ("namespace", VStr (cm_Namespace req)); ("service_account", VStr (cm_ServiceAccount req));
     ("pod_name", VStr (cm_PodName req)); ("paths", VStrs (cm_Paths req))].
End render.
End Renderer.

(** ** internal/webhook/mutate.go *)

Module Webhook.

Definition annotationInject : string := "knxvault.io/inject".
Definition annotationSecretProvider : string := "knxvault.io/secret-provider-class".
Definition annotationMountPath : string := "knxvault.io/inject-mount-path".
Definition defaultMountPath : string := "/mnt/knxvault-secrets".
Definition csiDriverName : string := "secrets-store.csi.k8s.io".
Definition defaultVolumeName : string := "knxvault-secrets".

(** The parts of a pod the webhook reads or writes; [V] and [C] are what else a
    volume and a container hold. *)
Record CSIVolumeSource := mkCSIVolumeSource { cv_Driver : string; cv_ReadOnly : option bool; cv_VolumeAttributes : gmap string string }.
Record VolumeMount := mkVolumeMount { vm_Name : string; vm_MountPath : string; vm_ReadOnly : bool }.
Record Volume (V : Type) := mkVolume { vo_Name : string; vo_CSI : option CSIVolumeSource; vo_rest : option V }.
Record Container (C : Type) := mkContainer { co_VolumeMounts : list VolumeMount; co_rest : C }.
Record Pod (V C : Type) := mkPod { po_Annotations : option (gmap string string); po_Volumes : list (Volume V); po_Containers : list (Container C) }.
Arguments mkVolume {V}. Arguments vo_Name {V}. Arguments vo_CSI {V}. Arguments vo_rest {V}.
Arguments mkContainer {C}. Arguments co_VolumeMounts {C}. Arguments co_rest {C}.
Arguments mkPod {V C}. Arguments po_Annotations {V C}. Arguments po_Volumes {V C}. Arguments po_Containers {V C}.

Section webhook.
Context {V C : Type}.

Definition annotation (pod : Pod V C) (key : string) : string := default "" (default ∅ (po_Annotations pod) !! key).

Definition injected_by (spc : string) (vol : Volume V) : bool :=
  match vo_CSI vol with
  | Some src => (cv_Driver src =s csiDriverName) && (default "" (cv_VolumeAttributes src !! "secretProviderClass") =s spc)
  | None => false
  end.

Definition inject_volume (spc : string) : Volume V :=
  mkVolume defaultVolumeName (Some (mkCSIVolumeSource csiDriverName (Some true) {["secretProviderClass" := spc]})) None.
Definition inject_mount (mountPath : string) : VolumeMount := mkVolumeMount defaultVolumeName mountPath true.
Definition add_mount (m : VolumeMount) (c : Container C) : Container C := mkContainer (co_VolumeMounts c ++ [m]) (co_rest c).

(** The pod and whether it was changed. *)
Definition MutatePod (pod : option (Pod V C)) : res (option (Pod V C) * bool) :=
  match pod with
  | None => Err (Plain "pod is nil")
  | Some p =>
      if bool_decide (po_Annotations p = None) || negb (ToLower (TrimSpace (annotation p annotationInject)) =s "true") then Ok (pod, false)
      else
        let spc := TrimSpace (annotation p annotationSecretProvider) in
        if spc =s "" then Err (Plain (annotationSecretProvider +:+ " annotation is required when " +:+ annotationInject +:+ "=true")) else
        let mountPath := TrimSpace (annotation p annotationMountPath) in
        let mountPath := if mountPath =s "" then defaultMountPath else mountPath in
        if negb (HasPrefix mountPath "/") || Contains mountPath ".."
        then Err (Plain (annotationMountPath +:+ " must be an absolute path without .. segments"))
        else if existsb (injected_by spc) (po_Volumes p) then Ok (pod, false)
        else Ok (Some (mkPod (po_Annotations p) (po_Volumes p ++ [inject_volume spc])
                         (add_mount (inject_mount mountPath) <$> po_Containers p)), true)
  end.

(** An operation of a JSON patch; all of them are additions. *)
Record PatchOp := mkPatchOp { op_path : string; op_value : Volume V + VolumeMount }.

Definition mount_ops (i : nat) (c : Container C) : option PatchOp :=
  m ← last (co_VolumeMounts c);
  Some (mkPatchOp ("/spec/containers/" +:+ Itoa (Z.of_nat i) +:+ "/volumeMounts/-") (inr m)).

(** The operations [json.Marshal] encodes; [None] where an index is out of range. *)
Definition patch_ops (p : Pod V C) : option (list PatchOp) :=
  v ← last (po_Volumes p);
  ops ← mapM (λ ic : nat * Container C, mount_ops ic.1 ic.2) (imap pair (po_Containers p));
  Some (mkPatchOp "/spec/volumes/-" (inl v) :: ops).

Definition BuildJSONPatch (pod : option (Pod V C)) : option (res (option (list PatchOp))) :=
  match MutatePod pod with
  | Err e => Some (Err e)
  | Ok (_, false) => Some (Ok None)
  | Ok (None, true) => None
  | Ok (Some p, true) => ops ← patch_ops p; Some (Ok (Some ops))
  end.

Record AdmissionRequest (Raw : Type) := mkAdmissionRequest { aq_UID : string; aq_Kind : string; aq_Object : Raw }.
Record AdmissionResponse := mkAdmissionResponse {
  as_UID : string; as_Allowed : bool; as_Message : option string; as_Patch : option (list PatchOp) }.

(** The response; [None] is a run-time panic. The source reads the UID of the
    request before it looks whether there is one. *)
Definition HandleAdmissionReview {Raw} (unmarshal : Raw → res (Pod V C)) (request : option (AdmissionRequest Raw)) : option AdmissionResponse :=
  req ← request;
  let refused msg := Some (mkAdmissionResponse (aq_UID _ req) false (Some msg) None) in
  let allowed patch := Some (mkAdmissionResponse (aq_UID _ req) true None patch) in
  if negb (aq_Kind _ req =s "Pod") then allowed None else
  match unmarshal (aq_Object _ req) with
  | Err e => refused ("decode pod: " +:+ error_string e)
  | Ok pod =>
      patch ← BuildJSONPatch (Some pod);
      match patch with
      | Err e => refused (error_string e)
      | Ok patch => allowed patch
      end
  end.
End webhook.
End Webhook.

(** ** internal/inject/csi *)

Module Csi.
Import Renderer.

Definition attrPodName : string := "csi.storage.k8s.io/pod.name".
Definition attrPodNamespace : string := "csi.storage.k8s.io/pod.namespace".
Definition attrPodSA : string := "csi.storage.k8s.io/serviceAccount.name".
Definition attrSAToken : string := "csi.storage.k8s.io/serviceAccount.tokens".
Definition defaultVaultAddr : string := "https://knxvault.knxvault.svc.cluster.local:8200".

Record ObjectSpec := mkObjectSpec { os_Path : string; os_FileName : string; os_ObjectType : string }.
Record MountConfig := mkMountConfig {
  mc_VaultAddr : string; mc_Role : string; mc_Objects : list ObjectSpec;
  mc_PodName : string; mc_Namespace : string; mc_ServiceAccount : string; mc_SAToken : string }.

(** Requests and responses on the wire, with the codecs of their bodies. *)
Record HttpRequest := mkHttpRequest { hr_Method : string; hr_URL : string; hr_Headers : list (string * string); hr_Body : string }.
Record HttpResponse := mkHttpResponse { hp_StatusCode : Z; hp_Status : string; hp_Body : res string }.

Class CsiCodec := {
  json_map : string → res (gmap string string);
  yaml_objects : string → res (list ObjectSpec);
  login_body : string → string → res string;
  login_token : string → res string;
  kv_body : string → res (gmap string any * Z);
  audit_body : CSIMountAuditRequest → res string;
  NewRequest : string → string → res unit;
}.

Definition csi_sanitizeFileName (p : string) : string :=
  let p := TrimPrefix p "/" in
  let p := ReplaceAll p "/" "_" in
  let p := ReplaceAll p ".." "_" in
  if p =s "" then "secret" else p.

Definition sanitizeMountFileName (name : string) : res string :=
  let name := TrimSpace name in
  _ ← reject (name =s "") (Plain "fileName is required");
  _ ← reject (Contains name ".." || Contains name "/" || Contains name "\")
        (Plain "fileName must be a basename without path separators or parent segments");
  _ ← reject (name =s ".") (Plain "invalid fileName");
  Ok name.

Section parse.
Context {codec : CsiCodec}.

Definition unmarshalJSONMap (raw : string) : res (gmap string string) := if TrimSpace raw =s "" then Ok ∅ else json_map raw.

Definition parse_object (obj : ObjectSpec) : res ObjectSpec :=
  let path := TrimPrefix (TrimSpace (os_Path obj)) "/" in
  _ ← reject (path =s "") (Plain "object path is required");
  _ ← reject (Contains path "..") (Plain "object path must not contain parent segments");
  fileName ← (if os_FileName obj =s "" then Ok (csi_sanitizeFileName path) else sanitizeMountFileName (os_FileName obj));
  Ok (mkObjectSpec path fileName (if os_ObjectType obj =s "" then "secret" else os_ObjectType obj)).

Definition attr (m : gmap string string) (k : string) : string := TrimSpace (default "" (m !! k)).

(** The token of the service account: from the secrets, else the attributes. *)
Definition sa_token (attrs : gmap string string) (secretsJSON : string) : string :=
  let from_secrets :=
    if secretsJSON =s "" then ""
    else match unmarshalJSONMap secretsJSON with
         | Ok secrets => if attr secrets attrSAToken =s "" then attr secrets "serviceAccountToken" else attr secrets attrSAToken
         | Err _ => ""
         end in
  if from_secrets =s "" then attr attrs attrSAToken else from_secrets.

Definition ParseMountConfig (attributesJSON secretsJSON : string) : res MountConfig :=
  attrs ← (match unmarshalJSONMap attributesJSON with Ok m => Ok m | Err e => Err (Wrapf "parse attributes: " e) end);
  _ ← reject (attr attrs "role" =s "") (Plain "role parameter is required");
  let addr := if attr attrs "vaultAddr" =s "" then defaultVaultAddr else attr attrs "vaultAddr" in
  _ ← reject (attr attrs "objects" =s "") (Plain "objects parameter is required");
  objects ← (match yaml_objects (attr attrs "objects") with Ok l => Ok l | Err e => Err (Wrapf "parse objects yaml: " e) end);
  _ ← reject (bool_decide (objects = [])) (Plain "at least one object is required");
  objects ← for_each (λ done obj, obj ← parse_object obj; Ok (done ++ [obj])) [] objects;
  Ok (mkMountConfig addr (attr attrs "role") objects (attr attrs attrPodName) (attr attrs attrPodNamespace) (attr attrs attrPodSA)
        (sa_token attrs secretsJSON)).
End parse.

Definition trimPath (path : string) : string := TrimPrefix (TrimSpace path) "/".
Definition joinURL (addr path : string) : string := TrimRightByte "/" addr +:+ path.

Section client.
Context {codec : CsiCodec} {net : NetText} {S : Type} (client_Do : HttpRequest → prog S HttpResponse) (RequireHTTPS : bool).

(** Sends a request; the body of the answer. *)
Definition do_request (req : HttpRequest) : prog S string :=
  resp ← client_Do req;
  data ← lift (hp_Body resp);
  _ ← guard_not (300 <=? hp_StatusCode resp) (Plain ("vault api " +:+ hp_Status resp +:+ ": " +:+ TrimSpace data));
  mret data.

(** What is decoded into [out], which keeps its zero value for an empty body. *)
Definition decode_out {A} (zero : A) (decode : string → res A) (data : string) : res A :=
  if data =s "" then Ok zero else decode data.

Definition bearer (token : string) : string * string := ("Authorization", "Bearer " +:+ token).

Definition getJSON {A} (zero : A) (decode : string → res A) (addr path token : string) : prog S A :=
  _ ← lift (NewRequest "GET" (joinURL addr path));
  data ← do_request (mkHttpRequest "GET" (joinURL addr path) [bearer token] "");
  lift (decode_out zero decode data).

Definition postJSON {A} (zero : A) (decode : string → res A) (addr path : string) (auth : list (string * string)) (payload : res string) : prog S A :=
  body ← lift payload;
  _ ← lift (NewRequest "POST" (joinURL addr path));
  data ← do_request (mkHttpRequest "POST" (joinURL addr path) (("Content-Type", "application/json") :: auth) body);
  lift (decode_out zero decode data).

Definition validateCSIVaultAddr (addr : string) : res unit := ValidateVaultBaseURL addr RequireHTTPS.

Definition Client_LoginKubernetes (addr role jwt : string) : prog S string :=
  _ ← lift (validateCSIVaultAddr addr);
  token ← postJSON "" login_token addr "/auth/kubernetes" [] (login_body role jwt);
  _ ← guard_not (token =s "") (Plain "empty client token");
  mret token.

Definition Client_RecordCSIMount (addr token : string) (req : CSIMountAuditRequest) : prog S unit :=
  postJSON tt (λ _, Ok tt) addr "/inject/csi/mount-audit" [bearer token] (audit_body req).

Definition ReadKV (addr token path : string) : prog S (gmap string any * Z) :=
  _ ← lift (validateCSIVaultAddr addr);
  getJSON (∅, 0) kv_body addr ("/secrets/kv/" +:+ trimPath path) token.
End client.

(** *** The server; its state is the number of rotations seen *)

Record MountFile := mkMountFile { mf_Path : string; mf_Mode : Z; mf_Contents : string }.
Record MountResponse := mkMountResponse { mr_ObjectVersion : list (string * string); mr_Files : list MountFile }.

Definition objectID (obj : ObjectSpec) : string := TrimSpace (os_FileName obj).

Section server.
Context {ranges : MapRange} {codec : CsiCodec} {net : NetText} {S : Type} (client_Do : HttpRequest → prog S HttpResponse) (RequireHTTPS : bool).
Abbreviation M := (prog (Z * S)).
Definition over_wire {A} (m : prog S A) : M A := zoom snd (λ s t, (s.1, t)) m.
Definition wrap_err {A} (msg : string) (m : M A) : M A := on_error m (λ e, raise (Wrapf msg e)).

Definition mount_object (cfg : MountConfig) (token : string) (current : gmap string string)
    (acc : nat * MountResponse) (obj : ObjectSpec) : M (nat * MountResponse) :=
  read ← wrap_err ("read " +:+ os_Path obj +:+ ": ") (over_wire (ReadKV client_Do RequireHTTPS (mc_VaultAddr cfg) token (os_Path obj)));
  let '(data, version) := read in
  let versionStr := Itoa version in
  let rotated := match current !! objectID obj with Some prev => negb (prev =s "") && negb (prev =s versionStr) | None => false end in
  _ ← when rotated (modify (λ s, ((s.1 + 1) `mod` 2 ^ 64, s.2)));
  let '(n, resp) := acc in
  mret ((n + 1)%nat, mkMountResponse (mr_ObjectVersion resp ++ [(objectID obj, versionStr)])
                       (mr_Files resp ++ [mkMountFile (os_FileName obj) 256 (flattenSecret n data)])).

Fixpoint mount_objects (cfg : MountConfig) (token : string) (current : gmap string string)
    (acc : nat * MountResponse) (objs : list ObjectSpec) : M (nat * MountResponse) :=
  match objs with
  | [] => mret acc
  | obj :: objs => acc ← mount_object cfg token current acc obj; mount_objects cfg token current acc objs
  end.

Definition Mount (attributes secrets : string) (currentVersions : list (string * string)) : M MountResponse :=
  cfg ← lift (ParseMountConfig attributes secrets);
  _ ← guard_not (mc_SAToken cfg =s "") (Plain "service account token missing from mount request");
  token ← wrap_err "kubernetes login: " (over_wire (Client_LoginKubernetes client_Do RequireHTTPS (mc_VaultAddr cfg) (mc_Role cfg) (mc_SAToken cfg)));
  let current := foldl (λ m ov, <[ov.1 := ov.2]> m) ∅ currentVersions in
  r ← mount_objects cfg token current (0%nat, mkMountResponse [] []) (mc_Objects cfg);
  _ ← ignore (over_wire (Client_RecordCSIMount client_Do (mc_VaultAddr cfg) token
        (mkCSIMountAuditRequest (mc_Role cfg) (mc_Namespace cfg) (mc_ServiceAccount cfg) (mc_PodName cfg) (os_Path <$> mc_Objects cfg))));
  mret r.2.
End server.
End Csi.

(** ** Properties of the webhook *)

Module WebhookFacts.
Import Webhook.

Section facts.
Context {V C : Type}.
Implicit Types p : Pod V C.

(** What the API server does with an addition at the end of an array (RFC 6902):
    the array has to be there, and an empty one is left out of the document. *)
Definition apply_op (p : Pod V C) (op : PatchOp) : option (Pod V C) :=
  match SplitOn "/" (op_path op), op_value op with
  | [""; "spec"; "volumes"; "-"], inl v =>
      if bool_decide (length (po_Volumes p) = 0%nat) then None
      else Some (mkPod (po_Annotations p) (po_Volumes p ++ [v]) (po_Containers p))
  | [""; "spec"; "containers"; n; "volumeMounts"; "-"], inr m =>
      i ← Atoi n;
      c ← po_Containers p !! Z.to_nat i;
      if bool_decide (co_VolumeMounts c = []) then None
      else Some (mkPod (po_Annotations p) (po_Volumes p) (<[Z.to_nat i := add_mount m c]> (po_Containers p)))
  | _, _ => None
  end.
Fixpoint apply_patch (p : Pod V C) (ops : list PatchOp) : option (Pod V C) :=
  match ops with [] => Some p | op :: ops => p ← apply_op p op; apply_patch p ops end.

(** The arrays the patch adds to are in the document. *)
Definition arrays_present p : bool :=
  negb (bool_decide (length (po_Volumes p) = 0%nat)) && forallb (λ c, negb (bool_decide (co_VolumeMounts c = []))) (po_Containers p).

(** A pod asks for injection. *)
Definition asks p : Prop := ∃ a, po_Annotations p = Some a ∧ ToLower (TrimSpace (default "" (a !! annotationInject))) = "true".

Definition requested_class p : string := TrimSpace (annotation p annotationSecretProvider).
Definition requested_path p : string :=
  let path := TrimSpace (annotation p annotationMountPath) in if path =s "" then defaultMountPath else path.
Definition well_annotated p : Prop :=
  requested_class p ≠ "" ∧ HasPrefix (requested_path p) "/" = true ∧ Contains (requested_path p) ".." = false.
Definition injected p : Pod V C :=
  mkPod (po_Annotations p) (po_Volumes p ++ [inject_volume (requested_class p)])
    (add_mount (inject_mount (requested_path p)) <$> po_Containers p).

Lemma MutatePod_quiet p : ¬ asks p → MutatePod (Some p) = Ok (Some p, false).
Proof.
  unfold MutatePod, asks, annotation. intros Hn. destruct (po_Annotations p) as [a|] eqn:Ea; [|done].
  rewrite bool_decide_eq_false_2, (bool_decide_eq_false_2 (ToLower _ = _)); [done|naive_solver|done].
Qed.

Lemma MutatePod_asked p : asks p →
  (well_annotated p ∧ MutatePod (Some p) = Ok (if existsb (injected_by (requested_class p)) (po_Volumes p) then (Some p, false) else (Some (injected p), true))) ∨
  (¬ well_annotated p ∧ ∃ e, MutatePod (Some p) = Err e).
Proof.
  intros (a & Ea & E). unfold MutatePod. rewrite (bool_decide_eq_false_2 (po_Annotations p = None)) by (by rewrite Ea).
  assert (Hann : annotation p annotationInject = default "" (a !! annotationInject)) by (unfold annotation; by rewrite Ea).
  rewrite Hann, (bool_decide_eq_true_2 (ToLower _ = _)) by done. cbn [negb orb]. unfold well_annotated.
  fold (requested_class p) (requested_path p).
  destruct (requested_class p =s "") eqn:E1; [apply bool_decide_eq_true in E1; right; naive_solver|]. apply bool_decide_eq_false in E1.
  cbv zeta. fold (requested_path p). destruct (HasPrefix (requested_path p) "/"), (Contains (requested_path p) ".."); cbn [negb orb]; try (right; naive_solver).
  left. split; [done|]. by destruct (existsb _ _).
Qed.

Lemma inject_volume_injected spc : injected_by spc (inject_volume (V := V) spc) = true.
Proof. unfold injected_by, inject_volume. cbn. rewrite lookup_singleton_eq. cbn. by rewrite !bool_decide_eq_true_2. Qed.

Lemma asks_dec p : asks p ∨ ¬ asks p.
Proof.
  unfold asks. destruct (po_Annotations p) as [a|]; [|naive_solver].
  destruct (decide (ToLower (TrimSpace (default "" (a !! annotationInject))) = "true")); naive_solver.
Qed.

(** Mutating is idempotent: a second admission of a pod leaves it alone. *)
Theorem mutation_idempotent p p' changed : MutatePod (Some p) = Ok (Some p', changed) → MutatePod (Some p') = Ok (Some p', false).
Proof.
  intros E. destruct (asks_dec p) as [Ha|Hn]; [|rewrite (MutatePod_quiet p Hn) in E; injection E as <- <-; by apply MutatePod_quiet].
  destruct (MutatePod_asked p Ha) as [[Hw Hm]|[_ [e Hm]]]; rewrite Hm in E; [|done].
  destruct (existsb _ _) eqn:Hex; injection E as <- <-; [by rewrite Hm|].
  destruct (MutatePod_asked (injected p) Ha) as [[_ ->]|[Hn _]]; [|by destruct Hn]. cbn [injected po_Volumes].
  change (requested_class (injected p)) with (requested_class p). rewrite existsb_app. cbn [existsb]. by rewrite inject_volume_injected, orb_true_r.
Qed.

(** ** The patch *)

Lemma mount_ops_added m i (c : Container C) : mount_ops (V := V) i (add_mount m c) = Some (mkPatchOp ("/spec/containers/" +:+ Itoa (Z.of_nat i) +:+ "/volumeMounts/-") (inr m)).
Proof. unfold mount_ops, add_mount. cbn. by rewrite last_snoc. Qed.

Definition mount_op (m : VolumeMount) (i : nat) : PatchOp (V := V) :=
  mkPatchOp ("/spec/containers/" +:+ Itoa (Z.of_nat i) +:+ "/volumeMounts/-") (inr m).

Lemma mount_op_path (i : nat) :
  SplitOn "/" ("/spec/containers/" +:+ Itoa (Z.of_nat i) +:+ "/volumeMounts/-") = [""; "spec"; "containers"; Itoa (Z.of_nat i); "volumeMounts"; "-"].
Proof.
  change ("/spec/containers/" +:+ Itoa (Z.of_nat i) +:+ "/volumeMounts/-") with
    ("" +:+ String "/" ("spec" +:+ String "/" ("containers" +:+ String "/" (Itoa (Z.of_nat i) +:+ String "/" "volumeMounts/-")))).
  rewrite !SplitOn_app. rewrite (SplitOn_none _ (Itoa _)); [done|]. by apply Itoa_plain; [lia|].
Qed.

Lemma apply_mount_op p m i : Z.of_nat i < 2 ^ 63 → apply_op p (mount_op m i) =
  (c ← po_Containers p !! i;
   if bool_decide (co_VolumeMounts c = []) then None
   else Some (mkPod (po_Annotations p) (po_Volumes p) (<[i := add_mount m c]> (po_Containers p)))).
Proof.
  intros Hi. assert (Hp := mount_op_path i). unfold apply_op. change (op_value (mount_op m i)) with (inr (A := Volume V) m).
  replace (SplitOn "/" (op_path (mount_op m i))) with [""; "spec"; "containers"; Itoa (Z.of_nat i); "volumeMounts"; "-"] by (symmetry; exact Hp).
  rewrite Atoi_Itoa by lia. cbn [mbind option_bind]. by rewrite Nat2Z.id.
Qed.

Lemma mount_ops_all m l k :
  mapM (λ ic : nat * Container C, mount_ops ic.1 ic.2) (imap (λ i c, ((k + i)%nat, c)) (add_mount m <$> l)) = Some (mount_op m <$> seq k (length l)).
Proof.
  revert k. induction l as [|c l IH]; intros k; [done|]. cbn [fmap list_fmap imap mapM length seq]. cbn [fst snd]. rewrite mount_ops_added. cbn.
  rewrite (imap_ext _ (λ i c, ((S k + i)%nat, c))) by (intros; cbn; f_equal; lia). rewrite IH. cbn. by rewrite Nat.add_0_r.
Qed.

Lemma patch_ops_injected p : patch_ops (injected p) =
  Some (mkPatchOp "/spec/volumes/-" (inl (inject_volume (requested_class p))) :: (mount_op (inject_mount (requested_path p)) <$> seq 0 (length (po_Containers p)))).
Proof.
  unfold patch_ops, injected. cbn [po_Volumes po_Containers]. rewrite last_snoc. cbn [mbind option_bind].
  rewrite (imap_ext _ (λ i c, ((0 + i)%nat, c))) by done. by rewrite mount_ops_all.
Qed.

Lemma apply_mounts a v m (before after : list (Container C)) : Z.of_nat (length before + length after) < 2 ^ 63 →
  apply_patch (mkPod a v (before ++ after)) (mount_op m <$> seq (length before) (length after)) =
    if forallb (λ c, negb (bool_decide (co_VolumeMounts c = []))) after then Some (mkPod a v (before ++ (add_mount m <$> after))) else None.
Proof.
  revert before. induction after as [|c after IH]; intros before Hlen; [done|]. cbn [length seq fmap list_fmap apply_patch forallb] in *.
  rewrite apply_mount_op by lia. cbn [po_Containers]. rewrite list_lookup_middle by done. cbn [mbind option_bind].
  destruct (bool_decide (co_VolumeMounts c = [])); [done|]. cbn [mbind option_bind negb andb po_Annotations po_Volumes].
  replace (<[length before := add_mount m c]> (before ++ c :: after)) with ((before ++ [add_mount m c]) ++ after).
  - specialize (IH (before ++ [add_mount m c])). rewrite length_app in IH. cbn [length] in IH. rewrite Nat.add_1_r in IH. rewrite IH by lia.
    destruct (forallb _ after); [|done]. by rewrite <-app_assoc.
  - by rewrite insert_app_r_alt, Nat.sub_diag, <-app_assoc by done.
Qed.

(** C31. The patch the webhook returns is the mutation: applied to the pod as the API
    server holds it, it gives the mutated pod if the pod already has a volume and
    every container a mount; else the patch does not apply, since it appends to
    arrays that are absent. The pod has fewer than 2^63 containers. *)
Theorem patch_is_mutation p p' : Z.of_nat (length (po_Containers p)) < 2 ^ 63 → MutatePod (Some p) = Ok (Some p', true) →
  ∃ ops, BuildJSONPatch (Some p) = Some (Ok (Some ops)) ∧ apply_patch p ops = if arrays_present p then Some p' else None.
Proof.
  intros Hlen E. unfold BuildJSONPatch. rewrite E. destruct (asks_dec p) as [Ha|Hn]; [|by rewrite (MutatePod_quiet p Hn) in E].
  destruct (MutatePod_asked p Ha) as [[_ Hm]|[_ [e Hm]]]; rewrite Hm in E; [|done]. destruct (existsb _ _); [done|]. injection E as <-.
  rewrite patch_ops_injected. eexists. split; [done|]. cbn [apply_patch]. unfold arrays_present.
  unfold apply_op at 1. cbn [op_path op_value]. change (SplitOn "/" "/spec/volumes/-") with [""; "spec"; "volumes"; "-"]. cbn [mbind option_bind].
  destruct (bool_decide (length (po_Volumes p) = 0%nat)); [done|]. cbn [mbind option_bind negb andb].
  by rewrite (apply_mounts _ _ _ [] (po_Containers p)).
Qed.

(** ** Admission *)

(** Every decodable pod gets an answer, and one that asks for injection is never
    admitted without it: it is refused with a message, has a volume of the class
    it names already, or is patched. A pod that does not ask is left alone. *)
Theorem admission_injects {Raw} (unmarshal : Raw → res (Pod V C)) uid raw p : unmarshal raw = Ok p →
  ∃ r, HandleAdmissionReview unmarshal (Some (mkAdmissionRequest _ uid "Pod" raw)) = Some r ∧ as_UID r = uid ∧
    (¬ asks p → as_Allowed r = true ∧ as_Patch r = None) ∧
    (asks p → as_Allowed r = true →
       (as_Patch r = None ∧ ∃ vol, vol ∈ po_Volumes p ∧ injected_by (requested_class p) vol = true) ∨
       (∃ ops, as_Patch r = Some ops ∧ MutatePod (Some p) = Ok (Some (injected p), true) ∧ patch_ops (injected p) = Some ops)) ∧
    (as_Allowed r = false → ∃ msg, as_Message r = Some msg).
Proof.
  intros Hu. unfold HandleAdmissionReview, BuildJSONPatch. cbn [mbind option_bind aq_Kind aq_Object aq_UID]. rewrite Hu. cbn [negb].
  destruct (asks_dec p) as [Ha|Hn].
  - destruct (MutatePod_asked p Ha) as [[_ Hm]|[_ [e Hm]]]; rewrite Hm.
    + destruct (existsb _ _) eqn:Hex.
      * eexists. split; [done|]. split_and!; [done|done| |done]. intros _ _. left. split; [done|]. apply existsb_exists in Hex as (vol & Hin & Hv). exists vol. by rewrite list_elem_of_In.
      * rewrite patch_ops_injected. eexists. split; [done|]. split_and!; [done|done| |done]. intros _ _. right. eauto.
    + eexists. split; [done|]. split_and!; [done|done|done|]. eauto.
  - rewrite (MutatePod_quiet p Hn). eexists. split; [done|]. by split_and!.
Qed.
End facts.
End WebhookFacts.

(** ** Properties of the CSI provider *)

Module CsiFacts.
Import Renderer.
Import Csi.

Lemma replace_char_free c old new s k : str_mem c new = false → str_mem c s = false → str_mem c (replace_skip k s old new) = false.
Proof.
  intros Hn. revert k. induction s as [|d s IH]; intros k; [done|]. intros Hs. cbn [str_mem] in Hs. apply orb_false_iff in Hs as [Hd Hs].
  cbn [replace_skip]. destruct k as [|k]; [|by apply IH]. destruct (HasPrefix _ _).
  - rewrite str_mem_app, Hn. by apply IH.
  - cbn [str_mem]. rewrite Hd. by apply IH.
Qed.

Lemma replace_char_gone c new s : str_mem c new = false → str_mem c (ReplaceAll s (String c "") new) = false.
Proof.
  intros Hn. unfold ReplaceAll. induction s as [|d s IH]; [done|]. cbn [replace_skip HasPrefix]. case_bool_decide; cbn [andb String.length].
  - by rewrite str_mem_app, Hn.
  - cbn [str_mem]. by rewrite bool_decide_eq_false_2, IH.
Qed.

Lemma replace_dots_head s : HasPrefix (replace_skip 0 s ".." "_") "." = true → HasPrefix s "." = true.
Proof. destruct s as [|c s]; [done|]. cbn [replace_skip]. destruct (HasPrefix (String c s) "..") eqn:E; cbn in *; [done|]. done. Qed.

Lemma replace_dots_gone s k : (k ≤ 1)%nat → Contains (replace_skip k s ".." "_") ".." = false.
Proof.
  revert k. induction s as [|c s IH]; intros k Hk; [done|]. cbn [replace_skip]. destruct k as [|k]; [|apply IH; lia].
  destruct (HasPrefix (String c s) "..") eqn:E.
  - cbn [String.app Contains]. cbn [String.length Nat.sub]. by rewrite IH by lia.
  - cbn [Contains]. rewrite IH by lia. rewrite orb_false_r. cbn [HasPrefix] in *. destruct (bool_decide ("."%char = c)); [|done]. cbn [andb] in *.
    assert (Hh := replace_dots_head s). cbn [HasPrefix] in Hh. destruct (replace_skip 0 s ".." "_") as [|d r] eqn:Er; [done|].
    destruct (bool_decide ("."%char = d)); [|done]. cbn in Hh, E. rewrite (Hh eq_refl) in E. done.
Qed.

(** A name of a single path segment. *)
Definition segment (name : string) : Prop := name ≠ "" ∧ Contains name "/" = false ∧ Contains name ".." = false.

Lemma csi_sanitizeFileName_segment p : segment (csi_sanitizeFileName p).
Proof.
  unfold csi_sanitizeFileName, segment. cbv zeta. case_bool_decide as E; [done|]. split; [done|]. rewrite Contains_char. split.
  - apply replace_char_free; [done|]. by apply replace_char_gone.
  - apply replace_dots_gone. lia.
Qed.

Lemma sanitizeMountFileName_segment name fn : sanitizeMountFileName name = Ok fn → segment fn ∧ fn ≠ ".".
Proof.
  unfold sanitizeMountFileName, segment. intros H. destruct (TrimSpace name =s "") eqn:E1; cbn in H; [done|]. apply bool_decide_eq_false in E1.
  destruct (Contains _ _ || _ || _) eqn:E2; cbn in H; [done|]. apply orb_false_iff in E2 as [[E2 E3]%orb_false_iff _].
  destruct (TrimSpace name =s ".") eqn:E4; cbn in H; [done|]. apply bool_decide_eq_false in E4. by injection H as <-.
Qed.

Section mount.
Context {ranges : MapRange} {codec : CsiCodec} {net : NetText}.

Lemma parse_object_segment obj obj' : parse_object obj = Ok obj' → segment (os_FileName obj').
Proof.
  unfold parse_object. set (path := TrimPrefix _ _). intros H. destruct (path =s ""); [done|]. destruct (Contains path ".."); [done|]. cbn [reject mbind] in H.
  destruct (os_FileName obj =s ""); cbn in H.
  - injection H as <-. apply csi_sanitizeFileName_segment.
  - destruct (sanitizeMountFileName (os_FileName obj)) as [fn|] eqn:E; cbn in H; [|done]. injection H as <-. by apply (sanitizeMountFileName_segment (os_FileName obj)).
Qed.

Lemma parsed_segments attributes secrets cfg : ParseMountConfig attributes secrets = Ok cfg → Forall (λ o, segment (os_FileName o)) (mc_Objects cfg).
Proof.
  unfold ParseMountConfig. intros H. destruct (unmarshalJSONMap attributes) as [attrs|]; cbn in H; [|done].
  destruct (attr attrs "role" =s ""); cbn in H; [done|]. destruct (attr attrs "objects" =s ""); cbn in H; [done|].
  destruct (yaml_objects _) as [l|]; cbn in H; [|done]. destruct (bool_decide (l = [])); cbn in H; [done|].
  destruct (for_each _ _ _) as [objs|] eqn:E; cbn in H; [|done]. injection H as <-. cbn.
  refine (for_each_inv (Forall (λ o, segment (os_FileName o))) _ _ _ _ (Forall_nil_2 _) _ E).
  intros done obj done' Hd Hs. destruct (parse_object obj) as [o|] eqn:Eo; cbn in Hs; [|done]. injection Hs as <-.
  apply Forall_app. split; [done|]. apply Forall_singleton. by eapply parse_object_segment.
Qed.

Context {S : Type} (client_Do : HttpRequest → prog S HttpResponse) (RequireHTTPS : bool).

Lemma mount_objects_names cfg token current acc objs s s' r : mount_objects client_Do RequireHTTPS cfg token current acc objs s = (s', Ok r) →
  mf_Path <$> mr_Files r.2 = (mf_Path <$> mr_Files acc.2) ++ (os_FileName <$> objs) ∧
  (mr_ObjectVersion r.2).*1 = (mr_ObjectVersion acc.2).*1 ++ (objectID <$> objs) ∧
  (Forall (λ f, mf_Mode f = 256) (mr_Files acc.2) → Forall (λ f, mf_Mode f = 256) (mr_Files r.2)).
Proof.
  revert acc s. induction objs as [|obj objs IH]; intros acc s.
  - cbn. intros [= _ <-]. by rewrite !app_nil_r.
  - cbn [mount_objects]. intros (s1 & acc1 & H1 & H2)%prog_bind_run. destruct (IH _ _ H2) as (E1 & E2 & E3). clear IH H2.
    unfold mount_object in H1. apply prog_bind_run in H1 as (s2 & [data version] & _ & H1).
    apply prog_bind_run in H1 as (s3 & u & _ & H1). destruct acc as [n resp]. injection H1 as _ <-. cbn in *.
    rewrite E1, E2, !fmap_app, <-!app_assoc. split_and!; [done..|]. intros Hf. apply E3, Forall_app. by split; [|apply Forall_singleton].
Qed.

(** A mount hands out one file per object of the class, in order, named by a
    single path segment and readable by its owner only: nothing is written
    outside the volume. A failure of any read gives no file at all. *)
Theorem mount_confined attributes secrets current s s' r : Mount client_Do RequireHTTPS attributes secrets current s = (s', Ok r) →
  ∃ cfg, ParseMountConfig attributes secrets = Ok cfg ∧ mc_SAToken cfg ≠ "" ∧ mf_Path <$> mr_Files r = os_FileName <$> mc_Objects cfg ∧
    (mr_ObjectVersion r).*1 = objectID <$> mc_Objects cfg ∧ Forall (λ f, segment (mf_Path f) ∧ mf_Mode f = 256) (mr_Files r).
Proof.
  unfold Mount. intros (s1 & cfg & Hc & H)%prog_bind_run. injection Hc as _ Hc. exists cfg. split; [done|].
  apply prog_bind_run in H as (s2 & u & Hg & H). apply guard_not_run in Hg as [Hg ->]. apply bool_decide_eq_false in Hg. split; [done|].
  apply prog_bind_run in H as (s3 & token & _ & H). apply prog_bind_run in H as (s4 & [n resp] & Hm & H).
  apply prog_bind_run in H as (s5 & u' & _ & H). injection H as _ <-. cbn.
  destruct (mount_objects_names _ _ _ _ _ _ _ _ Hm) as (E1 & E2 & E3). cbn in *. split; [done|]. split; [done|].
  specialize (E3 (Forall_nil_2 _)). apply Forall_and. split; [|done]. rewrite <-(Forall_fmap mf_Path segment), E1, Forall_fmap. by eapply parsed_segments.
Qed.
End mount.
End CsiFacts.

(** ** Properties of the renderer *)

Module RendererFacts.
Import Renderer.

Section render.
Context {ranges : MapRange} {laws : MapRangeLaws}.

(** What one reference contributes. *)
Definition rendered (get : string → res (gmap string any)) (format : string) (r : RenderResult) (ref : SecretRef) : Prop :=
  ∃ data, get (sr_Path ref) = Ok data ∧
    (wants_files format = true → ∃ n, mkFileEntry (CleanRooted ("/vault/secrets/" +:+
       (if sr_FileName ref =s "" then sanitizeFileName (sr_Path ref) else sr_FileName ref))) (flattenSecret n data) "0400" ∈ rr_Files r) ∧
    (wants_env format = true → ∀ k v, data !! k = Some v → mkEnvEntry (env_name ref (size data) k) (Sprint v) ∈ rr_Env r).

Lemma render_ref_spec {S} get format acc ref (s s' : S) acc' :
  render_ref (λ p, lift (get p)) format acc ref s = (s', Ok acc') →
  s' = s ∧ rendered get format acc'.2 ref ∧ rr_Files acc.2 ⊆ rr_Files acc'.2 ∧ rr_Env acc.2 ⊆ rr_Env acc'.2.
Proof.
  destruct acc as [n result]. unfold render_ref. intros (s1 & u & Hg & H)%prog_bind_run. apply guard_not_run in Hg as [_ ->].
  apply prog_bind_run in H as (s2 & data & Hd & H). injection Hd as <- Hd. injection H as <- <-. cbn [snd rr_Files rr_Env].
  split; [done|]. split; [|set_solver]. exists data. split; [done|]. split.
  - intros ->. exists n. apply elem_of_app. right. by left.
  - intros -> k v Hk. apply elem_of_app. right. apply list_elem_of_fmap. exists (k, v). split; [done|]. rewrite range_perm. by apply elem_of_map_to_list.
Qed.

Lemma rendered_mono get format (r r' : RenderResult) ref : rr_Files r ⊆ rr_Files r' → rr_Env r ⊆ rr_Env r' → rendered get format r ref → rendered get format r' ref.
Proof. intros Hf He (data & Hd & H1 & H2). exists data. split; [done|]. split; [|by eauto]. intros Hw. destruct (H1 Hw) as [n Hn]. eauto. Qed.

Lemma render_refs_spec {S} get format refs acc (s s' : S) acc' :
  render_refs (λ p, lift (get p)) format acc refs s = (s', Ok acc') →
  s' = s ∧ Forall (rendered get format acc'.2) refs ∧ rr_Files acc.2 ⊆ rr_Files acc'.2 ∧ rr_Env acc.2 ⊆ rr_Env acc'.2.
Proof.
  revert acc s. induction refs as [|ref refs IH]; intros acc s; cbn [render_refs].
  - intros [= <- <-]. done.
  - intros (s1 & acc1 & H1 & H2)%prog_bind_run. destruct (render_ref_spec _ _ _ _ _ _ _ H1) as (-> & Hr & Hf & He).
    destruct (IH _ _ H2) as (-> & Hall & Hf' & He'). split; [done|]. split; [|split; etrans; done].
    constructor; [|done]. by eapply rendered_mono.
Qed.

(** A rendering that succeeds holds every secret it was asked for: its file, and
    a variable for each of its keys, as the format says. *)
Theorem render_complete {S} get req (s s' : S) r : Render (Some (λ p, lift (get p))) req s = (s', Ok r) →
  s' = s ∧ Forall (rendered get (if rq_Format req =s "" then FormatBoth else rq_Format req) r) (rq_Secrets req).
Proof.
  unfold Render. intros (s1 & u & Hg & H)%prog_bind_run. apply guard_not_run in Hg as [_ ->].
  apply prog_bind_run in H as (s2 & acc & H & E). injection E as <- <-. apply render_refs_spec in H. naive_solver.
Qed.
End render.

(** Names of variables are made of capitals, digits and [_]. *)
Fixpoint env_like (s : string) : bool := match s with EmptyString => true | String c s => (env_char c || Ascii.eqb c "_") && env_like s end.

Lemma env_like_map s : env_like (map_string (λ c, if env_char c then c else "_"%char) s) = true.
Proof. induction s as [|c s IH]; [done|]. cbn. rewrite IH, andb_true_r. destruct (env_char c) eqn:E; [by rewrite E|done]. Qed.
Lemma env_like_left s c : env_like s = true → env_like (TrimLeftByte c s) = true.
Proof. induction s as [|d s IH]; [done|]. cbn. intros [H1 H2]%andb_true_iff. destruct (Ascii.eqb c d); [by apply IH|]. cbn. by rewrite H1. Qed.
Lemma env_like_right s c : env_like s = true → env_like (TrimRightByte c s) = true.
Proof. induction s as [|d s IH]; [done|]. cbn. intros [H1 H2]%andb_true_iff. destruct (_ && _); [done|]. cbn. by rewrite H1, IH. Qed.

Theorem sanitizeEnvName_like raw : env_like (sanitizeEnvName raw) = true ∧ sanitizeEnvName raw ≠ "".
Proof.
  unfold sanitizeEnvName. cbv zeta. case_bool_decide as E; [done|]. split; [|done]. apply env_like_right, env_like_left, env_like_map.
Qed.
End RendererFacts.

(** ** Concrete requests *)

Module InjectExamples.
Import Renderer.
Import Webhook.
Import WebhookFacts.
Import Csi.

#[local] Instance plain_range : MapRange := {| range A n m := map_to_list m; Sprint v := match v with VStr s => s | _ => "" end |}.
#[local] Instance plain_range_laws : MapRangeLaws.
Proof. by split. Qed.

Lemma render_complete_witness :
  let req := mkRenderRequest [mkSecretRef "app/db" "" ""] "" in
  let get := λ p, if p =s "app/db" then Ok {["pass" := VStr "x"]} else Err (Plain "none") in
  ∃ r, (Render (S := unit) (Some (λ p, lift (get p))) req tt).2 = Ok r ∧ Forall (RendererFacts.rendered get FormatBoth r) (rq_Secrets req).
Proof.
  cbv zeta. eexists. split; [vm_compute; reflexivity|].
  eapply (RendererFacts.render_complete _ (mkRenderRequest [mkSecretRef "app/db" "" ""] "") tt tt). vm_compute. reflexivity.
Defined.

(** The name of a file is joined as it is given: the file is written anywhere. *)
Example file_name_escapes :
  (Render (S := unit) (Some (λ _, lift (Ok {["k" := VStr "root::0:0"]}))) (mkRenderRequest [mkSecretRef "a" "../../etc/passwd" ""] FormatFiles) tt).2
  = Ok (mkRenderResult [mkFileEntry "/etc/passwd" "root::0:0" "0400"] []).
Proof. vm_compute. reflexivity. Qed.

(** Two keys of one secret can give the same variable. *)
Example env_names_collide : env_name (mkSecretRef "app" "" "") 2 "a-b" = env_name (mkSecretRef "app" "" "") 2 "a.b".
Proof. vm_compute. reflexivity. Qed.

Definition inject_annotations : gmap string string := {[annotationInject := "true"; annotationSecretProvider := "app"]}.
Definition demo_volume : Volume unit := mkVolume "token" None (Some tt).
Definition demo_pod : Pod unit unit :=
  mkPod (Some inject_annotations) [demo_volume] [mkContainer [mkVolumeMount "token" "/var/run" true] tt].
Definition bare_pod : Pod unit unit := mkPod (Some inject_annotations) [] [mkContainer [] tt].

Lemma mutation_idempotent_witness : ∃ p', MutatePod (Some demo_pod) = Ok (Some p', true) ∧ MutatePod (Some p') = Ok (Some p', false).
Proof. eexists. split; [reflexivity|]. apply (mutation_idempotent demo_pod _ true). reflexivity. Defined.

Lemma patch_is_mutation_witness : ∃ p' ops, BuildJSONPatch (Some demo_pod) = Some (Ok (Some ops)) ∧ apply_patch demo_pod ops = Some p'.
Proof.
  destruct (patch_is_mutation demo_pod (injected demo_pod)) as (ops & H1 & H2); [reflexivity|reflexivity|].
  exists (injected demo_pod), ops. split; [exact H1|exact H2].
Defined.

Lemma admission_injects_witness : ∃ r, HandleAdmissionReview (Raw := unit) (λ _, Ok demo_pod) (Some (mkAdmissionRequest _ "u" "Pod" tt)) = Some r ∧ as_UID r = "u".
Proof. destruct (admission_injects (Raw := unit) (λ _, Ok demo_pod) "u" tt demo_pod eq_refl) as (r & H1 & H2 & _). exists r. split; [exact H1|exact H2]. Defined.

(** A pod without volumes is admitted with a patch that does not apply. *)
Example bare_pod_rejected : match BuildJSONPatch (Some bare_pod) with Some (Ok (Some ops)) => apply_patch bare_pod ops = None | _ => False end.
Proof. vm_compute. reflexivity. Qed.

(** A review without a request ends in a panic, not in the refusal the source has for it. *)
Example missing_request_panics : HandleAdmissionReview (Raw := unit) (λ _, Ok demo_pod) None = None.
Proof. reflexivity. Qed.

(** A pod that has a volume of the name the webhook uses gets a second one. *)
Definition named_pod : Pod unit unit := mkPod (Some inject_annotations) [mkVolume defaultVolumeName None (Some tt)] [].
Example volume_name_duplicated :
  match MutatePod (Some named_pod) with Ok (Some p, true) => vo_Name <$> po_Volumes p = [defaultVolumeName; defaultVolumeName] | _ => False end.
Proof. vm_compute. reflexivity. Qed.

#[local] Instance demo_csi : CsiCodec := {|
  json_map _ := Ok {["role" := "app"; "objects" := "-"; attrSAToken := "jwt"]};
  yaml_objects _ := Ok [mkObjectSpec "app/db" "" ""; mkObjectSpec "app_db" "" ""];
  login_body role jwt := Ok jwt;
  login_token body := Ok body;
  kv_body body := Ok ({["k" := VStr body]}, 1);
  audit_body _ := Ok "";
  NewRequest _ _ := Ok tt;
|}.
#[local] Instance demo_net : NetText := {|
  net_ParseIP _ := None; net_ParseCIDR _ := Err (Plain "no"); url_Parse _ := Ok (mkNetURL "https" "knxvault" "" false false); ip_String _ := "" |}.

(** A server that gives the token for the login and the path of a read as its value. *)
Definition demo_http (req : HttpRequest) : prog unit HttpResponse := mret (mkHttpResponse 200 "200 OK" (Ok (if hr_Method req =s "GET" then hr_URL req else hr_Body req))).

Definition demo_mount : (Z * unit) * res MountResponse := Mount demo_http true "{}" "" [] (0, tt).

(** Two objects whose paths differ in a slash are mounted as the same file. *)
Lemma mount_confined_witness : ∃ r, demo_mount.2 = Ok r ∧ Forall (λ f, CsiFacts.segment (mf_Path f) ∧ mf_Mode f = 256) (mr_Files r) ∧
  mf_Path <$> mr_Files r = ["app_db"; "app_db"].
Proof.
  destruct demo_mount as [s' [r|e]] eqn:E; [|vm_compute in E; discriminate].
  destruct (CsiFacts.mount_confined demo_http true "{}" "" [] (0, tt) s' r E) as (cfg & Hc & _ & Hf & _ & H). exists r. split; [reflexivity|]. split; [exact H|].
  rewrite Hf. vm_compute in Hc. injection Hc as <-. reflexivity.
Defined.

(** A file name must not be a dot, but a path may be one and becomes the name. *)
Example dot_file_name : is_ok (sanitizeMountFileName ".") = false ∧ (os_FileName <$> match parse_object (mkObjectSpec "/." "" "") with Ok o => Some o | Err _ => None end) = Some ".".
Proof. by vm_compute. Qed.
End InjectExamples.
