(* ===== verification/SecretRepo.v ===== *)
(** The versioned secret store, internal/repository/memory/secret_repository.go:
    a map from (path, version) to the stored version, with compare-and-set
    writes, soft destruction and retention trimming.

    A [range] over the map is a fold over [map_to_list]; where the source
    depends on an order it sorts. Version numbers are 64-bit [int]s: the
    increment of [nextVersionLocked] is wrapped. *)

From Stdlib Require Import Ascii.
From S2P Require Import Prelude.
From S2P Require Import GoLib.
From S2P Require Import Domain.
From S2P Require Import Repos.

#[local] Open Scope Z_scope.

(** ** State and operations *)

Abbreviation SecretRepository := (gmap (string * Z) SecretVersion).

Implicit Types (r : SecretRepository) (sv : SecretVersion) (path : string).

Definition SaveVersion r sv : res SecretRepository :=
  match SecretVersion_Validate sv with
  | Err e => Err (Wrap ErrCodeValidation "invalid secret version" e)
  | Ok _ =>
    let key := (sv_Path sv, sv_Version sv) in
    match r !! key with
    | Some _ => Err (New ErrCodeValidation "secret version already exists")
    | None => Ok (<[key := sv]> r)
    end
  end.

(** One iteration of the loop of [GetLatest] and [latestNonDestroyedLocked]. *)
Definition latest_step path (latest : option SecretVersion) (kv : (string * Z) * SecretVersion)
    : option SecretVersion :=
  let '(key, sv) := kv in
  if negb (key.1 =s path) || sv_Destroyed sv then latest
  else match latest with
       | None => Some sv
       | Some l => if sv_Version l <? sv_Version sv then Some sv else latest
       end.

Definition latestNonDestroyedLocked r path : option SecretVersion :=
  foldl (latest_step path) None (map_to_list r).

Definition GetLatest r path : res SecretVersion :=
  match foldl (latest_step path) None (map_to_list r) with
  | None => Err (New ErrCodeNotFound "secret version not found")
  | Some latest => Ok latest
  end.

Definition GetVersion r path (version : Z) : res SecretVersion :=
  match r !! (path, version) with
  | None => Err (New ErrCodeNotFound "secret version not found")
  | Some sv => Ok sv
  end.

(** The comparison [ListByPath] sorts with. *)
Definition path_version_le : relation SecretVersion := λ x y,
  if decide (sv_Path x = sv_Path y) then sv_Version x ≤ sv_Version y else String.le (sv_Path x) (sv_Path y).
#[global] Instance path_version_le_dec : RelDecision path_version_le.
Proof. intros x y. unfold path_version_le. case_decide; apply _. Defined.

Definition ListByPath r (pathPrefix : string) : list SecretVersion :=
  merge_sort path_version_le
    (filter (λ sv, HasPrefix (sv_Path sv) pathPrefix = true) (snd <$> map_to_list r)).

Definition max_step path (max : Z) (kv : (string * Z) * SecretVersion) : Z :=
  if (kv.1.1 =s path) && (max <? kv.1.2) then kv.1.2 else max.

Definition nextVersionLocked r path : Z :=
  wrap64 (foldl (max_step path) 0 (map_to_list r) + 1).

Definition NextVersion r path : Z := nextVersionLocked r path.

(** The versions [trimVersionsLocked] collects: the live ones of the path. *)
Definition live_versions r path : list Z :=
  (λ kv, kv.1.2) <$> filter (λ kv, kv.1.1 = path ∧ sv_Destroyed kv.2 = false) (map_to_list r).

Definition delete_version path r (v : Z) : SecretRepository := delete (path, v) r.

Definition trimVersionsLocked r path (maxVersions : Z) : SecretRepository :=
  let versions := live_versions r path in
  if Z.of_nat (length versions) <=? maxVersions then r
  else
    let versions := sort_by_Z id versions in
    let toRemove := Z.of_nat (length versions) - maxVersions in
    foldl (delete_version path) r (take (Z.to_nat toRemove) versions).

(** [casVersion] is compared with the newest live version. *)
Definition cas_matches r path (casVersion : option Z) : bool :=
  match casVersion with
  | None => true
  | Some cas => match latestNonDestroyedLocked r path with
                | None => false
                | Some latest => sv_Version latest =? cas
                end
  end.

Definition PutAtomic r sv (casVersion : option Z) (maxVersions : Z) : res (SecretRepository * Z) :=
  _ ← reject (negb (cas_matches r (sv_Path sv) casVersion)) (New ErrCodeValidation "cas version mismatch");
  let version := nextVersionLocked r (sv_Path sv) in
  let sv := sv_with_version sv version in
  match SecretVersion_Validate sv with
  | Err e => Err (Wrap ErrCodeValidation "invalid secret version" e)
  | Ok _ =>
    let key := (sv_Path sv, version) in
    match r !! key with
    | Some _ => Err (New ErrCodeValidation "secret version already exists")
    | None =>
      let r := <[key := sv]> r in
      Ok (if 0 <? maxVersions then trimVersionsLocked r (sv_Path sv) maxVersions else r, version)
    end
  end.

Definition UpdateDEKEnc r path (version : Z) (dekEnc : bytes) : res SecretRepository :=
  _ ← reject ((path =s "") || (version <? 1) || bool_decide (dekEnc = []))
        (New ErrCodeValidation "invalid dek update request");
  match r !! (path, version) with
  | None => Err (New ErrCodeNotFound "secret version not found")
  | Some sv => Ok (<[(path, version) := sv_with_dek sv dekEnc]> r)
  end.

Definition DestroyVersion r path (version : Z) : res SecretRepository :=
  match r !! (path, version) with
  | None => Err (New ErrCodeNotFound "secret version not found")
  | Some sv =>
    if sv_Destroyed sv then Err (New ErrCodeValidation "secret version already destroyed")
    else Ok (<[(path, version) := sv_destroy sv]> r)
  end.

(** ** Invariant *)

Definition max_int : Z := 2 ^ 63 - 1.

(** Every version is stored under its own path and number, is valid, and its
    number is an [int]. *)
Definition secrets_wf r : Prop :=
  map_Forall (λ k sv, k = (sv_Path sv, sv_Version sv) ∧ SecretVersion_Validate sv = Ok tt ∧
                      sv_Version sv ≤ max_int) r.

(** The versions of a path that a read can return. *)
Definition live r path (v : Z) sv : Prop := r !! (path, v) = Some sv ∧ sv_Destroyed sv = false.

(** How many live versions of the path are newer than [v]. *)
Definition newer_live r path (v : Z) : nat := length (filter (λ w, v < w) (live_versions r path)).

(** A call that changes the store, and its effect: on an error nothing changes. *)
Inductive secret_op :=
  | OpSaveVersion sv
  | OpPutAtomic sv (casVersion : option Z) (maxVersions : Z)
  | OpUpdateDEKEnc path (version : Z) (dekEnc : bytes)
  | OpDestroyVersion path (version : Z).

Definition secret_op_step r (o : secret_op) : res (SecretRepository * option (string * Z)) :=
  match o with
  | OpSaveVersion sv => r' ← SaveVersion r sv; Ok (r', None)
  | OpPutAtomic sv cas maxv => x ← PutAtomic r sv cas maxv; Ok (x.1, Some (sv_Path sv, x.2))
  | OpUpdateDEKEnc path v dek => r' ← UpdateDEKEnc r path v dek; Ok (r', None)
  | OpDestroyVersion path v => r' ← DestroyVersion r path v; Ok (r', None)
  end.

(** The version numbers a run hands out, in order; failed calls change nothing. *)
Fixpoint secret_run r (os : list secret_op) : SecretRepository * list (string * Z) :=
  match os with
  | [] => (r, [])
  | o :: os =>
    match secret_op_step r o with
    | Err _ => secret_run r os
    | Ok (r', None) => secret_run r' os
    | Ok (r', Some v) => let '(r'', vs) := secret_run r' os in (r'', v :: vs)
    end
  end.

(** An operation whose explicit version argument is a machine [int]. *)
Definition op_int64 (o : secret_op) : Prop :=
  match o with OpSaveVersion sv => sv_Version sv ≤ max_int | _ => True end.

(** ** Lemmas on the loops *)

Lemma latest_fold path l acc :
  match foldl (latest_step path) acc l with
  | None => acc = None ∧ ∀ k sv, (k, sv) ∈ l → k.1 = path → sv_Destroyed sv = true
  | Some m =>
    (acc = Some m ∨ ∃ k, (k, m) ∈ l ∧ k.1 = path ∧ sv_Destroyed m = false) ∧
    (∀ a, acc = Some a → sv_Version a ≤ sv_Version m) ∧
    (∀ k sv, (k, sv) ∈ l → k.1 = path → sv_Destroyed sv = false → sv_Version sv ≤ sv_Version m)
  end.
Proof.
  revert acc. induction l as [|[k sv] l IH]; intros acc; simpl.
  { destruct acc; split_and?; set_solver. }
  specialize (IH (latest_step path acc (k, sv))). simpl in IH.
  destruct (foldl _ _ l) as [m|] eqn:Ef.
  - destruct IH as (Hm & Hacc & Hall).
    destruct (bool_decide (k.1 = path)) eqn:Ek; bool_props; simpl in *.
    + destruct (sv_Destroyed sv) eqn:Ed; simpl in *.
      * split_and!; [set_solver|done|]. intros k' sv' [[= -> ->]|?]%elem_of_cons ? ?; [congruence|eauto].
      * destruct acc as [a|]; [destruct (sv_Version a <? sv_Version sv) eqn:Ev; bool_props|]; split_and!;
          try (intros a' [= <-]); try (intros k' sv' [[= -> ->]|?]%elem_of_cons ? ?); try set_solver.
        all: try (by eapply Hall). all: try (specialize (Hacc _ eq_refl); lia).
        all: destruct Hm as [[= ->]|?]; [right; set_solver|right; set_solver].
    + split_and!; [set_solver|done|]. intros k' sv' [[= -> ->]|?]%elem_of_cons ? ?; [done|eauto].
  - destruct IH as [Hacc Hall].
    destruct (bool_decide (k.1 = path)) eqn:Ek; bool_props; simpl in *.
    + destruct (sv_Destroyed sv) eqn:Ed; simpl in *; [|by destruct acc; [case_match|]].
      split; [done|]. intros k' sv' [[= -> ->]|?]%elem_of_cons ?; eauto.
    + split; [done|]. intros k' sv' [[= -> ->]|?]%elem_of_cons ?; [done|eauto].
Qed.

Lemma max_fold path l acc :
  let m := foldl (max_step path) acc l in
  acc ≤ m ∧ (∀ k sv, (k, sv) ∈ l → k.1 = path → k.2 ≤ m) ∧
  (m = acc ∨ ∃ k sv, (k, sv) ∈ l ∧ k.1 = path ∧ m = k.2).
Proof.
  revert acc. induction l as [|[k sv] l IH]; intros acc; simpl.
  { split_and!; [lia|set_solver|by left]. }
  destruct (IH (max_step path acc (k, sv))) as (H1 & H2 & H3). simpl in *.
  unfold max_step in *. simpl in *.
  destruct (bool_decide (k.1 = path)) eqn:Ek; simpl in *; [destruct (acc <? k.2) eqn:Ev; simpl in *|]; bool_props.
  - split_and!; [lia| |].
    + intros k' sv' [[= -> ->]|?]%elem_of_cons ?; [lia|eauto].
    + right. destruct H3 as [->|?]; set_solver.
  - split_and!; [lia| |].
    + intros k' sv' [[= -> ->]|?]%elem_of_cons ?; [lia|eauto].
    + destruct H3; set_solver.
  - split_and!; [lia| |].
    + intros k' sv' [[= -> ->]|?]%elem_of_cons ?; [done|eauto].
    + destruct H3; set_solver.
Qed.

(** The largest version number a path has ever reached (0 when it has none). *)
Definition max_version r path : Z := foldl (max_step path) 0 (map_to_list r).

Lemma max_version_upper r path v sv : r !! (path, v) = Some sv → v ≤ max_version r path.
Proof.
  intros H%elem_of_map_to_list. destruct (max_fold path (map_to_list r) 0) as (_ & Hu & _).
  by apply (Hu _ _ H).
Qed.

Lemma max_version_cases r path :
  max_version r path = 0 ∨ ∃ sv, r !! (path, max_version r path) = Some sv.
Proof.
  unfold max_version. destruct (max_fold path (map_to_list r) 0) as (_ & _ & [H|([p v] & sv & H & <- & Hm)]); [by left|].
  right. exists sv. simpl in *. rewrite Hm. by apply elem_of_map_to_list.
Qed.

Lemma max_version_nonneg r path : 0 ≤ max_version r path.
Proof. by destruct (max_fold path (map_to_list r) 0). Qed.

Lemma wf_version r path v sv : secrets_wf r → r !! (path, v) = Some sv →
  sv_Path sv = path ∧ sv_Version sv = v ∧ 1 ≤ v ≤ max_int ∧ SecretVersion_Validate sv = Ok tt.
Proof.
  intros Hwf H. destruct (Hwf _ _ H) as ([= -> ->] & Hv & Hm). split_and!; try done.
  unfold SecretVersion_Validate in Hv. inv_res. bool_props. lia.
Qed.

Lemma max_version_bound r path : secrets_wf r → max_version r path ≤ max_int.
Proof.
  intros Hwf. destruct (max_version_cases r path) as [->|[sv H]]; [done|].
  apply wf_version in H as (_ & _ & ? & _); [lia|done].
Qed.

Lemma nextVersionLocked_eq r path : secrets_wf r →
  nextVersionLocked r path = if max_version r path =? max_int then - 2 ^ 63 else max_version r path + 1.
Proof.
  intros Hwf. unfold nextVersionLocked, wrap64. fold (max_version r path).
  assert (H1 := max_version_bound r path Hwf). assert (H2 := max_version_nonneg r path).
  unfold max_int in *. destruct (Z.eqb_spec (max_version r path) (2 ^ 63 - 1)) as [->|Hne]; [done|].
  rewrite Z.mod_small; lia.
Qed.

Lemma latest_spec r path : secrets_wf r →
  match latestNonDestroyedLocked r path with
  | None => ∀ v sv, ¬ live r path v sv
  | Some m => live r path (sv_Version m) m ∧ ∀ v sv, live r path v sv → v ≤ sv_Version m
  end.
Proof.
  intros Hwf. unfold latestNonDestroyedLocked, live. assert (H := latest_fold path (map_to_list r) None).
  destruct (foldl _ _ _) as [m|].
  - destruct H as ([?|([p v] & Hin%elem_of_map_to_list & <- & Hd)] & _ & Hall); [done|]. simpl in *.
    destruct (wf_version _ _ _ _ Hwf Hin) as (_ & Hv & _). rewrite Hv in *. split; [done|].
    intros v' sv' [Hl Hd']. destruct (wf_version _ _ _ _ Hwf Hl) as (_ & <- & _).
    by apply (Hall (p, sv_Version sv')); [apply elem_of_map_to_list| |].
  - destruct H as [_ H]. intros v sv [Hl%elem_of_map_to_list Hd].
    by rewrite (H _ _ Hl eq_refl) in Hd.
Qed.

(** ** Lemmas on trimming *)

Lemma live_versions_elem r path v : v ∈ live_versions r path ↔ ∃ sv, live r path v sv.
Proof.
  unfold live_versions, live. rewrite list_elem_of_fmap. split.
  - intros ([[p v'] sv] & -> & [[<- Hd] Hin%elem_of_map_to_list]%list_elem_of_filter). eauto.
  - intros (sv & H & Hd). exists ((path, v), sv). split; [done|].
    rewrite list_elem_of_filter, elem_of_map_to_list. done.
Qed.

Lemma live_versions_NoDup r path : NoDup (live_versions r path).
Proof.
  unfold live_versions. apply NoDup_fmap_2_strong.
  - intros [[p1 v1] s1] [[p2 v2] s2] [[H1 _] Hi1%elem_of_map_to_list]%list_elem_of_filter
      [[H2 _] Hi2%elem_of_map_to_list]%list_elem_of_filter. simpl in *. intros ->. subst. congruence.
  - apply NoDup_filter, NoDup_map_to_list.
Qed.

Lemma sorted_Z_strict (l : list Z) : NoDup l → StronglySorted Z.lt (sort_by_Z id l).
Proof.
  intros Hnd. assert (Hnd' : NoDup (sort_by_Z id l)) by (by rewrite sort_by_Z_perm).
  assert (Hs := sort_by_Z_sorted id l). revert Hnd' Hs. generalize (sort_by_Z id l) as s.
  induction s as [|x s IH]; intros Hnd' Hs; [constructor|].
  apply NoDup_cons in Hnd' as [Hx Hnd']. inversion Hs as [|?? Hs' Hall]; subst.
  constructor; [by apply IH|]. rewrite List.Forall_forall in Hall |- *. intros y Hy.
  specialize (Hall y Hy). unfold Z_key_le in Hall. simpl in Hall.
  assert (x ≠ y) by (intros ->; apply Hx; by apply list_elem_of_In). unfold id in *. lia.
Qed.

(** In a strictly increasing list the elements above the [i]-th are those after it. *)
Lemma strict_count_above (l : list Z) (i : nat) (v : Z) : StronglySorted Z.lt l → l !! i = Some v →
  (length (filter (λ w, v < w)%Z l) + S i = length l)%nat.
Proof.
  revert i. induction l as [|x l IH]; intros i Hs Hi; [done|].
  inversion Hs as [|?? Hs' Hall]; subst. rewrite List.Forall_forall in Hall. simpl. destruct i as [|i].
  - injection Hi as ->. rewrite filter_cons_False by lia.
    replace (filter (λ w, v < w) l) with l; [simpl; lia|].
    clear -Hall. induction l as [|y l IH]; [done|]. rewrite filter_cons_True by (apply Hall; by left).
    f_equal. apply IH. intros z Hz. apply Hall. by right.
  - simpl in Hi. rewrite filter_cons_False.
    + specialize (IH i Hs' Hi). lia.
    + assert (x < v); [|lia]. apply Hall, list_elem_of_In. by eapply list_elem_of_lookup_2.
Qed.

Lemma foldl_delete_lookup path (vs : list Z) r p v :
  foldl (delete_version path) r vs !! (p, v) = if decide (p = path ∧ v ∈ vs) then None else r !! (p, v).
Proof.
  revert r. induction vs as [|x vs IH]; intros r; simpl.
  { case_decide; set_solver. }
  rewrite IH. unfold delete_version. rewrite lookup_delete.
  repeat case_decide; try done; set_solver.
Qed.

(** Trimming removes exactly the live versions that have at least
    [maxVersions] newer live ones. *)
Lemma trim_lookup r path maxVersions p v : 0 ≤ maxVersions →
  trimVersionsLocked r path maxVersions !! (p, v) =
  if decide (p = path ∧ v ∈ live_versions r path ∧ maxVersions ≤ Z.of_nat (newer_live r path v))
  then None else r !! (p, v).
Proof.
  intros Hmax. unfold trimVersionsLocked.
  set (l := live_versions r path).
  assert (Hs : StronglySorted Z.lt (sort_by_Z id l)) by apply sorted_Z_strict, live_versions_NoDup.
  assert (Hlen : length (sort_by_Z id l) = length l) by (by rewrite sort_by_Z_perm).
  assert (Hcount : ∀ i v, sort_by_Z id l !! i = Some v → (newer_live r path v + S i = length l)%nat).
  { intros i w Hi. rewrite <-Hlen, <-(strict_count_above _ _ _ Hs Hi). unfold newer_live. fold l.
    f_equal. apply Permutation_length. by rewrite sort_by_Z_perm. }
  assert (Hex : ∀ w, w ∈ l → ∃ i, sort_by_Z id l !! i = Some w).
  { intros w Hw. rewrite <-(elem_of_sort_by_Z id) in Hw. by apply list_elem_of_lookup. }
  destruct (Z.leb_spec (Z.of_nat (length l)) maxVersions) as [Hle|Hgt].
  - rewrite decide_False; [done|]. intros (_ & Hv & Hn). destruct (Hex v Hv) as [i Hi%Hcount]. lia.
  - rewrite foldl_delete_lookup, Hlen. apply decide_ext.
    split; intros [-> H]; (split; [done|]).
    + apply elem_of_take in H as (i & Hi & Hlt). split.
      * rewrite <-(elem_of_sort_by_Z id). by eapply list_elem_of_lookup_2.
      * apply Hcount in Hi. lia.
    + destruct H as [Hv Hn]. destruct (Hex v Hv) as [i Hi]. apply elem_of_take. exists i. split; [done|].
      apply Hcount in Hi. lia.
Qed.

(** ** Lemmas on the operations *)

Lemma newer_live_insert r path v sv u : r !! (path, v) = None →
  newer_live (<[(path, v) := sv]> r) path u =
  (newer_live r path u + if negb (sv_Destroyed sv) && bool_decide (u < v)%Z then 1 else 0)%nat.
Proof.
  intros Hn. unfold newer_live, live_versions.
  rewrite (Permutation_length (l' := filter (λ w, u < w)
    ((λ kv, kv.1.2) <$> filter (λ kv, kv.1.1 = path ∧ sv_Destroyed kv.2 = false)
       (((path, v), sv) :: map_to_list r)))) by (by rewrite map_to_list_insert).
  rewrite filter_cons. simpl. destruct (sv_Destroyed sv); simpl.
  { rewrite decide_False by naive_solver. lia. }
  rewrite decide_True by done. rewrite fmap_cons, filter_cons. simpl.
  case_decide as Hd; [rewrite bool_decide_true by done|rewrite bool_decide_false by done]; simpl; lia.
Qed.

Lemma secrets_wf_delete r k : secrets_wf r → secrets_wf (delete k r).
Proof. apply map_Forall_delete. Qed.

Lemma secrets_wf_insert r sv : secrets_wf r → SecretVersion_Validate sv = Ok tt → sv_Version sv ≤ max_int →
  secrets_wf (<[(sv_Path sv, sv_Version sv) := sv]> r).
Proof. intros. by apply map_Forall_insert_2. Qed.

Lemma secrets_wf_trim r path m : secrets_wf r → secrets_wf (trimVersionsLocked r path m).
Proof.
  intros Hwf. unfold trimVersionsLocked. case_match; [done|].
  generalize (take (Z.to_nat (Z.of_nat (length (sort_by_Z id (live_versions r path))) - m))
    (sort_by_Z id (live_versions r path))) as vs. intros vs. clear H. revert r Hwf.
  induction vs as [|v vs IH]; intros r Hwf; [done|]. by apply IH, secrets_wf_delete.
Qed.

(** The compare-and-set condition, declaratively: the expected version is the
    newest live one. *)
Definition cas_holds r path (cas : option Z) : Prop :=
  ∀ c, cas = Some c → (∃ sv, live r path c sv) ∧ ∀ v sv, live r path v sv → v ≤ c.

Lemma cas_matches_spec r path cas : secrets_wf r → cas_matches r path cas = true ↔ cas_holds r path cas.
Proof.
  intros Hwf. unfold cas_matches, cas_holds. destruct cas as [c|]; [|naive_solver].
  assert (H := latest_spec r path Hwf). destruct (latestNonDestroyedLocked r path) as [m|].
  - destruct H as [Hl Hmax]. rewrite Z.eqb_eq. split.
    + intros <- c0 [= <-]. eauto.
    + intros Hc. destruct (Hc c eq_refl) as [[sv Hsv] Hmax'].
      specialize (Hmax _ _ Hsv). specialize (Hmax' _ _ Hl). lia.
  - split; [done|]. intros Hc. destruct (Hc c eq_refl) as [[sv Hsv] _]. by destruct (H _ _ Hsv).
Qed.

Lemma next_version_fresh r path v : max_version r path < v → r !! (path, v) = None.
Proof.
  intros Hlt. destruct (r !! (path, v)) eqn:E; [|done]. apply max_version_upper in E. lia.
Qed.

(** A version is trimmed by a write that keeps [maxVersions] when it is live
    and at least that many newer live versions exist, the written one
    included. *)
Definition trimmed_by r sv (maxVersions u : Z) : Prop :=
  0 < maxVersions ∧ (∃ su, live r (sv_Path sv) u su) ∧
  maxVersions ≤ Z.of_nat (newer_live r (sv_Path sv) u) + (if sv_Destroyed sv then 0 else 1).

Lemma validate_version_pos sv v : SecretVersion_Validate (sv_with_version sv v) = Ok tt → 1 ≤ v.
Proof. unfold SecretVersion_Validate. simpl. intros H. inv_res. bool_props. lia. Qed.

Lemma newer_live_max r path v : max_version r path < v → newer_live r path v = 0%nat.
Proof.
  intros Hlt. unfold newer_live. apply length_zero_iff_nil, elem_of_nil_inv.
  intros w [Hw [su [Hl _]]%live_versions_elem]%list_elem_of_filter.
  apply max_version_upper in Hl. lia.
Qed.

Lemma put_lookup r sv maxv v p u : max_version r (sv_Path sv) < v →
  let r1 := <[(sv_Path sv, v) := sv_with_version sv v]> r in
  let r2 := if 0 <? maxv then trimVersionsLocked r1 (sv_Path sv) maxv else r1 in
  (r2 !! (sv_Path sv, v) = Some (sv_with_version sv v)) ∧
  ((p, u) ≠ (sv_Path sv, v) →
    (p = sv_Path sv ∧ trimmed_by r sv maxv u ∧ r2 !! (p, u) = None) ∨
    (¬ (p = sv_Path sv ∧ trimmed_by r sv maxv u) ∧ r2 !! (p, u) = r !! (p, u))).
Proof.
  intros Hlt r1 r2. assert (Hn := next_version_fresh _ _ _ Hlt).
  assert (Hnew : ∀ w, newer_live r1 (sv_Path sv) w = (newer_live r (sv_Path sv) w +
     if negb (sv_Destroyed sv) && bool_decide (w < v)%Z then 1 else 0)%nat).
  { intros w. unfold r1. by rewrite newer_live_insert. }
  assert (Hlive : ∀ w su, w ≠ v → live r1 (sv_Path sv) w su ↔ live r (sv_Path sv) w su).
  { intros w su Hw. unfold live, r1. rewrite lookup_insert_ne by congruence. done. }
  unfold r2, trimmed_by. destruct (Z.ltb_spec 0 maxv) as [Hpos|Hneg].
  - rewrite !trim_lookup by lia. split.
    + rewrite decide_False; [by unfold r1; rewrite lookup_insert_eq|].
      intros (_ & _ & Hc). rewrite Hnew in Hc. rewrite bool_decide_false, andb_false_r in Hc by lia.
      replace (newer_live r (sv_Path sv) v) with 0%nat in Hc; [lia|]. symmetry.
      by apply newer_live_max.
    + intros Hne. case_decide as Hd; rewrite live_versions_elem in Hd.
      * destruct Hd as (-> & [su Hsu] & Hc). left. assert (u ≠ v) by congruence.
        apply Hlive in Hsu; [|done]. split_and!; try done; [by eexists|].
        rewrite Hnew in Hc. rewrite bool_decide_true in Hc
          by (destruct Hsu as [Hsu _]; apply max_version_upper in Hsu; lia).
        destruct (sv_Destroyed sv); simpl in *; lia.
      * right. split; [|unfold r1; by rewrite lookup_insert_ne].
        intros (-> & _ & [su Hsu] & Hc). apply Hd. assert (u ≠ v) by congruence.
        split_and!; [done|exists su; by apply Hlive|]. rewrite Hnew.
        rewrite bool_decide_true by (destruct Hsu as [Hsu _]; apply max_version_upper in Hsu; lia).
        destruct (sv_Destroyed sv); simpl in *; lia.
  - split; [by unfold r1; rewrite lookup_insert_eq|]. intros Hne. right. split; [lia|].
    unfold r1. by rewrite lookup_insert_ne.
Qed.

Lemma PutAtomic_ok r sv cas maxv r' v : secrets_wf r → PutAtomic r sv cas maxv = Ok (r', v) →
  cas_holds r (sv_Path sv) cas ∧ v = max_version r (sv_Path sv) + 1 ∧ v ≤ max_int ∧
  SecretVersion_Validate (sv_with_version sv v) = Ok tt ∧
  r' = (let r1 := <[(sv_Path sv, v) := sv_with_version sv v]> r in
        if 0 <? maxv then trimVersionsLocked r1 (sv_Path sv) maxv else r1).
Proof.
  intros Hwf H. unfold PutAtomic in H. inv_res. bool_props.
  destruct (SecretVersion_Validate _) as [[]|] eqn:Ev; [|done]. case_match; [done|].
  assert (Hb := max_version_bound r (sv_Path sv) Hwf).
  injection H as <- <-. assert (Hp := validate_version_pos _ _ Ev).
  assert (Hn := nextVersionLocked_eq r (sv_Path sv) Hwf). rewrite Hn in Hp.
  split; [by apply cas_matches_spec|].
  destruct (Z.eqb_spec (max_version r (sv_Path sv)) max_int); [lia|]. rewrite Hn in *. split_and!; try done; lia.
Qed.

Lemma put_wf r sv v maxv : secrets_wf r → SecretVersion_Validate (sv_with_version sv v) = Ok tt → v ≤ max_int →
  secrets_wf (let r1 := <[(sv_Path sv, v) := sv_with_version sv v]> r in
              if 0 <? maxv then trimVersionsLocked r1 (sv_Path sv) maxv else r1).
Proof.
  intros Hwf Hv Hle. assert (secrets_wf (<[(sv_Path sv, v) := sv_with_version sv v]> r)).
  { by apply (secrets_wf_insert r (sv_with_version sv v)). }
  simpl. case_match; [by apply secrets_wf_trim|done].
Qed.

Lemma max_version_mono r r' path :
  (∀ sv, r !! (path, max_version r path) = Some sv → ∃ v sv', max_version r path ≤ v ∧ r' !! (path, v) = Some sv') →
  max_version r path ≤ max_version r' path.
Proof.
  intros H. destruct (max_version_cases r path) as [->|[sv Hsv]]; [apply max_version_nonneg|].
  destruct (H _ Hsv) as (v & sv' & Hle & Hv). apply max_version_upper in Hv. lia.
Qed.

Lemma max_version_insert r p v sv path : max_version r path ≤ max_version (<[(p, v) := sv]> r) path.
Proof.
  apply max_version_mono. intros sv' H. exists (max_version r path).
  destruct (decide ((p, v) = (path, max_version r path))) as [<-|?]; eexists; (split; [done|]).
  - apply lookup_insert_eq.
  - by rewrite lookup_insert_ne.
Qed.

(** Every operation keeps the invariant, never lowers the largest version of a
    path, and a write is numbered above it. *)
Lemma secret_op_step_ok r o r' out : secrets_wf r → op_int64 o → secret_op_step r o = Ok (r', out) →
  secrets_wf r' ∧ (∀ p, max_version r p ≤ max_version r' p) ∧
  (∀ p v, out = Some (p, v) → max_version r p < v ≤ max_version r' p).
Proof.
  intros Hwf Hint H. destruct o as [sv|sv cas maxv|path v dek|path v]; simpl in *.
  - apply res_bind_ok in H as (r1 & H & [= <- <-]). unfold SaveVersion in H.
    destruct (SecretVersion_Validate sv) as [[]|] eqn:Ev; [|done]. case_match; [done|]. inv_res.
    split_and!; [by apply secrets_wf_insert|intros; apply max_version_insert|done].
  - apply res_bind_ok in H as ([r1 v] & H & [= <- <-]). simpl.
    apply PutAtomic_ok in H as (_ & Hv & Hle & Hval & ->); [|done].
    assert (Hlt : max_version r (sv_Path sv) < v) by lia.
    assert (Hput := λ p u, put_lookup r sv maxv v p u Hlt). simpl in Hput.
    split_and!; [by apply put_wf| |].
    + intros p. apply max_version_mono. intros s Hs.
      destruct (decide ((p, max_version r p) = (sv_Path sv, v))) as [[= -> ?]|Hne]; [lia|].
      destruct (Hput p (max_version r p)) as [Hnew [(-> & _ & _)|[_ Hk]]]; [done| |].
      * exists v. eexists. split; [lia|]. exact Hnew.
      * exists (max_version r p), s. split; [done|]. by etrans; [apply Hk|].
    + intros p w [= <- <-]. split; [lia|]. eapply max_version_upper. apply (Hput "" 0).
  - apply res_bind_ok in H as (r1 & H & [= <- <-]). unfold UpdateDEKEnc in H. inv_res.
    destruct (r !! (path, v)) as [sv|] eqn:E; [|done]. inv_res.
    destruct (wf_version _ _ _ _ Hwf E) as (<- & <- & Hr & Hval).
    split_and!; [|intros; apply max_version_insert|done].
    apply (secrets_wf_insert r (sv_with_dek sv dek)); [done| |simpl; lia].
    unfold SecretVersion_Validate in *. simpl. inv_res. bool_props.
    rewrite !res_bind_unit_ok, !reject_ok, !bool_decide_false by done.
    split_and!; try done. by apply Z.ltb_ge.
  - apply res_bind_ok in H as (r1 & H & [= <- <-]). unfold DestroyVersion in H.
    destruct (r !! (path, v)) as [sv|] eqn:E; [|done]. case_match; [done|]. inv_res.
    destruct (wf_version _ _ _ _ Hwf E) as (<- & <- & Hr & Hval).
    split_and!; [|intros; apply max_version_insert|done].
    apply (secrets_wf_insert r (sv_destroy sv)); [done|exact Hval|simpl; lia].
Qed.

(** ** Theorems *)

(** A read of a path returns the newest version that is not destroyed,
    and reports not-found exactly when there is none. *)
Theorem GetLatest_correct r path : secrets_wf r →
  match GetLatest r path with
  | Ok sv => live r path (sv_Version sv) sv ∧ ∀ v sv', live r path v sv' → v ≤ sv_Version sv
  | Err e => e = New ErrCodeNotFound "secret version not found" ∧ ∀ v sv, ¬ live r path v sv
  end.
Proof.
  intros Hwf. assert (H := latest_spec r path Hwf). unfold GetLatest, latestNonDestroyedLocked in *.
  by destruct (foldl _ _ _).
Qed.

(** C11. A write is a compare-and-set with retention. When the expected version
    is the newest live one (or none is given) and the value is valid, it is
    stored under the next version number, every other path is untouched, and
    of the same path exactly the live versions with at least [maxVersions]
    newer live ones disappear; otherwise the error says which check failed
    and nothing is stored. The "already exists" error cannot happen. *)
Theorem PutAtomic_correct r sv cas maxv : secrets_wf r →
  match PutAtomic r sv cas maxv with
  | Ok (r', v) =>
    cas_holds r (sv_Path sv) cas ∧ v = max_version r (sv_Path sv) + 1 ∧ secrets_wf r' ∧
    r' !! (sv_Path sv, v) = Some (sv_with_version sv v) ∧
    ∀ p u, (p, u) ≠ (sv_Path sv, v) →
      (p = sv_Path sv ∧ trimmed_by r sv maxv u ∧ r' !! (p, u) = None) ∨
      (¬ (p = sv_Path sv ∧ trimmed_by r sv maxv u) ∧ r' !! (p, u) = r !! (p, u))
  | Err e =>
    (¬ cas_holds r (sv_Path sv) cas ∧ e = New ErrCodeValidation "cas version mismatch") ∨
    (cas_holds r (sv_Path sv) cas ∧
     ∃ cause, e = Wrap ErrCodeValidation "invalid secret version" cause ∧
       (max_version r (sv_Path sv) = max_int ∨
        SecretVersion_Validate (sv_with_version sv (max_version r (sv_Path sv) + 1)) = Err cause))
  end.
Proof.
  intros Hwf. destruct (PutAtomic r sv cas maxv) as [[r' v]|e] eqn:E.
  - apply PutAtomic_ok in E as (Hc & Hv & Hle & Hval & ->); [|done].
    assert (Hput := λ p u, put_lookup r sv maxv v p u ltac:(lia)). simpl in Hput.
    split_and!; [done|done|by apply put_wf|apply (Hput "" 0)|apply Hput].
  - unfold PutAtomic in E. destruct (cas_matches r (sv_Path sv) cas) eqn:Ec; simpl in E.
    + right. apply cas_matches_spec in Ec; [|done]. split; [done|].
      assert (Hn := nextVersionLocked_eq r (sv_Path sv) Hwf).
      destruct (SecretVersion_Validate _) as [[]|cause] eqn:Ev; simpl in E.
      * assert (Hp := validate_version_pos _ _ Ev).
        destruct (Z.eqb_spec (max_version r (sv_Path sv)) max_int); [lia|].
        rewrite Hn, next_version_fresh in E by lia. done.
      * injection E as <-. exists cause. split; [done|].
        destruct (Z.eqb_spec (max_version r (sv_Path sv)) max_int); [by left|right]. by rewrite <-Hn.
    + left. injection E as <-. split; [|done]. rewrite <-cas_matches_spec by done. by rewrite Ec.
Qed.

(** C12. Version numbers are never reused: over any sequence of stores,
    writes, key updates and destructions (failed calls included), with any
    retention limits, the numbers handed out for a path strictly increase
    and lie above every number the path had before; the store invariant
    holds throughout. *)
Theorem secret_versions_never_reused r os : secrets_wf r → Forall op_int64 os →
  let '(r', vs) := secret_run r os in
  secrets_wf r' ∧ (∀ p, max_version r p ≤ max_version r' p) ∧
  ∀ p, StronglySorted Z.lt (snd <$> filter (λ x, x.1 = p) vs) ∧
       ∀ v, (p, v) ∈ vs → max_version r p < v ≤ max_version r' p.
Proof.
  intros Hwf Hint. revert r Hwf. induction Hint as [|o os Ho Hos IH]; intros r Hwf; simpl.
  { split_and!; try done. intros p. split; [constructor|set_solver]. }
  destruct (secret_op_step r o) as [[r1 out]|] eqn:E; [|by apply IH].
  destruct (secret_op_step_ok _ _ _ _ Hwf Ho E) as (Hwf1 & Hm & Hv). specialize (IH _ Hwf1).
  destruct (secret_run r1 os) as [r' ws] eqn:Er. destruct IH as (Hwf' & Hm' & Hs).
  assert (Hmm : ∀ p, max_version r p ≤ max_version r' p) by (intros p; specialize (Hm p); specialize (Hm' p); lia).
  assert (Hrange : ∀ p v, (p, v) ∈ ws → max_version r p < v ≤ max_version r' p).
  { intros p v Hin. specialize (Hm p). apply (Hs p) in Hin. lia. }
  destruct out as [[q w]|]; [|split_and!; [done|done|]; intros p; split; [apply Hs|apply Hrange]].
  specialize (Hv _ _ eq_refl). split_and!; [done|done|]. intros p. split.
  - rewrite filter_cons. case_decide as Hp; simpl in *; [subst|apply Hs].
    constructor; [apply Hs|]. apply List.Forall_forall. intros x Hx%list_elem_of_In.
    apply list_elem_of_fmap in Hx as ([p' x'] & -> & [Hp' Hin]%list_elem_of_filter). simpl in *. subst.
    apply (Hs p) in Hin. lia.
  - intros v [[= -> ->]|Hin]%elem_of_cons; [|by apply Hrange]. specialize (Hm' q). lia.
Qed.

(** Concrete inputs. *)
Definition sample_secret (path : string) (v : Z) : SecretVersion :=
  mkSecretVersion 1%N path v ["d"%char] ["k"%char] None None 0 None false ∅.
Definition sample_store : SecretRepository := <[("app", 1) := sample_secret "app" 1]> ∅.

Lemma sample_store_wf : secrets_wf sample_store.
Proof. apply (secrets_wf_insert ∅ (sample_secret "app" 1)); [apply map_Forall_empty|done|done]. Qed.

Lemma GetLatest_correct_witness :
  secrets_wf sample_store ∧ GetLatest sample_store "app" = Ok (sample_secret "app" 1) ∧
  live sample_store "app" 1 (sample_secret "app" 1).
Proof.
  split; [apply sample_store_wf|].
  assert (H := GetLatest_correct sample_store "app" sample_store_wf).
  assert (E : GetLatest sample_store "app" = Ok (sample_secret "app" 1)) by (by vm_compute).
  rewrite E in H. split; [exact E|apply H].
Defined.

Lemma PutAtomic_correct_witness : ∃ r',
  PutAtomic sample_store (sample_secret "app" 0) (Some 1) 1 = Ok (r', 2) ∧ secrets_wf r' ∧
  r' !! ("app", 2) = Some (sample_secret "app" 2) ∧ r' !! ("app", 1) = None.
Proof.
  assert (H := PutAtomic_correct sample_store (sample_secret "app" 0) (Some 1) 1 sample_store_wf).
  assert (Hn : match PutAtomic sample_store (sample_secret "app" 0) (Some 1) 1 with
               | Ok (r', v) => v = 2 ∧ r' !! ("app", 1) = None | Err _ => False end).
  { vm_compute. split; reflexivity. }
  destruct (PutAtomic _ _ _ _) as [[r' v]|e]; [|destruct Hn]. destruct Hn as [-> Hn].
  destruct H as (_ & _ & Hwf & H & _). exists r'. split; [reflexivity|]. split; [exact Hwf|]. by split; [exact H|].
Defined.

Lemma secret_versions_never_reused_witness :
  let os := [OpPutAtomic (sample_secret "app" 0) None 1; OpDestroyVersion "app" 2;
             OpPutAtomic (sample_secret "app" 0) None 1] in
  Forall op_int64 os ∧ (secret_run sample_store os).2 = [("app", 2); ("app", 3)] ∧
  secrets_wf (secret_run sample_store os).1.
Proof.
  intros os. assert (H : Forall op_int64 os) by (by repeat constructor).
  split; [done|]. split; [by vm_compute|].
  assert (Hrun := secret_versions_never_reused sample_store os sample_store_wf H).
  destruct (secret_run sample_store os). apply Hrun.
Defined.

(** ** What the engines over the store use *)

(** A successful write is what a read of the path then finds; other paths are
    as before. *)
Lemma PutAtomic_read r sv cas maxv r' v : secrets_wf r → sv_Destroyed sv = false → PutAtomic r sv cas maxv = Ok (r', v) →
  secrets_wf r' ∧ v = max_version r (sv_Path sv) + 1 ∧ GetLatest r' (sv_Path sv) = Ok (sv_with_version sv v) ∧
  GetVersion r' (sv_Path sv) v = Ok (sv_with_version sv v) ∧
  (∀ p u, p ≠ sv_Path sv → r' !! (p, u) = r !! (p, u)) ∧
  (∀ u su, r' !! (sv_Path sv, u) = Some su → u ≤ v).
Proof.
  intros Hwf Hd (Hc & Hv & Hle & Hval & Hr)%PutAtomic_ok; [|done].
  assert (Hput := λ p u, put_lookup r sv maxv v p u ltac:(lia)). simpl in Hput, Hr. rewrite <-Hr in Hput.
  assert (Hwf' : secrets_wf r') by (rewrite Hr; by apply (put_wf r sv v maxv)).
  destruct (Hput "" 0) as [Hnew _].
  assert (Hother : ∀ p u su, (p, u) ≠ (sv_Path sv, v) → r' !! (p, u) = Some su → r !! (p, u) = Some su).
  { intros p u su Hne Hl. destruct (proj2 (Hput p u) Hne) as [(_ & _ & E)|(_ & E)]; congruence. }
  assert (Hup : ∀ u su, r' !! (sv_Path sv, u) = Some su → u ≤ v).
  { intros u su Hl. destruct (decide (u = v)) as [->|Hne]; [done|].
    assert (H := max_version_upper r _ _ _ (Hother (sv_Path sv) u su ltac:(congruence) Hl)). lia. }
  split_and!; [done|done| | | |done].
  - assert (Hs := latest_spec r' (sv_Path sv) Hwf'). unfold GetLatest. fold (latestNonDestroyedLocked r' (sv_Path sv)).
    destruct (latestNonDestroyedLocked r' (sv_Path sv)) as [m|].
    + destruct Hs as [[Hm _] Hmax]. assert (Hmv : sv_Version m = v).
      { assert (v ≤ sv_Version m) by (by eapply Hmax; split; [exact Hnew|]). specialize (Hup _ _ Hm). lia. }
      rewrite Hmv, Hnew in Hm. congruence.
    + by destruct (Hs v (sv_with_version sv v)).
  - unfold GetVersion. by rewrite Hnew.
  - intros p u Hp. destruct (proj2 (Hput p u)) as [(-> & _)|(_ & E)]; congruence.
Qed.

(** A valid value is stored when the expected version matches and a number is
    left. *)
Lemma PutAtomic_succeeds r sv cas maxv : secrets_wf r → cas_matches r (sv_Path sv) cas = true →
  sv_ID sv ≠ uuid_Nil → sv_Path sv ≠ "" → sv_DataEnc sv ≠ [] → sv_DEKEnc sv ≠ [] → max_version r (sv_Path sv) < max_int →
  ∃ r' v, PutAtomic r sv cas maxv = Ok (r', v).
Proof.
  intros Hwf Hc Hid Hp Hde Hdk Hmax. unfold PutAtomic. rewrite Hc, nextVersionLocked_eq by done. cbn [negb reject mbind res_bind].
  destruct (Z.eqb_spec (max_version r (sv_Path sv)) max_int) as [|_]; [lia|]. assert (Hn := max_version_nonneg r (sv_Path sv)).
  unfold SecretVersion_Validate, is_nil_uuid. cbn [sv_ID sv_Path sv_Version sv_DataEnc sv_DEKEnc sv_with_version].
  rewrite !bool_decide_eq_false_2 by done. replace (max_version r (sv_Path sv) + 1 <? 1) with false by (symmetry; apply Z.ltb_ge; lia).
  cbn. rewrite next_version_fresh by lia. eauto.
Qed.

(** A write that keeps one version leaves it as the only live one. *)
Lemma PutAtomic_sole r sv cas r' v : secrets_wf r → sv_Destroyed sv = false → PutAtomic r sv cas 1 = Ok (r', v) →
  ∀ u su, live r' (sv_Path sv) u su → u = v ∧ su = sv_with_version sv v.
Proof.
  intros Hwf Hd Hput u su [Hl Hf]. destruct (PutAtomic_ok _ _ _ _ _ _ Hwf Hput) as (_ & Hv & _ & _ & Hr). simpl in Hr.
  destruct (put_lookup r sv 1 v (sv_Path sv) u ltac:(lia)) as [Hnew Hold]. simpl in Hnew, Hold. rewrite <-Hr in Hnew, Hold.
  destruct (decide (u = v)) as [->|Hne]; [split; congruence|].
  destruct Hold as [(_ & _ & E)|[Hn E]]; [congruence|congruence|]. destruct Hn. split; [done|].
  split_and!; [lia|exists su; split; congruence|]. rewrite Hd. lia.
Qed.

Lemma DestroyVersion_ok r path v r' : secrets_wf r → DestroyVersion r path v = Ok r' →
  ∃ sv, r !! (path, v) = Some sv ∧ sv_Destroyed sv = false ∧ r' = <[(path, v) := sv_destroy sv]> r ∧ secrets_wf r'.
Proof.
  intros Hwf. unfold DestroyVersion. destruct (r !! (path, v)) as [sv|] eqn:E; [|done].
  destruct (sv_Destroyed sv) eqn:Ed; [done|]. intros [= <-]. exists sv. split_and!; try done.
  destruct (Hwf _ _ E) as (Hk & Hv & Hm). injection Hk as -> ->.
  by apply (secrets_wf_insert r (sv_destroy sv)).
Qed.

(** What a listing holds. *)
Lemma ListByPath_elem r pref sv : secrets_wf r →
  sv ∈ ListByPath r pref ↔ r !! (sv_Path sv, sv_Version sv) = Some sv ∧ HasPrefix (sv_Path sv) pref = true.
Proof.
  intros Hr. unfold ListByPath. rewrite merge_sort_Permutation, list_elem_of_filter. rewrite (and_comm (HasPrefix _ _ = true)).
  apply and_iff_compat_r. rewrite elem_of_map_values. split.
  - intros [[p v] Hl]. by destruct (Hr _ _ Hl) as ([= -> ->] & _).
  - intros Hl. by eexists.
Qed.

(** The newest version depends on the live versions of the path only. *)
Lemma GetLatest_live r r' p : secrets_wf r → secrets_wf r' → (∀ v sv, live r' p v sv ↔ live r p v sv) → GetLatest r' p = GetLatest r p.
Proof.
  intros Hr Hr' Hl. assert (H1 := latest_spec r p Hr). assert (H2 := latest_spec r' p Hr').
  unfold GetLatest. fold (latestNonDestroyedLocked r p). fold (latestNonDestroyedLocked r' p).
  destruct (latestNonDestroyedLocked r p) as [m|], (latestNonDestroyedLocked r' p) as [m'|]; try done.
  - destruct H1 as [Hm Hmax], H2 as [Hm' Hmax']. assert (E : sv_Version m = sv_Version m').
    { assert (H1 := Hmax (sv_Version m') m'). assert (H2 := Hmax' (sv_Version m) m). rewrite Hl in H2. apply Hl in Hm'.
      specialize (H1 Hm'). specialize (H2 Hm). lia. }
    apply Hl in Hm'. rewrite E in Hm. destruct Hm as [Hm _], Hm' as [Hm' _]. congruence.
  - destruct H1 as [Hm _]. apply Hl in Hm. by destruct (H2 _ _ Hm).
  - destruct H2 as [Hm _]. apply Hl in Hm. by destruct (H1 _ _ Hm).
Qed.

Lemma GetLatest_same r r' p : secrets_wf r → secrets_wf r' → (∀ v, r' !! (p, v) = r !! (p, v)) → GetLatest r' p = GetLatest r p.
Proof. intros Hr Hr' Hsame. apply GetLatest_live; [done..|]. intros v sv. unfold live. by rewrite Hsame. Qed.
