(* ===== verification/KVEngine.v ===== *)
(** The KV version 2 engine, internal/engine/secrets/kvv2.go, over the secret
    store and envelope encryption; the paths of the other engines in the same
    store are closed to it.

    The repository is the state and is threaded through; the engine is fully
    configured. JSON is a parameter ([Json]), so is [time.ParseDuration]. The
    reading of the clock, the fresh identifier and the random bytes of a write
    are arguments. *)

From S2P Require Import Prelude.
From S2P Require Import GoLib.
From S2P Require Import Domain.
From S2P Require Import DynamicRoles.
From S2P Require Import SecretRepo.
From S2P Require Import Crypto.
From S2P Require Import Ttl.

#[local] Open Scope Z_scope.

(** A [map[string]any] as its members in the order of encoding. *)
Abbreviation object := (list (string * any)) (only parsing).

Class Json := {
  json_marshal : object → res bytes;
  json_unmarshal : bytes → res object;
}.

(** What is encoded decodes to what it was. *)
Class JsonLaws `{Json} := {
  json_roundtrip : ∀ d b, json_marshal d = Ok b → json_unmarshal b = Ok d;
}.

Definition reservedKVPathPrefixes : list string :=
  ["cubbyhole/"; "sys/wrapping/"; "sys/internal/"; "database/creds/"; "ssh/creds/"; "transit/keys/"].

Definition rejectReservedKVPath (path : string) : res unit :=
  let p := TrimPrefix (ToLower (TrimSpace path)) "/" in
  if p =s "" then Ok tt
  else reject (existsb (λ pref, (p =s TrimSuffix pref "/") || HasPrefix p pref) reservedKVPathPrefixes)
         (New ErrCodeForbidden "path is reserved for an internal engine").

Definition defaultMaxVersions : Z := 10.

Record PutOptions := mkPutOptions {
  po_TTL : string;
  po_CasVersion : option Z;
  po_MaxVersions : Z;
  po_Labels : gmap string string;
}.

Record GetResult := mkGetResult {
  gr_Data : object;
  gr_Version : Z;
  gr_CreatedAt : Time;
  gr_TTL : string;
  gr_Labels : gmap string string;
}.

Record VersionMetadata := mkVersionMetadata {
  vm_Version : Z;
  vm_CreatedAt : Time;
  vm_Destroyed : bool;
  vm_TTL : string;
}.

Record PathMetadata := mkPathMetadata {
  pm_Path : string;
  pm_CurrentVersion : Z;
  pm_Versions : list VersionMetadata;
  pm_MaxVersions : Z;
  pm_Labels : gmap string string;
}.

(** [fmt.Sprintf("%ds", *ttl)], empty without a TTL. *)
Definition ttl_string (ttl : option Z) : string := match ttl with Some n => Itoa n +:+ "s" | None => "" end.

Section engine.
Context `{Aead} `{Json} (parse_duration : string → option Duration).

(** The [TTLSeconds] and [ExpiresAt] of a write. *)
Definition ttl_fields (now : Time) (ttl : string) : res (option Z * option Time) :=
  if ttl =s "" then Ok (None, None)
  else match ParseTTL parse_duration ttl with
       | Err e => Err (Wrap ErrCodeValidation "invalid ttl" e)
       | Ok d => Ok (Some (Seconds d), Some (now + d))
       end.

Definition KV_Put (r : SecretRepository) (k : KeyRing) (id : UUID) (now : Time) (rnd : Entropy)
    (path : string) (data : object) (opts : PutOptions) : res (SecretRepository * Z) :=
  _ ← reject (path =s "") (New ErrCodeValidation "secret path is required");
  _ ← rejectReservedKVPath path;
  _ ← reject (bool_decide (length data = 0%nat)) (New ErrCodeValidation "secret data is required");
  payload ← match json_marshal data with Ok b => Ok b | Err e => Err (Wrap ErrCodeInternal "marshal secret data" e) end;
  ce ← match Seal k rnd payload with Ok x => Ok x | Err e => Err (Wrap ErrCodeInternal "encrypt secret data" e) end;
  ttl ← ttl_fields now (po_TTL opts);
  let sv := mkSecretVersion id path 0 ce.1 ce.2 None ttl.1 now ttl.2 false (po_Labels opts) in
  let maxVersions := if po_MaxVersions opts <=? 0 then defaultMaxVersions else po_MaxVersions opts in
  PutAtomic r sv (po_CasVersion opts) maxVersions.

Definition KV_GetVersion (r : SecretRepository) (k : KeyRing) (now : Time) (path : string) (version : Z) : res GetResult :=
  _ ← rejectReservedKVPath path;
  sv ← (if version <=? 0 then GetLatest r path else GetVersion r path version);
  _ ← reject (sv_Destroyed sv) (New ErrCodeNotFound "secret version destroyed");
  _ ← reject (match sv_ExpiresAt sv with Some t => After now t | None => false end)
        (New ErrCodeNotFound "secret version expired");
  plain ← match Open k (sv_DataEnc sv) (sv_DEKEnc sv) with Ok p => Ok p | Err e => Err (Wrap ErrCodeInternal "decrypt secret data" e) end;
  data ← match json_unmarshal plain with Ok d => Ok d | Err e => Err (Wrap ErrCodeInternal "unmarshal secret data" e) end;
  Ok (mkGetResult data (sv_Version sv) (sv_CreatedAt sv) (ttl_string (sv_TTLSeconds sv)) (sv_Labels sv)).

Definition KV_Get (r : SecretRepository) (k : KeyRing) (now : Time) (path : string) : res GetResult :=
  KV_GetVersion r k now path 0.
End engine.

Definition KV_DestroyVersion (r : SecretRepository) (path : string) (version : Z) : res SecretRepository :=
  _ ← reject ((path =s "") || (version <? 1)) (New ErrCodeValidation "path and version are required");
  _ ← rejectReservedKVPath path;
  DestroyVersion r path version.

(** The loop of [ListPaths]: paths in order, each once, none reserved. *)
Definition add_path (paths : list string) (sv : SecretVersion) : list string :=
  if negb (is_ok (rejectReservedKVPath (sv_Path sv))) then paths
  else if bool_decide (sv_Path sv ∈ paths) then paths
  else paths ++ [sv_Path sv].

Definition KV_ListPaths (r : SecretRepository) (prefix : string) : res (list string) :=
  _ ← rejectReservedKVPath prefix;
  Ok (foldl add_path [] (ListByPath r prefix)).

Definition version_metadata (sv : SecretVersion) : VersionMetadata :=
  mkVersionMetadata (sv_Version sv) (sv_CreatedAt sv) (sv_Destroyed sv) (ttl_string (sv_TTLSeconds sv)).

Definition KV_ListVersions (r : SecretRepository) (path : string) : res (list VersionMetadata) :=
  _ ← rejectReservedKVPath path;
  let out := version_metadata <$> filter (λ sv, sv_Path sv = path) (ListByPath r path) in
  _ ← reject (bool_decide (length out = 0%nat)) (New ErrCodeNotFound "secret path not found");
  Ok out.

Definition current_step (cur : Z) (v : VersionMetadata) : Z :=
  if (cur <? vm_Version v) && negb (vm_Destroyed v) then vm_Version v else cur.

Definition KV_GetMetadata (r : SecretRepository) (path : string) (version : Z) : res PathMetadata :=
  versions ← KV_ListVersions r path;
  let current := foldl current_step 0 versions in
  _ ← reject ((0 <? version) && negb (existsb (λ v, vm_Version v =? version) versions))
        (New ErrCodeNotFound "secret version not found");
  let target := if 0 <? version then version else current in
  let labels := if 0 <? target then match GetVersion r path target with Ok sv => sv_Labels sv | Err _ => ∅ end else ∅ in
  Ok (mkPathMetadata path current versions defaultMaxVersions labels).

Definition KV_Delete (r : SecretRepository) (path : string) : res SecretRepository :=
  _ ← rejectReservedKVPath path;
  latest ← GetLatest r path;
  DestroyVersion r path (sv_Version latest).

(** ** Separation from the other engines *)

(** The paths the other engines store under. *)
Definition internal_path (p : string) : Prop := ∃ pref, pref ∈ reservedKVPathPrefixes ∧ HasPrefix p pref = true.

Lemma internal_path_rejected p : internal_path p →
  rejectReservedKVPath p = Err (New ErrCodeForbidden "path is reserved for an internal engine").
Proof.
  intros (pref & Hin & (t & ->)%HasPrefix_spec).
  assert (Hq : ∃ c q, pref = String c q +:+ "/" ∧ IsSpace c = false ∧ c ≠ "/"%char ∧ ToLower (String c q) = String c q).
  { repeat (apply elem_of_cons in Hin as [->|Hin]); [..|by apply not_elem_of_nil in Hin].
    1: exists "c"%char, "ubbyhole". 2: exists "s"%char, "ys/wrapping". 3: exists "s"%char, "ys/internal".
    4: exists "d"%char, "atabase/creds". 5: exists "s"%char, "sh/creds". 6: exists "t"%char, "ransit/keys".
    all: split_and!; done. }
  destruct Hq as (c & q & -> & Hc & Hs & Hlow). rewrite str_app_assoc. change ("/" +:+ t) with (String "/" t).
  unfold rejectReservedKVPath, TrimSpace. set (u := ToLower (TrimRight t)).
  assert (Ht : TrimPrefix (ToLower (TrimRight (TrimLeft (String c q +:+ String "/" t)))) "/" = String c q +:+ String "/" u).
  { replace (TrimLeft (String c q +:+ String "/" t)) with (String c q +:+ String "/" t) by (cbn; by rewrite Hc).
    rewrite TrimRight_app_nonspace, ToLower_app, Hlow by done. change (ToLower (String "/" (TrimRight t))) with (String "/" u).
    unfold TrimPrefix. cbn [String.append HasPrefix]. by rewrite bool_decide_eq_false_2 by congruence. }
  rewrite Ht. rewrite bool_decide_eq_false_2 by done.
  replace (existsb _ _) with true; [done|]. symmetry. apply existsb_elem. exists (String c q +:+ "/"). split; [done|].
  apply orb_true_iff. right. apply HasPrefix_spec. exists u. by rewrite str_app_assoc.
Qed.

Lemma accepted_not_internal p : rejectReservedKVPath p = Ok tt → ¬ internal_path p.
Proof. intros H Hp. by rewrite internal_path_rejected in H. Qed.

Section kv_theorems.
Context {aead : Aead} {laws : AeadLaws} {json : Json} {json_laws : JsonLaws} (parse_duration : string → option Duration).
Implicit Types (r : SecretRepository) (path : string).

Lemma KV_Put_ok r k id now rnd path data opts r' v :
  KV_Put parse_duration r k id now rnd path data opts = Ok (r', v) →
  rejectReservedKVPath path = Ok tt ∧ ∃ payload c enc ttl, json_marshal data = Ok payload ∧ Seal k rnd payload = Ok (c, enc) ∧
    ttl_fields parse_duration now (po_TTL opts) = Ok ttl ∧
    PutAtomic r (mkSecretVersion id path 0 c enc None ttl.1 now ttl.2 false (po_Labels opts)) (po_CasVersion opts)
      (if po_MaxVersions opts <=? 0 then defaultMaxVersions else po_MaxVersions opts) = Ok (r', v).
Proof.
  unfold KV_Put. intros Hp. apply res_bind_unit_ok in Hp as [_ Hp]. apply res_bind_unit_ok in Hp as [Hrej Hp].
  apply res_bind_unit_ok in Hp as [_ Hp]. split; [done|]. destruct (json_marshal data) as [payload|] eqn:Hj; simpl in Hp; [|done].
  destruct (Seal k rnd payload) as [[c enc]|] eqn:Hs; simpl in Hp; [|done].
  apply res_bind_ok in Hp as (ttl & Ht & Hp). by exists payload, c, enc, ttl.
Qed.

(** A write, a destruction or a deletion through the engine. *)
Inductive kv_op :=
  | KvPut (k : KeyRing) (id : UUID) (now : Time) (rnd : Entropy) path (data : object) (opts : PutOptions)
  | KvDestroy path (version : Z)
  | KvDelete path.

Definition kv_step r (o : kv_op) : res SecretRepository :=
  match o with
  | KvPut k id now rnd path data opts => fst <$> KV_Put parse_duration r k id now rnd path data opts
  | KvDestroy path v => KV_DestroyVersion r path v
  | KvDelete path => KV_Delete r path
  end.

Lemma kv_step_ok r o r' : secrets_wf r → kv_step r o = Ok r' →
  secrets_wf r' ∧ ∃ path, rejectReservedKVPath path = Ok tt ∧ ∀ p u, p ≠ path → r' !! (p, u) = r !! (p, u).
Proof.
  intros Hwf. destruct o as [k id now rnd path data opts|path v|path]; simpl.
  - destruct (KV_Put _ _ _ _ _ _ _ _ _) as [[r1 v]|] eqn:Hp; [|done]. intros [= <-].
    apply KV_Put_ok in Hp as (Hrej & payload & c & enc & ttl & _ & _ & _ & Hput).
    apply PutAtomic_read in Hput as (Hwf' & _ & _ & _ & Hother & _); [|done|done]. split; [done|]. exists path. done.
  - unfold KV_DestroyVersion. intros Hd. apply res_bind_unit_ok in Hd as [_ Hd]. apply res_bind_unit_ok in Hd as [Hrej Hd].
    apply DestroyVersion_ok in Hd as (sv & _ & _ & -> & Hwf'); [|done]. split; [done|]. exists path. split; [done|].
    intros p u Hp. by rewrite lookup_insert_ne by congruence.
  - unfold KV_Delete. intros Hd. apply res_bind_unit_ok in Hd as [Hrej Hd]. apply res_bind_ok in Hd as (m & _ & Hd).
    apply DestroyVersion_ok in Hd as (sv & _ & _ & -> & Hwf'); [|done]. split; [done|]. exists path. split; [done|].
    intros p u Hp. by rewrite lookup_insert_ne by congruence.
Qed.

(** The public KV interface cannot touch what the other engines keep in
    the same store: no write, destruction or deletion changes an internal path,
    every read of one is refused, and no listing, whatever its prefix, shows
    one. *)
Theorem kv_internal_paths_closed r p :
  secrets_wf r → internal_path p →
  (∀ o r' u, kv_step r o = Ok r' → r' !! (p, u) = r !! (p, u)) ∧
  (∀ k now v, KV_GetVersion r k now p v = Err (New ErrCodeForbidden "path is reserved for an internal engine")) ∧
  (∀ v, KV_GetMetadata r p v = Err (New ErrCodeForbidden "path is reserved for an internal engine")) ∧
  (∀ prefix paths, KV_ListPaths r prefix = Ok paths → p ∉ paths).
Proof.
  intros Hwf Hp. assert (Hrej := internal_path_rejected p Hp). split_and!.
  - intros o r' u Hs. destruct (kv_step_ok r o r' Hwf Hs) as (_ & path & Hacc & Hother). apply Hother.
    intros ->. congruence.
  - intros k now v. unfold KV_GetVersion. by rewrite Hrej.
  - intros v. unfold KV_GetMetadata, KV_ListVersions. by rewrite Hrej.
  - intros prefix paths Hl. unfold KV_ListPaths in Hl. apply res_bind_unit_ok in Hl as [_ [= <-]].
    assert (Hfold : ∀ l acc, p ∉ acc → p ∉ foldl add_path acc l); [|by apply Hfold, not_elem_of_nil].
    intros l. induction l as [|sv l IH]; intros acc Hacc; simpl; [done|]. apply IH. unfold add_path.
    destruct (rejectReservedKVPath (sv_Path sv)) as [[]|] eqn:E; simpl; [|done].
    case_bool_decide; [done|]. rewrite elem_of_app, list_elem_of_singleton. intros [?|Heq]; [done|].
    rewrite Heq in Hrej. congruence.
Qed.

(** ** Reading what was written *)

(** Random bytes of the sizes the code asks for. *)
Definition good_entropy (rnd : Entropy) : Prop :=
  ∃ dek n1 n2, rnd = mkEntropy (Ok dek) (Ok n1) (Ok n2) ∧ len dek = dekSize ∧ length n1 = nonce_size ∧ length n2 = nonce_size.

(** A stored version that was sealed under [k] and carries [data] opens to it. *)
Lemma read_sealed r k k' rnd payload data c enc sv path version now :
  ring_wf k → rtc ring_step k k' → good_entropy rnd → Seal k rnd payload = Ok (c, enc) → json_marshal data = Ok payload →
  sv_DataEnc sv = c → sv_DEKEnc sv = enc → sv_Destroyed sv = false → (kr_legacy k = true → shift_refused k' enc) →
  (∀ t, sv_ExpiresAt sv = Some t → now ≤ t) → rejectReservedKVPath path = Ok tt →
  (if version <=? 0 then GetLatest r path else GetVersion r path version) = Ok sv →
  KV_GetVersion r k' now path version =
    Ok (mkGetResult data (sv_Version sv) (sv_CreatedAt sv) (ttl_string (sv_TTLSeconds sv)) (sv_Labels sv)).
Proof.
  intros Hwf Hst (dek & n1 & n2 & -> & Hd & H1 & H2) Hs Hj Hc He Hdes Hsh Hexp Hrej Hget.
  destruct (Open_later k k' dek n1 n2 payload Hwf Hst Hd H1 H2) as (c' & enc' & Hs' & _ & _ & Ho).
  rewrite Hs in Hs'. injection Hs' as <- <-. unfold KV_GetVersion. rewrite Hrej. cbn [mbind res_bind]. rewrite Hget.
  cbn [mbind res_bind]. rewrite Hdes. cbn [reject mbind res_bind].
  replace (match sv_ExpiresAt sv with Some t => After now t | None => false end) with false.
  2:{ destruct (sv_ExpiresAt sv) as [t|]; [|done]. symmetry. apply Z.ltb_ge. by apply Hexp. }
  cbn [reject mbind res_bind]. rewrite Hc, He, Ho by done. cbn [mbind res_bind]. by rewrite (json_roundtrip _ _ Hj).
Qed.

(** A secret that was written can be read back, as the latest version and
    under the number the write returned, with its labels and TTL, by any later
    state of the key ring and until it expires; the number is one more than any
    the path had before. *)
Theorem kv_put_get r k k' id now rnd path data opts r' v now' :
  secrets_wf r → ring_wf k → rtc ring_step k k' → good_entropy rnd →
  KV_Put parse_duration r k id now rnd path data opts = Ok (r', v) →
  (∀ sv, r' !! (path, v) = Some sv →
     (kr_legacy k = true → shift_refused k' (sv_DEKEnc sv)) ∧ ∀ t, sv_ExpiresAt sv = Some t → now' ≤ t) →
  v = max_version r path + 1 ∧ ∃ ttl,
    KV_Get r' k' now' path = Ok (mkGetResult data v now ttl (po_Labels opts)) ∧
    KV_GetVersion r' k' now' path v = Ok (mkGetResult data v now ttl (po_Labels opts)) ∧
    (po_TTL opts = "" → ttl = "").
Proof.
  intros Hwf Hkw Hst Hrnd Hp Hsv.
  apply KV_Put_ok in Hp as (Hrej & payload & c & enc & ttl & Hj & Hs & Ht & Hput).
  set (sv := mkSecretVersion id path 0 c enc None ttl.1 now ttl.2 false (po_Labels opts)) in *.
  apply PutAtomic_read in Hput as (_ & Hv & Hlat & Hver & _ & _); [|done|done]. split; [done|].
  change (sv_Path sv) with path in *. assert (Hin : r' !! (path, v) = Some (sv_with_version sv v)).
  { unfold GetVersion in Hver. destruct (r' !! (path, v)); congruence. }
  destruct (Hsv _ Hin) as [Hsh Hexp]. exists (ttl_string ttl.1).
  assert (Hpos : (v <=? 0) = false) by (apply Z.leb_gt; assert (H := max_version_nonneg r path); lia).
  split; [|split].
  - unfold KV_Get. by rewrite (read_sealed r' k k' rnd payload data c enc (sv_with_version sv v)).
  - rewrite (read_sealed r' k k' rnd payload data c enc (sv_with_version sv v)); try done. by rewrite Hpos.
  - intros E. unfold ttl_fields in Ht. rewrite E, bool_decide_eq_true_2 in Ht by done. by injection Ht as <-.
Qed.
End kv_theorems.

(** ** Deleting *)

(** Deleting a path destroys its newest live version and nothing else:
    when an older version is live, a read of the path finds that one again,
    although the source's comment says the latest read no longer returns
    data. *)
Theorem kv_delete_correct r path r' : secrets_wf r → KV_Delete r path = Ok r' →
  ∃ m, GetLatest r path = Ok m ∧
    (∀ v sv, live r' path v sv ↔ live r path v sv ∧ v ≠ sv_Version m) ∧
    (∀ v sv, live r path v sv → v < sv_Version m →
       ∃ m', GetLatest r' path = Ok m' ∧ live r path (sv_Version m') m' ∧ v ≤ sv_Version m' < sv_Version m).
Proof.
  intros Hwf. unfold KV_Delete. intros Hd. apply res_bind_unit_ok in Hd as [_ Hd]. apply res_bind_ok in Hd as (m & Hm & Hd).
  apply DestroyVersion_ok in Hd as (sv & Hsv & Hdes & -> & Hwf'); [|done]. exists m. split; [done|].
  assert (Hlat := latest_spec r path Hwf). unfold GetLatest in Hm. fold (latestNonDestroyedLocked r path) in Hm.
  destruct (latestNonDestroyedLocked r path) as [m0|]; [|done]. injection Hm as ->. destruct Hlat as [_ Hmax].
  set (r' := <[(path, sv_Version m) := sv_destroy sv]> r) in *.
  assert (Hlive : ∀ v su, live r' path v su ↔ live r path v su ∧ v ≠ sv_Version m).
  { intros v su. unfold live, r'. destruct (decide (v = sv_Version m)) as [->|Hne].
    - rewrite lookup_insert_eq. split; [intros [[= <-] ?]; done|intros [_ ?]; done].
    - rewrite lookup_insert_ne by congruence. naive_solver. }
  split; [done|]. intros v su Hl Hlt. assert (Hlat' := latest_spec r' path Hwf').
  unfold GetLatest. fold (latestNonDestroyedLocked r' path). destruct (latestNonDestroyedLocked r' path) as [m'|].
  - destruct Hlat' as [Hl' Hmax']. exists m'. split; [done|]. apply Hlive in Hl' as [Hl' Hne].
    assert (H1 := Hmax _ _ Hl'). assert (H2 := Hmax' v su). rewrite Hlive in H2. split; [done|].
    assert (v ≤ sv_Version m') by (apply H2; split; [done|lia]). lia.
  - destruct (Hlat' v su). apply Hlive. split; [done|lia].
Qed.

(** ** Examples *)

#[local] Existing Instance toy_aead.
#[local] Existing Instance toy_laws.

(** A value of a countable type written as the binary digits of its code. *)
Fixpoint pos_bytes (p : positive) : bytes :=
  match p with xH => [] | xO p => "0"%char :: pos_bytes p | xI p => "1"%char :: pos_bytes p end.
Fixpoint bytes_pos (b : bytes) : positive :=
  match b with [] => xH | c :: b => if Ascii.eqb c "0" then xO (bytes_pos b) else xI (bytes_pos b) end.
Lemma bytes_pos_bytes p : bytes_pos (pos_bytes p) = p.
Proof. induction p as [p IH|p IH|]; simpl; by rewrite ?IH. Qed.

(** JSON for objects of one text member. *)
#[local] Instance toy_json : Json := {|
  json_marshal d := match d with [(k, VStr s)] => if k =s "password" then Ok (bytes_of s) else Err (Plain "unsupported") | _ => Err (Plain "unsupported") end;
  json_unmarshal b := Ok [("password", VStr (string_of b))]
|}.
#[local] Instance toy_json_laws : JsonLaws.
Proof.
  split. intros d b. simpl. destruct d as [|[k []] []]; try done. case_bool_decide; [|done]. intros [= <-]. subst.
  by rewrite string_of_bytes.
Qed.

Definition demo_data (s : string) : object := [("password", VStr s)].
Definition demo_entropy : Entropy := mkEntropy (Ok (demo_key "d")) (Ok demo_nonce) (Ok demo_nonce).
Definition demo_opts : PutOptions := mkPutOptions "" None 0 ∅.
Definition demo_put (r : SecretRepository) (s : string) : res (SecretRepository * Z) :=
  KV_Put (λ _, None) r (demo_ring "a") 7 100 demo_entropy "app/db" (demo_data s) demo_opts.
Definition demo_store (s : string) : SecretRepository :=
  match demo_put ∅ s with Ok (r, _) => r | Err _ => ∅ end.

Lemma secrets_wf_empty : secrets_wf ∅.
Proof. apply map_Forall_empty. Qed.

Lemma demo_put_wf r s r' v : secrets_wf r → demo_put r s = Ok (r', v) → secrets_wf r'.
Proof.
  intros Hr Hp. apply (kv_step_ok (λ _, None) r (KvPut (demo_ring "a") 7 100 demo_entropy "app/db" (demo_data s) demo_opts)); [done|].
  unfold kv_step. unfold demo_put in Hp. by rewrite Hp.
Qed.

Lemma demo_put_version r s v : snd <$> demo_put r s = Ok v →
  demo_put r s = Ok (match demo_put r s with Ok (r', _) => r' | Err _ => ∅ end, v).
Proof. destruct (demo_put r s) as [[r' w]|]; simpl; congruence. Qed.

Lemma kv_put_get_witness :
  KV_Get (demo_store "hunter2") (demo_ring "a") 200 "app/db" = Ok (mkGetResult (demo_data "hunter2") 1 100 "" ∅).
Proof.
  destruct (kv_put_get (λ _, None) ∅ (demo_ring "a") (demo_ring "a") 7 100 demo_entropy "app/db" (demo_data "hunter2")
              demo_opts (demo_store "hunter2") 1 200) as (_ & ttl & H & _ & Ht).
  - apply map_Forall_empty.
  - by apply (NewKeyRing_wf (demo_key "a")).
  - reflexivity.
  - exists (demo_key "d"), demo_nonce, demo_nonce. done.
  - apply (demo_put_version ∅ "hunter2" 1). vm_compute. reflexivity.
  - intros sv Hsv.
    assert (E : head <$> (sv_DEKEnc <$> demo_store "hunter2" !! ("app/db", 1)) = Some (Some "n"%char)) by (vm_compute; reflexivity).
    assert (Ex : (sv_ExpiresAt <$> demo_store "hunter2" !! ("app/db", 1)) = Some None) by (vm_compute; reflexivity).
    rewrite Hsv in E, Ex. injection E as E. injection Ex as Ex. split; [|intros t Ht; by rewrite Ex in Ht].
    intros _ v sealed key Hv Hk. rewrite Hv in E. injection E as ->. by vm_compute in Hk.
  - by rewrite H, (Ht eq_refl).
Defined.

Lemma kv_internal_paths_closed_witness :
  KV_GetVersion (demo_store "x") (demo_ring "a") 0 "cubbyhole/t1/response" 1 =
    Err (New ErrCodeForbidden "path is reserved for an internal engine").
Proof.
  apply (kv_internal_paths_closed (λ _, None) (demo_store "x") "cubbyhole/t1/response").
  - apply (demo_put_wf ∅ "x" (demo_store "x") 1); [exact secrets_wf_empty|apply demo_put_version; vm_compute; reflexivity].
  - exists "cubbyhole/". split; [left|done].
Defined.

(** Two writes and a deletion: the first value is what a read then returns. *)
Definition demo_store2 : SecretRepository :=
  match demo_put (demo_store "old") "new" with Ok (r, _) => r | Err _ => ∅ end.
Definition demo_store3 : SecretRepository :=
  match KV_Delete demo_store2 "app/db" with Ok r => r | Err _ => ∅ end.

Lemma kv_delete_correct_witness : ∃ m', GetLatest demo_store3 "app/db" = Ok m' ∧ 1 ≤ sv_Version m' < 2.
Proof.
  assert (Hw2 : secrets_wf demo_store2).
  { apply (demo_put_wf (demo_store "old") "new" demo_store2 2); [|apply demo_put_version; vm_compute; reflexivity].
    apply (demo_put_wf ∅ "old" (demo_store "old") 1); [exact secrets_wf_empty|apply demo_put_version; vm_compute; reflexivity]. }
  assert (Hd : KV_Delete demo_store2 "app/db" = Ok demo_store3).
  { assert (Hok : is_ok (KV_Delete demo_store2 "app/db") = true) by (vm_compute; reflexivity).
    unfold demo_store3. destruct (KV_Delete demo_store2 "app/db"); [reflexivity|discriminate Hok]. }
  assert (Hv : sv_Version <$> GetLatest demo_store2 "app/db" = Ok 2) by (vm_compute; reflexivity).
  assert (Hl : (sv_Destroyed <$> demo_store2 !! ("app/db", 1)) = Some false) by (vm_compute; reflexivity).
  destruct (kv_delete_correct demo_store2 "app/db" demo_store3 Hw2 Hd) as (m & Hm & _ & Hold).
  rewrite Hm in Hv. injection Hv as Hv. destruct (demo_store2 !! ("app/db", 1)) as [sv|] eqn:E; [|discriminate Hl].
  injection Hl as Hl. destruct (Hold 1 sv (conj E Hl)) as (m' & Hm' & _ & Hlt); [rewrite Hv; reflexivity|].
  exists m'. split; [exact Hm'|]. rewrite Hv in Hlt. exact Hlt.
Defined.
