(* ===== verification/Leader.v ===== *)
(** Leader election: the Kubernetes lease elector (internal/infra/k8s/leader.go)
    and the Raft elector (internal/raft/leader.go), which decide on which node
    the background jobs run.

    The API server is a class over its own state, with what it promises for one
    lease object: a read sees what is stored, a create fails when there is an
    object, and a write that is answered with an error may or may not have been
    applied. Times on the wire are text; formatting and parsing are a class. An
    elector is the flag other parts read ([IsLeader]) and whether the context of
    the jobs is live ([leadCancel != nil]). *)

From S2P Require Import Prelude.
From S2P Require Import Effects.
From S2P Require Import GoLib.
From S2P Require Import KVEngine.

#[local] Open Scope Z_scope.

(** ** Data *)

Record LeaderConfig := mkLeaderConfig { lc_Namespace : string; lc_LeaseName : string; lc_Identity : string; lc_APIHost : string; lc_TokenPath : string }.

Record leaseMeta := mkLeaseMeta { lm_Name : string; lm_Namespace : string }.
Record leaseSpec := mkLeaseSpec {
  ls_HolderIdentity : option string;
  ls_LeaseDurationSeconds : option Z;
  ls_AcquireTime : option string;
  ls_RenewTime : option string;
}.
Record leaseObject := mkLeaseObject { lo_APIVersion : string; lo_Kind : string; lo_Metadata : leaseMeta; lo_Spec : leaseSpec }.

Class TimeText := {
  format_nano : Time → string;
  parse_nano : string → option Time;
  parse_plain : string → option Time;
}.
Class TimeTextLaws `{TimeText} := {
  format_nonempty : ∀ t, format_nano t ≠ "";
  parse_format : ∀ t, parse_nano (format_nano t) = Some t;
}.

Class LeaseServer (S : Type) := {
  srv_get : S → res leaseObject;
  srv_post : leaseObject → S → S * res unit;
  srv_put : leaseObject → S → S * res unit;
}.
Class LeaseServerLaws (S : Type) `{LeaseServer S} := {
  srv_lease : S → option leaseSpec;
  get_stored : ∀ s l, srv_get s = Ok l → srv_lease s = Some (lo_Spec l);
  post_stored : ∀ l s s', srv_post l s = (s', Ok tt) → srv_lease s = None ∧ srv_lease s' = Some (lo_Spec l);
  post_error : ∀ l s s' e, srv_post l s = (s', Err e) →
    srv_lease s' = srv_lease s ∨ srv_lease s = None ∧ srv_lease s' = Some (lo_Spec l);
  put_stored : ∀ l s s', srv_put l s = (s', Ok tt) → srv_lease s' = Some (lo_Spec l);
  put_error : ∀ l s s' e, srv_put l s = (s', Err e) → srv_lease s' = srv_lease s ∨ srv_lease s' = Some (lo_Spec l);
}.

(** ** Configuration *)

Definition leaseAPIVersion : string := "coordination.k8s.io/v1".
Definition defaultK8sAPIHost : string := "https://kubernetes.default.svc".
Definition defaultSATokenPath : string := "/var/run/secrets/kubernetes.io/serviceaccount/token".
Definition defaultSANamespacePath : string := "/var/run/secrets/kubernetes.io/serviceaccount/namespace".

Record LeaderElector := mkLeaderElector { le_cfg : LeaderConfig; le_token : string; le_leader : bool; le_leading : bool }.

Definition or_default (s def : string) : string := if s =s "" then def else s.

(** [read] is [os.ReadFile]. *)
Definition NewLeaderElector (hostname : string) (read : string → res string) (cfg : LeaderConfig) : res LeaderElector :=
  let ns := or_default (lc_Namespace cfg) "knxvault" in
  let path := or_default (lc_TokenPath cfg) defaultSATokenPath in
  token ← match read path with Ok t => Ok t | Err e => Err (Plain ("read service account token: " +:+ error_string e)) end;
  let ns := if ns =s "knxvault" then match read defaultSANamespacePath with Ok t => TrimSpace t | Err _ => ns end else ns in
  let cfg := mkLeaderConfig ns (or_default (lc_LeaseName cfg) "knxvault-leader")
               (or_default (lc_Identity cfg) (or_default hostname "knxvault")) (or_default (lc_APIHost cfg) defaultK8sAPIHost) path in
  Ok (mkLeaderElector cfg (TrimSpace token) false false).

(** ** Acquiring the lease *)

Definition defaultLeaseDuration : Duration := 15 * Second.

Section acquire.
Context {S : Type} `{LeaseServer S} `{TimeText} (cfg : LeaderConfig).

Definition parseTime (raw : option string) : Time :=
  match raw with
  | None => 0
  | Some r => if r =s "" then 0 else match parse_nano r with Some t => t | None => default 0 (parse_plain r) end
  end.
Definition formatTime (t : Time) : option string := Some (format_nano t).

Definition leaseDuration (sp : leaseSpec) : Duration :=
  match ls_LeaseDurationSeconds sp with
  | Some n => if 0 <? n then n * Second else defaultLeaseDuration
  | None => defaultLeaseDuration
  end.

Definition createLease (now : Time) : prog S unit :=
  srv_post (mkLeaseObject leaseAPIVersion "Lease" (mkLeaseMeta (lc_LeaseName cfg) (lc_Namespace cfg))
    (mkLeaseSpec (Some (lc_Identity cfg)) (Some 15) (formatTime now) (formatTime now))).

Definition updateLease (lease : leaseObject) (sp : leaseSpec) : prog S unit :=
  srv_put (mkLeaseObject leaseAPIVersion "Lease" (lo_Metadata lease) sp).

(** The part of [tryAcquire] that follows the read. *)
Definition acquire_after (read : res leaseObject) (now : Time) : prog S bool :=
  match read with
  | Err _ => _ ← createLease now; mret true
  | Ok lease =>
      let sp := lo_Spec lease in
      let holder := default "" (ls_HolderIdentity sp) in
      if holder =s lc_Identity cfg then
        _ ← updateLease lease (mkLeaseSpec (ls_HolderIdentity sp) (ls_LeaseDurationSeconds sp) (ls_AcquireTime sp) (formatTime now));
        mret true
      else if negb (holder =s "") && After (parseTime (ls_RenewTime sp) + leaseDuration sp) now then mret false
      else
        _ ← updateLease lease (mkLeaseSpec (Some (lc_Identity cfg)) (Some (Z.quot (leaseDuration sp) Second)) (ls_AcquireTime sp) (formatTime now));
        mret true
  end.

Definition tryAcquire (now : Time) : prog S bool := λ s, acquire_after (srv_get s) now s.
End acquire.

(** ** The loops *)

Definition set_leader (e : LeaderElector) (leader leading : bool) : LeaderElector := mkLeaderElector (le_cfg e) (le_token e) leader leading.

(** One tick of [Run]: what the attempt returned. *)
Definition on_tick (e : LeaderElector) (acquired : res bool) : LeaderElector :=
  match acquired with
  | Err _ => set_leader e false (le_leading e)
  | Ok true => if le_leading e then e else set_leader e true true
  | Ok false => set_leader e false false
  end.
(** [ctx.Done()]. *)
Definition on_done (e : LeaderElector) : LeaderElector := set_leader e false false.
Definition IsLeader (e : LeaderElector) : bool := le_leader e.

(** The Raft elector asks the consensus library instead. *)
Record RaftElector := mkRaftElector { re_client : bool; re_leader : bool; re_leading : bool; re_metric : bool }.
Definition raft_tick (e : RaftElector) (probe : bool) : RaftElector :=
  let isLeader := re_client e && probe in
  if isLeader then mkRaftElector (re_client e) (if re_leading e then re_leader e else true) true isLeader
  else mkRaftElector (re_client e) false false isLeader.
Definition raft_done (e : RaftElector) : RaftElector := mkRaftElector (re_client e) false false false.
Definition raft_IsLeader (e : RaftElector) (probe : bool) : bool := if re_client e then probe else re_leader e.

(** ** A cluster of electors

    An attempt to get the lease is two steps of a node, between which anything
    may happen: it reads the object, and later it writes, with a time it took in
    between. Writes carry no version of what was read. The clock is shared and
    does not go back. [cl_reads] has the attempts under way with what they read
    and when; [cl_last] has the time of the lease a node was last told it has, and
    whether no other attempt was under way when that was written. *)

Record cluster (S : Type) := mkCluster {
  cl_srv : S;
  cl_nodes : gmap string LeaderElector;
  cl_reads : gmap string (res leaseObject * Time);
  cl_last : gmap string (Time * bool);
  cl_now : Time;
}.
Arguments mkCluster {S}.
Arguments cl_srv {S}.
Arguments cl_nodes {S}.
Arguments cl_reads {S}.
Arguments cl_last {S}.
Arguments cl_now {S}.

Section cluster.
Context {S : Type} `{LeaseServer S} `{TimeText}.

(** The first half of [tryAcquire]. *)
Definition cluster_read (id : string) (at_ : Time) (c : cluster S) : cluster S :=
  mkCluster (cl_srv c) (cl_nodes c) (<[id := (srv_get (cl_srv c), at_)]> (cl_reads c)) (cl_last c) at_.

(** The second half, of the attempt that read [read], with [now] as its time. *)
Definition cluster_write (id : string) (e : LeaderElector) (read : res leaseObject) (now at_ : Time) (c : cluster S) : cluster S :=
  let '(srv, r) := acquire_after (le_cfg e) read now (cl_srv c) in
  let reads := delete id (cl_reads c) in
  mkCluster srv (<[id := on_tick e r]> (cl_nodes c)) reads
    (match r with Ok true => <[id := (now, bool_decide (reads = ∅))]> (cl_last c) | _ => cl_last c end) at_.

Inductive cluster_reach (srv : S) (t0 : Time) : cluster S → Prop :=
  | cluster_start nodes : map_Forall (λ id e, lc_Identity (le_cfg e) = id ∧ id ≠ "" ∧ le_leading e = false ∧ le_leader e = false) nodes →
      cluster_reach srv t0 (mkCluster srv nodes ∅ ∅ t0)
  | cluster_reads c id e at_ : cluster_reach srv t0 c → cl_nodes c !! id = Some e → cl_reads c !! id = None → cl_now c ≤ at_ →
      cluster_reach srv t0 (cluster_read id at_ c)
  | cluster_writes c id e read since now at_ : cluster_reach srv t0 c → cl_nodes c !! id = Some e → cl_reads c !! id = Some (read, since) →
      since ≤ now ≤ at_ → cl_now c ≤ at_ →
      cluster_reach srv t0 (cluster_write id e read now at_ c).

Context {laws : LeaseServerLaws S} {time_laws : TimeTextLaws}.

(** The duration of the lease, kept by every write. *)
Definition duration_of (o : option leaseSpec) : Duration := match o with Some sp => leaseDuration sp | None => defaultLeaseDuration end.

(** The lease is [id]'s, renewed at [now]. *)
Definition lease_held (srv : S) (id : string) (now D : Time) : Prop :=
  ∃ sp, srv_lease srv = Some sp ∧ default "" (ls_HolderIdentity sp) = id ∧ parseTime (ls_RenewTime sp) = now ∧ leaseDuration sp = D.

Lemma parseTime_format t : parseTime (formatTime t) = t.
Proof. unfold parseTime, formatTime. rewrite bool_decide_eq_false_2 by apply format_nonempty. by rewrite parse_format. Qed.

Lemma leaseDuration_seconds sp : leaseDuration (mkLeaseSpec (ls_HolderIdentity sp) (Some (Z.quot (leaseDuration sp) Second)) (ls_AcquireTime sp) (ls_RenewTime sp)) = leaseDuration sp.
Proof.
  unfold leaseDuration at 1. cbn [ls_LeaseDurationSeconds].
  assert (Hd : ∃ n, 0 < n ∧ leaseDuration sp = n * Second).
  { unfold leaseDuration. destruct (ls_LeaseDurationSeconds sp) as [n|]; [|by exists 15]. destruct (Z.ltb_spec 0 n); [by exists n|by exists 15]. }
  destruct Hd as (n & Hn & ->). rewrite Z.quot_mul by done. by destruct (Z.ltb_spec 0 n); [|lia].
Qed.

(** What the second half does to the server: nothing, or it creates the lease where
    there is none, or it puts a lease of the node at [now], which needs what was
    read to be its own, nobody's, or expired. *)
Definition may_take (cfg : LeaderConfig) (read : res leaseObject) (now : Time) : Prop :=
  ∃ lease, read = Ok lease ∧ let sp := lo_Spec lease in
    (default "" (ls_HolderIdentity sp) = lc_Identity cfg ∨ default "" (ls_HolderIdentity sp) = "" ∨ parseTime (ls_RenewTime sp) + leaseDuration sp ≤ now).
Definition read_duration (read : res leaseObject) : Duration := match read with Ok lease => leaseDuration (lo_Spec lease) | Err _ => defaultLeaseDuration end.

Lemma put_taken cfg lease sp' now srv srv' r : may_take cfg (Ok lease) now → default "" (ls_HolderIdentity sp') = lc_Identity cfg →
  parseTime (ls_RenewTime sp') = now → leaseDuration sp' = leaseDuration (lo_Spec lease) → (_ ← updateLease lease sp'; mret true) srv = (srv', r) →
  let taken := may_take cfg (Ok lease) now ∧ lease_held srv' (lc_Identity cfg) now (leaseDuration (lo_Spec lease)) in
  (srv_lease srv' = srv_lease srv ∨ taken) ∧ (r = Ok true → taken).
Proof.
  intros Hf Hh Ht Hd Hu. unfold mbind, prog_bind, updateLease in Hu.
  assert (Hk : srv_lease srv' = Some sp' → lease_held srv' (lc_Identity cfg) now (leaseDuration (lo_Spec lease))) by (intros E; by exists sp').
  destruct (srv_put _ srv) as [s2 [[]|e]] eqn:Ep; injection Hu as <- <-.
  - apply put_stored in Ep. cbn in Ep. naive_solver.
  - apply put_error in Ep as [Ep|Ep]; cbn in Ep; naive_solver.
Qed.

Lemma acquire_after_spec cfg read now srv srv' r : acquire_after cfg read now srv = (srv', r) →
  let taken := (may_take cfg read now ∨ srv_lease srv = None ∧ ∃ e, read = Err e) ∧ lease_held srv' (lc_Identity cfg) now (read_duration read) in
  (srv_lease srv' = srv_lease srv ∨ taken) ∧ (r = Ok true → taken).
Proof.
  unfold acquire_after. destruct read as [lease|e]; cbv zeta.
  - set (sp := lo_Spec lease). destruct (bool_decide_reflect (default "" (ls_HolderIdentity sp) = lc_Identity cfg)) as [Hh|Hh].
    + intros Hu. assert (Hm : may_take cfg (Ok lease) now) by (exists lease; auto).
      destruct (λ Hx Hy Hz, put_taken cfg lease _ now _ _ _ Hm Hx Hy Hz Hu) as [? ?]; [done|apply parseTime_format|done|]; cbn; naive_solver.
    + destruct (negb _ && _) eqn:Ec; [intros [= <- <-]; naive_solver|]. intros Hu.
      assert (Hm : may_take cfg (Ok lease) now).
      { exists lease. split; [done|]. cbv zeta.
        apply andb_false_iff in Ec as [Ec|Ec]; [apply negb_false_iff, bool_decide_eq_true in Ec; auto|]. unfold After in Ec. apply Z.ltb_ge in Ec. auto. }
      destruct (λ Hx Hy Hz, put_taken cfg lease _ now _ _ _ Hm Hx Hy Hz Hu) as [? ?]; [done|apply parseTime_format|apply leaseDuration_seconds|]; naive_solver.
  - unfold mbind, prog_bind, createLease. set (l := mkLeaseObject _ _ _ _).
    assert (Hk : ∀ s1, srv_lease s1 = Some (lo_Spec l) → lease_held s1 (lc_Identity cfg) now defaultLeaseDuration).
    { intros s1 E. exists (lo_Spec l). split_and!; [done|done|apply parseTime_format|done]. }
    destruct (srv_post l srv) as [s1 [[]|e1]] eqn:Ep; intros [= <- <-].
    + apply post_stored in Ep as [E1 E2]. naive_solver.
    + apply post_error in Ep as [Ep|[E1 E2]]; naive_solver.
Qed.

(** After [id] got the lease for [t] alone: the lease is [id]'s and not older, and so
    is what attempts under way read, until the lease of [t] has expired. *)
Definition holds (D : Duration) (id : string) (t : Time) (sp : leaseSpec) : Prop :=
  default "" (ls_HolderIdentity sp) = id ∧ t ≤ parseTime (ls_RenewTime sp).
Definition stands (D : Duration) (c : cluster S) (id : string) (t : Time) : Prop :=
  t ≤ cl_now c ∧ id ≠ "" ∧
  (t + D ≤ cl_now c ∨
   (∃ sp, srv_lease (cl_srv c) = Some sp ∧ holds D id t sp) ∧
   map_Forall (λ _ x, t ≤ x.2 ∧ ∀ lease, x.1 = Ok lease → holds D id t (lo_Spec lease)) (cl_reads c)).

Record cluster_inv (D : Duration) (c : cluster S) : Prop := {
  ci_duration : duration_of (srv_lease (cl_srv c)) = D;
  ci_ids : map_Forall (λ id e, lc_Identity (le_cfg e) = id ∧ id ≠ "") (cl_nodes c);
  ci_reads : map_Forall (λ _ x, x.2 ≤ cl_now c ∧ ∀ lease, x.1 = Ok lease → leaseDuration (lo_Spec lease) = D) (cl_reads c);
  ci_last : map_Forall (λ id x, x.2 = true → stands D c id x.1) (cl_last c);
}.

Lemma inv_read D c id at_ : cl_now c ≤ at_ → cluster_inv D c → cluster_inv D (cluster_read id at_ c).
Proof.
  intros Hat [I1 I2 I3 I4]. split; cbn; [done|done| |].
  - apply map_Forall_insert_2; [|eapply map_Forall_impl; [exact I3|]; cbn; intros k x [? ?]; split; [lia|done]].
    split; [cbn; lia|]. intros lease Hl. cbn in Hl. apply get_stored in Hl. rewrite Hl in I1. exact I1.
  - intros k x Hx Ht. destruct (I4 _ _ Hx Ht) as (Hk & Hne & Hor). split; [cbn; lia|]. split; [done|]. destruct Hor as [Hor|[(sp & Esp & Hh) Hr]]; [left; cbn; lia|].
    right. split; [by exists sp|]. cbn. apply map_Forall_insert_2; [|done]. split; [cbn; lia|]. intros lease Hl. cbn in Hl. apply get_stored in Hl.
    rewrite Esp in Hl. by injection Hl as ->.
Qed.

(** Another attempt's write leaves what stands, or comes after it expired. *)
Lemma stands_write D c id e read since now at_ k t srv' r : cluster_inv D c → cl_nodes c !! id = Some e → cl_reads c !! id = Some (read, since) →
  since ≤ now ≤ at_ → cl_now c ≤ at_ → acquire_after (le_cfg e) read now (cl_srv c) = (srv', r) → stands D c k t →
  ∀ nodes last, stands D (mkCluster srv' nodes (delete id (cl_reads c)) last at_) k t.
Proof.
  intros [I1 I2 I3 I4] He Hrd Hnow Hat Ha (Ht & Hne & Hor) nodes last. split; [cbn; lia|]. split; [done|].
  destruct Hor as [Hor|[(sp & Esp & Hh) Hr]]; [left; cbn; lia|]. destruct (I2 _ _ He) as [Hid _].
  destruct (Hr _ _ Hrd) as [Hs Hl]. cbn in Hs, Hl. destruct (acquire_after_spec _ _ _ _ _ _ Ha) as [Hsrv _].
  assert (Hreads : map_Forall (λ _ x, t ≤ x.2 ∧ ∀ lease, x.1 = Ok lease → holds D k t (lo_Spec lease)) (delete id (cl_reads c))) by (by apply map_Forall_delete).
  destruct Hsrv as [Es|[[(lease & -> & Hm)|[E _]] (sp' & Esp' & Hh' & Hp' & _)]]; [right; split; [exists sp; cbn; by rewrite Es|done]| |congruence].
  destruct (Hl _ eq_refl) as [Hlk Hlt]. destruct (I3 _ _ Hrd) as [_ Hdur]. specialize (Hdur _ eq_refl). cbv zeta in Hm. destruct Hm as [Hm|[Hm|Hm]]; [|congruence|left; cbn; lia].
  right. split; [|done]. exists sp'. split; [done|]. split; [congruence|]. rewrite Hp'. lia.
Qed.

Lemma inv_write D c id e read since now at_ : cl_nodes c !! id = Some e → cl_reads c !! id = Some (read, since) → since ≤ now ≤ at_ → cl_now c ≤ at_ →
  (srv_lease (cl_srv c) = None → D = defaultLeaseDuration) →
  cluster_inv D c → cluster_inv D (cluster_write id e read now at_ c).
Proof.
  intros He Hrd Hnow Hat HD Hinv. pose proof Hinv as [I1 I2 I3 I4]. unfold cluster_write.
  destruct (acquire_after (le_cfg e) read now (cl_srv c)) as [srv' r] eqn:Ea. destruct (acquire_after_spec _ _ _ _ _ _ Ea) as [Hs Hr].
  destruct (I2 _ _ He) as [Hid Hne]. destruct (I3 _ _ Hrd) as [_ Hdur]. cbn in Hdur.
  assert (Hread : (may_take (le_cfg e) read now ∨ srv_lease (cl_srv c) = None ∧ ∃ e0, read = Err e0) → read_duration read = D).
  { intros [(lease & -> & _)|[E (e0 & ->)]]; cbn; [by apply Hdur|by rewrite HD]. }
  assert (Hold : ∀ nodes last, map_Forall (λ k x, x.2 = true → stands D (mkCluster srv' nodes (delete id (cl_reads c)) last at_) k x.1) (cl_last c)).
  { intros nodes last k x Hx Hx2. eapply stands_write; eauto. }
  split; cbn [cl_srv cl_nodes cl_reads cl_last cl_now].
  - destruct Hs as [->|[Hm (sp & -> & _ & _ & Hd)]]; [done|]. cbn. rewrite Hd. by apply Hread.
  - apply map_Forall_insert_2; [|done]. by destruct r as [[]|]; cbn; [destruct (le_leading e)|..].
  - apply map_Forall_delete. eapply map_Forall_impl; [exact I3|]. cbn. intros k x [? ?]. split; [lia|done].
  - destruct r as [[]|]; [|apply Hold..]. apply map_Forall_insert_2; [|apply Hold]. cbn. intros Halone%bool_decide_eq_true.
    destruct (Hr eq_refl) as [_ (sp & E & Hh & Hp & _)]. split; [cbn; lia|]. split; [done|]. right. split.
    + exists sp. split; [done|]. split; [congruence|lia].
    + cbn. rewrite Halone. apply map_Forall_empty.
Qed.

Lemma cluster_inv_reach srv t0 c : cluster_reach srv t0 c → cluster_inv (duration_of (srv_lease srv)) c ∧
  (srv_lease (cl_srv c) = None → duration_of (srv_lease srv) = defaultLeaseDuration).
Proof.
  induction 1 as [nodes Hn|c id e at_ Hc [IH IN] He Hrd Hat|c id e read since now at_ Hc [IH IN] He Hrd Hnow Hat].
  - split; [|cbn; by intros ->]. split; [done| |apply map_Forall_empty|apply map_Forall_empty]. eapply map_Forall_impl; [exact Hn|]. cbn. naive_solver.
  - split; [by apply inv_read|done].
  - split; [by eapply inv_write|]. unfold cluster_write. destruct (acquire_after (le_cfg e) read now (cl_srv c)) as [srv' r] eqn:Ea.
    cbn [cl_srv]. destruct (acquire_after_spec _ _ _ _ _ _ Ea) as [[->|[_ (sp & -> & _)]] _]; cbn; [done|congruence].
Qed.

(** C38. Leaders exclude each other, attempts that overlap aside. The read and the
    write of an attempt are separate steps, which interleave with those of other
    nodes, and requests may fail after the server applied them. Of the nodes
    whose lease, as they were last told, has not expired, there is at most one
    that got it while no other attempt was under way; attempts of other nodes
    after that, overlapping or not, do not take the lease before it expires. The
    nodes share a clock that does not go back, and nobody deletes the lease. *)
Theorem one_leader srv t0 c i j ti tj : cluster_reach srv t0 c → cl_last c !! i = Some (ti, true) → cl_last c !! j = Some (tj, true) →
  cl_now c < ti + duration_of (srv_lease srv) → cl_now c < tj + duration_of (srv_lease srv) → i = j.
Proof.
  intros [[_ _ _ I4] _]%cluster_inv_reach Hi Hj Hti Htj. destruct (I4 _ _ Hi eq_refl) as (_ & _ & [?|[(sp & E & Hh & _) _]]); [cbn in *; lia|].
  destruct (I4 _ _ Hj eq_refl) as (_ & _ & [?|[(sp' & E' & Hh' & _) _]]); [cbn in *; lia|]. congruence.
Qed.

(** A lease nobody renews for its duration goes to the next node that asks, when
    the server answers it. *)
Theorem expired_lease_taken cfg now srv lease srv' r : srv_get srv = Ok lease →
  parseTime (ls_RenewTime (lo_Spec lease)) + leaseDuration (lo_Spec lease) ≤ now → tryAcquire cfg now srv = (srv', r) →
  (∀ l, is_Ok (srv_put l srv).2) → r = Ok true ∧ lease_held srv' (lc_Identity cfg) now (leaseDuration (lo_Spec lease)).
Proof.
  intros Hg Hexp Ht Hput. assert (r = Ok true) as ->.
  { unfold tryAcquire, acquire_after in Ht. rewrite Hg in Ht. unfold After in Ht. rewrite (proj2 (Z.ltb_ge _ _) Hexp), andb_false_r in Ht. unfold updateLease in Ht.
    case_match; unfold mbind, prog_bind in Ht; match type of Ht with context [srv_put ?l srv] => destruct (Hput l) as [[] Hl]; destruct (srv_put l srv) as [? ?] end;
      cbn in Hl; subst; by injection Ht as _ <-. }
  split; [done|]. unfold tryAcquire in Ht. rewrite Hg in Ht. destruct (acquire_after_spec _ _ _ _ _ _ Ht) as [_ Hr]. by destruct (Hr eq_refl) as [_ Hh].
Qed.
End cluster.

(** ** The loops *)

(** The Raft elector follows its probe: after every tick the jobs run, the flag
    and the metric say what the consensus library last said. *)
Theorem raft_elector_follows probes p :
  let e := foldl raft_tick (mkRaftElector true false false false) (probes ++ [p]) in
  re_leading e = p ∧ re_leader e = p ∧ re_metric e = p ∧ raft_IsLeader e p = p ∧ re_leading (raft_done e) = false.
Proof.
  cbv zeta. rewrite foldl_app.
  assert (Hi : ∀ e, re_client e = true → re_leader e = re_leading e →
    re_client (foldl raft_tick e probes) = true ∧ re_leader (foldl raft_tick e probes) = re_leading (foldl raft_tick e probes)).
  { induction probes as [|q probes IH]; [done|]. intros [c l g m] ? ?. cbn in *. subst. apply IH; by destruct q, g. }
  destruct (Hi (mkRaftElector true false false false)) as [H1 H2]; [done..|]. destruct (foldl _ _ _) as [c l g m]. cbn in *. subst. by destruct p, g.
Qed.

(** The lease elector never reports a leadership whose jobs are not running. *)
Lemma elector_flag_sound e rs : (le_leader e = true → le_leading e = true) →
  le_leader (foldl on_tick e rs) = true → le_leading (foldl on_tick e rs) = true.
Proof.
  revert e. induction rs as [|r rs IH]; [done|]. intros e He. apply IH. destruct r as [[]|]; cbn; [|done..]. destruct (le_leading e) eqn:E; [by rewrite E|done].
Qed.

(** The other way round fails: after one failed attempt the jobs keep running, and
    the flag stays down however often the lease is renewed, until it is lost. *)
Theorem leader_flag_lost e e0 rs : le_leading e = true → Forall (λ r, r ≠ Ok false) rs →
  le_leading (foldl on_tick e (Err e0 :: rs)) = true ∧ IsLeader (foldl on_tick e (Err e0 :: rs)) = false.
Proof.
  intros He Hrs. cbn [foldl on_tick].
  assert (Hi : ∀ e, le_leading e = true → le_leader e = false → le_leading (foldl on_tick e rs) = true ∧ le_leader (foldl on_tick e rs) = false).
  { clear e He. induction Hrs as [|r rs Hr _ IH]; [done|]. intros e H1 H2. apply IH; destruct r as [[]|]; cbn; by rewrite ?H1. }
  by apply Hi.
Qed.

(** ** internal/infra/leader and internal/infra/hostidentity *)

(** A nil monitor is [None]. *)
Record Monitor := mkMonitor { mo_active : bool; mo_running : bool }.
Definition Activate (m : option Monitor) : option Monitor := (λ m, mkMonitor true (mo_running m)) <$> m.
Definition EnforceHealth (m : option Monitor) : bool := match m with Some m => mo_active m | None => false end.
Definition SetRunning (m : option Monitor) (running : bool) : option Monitor := (λ m, mkMonitor (mo_active m) running) <$> m.
Definition Running (m : option Monitor) : bool := match m with Some m => mo_running m | None => true end.

Definition Hostname (getenv : string → string) (host : res string) : string :=
  if negb (TrimSpace (getenv "KNXVAULT_POD_NAME") =s "") then TrimSpace (getenv "KNXVAULT_POD_NAME")
  else if negb (TrimSpace (getenv "HOSTNAME") =s "") then TrimSpace (getenv "HOSTNAME")
  else match host with Ok h => h | Err _ => "" end.

(** [strconv.ParseUint(s, 10, 64)]. *)
Definition ParseUint (s : string) : option Z :=
  match parse_nonempty s with Some n => if n <? 2 ^ 64 then Some n else None | None => None end.

Definition NodeIDFromHostname (host : string) : Z :=
  let parts := SplitOn "-" host in
  if Nat.ltb (length parts) 2 then 0
  else match ParseUint (List.last parts "") with Some ord => (ord + 1) mod 2 ^ 64 | None => 0 end.

Lemma digits_no_dash fuel n rest : 0 ≤ n → str_mem "-" rest = false → str_mem "-" (digits fuel n rest) = false.
Proof.
  revert n rest. induction fuel as [|fuel IH]; intros n rest Hn Hr; [done|]. cbn [digits].
  assert (Hd : str_mem "-" (String (digit (n mod 10)) rest) = false).
  { cbn [str_mem]. rewrite Hr, orb_false_r. apply bool_decide_eq_false. intros E. by destruct (digit_signs (n mod 10) ltac:(apply Z.mod_pos_bound; lia)) as [_ []]. }
  destruct (n <? 10); [done|]. apply IH; [by apply Z.div_pos|done].
Qed.

(** Pod [name-n] of a stateful set is node [n + 1], so no two pods share a number. *)
Lemma NodeIDFromHostname_pod name n : 0 ≤ n < 2 ^ 63 → NodeIDFromHostname (name +:+ String "-" (Itoa n)) = n + 1.
Proof.
  intros Hn. unfold NodeIDFromHostname, Itoa. destruct (Z.ltb_spec n 0); [lia|].
  rewrite SplitOn_app, (SplitOn_none _ (digits 20 n "")) by (by apply digits_no_dash; [lia|]).
  assert (Hl : SplitOn "-" name ≠ []) by (destruct name as [|c name]; cbn; [done|repeat case_match; done]).
  rewrite length_app. destruct (SplitOn "-" name) as [|seg segs] eqn:E; [done|]. cbn [length Nat.add]. rewrite Nat.add_1_r. cbn [Nat.ltb Nat.leb].
  rewrite last_last. unfold ParseUint. destruct (parse_Itoa n ltac:(lia)) as (d & t & Hd & Ed & Hp).
  rewrite Ed. unfold parse_nonempty. rewrite bool_decide_eq_false_2, Hp by done. destruct (Z.ltb_spec n (2 ^ 64)); [|lia]. apply Z.mod_small. lia.
Qed.

(** ** Examples *)

#[local] Instance digit_times : TimeText := {|
  format_nano t := "t" +:+ string_of (pos_bytes (encode t));
  parse_nano s := decode (bytes_pos (bytes_of (str_drop 1 s)));
  parse_plain s := None
|}.
#[local] Instance digit_times_laws : TimeTextLaws.
Proof.
  split; [done|]. intros t. unfold parse_nano, format_nano, digit_times. change (str_drop 1 ("t" +:+ ?x)) with x. by rewrite bytes_of_string, bytes_pos_bytes, decode_encode.
Qed.

(** One lease object, without versions, as [leaseMeta] has none. *)
#[local] Instance toy_lease_server : LeaseServer (option leaseObject) := {|
  srv_get s := match s with Some l => Ok l | None => Err (Plain "lease not found") end;
  srv_post l s := match s with None => (Some l, Ok tt) | Some _ => (s, Err (Plain "put lease: status 409")) end;
  srv_put l s := match s with Some _ => (Some l, Ok tt) | None => (s, Err (Plain "put lease: status 404")) end
|}.
#[local] Instance toy_lease_laws : LeaseServerLaws (option leaseObject).
Proof.
  refine {| srv_lease s := lo_Spec <$> s |}; cbn.
  - by intros [l'|] l [= ->].
  - by intros l [l'|] s' [= <-].
  - intros l [l'|] s' e [= <- <-]. by left.
  - by intros l [l'|] s' [= <-].
  - intros l [l'|] s' e [= <- <-]. by left.
Defined.

Definition demo_elector (id : string) : LeaderElector := mkLeaderElector (mkLeaderConfig "knxvault" "knxvault-leader" id defaultK8sAPIHost "") "" false false.
Definition demo_electors : cluster (option leaseObject) := mkCluster None (<["b" := demo_elector "b"]> {["a" := demo_elector "a"]}) ∅ ∅ 0.
(** [a] takes the lease and stops; [b] asks too early, and again after 20 seconds. *)
Definition attempt_of (id : string) (at1 now at2 : Time) (c : cluster (option leaseObject)) : cluster (option leaseObject) :=
  let c1 := cluster_read id at1 c in
  match cl_nodes c1 !! id, cl_reads c1 !! id with Some e, Some (read, _) => cluster_write id e read now at2 c1 | _, _ => c1 end.
Lemma attempt_of_reach srv t0 c id at1 now at2 : cluster_reach srv t0 c → is_Some (cl_nodes c !! id) → cl_reads c !! id = None →
  cl_now c ≤ at1 → at1 ≤ now ≤ at2 → cluster_reach srv t0 (attempt_of id at1 now at2 c).
Proof.
  intros Hc [e He] Hr H1 H2. unfold attempt_of. assert (Hrd := cluster_reads srv t0 c id e at1 Hc He Hr H1). cbn. rewrite He, lookup_insert_eq.
  eapply cluster_writes; [exact Hrd|exact He|cbn; by rewrite lookup_insert_eq|lia|cbn; lia].
Qed.

Definition demo_election : cluster (option leaseObject) :=
  attempt_of "b" (21 * Second) (21 * Second) (21 * Second) (attempt_of "b" (3 * Second) (3 * Second) (3 * Second)
    (attempt_of "a" Second Second Second demo_electors)).
Lemma demo_election_reach : cluster_reach None 0 demo_election.
Proof.
  unfold demo_election. do 3 (apply attempt_of_reach; [|vm_compute; by eexists|vm_compute; reflexivity|vm_compute; discriminate|vm_compute; split; discriminate]).
  apply cluster_start. apply map_Forall_insert_2; [done|]. by apply map_Forall_singleton.
Qed.

Lemma one_leader_witness : cl_last demo_election !! "b" = Some (21 * Second, true) ∧
  ∀ i ti, cl_last demo_election !! i = Some (ti, true) → cl_now demo_election < ti + 15 * Second → i = "b".
Proof.
  assert (Hb : cl_last demo_election !! "b" = Some (21 * Second, true)) by (vm_compute; reflexivity). split; [exact Hb|].
  intros i ti Hi Ht. apply (one_leader (laws := toy_lease_laws) None 0 demo_election i "b" ti (21 * Second) demo_election_reach Hi Hb Ht). vm_compute. reflexivity.
Defined.

Definition old_lease : leaseObject := mkLeaseObject leaseAPIVersion "Lease" (mkLeaseMeta "knxvault-leader" "knxvault")
  (mkLeaseSpec (Some "gone") (Some 15) None (formatTime Second)).

Lemma expired_lease_taken_witness : (tryAcquire (le_cfg (demo_elector "b")) (20 * Second) (Some old_lease)).2 = Ok true.
Proof.
  apply (expired_lease_taken (laws := toy_lease_laws) (le_cfg (demo_elector "b")) (20 * Second) (Some old_lease) old_lease (tryAcquire (le_cfg (demo_elector "b")) (20 * Second) (Some old_lease)).1 (tryAcquire (le_cfg (demo_elector "b")) (20 * Second) (Some old_lease)).2); [reflexivity|vm_compute; discriminate|apply surjective_pairing|].
  intros l. by exists tt.
Defined.

Lemma leader_flag_lost_witness :
  let e := on_tick (demo_elector "a") (Ok true) in
  IsLeader e = true ∧ IsLeader (foldl on_tick e [Err (Plain "timeout"); Ok true; Ok true]) = false.
Proof.
  split; [reflexivity|]. apply (leader_flag_lost (on_tick (demo_elector "a") (Ok true)) (Plain "timeout") [Ok true; Ok true]); [reflexivity|].
  repeat constructor; discriminate.
Defined.

(** Two nodes that read the expired lease before either writes it both become
    leader: the object has no resource version, so the second write is not refused. *)
Example two_leaders :
  let a := le_cfg (demo_elector "a") in let b := le_cfg (demo_elector "b") in
  let read := srv_get (Some old_lease) in
  let '(s1, ra) := acquire_after a read (20 * Second) (Some old_lease) in
  let '(s2, rb) := acquire_after b read (20 * Second) s1 in
  ra = Ok true ∧ rb = Ok true.
Proof. vm_compute. split; reflexivity. Qed.

(** A leader that cannot reach the API server goes on running the jobs while the
    lease it lost is taken by another node, which runs them too. *)
Example partitioned_leader_runs_on :
  let a := foldl on_tick (demo_elector "a") [Ok true; Err (Plain "timeout"); Err (Plain "timeout")] in
  let b := on_tick (demo_elector "b") (tryAcquire (le_cfg (demo_elector "b")) (20 * Second) (Some old_lease)).2 in
  le_leading a = true ∧ le_leading b = true.
Proof. vm_compute. split; reflexivity. Qed.
