(* ===== verification/Operator.v ===== *)
(** The Kubernetes operator: renewal schedule (internal/operator/renew), decisions
    (certlogic), conditions (statusutil), retry times (reconcileutil), Secrets
    (secretutil), issuers (apis/v1alpha1, controllers/resolve.go,
    issuer_backend.go) and the reconcilers of certificates, certificate requests,
    CAs and issuers (controllers).

    What the controllers talk to, the Kubernetes API and the vault client, is the
    class [World] over its own state: reads that find nothing give [None]. What
    the API server promises for objects is [WorldLaws]. Parsing and formatting of
    durations and times are the class [Texts]. *)

From S2P Require Import Prelude.
From S2P Require Import Effects.
From S2P Require Import GoLib.

#[local] Open Scope Z_scope.

Class Texts := {
  ParseDuration : string → res Duration;
  parse_rfc3339 : string → option Time;
  parse_rfc3339nano : string → option Time;
  format_rfc3339 : Time → string;
}.

(** ** internal/operator/renew/schedule.go *)

Definition DefaultDuration : Duration := 90 * 24 * Hour.
Definition DefaultRenewBefore : Duration := 30 * 24 * Hour.

Section schedule.
Context `{Texts}.

Definition renew_ParseDuration (s : string) (def : Duration) : res Duration := if s =s "" then Ok def else ParseDuration s.

(** Either layout. *)
Definition parse_expiry (notAfter : string) : option Time :=
  match parse_rfc3339 notAfter with Some t => Some t | None => parse_rfc3339nano notAfter end.

Definition NeedsRenew (notAfter : string) (renewBefore : Duration) (now : Time) : bool :=
  if notAfter =s "" then true
  else match parse_expiry notAfter with
       | None => true
       | Some t => negb (Before now (t - renewBefore))
       end.

Definition RequeueAfter (notAfter : string) (renewBefore : Duration) (now : Time) : Duration :=
  if notAfter =s "" then 0
  else match parse_expiry notAfter with
       | None => Minute
       | Some t =>
           let d := t - renewBefore - now in
           if d <? 0 then 0 else if 24 * Hour <? d then 24 * Hour else d
       end.

Definition IsClientUsage (usages : list string) : bool :=
  existsb (λ u, (u =s "client auth") || (u =s "client") || (u =s "ClientAuth") || (u =s "clientAuth")) usages.

(** ** internal/operator/certlogic/decide.go *)

Definition DeliverySecret : string := "Secret".
Definition DeliveryNone : string := "None".

Record SpecView := mkSpecView {
  sv_CommonName : string;
  sv_SecretName : string;
  sv_Delivery : string;
  sv_Duration : string;
  sv_RenewBefore : string;
  sv_DNSNames : list string;
  sv_IPAddresses : list string;
  sv_Usages : list string;
  sv_KeyBits : Z;
  sv_StatusSerial : string;
  sv_StatusCAID : string;
  sv_StatusNotAfter : string;
  sv_SecretExists : bool;
}.

Record Decision := mkDecision {
  dc_OK : bool;
  dc_InvalidMsg : string;
  dc_Delivery : string;
  dc_TTL : string;
  dc_RenewBefore : Duration;
  dc_NeedIssue : bool;
  dc_ClientUsage : bool;
  dc_KeyBits : Z;
  dc_RequeueAfter : Duration;
  dc_NextRenew : Time;
}.

Definition invalid (v : SpecView) (delivery msg : string) : Decision := mkDecision false msg delivery "" 0 false false (sv_KeyBits v) 0 0.

Definition ValidateAndDecide (v : SpecView) (now : Time) : Decision :=
  let delivery := if sv_Delivery v =s "" then DeliverySecret else sv_Delivery v in
  if sv_CommonName v =s "" then invalid v delivery "commonName is required"
  else if (delivery =s DeliverySecret) && (sv_SecretName v =s "") then invalid v delivery "secretName required for Delivery=Secret"
  else match renew_ParseDuration (sv_RenewBefore v) DefaultRenewBefore with
       | Err e => invalid v delivery ("invalid renewBefore: " +:+ error_string e)
       | Ok rb =>
           match renew_ParseDuration (sv_Duration v) DefaultDuration with
           | Err e => invalid v delivery ("invalid duration: " +:+ error_string e)
           | Ok dur =>
               let ttl := if sv_Duration v =s "" then Itoa (Z.quot dur Hour) +:+ "h" else sv_Duration v in
               let need := NeedsRenew (sv_StatusNotAfter v) rb now || ((delivery =s DeliverySecret) && negb (sv_SecretExists v)) in
               let after := if need then 0 else RequeueAfter (sv_StatusNotAfter v) rb now in
               mkDecision true "" delivery ttl rb need (IsClientUsage (sv_Usages v)) (sv_KeyBits v) after (if need then 0 else now + after)
           end
       end.

Definition ResolveCAID (resultCAID statusCAID roleCAID : string) : string :=
  if negb (resultCAID =s "") then resultCAID else if negb (statusCAID =s "") then statusCAID else roleCAID.

Definition PreferRenew (serial caID : string) : bool := negb (serial =s "") && negb (caID =s "").
End schedule.

(** ** internal/operator/reconcileutil and statusutil *)

(** [ctrl.Result]. *)
Record Result := mkResult { rs_RequeueAfter : Duration }.

Definition ErrorResult (attempt : Z) : Result :=
  let attempt := if attempt <? 0 then 0 else attempt in
  let sec := 5 * 2 ^ attempt in
  mkResult ((if 300 <? sec then 300 else sec) * Second).

Record Condition := mkCondition { cd_Type : string; cd_Status : string; cd_Reason : string; cd_Message : string; cd_LastTransitionTime : Time }.

Fixpoint SetCondition (now : Time) (conds : list Condition) (typ status reason message : string) : list Condition :=
  match conds with
  | [] => [mkCondition typ status reason message now]
  | c :: conds =>
      if cd_Type c =s typ then
        mkCondition (cd_Type c) status reason message
          (if negb (cd_Status c =s status) || negb (cd_Reason c =s reason) then now else cd_LastTransitionTime c) :: conds
      else c :: SetCondition now conds typ status reason message
  end.
Definition ReadyTrue (now : Time) (conds : list Condition) (reason msg : string) : list Condition := SetCondition now conds "Ready" "True" reason msg.
Definition ReadyFalse (now : Time) (conds : list Condition) (reason msg : string) : list Condition := SetCondition now conds "Ready" "False" reason msg.

(** ** internal/operator/apis/v1alpha1 *)

Record OwnerReference := mkOwner { ow_UID : string; ow_Controller : bool }.
Record ObjectMeta := mkMeta {
  om_Namespace : string;
  om_Name : string;
  om_UID : string;
  om_Labels : gmap string string;
  om_Annotations : gmap string string;
  om_OwnerReferences : list OwnerReference;
}.
Record Secret := mkSecret { sc_Meta : ObjectMeta; sc_Type : string; sc_Data : gmap string string }.

Record IssuerRef := mkIssuerRef { ir_Kind : string; ir_Name : string; ir_Namespace : string }.
Record VaultIssuerSpec := mkVaultIssuer { vi_VaultCAName : string; vi_CARef : option IssuerRef }.
Record SecretKeyRef := mkSecretKeyRef { sk_Name : string; sk_Key : string }.
Record ACMEDNS01Spec := mkDNS01 { ad_Provider : string; ad_WebhookURL : string; ad_APITokenSecretRef : option SecretKeyRef; ad_ZoneID : string }.
Record ACMEIssuerSpec := mkACME {
  ai_Server : string;
  ai_Email : string;
  ai_AcceptTOS : bool;
  ai_PrivateKeySecretRef : option SecretKeyRef;
  ai_SecretNamespace : string;
  ai_HTTP01 : bool;
  ai_DNS01 : option ACMEDNS01Spec;
  ai_SkipTLSVerify : bool;
}.
Record SelfSignedIssuerSpec := mkSelfSigned { si_TTL : string }.
(** [KNXVaultIssuerSpec] and [KNXVaultClusterIssuerSpec], which have the same fields. *)
Record KNXVaultIssuerSpec := mkIssuerSpec {
  is_VaultCAName : string;
  is_CARef : option IssuerRef;
  is_Vault : option VaultIssuerSpec;
  is_ACME : option ACMEIssuerSpec;
  is_SelfSigned : option SelfSignedIssuerSpec;
}.
Record KNXVaultIssuer := mkIssuer { iu_Meta : ObjectMeta; iu_Spec : KNXVaultIssuerSpec; iu_Conditions : list Condition; iu_Mode : string }.
Record KNXVaultCASpec := mkCASpec { cs_Type : string; cs_CommonName : string; cs_VaultName : string; cs_TTL : string; cs_KeyBits : Z; cs_ParentRef : option IssuerRef }.
Record KNXVaultCAStatus := mkCAStatus { ct_Conditions : list Condition; ct_CAID : string; ct_Serial : string; ct_NotAfter : string; ct_VaultName : string }.
Record KNXVaultCA := mkCA { ca_Meta : ObjectMeta; ca_Spec : KNXVaultCASpec; ca_Status : KNXVaultCAStatus }.

Record KNXVaultCertificateSpec := mkCertSpec {
  kc_SecretName : string;
  kc_IssuerRef : IssuerRef;
  kc_CommonName : string;
  kc_DNSNames : list string;
  kc_IPAddresses : list string;
  kc_Usages : list string;
  kc_Duration : string;
  kc_RenewBefore : string;
  kc_KeySize : Z;
  kc_Delivery : string;
}.
Record KNXVaultCertificateStatus := mkCertStatus {
  ks_Conditions : list Condition;
  ks_NotBefore : string;
  ks_NotAfter : string;
  ks_Serial : string;
  ks_CAID : string;
  ks_Revision : Z;
  ks_VaultRole : string;
  ks_NextRenewTime : string;
  ks_FailureCount : Z;
  ks_LastFailure : string;
}.
Record KNXVaultCertificate := mkCertificate { kc_Meta : ObjectMeta; kc_Spec : KNXVaultCertificateSpec; kc_Status : KNXVaultCertificateStatus }.

Record KNXVaultCertificateRequest := mkCertRequest {
  rq_Meta : ObjectMeta;
  rq_Request : string;
  rq_IssuerRef : IssuerRef;
  rq_Duration : string;
  rq_SecretName : string;
  rq_CommonName : string;
  rq_DNSNames : list string;
  rq_Usages : list string;
  rq_Conditions : list Condition;
  rq_Certificate : string;
  rq_Serial : string;
  rq_NotAfter : string;
  rq_CACertificate : string;
}.

Definition IssuerModeVault : string := "Vault".
Definition IssuerModeACME : string := "ACME".
Definition IssuerModeSelfSigned : string := "SelfSigned".

Record ResolvedIssuer := mkResolved {
  ri_Mode : string;
  ri_VaultCA : string;
  ri_CARef : option IssuerRef;
  ri_ACME : option ACMEIssuerSpec;
  ri_SelfSigned : option SelfSignedIssuerSpec;
}.

Definition count_some {A} (o : option A) : nat := match o with Some _ => 1 | None => 0 end.

Definition resolveMulti (s : KNXVaultIssuerSpec) : res ResolvedIssuer :=
  let n := (count_some (is_Vault s) + count_some (is_ACME s) + count_some (is_SelfSigned s))%nat in
  if Nat.eqb n 0 && negb (is_VaultCAName s =s "") then Ok (mkResolved IssuerModeVault (is_VaultCAName s) (is_CARef s) None None)
  else if Nat.eqb n 0 then Err (Plain "issuer requires vault, acme, or selfSigned (or vaultCAName)")
  else if Nat.ltb 1 n then Err (Plain "issuer must set exactly one of vault, acme, selfSigned")
  else match is_Vault s, is_ACME s with
       | Some v, _ =>
           _ ← reject (vi_VaultCAName v =s "") (Plain "vault.vaultCAName required");
           Ok (mkResolved IssuerModeVault (vi_VaultCAName v) (match vi_CARef v with Some r => Some r | None => is_CARef s end) None None)
       | None, Some a => Ok (mkResolved IssuerModeACME "" None (Some a) None)
       | None, None => Ok (mkResolved IssuerModeSelfSigned "" None None (is_SelfSigned s))
       end.

(** ** internal/operator/secretutil/tls.go *)

Definition AnnSerial : string := "knxvault.kubenexis.dev/serial".
Definition AnnNotAfter : string := "knxvault.kubenexis.dev/not-after".
Definition AnnCAID : string := "knxvault.kubenexis.dev/ca-id".
Definition AnnRevision : string := "knxvault.kubenexis.dev/revision".
Definition managed_by : string := "app.kubernetes.io/managed-by".

Definition with_ca (caPEM : string) (data : gmap string string) : gmap string string := if caPEM =s "" then data else <["ca.crt" := caPEM]> data.

Definition TLSSecret (namespace name certPEM keyPEM caPEM serial notAfter caID : string) (revision : Z) (labels : gmap string string) : Secret :=
  mkSecret (mkMeta namespace name "" (<[managed_by := "knxvault-operator"]> labels)
              (<[AnnSerial := serial]> (<[AnnNotAfter := notAfter]> (<[AnnCAID := caID]> {[AnnRevision := Itoa revision]}))) [])
    "kubernetes.io/tls" (with_ca caPEM (<["tls.crt" := certPEM]> {["tls.key" := keyPEM]})).

Definition CertOnlySecret (namespace name certPEM caPEM : string) : Secret :=
  mkSecret (mkMeta namespace name "" {[managed_by := "knxvault-operator"]} ∅ []) "Opaque" (with_ca caPEM {["tls.crt" := certPEM]}).

(** ** What the controllers talk to *)

Record CAResult := mkCAResult { cr_ID : string; cr_Name : string; cr_CertPEM : string; cr_Serial : string; cr_ExpiresAt : string }.
Record CertResult := mkCertResult {
  ce_CertPEM : string;
  ce_PrivateKeyPEM : string;
  ce_Serial : string;
  ce_ExpiresAt : string;
  ce_CAID : string;
  ce_CAChain : list string;
}.

Abbreviation key := (string * string)%type.

(** The types of internal/acme the controllers fill in and read. *)
Record acme_Config := mkAcmeConfig { ac_DirectoryURL : string; ac_Email : string; ac_AcceptTOS : bool; ac_SkipTLSVerify : bool; ac_AccountKey : string }.
Record SolverSpec := mkSolverSpec { so_HTTP01 : bool; so_DNSProvider : string; so_WebhookURL : string; so_CloudflareZone : string; so_CloudflareToken : string }.
Record OrderRequest := mkOrderRequest { or_CommonName : string; or_DNSNames : list string; or_IPAddresses : list string; or_TTL : Duration; or_KeyBits : Z }.
Record OrderResult := mkOrderResult { oo_CertPEM : string; oo_PrivateKeyPEM : string; oo_Serial : string; oo_NotAfter : Time }.

Class World (S : Type) := {
  get_certificate : key → prog S (option KNXVaultCertificate);
  update_certificate_status : KNXVaultCertificate → prog S unit;
  get_request : key → prog S (option KNXVaultCertificateRequest);
  update_request_status : KNXVaultCertificateRequest → prog S unit;
  get_ca : key → prog S (option KNXVaultCA);
  update_ca_status : KNXVaultCA → prog S unit;
  get_issuer : key → prog S (option KNXVaultIssuer);
  update_issuer_status : KNXVaultIssuer → prog S unit;
  get_clusterissuer : string → prog S (option KNXVaultIssuer);
  update_clusterissuer_status : KNXVaultIssuer → prog S unit;
  get_secret : key → prog S (option Secret);
  create_secret : Secret → prog S unit;
  update_secret : Secret → prog S unit;
  (** [controllerutil.SetControllerReference] for an owner with this UID. *)
  SetControllerReference : string → Secret → res Secret;
  (** The vault client; [vault_configured] is [r.Vault != nil]. *)
  vault_configured : bool;
  vault_GetCAByName : string → prog S CAResult;
  vault_CreateRoot : string → string → string → Z → prog S CAResult;
  vault_CreateIntermediate : string → string → string → string → Z → prog S CAResult;
  vault_Issue : string → string → string → list string → list string → Z → bool → prog S CertResult;
  vault_Renew : string → string → string → prog S CertResult;
  vault_SignCSR : string → string → string → prog S CertResult;
  (** internal/acme: [SelfSignedIssuer.Issue] with its DefaultTTL, account keys (in
      their PEM form), the check of webhook addresses, [Issue] of the issuer that
      [NewIssuerFromKind] gives for a configuration, and the probe of a directory. *)
  selfsigned_Issue : Duration → OrderRequest → prog S OrderResult;
  GenerateAccountKey : prog S string;
  ParseAccountKeyPEM : string → res string;
  MarshalAccountKeyPEM : string → res string;
  ValidateOutboundURL : string → res unit;
  acme_Issue : acme_Config → SolverSpec → OrderRequest → prog S OrderResult;
  ProbeDirectory : ACMEIssuerSpec → prog S (bool * string);
}.

Definition meta_key (m : ObjectMeta) : key := (om_Namespace m, om_Name m).
Definition not_found : error := Plain "not found".

Section controllers.
Context {S : Type} {world : World S} {texts : Texts}.
Abbreviation M := (prog S).

(** [c.Get] where a missing object is an error like any other. *)
Definition must {A} (m : M (option A)) : M A := o ← m; match o with Some a => mret a | None => raise not_found end.

(** ** controllers/resolve.go and issuer_backend.go *)

Definition ns_of (ref : IssuerRef) (certNS : string) : string := if ir_Namespace ref =s "" then certNS else ir_Namespace ref.
Definition is_ca_kind (kind : string) : bool := (kind =s "") || (kind =s "knxvaultca") || (kind =s "ca").
Definition is_issuer_kind (kind : string) : bool := (kind =s "knxvaultissuer") || (kind =s "issuer").
Definition is_cluster_kind (kind : string) : bool := (kind =s "knxvaultclusterissuer") || (kind =s "clusterissuer").

Definition vault_mode (spec : KNXVaultIssuerSpec) (what : string) : res string :=
  r ← resolveMulti spec;
  _ ← reject (negb (ri_Mode r =s IssuerModeVault) || (ri_VaultCA r =s "")) (Plain (what +:+ " is not vault mode"));
  Ok (ri_VaultCA r).

Definition ResolveVaultRole (certNS : string) (ref : IssuerRef) : M string :=
  let kind := ToLower (ir_Kind ref) in
  if is_ca_kind kind then
    found ← attempt (must (get_ca (ns_of ref certNS, ir_Name ref)));
    match found with
    | Err e => if negb (ir_Name ref =s "") then mret (ir_Name ref) else raise e
    | Ok ca => mret (if negb (ct_VaultName (ca_Status ca) =s "") then ct_VaultName (ca_Status ca)
                     else if negb (cs_VaultName (ca_Spec ca) =s "") then cs_VaultName (ca_Spec ca) else om_Name (ca_Meta ca))
    end
  else if is_issuer_kind kind then
    iss ← must (get_issuer (ns_of ref certNS, ir_Name ref));
    lift (vault_mode (iu_Spec iss) ("issuer " +:+ ns_of ref certNS +:+ "/" +:+ ir_Name ref))
  else if is_cluster_kind kind then
    iss ← must (get_clusterissuer (ir_Name ref));
    lift (vault_mode (iu_Spec iss) ("clusterissuer " +:+ ir_Name ref))
  else raise (Plain ("unsupported issuer kind " +:+ quoted (ir_Kind ref))).

Definition ResolveIssuerFromRef (certNS : string) (ref : IssuerRef) : M ResolvedIssuer :=
  let kind := ToLower (ir_Kind ref) in
  if is_ca_kind kind then
    role ← ResolveVaultRole certNS ref;
    mret (mkResolved IssuerModeVault role None None None)
  else if is_issuer_kind kind then
    iss ← must (get_issuer (ns_of ref certNS, ir_Name ref));
    lift (resolveMulti (iu_Spec iss))
  else if is_cluster_kind kind then
    iss ← must (get_clusterissuer (ir_Name ref));
    lift (resolveMulti (iu_Spec iss))
  else raise (Plain ("unsupported issuer kind " +:+ quoted (ir_Kind ref))).

Definition IsNotFound (e : error) : bool := error_string e =s "not found".
Definition isSecretMissing (e : error) : bool := IsNotFound e || Contains (error_string e) "missing key".
Definition missing_key (ns : string) (ref : SecretKeyRef) (key : string) : error :=
  Plain ("secret " +:+ ns +:+ "/" +:+ sk_Name ref +:+ " missing key " +:+ quoted key).
Definition account_key_name (ref : SecretKeyRef) : string := if sk_Key ref =s "" then "tls.key" else sk_Key ref.

Definition loadACMEAccountKey (ns : string) (ref : SecretKeyRef) : M string :=
  _ ← guard_not (sk_Name ref =s "") (Plain "privateKeySecretRef required");
  sec ← must (get_secret (ns, sk_Name ref));
  let b := default "" (sc_Data sec !! account_key_name ref) in
  _ ← guard_not (b =s "") (missing_key ns ref (account_key_name ref));
  lift (ParseAccountKeyPEM b).

Definition with_key (sec : Secret) (name pem : string) : Secret := mkSecret (sc_Meta sec) (sc_Type sec) (<[name := pem]> (sc_Data sec)).

Definition storeACMEAccountKey (ns : string) (ref : SecretKeyRef) (k : string) : M unit :=
  _ ← guard_not (sk_Name ref =s "") (Plain "privateKeySecretRef required");
  pem ← lift (MarshalAccountKeyPEM k);
  current ← get_secret (ns, sk_Name ref);
  match current with
  | None => create_secret (mkSecret (mkMeta ns (sk_Name ref) "" ∅ ∅ []) "Opaque" {[account_key_name ref := pem]})
  | Some sec => update_secret (with_key sec (account_key_name ref) pem)
  end.

Definition readSecretKey (ns : string) (ref : SecretKeyRef) : M string :=
  _ ← guard_not (sk_Name ref =s "") (Plain "secret ref required");
  let name := if sk_Key ref =s "" then "api-token" else sk_Key ref in
  sec ← must (get_secret (ns, sk_Name ref));
  match sc_Data sec !! name with
  | None => raise (missing_key ns ref name)
  | Some b => mret (TrimSpace b)
  end.

Definition acme_ns (ns : string) (spec : ACMEIssuerSpec) : string :=
  let n := if ns =s "" then ai_SecretNamespace spec else ns in if n =s "" then "knxvault" else n.

(** The stored account key, or none when there is none yet. *)
Definition stored_account_key (ns : string) (spec : ACMEIssuerSpec) : M (option string) :=
  match ai_PrivateKeySecretRef spec with
  | None => mret None
  | Some ref =>
      k ← attempt (loadACMEAccountKey ns ref);
      match k with
      | Ok k => mret (Some k)
      | Err e => if isSecretMissing e then mret None else raise (Plain ("acme account key: " +:+ error_string e))
      end
  end.

Definition dns_token (ns : string) (spec : ACMEIssuerSpec) : M string :=
  match ai_DNS01 spec with
  | None => mret ""
  | Some d =>
      _ ← lift (if ad_WebhookURL d =s "" then Ok tt
                else match ValidateOutboundURL (ad_WebhookURL d) with Ok _ => Ok tt | Err e => Err (Plain ("dns01.webhookURL: " +:+ error_string e)) end);
      match ad_APITokenSecretRef d with Some ref => readSecretKey ns ref | None => mret "" end
  end.

Definition solvers (spec : ACMEIssuerSpec) (token : string) : SolverSpec :=
  match ai_DNS01 spec with
  | Some d => mkSolverSpec (ai_HTTP01 spec) (ad_Provider d) (ad_WebhookURL d) (ad_ZoneID d) token
  | None => mkSolverSpec (ai_HTTP01 spec) "" "" "" ""
  end.

(** A lifetime that does not parse is left to the issuer. *)
Definition ttl_or_zero (ttl : string) : Duration := if ttl =s "" then 0 else match ParseDuration ttl with Ok d => d | Err _ => 0 end.
Definition cert_of_order (r : OrderResult) : CertResult :=
  mkCertResult (oo_CertPEM r) (oo_PrivateKeyPEM r) (oo_Serial r) (format_rfc3339 (oo_NotAfter r)) "" [].

Definition issueACME (ns : string) (spec : option ACMEIssuerSpec) (cn : string) (dns : list string) (ttl : string) (keyBits : Z) : M CertResult :=
  match spec with
  | None => raise (Plain "acme spec required")
  | Some spec =>
      _ ← guard_not (negb (ai_AcceptTOS spec)) (Plain "acme.acceptTOS must be true");
      let ns := acme_ns ns spec in
      stored ← stored_account_key ns spec;
      k ← match stored with Some k => mret k | None => GenerateAccountKey end;
      token ← dns_token ns spec;
      let cfg := mkAcmeConfig (ai_Server spec) (ai_Email spec) (ai_AcceptTOS spec) (ai_SkipTLSVerify spec) k in
      res ← acme_Issue cfg (solvers spec token) (mkOrderRequest cn dns [] (ttl_or_zero ttl) keyBits);
      _ ← match stored, ai_PrivateKeySecretRef spec with
          | None, Some ref => on_error (storeACMEAccountKey ns ref k) (λ e, raise (Plain ("persist acme account key: " +:+ error_string e)))
          | _, _ => mret tt
          end;
      mret (cert_of_order res)
  end.

Definition IssueFromResolved (ns : string) (r : ResolvedIssuer) (cn : string) (dns ips : list string) (ttl : string) (keyBits : Z) (clientUsage : bool) : M CertResult :=
  if ri_Mode r =s IssuerModeVault then
    if negb vault_configured then raise (Plain "vault client not configured")
    else vault_Issue (ri_VaultCA r) cn ttl dns ips keyBits clientUsage
  else if ri_Mode r =s IssuerModeSelfSigned then 
    res ← selfsigned_Issue (match ri_SelfSigned r with Some sp => ttl_or_zero (si_TTL sp) | None => 0 end) (mkOrderRequest cn dns ips (ttl_or_zero ttl) keyBits);
    mret (cert_of_order res)
  else if ri_Mode r =s IssuerModeACME then issueACME ns (ri_ACME r) cn dns ttl keyBits
  else raise (Plain ("unsupported issuer mode " +:+ quoted (ri_Mode r))).

(** ** controllers/certificate_controller.go *)

Definition set_status (cert : KNXVaultCertificate) (st : KNXVaultCertificateStatus) : KNXVaultCertificate := mkCertificate (kc_Meta cert) (kc_Spec cert) st.
Definition set_conditions (st : KNXVaultCertificateStatus) (conds : list Condition) : KNXVaultCertificateStatus :=
  mkCertStatus conds (ks_NotBefore st) (ks_NotAfter st) (ks_Serial st) (ks_CAID st) (ks_Revision st) (ks_VaultRole st) (ks_NextRenewTime st)
    (ks_FailureCount st) (ks_LastFailure st).
Definition set_next (st : KNXVaultCertificateStatus) (next : string) : KNXVaultCertificateStatus :=
  mkCertStatus (ks_Conditions st) (ks_NotBefore st) (ks_NotAfter st) (ks_Serial st) (ks_CAID st) (ks_Revision st) (ks_VaultRole st) next
    (ks_FailureCount st) (ks_LastFailure st).

(** controllers/fail.go *)
Definition failCert (now : Time) (cert : KNXVaultCertificate) (reason msg : string) : KNXVaultCertificate * Result :=
  let st := kc_Status cert in
  let n := ks_FailureCount st + 1 in
  (set_status cert (mkCertStatus (ReadyFalse now (ks_Conditions st) reason msg) (ks_NotBefore st) (ks_NotAfter st) (ks_Serial st) (ks_CAID st)
                      (ks_Revision st) (ks_VaultRole st) (ks_NextRenewTime st) n msg), ErrorResult n).

Definition fail_and_retry (now : Time) (cert : KNXVaultCertificate) (reason msg : string) : M Result :=
  let '(cert, r) := failCert now cert reason msg in
  _ ← ignore (update_certificate_status cert);
  mret r.

Definition certificate_label : string := "knxvault.kubenexis.dev/certificate".

Definition secretOwnedByCertificate (sec : Secret) (cert : KNXVaultCertificate) : bool :=
  existsb (λ ref, (ow_UID ref =s om_UID (kc_Meta cert)) && ow_Controller ref) (om_OwnerReferences (sc_Meta sec)) ||
  match om_Labels (sc_Meta sec) !! certificate_label with Some n => n =s om_Name (kc_Meta cert) | None => bool_decide (om_Labels (sc_Meta sec) ≠ ∅) && (om_Name (kc_Meta cert) =s "") end.

Definition merged (current sec : Secret) : Secret :=
  let m := sc_Meta current in
  mkSecret (mkMeta (om_Namespace m) (om_Name m) (om_UID m) (om_Labels (sc_Meta sec) ∪ om_Labels m) (om_Annotations (sc_Meta sec) ∪ om_Annotations m)
              (om_OwnerReferences m)) (sc_Type sec) (sc_Data sec).

Definition applyTLSSecret (cert : KNXVaultCertificate) (result : CertResult) (caID : string) (rev : Z) : M unit :=
  let name := kc_SecretName (kc_Spec cert) in
  let ns := om_Namespace (kc_Meta cert) in
  sec ← lift (SetControllerReference (om_UID (kc_Meta cert))
    (TLSSecret ns name (ce_CertPEM result) (ce_PrivateKeyPEM result) "" (ce_Serial result) (ce_ExpiresAt result) caID rev
       {[certificate_label := om_Name (kc_Meta cert)]}));
  current ← get_secret (ns, name);
  match current with
  | None => create_secret sec
  | Some current =>
      _ ← guard_not (negb (secretOwnedByCertificate current cert))
            (Plain ("secret " +:+ quoted name +:+ " exists and is not owned by Certificate " +:+ quoted (om_Name (kc_Meta cert)) +:+ "; refusing overwrite"));
      if (default "" (om_Annotations (sc_Meta current) !! AnnSerial) =s ce_Serial result) && (default "" (sc_Data current !! "tls.crt") =s ce_CertPEM result)
      then mret tt
      else update_secret (merged current sec)
  end.

Definition issueOrRenewMulti (cert : KNXVaultCertificate) (resolved : ResolvedIssuer) (dec : Decision) : M CertResult :=
  let issue :=
    IssueFromResolved (om_Namespace (kc_Meta cert)) resolved (kc_CommonName (kc_Spec cert)) (kc_DNSNames (kc_Spec cert)) (kc_IPAddresses (kc_Spec cert))
      (dc_TTL dec) (dc_KeyBits dec) (dc_ClientUsage dec) in
  if (ri_Mode resolved =s IssuerModeVault) && PreferRenew (ks_Serial (kc_Status cert)) (ks_CAID (kc_Status cert)) && vault_configured
  then on_error (vault_Renew (ks_CAID (kc_Status cert)) (ks_Serial (kc_Status cert)) (dc_TTL dec)) (λ _, issue)
  else issue.

Definition spec_view (cert : KNXVaultCertificate) (exists_ : bool) : SpecView :=
  let sp := kc_Spec cert in
  mkSpecView (kc_CommonName sp) (kc_SecretName sp) (kc_Delivery sp) (kc_Duration sp) (kc_RenewBefore sp) (kc_DNSNames sp) (kc_IPAddresses sp)
    (kc_Usages sp) (kc_KeySize sp) (ks_Serial (kc_Status cert)) (ks_CAID (kc_Status cert)) (ks_NotAfter (kc_Status cert)) exists_.

(** The second decision, on the certificate just issued. *)
Definition issued_view (cert : KNXVaultCertificate) (expiresAt : string) : SpecView :=
  let sp := kc_Spec cert in
  mkSpecView (kc_CommonName sp) (kc_SecretName sp) "" (kc_Duration sp) (kc_RenewBefore sp) [] [] [] 0 "" "" expiresAt true.

Definition secret_exists (cert : KNXVaultCertificate) : M bool :=
  let sp := kc_Spec cert in
  if (kc_Delivery sp =s "") || (kc_Delivery sp =s DeliverySecret) then
    found ← attempt (get_secret (om_Namespace (kc_Meta cert), kc_SecretName sp));
    match found with
    | Ok (Some _) => mret true
    | Ok None => mret false
    | Err e => if negb (kc_SecretName sp =s "") then raise e else mret false
    end
  else mret false.

Definition role_ca (resolved : ResolvedIssuer) : M string :=
  if (ri_Mode resolved =s IssuerModeVault) && negb (ri_VaultCA resolved =s "") && vault_configured then
    ca ← attempt (vault_GetCAByName (ri_VaultCA resolved));
    mret (match ca with Ok ca => cr_ID ca | Err _ => "" end)
  else mret "".

Definition issued_status (clk : nat → Time) (cert : KNXVaultCertificate) (result : CertResult) (caID role : string) (d2 : Decision) : KNXVaultCertificateStatus :=
  let st := kc_Status cert in
  let conds := ReadyTrue (clk 3%nat) (ks_Conditions st) "Issued" "certificate ready" in
  mkCertStatus (SetCondition (clk 4%nat) conds "Issuing" "False" "Issued" "done") (format_rfc3339 (clk 2%nat)) (ce_ExpiresAt result) (ce_Serial result) caID
    (ks_Revision st + 1) role (format_rfc3339 (dc_NextRenew d2)) 0 "".

(** [cert] is the copy of the certificate the reconciler works on. *)
Definition issue_certificate (clk : nat → Time) (cert : KNXVaultCertificate) (dec : Decision) : M Result :=
  let st := kc_Status cert in
  let cert := set_status cert (set_conditions st (SetCondition (clk 1%nat) (ks_Conditions st) "Issuing" "True" "Issuing" "issuing certificate")) in
  _ ← ignore (update_certificate_status cert);
  resolved ← attempt (ResolveIssuerFromRef (om_Namespace (kc_Meta cert)) (kc_IssuerRef (kc_Spec cert)));
  match resolved with
  | Err e => fail_and_retry (clk 2%nat) cert "IssuerNotReady" (error_string e)
  | Ok resolved =>
      result ← attempt (issueOrRenewMulti cert resolved dec);
      match result with
      | Err e => fail_and_retry (clk 2%nat) cert "VaultError" (error_string e)
      | Ok result =>
          roleCAID ← role_ca resolved;
          let role := ri_VaultCA resolved in
          let caID := ResolveCAID (ce_CAID result) (ks_CAID (kc_Status cert)) roleCAID in
          _ ← when (dc_Delivery dec =s DeliverySecret) (applyTLSSecret cert result caID (ks_Revision (kc_Status cert) + 1));
          let d2 := ValidateAndDecide (issued_view cert (ce_ExpiresAt result)) (clk 0%nat) in
          _ ← update_certificate_status (set_status cert (issued_status clk cert result caID (if role =s "" then ri_Mode resolved else role) d2));
          mret (mkResult (dc_RequeueAfter d2))
      end
  end.

Definition Certificate_Reconcile (clk : nat → Time) (req : key) : M Result :=
  cert ← get_certificate req;
  match cert with
  | None => mret (mkResult 0)
  | Some cert =>
      present ← secret_exists cert;
      let dec := ValidateAndDecide (spec_view cert present) (clk 0%nat) in
      if negb (dc_OK dec) then fail_and_retry (clk 1%nat) cert "InvalidSpec" (dc_InvalidMsg dec)
      else if negb (dc_NeedIssue dec) then
        _ ← ignore (update_certificate_status (set_status cert (set_next (kc_Status cert) (format_rfc3339 (dc_NextRenew dec)))));
        mret (mkResult (dc_RequeueAfter dec))
      else issue_certificate clk cert dec
  end.

(** ** controllers/certificaterequest_controller.go *)

Definition set_request (cr : KNXVaultCertificateRequest) (conds : list Condition) (cert serial notAfter ca : string) : KNXVaultCertificateRequest :=
  mkCertRequest (rq_Meta cr) (rq_Request cr) (rq_IssuerRef cr) (rq_Duration cr) (rq_SecretName cr) (rq_CommonName cr) (rq_DNSNames cr) (rq_Usages cr)
    conds cert serial notAfter ca.

Definition fail_request (now : Time) (cr : KNXVaultCertificateRequest) (reason : string) (e : error) (attempt : Z) : M Result :=
  _ ← ignore (update_request_status (set_request cr (ReadyFalse now (rq_Conditions cr) reason (error_string e)) (rq_Certificate cr) (rq_Serial cr)
                                       (rq_NotAfter cr) (rq_CACertificate cr)));
  mret (ErrorResult attempt).

Definition with_data (current : Secret) (data : gmap string string) : Secret := mkSecret (sc_Meta current) (sc_Type current) data.

Definition deliver_request (cr : KNXVaultCertificateRequest) (certPEM caPEM : string) : M unit :=
  let sec := CertOnlySecret (om_Namespace (rq_Meta cr)) (rq_SecretName cr) certPEM caPEM in
  let sec := match SetControllerReference (om_UID (rq_Meta cr)) sec with Ok sec => sec | Err _ => sec end in
  current ← get_secret (om_Namespace (rq_Meta cr), rq_SecretName cr);
  match current with
  | None => create_secret sec
  | Some current => update_secret (with_data current (sc_Data sec))
  end.

Definition request_result (cr : KNXVaultCertificateRequest) (role ttl : string) : M CertResult :=
  if negb (rq_Request cr =s "") then vault_SignCSR role (rq_Request cr) ttl
  else vault_Issue role (if rq_CommonName cr =s "" then om_Name (rq_Meta cr) else rq_CommonName cr) ttl (rq_DNSNames cr) [] 0 (IsClientUsage (rq_Usages cr)).

Definition CertificateRequest_Reconcile (now : Time) (req : key) : M Result :=
  cr ← get_request req;
  match cr with
  | None => mret (mkResult 0)
  | Some cr =>
      if negb (rq_Serial cr =s "") && negb (rq_Certificate cr =s "") then mret (mkResult 0)
      else
        role ← attempt (ResolveVaultRole (om_Namespace (rq_Meta cr)) (rq_IssuerRef cr));
        match role with
        | Err e => fail_request now cr "IssuerNotReady" e 1
        | Ok role =>
            result ← attempt (request_result cr role (if rq_Duration cr =s "" then "2160h" else rq_Duration cr));
            match result with
            | Err e => fail_request now cr "VaultError" e 2
            | Ok result =>
                let caPEM := List.last (ce_CAChain result) "" in
                _ ← update_request_status (set_request cr (ReadyTrue now (rq_Conditions cr) "Issued" "CSR signed or cert issued") (ce_CertPEM result)
                                             (ce_Serial result) (ce_ExpiresAt result) caPEM);
                _ ← when (negb (rq_SecretName cr =s "")) (deliver_request cr (ce_CertPEM result) caPEM);
                mret (mkResult 0)
            end
        end
  end.

(** ** controllers/ca_controller.go *)

Definition set_ca (ca : KNXVaultCA) (conds : list Condition) (id serial notAfter name : string) : KNXVaultCA :=
  mkCA (ca_Meta ca) (ca_Spec ca) (mkCAStatus conds id serial notAfter name).

Definition parent_name (ca : KNXVaultCA) : M string :=
  match cs_ParentRef (ca_Spec ca) with
  | None => mret ""
  | Some ref =>
      if negb (ir_Namespace ref =s "") || negb (ir_Kind ref =s "") then
        p ← attempt (ResolveVaultRole (om_Namespace (ca_Meta ca)) ref);
        mret (match p with Ok p => p | Err _ => ir_Name ref end)
      else mret (ir_Name ref)
  end.

Definition create_ca (ca : KNXVaultCA) (vaultName : string) : M CAResult :=
  let sp := ca_Spec ca in
  let ttl := if cs_TTL sp =s "" then "87600h" else cs_TTL sp in
  let typ := if ToLower (cs_Type sp) =s "" then "root" else ToLower (cs_Type sp) in
  if typ =s "root" then vault_CreateRoot vaultName (cs_CommonName sp) ttl (cs_KeyBits sp)
  else if typ =s "intermediate" then
    parent ← parent_name ca;
    if parent =s "" then raise (Plain "intermediate CA requires parentRef")
    else vault_CreateIntermediate parent vaultName (cs_CommonName sp) ttl (cs_KeyBits sp)
  else raise (Plain ("unsupported CA type " +:+ quoted (cs_Type sp))).

Definition CA_Reconcile (now : Time) (req : key) : M Result :=
  ca ← get_ca req;
  match ca with
  | None => mret (mkResult 0)
  | Some ca =>
      let st := ca_Status ca in
      let vaultName := if cs_VaultName (ca_Spec ca) =s "" then om_Name (ca_Meta ca) else cs_VaultName (ca_Spec ca) in
      existing ← attempt (vault_GetCAByName vaultName);
      match existing with
      | Ok x =>
          _ ← update_ca_status (set_ca ca (ReadyTrue now (ct_Conditions st) "Created" "CA already present in KNXVault") (cr_ID x) (cr_Serial x) (cr_ExpiresAt x) vaultName);
          mret (mkResult 0)
      | Err _ =>
          if negb (ct_CAID st =s "") && negb (ct_VaultName st =s "") then mret (mkResult 0)
          else
            created ← attempt (on_error (create_ca ca vaultName) (λ e, on_error (vault_GetCAByName vaultName) (λ _, raise e)));
            match created with
            | Err e =>
                _ ← ignore (update_ca_status (set_ca ca (ReadyFalse now (ct_Conditions st) "VaultError" (error_string e)) (ct_CAID st) (ct_Serial st) (ct_NotAfter st) (ct_VaultName st)));
                raise e
            | Ok x =>
                _ ← update_ca_status (set_ca ca (ReadyTrue now (ct_Conditions st) "Created" "CA provisioned in KNXVault") (cr_ID x) (cr_Serial x) (cr_ExpiresAt x)
                                        (if cr_Name x =s "" then vaultName else cr_Name x));
                mret (mkResult 0)
            end
      end
  end.

(** ** controllers/issuer_controller.go *)

Definition ensureVaultCA (ns vaultCAName : string) (ref : option IssuerRef) : M unit :=
  if negb vault_configured then raise (Plain "vault client not configured")
  else
    found ← attempt (vault_GetCAByName vaultCAName);
    let missing := raise (Plain ("vault CA " +:+ quoted vaultCAName +:+ " not found")) in
    match found, ref with
    | Ok _, _ => mret tt
    | Err _, None => missing
    | Err _, Some ref =>
        if ir_Name ref =s "" then missing
        else
          ca ← attempt (must (get_ca (ns_of ref ns, ir_Name ref)));
          match ca with
          | Err _ => missing
          | Ok ca => if existsb (λ c, (cd_Type c =s "Ready") && (cd_Status c =s "True")) (ct_Conditions (ca_Status ca)) then mret tt
                     else raise (Plain ("CA " +:+ ir_Name ref +:+ " not Ready yet"))
          end
    end.

Definition ensureIssuerReady (ns : string) (r : ResolvedIssuer) : M unit :=
  if ri_Mode r =s IssuerModeVault then ensureVaultCA ns (ri_VaultCA r) (ri_CARef r)
  else if ri_Mode r =s IssuerModeSelfSigned then mret tt
  else if ri_Mode r =s IssuerModeACME then
    match ri_ACME r with
    | None => raise (Plain "acme config required")
    | Some a =>
        if negb (ai_AcceptTOS a) then raise (Plain "acme.acceptTOS must be true")
        else if negb (ai_HTTP01 a) && bool_decide (ai_DNS01 a = None) then raise (Plain "acme issuer requires http01 and/or dns01")
        else
          info ← ProbeDirectory a;
          if negb (ai_Server a =s "") && negb info.1 then raise (Plain ("acme directory: " +:+ info.2)) else mret tt
    end
  else raise (Plain ("unknown mode " +:+ ri_Mode r)).

Definition set_issuer (iss : KNXVaultIssuer) (conds : list Condition) (mode : string) : KNXVaultIssuer := mkIssuer (iu_Meta iss) (iu_Spec iss) conds mode.

(** Both reconcilers; a cluster issuer has no namespace. *)
Definition reconcile_issuer (update : KNXVaultIssuer → M unit) (now : Time) (ns : string) (iss : KNXVaultIssuer) : M Result :=
  match resolveMulti (iu_Spec iss) with
  | Err e =>
      _ ← ignore (update (set_issuer iss (ReadyFalse now (iu_Conditions iss) "InvalidSpec" (error_string e)) ""));
      mret (ErrorResult 1)
  | Ok r =>
      ready ← attempt (ensureIssuerReady ns r);
      match ready with
      | Err e =>
          _ ← ignore (update (set_issuer iss (ReadyFalse now (iu_Conditions iss) "PendingIssuer" (error_string e)) (ri_Mode r)));
          mret (ErrorResult 2)
      | Ok _ =>
          _ ← update (set_issuer iss (ReadyTrue now (iu_Conditions iss) "Configured" "issuer ready") (ri_Mode r));
          mret (mkResult 0)
      end
  end.

Definition Issuer_Reconcile (now : Time) (req : key) : M Result :=
  iss ← get_issuer req;
  match iss with None => mret (mkResult 0) | Some iss => reconcile_issuer update_issuer_status now (om_Namespace (iu_Meta iss)) iss end.
Definition ClusterIssuer_Reconcile (now : Time) (name : string) : M Result :=
  iss ← get_clusterissuer name;
  match iss with None => mret (mkResult 0) | Some iss => reconcile_issuer update_clusterissuer_status now "" iss end.
End controllers.

(** ** controllers/ingress_controller.go: what a certificate is asked for *)

Definition parseIssuerAnnotation (ann : string) : string * string :=
  match SplitN2 ann "/" with
  | [kind; name] => (kind, name)
  | _ => ("KNXVaultClusterIssuer", ann)
  end.

(** ** What the API server promises *)

Record View := mkView {
  v_certs : gmap key KNXVaultCertificate;
  v_issuers : gmap key KNXVaultIssuer;
  v_clusterissuers : gmap string KNXVaultIssuer;
  v_secrets : gmap key Secret;
}.
Definition with_secrets (v : View) (m : gmap key Secret) : View := mkView (v_certs v) (v_issuers v) (v_clusterissuers v) m.
Definition with_certs (v : View) (m : gmap key KNXVaultCertificate) : View := mkView m (v_issuers v) (v_clusterissuers v) (v_secrets v).

Section same_view.
Context {S : Type} (view : S → View).
Definition same_view : relation S := λ s s', view s' = view s.
#[global] Instance same_view_preorder : PreOrder same_view.
Proof. split; [by intros s|]. intros s1 s2 s3. unfold same_view. congruence. Qed.
End same_view.

(** Reads, the vault and the ACME package change no object the certificate
    reconciler works on; a write that fails may have been applied. *)
Class WorldLaws (S : Type) `{World S} := {
  view : S → View;
  r_certificate : ∀ k, always (same_view view) (get_certificate k);
  r_certificate_ok : ∀ k s s' o, get_certificate k s = (s', Ok o) → v_certs (view s) !! k = o ∧ ∀ c, o = Some c → meta_key (kc_Meta c) = k;
  r_ca : ∀ k, always (same_view view) (get_ca k);
  r_issuer : ∀ k, always (same_view view) (get_issuer k);
  r_issuer_ok : ∀ k s s' o, get_issuer k s = (s', Ok o) → v_issuers (view s) !! k = o;
  r_clusterissuer : ∀ k, always (same_view view) (get_clusterissuer k);
  r_clusterissuer_ok : ∀ k s s' o, get_clusterissuer k s = (s', Ok o) → v_clusterissuers (view s) !! k = o;
  r_secret : ∀ k, always (same_view view) (get_secret k);
  r_secret_ok : ∀ k s s' o, get_secret k s = (s', Ok o) → v_secrets (view s) !! k = o ∧ ∀ c, o = Some c → meta_key (sc_Meta c) = k;
  r_caname : ∀ n, always (same_view view) (vault_GetCAByName n);
  r_issue : ∀ a b c d e f g, always (same_view view) (vault_Issue a b c d e f g);
  r_renew : ∀ a b c, always (same_view view) (vault_Renew a b c);
  r_selfsigned : ∀ d r, always (same_view view) (selfsigned_Issue d r);
  r_genkey : always (same_view view) GenerateAccountKey;
  r_acme : ∀ c sp r, always (same_view view) (acme_Issue c sp r);
  w_status : ∀ c s s' r, update_certificate_status c s = (s', r) →
    view s' = view s ∧ r ≠ Ok tt ∨
    (∃ c0, v_certs (view s) !! meta_key (kc_Meta c) = Some c0 ∧ view s' = with_certs (view s) (<[meta_key (kc_Meta c) := set_status c0 (kc_Status c)]> (v_certs (view s))));
  w_create : ∀ sec s s' r, create_secret sec s = (s', r) →
    view s' = view s ∧ r ≠ Ok tt ∨ v_secrets (view s) !! meta_key (sc_Meta sec) = None ∧ view s' = with_secrets (view s) (<[meta_key (sc_Meta sec) := sec]> (v_secrets (view s)));
  w_update : ∀ sec s s' r, update_secret sec s = (s', r) →
    view s' = view s ∧ r ≠ Ok tt ∨ view s' = with_secrets (view s) (<[meta_key (sc_Meta sec) := sec]> (v_secrets (view s)));
  (** A controller reference leaves the rest of the object as it is. *)
  owner_set : ∀ uid sec sec', SetControllerReference uid sec = Ok sec' →
    sc_Data sec' = sc_Data sec ∧ sc_Type sec' = sc_Type sec ∧ meta_key (sc_Meta sec') = meta_key (sc_Meta sec) ∧
    om_Labels (sc_Meta sec') = om_Labels (sc_Meta sec) ∧ om_Annotations (sc_Meta sec') = om_Annotations (sc_Meta sec);
}.

(** ** Secrets of others are left alone *)

(** From a state in [P], a run ends in a state in [Q]. *)
Definition moves {S A} (P Q : S → Prop) (m : prog S A) : Prop := ∀ s, P s → Q (m s).1.

Lemma moves_bind {S A B} (P Q : S → Prop) (R : A → Prop) (m : prog S A) (k : A → prog S B) :
  (∀ s, P s → Q s) → moves P P m → (∀ s s' a, P s → m s = (s', Ok a) → R a) → (∀ a, R a → moves P Q (k a)) → moves P Q (m ≫= k).
Proof.
  intros HPQ Hm HR Hk s Hs. specialize (Hm s Hs). specialize (HR s). unfold mbind, prog_bind. destruct (m s) as [s1 [a|e]]; cbn in *; [|by apply HPQ].
  apply Hk; [by eapply HR|done].
Qed.
Lemma moves_then {S A B} (P Q T : S → Prop) (m : prog S A) (k : A → prog S B) :
  moves P Q m → (∀ s, Q s → T s) → (∀ a, moves Q T (k a)) → moves P T (m ≫= k).
Proof. intros Hm HQT Hk s Hs. specialize (Hm s Hs). unfold mbind, prog_bind. destruct (m s) as [s1 [a|e]]; cbn in *; [by apply Hk|by apply HQT]. Qed.
Lemma moves_weak {S A} (P P' Q Q' : S → Prop) (m : prog S A) : (∀ s, P s → P' s) → (∀ s, Q' s → Q s) → moves P' Q' m → moves P Q m.
Proof. intros HP HQ Hm s Hs. by apply HQ, Hm, HP. Qed.
Lemma moves_pure {S A} (P Q : S → Prop) (r : S → res A) : (∀ s, P s → Q s) → moves P Q (λ s, (s, r s)).
Proof. intros HPQ s Hs. by apply HPQ. Qed.

Section clobber.
Context {S : Type} {world : World S} {laws : WorldLaws S} {texts : Texts}.
Context (v0 : View) (cert : KNXVaultCertificate).

(** The ACME issuer a certificate names, if it names one. *)
Definition cert_acme : option ACMEIssuerSpec :=
  let ref := kc_IssuerRef (kc_Spec cert) in
  let kind := ToLower (ir_Kind ref) in
  iss ← (if is_issuer_kind kind then v_issuers v0 !! (ns_of ref (om_Namespace (kc_Meta cert)), ir_Name ref)
         else if is_cluster_kind kind then v_clusterissuers v0 !! ir_Name ref else None);
  match resolveMulti (iu_Spec iss) with Ok r => ri_ACME r | Err _ => None end.

(** The Secret for the account key of that issuer. *)
Definition account_secret (k : key) : Prop :=
  ∃ spec ref, cert_acme = Some spec ∧ ai_PrivateKeySecretRef spec = Some ref ∧ k = (acme_ns (om_Namespace (kc_Meta cert)) spec, sk_Name ref).

Definition tls_key : key := (om_Namespace (kc_Meta cert), kc_SecretName (kc_Spec cert)).

Definition may_change (k : key) : Prop :=
  account_secret k ∨ k = tls_key ∧ ∀ sec, v_secrets v0 !! k = Some sec → secretOwnedByCertificate sec cert = true.

(** The states in which only secrets in [C] differ from [v0]. *)
Definition only (C : key → Prop) (s : S) : Prop :=
  v_issuers (view s) = v_issuers v0 ∧ v_clusterissuers (view s) = v_clusterissuers v0 ∧
  ∀ k, ¬ C k → v_secrets (view s) !! k = v_secrets v0 !! k.

Lemma only_weak (C D : key → Prop) s : (∀ k, C k → D k) → only C s → only D s.
Proof. intros HCD (H1 & H2 & H3). split_and!; [done..|]. intros k Hk. apply H3. auto. Qed.

Lemma moves_same C {A} (m : prog S A) : always (same_view view) m → moves (only C) (only C) m.
Proof. intros Hm s. specialize (Hm s). unfold same_view, only in *. by rewrite Hm. Qed.

Lemma moves_status C c : moves (only C) (only C) (update_certificate_status c).
Proof.
  intros s Hs. destruct (update_certificate_status c s) as [s' r] eqn:E. unfold only in *. cbn.
  by apply w_status in E as [[-> _]|(c0 & _ & ->)].
Qed.

Lemma moves_write (C : key → Prop) (m : prog S unit) sec :
  (∀ s s' r, m s = (s', r) → view s' = view s ∨ view s' = with_secrets (view s) (<[meta_key (sc_Meta sec) := sec]> (v_secrets (view s)))) →
  ¬ ¬ C (meta_key (sc_Meta sec)) → moves (only C) (only C) m.
Proof.
  intros Hm HC s Hs. destruct (m s) as [s' r] eqn:E. apply Hm in E. cbn. destruct E as [E|E]; unfold only in *; rewrite E; [done|].
  destruct Hs as (H1 & H2 & H3). split_and!; [done..|]. intros k Hk. cbn. rewrite lookup_insert_ne; [by apply H3|]. intros <-. done.
Qed.

Lemma moves_create (C : key → Prop) sec : ¬ ¬ C (meta_key (sc_Meta sec)) → moves (only C) (only C) (create_secret sec).
Proof. intros HC. apply (moves_write C _ sec); [|done]. intros s s' r [[? _]|[_ ?]]%w_create; auto. Qed.
Lemma moves_update (C : key → Prop) sec : ¬ ¬ C (meta_key (sc_Meta sec)) → moves (only C) (only C) (update_secret sec).
Proof. intros HC. apply (moves_write C _ sec); [|done]. intros s s' r [[? _]|?]%w_update; auto. Qed.

#[local] Hint Resolve r_certificate r_ca r_issuer r_clusterissuer r_secret r_caname r_issue r_renew r_selfsigned r_genkey r_acme : prog.

Lemma must_same {A} (m : prog S (option A)) : always (same_view view) m → always (same_view view) (must m).
Proof. intros Hm. unfold must. walk_prog. Qed.
#[local] Hint Resolve must_same : prog.

Lemma resolve_role_same ns ref : always (same_view view) (ResolveVaultRole ns ref).
Proof. unfold ResolveVaultRole. walk_prog. Qed.
#[local] Hint Resolve resolve_role_same : prog.
Lemma resolve_issuer_same ns ref : always (same_view view) (ResolveIssuerFromRef ns ref).
Proof. unfold ResolveIssuerFromRef. walk_prog. Qed.

Lemma must_run {A} (m : prog S (option A)) s s' a : must m s = (s', Ok a) → m s = (s', Ok (Some a)).
Proof. unfold must. intros Hr. inv_run. destruct x0 as [b|]; inv_run. done. Qed.

Lemma resolved_acme r s s' : v_issuers (view s) = v_issuers v0 → v_clusterissuers (view s) = v_clusterissuers v0 →
  ResolveIssuerFromRef (om_Namespace (kc_Meta cert)) (kc_IssuerRef (kc_Spec cert)) s = (s', Ok r) → ri_ACME r = None ∨ ri_ACME r = cert_acme.
Proof.
  intros E1 E2. unfold ResolveIssuerFromRef, cert_acme. cbv zeta. destruct (is_ca_kind _) eqn:Ek; [intros Hr; inv_run; by left|].
  destruct (is_issuer_kind _) eqn:Ei.
  - intros Hr. inv_run. match goal with H : must _ _ = _ |- _ => apply must_run, r_issuer_ok in H as Hl end. rewrite E1 in Hl. rewrite Hl. cbn [mbind option_bind]. right.
    match goal with H : resolveMulti _ = _ |- _ => by rewrite H end.
  - destruct (is_cluster_kind _) eqn:Ec; [|intros Hr; inv_run].
    intros Hr. inv_run. match goal with H : must _ _ = _ |- _ => apply must_run, r_clusterissuer_ok in H as Hl end. rewrite E2 in Hl. rewrite Hl. cbn [mbind option_bind]. right.
    match goal with H : resolveMulti _ = _ |- _ => by rewrite H end.
Qed.

Lemma moves_step C {A B} (m : prog S A) (k : A → prog S B) : always (same_view view) m → (∀ a, moves (only C) (only C) (k a)) → moves (only C) (only C) (m ≫= k).
Proof. intros Hm Hk. apply (moves_bind _ _ (λ _, True)); [done|by apply moves_same|done|auto]. Qed.

Lemma moves_current (C D : key → Prop) {B} k (f : option Secret → prog S B) : (∀ k, C k → D k) →
  (∀ o, (∀ c, o = Some c → meta_key (sc_Meta c) = k ∧ (¬ C k → v_secrets v0 !! k = Some c)) → moves (only C) (only D) (f o)) →
  moves (only C) (only D) (get_secret k ≫= f).
Proof.
  intros HCD Hf. eapply (moves_bind _ _ (λ o, ∀ c, o = Some c → meta_key (sc_Meta c) = k ∧ (¬ C k → v_secrets v0 !! k = Some c))).
  - intros s. by apply only_weak.
  - apply moves_same, r_secret.
  - intros s s' o (_ & _ & Hs) [E Hk]%r_secret_ok c ->. split; [by apply Hk|]. intros Hn. by rewrite <-Hs.
  - done.
Qed.

Lemma store_key_moves spec ref k : cert_acme = Some spec → ai_PrivateKeySecretRef spec = Some ref →
  moves (only account_secret) (only account_secret) (storeACMEAccountKey (acme_ns (om_Namespace (kc_Meta cert)) spec) ref k).
Proof.
  intros Ha Hr. assert (Hin : account_secret (acme_ns (om_Namespace (kc_Meta cert)) spec, sk_Name ref)) by (exists spec, ref; done).
  unfold storeACMEAccountKey. apply moves_step; [eauto with prog|intros _]. apply moves_step; [eauto with prog|intros pem]. apply moves_current; [done|].
  intros [sec|] Ho; [|apply moves_create; auto]. apply moves_update. cbn. destruct (Ho sec eq_refl) as [-> _]. auto.
Qed.

Lemma load_key_same ns ref : always (same_view view) (loadACMEAccountKey ns ref).
Proof. unfold loadACMEAccountKey. walk_prog. Qed.
Lemma read_key_same ns ref : always (same_view view) (readSecretKey ns ref).
Proof. unfold readSecretKey. walk_prog. Qed.
#[local] Hint Resolve load_key_same read_key_same : prog.

Lemma issueACME_moves o cn dns ttl bits : o = None ∨ o = cert_acme →
  moves (only account_secret) (only account_secret) (issueACME (om_Namespace (kc_Meta cert)) o cn dns ttl bits).
Proof.
  intros Ho. unfold issueACME. destruct o as [spec|]; [|by apply moves_pure]. destruct Ho as [|Ho]; [done|]. symmetry in Ho.
  apply moves_step; [eauto with prog|intros _]. apply moves_step; [unfold stored_account_key; walk_prog|intros stored].
  apply moves_step; [destruct stored; eauto with prog|intros k]. apply moves_step; [unfold dns_token; walk_prog|intros token].
  apply moves_step; [eauto with prog|intros r]. apply (moves_bind _ _ (λ _, True)); [done| |done|intros _ _; by apply moves_pure].
  destruct stored; [by apply moves_pure|]. destruct (ai_PrivateKeySecretRef spec) as [ref|] eqn:Er; [|by apply moves_pure].
  intros s Hs. assert (Hm := store_key_moves spec ref k Ho Er s Hs). unfold on_error. by destruct (storeACMEAccountKey _ _ _ s) as [s1 [[]|e]].
Qed.

Lemma issue_moves dec r : ri_ACME r = None ∨ ri_ACME r = cert_acme →
  moves (only account_secret) (only account_secret) (issueOrRenewMulti cert r dec).
Proof.
  intros Hr. unfold issueOrRenewMulti.
  assert (Hi : moves (only account_secret) (only account_secret)
    (IssueFromResolved (om_Namespace (kc_Meta cert)) r (kc_CommonName (kc_Spec cert)) (kc_DNSNames (kc_Spec cert)) (kc_IPAddresses (kc_Spec cert))
      (dc_TTL dec) (dc_KeyBits dec) (dc_ClientUsage dec))).
  { unfold IssueFromResolved. repeat case_match; try by apply moves_pure. all: first [solve [apply moves_same; walk_prog]|by apply issueACME_moves]. }
  case_match; [|done]. intros s Hs. unfold on_error. assert (Hv := moves_same account_secret _ (r_renew (ks_CAID (kc_Status cert)) (ks_Serial (kc_Status cert)) (dc_TTL dec)) s Hs).
  destruct (vault_Renew _ _ _ s) as [s1 [a|e]]; [done|]. by apply Hi.
Qed.

Lemma apply_moves result caID rev : moves (only account_secret) (only may_change) (applyTLSSecret cert result caID rev).
Proof.
  assert (Hsub : ∀ k, account_secret k → may_change k) by (intros k Hk; by left).
  unfold applyTLSSecret. cbv zeta. eapply (moves_bind _ _ (λ sec : Secret, meta_key (sc_Meta sec) = tls_key)).
  - intros s. by apply only_weak.
  - by apply moves_pure.
  - intros s s' sec _ [= _ E]. by apply owner_set in E as (_ & _ & -> & _).
  - intros sec Hk. apply moves_current; [done|]. intros [current|] Ho.
    + destruct (Ho current eq_refl) as [Hck Hold].
      destruct (secretOwnedByCertificate current cert) eqn:Eown; [|apply moves_pure; intros s; by apply only_weak].
      assert (Hm : ¬ ¬ may_change tls_key).
      { intros Hn. apply Hn. right. split; [done|]. intros sec0 Hs0. assert (Hna : ¬ account_secret tls_key) by auto. assert (Hv : v_secrets v0 !! tls_key = Some current) by (by apply Hold). rewrite Hv in Hs0. by injection Hs0 as <-. }
      apply (moves_weak _ (only may_change) _ (only may_change)); [intros s; by apply only_weak|done|]. cbn [negb].
      apply (moves_bind _ _ (λ _, True)); [done|by apply moves_pure|done|intros _ _]. case_match; [by apply moves_pure|]. apply moves_update. change (meta_key (sc_Meta (merged current sec))) with (meta_key (sc_Meta current)). by rewrite Hck.
    + intros s Hs. destruct (create_secret sec s) as [s' r] eqn:E. cbn [fst].
      destruct (w_create sec s s' r E) as [[Ev _]|[Hnone Ev]]; [apply (only_weak account_secret); [done|]; unfold only in *; by rewrite Ev|].
      destruct Hs as (H1 & H2 & H3). unfold only. rewrite Ev. split_and!; [done..|]. intros k Hn. cbn. rewrite Hk in *.
      assert (Hna : ¬ account_secret k) by auto. rewrite lookup_insert_ne; [by apply H3|]. intros <-. apply Hn. right. split; [done|].
      intros sec0 Hs0. rewrite <-H3 in Hs0 by done. by rewrite Hnone in Hs0.
Qed.

Lemma certificate_moves clk dec : moves (only account_secret) (only may_change) (issue_certificate clk cert dec).
Proof.
  assert (Hsub : ∀ s, only account_secret s → only may_change s) by (intros s; apply only_weak; intros k Hk; by left).
  unfold issue_certificate. cbv zeta. set (cert' := set_status cert _).
  assert (Hret : ∀ P now c reason msg, moves (only P) (only P) (fail_and_retry now c reason msg)).
  { intros P now c reason msg. unfold fail_and_retry. destruct (failCert _ _ _ _) as [c' r]. apply (moves_bind _ _ (λ _, True)); [done| |done|intros _ _; by apply moves_pure].
    intros s Hs. by apply moves_status. }
  apply (moves_bind _ _ (λ _, True)); [done| |done|intros _ _]; [intros s Hs; by apply moves_status|].
  eapply (moves_bind _ _ (λ r, match r with Ok r => ri_ACME r = None ∨ ri_ACME r = cert_acme | Err _ => True end)); [done| | |].
  { intros s Hs. assert (Hm := moves_same account_secret _ (resolve_issuer_same (om_Namespace (kc_Meta cert')) (kc_IssuerRef (kc_Spec cert'))) s Hs).
    unfold attempt. by destruct (ResolveIssuerFromRef _ _ s). }
  { intros s s' r (H1 & H2 & _) Hr. unfold attempt in Hr. destruct (ResolveIssuerFromRef _ _ s) as [s1 r1] eqn:E. injection Hr as <- <-. destruct r1 as [r1|]; [|done].
    by eapply resolved_acme. }
  intros [r|e] Hr; [|eapply moves_weak; [|exact Hsub|apply Hret]; done].
  apply (moves_bind _ _ (λ _, True)); [done| |done|intros result _].
  { intros s Hs. assert (Hm := issue_moves dec r Hr s Hs). unfold attempt. change (issueOrRenewMulti cert' r dec s) with (issueOrRenewMulti cert r dec s). by destruct (issueOrRenewMulti cert r dec s). }
  destruct result as [result|e]; [|eapply moves_weak; [|exact Hsub|apply Hret]; done].
  apply (moves_bind _ _ (λ _, True)); [done| |done|intros roleCA _]; [apply moves_same; unfold role_ca; walk_prog|].
  apply (moves_then _ (only may_change)); [|done|].
  { destruct (dc_Delivery dec =s DeliverySecret); [|by apply moves_pure]. cbn [when].
    exact (apply_moves result (ResolveCAID (ce_CAID result) (ks_CAID (kc_Status cert')) roleCA) (ks_Revision (kc_Status cert') + 1)). }
  intros _. apply (moves_bind _ _ (λ _, True)); [done|apply moves_status|done|intros _ _; by apply moves_pure].
Qed.
End clobber.

Section reconcile.
Context {S : Type} {world : World S} {laws : WorldLaws S} {texts : Texts}.

(** C35. The reconciler of a certificate changes no Secret but the one the certificate
    names, and that only when it did not exist or is owned by the certificate, and
    the Secret of the account key of the ACME issuer the certificate names:
    whatever the objects in the cluster, and whichever call fails. *)
Theorem secrets_not_clobbered clk req s cert k : v_certs (view s) !! req = Some cert → ¬ may_change (view s) cert k →
  v_secrets (view (Certificate_Reconcile clk req s).1) !! k = v_secrets (view s) !! k.
Proof.
  intros Hc Hk. assert (H0 : only (view s) (account_secret (view s) cert) s) by (unfold only; done).
  assert (Hsub : ∀ t, only (view s) (account_secret (view s) cert) t → only (view s) (may_change (view s) cert) t) by (intros t; apply only_weak; intros ? ?; by left).
  assert (Hm : only (view s) (may_change (view s) cert) (Certificate_Reconcile clk req s).1); [|by apply Hm].
  unfold Certificate_Reconcile, mbind, prog_bind. assert (Hg := r_certificate req s). destruct (get_certificate req s) as [s1 [o|e]] eqn:Eg; cbn in *;
    [|apply Hsub; unfold same_view, only in *; by rewrite Hg].
  assert (H1 : only (view s) (account_secret (view s) cert) s1) by (unfold same_view, only in *; by rewrite Hg).
  destruct (r_certificate_ok _ _ _ _ Eg) as [E _]. rewrite Hc in E. subst o.
  assert (Hp : always (same_view view) (secret_exists cert)).
  { unfold secret_exists. walk_prog. all: eauto using r_secret with prog. }
  assert (H2 := moves_same _ _ _ Hp s1 H1). destruct (secret_exists cert s1) as [s2 [present|e]]; cbn in *; [|by apply Hsub].
  destruct (negb (dc_OK _)).
  { apply Hsub. unfold fail_and_retry, failCert, mbind, prog_bind, ignore. cbn. by apply moves_status. }
  destruct (negb (dc_NeedIssue _)); [apply Hsub; cbn; by apply moves_status|]. by apply certificate_moves.
Qed.

(** The Secret at a key carries a certificate and its serial number. *)
Definition delivered (v : View) (k : key) (certPEM serial : string) : Prop :=
  ∃ sec, v_secrets v !! k = Some sec ∧ default "" (sc_Data sec !! "tls.crt") = certPEM ∧ default "" (om_Annotations (sc_Meta sec) !! AnnSerial) = serial.

Lemma apply_delivers cert result caID rev s s' : applyTLSSecret cert result caID rev s = (s', Ok tt) →
  v_certs (view s') = v_certs (view s) ∧ delivered (view s') (tls_key cert) (ce_CertPEM result) (ce_Serial result).
Proof.
  unfold applyTLSSecret. cbv zeta. intros Hr. apply prog_bind_run in Hr as (s0 & sec & E & Hr). injection E as <- E. apply owner_set in E as (Ed & _ & Ek & _ & Ea).
  apply prog_bind_run in Hr as (s1 & o & Eg & Hr). destruct (r_secret_ok _ _ _ _ Eg) as [Eo Eko]. assert (Ev := r_secret (om_Namespace (kc_Meta cert), kc_SecretName (kc_Spec cert)) s).
  rewrite Eg in Ev. unfold same_view in Ev. cbn in Ev.
  assert (Hd : sc_Data sec !! "tls.crt" = Some (ce_CertPEM result)) by (rewrite Ed; reflexivity).
  assert (Ha : om_Annotations (sc_Meta sec) !! AnnSerial = Some (ce_Serial result)) by (rewrite Ea; apply lookup_insert_eq).
  destruct o as [current|].
  - apply prog_bind_run in Hr as (s2 & [] & Hgu & Hr). apply guard_not_run in Hgu as [_ ->]. case_match eqn:Esame.
    + injection Hr as <-. apply andb_true_iff in Esame as [H1%bool_decide_eq_true H2%bool_decide_eq_true]. split; [by rewrite Ev|]. rewrite Ev. by exists current.
    + apply w_update in Hr as [[_ []]|Hr]; [done|]. rewrite Hr, Ev. split; [done|]. exists (merged current sec).
      change (meta_key (sc_Meta (merged current sec))) with (meta_key (sc_Meta current)). rewrite (Eko current eq_refl). cbn.
      split; [by rewrite lookup_insert_eq|]. split; [by rewrite Hd|]. by erewrite lookup_union_Some_l.
  - apply w_create in Hr as [[_ []]|[_ Hr]]; [done|]. rewrite Hr, Ev. split; [done|]. exists sec. rewrite Ek. cbn. split; [by rewrite lookup_insert_eq|].
    by rewrite Hd, Ha.
Qed.

(** Programs that leave the certificates as they are. *)
Definition same_certs : relation S := λ s s', v_certs (view s') = v_certs (view s).
#[local] Instance same_certs_preorder : PreOrder same_certs.
Proof. split; [by intros s|]. intros s1 s2 s3. unfold same_certs. congruence. Qed.

Lemma same_view_certs {A} (m : prog S A) : always (same_view view) m → always same_certs m.
Proof. apply always_mono. intros s s' E. unfold same_certs. by rewrite E. Qed.
Lemma create_certs sec : always same_certs (create_secret sec).
Proof. intros s. destruct (create_secret sec s) as [s' r] eqn:E. unfold same_certs. cbn. by apply w_create in E as [[-> _]|[_ ->]]. Qed.
Lemma update_certs sec : always same_certs (update_secret sec).
Proof. intros s. destruct (update_secret sec s) as [s' r] eqn:E. unfold same_certs. cbn. by apply w_update in E as [[-> _]| ->]. Qed.

#[local] Hint Resolve create_certs update_certs : prog.
#[local] Hint Extern 1 (always same_certs (get_secret _)) => apply same_view_certs, r_secret : prog.
#[local] Hint Extern 1 (always same_certs (vault_Issue _ _ _ _ _ _ _)) => apply same_view_certs, r_issue : prog.
#[local] Hint Extern 1 (always same_certs (vault_Renew _ _ _)) => apply same_view_certs, r_renew : prog.
#[local] Hint Extern 1 (always same_certs (vault_GetCAByName _)) => apply same_view_certs, r_caname : prog.
#[local] Hint Extern 1 (always same_certs (selfsigned_Issue _ _)) => apply same_view_certs, r_selfsigned : prog.
#[local] Hint Extern 1 (always same_certs GenerateAccountKey) => apply same_view_certs, r_genkey : prog.
#[local] Hint Extern 1 (always same_certs (acme_Issue _ _ _)) => apply same_view_certs, r_acme : prog.

Lemma load_certs ns ref : always same_certs (loadACMEAccountKey ns ref).
Proof. apply same_view_certs, load_key_same. Qed.
Lemma read_certs ns ref : always same_certs (readSecretKey ns ref).
Proof. apply same_view_certs, read_key_same. Qed.
Lemma store_certs ns ref k : always same_certs (storeACMEAccountKey ns ref k).
Proof. unfold storeACMEAccountKey. walk_prog. Qed.
#[local] Hint Resolve load_certs read_certs store_certs : prog.

Lemma acme_certs ns o cn dns ttl bits : always same_certs (issueACME ns o cn dns ttl bits).
Proof.
  unfold issueACME. destruct o as [spec|]; [|eauto with prog]. apply always_bind; [apply _|eauto with prog|intros _].
  apply always_bind; [apply _|unfold stored_account_key; walk_prog|intros stored]. apply always_bind; [apply _|destruct stored; eauto with prog|intros k].
  apply always_bind; [apply _|unfold dns_token; walk_prog|intros token]. apply always_bind; [apply _|eauto with prog|intros r].
  apply always_bind; [apply _|destruct stored, (ai_PrivateKeySecretRef spec); eauto with prog|eauto with prog].
Qed.
#[local] Hint Resolve acme_certs : prog.

Lemma issue_certs cert r dec : always same_certs (issueOrRenewMulti cert r dec).
Proof.
  assert (Hi : ∀ ns a b c d e f, always same_certs (IssueFromResolved ns r a b c d e f)) by (intros; unfold IssueFromResolved; walk_prog).
  unfold issueOrRenewMulti. cbv zeta. case_match; [|apply Hi]. apply always_on_error; [apply _|eauto with prog|]. intros e. apply Hi.
Qed.

(** The stored certificate, if there is one, has the revision [rev]. *)
Definition kept (req : key) (rev : Z) (t : S) : Prop := ∀ c, v_certs (view t) !! req = Some c → ks_Revision (kc_Status c) = rev.

Lemma kept_run {A} req rev (m : prog S A) t t' x : always same_certs m → m t = (t', x) → kept req rev t → kept req rev t'.
Proof. intros Hm E. assert (H := always_run _ _ _ _ _ Hm E). unfold kept, same_certs in *. by rewrite H. Qed.

Lemma kept_status req rev t c : ks_Revision (kc_Status c) = rev → kept req rev t → kept req rev (update_certificate_status c t).1.
Proof.
  intros Hrev Hk. destruct (update_certificate_status c t) as [t' x] eqn:E. cbn. apply w_status in E as [[E _]|(c0 & Hc0 & E)]; unfold kept; rewrite E; [done|].
  intros c1. cbn. destruct (decide (req = meta_key (kc_Meta c))) as [->|Hn]; [rewrite lookup_insert_eq; intros [= <-]; done|rewrite lookup_insert_ne by done; apply Hk].
Qed.

Lemma kept_fail req rev t t' c now reason msg x : ks_Revision (kc_Status c) = rev → kept req rev t →
  fail_and_retry now c reason msg t = (t', Ok x) → kept req rev t'.
Proof. intros Hrev Hk. unfold fail_and_retry, failCert, mbind, prog_bind, ignore. cbn. intros [= <- _]. by apply kept_status. Qed.

(** Issuing ends in a failure noted in the status, or in the next revision with
    its Secret. *)
Lemma issue_delivers clk cert dec s s' r : dc_Delivery dec = DeliverySecret → let req := meta_key (kc_Meta cert) in
  kept req (ks_Revision (kc_Status cert)) s → issue_certificate clk cert dec s = (s', Ok r) →
  kept req (ks_Revision (kc_Status cert)) s' ∨
  ∃ cert' pem, v_certs (view s') !! req = Some cert' ∧ ks_Revision (kc_Status cert') = ks_Revision (kc_Status cert) + 1 ∧
    delivered (view s') (tls_key cert) pem (ks_Serial (kc_Status cert')).
Proof.
  intros Hdd req K2 Hrun. unfold issue_certificate in Hrun. cbv zeta in Hrun. set (c1 := set_status cert _) in Hrun.
  apply prog_bind_run in Hrun as (s3 & [] & E3 & Hrun). assert (K3 : kept req (ks_Revision (kc_Status cert)) s3) by (unfold ignore in E3; injection E3 as <-; by apply kept_status).
  apply prog_bind_run in Hrun as (s4 & rr & E4 & Hrun). eapply kept_run in K3 as K4; [|by apply always_attempt, same_view_certs, resolve_issuer_same|exact E4].
  destruct rr as [resolved|e]; [|left; eapply kept_fail; [|exact K4|exact Hrun]; done].
  apply prog_bind_run in Hrun as (s5 & rr & E5 & Hrun). eapply kept_run in K4 as K5; [|by apply always_attempt, issue_certs|exact E5].
  destruct rr as [result|e]; [|left; eapply kept_fail; [|exact K5|exact Hrun]; done]. right.
  apply prog_bind_run in Hrun as (s6 & roleCA & E6 & Hrun). apply prog_bind_run in Hrun as (s7 & [] & E7 & Hrun). rewrite Hdd in E7.
  apply (apply_delivers c1) in E7 as [_ (sec & Hsec & Hpem & Hser)]. apply prog_bind_run in Hrun as (s8 & [] & E8 & Hrun). injection Hrun as <- _.
  apply w_status in E8 as [[_ []]|(c0 & Hc0 & E8)]; [done|]. eexists _, (ce_CertPEM result). rewrite E8. cbn [with_certs v_certs].
  split; [by rewrite lookup_insert_eq|]. split; [done|]. by exists sec.
Qed.

(** A revision that moved is one that was delivered: when the reconciler returns
    without an error and the stored certificate has another revision than before,
    it is the next one, and the Secret of the certificate carries the certificate
    with the serial number in the status. *)
Theorem revision_means_delivered clk req s s' r cert cert' : v_certs (view s) !! req = Some cert →
  kc_Delivery (kc_Spec cert) = "" ∨ kc_Delivery (kc_Spec cert) = DeliverySecret →
  Certificate_Reconcile clk req s = (s', Ok r) → v_certs (view s') !! req = Some cert' →
  ks_Revision (kc_Status cert') ≠ ks_Revision (kc_Status cert) →
  ks_Revision (kc_Status cert') = ks_Revision (kc_Status cert) + 1 ∧ ∃ pem, delivered (view s') (tls_key cert) pem (ks_Serial (kc_Status cert')).
Proof.
  intros Hc Hdel Hrun Hc' Hne. set (rev := ks_Revision (kc_Status cert)) in *.
  assert (K0 : kept req rev s) by (intros c E; by simplify_eq). assert (Hend : kept req rev s' → False) by (intros Hk; by apply Hne, Hk).
  unfold Certificate_Reconcile in Hrun. apply prog_bind_run in Hrun as (s1 & o & Eg & Hrun). destruct (r_certificate_ok _ _ _ _ Eg) as [Eo Ek]. rewrite Hc in Eo. subst o.
  specialize (Ek cert eq_refl). eapply kept_run in K0 as K1; [|apply same_view_certs, r_certificate|exact Eg].
  apply prog_bind_run in Hrun as (s2 & present & Ep & Hrun). assert (K2 : kept req rev s2) by (eapply (kept_run req rev (secret_exists cert)); [unfold secret_exists; walk_prog|exact Ep|exact K1]).
  cbv zeta in Hrun. destruct (negb (dc_OK _)); [exfalso; apply Hend; eapply kept_fail; [|exact K2|exact Hrun]; done|].
  destruct (negb (dc_NeedIssue _)).
  { exfalso. apply Hend. unfold mbind, prog_bind, ignore in Hrun. injection Hrun as <- _. by apply kept_status. }
  assert (Hdd : dc_Delivery (ValidateAndDecide (spec_view cert present) (clk 0%nat)) = DeliverySecret).
  { unfold ValidateAndDecide, spec_view. cbn. destruct Hdel as [-> | ->]; cbn; repeat case_match; done. }
  subst req. destruct (issue_delivers clk cert _ s2 s' r Hdd K2 Hrun) as [Hk|(c' & pem & Hl & Hrev & Hd)]; [by destruct (Hend Hk)|].
  rewrite Hc' in Hl. injection Hl as <-. eauto.
Qed.
End reconcile.

(** ** Schedule, retries, conditions and issuers *)

(** A certificate that is not due is looked at again no later than in a day and no
    later than when it becomes due; and it is due exactly from the renewal time on,
    or when its expiry cannot be read. *)
Theorem renewal_not_missed `{Texts} notAfter rb now :
  if NeedsRenew notAfter rb now
  then notAfter = "" ∨ parse_expiry notAfter = None ∨ ∃ t, parse_expiry notAfter = Some t ∧ t - rb ≤ now
  else ∃ t, parse_expiry notAfter = Some t ∧ 0 < RequeueAfter notAfter rb now ≤ 24 * Hour ∧ now + RequeueAfter notAfter rb now ≤ t - rb.
Proof.
  unfold NeedsRenew, RequeueAfter, Before. destruct (bool_decide_reflect (notAfter = "")) as [|Hn]; [auto|].
  destruct (parse_expiry notAfter) as [t|]; [|auto]. destruct (Z.ltb_spec now (t - rb)); cbn [negb]; [|right; right; exists t; split; [done|lia]].
  exists t. split; [done|]. destruct (Z.ltb_spec (t - rb - now) 0); [lia|]. destruct (Z.ltb_spec (24 * Hour) (t - rb - now)); split; unfold Hour, Minute, Second in *; lia.
Qed.

(** Retries come after five seconds to five minutes, and never sooner after more failures. *)
Theorem retry_backoff a b : a ≤ b → 5 * Second ≤ rs_RequeueAfter (ErrorResult a) ≤ rs_RequeueAfter (ErrorResult b) ∧ rs_RequeueAfter (ErrorResult b) ≤ 300 * Second.
Proof.
  intros Hab. unfold ErrorResult. cbn. set (a' := if a <? 0 then 0 else a). set (b' := if b <? 0 then 0 else b).
  assert (Ha : 0 ≤ a' ≤ b') by (unfold a', b'; destruct (Z.ltb_spec a 0), (Z.ltb_spec b 0); lia).
  assert (Hp : 2 ^ 0 ≤ 2 ^ a' ≤ 2 ^ b') by (split; apply Z.pow_le_mono_r; lia). change (2 ^ 0) with 1 in Hp.
  destruct (Z.ltb_spec 300 (5 * 2 ^ a')), (Z.ltb_spec 300 (5 * 2 ^ b')); unfold Second; lia.
Qed.

(** A condition is set in place or added: there is one condition of each type, the
    one that was set says so, the others are untouched, and the time of the last
    transition moves only when the status or the reason does. *)
Theorem SetCondition_correct now conds typ status reason msg : NoDup (cd_Type <$> conds) →
  let conds' := SetCondition now conds typ status reason msg in
  NoDup (cd_Type <$> conds') ∧
  (∃ c, c ∈ conds' ∧ cd_Type c = typ ∧ cd_Status c = status ∧ cd_Reason c = reason ∧ cd_Message c = msg ∧
        (cd_LastTransitionTime c = now ∨ ∃ c0, c0 ∈ conds ∧ cd_Type c0 = typ ∧ cd_Status c0 = status ∧ cd_Reason c0 = reason ∧ cd_LastTransitionTime c0 = cd_LastTransitionTime c)) ∧
  (∀ c, cd_Type c ≠ typ → c ∈ conds' ↔ c ∈ conds).
Proof.
  intros Hnd. cbv zeta. induction conds as [|c conds IH]; cbn [SetCondition].
  - split; [apply NoDup_singleton|]. split; [eexists; split; [by left|]; cbn; auto 10|]. intros c Hc. rewrite list_elem_of_singleton. split; [intros ->; done|intros []%not_elem_of_nil].
  - cbn in Hnd. apply NoDup_cons in Hnd as [Hni Hnd]. destruct (bool_decide_reflect (cd_Type c = typ)) as [Ht|Ht].
    + split; [by apply NoDup_cons|]. split.
      * eexists. split; [by left|]. cbn. split_and!; [done..|]. destruct (bool_decide_reflect (cd_Status c = status)), (bool_decide_reflect (cd_Reason c = reason)); cbn; auto.
        right. exists c. split_and!; [by left|done..].
      * intros d Hd. rewrite !elem_of_cons. naive_solver.
    + destruct (IH Hnd) as (I1 & (d & Hd & Hdt & Hds & Hdr & Hdm & Htr) & I3). split.
      * cbn. apply NoDup_cons. split; [|done]. rewrite list_elem_of_fmap. intros (e & He & Hin). apply Hni. rewrite list_elem_of_fmap. exists e. split; [done|]. apply I3; [congruence|done].
      * split; [|intros e He; rewrite !elem_of_cons, I3 by done; done].
        exists d. split; [by right|]. split_and!; [done..|]. destruct Htr as [?|(c0 & ? & ?)]; [by left|right; exists c0; split; [by right|done]].
Qed.

(** An issuer resolves exactly when it names one way of issuing, or, with none,
    the older field of the vault CA; and to that way. *)
Theorem resolveMulti_correct s :
  match resolveMulti s with
  | Ok r =>
      (is_Vault s = None ∧ is_ACME s = None ∧ is_SelfSigned s = None ∧ is_VaultCAName s ≠ "" ∧ ri_Mode r = IssuerModeVault ∧ ri_VaultCA r = is_VaultCAName s) ∨
      (∃ v, is_Vault s = Some v ∧ is_ACME s = None ∧ is_SelfSigned s = None ∧ vi_VaultCAName v ≠ "" ∧ ri_Mode r = IssuerModeVault ∧ ri_VaultCA r = vi_VaultCAName v) ∨
      (∃ a, is_Vault s = None ∧ is_ACME s = Some a ∧ is_SelfSigned s = None ∧ ri_Mode r = IssuerModeACME ∧ ri_ACME r = Some a) ∨
      (∃ f, is_Vault s = None ∧ is_ACME s = None ∧ is_SelfSigned s = Some f ∧ ri_Mode r = IssuerModeSelfSigned ∧ ri_SelfSigned r = Some f)
  | Err _ => let ways := (count_some (is_Vault s) + count_some (is_ACME s) + count_some (is_SelfSigned s))%nat in
             (ways = 0%nat ∧ is_VaultCAName s = "") ∨ (1 < ways)%nat ∨ ∃ v, is_Vault s = Some v ∧ vi_VaultCAName v = ""
  end.
Proof.
  destruct s as [ca ref [v|] [a|] [f|]]; unfold resolveMulti; cbn; try (right; left; lia).
  - destruct (bool_decide_reflect (vi_VaultCAName v = "")); cbn; [right; right; eauto|]. right. left. exists v. done.
  - right. right. left. by exists a.
  - right. right. right. by exists f.
  - destruct (bool_decide_reflect (ca = "")); cbn; by left.
Qed.

(** ** Examples *)

#[local] Instance toy_texts : Texts := {|
  ParseDuration s := match Atoi (TrimSuffix s "h") with Some n => Ok (n * Hour) | None => Err (Plain "invalid duration") end;
  parse_rfc3339 s := Atoi s;
  parse_rfc3339nano s := None;
  format_rfc3339 t := Itoa t
|}.

(** A cluster whose vault issues at time 0 and counts what it issues; Secrets can
    be made read-only. *)
Record toy := mkToy { ty_view : View; ty_requests : gmap key KNXVaultCertificateRequest; ty_readonly : bool; ty_issued : Z }.
Definition toy_with (s : toy) (v : View) : toy := mkToy v (ty_requests s) (ty_readonly s) (ty_issued s).

Definition toy_issue (ttl : string) : prog toy CertResult := λ s,
  match ParseDuration ttl with
  | Ok d => (mkToy (ty_view s) (ty_requests s) (ty_readonly s) (ty_issued s + 1),
             Ok (mkCertResult ("cert " +:+ Itoa (ty_issued s + 1)) "key" (Itoa (ty_issued s + 1)) (Itoa d) "ca1" ["root"]))
  | Err e => (s, Err e)
  end.

Definition toy_order (r : OrderRequest) : prog toy OrderResult := λ s,
  (mkToy (ty_view s) (ty_requests s) (ty_readonly s) (ty_issued s + 1),
   Ok (mkOrderResult ("cert " +:+ Itoa (ty_issued s + 1)) "key" (Itoa (ty_issued s + 1)) (or_TTL r))).

Definition toy_put (sec : Secret) : prog toy unit := λ s,
  if ty_readonly s then (s, Err (Plain "forbidden"))
  else (toy_with s (with_secrets (ty_view s) (<[meta_key (sc_Meta sec) := sec]> (v_secrets (ty_view s)))), Ok tt).

#[local] Instance toy_world : World toy := {|
  get_certificate k := λ s, match v_certs (ty_view s) !! k with
                            | None => (s, Ok None)
                            | Some c => if bool_decide (meta_key (kc_Meta c) = k) then (s, Ok (Some c)) else (s, Err (Plain "corrupt"))
                            end;
  update_certificate_status c := λ s,
    match v_certs (ty_view s) !! meta_key (kc_Meta c) with
    | Some c0 => (toy_with s (with_certs (ty_view s) (<[meta_key (kc_Meta c) := set_status c0 (kc_Status c)]> (v_certs (ty_view s)))), Ok tt)
    | None => (s, Err not_found)
    end;
  get_request k := gets (λ s, ty_requests s !! k);
  update_request_status c := modify (λ s, mkToy (ty_view s) (<[meta_key (rq_Meta c) := c]> (ty_requests s)) (ty_readonly s) (ty_issued s));
  get_ca _ := mret None;
  update_ca_status _ := mret tt;
  get_issuer k := gets (λ s, v_issuers (ty_view s) !! k);
  update_issuer_status _ := mret tt;
  get_clusterissuer k := gets (λ s, v_clusterissuers (ty_view s) !! k);
  update_clusterissuer_status _ := mret tt;
  get_secret k := λ s, match v_secrets (ty_view s) !! k with
                       | None => (s, Ok None)
                       | Some c => if bool_decide (meta_key (sc_Meta c) = k) then (s, Ok (Some c)) else (s, Err (Plain "corrupt"))
                       end;
  create_secret sec := λ s, match v_secrets (ty_view s) !! meta_key (sc_Meta sec) with None => toy_put sec s | Some _ => (s, Err (Plain "exists")) end;
  update_secret := toy_put;
  SetControllerReference uid sec :=
    Ok (mkSecret (mkMeta (om_Namespace (sc_Meta sec)) (om_Name (sc_Meta sec)) (om_UID (sc_Meta sec)) (om_Labels (sc_Meta sec)) (om_Annotations (sc_Meta sec))
                    (mkOwner uid true :: om_OwnerReferences (sc_Meta sec))) (sc_Type sec) (sc_Data sec));
  vault_configured := true;
  vault_GetCAByName n := mret (mkCAResult "ca1" n "" "" "");
  vault_CreateRoot n _ _ _ := mret (mkCAResult "ca1" n "" "" "");
  vault_CreateIntermediate _ n _ _ _ := mret (mkCAResult "ca2" n "" "" "");
  vault_Issue _ _ ttl _ _ _ _ := toy_issue ttl;
  vault_Renew _ _ ttl := toy_issue ttl;
  vault_SignCSR _ _ ttl := toy_issue ttl;
  selfsigned_Issue _ r := toy_order r;
  GenerateAccountKey := mret "account";
  ParseAccountKeyPEM k := Ok k;
  MarshalAccountKeyPEM k := Ok k;
  ValidateOutboundURL _ := Ok tt;
  acme_Issue _ _ r := toy_order r;
  ProbeDirectory _ := mret (true, "")
|}.

Lemma toy_issue_same ttl : always (same_view ty_view) (toy_issue ttl).
Proof. intros s. unfold toy_issue. by destruct (ParseDuration ttl). Qed.

Lemma toy_put_spec sec s s' r : toy_put sec s = (s', r) →
  ty_view s' = ty_view s ∧ r ≠ Ok tt ∨ ty_view s' = with_secrets (ty_view s) (<[meta_key (sc_Meta sec) := sec]> (v_secrets (ty_view s))).
Proof. unfold toy_put. destruct (ty_readonly s); intros [= <- <-]; auto. Qed.

(** A read of the toy: what is stored, unless it is stored under another key. *)
Lemma toy_read {A} (f : A → ObjectMeta) (m : gmap key A) k (s s' : toy) o :
  match m !! k with
  | None => (s, Ok None)
  | Some c => if bool_decide (meta_key (f c) = k) then (s, Ok (Some c)) else (s, Err (Plain "corrupt"))
  end = (s', Ok o) → m !! k = o ∧ ∀ c, o = Some c → meta_key (f c) = k.
Proof.
  destruct (m !! k) as [c|]; [|intros [= <- <-]; done]. destruct (bool_decide_reflect (meta_key (f c) = k)); intros [= <- <-].
  split; [done|]. by intros c' [= <-].
Qed.
Lemma toy_read_same {A} (f : A → ObjectMeta) (m : toy → gmap key A) k :
  always (same_view ty_view) (λ s, match m s !! k with
  | None => (s, Ok None)
  | Some c => if bool_decide (meta_key (f c) = k) then (s, Ok (Some c)) else (s, Err (Plain "corrupt"))
  end).
Proof. intros s. by repeat case_match. Qed.

Definition toy_laws : WorldLaws toy.
Proof.
  refine {| view := ty_view |}; try (intros; done); try (intros; apply toy_issue_same).
  - intros k. apply (toy_read_same kc_Meta (λ s, v_certs (ty_view s))).
  - intros k s s' o. apply toy_read.
  - intros k s s' o [= <- <-]. done.
  - intros k s s' o [= <- <-]. done.
  - intros k. apply (toy_read_same sc_Meta (λ s, v_secrets (ty_view s))).
  - intros k s s' o. apply toy_read.
  - intros c s s' r. cbn. destruct (v_certs _ !! _) as [c0|] eqn:E; intros [= <- <-]; [right; by exists c0|by left].
  - intros sec s s' r. cbn. destruct (v_secrets _ !! _) as [c0|] eqn:E; [intros [= <- <-]; by left|]. intros [?|?]%toy_put_spec; auto.
  - intros sec s s' r. apply toy_put_spec.
  - intros uid sec sec' [= <-]. done.
Defined.

Definition meta (ns name uid : string) : ObjectMeta := mkMeta ns name uid ∅ ∅ [].
Definition web_key : key := ("prod", "web").
Definition fresh_status : KNXVaultCertificateStatus := mkCertStatus [] "" "" "" "" 0 "" "" 0 "".
Definition web (duration : string) (st : KNXVaultCertificateStatus) : KNXVaultCertificate :=
  mkCertificate (meta "prod" "web" "uid-web") (mkCertSpec "web-tls" (mkIssuerRef "ClusterIssuer" "vault" "") "web.local" [] [] [] duration "" 0 "") st.
Definition vault_issuer : KNXVaultIssuer := mkIssuer (meta "" "vault" "uid-iss") (mkIssuerSpec "root" None None None None) [] "".
Definition foreign : Secret := mkSecret (meta "prod" "web-tls" "uid-x") "kubernetes.io/tls" {["tls.crt" := "theirs"]}.
Definition other : Secret := mkSecret (meta "prod" "db-tls" "uid-y") "Opaque" {["password" := "pw"]}.
Definition cluster (cert : KNXVaultCertificate) (secrets : list Secret) (readonly : bool) : toy :=
  mkToy (mkView {[web_key := cert]} ∅ {["vault" := vault_issuer]} (list_to_map ((λ s, (meta_key (sc_Meta s), s)) <$> secrets))) ∅ readonly 0.
Definition clock0 : nat → Time := λ _, 0.

Example secrets_not_clobbered_witness :
  v_secrets (ty_view (Certificate_Reconcile clock0 web_key (cluster (web "" fresh_status) [foreign; other] false)).1) !! ("prod", "web-tls") = Some foreign.
Proof.
  rewrite (secrets_not_clobbered (laws := toy_laws) clock0 web_key (cluster (web "" fresh_status) [foreign; other] false) (web "" fresh_status) ("prod", "web-tls")).
  - reflexivity.
  - reflexivity.
  - intros [(spec & ref & E & _)|[_ H]]; [discriminate E|]. specialize (H foreign eq_refl). discriminate H.
Defined.

Definition web_run : toy * res Result := Certificate_Reconcile clock0 web_key (cluster (web "" fresh_status) [other] false).
Definition web_after : KNXVaultCertificate := default (web "" fresh_status) (v_certs (ty_view web_run.1) !! web_key).

Example revision_means_delivered_witness :
  ks_Revision (kc_Status web_after) = 1 ∧ ∃ pem, delivered (ty_view web_run.1) ("prod", "web-tls") pem (ks_Serial (kc_Status web_after)).
Proof.
  apply (revision_means_delivered (laws := toy_laws) clock0 web_key (cluster (web "" fresh_status) [other] false) web_run.1 (mkResult (24 * Hour)) (web "" fresh_status) web_after).
  - reflexivity.
  - left. reflexivity.
  - vm_compute. reflexivity.
  - vm_compute. reflexivity.
  - vm_compute. discriminate.
Defined.

Example retry_backoff_witness : 5 * Second ≤ rs_RequeueAfter (ErrorResult 1) ≤ rs_RequeueAfter (ErrorResult 7) ∧ rs_RequeueAfter (ErrorResult 7) ≤ 300 * Second.
Proof. apply retry_backoff. lia. Defined.

Definition two_conditions : list Condition := [mkCondition "Issuing" "True" "Issuing" "" 1; mkCondition "Ready" "False" "VaultError" "" 2].
Example SetCondition_correct_witness : NoDup (cd_Type <$> SetCondition 5 two_conditions "Ready" "True" "Issued" "done").
Proof. apply (SetCondition_correct 5 two_conditions "Ready" "True" "Issued" "done"). vm_compute. by repeat constructor; set_solver. Defined.

(** A certificate asked for 720 hours has the default 30 days of renewBefore as
    its whole life: the certificate just issued is due for renewal at once, the
    result asks for no delay, and the next reconcile issues again. *)
Definition short_run (n : nat) : toy := Nat.iter n (λ s, (Certificate_Reconcile clock0 web_key s).1) (cluster (web "720h" fresh_status) [] false).
Example short_certificate_reissued :
  ty_issued (short_run 1) = 1 ∧ ty_issued (short_run 5) = 5 ∧
  (Certificate_Reconcile clock0 web_key (cluster (web "720h" fresh_status) [] false)).2 = Ok (mkResult 0).
Proof. by vm_compute. Qed.

(** The Secret is checked after the certificate has been issued: a certificate whose
    Secret belongs to another object, when no serial number is in the status and the
    Secret is there, is issued again by every retry, and each is thrown away. *)
Definition refused_run (n : nat) : toy := Nat.iter n (λ s, (Certificate_Reconcile clock0 web_key s).1) (cluster (web "" fresh_status) [foreign] false).
Example refused_certificates_issued :
  ty_issued (refused_run 4) = 4 ∧ v_secrets (ty_view (refused_run 4)) !! ("prod", "web-tls") = Some foreign ∧
  (Certificate_Reconcile clock0 web_key (refused_run 4)).2 =
    Err (Plain ("secret " +:+ quoted "web-tls" +:+ " exists and is not owned by Certificate " +:+ quoted "web" +:+ "; refusing overwrite")).
Proof. by vm_compute. Qed.

Definition web_request : KNXVaultCertificateRequest :=
  mkCertRequest (meta "prod" "web" "uid-req") "csr" (mkIssuerRef "ClusterIssuer" "vault" "") "" "web-tls" "" [] [] [] "" "" "" "".
Definition request_cluster (secrets : list Secret) (readonly : bool) : toy :=
  let c := cluster (web "" fresh_status) secrets readonly in mkToy (ty_view c) {[web_key := web_request]} readonly 0.

(** A request replaces the data of a Secret it does not own. *)
Example request_overwrites_foreign :
  sc_Data <$> v_secrets (ty_view (CertificateRequest_Reconcile 0 web_key (request_cluster [foreign] false)).1) !! ("prod", "web-tls") =
  Some (<["ca.crt" := "root"]> {["tls.crt" := "cert 1"]}).
Proof. by vm_compute. Qed.

(** The status of a request is saved before the Secret is written: when that write
    fails, the retries find the request answered, and the Secret is never written. *)
Definition undelivered : toy := let s := (CertificateRequest_Reconcile 0 web_key (request_cluster [] true)).1 in mkToy (ty_view s) (ty_requests s) false (ty_issued s).
Example request_never_delivered :
  (CertificateRequest_Reconcile 0 web_key (request_cluster [] true)).2 = Err (Plain "forbidden") ∧
  CertificateRequest_Reconcile 0 web_key undelivered = (undelivered, Ok (mkResult 0)) ∧ v_secrets (ty_view undelivered) = ∅.
Proof. by vm_compute. Qed.
