(* ===== verification/Cubbyhole.v ===== *)
(** The cubbyhole, private storage of one token: the engine
    internal/engine/secrets/cubbyhole/engine.go over the secret store and the
    audited service internal/service/cubbyhole.go.

    The engine's repository is the state; the key ring is an argument of the
    methods that encrypt, and so are the fresh identifier, the clock and the
    random bytes of a write ([Fresh]). The engine is configured. The listing
    of the memory repository does not fail, so the fallback of
    [destroyAllVersions] to the newest version is not taken. *)

From S2P Require Import Prelude.
From S2P Require Import Effects.
From S2P Require Import GoLib.
From S2P Require Import Domain.
From S2P Require Import SecretRepo.
From S2P Require Import Crypto.
From S2P Require Import KVEngine.
From S2P Require Import AuditHelper.

#[local] Open Scope Z_scope.

(** ** The store as programs *)

(** What a write takes from outside: an identifier, the time, random bytes. *)
Record Fresh := mkFresh { fr_ID : UUID; fr_Now : Time; fr_Rnd : Entropy }.

Abbreviation Store := (prog SecretRepository).

(** [PutAtomic] and [DestroyVersion]; a call that fails changes nothing. *)
Definition store_put (sv : SecretVersion) (cas : option Z) (maxVersions : Z) : Store Z := λ r,
  match PutAtomic r sv cas maxVersions with
  | Ok (r', v) => (r', Ok v)
  | Err e => (r, Err e)
  end.

Definition store_destroy (path : string) (version : Z) : Store unit := λ r,
  match DestroyVersion r path version with
  | Ok r' => (r', Ok tt)
  | Err e => (r, Err e)
  end.

Definition store_latest (path : string) : Store SecretVersion := λ r, (r, GetLatest r path).

Definition wrap_internal {A} (message : string) (x : res A) : res A :=
  match x with Ok a => Ok a | Err e => Err (Wrap ErrCodeInternal message e) end.

Lemma wrap_internal_ok {A} message (x : res A) a : wrap_internal message x = Ok a ↔ x = Ok a.
Proof. by destruct x. Qed.

Lemma store_put_ok sv cas maxv r r' v : store_put sv cas maxv r = (r', Ok v) ↔ PutAtomic r sv cas maxv = Ok (r', v).
Proof. unfold store_put. destruct (PutAtomic r sv cas maxv) as [[]|]; naive_solver. Qed.

(** ** Paths *)

Definition engineName : string := "cubbyhole".
Definition pathPrefix : string := "cubbyhole/".

Definition invalid_path : error := New ErrCodeValidation "invalid cubbyhole path".

Definition NormalizePath (p : string) : res string :=
  let p := TrimPrefix (TrimSpace p) "/" in
  _ ← reject (p =s "") invalid_path;
  _ ← reject (existsb (λ seg, (seg =s "..") || (seg =s ".")) (SplitOn "/" p)) invalid_path;
  let cleaned := TrimPrefix (CleanRooted ("/" +:+ p)) "/" in
  _ ← reject ((cleaned =s "") || (cleaned =s ".")) invalid_path;
  Ok cleaned.

Definition storagePath (tokenID p : string) : res string :=
  np ← NormalizePath p;
  Ok (pathPrefix +:+ tokenID +:+ "/" +:+ np).

Definition FullPath (tokenID p : string) : string :=
  match storagePath tokenID p with Ok sp => sp | Err _ => "" end.

(** ** The engine *)

(** One iteration of a loop that destroys versions and keeps the first error. *)
Definition destroy_step (x : SecretRepository * option error) (sv : SecretVersion) : SecretRepository * option error :=
  let '(r, first) := x in
  match DestroyVersion r (sv_Path sv) (sv_Version sv) with
  | Ok r' => (r', first)
  | Err e => (r, match first with None => Some e | Some _ => first end)
  end.

Definition first_error (x : SecretRepository * option error) : SecretRepository * res unit :=
  (x.1, match x.2 with None => Ok tt | Some e => Err e end).

Definition destroyAllVersions (sp : string) : Store unit := λ r,
  first_error (foldl destroy_step (r, None) (filter (λ sv, sv_Path sv = sp) (ListByPath r sp))).

(** The listed versions, a version seen before left out. *)
Fixpoint unseen (seen : gset (string * Z)) (svs : list SecretVersion) : list SecretVersion :=
  match svs with
  | [] => []
  | sv :: svs =>
      if decide ((sv_Path sv, sv_Version sv) ∈ seen) then unseen seen svs
      else sv :: unseen ({[ (sv_Path sv, sv_Version sv) ]} ∪ seen) svs
  end.

Definition Cubby_WipeToken (tokenID : string) : Store unit := λ r,
  if tokenID =s "" then (r, Ok tt)
  else first_error (foldl destroy_step (r, None) (unseen ∅ (ListByPath r (pathPrefix +:+ tokenID +:+ "/")))).

Definition Cubby_Delete (tokenID p : string) : Store unit :=
  sp ← lift (storagePath tokenID p);
  destroyAllVersions sp.

Section engine.
Context `{Aead} `{Json} (k : KeyRing).

Definition cubby_version (fr : Fresh) (sp tokenID : string) (ce : bytes * bytes) : SecretVersion :=
  mkSecretVersion (fr_ID fr) sp 0 ce.1 ce.2 None None (fr_Now fr) None false
    (<["engine" := engineName]> (<["token_id" := tokenID]> ∅)).

Definition Cubby_Put (fr : Fresh) (tokenID p : string) (data : object) : Store unit :=
  _ ← guard_not (tokenID =s "") (New ErrCodeUnauthorized "token id required");
  sp ← lift (storagePath tokenID p);
  _ ← guard_not (bool_decide (length data = 0%nat)) (New ErrCodeValidation "data required");
  raw ← lift (wrap_internal "marshal" (json_marshal data));
  ce ← lift (wrap_internal "encrypt" (Seal k (fr_Rnd fr) raw));
  _ ← store_put (cubby_version fr sp tokenID ce) None 1;
  mret tt.

Definition Cubby_Get (tokenID p : string) : Store object :=
  _ ← guard_not (tokenID =s "") (New ErrCodeUnauthorized "token id required");
  sp ← lift (storagePath tokenID p);
  sv ← store_latest sp;
  plain ← lift (wrap_internal "decrypt" (Open k (sv_DataEnc sv) (sv_DEKEnc sv)));
  lift (wrap_internal "unmarshal" (json_unmarshal plain)).
End engine.

(** ** The service *)

Record CubbyholeService := mkCubbyholeService {
  cs_repo : SecretRepository;
  cs_audit : AuditSink;
}.

Definition audited {A} (subject : option string) (action path : string) (m : Store A) : prog CubbyholeService A := λ s,
  let '(r, x) := m (cs_repo s) in
  (mkCubbyholeService r (audithelper_Record (cs_audit s) subject action ("cubbyhole/" +:+ path) x []), x).

Section service.
Context `{Aead} `{Json} (k : KeyRing).

Definition CubbyholeService_Put (subject : option string) (fr : Fresh) (tokenID path : string) (data : object)
    : prog CubbyholeService unit := audited subject "cubbyhole.put" path (Cubby_Put k fr tokenID path data).
Definition CubbyholeService_Get (subject : option string) (tokenID path : string) : prog CubbyholeService object :=
  audited subject "cubbyhole.get" path (Cubby_Get k tokenID path).
End service.

Definition CubbyholeService_Delete (subject : option string) (tokenID path : string) : prog CubbyholeService unit :=
  audited subject "cubbyhole.delete" path (Cubby_Delete tokenID path).
Definition CubbyholeService_WipeToken (tokenID : string) : prog CubbyholeService unit :=
  zoom cs_repo (λ s r, mkCubbyholeService r (cs_audit s)) (Cubby_WipeToken tokenID).

(** ** Destroying many versions *)

Lemma destroy_or_same_wf r path v : secrets_wf r → secrets_wf (match DestroyVersion r path v with Ok r' => r' | Err _ => r end).
Proof. intros Hr. destruct (DestroyVersion r path v) as [r'|] eqn:E; [|done]. by destruct (DestroyVersion_ok _ _ _ _ Hr E) as (? & _ & _ & _ & ?). Qed.

(** A store after some of its versions were destroyed. *)
Definition destroyed_of (r r' : SecretRepository) (P : string → Z → Prop) : Prop :=
  ∀ p v, (P p v → r' !! (p, v) = sv_destroy <$> r !! (p, v)) ∧ (¬ P p v → r' !! (p, v) = r !! (p, v)).

Lemma sv_destroy_idem sv : sv_Destroyed sv = true → sv_destroy sv = sv.
Proof. destruct sv; simpl. by intros ->. Qed.

Lemma destroy_step_of r first sv : ∃ first', destroy_step (r, first) sv =
  (match DestroyVersion r (sv_Path sv) (sv_Version sv) with Ok r' => r' | Err _ => r end, first').
Proof. unfold destroy_step. destruct (DestroyVersion _ _ _); by eexists. Qed.

Lemma destroy_one_of r p v : secrets_wf r →
  destroyed_of r (match DestroyVersion r p v with Ok r' => r' | Err _ => r end) (λ q w, (q, w) = (p, v)).
Proof.
  intros Hr q w. destruct (DestroyVersion r p v) as [r'|e] eqn:E.
  - destruct (DestroyVersion_ok _ _ _ _ Hr E) as (sv & Hsv & _ & -> & _). split.
    + intros [= -> ->]. by rewrite lookup_insert_eq, Hsv.
    + intros Hne. by rewrite lookup_insert_ne by congruence.
  - split; [|done]. intros [= -> ->]. unfold DestroyVersion in E. destruct (r !! (p, v)) as [sv|]; [|done].
    destruct (sv_Destroyed sv) eqn:Ed; [|done]. simpl. by rewrite sv_destroy_idem.
Qed.

Lemma destroy_fold r first svs : secrets_wf r → ∃ r' first', foldl destroy_step (r, first) svs = (r', first') ∧
  secrets_wf r' ∧ destroyed_of r r' (λ p v, (p, v) ∈ (λ sv, (sv_Path sv, sv_Version sv)) <$> svs).
Proof.
  revert r first. induction svs as [|sv svs IH]; intros r first Hr; cbn [foldl].
  { exists r, first. split_and!; [done|done|]. intros p v. split; [|done]. intros Hin. by apply not_elem_of_nil in Hin. }
  destruct (destroy_step_of r first sv) as [first1 ->].
  assert (Hone := destroy_one_of r (sv_Path sv) (sv_Version sv) Hr).
  assert (Hwf := destroy_or_same_wf r (sv_Path sv) (sv_Version sv) Hr).
  set (r1 := match DestroyVersion r (sv_Path sv) (sv_Version sv) with Ok r' => r' | Err _ => r end) in *.
  destruct (IH r1 first1 Hwf) as (r' & first' & -> & Hwf' & Hall). exists r', first'. split_and!; [done|done|].
  intros p v. destruct (Hall p v) as [Hin Hout], (Hone p v) as [Heq Hne]. rewrite fmap_cons, elem_of_cons.
  destruct (decide ((p, v) = (sv_Path sv, sv_Version sv))) as [E|E];
    destruct (decide ((p, v) ∈ (λ sv, (sv_Path sv, sv_Version sv)) <$> svs)) as [Hi|Hi].
  - split; [|naive_solver]. intros _. rewrite Hin, Heq by done. destruct (r !! (p, v)); [|done]. by cbn.
  - split; [|naive_solver]. intros _. by rewrite Hout, Heq.
  - split; [|naive_solver]. intros _. by rewrite Hin, Hne.
  - split; [naive_solver|]. intros _. by rewrite Hout, Hne.
Qed.

Lemma unseen_keys seen svs p v :
  (p, v) ∈ (λ sv, (sv_Path sv, sv_Version sv)) <$> unseen seen svs ↔
  (p, v) ∈ (λ sv, (sv_Path sv, sv_Version sv)) <$> svs ∧ (p, v) ∉ seen.
Proof.
  revert seen. induction svs as [|sv svs IH]; intros seen; cbn [unseen fmap list_fmap].
  { split; [intros H; by apply not_elem_of_nil in H|intros [H _]; by apply not_elem_of_nil in H]. }
  destruct (decide ((sv_Path sv, sv_Version sv) ∈ seen)) as [Hs|Hs].
  - rewrite IH, elem_of_cons. split; [naive_solver|]. intros [[E|Hin] Hn]; [|done]. congruence.
  - cbn [fmap list_fmap]. rewrite !elem_of_cons. rewrite IH, not_elem_of_union, not_elem_of_singleton.
    destruct (decide ((p, v) = (sv_Path sv, sv_Version sv))) as [E|E]; [rewrite E in *|]; naive_solver.
Qed.

(** Both deletions as a change of the store. *)
Lemma destroy_listed_of r svs first (P : string → Prop) : secrets_wf r →
  (∀ p v, (p, v) ∈ (λ sv, (sv_Path sv, sv_Version sv)) <$> svs ↔ P p ∧ is_Some (r !! (p, v))) →
  ∃ r' x, first_error (foldl destroy_step (r, first) svs) = (r', x) ∧ secrets_wf r' ∧ destroyed_of r r' (λ p _, P p).
Proof.
  intros Hr Hsvs. destruct (destroy_fold r first svs Hr) as (r' & first' & -> & Hwf & Hd). exists r'. eexists.
  split_and!; [done|done|]. intros p v. destruct (Hd p v) as [Hin Hout]. rewrite Hsvs in Hin, Hout. split.
  - intros HP. destruct (r !! (p, v)) eqn:E; [by apply Hin; rewrite ?E|]. rewrite Hout; [done|]. intros [_ [? ?]]. congruence.
  - intros HP. apply Hout. by intros [? _].
Qed.

Lemma listed_keys r pref p v : secrets_wf r →
  (p, v) ∈ (λ sv, (sv_Path sv, sv_Version sv)) <$> ListByPath r pref ↔ HasPrefix p pref = true ∧ is_Some (r !! (p, v)).
Proof.
  intros Hr. rewrite list_elem_of_fmap. split.
  - intros (sv & [= -> ->] & [Hl Hp]%ListByPath_elem); [|done]. by rewrite Hl.
  - intros [Hp [sv Hl]]. exists sv. destruct (Hr _ _ Hl) as ([= -> ->] & _). split; [done|]. by apply ListByPath_elem.
Qed.

Lemma destroyAllVersions_of r sp : secrets_wf r → ∃ r' x, destroyAllVersions sp r = (r', x) ∧ secrets_wf r' ∧
  destroyed_of r r' (λ p _, p = sp).
Proof.
  intros Hr. apply destroy_listed_of; [done|]. intros p v. rewrite list_elem_of_fmap. split.
  - intros (sv & [= -> ->] & [E [Hl _]%ListByPath_elem]%list_elem_of_filter); [|done]. split; [done|]. by exists sv.
  - intros [-> [sv Hl]]. exists sv. destruct (Hr _ _ Hl) as ([= -> ->] & _). split; [done|].
    apply list_elem_of_filter. split; [done|]. apply ListByPath_elem; [done|]. split; [done|].
    apply HasPrefix_spec. exists "". by rewrite str_app_empty_r.
Qed.

Lemma WipeToken_of r tokenID : secrets_wf r → tokenID ≠ "" → ∃ r' x, Cubby_WipeToken tokenID r = (r', x) ∧ secrets_wf r' ∧
  destroyed_of r r' (λ p _, HasPrefix p (pathPrefix +:+ tokenID +:+ "/") = true).
Proof.
  intros Hr Ht. unfold Cubby_WipeToken. rewrite bool_decide_eq_false_2 by done. apply destroy_listed_of; [done|].
  intros p v. rewrite unseen_keys, listed_keys by done. set_solver.
Qed.

(** A destroyed path has no newest version. *)
Lemma destroyed_no_latest r r' P p : secrets_wf r' → destroyed_of r r' P → (∀ v, P p v) →
  GetLatest r' p = Err (New ErrCodeNotFound "secret version not found").
Proof.
  intros Hwf Hd HP. assert (Hs := latest_spec r' p Hwf). unfold GetLatest. fold (latestNonDestroyedLocked r' p).
  destruct (latestNonDestroyedLocked r' p) as [m|]; [|done]. destruct Hs as [[Hl Hf] _].
  rewrite (proj1 (Hd p (sv_Version m)) (HP _)) in Hl. destruct (r !! (p, sv_Version m)); simplify_eq/=.
Qed.

(** ** Tokens do not see one another *)

Definition slash_free (s : string) : Prop := str_mem "/" s = false.

Lemma storagePath_ok tokenID p sp : storagePath tokenID p = Ok sp →
  ∃ np, NormalizePath p = Ok np ∧ sp = pathPrefix +:+ tokenID +:+ "/" +:+ np.
Proof. intros (np & Hn & [= <-])%res_bind_ok. by exists np. Qed.

Lemma str_app_inj_l s t u : s +:+ t = s +:+ u → t = u.
Proof. induction s as [|c s IH]; [done|]. simpl. intros [= H]. by apply IH. Qed.

(** The paths of a token's entries start with its identifier and a slash. *)
Lemma cubby_prefix_inj t t' a b : slash_free t → slash_free t' →
  pathPrefix +:+ t +:+ "/" +:+ a = pathPrefix +:+ t' +:+ "/" +:+ b → t = t' ∧ a = b.
Proof. intros Ht Ht' E%str_app_inj_l. by eapply str_sep_inj. Qed.

Lemma storagePath_prefix t p sp : storagePath t p = Ok sp → HasPrefix sp (pathPrefix +:+ t +:+ "/") = true.
Proof. intros (np & _ & ->)%storagePath_ok. apply HasPrefix_spec. exists np. by rewrite !str_app_assoc. Qed.

Lemma storagePath_other t t' p sp : slash_free t → slash_free t' → t ≠ t' → storagePath t' p = Ok sp →
  HasPrefix sp (pathPrefix +:+ t +:+ "/") = false.
Proof.
  intros Ht Ht' Hne (np & _ & ->)%storagePath_ok. apply not_true_is_false. intros [u E]%HasPrefix_spec.
  rewrite !str_app_assoc in E. destruct (cubby_prefix_inj t' t np u Ht' Ht E). congruence.
Qed.

(** An operation of a token. *)
Inductive cubby_op :=
  | CPut (fr : Fresh) (p : string) (data : object)
  | CDelete (p : string)
  | CWipe.

Section isolation.
Context `{Aead} `{Json} (k : KeyRing).

Definition cubby_step (tokenID : string) (op : cubby_op) : Store unit :=
  match op with
  | CPut fr p data => Cubby_Put k fr tokenID p data
  | CDelete p => Cubby_Delete tokenID p
  | CWipe => Cubby_WipeToken tokenID
  end.

(** Only paths that satisfy [P] may change. *)
Definition confined (P : string → Prop) : relation SecretRepository := λ r r',
  secrets_wf r → secrets_wf r' ∧ ∀ p v, ¬ P p → r' !! (p, v) = r !! (p, v).
#[global] Instance confined_preorder P : PreOrder (confined P).
Proof.
  unfold confined. split; [by intros r|]. intros r1 r2 r3 H1 H2 Hr. destruct (H1 Hr) as [Hr2 E1], (H2 Hr2) as [Hr3 E2].
  split; [done|]. intros p v Hp. by rewrite E2, E1.
Qed.

Lemma confined_mono (P Q : string → Prop) r r' : (∀ p, P p → Q p) → confined P r r' → confined Q r r'.
Proof. intros HPQ HP Hr. destruct (HP Hr) as [? E]. split; [done|]. intros p v Hn. apply E. intros ?. by apply Hn, HPQ. Qed.

Lemma confined_of P r r' (Q : string → Prop) : secrets_wf r' → destroyed_of r r' (λ p _, Q p) → (∀ p, Q p → P p) → confined P r r'.
Proof. intros Hr' Hd HQ _. split; [done|]. intros p v Hn. apply Hd. intros ?. by apply Hn, HQ. Qed.

Lemma confined_store_put P sv cas maxv : P (sv_Path sv) → sv_Destroyed sv = false → always (confined P) (store_put sv cas maxv).
Proof.
  intros Hp Hd r. unfold store_put. destruct (PutAtomic r sv cas maxv) as [[r' v]|] eqn:E; simpl; [|done].
  intros Hr. destruct (PutAtomic_read _ _ _ _ _ _ Hr Hd E) as (Hr' & _ & _ & _ & Ho & _). split; [done|].
  intros p u Hf. apply Ho. intros ->. done.
Qed.

Lemma confined_Cubby_Put fr tokenID p data : always (confined (λ q, storagePath tokenID p = Ok q)) (Cubby_Put k fr tokenID p data).
Proof.
  unfold Cubby_Put. apply always_bind; [apply _|auto with prog|intros _].
  apply always_lift_bind; [apply _|]. intros sp Hsp.
  apply always_bind; [apply _|auto with prog|intros _]. apply always_bind; [apply _|auto with prog|intros raw].
  apply always_bind; [apply _|auto with prog|intros ce]. apply always_bind; [apply _| |auto with prog].
  by apply confined_store_put.
Qed.

Lemma confined_Cubby_Delete tokenID p : always (confined (λ q, storagePath tokenID p = Ok q)) (Cubby_Delete tokenID p).
Proof.
  unfold Cubby_Delete. apply always_lift_bind; [apply _|]. intros sp Hsp r Hr.
  destruct (destroyAllVersions_of r sp Hr) as (r' & x & -> & Hr' & Hd).
  by apply (confined_of _ r r' (λ q, q = sp)); [done|done|intros q ->|].
Qed.

(** Everything outside the token's prefix stays as it is. *)
Lemma cubby_step_confined tokenID op :
  always (confined (λ p, HasPrefix p (pathPrefix +:+ tokenID +:+ "/") = true)) (cubby_step tokenID op).
Proof.
  destruct op as [fr p data|p|]; simpl.
  - intros r. eapply confined_mono; [|apply confined_Cubby_Put]. intros q. apply storagePath_prefix.
  - intros r. eapply confined_mono; [|apply confined_Cubby_Delete]. intros q. apply storagePath_prefix.
  - intros r Hr. destruct (decide (tokenID = "")) as [->|Hne]; [done|].
    destruct (WipeToken_of r tokenID Hr Hne) as (r' & x & -> & Hr' & Hd). by apply (confined_of _ r r' _ Hr' Hd).
Qed.

(** Requests of many tokens, one after another. *)
Definition cubby_run (ops : list (string * cubby_op)) (r : SecretRepository) : SecretRepository :=
  foldl (λ r x, (cubby_step x.1 x.2 r).1) r ops.

Definition foreign (token : string) (x : string * cubby_op) : Prop := slash_free x.1 ∧ x.1 ≠ token.

(** Whatever other tokens do, a read returns what it returned before. *)
Lemma foreign_ops_invisible (r : SecretRepository) token ops p :
  secrets_wf r → slash_free token → Forall (foreign token) ops →
  (Cubby_Get k token p (cubby_run ops r)).2 = (Cubby_Get k token p r).2.
Proof.
  intros Hr Ht Hops.
  assert (Hall : secrets_wf (cubby_run ops r) ∧
    ∀ sp, storagePath token p = Ok sp → ∀ v, cubby_run ops r !! (sp, v) = r !! (sp, v)).
  { revert r Hr. induction Hops as [|[t op] ops [Hs Hne] _ IH]; intros r Hr; [done|]. simpl in *.
    destruct (cubby_step_confined t op r Hr) as [Hr1 Hsame]. destruct (IH _ Hr1) as [Hr2 Hl]. split; [done|].
    intros sp Hsp v. rewrite (Hl sp Hsp v). apply Hsame. by rewrite (storagePath_other t token p sp). }
  destruct Hall as [Hr' Hl]. unfold Cubby_Get, guard_not, lift, mbind, prog_bind. destruct (reject _ _); [|done].
  destruct (storagePath token p) as [sp|] eqn:Esp; [|done]. unfold store_latest.
  rewrite (GetLatest_same r _ sp Hr Hr' (Hl sp eq_refl)). destruct (GetLatest r sp); [|done].
  destruct (wrap_internal _ _); [|done]. by destruct (wrap_internal _ _).
Qed.

(** What is sealed with these random bytes can be opened. *)
Definition seals (rnd : Entropy) : Prop := ∀ p c enc, Seal k rnd p = Ok (c, enc) → Open k c enc = Ok p.

Lemma Cubby_Put_run fr token p data r r' u : Cubby_Put k fr token p data r = (r', Ok u) →
  token ≠ "" ∧ ∃ sp raw c enc v, storagePath token p = Ok sp ∧ json_marshal data = Ok raw ∧ Seal k (fr_Rnd fr) raw = Ok (c, enc) ∧
    PutAtomic r (cubby_version fr sp token (c, enc)) None 1 = Ok (r', v).
Proof.
  unfold Cubby_Put. intros Hp. inv_run. bool_props. split; [done|].
  repeat match goal with
  | H : wrap_internal _ _ = Ok _ |- _ => apply wrap_internal_ok in H
  | H : store_put _ _ _ _ = _ |- _ => apply store_put_ok in H
  | x : bytes * bytes |- _ => destruct x
  end.
  naive_solver.
Qed.

Lemma Cubby_Get_pure token p r : (Cubby_Get k token p r).1 = r.
Proof.
  unfold Cubby_Get, mbind, prog_bind, guard_not, lift, store_latest. destruct (reject _ _); [|done].
  destruct (storagePath _ _); [|done]. destruct (GetLatest _ _); [|done]. by destruct (wrap_internal _ _).
Qed.

Lemma Cubby_Get_at token p sp r : token ≠ "" → storagePath token p = Ok sp → (Cubby_Get k token p r).2 =
  match GetLatest r sp with
  | Ok sv => plain ← wrap_internal "decrypt" (Open k (sv_DataEnc sv) (sv_DEKEnc sv)); wrap_internal "unmarshal" (json_unmarshal plain)
  | Err e => Err e
  end.
Proof.
  intros Ht Hsp. unfold Cubby_Get, guard_not. rewrite bool_decide_eq_false_2 by done. unfold mbind, prog_bind, lift, store_latest.
  rewrite Hsp. simpl. destruct (GetLatest r sp); [|done]. unfold res_bind. by destruct (wrap_internal _ _).
Qed.

(** The cubbyhole of a token is private storage. What the token put it gets
    back, whatever other tokens have written, deleted or wiped since; and after
    its storage was wiped (which is what revoking the token does) no path of it
    can be read any more. *)
Theorem cubbyhole_private `{!JsonLaws} r token ops fr p data r' u :
  secrets_wf r → slash_free token → Forall (foreign token) ops → seals (fr_Rnd fr) →
  Cubby_Put k fr token p data r = (r', Ok u) →
  (Cubby_Get k token p (cubby_run ops r')).2 = Ok data ∧
  ∀ q sq, storagePath token q = Ok sq →
    (Cubby_Get k token q (cubby_run ops (Cubby_WipeToken token r').1)).2 = Err (New ErrCodeNotFound "secret version not found").
Proof.
  intros Hr Ht Hops Hs Hp. destruct (cubby_step_confined token (CPut fr p data) r Hr) as [Hr' _]. simpl in Hr'. rewrite Hp in Hr'. simpl in Hr'.
  apply Cubby_Put_run in Hp as (Hne & sp & raw & c & enc & v & Hsp & Hj & Hse & Hput). split.
  - rewrite foreign_ops_invisible by done. rewrite (Cubby_Get_at token p sp) by done.
    apply PutAtomic_read in Hput as (_ & _ & Hlat & _); [|done|done]. cbn [sv_Path cubby_version] in Hlat. rewrite Hlat.
    cbn. rewrite (Hs _ _ _ Hse). cbn. by rewrite (json_roundtrip _ _ Hj).
  - intros q sq Hq. destruct (WipeToken_of r' token Hr' Hne) as (r2 & x & -> & Hr2 & Hd). cbn [fst].
    rewrite foreign_ops_invisible by done. rewrite (Cubby_Get_at token q sq) by done.
    rewrite (destroyed_no_latest r' r2 _ sq Hr2 Hd); [done|]. intros _. by apply (storagePath_prefix token q).
Qed.
End isolation.

(** ** Deleting twice *)

Lemma destroy_fold_first r e svs : ∃ r', foldl destroy_step (r, Some e) svs = (r', Some e).
Proof.
  revert r. induction svs as [|sv svs IH]; intros r; [by eexists|]. cbn [foldl]. unfold destroy_step at 2.
  destruct (DestroyVersion r _ _); apply IH.
Qed.

Lemma destroy_fold_error r svs sv : secrets_wf r → sv ∈ svs →
  (∃ sv', r !! (sv_Path sv, sv_Version sv) = Some sv' ∧ sv_Destroyed sv' = true) →
  ∃ r' e, foldl destroy_step (r, None) svs = (r', Some e).
Proof.
  intros Hr Hin. revert r Hr. induction svs as [|su svs IH]; intros r Hr (sv' & Hl & Hd); [by apply not_elem_of_nil in Hin|].
  cbn [foldl]. unfold destroy_step at 2. destruct (DestroyVersion r (sv_Path su) (sv_Version su)) as [r1|e] eqn:E.
  - destruct (DestroyVersion_ok _ _ _ _ Hr E) as (s0 & Hs0 & Hd0 & -> & Hr1). apply elem_of_cons in Hin as [->|Hin].
    + rewrite Hl in Hs0. congruence.
    + apply IH; [done|done|]. exists sv'. split; [|done]. rewrite lookup_insert_ne; [done|]. intros [= Hp Hv].
      rewrite Hp, Hv, Hl in Hs0. congruence.
  - destruct (destroy_fold_first r e svs) as [r' Hr']. by exists r', e.
Qed.

(** Once a path of the cubbyhole was deleted, every later deletion of it reports
    a failure, although it does its work: a version that was destroyed before
    stays listed and cannot be destroyed again. *)
Theorem cubby_delete_again_fails r token p sp v sv :
  secrets_wf r → storagePath token p = Ok sp → r !! (sp, v) = Some sv → sv_Destroyed sv = true →
  ∃ r' e, Cubby_Delete token p r = (r', Err e) ∧ GetLatest r' sp = Err (New ErrCodeNotFound "secret version not found").
Proof.
  intros Hr Hsp Hl Hd. unfold Cubby_Delete, mbind, prog_bind, lift. rewrite Hsp.
  destruct (destroyAllVersions_of r sp Hr) as (r' & x & Hx & Hr' & Hof). rewrite Hx.
  assert (Hlat := destroyed_no_latest r r' _ sp Hr' Hof (λ _, eq_refl)). unfold destroyAllVersions in Hx.
  destruct (Hr _ _ Hl) as ([= Hp Hv] & _). destruct (destroy_fold_error r (filter (λ sv, sv_Path sv = sp) (ListByPath r sp)) sv Hr) as (r2 & e & He).
  - apply list_elem_of_filter. split; [done|]. apply ListByPath_elem; [done|]. rewrite <-Hp, <-Hv. split; [done|].
    apply HasPrefix_spec. exists "". by rewrite str_app_empty_r.
  - exists sv. by rewrite <-Hp, <-Hv.
  - rewrite He in Hx. injection Hx as <- <-. by exists r2, e.
Qed.

(** ** Examples *)

#[local] Existing Instance toy_aead.
#[local] Existing Instance toy_laws.
#[local] Existing Instance toy_json.
#[local] Existing Instance toy_json_laws.

Definition demo_fresh (id : UUID) (now : Time) : Fresh := mkFresh id now demo_entropy.

Lemma demo_ring_wf : ring_wf (demo_ring "a").
Proof. by apply (NewKeyRing_wf (demo_key "a")). Qed.

Lemma demo_seals : seals (demo_ring "a") demo_entropy.
Proof.
  intros p c enc Hs. destruct (Open_later (demo_ring "a") (demo_ring "a") (demo_key "d") demo_nonce demo_nonce p demo_ring_wf)
    as (c' & enc' & Hs' & _ & _ & Ho); [reflexivity|done..|].
  unfold demo_entropy in Hs. rewrite Hs in Hs'. injection Hs' as <- <-. apply Ho. intros _ v sealed key E Hk.
  unfold Seal in Hs. cbn in Hs. injection Hs as _ <-. injection E as <- _. by vm_compute in Hk.
Qed.

Definition demo_cubby : SecretRepository := (Cubby_Put (demo_ring "a") (demo_fresh 1 100) "t1" "app/db" (demo_data "s") ∅).1.
Definition demo_foreign : list (string * cubby_op) :=
  [("t2", CPut (demo_fresh 2 200) "app/db" (demo_data "other")); ("t2", CDelete "app/db"); ("t11", CWipe)].

Lemma cubbyhole_private_witness :
  (Cubby_Get (demo_ring "a") "t1" "/app/db" (cubby_run (demo_ring "a") demo_foreign (Cubby_WipeToken "t1" demo_cubby).1)).2 =
    Err (New ErrCodeNotFound "secret version not found").
Proof.
  refine (proj2 (cubbyhole_private (demo_ring "a") ∅ "t1" demo_foreign (demo_fresh 1 100) "app/db" (demo_data "s") demo_cubby tt
    secrets_wf_empty eq_refl _ demo_seals _) "/app/db" "cubbyhole/t1/app/db" _).
  - repeat apply Forall_cons_2; first [apply Forall_nil_2|split; [reflexivity|discriminate]].
  - unfold demo_cubby. apply run_eq. vm_compute. reflexivity.
  - vm_compute. reflexivity.
Defined.

Definition demo_cubby_deleted : SecretRepository := (Cubby_Delete "t1" "app/db" demo_cubby).1.

Lemma demo_cubby_deleted_wf : secrets_wf demo_cubby_deleted.
Proof.
  apply (cubby_step_confined (demo_ring "a") "t1" (CDelete "app/db") demo_cubby).
  apply (cubby_step_confined (demo_ring "a") "t1" (CPut (demo_fresh 1 100) "app/db" (demo_data "s")) ∅). apply secrets_wf_empty.
Qed.

Lemma cubby_delete_again_fails_witness : ∃ r' e, Cubby_Delete "t1" "app/db" demo_cubby_deleted = (r', Err e) ∧
  GetLatest r' "cubbyhole/t1/app/db" = Err (New ErrCodeNotFound "secret version not found").
Proof.
  destruct (demo_cubby_deleted !! ("cubbyhole/t1/app/db", 1)) as [sv|] eqn:E; [|by vm_compute in E].
  apply (cubby_delete_again_fails demo_cubby_deleted "t1" "app/db" "cubbyhole/t1/app/db" 1 sv demo_cubby_deleted_wf); [by vm_compute|exact E|].
  vm_compute in E. injection E as <-. reflexivity.
Defined.
