(* ===== verification/Bootstrap.v ===== *)
(** What a process needs before it serves: the master key
    (internal/crypto/masterkey/loader.go), the unseal key under a key of an
    external service (internal/crypto/autounseal/autounseal.go), the mark of the
    one-time initialization (internal/sys/initstate.go) with the handler that sets
    it (Init in internal/api/handlers/sys.go), and the registry of secret engines
    (internal/engine).

    Base64 is the class [Base64], the environment and the files of the master key
    the class [KeySource]. *)

From S2P Require Import Prelude.
From S2P Require Import Effects.
From S2P Require Import GoLib.
From S2P Require Import Crypto.
From S2P Require Import AppRole.
From S2P Require Import Ttl.
From S2P Require Import Domain.
From S2P Require Import SecretRepo.
From S2P Require Import KVEngine.
From S2P Require Import Resp.

#[local] Open Scope Z_scope.

Class Base64 := { b64_encode : bytes → string; b64_decode : string → res bytes }.
Class Base64Laws `{Base64} := {
  b64_roundtrip : ∀ b, b64_decode (b64_encode b) = Ok b;
  (** The alphabet has no white space. *)
  b64_trim : ∀ b, TrimSpace (b64_encode b) = b64_encode b;
}.

(** ** internal/crypto/masterkey/loader.go *)

Module MasterKeyLoader.

Definition keySize : Z := 32.

Class KeySource := {
  Getenv : string → string;
  OpenRoot : string → res unit;
  (** Whether a name below a directory is a regular file, and its content. *)
  StatRegular : string → string → res bool;
  ReadKeyFile : string → string → res string;
}.

Section load.
Context {source : KeySource} {b64 : Base64}.

Definition decodeKey (raw : string) : res bytes :=
  match b64_decode raw with
  | Err e => Err (Wrapf "decode master key: " e)
  | Ok key => _ ← reject (negb (len key =? keySize)) (Plain ("master key must be " +:+ Itoa keySize +:+ " bytes, got " +:+ Itoa (len key))); Ok key
  end.

(** [filepath.Dir] and [filepath.Base] of a cleaned absolute path, from the last
    segment to the first. *)
Definition dir_base (segments : list string) : string * string :=
  match segments with
  | [] => ("/", "/")
  | name :: dirs => (match reverse dirs with [] => "/" | segs => join_rooted segs end, name)
  end.

Definition keyFileLocation (path : string) : res (string * string) :=
  let path := TrimSpace path in
  _ ← reject (path =s "") (Plain "read master key file: empty path");
  _ ← reject (Contains path "..") (Plain "read master key file: invalid path");
  _ ← reject (negb (HasPrefix path "/")) (Plain "read master key file: path must be absolute");
  let '(dir, name) := dir_base (foldl clean_step [] (SplitOn "/" path)) in
  _ ← reject ((name =s ".") || (name =s "..") || (name =s "") || str_mem "/" name) (Plain "read master key file: invalid path");
  Ok (dir, name).

Definition file_error {A} (r : res A) : res A := match r with Ok a => Ok a | Err e => Err (Wrapf "read master key file: " e) end.

Definition loadFromFile (path : string) : res bytes :=
  '(dir, name) ← keyFileLocation path;
  _ ← file_error (OpenRoot dir);
  regular ← file_error (StatRegular dir name);
  _ ← reject (negb regular) (Plain "read master key file: not a regular file");
  data ← file_error (ReadKeyFile dir name);
  decodeKey (TrimSpace data).

Definition MasterKey_Load : res bytes :=
  let path := TrimSpace (Getenv "KNXVAULT_MASTER_KEY_FILE") in
  if negb (path =s "") then loadFromFile path else
  let raw := TrimSpace (Getenv "KNXVAULT_MASTER_KEY") in
  if negb (raw =s "") then decodeKey raw
  else Err (Plain "master key not configured: set KNXVAULT_MASTER_KEY_FILE or KNXVAULT_MASTER_KEY").
End load.
End MasterKeyLoader.

(** ** internal/crypto/autounseal/autounseal.go *)

Module AutoUnseal.

Record AutoConfig := mkAutoConfig { ac_Provider : string; ac_Ciphertext : string; ac_KEK : string }.

Section unseal.
Context {aead : Aead} {b64 : Base64}.

(** [nonce] is what the random reader returns. *)
Definition SealUnsealKey (unsealKey kek : bytes) (nonce : res bytes) : res string :=
  _ ← reject (negb (len kek =? 32)) (Plain "kek must be 32 bytes");
  _ ← reject (bool_decide (unsealKey = [])) (Plain "unseal key empty");
  nonce ← nonce;
  Ok (b64_encode (nonce ++ gcm_seal kek nonce unsealKey)).

Definition decryptAESKEK (ciphertextB64 kekB64 : string) : res bytes :=
  kek ← match b64_decode (TrimSpace kekB64) with Ok k => Ok k | Err e => Err (Wrapf "decode kek: " e) end;
  _ ← reject (negb (len kek =? 32)) (Plain ("kek must decode to 32 bytes, got " +:+ Itoa (len kek)));
  raw ← match b64_decode (TrimSpace ciphertextB64) with Ok k => Ok k | Err e => Err (Wrapf "decode ciphertext: " e) end;
  _ ← reject (Nat.ltb (length raw) nonce_size) (Plain "ciphertext too short");
  match gcm_open kek (take nonce_size raw) (drop nonce_size raw) with
  | Some pt => Ok pt
  | None => Err (Wrapf "decrypt unseal key: " (Plain "cipher: message authentication failed"))
  end.

Definition DecryptUnsealKey (cfg : AutoConfig) : res bytes :=
  let provider := ToLower (TrimSpace (ac_Provider cfg)) in
  if (provider =s "") || (provider =s "none") then Err (Plain "auto-unseal provider not set")
  else if provider =s "aes-kek" then decryptAESKEK (ac_Ciphertext cfg) (ac_KEK cfg)
  else Err (Plain ("unknown auto-unseal provider " +:+ quoted (ac_Provider cfg) +:+ " (supported: aes-kek)")).
End unseal.
End AutoUnseal.

(** ** internal/sys/initstate.go *)

Module InitState.

(** The variables of a process and the files of its disk. *)
Record InitState := mkInitState { in_initialized : bool; in_masterKeyFP : string; in_statePath : string }.
Record World (S : Type) := mkWorld { wd_init : InitState; wd_disk : gmap string string; wd_rest : S }.
Arguments mkWorld {S}. Arguments wd_init {S}. Arguments wd_disk {S}. Arguments wd_rest {S}.

Definition ErrAlreadyInitialized : error := Plain "system already initialized".
Definition process_start : InitState := mkInitState false "" "".

Section state.
Context {S : Type}.

Definition SetStatePath (path : string) (w : World S) : World S :=
  let i := wd_init w in
  let unread := mkWorld (mkInitState (in_initialized i) (in_masterKeyFP i) path) (wd_disk w) (wd_rest w) in
  if path =s "" then unread
  else match wd_disk w !! path with
       | Some raw => if raw =s "" then unread else mkWorld (mkInitState true raw path) (wd_disk w) (wd_rest w)
       | None => unread
       end.

(** [wr] says whether the file can be written. *)
Definition MarkInitialized (wr : bool) (fingerprint : string) : prog (World S) unit := λ w,
  let i := wd_init w in
  if in_initialized i then (w, Err ErrAlreadyInitialized)
  else
    let disk := if negb (in_statePath i =s "") && wr then <[in_statePath i := fingerprint]> (wd_disk w) else wd_disk w in
    (mkWorld (mkInitState true fingerprint (in_statePath i)) disk (wd_rest w), Ok tt).

Definition Initialized (w : World S) : bool := in_initialized (wd_init w).
Definition MasterKeyFingerprint (w : World S) : string := in_masterKeyFP (wd_init w).

(** A process that starts on the disk another one left. *)
Definition restart (path : string) (rest : S) (w : World S) : World S := SetStatePath path (mkWorld process_start (wd_disk w) rest).

(** *** Init of internal/api/handlers/sys.go *)

Record InitRequest := mkInitRequest { iq_CreateRootCA : bool; iq_RootCAName : string; iq_RootCommonName : string }.

Context `{Sha256} {CA : Type}.

Definition fingerprint (masterKey : bytes) : string :=
  if bool_decide (masterKey = []) then "" else HexEncode (take 8 (sha256_Sum (string_of masterKey))).

(** [create] is [CreateRoot] of the PKI service, with name, common name and TTL. *)
Definition Init (create : option (string → string → string → prog S CA)) (wr : bool) (masterKey : bytes) (req : InitRequest)
    : prog (World S) (string * option CA) :=
  let fp := fingerprint masterKey in
  _ ← on_error (MarkInitialized wr fp) (λ e, raise (Wrap ErrCodeValidation (error_string e) e));
  ca ← match iq_CreateRootCA req, create with
       | true, Some create =>
           let name := if iq_RootCAName req =s "" then "root" else iq_RootCAName req in
           let cn := if iq_RootCommonName req =s "" then "KNXVault Root CA" else iq_RootCommonName req in
           ca ← zoom wd_rest (λ w s, mkWorld (wd_init w) (wd_disk w) s) (create name cn "87600h");
           mret (Some ca)
       | _, _ => mret None
       end;
  mret (fp, ca).
End state.
End InitState.

(** ** internal/engine *)

Module Registry.

Record SecretEngine (S : Type) := mkSecretEngine {
  se_Name : string;
  se_Put : string → object → prog S unit;
  se_Get : string → prog S object;
}.
Arguments mkSecretEngine {S}. Arguments se_Name {S}. Arguments se_Put {S}. Arguments se_Get {S}.

Section registry.
Context {S : Type}.
Implicit Types r : gmap string (SecretEngine S).

Definition NewRegistry : gmap string (SecretEngine S) := ∅.

(** [None] is the panic on a name that is taken. *)
Definition Registry_Register r (engine : option (SecretEngine S)) : option (gmap string (SecretEngine S)) :=
  match engine with
  | None => Some r
  | Some e => match r !! se_Name e with Some _ => None | None => Some (<[se_Name e := e]> r) end
  end.
Definition Registry_Get r (name : string) : option (SecretEngine S) := r !! name.
Definition List r : list string := (map_to_list r).*1.
Definition unknown_engine (name : string) : error := Plain ("unknown secret engine " +:+ quoted name).
Definition Registry_Put r (name path : string) (data : object) : prog S unit :=
  match r !! name with Some e => se_Put e path data | None => raise (unknown_engine name) end.
Definition GetSecret r (name path : string) : prog S object :=
  match r !! name with Some e => se_Get e path | None => raise (unknown_engine name) end.
End registry.

(** The adapter of the KV engine; the state is its repository. *)
Section kv.
Context `{Aead} `{Json} (parse_duration : string → option Duration).

Definition KV_RegistryAdapter (k : KeyRing) (id : UUID) (now : Time) (rnd : Entropy) : SecretEngine SecretRepository :=
  mkSecretEngine "kv"
    (λ path data r, match KV_Put parse_duration r k id now rnd path data (mkPutOptions "" None 0 ∅) with
                    | Ok (r', _) => (r', Ok tt)
                    | Err e => (r, Err e)
                    end)
    (λ path r, (r, gr_Data <$> KV_Get r k now path)).
End kv.

(** The adapters of the database and SSH engines, which refuse both. *)
Definition refusing_adapter {S} (name : string) : SecretEngine S :=
  mkSecretEngine name (λ _ _, raise (Plain (name +:+ " engine does not support direct put"))) (λ _, raise (Plain (name +:+ " engine does not support direct get"))).
End Registry.

(** ** Properties *)

Module BootstrapFacts.
Import MasterKeyLoader.
Import AutoUnseal.
Import InitState.
Import Registry.

Lemma join_rooted_app a b : join_rooted (a ++ b) = join_rooted a +:+ join_rooted b.
Proof. induction a as [|x a IH]; [done|]. cbn. by rewrite IH, !str_app_assoc. Qed.

Lemma clean_nonempty segs stack : Forall (λ x, x ≠ "") stack → Forall (λ x, x ≠ "") (foldl clean_step stack segs).
Proof.
  revert stack. induction segs as [|x segs IH]; intros stack Hs; [done|]. cbn. apply IH. unfold clean_step.
  destruct ((x =s "") || (x =s ".")) eqn:E; [done|]. apply orb_false_iff in E as [E _]. apply bool_decide_eq_false in E.
  destruct (x =s ".."); [|by constructor]. destruct stack; [done|]. by apply Forall_cons in Hs as [_ ?].
Qed.

(** The directory and the name of a key file are those of the cleaned path. *)
Theorem key_location path dir name : keyFileLocation path = Ok (dir, name) →
  HasPrefix dir "/" = true ∧ name ≠ "" ∧ str_mem "/" name = false ∧ Contains (TrimSpace path) ".." = false ∧
  CleanRooted (TrimSpace path) = (if dir =s "/" then "" else dir) +:+ "/" +:+ name.
Proof.
  unfold keyFileLocation, CleanRooted. cbv zeta. intros H. inv_res.
  assert (Hne := clean_nonempty (SplitOn "/" (TrimSpace path)) [] (Forall_nil_2 _)).
  destruct (foldl clean_step [] (SplitOn "/" (TrimSpace path))) as [|x dirs]; [done|]. cbn [dir_base] in H. inv_res.
  match goal with Hb : _ || _ = false |- _ => apply orb_false_iff in Hb as [[_ Hn%bool_decide_eq_false]%orb_false_iff Hs] end.
  apply Forall_cons in Hne as [_ Hne]. rewrite reverse_cons. apply Forall_reverse in Hne.
  destruct (reverse dirs) as [|d ds] eqn:E; [cbn; by rewrite ?str_app_empty_r|]. apply Forall_cons in Hne as [Hd _].
  split; [done|]. split; [done|]. split; [done|]. split; [done|].
  rewrite bool_decide_eq_false_2; [|by destruct d]. cbn [app].
  change (join_rooted ((d :: ds) ++ [name]) = join_rooted (d :: ds) +:+ "/" +:+ name).
  rewrite join_rooted_app. f_equal. cbn. by rewrite str_app_empty_r.
Qed.

Section key_facts.
Context {source : KeySource} {b64 : Base64}.

Lemma decodeKey_size raw key : decodeKey raw = Ok key → b64_decode raw = Ok key ∧ len key = 32.
Proof.
  unfold decodeKey. destruct (b64_decode raw) as [k|]; [|done]. intros H. inv_res.
  match goal with Hb : negb _ = false |- _ => apply negb_false_iff, Z.eqb_eq in Hb end. done.
Qed.

(** A master key that loads has 32 bytes, and where a file is configured it comes
    from a regular file at the cleaned path: the variable with the key is not read. *)
Theorem master_key_loaded key : MasterKey_Load = Ok key → len key = 32 ∧
  (TrimSpace (Getenv "KNXVAULT_MASTER_KEY_FILE") ≠ "" → ∃ dir name data,
     keyFileLocation (TrimSpace (Getenv "KNXVAULT_MASTER_KEY_FILE")) = Ok (dir, name) ∧ StatRegular dir name = Ok true ∧
     ReadKeyFile dir name = Ok data ∧ b64_decode (TrimSpace data) = Ok key).
Proof.
  unfold MasterKey_Load. cbv zeta. destruct (TrimSpace (Getenv "KNXVAULT_MASTER_KEY_FILE") =s "") eqn:E; cbn [negb].
  - apply bool_decide_eq_true in E. destruct (_ =s ""); cbn [negb]; [done|]. intros [_ H]%decodeKey_size. by split.
  - unfold loadFromFile, file_error. intros H. apply res_bind_ok in H as ([dir name] & Hl & H).
    destruct (OpenRoot dir); cbn in H; [|done]. destruct (StatRegular dir name) as [reg|] eqn:Er; cbn in H; [|done].
    destruct reg; cbn in H; [|done]. destruct (ReadKeyFile dir name) as [data|] eqn:Ed; cbn in H; [|done].
    apply decodeKey_size in H as [H1 H2]. split; [done|]. intros _. by exists dir, name, data.
Qed.

(** A key sealed under a key of 32 bytes comes back, whatever white space and
    case the configuration has. *)
Theorem auto_unseal_roundtrip `{!Base64Laws} {aead : Aead} {laws : AeadLaws} key kek nonce ct provider :
  length nonce = nonce_size → ToLower (TrimSpace provider) = "aes-kek" → SealUnsealKey key kek (Ok nonce) = Ok ct →
  DecryptUnsealKey (mkAutoConfig provider ct (b64_encode kek)) = Ok key.
Proof.
  intros Hn Hp Hseal. unfold SealUnsealKey in Hseal. inv_res.
  match goal with Hb : negb _ = false |- _ => apply negb_false_iff, Z.eqb_eq in Hb; rename Hb into Hk end.
  unfold DecryptUnsealKey, decryptAESKEK. cbn [ac_Provider ac_Ciphertext ac_KEK]. rewrite Hp. cbn [orb]. cbv zeta.
  rewrite !b64_trim, !b64_roundtrip. cbn [mbind res_bind]. rewrite Hk. cbn [negb Z.eqb Pos.eqb reject].
  match goal with |- context [(length ?a <? nonce_size)%nat] => destruct (Nat.ltb_spec (length a) nonce_size) as [Hlt|_]; [rewrite length_app in Hlt; lia|] end.
  cbn [reject mbind res_bind]. rewrite <-Hn, take_app_length, drop_app_length. by rewrite open_seal.
Qed.
End key_facts.

(** *** Initialization happens once *)

Section init_facts.
Context `{Sha256} {S CA : Type}.
Implicit Types w : World S.

Definition already : error := Wrap ErrCodeValidation (error_string ErrAlreadyInitialized) ErrAlreadyInitialized.

Lemma Init_refused create wr masterKey req w : Initialized w = true → Init (CA := CA) create wr masterKey req w = (w, Err already).
Proof. unfold Initialized. intros Hi. unfold Init, mbind, prog_bind, on_error, MarkInitialized. rewrite Hi. done. Qed.

(** Whatever comes of the root CA, the mark is set. *)
Lemma Init_marks create wr masterKey req w : Initialized w = false →
  let w' := (Init (CA := CA) create wr masterKey req w).1 in
  Initialized w' = true ∧ in_statePath (wd_init w') = in_statePath (wd_init w) ∧
  wd_disk w' = if negb (in_statePath (wd_init w) =s "") && wr then <[in_statePath (wd_init w) := fingerprint masterKey]> (wd_disk w) else wd_disk w.
Proof.
  unfold Initialized. intros Hi. unfold Init, mbind, prog_bind, on_error, MarkInitialized. rewrite Hi. cbv zeta.
  destruct (iq_CreateRootCA req), create as [create|]; cbn; try done. unfold zoom. cbn.
  destruct (create _ _ _ _) as [t [ca|e]]; done.
Qed.

Definition read_mark w : Prop := in_statePath (wd_init w) ≠ "" ∧ wd_disk w !! in_statePath (wd_init w) = Some (in_masterKeyFP (wd_init w)).

(** The vault is initialized once. After a first call of Init, successful or
    not, every further one is refused without effect, in the same process, and,
    if the file of the mark could be written and there is a master key, in every
    later process that is given the same file. *)
Theorem initialized_once create wr masterKey req w : Initialized w = false →
  let w' := (Init (CA := CA) create wr masterKey req w).1 in
  (∀ create' wr' masterKey' req', Init (CA := CA) create' wr' masterKey' req' w' = (w', Err already)) ∧
  (wr = true → in_statePath (wd_init w) ≠ "" → fingerprint masterKey ≠ "" → ∀ rest create' wr' masterKey' req',
     let w1 := restart (in_statePath (wd_init w)) rest w' in
     MasterKeyFingerprint w1 = fingerprint masterKey ∧ Init (CA := CA) create' wr' masterKey' req' w1 = (w1, Err already)).
Proof.
  intros Hi w'. destruct (Init_marks create wr masterKey req w Hi) as (H1 & H2 & H3). fold w' in H1, H2, H3. split.
  - intros. by apply Init_refused.
  - intros -> Hp Hf rest create' wr' masterKey' req' w1. rewrite bool_decide_eq_false_2 in H3 by done. cbn in H3.
    assert (Hw1 : w1 = mkWorld (mkInitState true (fingerprint masterKey) (in_statePath (wd_init w))) (wd_disk w') rest).
    { unfold w1, restart, SetStatePath. cbn [wd_disk wd_init wd_rest]. rewrite (bool_decide_eq_false_2 (in_statePath (wd_init w) = "")) by done.
      rewrite H3, lookup_insert_eq. by rewrite bool_decide_eq_false_2. }
    rewrite Hw1. split; [done|]. by apply Init_refused.
Qed.
End init_facts.

(** *** The registry *)

Lemma Registry_Register_get {S} (r r' : gmap string (SecretEngine S)) e name : Registry_Register r (Some e) = Some r' →
  Registry_Get r' name = if name =s se_Name e then Some e else Registry_Get r name.
Proof.
  unfold Registry_Register, Registry_Get. destruct (r !! se_Name e); [done|]. intros [= <-]. case_bool_decide as E.
  - subst name. by rewrite lookup_insert_eq.
  - by rewrite lookup_insert_ne.
Qed.

(** Through the registry a secret that was put is got back, while its engine
    stays registered: registering others does not change what a name means. *)
Theorem registry_kv_roundtrip `{AeadLaws} `{JsonLaws} parse_duration k id now rnd e2 r0 r1 r2 path data s s' :
  Registry_Register r0 (Some (KV_RegistryAdapter parse_duration k id now rnd)) = Some r1 → Registry_Register r1 (Some e2) = Some r2 →
  secrets_wf s → ring_wf k → good_entropy rnd → Registry_Put r2 "kv" path data s = (s', Ok tt) →
  (∀ v sv, s' !! (path, v) = Some sv → kr_legacy k = true → shift_refused k (sv_DEKEnc sv)) →
  GetSecret r2 "kv" path s' = (s', Ok data).
Proof.
  intros Hr1 Hr2 Hwf Hk Hrnd Hp Hl.
  assert (Hkv : r2 !! "kv" = Some (KV_RegistryAdapter parse_duration k id now rnd)).
  { assert (E2 := Registry_Register_get _ _ _ "kv" Hr2). assert (E1 := Registry_Register_get _ _ _ "kv" Hr1). unfold Registry_Get in *. cbn [se_Name KV_RegistryAdapter] in E1.
    rewrite bool_decide_eq_true_2 in E1 by done. rewrite E2. case_bool_decide as E; [|by rewrite E1]. exfalso. unfold Registry_Register in Hr2. rewrite <-E, E1 in Hr2. done. }
  unfold Registry_Put in Hp. unfold GetSecret. rewrite Hkv in *. cbn in *.
  destruct (KV_Put parse_duration s k id now rnd path data (mkPutOptions "" None 0 ∅)) as [[r' v]|] eqn:E; [|done]. injection Hp as <-.
  assert (Hex : ∀ sv, r' !! (path, v) = Some sv → sv_ExpiresAt sv = None).
  { intros sv Hsv. destruct (KV_Put_ok _ _ _ _ _ _ _ _ _ _ _ E) as (_ & payload & c & enc & ttl & _ & _ & Ht & Hput).
    cbn in Ht. injection Ht as <-. apply PutAtomic_read in Hput as (_ & _ & _ & Hv & _); [|done|done]. unfold GetVersion in Hv.
    change (sv_Path _) with path in Hv. rewrite Hsv in Hv. injection Hv as ->. done. }
  destruct (kv_put_get parse_duration s k k id now rnd path data (mkPutOptions "" None 0 ∅) r' v now Hwf Hk (rtc_refl _ _) Hrnd E) as (_ & ttl & Hg & _).
  - intros sv Hsv. split; [by apply (Hl v)|]. intros t Ht. by rewrite (Hex sv Hsv) in Ht.
  - by rewrite Hg.
Qed.
End BootstrapFacts.

(** ** Concrete processes *)

Module BootstrapExamples.
Import MasterKeyLoader.
Import AutoUnseal.
Import InitState.
Import Registry.
Import BootstrapFacts.

(** Hexadecimal in place of base64. *)
#[local] Instance hex_text : Base64 := {| b64_encode := HexEncode; b64_decode s := match HexDecode s with Some b => Ok b | None => Err (Plain "illegal data") end |}.

Lemma hex_nonspace b c : str_mem c (HexEncode b) = true → IsSpace c = false.
Proof.
  induction b as [|x b IH]; [done|]. cbn [HexEncode]. rewrite str_mem_app. intros [Hc|Hc]%orb_true_iff; [|by apply IH].
  unfold hex_byte in Hc. cbn [str_mem] in Hc. rewrite orb_false_r in Hc. revert Hc. clear IH.
  destruct x as [[] [] [] [] [] [] [] []]; vm_compute (hex_digit _); intros [->%bool_decide_eq_true| ->%bool_decide_eq_true]%orb_true_iff; reflexivity.
Qed.

#[local] Instance hex_laws : Base64Laws.
Proof.
  split; intros b; cbn.
  - by rewrite HexDecode_Encode.
  - apply nonspace_trim, hex_nonspace.
Qed.

Lemma auto_unseal_roundtrip_witness : ∃ ct,
  SealUnsealKey (aead := toy_aead) (bytes_of "unseal") (demo_key "k") (Ok demo_nonce) = Ok ct ∧
  DecryptUnsealKey (aead := toy_aead) (mkAutoConfig " AES-KEK" ct (b64_encode (demo_key "k"))) = Ok (bytes_of "unseal").
Proof.
  eexists. split; [reflexivity|]. apply (auto_unseal_roundtrip (laws := toy_laws) (bytes_of "unseal") (demo_key "k") demo_nonce).
  - reflexivity.
  - reflexivity.
  - reflexivity.
Defined.

#[local] Instance demo_source : KeySource := {|
  Getenv v := if v =s "KNXVAULT_MASTER_KEY_FILE" then "/etc/knxvault/./key" else "ignored";
  OpenRoot _ := Ok tt;
  StatRegular _ _ := Ok true;
  ReadKeyFile dir name := if (dir =s "/etc/knxvault") && (name =s "key") then Ok (HexEncode (demo_key "m") +:+ newline) else Err (Plain "no file");
|}.

Lemma key_location_witness : CleanRooted "/etc/knxvault/./key" = "/etc/knxvault" +:+ "/" +:+ "key".
Proof. apply (key_location "/etc/knxvault/./key" "/etc/knxvault" "key"). vm_compute. reflexivity. Defined.

Lemma master_key_loaded_witness : ∃ key, MasterKey_Load = Ok key ∧ len key = 32.
Proof.
  exists (demo_key "m"). assert (Hl : MasterKey_Load = Ok (demo_key "m")) by (vm_compute; reflexivity). split; [exact Hl|].
  apply (master_key_loaded (demo_key "m") Hl).
Defined.

#[local] Instance boot_sha : Sha256 := toy_sha256.
Definition new_process : World unit := mkWorld (mkInitState false "" "init.state") ∅ tt.
Definition boot_request : InitRequest := mkInitRequest true "" "".
Definition failing_pki : string → string → string → prog unit unit := λ _ _ _, raise (Plain "no leader").

Lemma initialized_once_witness :
  let w' := (Init (CA := unit) None true (bytes_of "k") boot_request new_process).1 in
  (Init (CA := unit) None true (bytes_of "other") boot_request (restart "init.state" tt w')).2 = Err already.
Proof.
  destruct (initialized_once (CA := unit) None true (bytes_of "k") boot_request new_process eq_refl) as [_ H2].
  destruct (H2 eq_refl ltac:(discriminate) ltac:(discriminate) tt None true (bytes_of "other") boot_request) as [_ H3]. cbv zeta. cbv zeta in H3.
  change (in_statePath (wd_init new_process)) with "init.state" in H3. rewrite H3. reflexivity.
Defined.

(** An initialization whose root CA fails cannot be repeated. *)
Example failed_init_final :
  let w' := Init (Some failing_pki) true (bytes_of "k") boot_request new_process in
  w'.2 = Err (Plain "no leader") ∧ (Init (Some failing_pki) true (bytes_of "k") boot_request w'.1).2 = Err already.
Proof. split; vm_compute; reflexivity. Qed.

(** Without a master key, or when the file cannot be written, the mark is lost. *)
Example mark_lost :
  (let w' := (Init (CA := unit) None true [] boot_request new_process).1 in
   is_ok (Init (CA := unit) None true [] boot_request (restart "init.state" tt w')).2 = true) ∧
  (let w' := (Init (CA := unit) None false (bytes_of "k") boot_request new_process).1 in
   is_ok (Init (CA := unit) None true (bytes_of "k") boot_request (restart "init.state" tt w')).2 = true).
Proof. split; vm_compute; reflexivity. Qed.

#[local] Existing Instance toy_aead.
#[local] Existing Instance toy_laws.
#[local] Existing Instance toy_json.
#[local] Existing Instance toy_json_laws.

Definition demo_kv : SecretEngine SecretRepository := KV_RegistryAdapter (λ _, None) (demo_ring "a") 7 100 demo_entropy.
Definition demo_registry : gmap string (SecretEngine SecretRepository) := <["ssh" := refusing_adapter "ssh"]> (<["kv" := demo_kv]> ∅).

Lemma registry_kv_roundtrip_witness : GetSecret demo_registry "kv" "app/db" (demo_store "hunter2") = (demo_store "hunter2", Ok (demo_data "hunter2")).
Proof.
  apply (registry_kv_roundtrip (λ _, None) (demo_ring "a") 7 100 demo_entropy (refusing_adapter "ssh") ∅ (<["kv" := demo_kv]> ∅) demo_registry "app/db" (demo_data "hunter2") ∅).
  - reflexivity.
  - reflexivity.
  - apply map_Forall_empty.
  - by apply (NewKeyRing_wf (demo_key "a")).
  - exists (demo_key "d"), demo_nonce, demo_nonce. done.
  - unfold Registry_Put, demo_registry. rewrite lookup_insert_ne by discriminate. rewrite lookup_insert_eq. unfold demo_kv, KV_RegistryAdapter, se_Put.
    change (KV_Put _ ∅ _ _ _ _ _ _ _) with (demo_put ∅ "hunter2"). rewrite (demo_put_version ∅ "hunter2" 1); [reflexivity|vm_compute; reflexivity].
  - intros v sv Hsv _.
    assert (Hall : map_fold (λ _ sv b, bool_decide (head (sv_DEKEnc sv) = Some "n"%char) && b) true (demo_store "hunter2") = true) by (vm_compute; reflexivity).
    assert (E : head (sv_DEKEnc sv) = Some "n"%char).
    { revert Hall. generalize (demo_store "hunter2") Hsv. intros m Hm Hall. clear Hsv.
      rewrite (map_fold_delete_L _ _ ("app/db", v) sv) in Hall; [|intros; by rewrite !andb_assoc, (andb_comm (bool_decide _))|done].
      apply andb_true_iff in Hall as [Hb _]. by apply bool_decide_eq_true in Hb. }
    intros w sealed key Hw Hk. rewrite Hw in E. injection E as ->. by vm_compute in Hk.
Defined.
End BootstrapExamples.
