(* ===== verification/Entities.v ===== *)
(** Identities: entities, their aliases in the auth methods, and groups
    (internal/domain/auth/identity.go, internal/service/identity.go), kept in
    memory and written as one encrypted snapshot into the secret store.

    The state is [IdentityService]; storage is attached or not. Fresh identifiers,
    the clock and what sealing needs are arguments; JSON of the snapshot is a
    parameter, and so is the order in which Go iterates over a map ([values]). *)

From S2P Require Import Prelude.
From S2P Require Import Effects.
From S2P Require Import GoLib.
From S2P Require Import Domain.
From S2P Require Import DynamicRoles.
From S2P Require Import Repos.
From S2P Require Import AuditHelper.
From S2P Require Import SecretRepo.
From S2P Require Import Crypto.
From S2P Require Import KVEngine.
From S2P Require Import Cubbyhole.

#[local] Open Scope Z_scope.

(** ** internal/domain/auth/identity.go *)

Record Entity := mkEntity {
  et_ID : string;
  et_Name : string;
  et_Metadata : gmap string string;
  et_Disabled : bool;
  et_Policies : list string;
  et_Created : Time;
  et_Updated : Time;
}.

Definition Entity_Validate (e : Entity) : res unit :=
  _ ← reject (et_ID e =s "") (Plain "entity id is required");
  reject (et_Name e =s "") (Plain "entity name is required").

Record Alias := mkAlias { al_ID : string; al_EntityID : string; al_Mount : string; al_Name : string; al_Created : Time }.

Definition Alias_Validate (a : Alias) : res unit :=
  _ ← reject (al_ID a =s "") (Plain "alias id is required");
  _ ← reject (al_EntityID a =s "") (Plain "entity_id is required");
  _ ← reject (al_Mount a =s "") (Plain "mount is required");
  reject (al_Name a =s "") (Plain "name is required").

Record Group := mkGroup {
  gp_ID : string;
  gp_Name : string;
  gp_MemberIDs : list string;
  gp_Policies : list string;
  gp_Created : Time;
  gp_Updated : Time;
}.

Definition Group_Validate (g : Group) : res unit :=
  _ ← reject (gp_ID g =s "") (Plain "group id is required");
  reject (gp_Name g =s "") (Plain "group name is required").

(** ** internal/service/identity.go *)

Definition identityBlobPath : string := "sys/internal/identity".

Record identitySnapshot := mkSnapshot { sn_Entities : list Entity; sn_Aliases : list Alias; sn_Groups : list Group }.

Class SnapshotJson := {
  snapshot_marshal : identitySnapshot → res bytes;
  snapshot_unmarshal : bytes → res identitySnapshot;
}.
Class SnapshotJsonLaws `{SnapshotJson} := {
  snapshot_roundtrip : ∀ s b, snapshot_marshal s = Ok b → snapshot_unmarshal b = Ok s;
}.

Record IdentityService := mkIdentityService {
  is_entities : gmap string Entity;
  is_aliases : gmap string Alias;
  is_byMount : gmap string string;
  is_groups : gmap string Group;
  is_audit : AuditSink;
  is_repo : option SecretRepository;
}.

Definition NewIdentityService (audit : AuditSink) : IdentityService := mkIdentityService ∅ ∅ ∅ ∅ audit None.

Section setters.
Implicit Type s : IdentityService.
Definition set_entities s m := mkIdentityService m (is_aliases s) (is_byMount s) (is_groups s) (is_audit s) (is_repo s).
Definition set_aliases s m i := mkIdentityService (is_entities s) m i (is_groups s) (is_audit s) (is_repo s).
Definition set_groups s m := mkIdentityService (is_entities s) (is_aliases s) (is_byMount s) m (is_audit s) (is_repo s).
Definition set_is_audit s a := mkIdentityService (is_entities s) (is_aliases s) (is_byMount s) (is_groups s) a (is_repo s).
Definition set_is_repo s r := mkIdentityService (is_entities s) (is_aliases s) (is_byMount s) (is_groups s) (is_audit s) r.
End setters.

Definition mount_key (mount name : string) : string := mount +:+ String "000" name.

(** The first occurrence of every text, trimmed, the empty ones dropped. *)
Fixpoint unique_from (seen : list string) (inp : list string) : list string :=
  match inp with
  | [] => []
  | s :: inp =>
      let s := TrimSpace s in
      if (s =s "") || bool_decide (s ∈ seen) then unique_from seen inp else s :: unique_from (s :: seen) inp
  end.
Definition uniqueStrings (inp : list string) : list string := unique_from [] inp.

Definition et_disable (e : Entity) (disabled : bool) (now : Time) : Entity :=
  mkEntity (et_ID e) (et_Name e) (et_Metadata e) disabled (et_Policies e) (et_Created e) now.

Section service.
Context `{Aead} `{SnapshotJson} (k : KeyRing) (policyExists : option (string → bool)) (values : ∀ A, gmap string A → list A).
Abbreviation M := (prog IdentityService).

Definition is_record {A} (subject : option string) (action resource : string) (err : res A) (details : list (string * any)) : M unit :=
  modify (λ s, set_is_audit s (audithelper_Record (is_audit s) subject action resource err details)).

Definition validatePolicies (policies : list string) : res unit :=
  match policyExists with
  | None => Ok tt
  | Some known =>
      for_each (λ _ p, let p := TrimSpace p in
                       if p =s "" then Ok tt else reject (negb (known p)) (New ErrCodeValidation ("unknown policy: " +:+ p))) tt policies
  end.

Definition snapshot_of (s : IdentityService) : identitySnapshot :=
  mkSnapshot (values _ (is_entities s)) (values _ (is_aliases s)) (values _ (is_groups s)).

Definition identity_version (fr : Fresh) (ce : bytes * bytes) : SecretVersion :=
  mkSecretVersion (fr_ID fr) identityBlobPath 0 ce.1 ce.2 None None (fr_Now fr) None false (<["engine" := "identity"]> ∅).

Definition persistLocked (fr : Fresh) : M unit := λ s,
  match is_repo s with
  | None => (s, Ok tt)
  | Some r =>
      let written :=
        raw ← snapshot_marshal (snapshot_of s);
        ce ← Seal k (fr_Rnd fr) raw;
        x ← PutAtomic r (identity_version fr ce) None 5;
        Ok x.1 in
      match written with
      | Ok r => (set_is_repo s (Some r), Ok tt)
      | Err e => (s, Err e)
      end
  end.

Definition loaded (s : IdentityService) (snap : identitySnapshot) : IdentityService :=
  mkIdentityService
    (foldl (λ m e, <[et_ID e := e]> m) ∅ (sn_Entities snap))
    (foldl (λ m a, <[al_ID a := a]> m) ∅ (sn_Aliases snap))
    (foldl (λ m a, <[mount_key (al_Mount a) (al_Name a) := al_ID a]> m) ∅ (sn_Aliases snap))
    (foldl (λ m g, <[gp_ID g := g]> m) ∅ (sn_Groups snap))
    (is_audit s) (is_repo s).

(** A store without a snapshot is empty, not an error. *)
Definition load : M unit := λ s,
  match is_repo s with
  | None => (s, Ok tt)
  | Some r =>
      match GetLatest r identityBlobPath with
      | Err _ => (s, Ok tt)
      | Ok sv =>
          match (plain ← Open k (sv_DataEnc sv) (sv_DEKEnc sv); snapshot_unmarshal plain) with
          | Ok snap => (loaded s snap, Ok tt)
          | Err e => (s, Err e)
          end
      end
  end.

Definition AttachStorage (r : SecretRepository) : M unit :=
  _ ← modify (λ s, set_is_repo s (Some r));
  ignore load.

Definition CreateEntity (subject : option string) (id : string) (now : Time) (fr : Fresh) (name : string) (policies : list string)
    (metadata : gmap string string) : M Entity :=
  let name := TrimSpace name in
  _ ← guard_not (name =s "") (New ErrCodeValidation "name required");
  _ ← lift (validatePolicies policies);
  let e := mkEntity ("ent_" +:+ id) name metadata false policies now now in
  _ ← lift (match Entity_Validate e with Ok _ => Ok tt | Err err => Err (Wrap ErrCodeValidation "entity" err) end);
  _ ← modify (λ s, set_entities s (<[et_ID e := e]> (is_entities s)));
  err ← attempt (persistLocked fr);
  _ ← is_record subject "identity.entity.create" ("identity/entity/" +:+ et_ID e) err [("name", VStr name)];
  _ ← lift err;
  mret e.

Definition GetEntity (id : string) : M Entity := λ s,
  (s, match is_entities s !! id with Some e => Ok e | None => Err (New ErrCodeNotFound "entity not found") end).

Definition SetEntityDisabled (subject : option string) (now : Time) (fr : Fresh) (id : string) (disabled : bool) : M unit :=
  e ← GetEntity id;
  _ ← modify (λ s, set_entities s (<[id := et_disable e disabled now]> (is_entities s)));
  err ← attempt (persistLocked fr);
  _ ← is_record subject "identity.entity.disable" ("identity/entity/" +:+ id) err [("disabled", VBool disabled)];
  lift err.

Definition CreateAlias (subject : option string) (id : string) (now : Time) (fr : Fresh) (entityID mount name : string) : M Alias :=
  let mount := ToLower (TrimSpace mount) in
  let name := TrimSpace name in
  _ ← guard_not ((mount =s "") || (name =s "")) (New ErrCodeValidation "mount and name required");
  _ ← GetEntity entityID;
  let key := mount_key mount name in
  taken ← gets (λ s, bool_decide (is_byMount s !! key ≠ None));
  _ ← guard_not taken (New ErrCodeValidation "alias already exists");
  let a := mkAlias ("alias_" +:+ id) entityID mount name now in
  _ ← modify (λ s, set_aliases s (<[al_ID a := a]> (is_aliases s)) (<[key := al_ID a]> (is_byMount s)));
  err ← attempt (persistLocked fr);
  _ ← is_record subject "identity.alias.create" ("identity/alias/" +:+ al_ID a) err [("mount", VStr mount)];
  _ ← lift err;
  mret a.

Definition CreateGroup (subject : option string) (id : string) (now : Time) (fr : Fresh) (name : string) (members policies : list string) : M Group :=
  let name := TrimSpace name in
  _ ← guard_not (name =s "") (New ErrCodeValidation "name required");
  _ ← lift (validatePolicies policies);
  let g := mkGroup ("grp_" +:+ id) name members policies now now in
  _ ← modify (λ s, set_groups s (<[gp_ID g := g]> (is_groups s)));
  err ← attempt (persistLocked fr);
  _ ← is_record subject "identity.group.create" ("identity/group/" +:+ gp_ID g) err [("name", VStr name)];
  _ ← lift err;
  mret g.

(** The policies of the groups an entity is a member of, added one group after
    the other. *)
Definition add_group (id : string) (pol : list string) (g : Group) : list string :=
  if existsb (λ mid, mid =s id) (gp_MemberIDs g) then uniqueStrings (pol ++ gp_Policies g) else pol.

(** An index entry without its alias would be a nil dereference. *)
Definition nil_alias : error := Plain "runtime error: invalid memory address or nil pointer dereference".

Definition ResolveLogin (mount aliasName : string) (basePolicies : list string) : M (string * list string) := λ s, (s,
  match is_byMount s !! mount_key (ToLower (TrimSpace mount)) aliasName with
  | None => Ok ("", basePolicies)
  | Some aid =>
      match is_aliases s !! aid with
      | None => Err nil_alias
      | Some a =>
          match is_entities s !! al_EntityID a with
          | None => Ok ("", basePolicies)
          | Some e =>
              if et_Disabled e then Err (New ErrCodeForbidden "entity disabled")
              else Ok (et_ID e, foldl (add_group (et_ID e)) (uniqueStrings (basePolicies ++ et_Policies e)) (values _ (is_groups s)))
          end
      end
  end).

Definition ListEntities (s : IdentityService) : list Entity := sort_by_string et_Name (values _ (is_entities s)).
Definition ListGroups (s : IdentityService) : list Group := values _ (is_groups s).
End service.

(** ** Maps rebuilt from lists *)

Lemma foldl_insert_by {A B} (f : A → string) (g : A → B) (l : list A) (m0 : gmap string B) : NoDup (f <$> l) →
  (∀ a, a ∈ l → foldl (λ m a, <[f a := g a]> m) m0 l !! f a = Some (g a)) ∧
  (∀ i, i ∉ (f <$> l) → foldl (λ m a, <[f a := g a]> m) m0 l !! i = m0 !! i).
Proof.
  revert m0. induction l as [|x l IH]; intros m0 Hnd; [split; [by intros a Ha%not_elem_of_nil|done]|].
  apply NoDup_cons in Hnd as [Hx Hnd]. cbn. destruct (IH (<[f x := g x]> m0) Hnd) as [IH1 IH2]. split.
  - intros a [->|Ha]%elem_of_cons; [by rewrite IH2, lookup_insert_eq|by apply IH1].
  - intros i Hi. rewrite not_elem_of_cons in Hi. destruct Hi as [Hi1 Hi2]. by rewrite IH2, lookup_insert_ne.
Qed.

Lemma rebuild {A} (key : A → string) (m : gmap string A) l : map_Forall (λ i a, key a = i) m → l ≡ₚ snd <$> map_to_list m →
  foldl (λ m a, <[key a := a]> m) ∅ l = m.
Proof.
  intros Hk Hl. assert (Hin : ∀ a, a ∈ l ↔ m !! key a = Some a).
  { intros a. rewrite Hl, elem_of_map_values. split; [intros [i Hi]; by rewrite (Hk _ _ Hi)|eauto]. }
  assert (Hnd : NoDup (key <$> l)).
  { rewrite Hl, <-list_fmap_compose. rewrite (list_fmap_ext _ fst); [apply NoDup_fst_map_to_list|].
    intros i [j a] Hi. apply list_elem_of_lookup_2, elem_of_map_to_list in Hi. by apply (Hk _ _ Hi). }
  destruct (foldl_insert_by key id l ∅ Hnd) as [H1 H2]. unfold id in *. apply map_eq. intros i. destruct (m !! i) as [a|] eqn:E.
  - rewrite <-(Hk _ _ E) in E |- *. apply H1, Hin. done.
  - rewrite H2; [done|]. intros (a & -> & Ha%Hin)%list_elem_of_fmap. congruence.
Qed.

(** ** The invariant *)

Definition alias_key (a : Alias) : string := mount_key (al_Mount a) (al_Name a).

Record identity_wf (s : IdentityService) : Prop := {
  iw_entities : map_Forall (λ i e, et_ID e = i) (is_entities s);
  iw_aliases : map_Forall (λ i a, al_ID a = i ∧ is_Some (is_entities s !! al_EntityID a)) (is_aliases s);
  iw_index : ∀ key id, is_byMount s !! key = Some id ↔ ∃ a, is_aliases s !! id = Some a ∧ alias_key a = key;
  iw_groups : map_Forall (λ i g, gp_ID g = i) (is_groups s);
}.

(** What the maps of two states have in common. *)
Definition same_identities (s s' : IdentityService) : Prop :=
  is_entities s' = is_entities s ∧ is_aliases s' = is_aliases s ∧ is_byMount s' = is_byMount s ∧ is_groups s' = is_groups s.

Lemma identity_wf_same s s' : same_identities s s' → identity_wf s → identity_wf s'.
Proof. intros (E1 & E2 & E3 & E4) [W1 W2 W3 W4]. split; rewrite ?E1, ?E2, ?E3, ?E4; done. Qed.

#[local] Instance same_identities_preorder : PreOrder same_identities.
Proof. split; [done|]. unfold same_identities. intros s1 s2 s3 (?&?&?&?) (?&?&?&?). split_and!; congruence. Qed.

Section operations.
Context `{Aead} `{SnapshotJson} (k : KeyRing) (policyExists : option (string → bool)) (values : ∀ A, gmap string A → list A).

Inductive identity_op :=
  | ICreateEntity (subject : option string) (id : string) (now : Time) (fr : Fresh) (name : string) (policies : list string) (metadata : gmap string string)
  | ISetDisabled (subject : option string) (now : Time) (fr : Fresh) (id : string) (disabled : bool)
  | ICreateAlias (subject : option string) (id : string) (now : Time) (fr : Fresh) (entityID mount name : string)
  | ICreateGroup (subject : option string) (id : string) (now : Time) (fr : Fresh) (name : string) (members policies : list string).

Definition identity_step (s : IdentityService) (o : identity_op) : IdentityService :=
  match o with
  | ICreateEntity subject id now fr name policies metadata => (CreateEntity k policyExists values subject id now fr name policies metadata s).1
  | ISetDisabled subject now fr id disabled => (SetEntityDisabled k values subject now fr id disabled s).1
  | ICreateAlias subject id now fr entityID mount name => (CreateAlias k values subject id now fr entityID mount name s).1
  | ICreateGroup subject id now fr name members policies => (CreateGroup k policyExists values subject id now fr name members policies s).1
  end.

(** The random identifier of a new alias is not one in use. *)
Definition op_fresh (s : IdentityService) (o : identity_op) : Prop :=
  match o with ICreateAlias _ id _ _ _ _ _ => is_aliases s !! ("alias_" +:+ id) = None | _ => True end.

Inductive identity_reach : IdentityService → Prop :=
  | reach_new audit repo : identity_reach (set_is_repo (NewIdentityService audit) repo)
  | reach_step s o : identity_reach s → op_fresh s o → identity_reach (identity_step s o).

Lemma persistLocked_same fr s : same_identities s (persistLocked k values fr s).1.
Proof. unfold persistLocked. destruct (is_repo s); [|done]. by case_match. Qed.

(** The end of every operation that changes the identities. *)
Lemma persist_record_same {B} fr subject action resource details (last : res unit → prog IdentityService B) s :
  (∀ x, always same_identities (last x)) →
  same_identities s ((err ← attempt (persistLocked k values fr); _ ← is_record subject action resource err details; last err) s).1.
Proof.
  intros Hlast. unfold mbind, prog_bind, attempt. assert (Hp := persistLocked_same fr s). destruct (persistLocked k values fr s) as [s1 x]. cbn in Hp.
  etrans; [exact Hp|]. apply (transitivity (y := (is_record subject action resource x details s1).1)); [done|apply Hlast].
Qed.

Lemma wf_insert_entity s e : identity_wf s → identity_wf (set_entities s (<[et_ID e := e]> (is_entities s))).
Proof.
  intros [W1 W2 W3 W4]. split; cbn; [|..|done|done].
  - by apply map_Forall_insert_2.
  - eapply map_Forall_impl; [exact W2|]. intros i a [Hi Ha]. split; [done|]. rewrite lookup_insert. case_decide; eauto.
Qed.

Lemma wf_insert_group s g : identity_wf s → identity_wf (set_groups s (<[gp_ID g := g]> (is_groups s))).
Proof. intros [W1 W2 W3 W4]. split; cbn; [done|done|done|]. by apply map_Forall_insert_2. Qed.

Lemma wf_insert_alias s a : identity_wf s → is_aliases s !! al_ID a = None → is_byMount s !! alias_key a = None → is_Some (is_entities s !! al_EntityID a) →
  identity_wf (set_aliases s (<[al_ID a := a]> (is_aliases s)) (<[alias_key a := al_ID a]> (is_byMount s))).
Proof.
  intros [W1 W2 W3 W4] Hid Hkey He. split; cbn; [done| | |done].
  - by apply map_Forall_insert_2.
  - intros key id. destruct (decide (key = alias_key a)) as [->|Hne].
    + rewrite lookup_insert_eq. split; [intros [= <-]; exists a; by rewrite lookup_insert_eq|]. intros (b & Hb & Ek).
      destruct (decide (id = al_ID a)) as [->|Hn]; [done|]. rewrite lookup_insert_ne in Hb by done.
      assert (Hx : is_byMount s !! alias_key a = Some id) by (apply W3; eauto). congruence.
    + rewrite lookup_insert_ne by done. rewrite W3. split; intros (b & Hb & Ek); exists b; (split; [|done]).
      * rewrite lookup_insert_ne; [done|]. intros <-. congruence.
      * destruct (decide (id = al_ID a)) as [->|Hn]; [|by rewrite lookup_insert_ne in Hb]. rewrite lookup_insert_eq in Hb. congruence.
Qed.

(** Every operation keeps the invariant, whether or not its snapshot could be
    written. *)
Lemma identity_step_wf s o : op_fresh s o → identity_wf s → identity_wf (identity_step s o).
Proof.
  intros Hf Hwf. destruct o as [subject id now fr name policies metadata|subject now fr id disabled|subject id now fr entityID mount name|subject id now fr name members policies]; cbn [identity_step].
  - unfold CreateEntity. unfold mbind at 1, prog_bind at 1, guard_not, lift at 1. destruct (reject _ _); [|done].
    unfold mbind at 1, prog_bind at 1, lift at 1. destruct (validatePolicies _ _); [|done]. unfold mbind at 1, prog_bind at 1, lift at 1.
    destruct (match Entity_Validate _ with Ok _ => _ | Err _ => _ end); [|done]. unfold mbind at 1, prog_bind at 1, modify at 1.
    eapply identity_wf_same; [apply persist_record_same; intros x; by eauto with prog|]. by apply wf_insert_entity.
  - unfold SetEntityDisabled. unfold mbind at 1, prog_bind at 1, GetEntity. destruct (is_entities s !! id) as [e|] eqn:Ee; [|done].
    unfold mbind at 1, prog_bind at 1, modify at 1. eapply identity_wf_same; [apply persist_record_same; intros x; by eauto with prog|].
    assert (Hid : et_ID (et_disable e disabled now) = id) by (by apply (iw_entities _ Hwf _ _ Ee)). rewrite <-Hid at 1. by apply wf_insert_entity.
  - unfold CreateAlias. unfold mbind at 1, prog_bind at 1, guard_not at 1, lift at 1. destruct (reject _ _); [|done].
    unfold mbind at 1, prog_bind at 1, GetEntity. destruct (is_entities s !! entityID) as [e|] eqn:Ee; [|done].
    unfold mbind at 1, prog_bind at 1, gets. unfold mbind at 1, prog_bind at 1, guard_not, lift at 1. case_bool_decide as Ek; [done|]. cbn [reject].
    unfold mbind at 1, prog_bind at 1, modify at 1.
    eapply identity_wf_same; [apply persist_record_same; intros x; by eauto with prog|].
    apply (wf_insert_alias s (mkAlias ("alias_" +:+ id) entityID (ToLower (TrimSpace mount)) (TrimSpace name) now)); [done|done|done|by eexists].
  - unfold CreateGroup. unfold mbind at 1, prog_bind at 1, guard_not, lift at 1. destruct (reject _ _); [|done].
    unfold mbind at 1, prog_bind at 1, lift at 1. destruct (validatePolicies _ _); [|done]. unfold mbind at 1, prog_bind at 1, modify at 1.
    eapply identity_wf_same; [apply persist_record_same; intros x; by eauto with prog|]. by apply wf_insert_group.
Qed.

Lemma identity_reach_wf s : identity_reach s → identity_wf s.
Proof.
  induction 1 as [audit repo|s o Hs IH Hf]; [|by apply identity_step_wf]. split; cbn; [apply map_Forall_empty|apply map_Forall_empty| |apply map_Forall_empty].
  intros key id. rewrite lookup_empty. split; [done|]. by intros (a & Ha & _).
Qed.
End operations.

(** ** Logins *)

Lemma unique_from_elem seen inp p : p ∈ unique_from seen inp ↔ p ≠ "" ∧ p ∉ seen ∧ ∃ q, q ∈ inp ∧ TrimSpace q = p.
Proof.
  revert seen. induction inp as [|x inp IH]; intros seen; cbn; [split; [by intros ?%not_elem_of_nil|intros (_ & _ & q & Hq & _); by apply not_elem_of_nil in Hq]|].
  destruct (TrimSpace x =s "") eqn:E1; cbn [orb].
  - apply bool_decide_eq_true in E1. rewrite IH. split; intros (Hp & Hs & q & Hq & Ht); (split_and!; [done|done|]); [exists q; set_solver|].
    apply elem_of_cons in Hq as [->|Hq]; [congruence|eauto].
  - apply bool_decide_eq_false in E1. case_bool_decide as E2; [|rewrite elem_of_cons]; rewrite IH.
    + split; intros (Hp & Hs & q & Hq & Ht); (split_and!; [done|done|]); [exists q; set_solver|]. apply elem_of_cons in Hq as [->|Hq]; [congruence|eauto].
    + split.
      * intros [->|(Hp & Hs & q & Hq & Ht)]; (split_and!; [done|set_solver|]); [exists x; set_solver|exists q; set_solver].
      * intros (Hp & Hs & q & Hq & Ht). destruct (decide (p = TrimSpace x)) as [->|Hne]; [by left|]. right. split_and!; [done|set_solver|].
        apply elem_of_cons in Hq as [->|Hq]; [congruence|eauto].
Qed.

Lemma unique_from_NoDup seen inp : NoDup (unique_from seen inp).
Proof.
  revert seen. induction inp as [|x inp IH]; intros seen; cbn; [constructor|]. case_match; [apply IH|]. constructor; [|apply IH].
  rewrite unique_from_elem. set_solver.
Qed.

(** A policy an identity has, trimmed and not empty. *)
Definition grants (l : list string) (p : string) : Prop := p ≠ "" ∧ ∃ q, q ∈ l ∧ TrimSpace q = p.

Lemma uniqueStrings_elem l p : p ∈ uniqueStrings l ↔ grants l p.
Proof. unfold uniqueStrings. rewrite unique_from_elem. unfold grants. set_solver. Qed.

Lemma grants_app l l' p : grants (l ++ l') p ↔ grants l p ∨ grants l' p.
Proof. unfold grants. set_solver. Qed.

Lemma grants_unique l p : grants (uniqueStrings l) p ↔ grants l p.
Proof.
  unfold grants at 1. setoid_rewrite uniqueStrings_elem. split.
  - intros (Hp & q & (Hq & r & Hr & <-) & Ht). rewrite TrimSpace_idemp in Ht. subst p. split; [done|eauto].
  - intros (Hp & q & Hq & <-). split; [done|]. exists (TrimSpace q). rewrite TrimSpace_idemp. split; [|done]. split; [done|eauto].
Qed.

Lemma add_groups_spec id gs : ∀ pol, (∀ p, p ∈ pol ↔ grants pol p) → NoDup pol →
  let pol' := foldl (add_group id) pol gs in
  NoDup pol' ∧ ∀ p, p ∈ pol' ↔ grants pol p ∨ ∃ g, g ∈ gs ∧ id ∈ gp_MemberIDs g ∧ grants (gp_Policies g) p.
Proof.
  induction gs as [|g gs IH]; intros pol Hpol Hnd; cbn.
  - split; [done|]. intros p. rewrite Hpol. split; [auto|]. intros [?|(g & Hg & _)]; [done|]. by apply not_elem_of_nil in Hg.
  - assert (Hm : existsb (λ mid, mid =s id) (gp_MemberIDs g) = true ↔ id ∈ gp_MemberIDs g).
    { rewrite existsb_elem. split; [intros (x & Hx & E%bool_decide_eq_true); by subst|intros Hx; exists id; by rewrite bool_decide_eq_true_2]. }
    assert (Ea : add_group id pol g = if existsb (λ mid, mid =s id) (gp_MemberIDs g) then uniqueStrings (pol ++ gp_Policies g) else pol) by done.
    rewrite Ea. clear Ea. destruct (existsb _ _) eqn:Ee.
    + destruct (IH (uniqueStrings (pol ++ gp_Policies g))) as [IH1 IH2];
        [intros p; by rewrite grants_unique, uniqueStrings_elem|apply unique_from_NoDup|]. split; [done|].
      intros p. rewrite IH2, grants_unique, grants_app. assert (Hg := proj1 Hm eq_refl). split; [intros [[?|?]|?]|intros [?|(x & [->|Hx]%elem_of_cons & ?)]]; set_solver.
    + destruct (IH pol Hpol Hnd) as [IH1 IH2]. split; [done|]. intros p. rewrite IH2.
      assert (Hg : id ∉ gp_MemberIDs g) by (intros Hg%Hm; done). split; [intros [?|?]|intros [?|(x & [->|Hx]%elem_of_cons & ?)]]; set_solver.
Qed.

Section login.
Context `{Aead} `{SnapshotJson} (k : KeyRing) (policyExists : option (string → bool)) (values : ∀ A, gmap string A → list A).
Hypothesis Hvalues : ∀ A (m : gmap string A), values A m ≡ₚ snd <$> map_to_list m.

(** A login of a known alias: in every state the service can reach, resolving the
    alias of an entity never fails but for the entity being disabled; it gives the
    entity and, each once, exactly the policies of the method, of the entity and
    of the groups it is a member of. A name without alias keeps the policies it
    came with. *)
Theorem ResolveLogin_correct s mount name base :
  identity_reach k policyExists values s →
  let key := mount_key (ToLower (TrimSpace mount)) name in
  (ResolveLogin values mount name base s).1 = s ∧
  match is_byMount s !! key with
  | None => (∀ id a, is_aliases s !! id = Some a → alias_key a ≠ key) ∧ (ResolveLogin values mount name base s).2 = Ok ("", base)
  | Some id => ∃ a e, is_aliases s !! id = Some a ∧ alias_key a = key ∧ is_entities s !! al_EntityID a = Some e ∧ et_ID e = al_EntityID a ∧
      if et_Disabled e then (ResolveLogin values mount name base s).2 = Err (New ErrCodeForbidden "entity disabled")
      else ∃ pol, (ResolveLogin values mount name base s).2 = Ok (et_ID e, pol) ∧ NoDup pol ∧
        ∀ p, p ∈ pol ↔ grants base p ∨ grants (et_Policies e) p ∨
                       ∃ i g, is_groups s !! i = Some g ∧ et_ID e ∈ gp_MemberIDs g ∧ grants (gp_Policies g) p
  end.
Proof.
  intros Hr%identity_reach_wf key. destruct Hr as [W1 W2 W3 W4]. split; [done|]. unfold ResolveLogin. fold key. cbn [snd].
  destruct (is_byMount s !! key) as [id|] eqn:Ek.
  - apply W3 in Ek as (a & Ha & Hk). destruct (W2 _ _ Ha) as [_ [e He]]. exists a, e. rewrite Ha, He.
    split_and!; [done|done|done|by apply (W1 _ _ He)|]. destruct (et_Disabled e); [done|]. eexists. split; [done|].
    destruct (add_groups_spec (et_ID e) (values _ (is_groups s)) (uniqueStrings (base ++ et_Policies e))) as [Hnd Hin];
      [intros p; by rewrite grants_unique, uniqueStrings_elem|apply unique_from_NoDup|]. split; [done|].
    intros p. rewrite Hin, grants_unique, grants_app. setoid_rewrite Hvalues. setoid_rewrite elem_of_map_values. naive_solver.
  - split; [|done]. intros id a Ha Hk. assert (Hx : is_byMount s !! key = Some id) by (apply W3; eauto). congruence.
Qed.
End login.

(** ** Restarts *)

Section restart.
Context {aead : Aead} {laws : AeadLaws} {codec : SnapshotJson} {codec_laws : SnapshotJsonLaws} (k : KeyRing) (values : ∀ A, gmap string A → list A).
Hypothesis Hvalues : ∀ A (m : gmap string A), values A m ≡ₚ snd <$> map_to_list m.

Lemma loaded_snapshot s s' : identity_wf s → same_identities s (loaded s' (snapshot_of values s)).
Proof.
  intros [W1 W2 W3 W4]. unfold loaded, snapshot_of, same_identities. cbn.
  assert (Ha : map_Forall (λ i a, al_ID a = i) (is_aliases s)) by (eapply map_Forall_impl; [exact W2|]; by intros i a []).
  split_and!; [by apply rebuild|by apply rebuild| |by apply rebuild].
  assert (Hin : ∀ a, a ∈ values _ (is_aliases s) ↔ is_aliases s !! al_ID a = Some a).
  { intros a. rewrite Hvalues, elem_of_map_values. split; [intros [i Hi]; by rewrite (Ha _ _ Hi)|eauto]. }
  assert (Hnd : NoDup (alias_key <$> values _ (is_aliases s))).
  { rewrite Hvalues, <-list_fmap_compose. apply NoDup_fmap_2_strong; [|apply NoDup_map_to_list].
    intros [i a] [j b] Hi%elem_of_map_to_list Hj%elem_of_map_to_list E. cbn in E.
    assert (E1 : is_byMount s !! alias_key a = Some i) by (apply W3; eauto). assert (E2 : is_byMount s !! alias_key a = Some j) by (apply W3; eauto).
    assert (i = j) as -> by congruence. congruence. }
  destruct (foldl_insert_by alias_key al_ID _ ∅ Hnd) as [H1 H2]. apply map_eq. intros key. destruct (is_byMount s !! key) as [id|] eqn:Ek.
  - apply W3 in Ek as (a & Hid & <-). rewrite <-(Ha _ _ Hid) in Hid |- *. apply H1, Hin. done.
  - refine (eq_trans (H2 key _) (lookup_empty _)).
    intros (a & -> & Hid%Hin)%list_elem_of_fmap. assert (Hx : is_byMount s !! alias_key a = Some (al_ID a)) by (apply W3; eauto). congruence.
Qed.

(** Identities survive a restart: when the snapshot was written, a service that
    attaches the store afterwards has the same entities, aliases, index and
    groups. *)
Theorem identities_restored s r fr s' audit :
  identity_wf s → is_repo s = Some r → secrets_wf r → ring_wf k → good_entropy (fr_Rnd fr) →
  (kr_legacy k = true → ∀ raw c enc, Seal k (fr_Rnd fr) raw = Ok (c, enc) → shift_refused k enc) →
  persistLocked k values fr s = (s', Ok tt) →
  ∃ r', is_repo s' = Some r' ∧ same_identities s (AttachStorage k r' (NewIdentityService audit)).1.
Proof.
  intros Hwf Hr Hrwf Hk (dek & n1 & n2 & Ernd & Hd & Hn1 & Hn2) Hsh. unfold persistLocked. rewrite Hr.
  destruct (snapshot_marshal (snapshot_of values s)) as [raw|] eqn:Em; cbn [mbind res_bind]; [|done].
  destruct (Open_later k k dek n1 n2 raw Hk (rtc_refl _ _) Hd Hn1 Hn2) as (c & enc & Hs & _ & _ & Ho). rewrite <-Ernd in Hs. rewrite Hs. cbn [mbind res_bind].
  destruct (PutAtomic r (identity_version fr (c, enc)) None 5) as [[r' v]|] eqn:Ep; cbn [mbind res_bind]; [|done]. intros [= <-].
  exists r'. split; [done|]. apply PutAtomic_read in Ep as (_ & _ & Hl & _); [|done|done]. cbn [identity_version sv_Path] in Hl.
  unfold AttachStorage, mbind, prog_bind, ignore, modify. cbn [fst]. unfold load. cbn [is_repo set_is_repo]. rewrite Hl. cbn [sv_with_version identity_version sv_DataEnc sv_DEKEnc].
  assert (Ho' : Open k c enc = Ok raw) by (apply Ho; intros Hleg; by apply (Hsh Hleg raw c)).
  cbn [fst snd]. rewrite Ho'. cbn [mbind res_bind]. rewrite (snapshot_roundtrip _ _ Em). cbn [fst]. by apply loaded_snapshot.
Qed.
End restart.

(** ** Examples *)

#[local] Existing Instance toy_aead.
#[local] Existing Instance toy_laws.

Definition entity_code (e : Entity) := (et_ID e, et_Name e, et_Metadata e, et_Disabled e, et_Policies e, et_Created e, et_Updated e).
Definition alias_code (a : Alias) := (al_ID a, al_EntityID a, al_Mount a, al_Name a, al_Created a).
Definition group_code (g : Group) := (gp_ID g, gp_Name g, gp_MemberIDs g, gp_Policies g, gp_Created g, gp_Updated g).
Definition code_entity (x : string * string * gmap string string * bool * list string * Time * Time) : Entity :=
  let '(i, n, m, d, p, c, u) := x in mkEntity i n m d p c u.
Definition code_alias (x : string * string * string * string * Time) : Alias := let '(i, e, m, n, c) := x in mkAlias i e m n c.
Definition code_group (x : string * string * list string * list string * Time * Time) : Group := let '(i, n, m, p, c, u) := x in mkGroup i n m p c u.

#[local] Instance text_snapshot : SnapshotJson := {|
  snapshot_marshal s := Ok (pos_bytes (encode (entity_code <$> sn_Entities s, alias_code <$> sn_Aliases s, group_code <$> sn_Groups s)));
  snapshot_unmarshal b := match decode (bytes_pos b) with
                          | Some (es, al, gs) => Ok (mkSnapshot (code_entity <$> es) (code_alias <$> al) (code_group <$> gs))
                          | None => Err (Plain "invalid")
                          end
|}.
#[local] Instance text_snapshot_laws : SnapshotJsonLaws.
Proof.
  split. intros [es al gs] b [= <-]. unfold snapshot_unmarshal, text_snapshot. rewrite bytes_pos_bytes, decode_encode. cbn.
  rewrite <-!list_fmap_compose. f_equal. f_equal; (etrans; [|apply list_fmap_id]); apply list_fmap_ext; by intros ? [].
Qed.

Definition in_order (A : Type) (m : gmap string A) : list A := snd <$> map_to_list m.
Definition blob_fresh (id : UUID) (now : Time) : Fresh := mkFresh id now demo_entropy.

Definition demo_identities : list identity_op :=
  [ICreateEntity None "1" 10 (blob_fresh 1 10) "Bob" ["reader"] ∅;
   ICreateAlias None "2" 20 (blob_fresh 2 20) "ent_1" "LDAP" "bob";
   ICreateGroup None "3" 30 (blob_fresh 3 30) "ops" ["ent_1"] ["operator"; " reader "]].
Definition demo_service (ops : list identity_op) : IdentityService :=
  foldl (identity_step (demo_ring "a") None in_order) (set_is_repo (NewIdentityService (Some [])) (Some ∅)) ops.

Lemma demo_service_reach : identity_reach (demo_ring "a") None in_order (demo_service demo_identities).
Proof.
  unfold demo_service, demo_identities. cbn [foldl]. apply reach_step; [|exact I]. apply reach_step; [|vm_compute; reflexivity]. apply reach_step; [|exact I]. apply reach_new.
Qed.

Lemma ResolveLogin_correct_witness : ∃ pol, (ResolveLogin in_order "ldap" "bob" ["default"] (demo_service demo_identities)).2 = Ok ("ent_1", pol) ∧ "operator" ∈ pol.
Proof.
  destruct (ResolveLogin_correct (demo_ring "a") None in_order (λ A m, Permutation_refl (in_order A m)) (demo_service demo_identities) "ldap" "bob" ["default"] demo_service_reach)
    as [_ Hr].
  assert (Ek : is_byMount (demo_service demo_identities) !! mount_key (ToLower (TrimSpace "ldap")) "bob" = Some "alias_2") by (vm_compute; reflexivity).
  rewrite Ek in Hr. destruct Hr as (a & e & Ha & _ & He & _ & Hr).
  assert (Ee : is_entities (demo_service demo_identities) !! "ent_1" = Some (mkEntity "ent_1" "Bob" ∅ false ["reader"] 10 10)) by (vm_compute; reflexivity).
  assert (Ea : is_aliases (demo_service demo_identities) !! "alias_2" = Some (mkAlias "alias_2" "ent_1" "ldap" "bob" 20)) by (vm_compute; reflexivity).
  rewrite Ea in Ha. injection Ha as <-. cbn [al_EntityID] in He. rewrite Ee in He. injection He as <-. cbn [et_Disabled] in Hr.
  destruct Hr as (pol & E & _ & Hin). exists pol. split; [exact E|]. apply Hin. right. right. exists "grp_3".
  exists (mkGroup "grp_3" "ops" ["ent_1"] ["operator"; " reader "] 30 30). split; [vm_compute; reflexivity|]. split; [left|].
  split; [discriminate|]. exists "operator". split; [left|reflexivity].
Defined.

Definition demo_store : SecretRepository := default ∅ (is_repo (demo_service demo_identities)).
Definition demo_persisted : IdentityService * res unit := persistLocked (demo_ring "a") in_order (blob_fresh 9 90) (demo_service demo_identities).

Lemma attached_default (o : option SecretRepository) : match o with Some _ => true | None => false end = true → o = Some (default ∅ o).
Proof. by destruct o. Qed.

Lemma demo_store_attached : is_repo (demo_service demo_identities) = Some demo_store.
Proof. apply attached_default. vm_compute. reflexivity. Qed.

Definition stored_ok (i : string * Z) (sv : SecretVersion) : bool :=
  bool_decide (i = (sv_Path sv, sv_Version sv)) && is_ok (SecretVersion_Validate sv) && (sv_Version sv <=? max_int).

Lemma secrets_checked (r : SecretRepository) : forallb (λ x, stored_ok x.1 x.2) (map_to_list r) = true → secrets_wf r.
Proof.
  rewrite forallb_forall. intros Hb i sv Hl%elem_of_map_to_list%list_elem_of_In%Hb. unfold stored_ok in Hl. cbn in Hl.
  apply andb_true_iff in Hl as [[H1%bool_decide_eq_true H2]%andb_true_iff H3%Z.leb_le]. split_and!; [done| |done].
  by destruct (SecretVersion_Validate sv) as [[]|].
Qed.

Lemma demo_store_wf : secrets_wf demo_store.
Proof. apply secrets_checked. vm_compute. reflexivity. Qed.

Lemma demo_persisted_ok : persistLocked (demo_ring "a") in_order (blob_fresh 9 90) (demo_service demo_identities) = (demo_persisted.1, Ok tt).
Proof. apply run_eq. vm_compute. reflexivity. Qed.

Lemma demo_no_shift raw c enc : Seal (demo_ring "a") (fr_Rnd (blob_fresh 9 90)) raw = Ok (c, enc) → shift_refused (demo_ring "a") enc.
Proof.
  intros Hs v sealed key Hv Hk. unfold Seal in Hs. cbn in Hs. injection Hs as _ <-. injection Hv as <- _. by vm_compute in Hk.
Qed.

Lemma identities_restored_witness : ∃ r', is_repo demo_persisted.1 = Some r' ∧
  same_identities (demo_service demo_identities) (AttachStorage (demo_ring "a") r' (NewIdentityService None)).1.
Proof.
  apply (identities_restored (demo_ring "a") in_order (λ A m, Permutation_refl (in_order A m)) (demo_service demo_identities) demo_store (blob_fresh 9 90)
    demo_persisted.1 None (identity_reach_wf _ _ _ _ demo_service_reach) demo_store_attached demo_store_wf).
  - by apply (NewKeyRing_wf (demo_key "a")).
  - exists (demo_key "d"), demo_nonce, demo_nonce. split_and!; reflexivity.
  - intros _. apply demo_no_shift.
  - apply demo_persisted_ok.
Defined.

(** A disabled entity is refused under its alias, but not under the same name
    with a space, which the LDAP method accepts: the name of an alias is trimmed
    when it is created and not when it is looked up. *)
Example disabled_entity_bypassed :
  let s := identity_step (demo_ring "a") None in_order (demo_service demo_identities) (ISetDisabled None 40 (blob_fresh 4 40) "ent_1" true) in
  (ResolveLogin in_order "ldap" "bob" ["default"] s).2 = Err (New ErrCodeForbidden "entity disabled") ∧
  (ResolveLogin in_order "ldap" " bob" ["default"] s).2 = Ok ("", ["default"]).
Proof. vm_compute. split; reflexivity. Qed.

(** A change whose snapshot cannot be written is reported as failed and stays in
    effect until the next restart. *)
Example failed_change_stays :
  let fr := mkFresh 9 50 (mkEntropy (Err (Plain "no entropy")) (Err (Plain "no entropy")) (Err (Plain "no entropy"))) in
  let x := SetEntityDisabled (demo_ring "a") in_order None 50 fr "ent_1" true (demo_service demo_identities) in
  is_ok x.2 = false ∧ et_Disabled <$> is_entities x.1 !! "ent_1" = Some true ∧
  et_Disabled <$> is_entities (AttachStorage (demo_ring "a") (default ∅ (is_repo x.1)) (NewIdentityService None)).1 !! "ent_1" = Some false.
Proof. vm_compute. split_and!; reflexivity. Qed.
