(* ===== verification/AppRoleRaft.v ===== *)
(** AppRoles in a cluster, internal/auth/approle_backend.go: every node keeps the
    roles in memory and writes all of them, encrypted, as the next version of one
    secret; a node reads them back when it starts.

    The file part of the store is that of AppRole.v. JSON is the class
    [AppRoleJson]; a repository that fails is not modelled: its calls are those
    of SecretRepo.v. *)

From S2P Require Import Prelude.
From S2P Require Import GoLib.
From S2P Require Import Domain.
From S2P Require Import Crypto.
From S2P Require Import SecretRepo.
From S2P Require Import AppRole.

#[local] Open Scope Z_scope.

Class AppRoleJson := {
  approles_marshal : list AppRole → res bytes;
  approles_unmarshal : bytes → res (list AppRole);
}.

Definition appRoleRaftPath : string := "sys/internal/approles".

(** What a write draws: the identifier, the random bytes and the clock. *)
Record Draw := mkDraw { dr_ID : UUID; dr_Rnd : Entropy; dr_Now : Time }.

Section replication.
Context {aead : Aead} {json : AppRoleJson} {sha : Sha256}.

Definition approle_version (dr : Draw) (version : Z) (sealed : bytes * bytes) : SecretVersion :=
  mkSecretVersion (dr_ID dr) appRoleRaftPath version sealed.1 sealed.2 None None (dr_Now dr) None false ∅.

Definition next_approle_version (r : SecretRepository) : Z :=
  match GetLatest r appRoleRaftPath with Ok latest => wrap64 (sv_Version latest + 1) | Err _ => 1 end.

(** Every error is dropped. *)
Definition persistRaftLocked (k : KeyRing) (dr : Draw) (s : AppRoleStore) (r : SecretRepository) : SecretRepository :=
  let written :=
    raw ← approles_marshal (snd <$> map_to_list (ars_roles s));
    sealed ← Seal k (dr_Rnd dr) raw;
    SaveVersion r (approle_version dr (next_approle_version r) sealed) in
  match written with Ok r => r | Err _ => r end.

Definition roles_of (l : list AppRole) : gmap string AppRole := foldl (λ m x, <[ap_RoleID x := x]> m) ∅ l.

Definition LoadFromRaft (k : KeyRing) (s : AppRoleStore) (r : SecretRepository) : res AppRoleStore :=
  match GetLatest r appRoleRaftPath with
  | Err _ => Ok s
  | Ok sv =>
      if bool_decide (sv_DataEnc sv = []) then Ok s else
      plain ← Open k (sv_DataEnc sv) (sv_DEKEnc sv);
      l ← approles_unmarshal plain;
      Ok (set_roles s (roles_of l))
  end.

Definition AttachRaftBackend (k : KeyRing) (s : AppRoleStore) (r : SecretRepository) : AppRoleStore :=
  match LoadFromRaft k s r with Ok s => s | Err _ => s end.

(** The two changes of a store, which end in [saveLocked]. *)
Definition raft_Register (k : KeyRing) (wr : bool) (dr : Draw) (s : AppRoleStore) (r : SecretRepository)
    (roleID secretID subject : string) (policies : list string) : res (AppRoleStore * SecretRepository) :=
  s ← Register wr s roleID secretID subject policies;
  Ok (s, persistRaftLocked k dr s r).
Definition raft_Delete (k : KeyRing) (wr : bool) (dr : Draw) (s : AppRoleStore) (r : SecretRepository) (roleID : string) : AppRoleStore * SecretRepository :=
  let s := Delete wr s roleID in (s, persistRaftLocked k dr s r).
End replication.

#[local] Arguments Seal : simpl never.
#[local] Arguments Open : simpl never.
#[local] Arguments SaveVersion : simpl never.
#[local] Arguments approle_version : simpl never.

(** ** Properties *)

Section laws.
Context {aead : Aead} {laws : AeadLaws} {json : AppRoleJson} {sha : Sha256}.
Implicit Types (s : AppRoleStore) (r : SecretRepository).

Definition keyed s : Prop := map_Forall (λ id x, ap_RoleID x = id) (ars_roles s).

Lemma roles_of_values (m : gmap string AppRole) : map_Forall (λ id x, ap_RoleID x = id) m → roles_of (snd <$> map_to_list m) = m.
Proof.
  intros Hk. unfold roles_of. rewrite <-(list_to_map_to_list m) at 2.
  assert (Hl : Forall (λ kv : string * AppRole, ap_RoleID kv.2 = kv.1) (map_to_list m)).
  { apply Forall_forall. intros [id x] Hin%elem_of_map_to_list. by apply Hk. }
  assert (Hnd := NoDup_fst_map_to_list m). revert Hl Hnd. generalize (map_to_list m). clear m Hk. intros l Hl Hnd.
  assert (G : ∀ m0 : gmap string AppRole, (∀ id, id ∈ l.*1 → m0 !! id = None) → foldl (λ m x, <[ap_RoleID x := x]> m) m0 (snd <$> l) = list_to_map l ∪ m0).
  { induction l as [|[id x] l IH]; intros m0 Hm0; cbn; [by rewrite (left_id_L ∅ (∪))|].
    apply Forall_cons in Hl as [Hx Hl]. cbn in Hx. apply NoDup_cons in Hnd as [Hn Hnd]. rewrite Hx, IH; [|done..|].
    - by rewrite <-insert_union_l, insert_union_r by (by apply not_elem_of_list_to_map).
    - intros i Hi. rewrite lookup_insert_ne by (intros <-; done). apply Hm0. by right. }
  rewrite G; [by rewrite (right_id_L ∅ (∪))|]. intros; apply lookup_empty.
Qed.

Lemma Register_keyed wr s roleID secretID subject policies s' : keyed s → Register wr s roleID secretID subject policies = Ok s' → keyed s'.
Proof. intros Hk (_ & _ & _ & _ & subject' & E)%Register_ok. unfold keyed. rewrite E. by apply map_Forall_insert_2. Qed.

Lemma Delete_keyed wr s roleID : keyed s → keyed (Delete wr s roleID).
Proof. unfold keyed, Delete. rewrite saveLocked_roles. apply map_Forall_delete. Qed.

(** No version of the secret was destroyed and there is room for another. *)
Definition appendable r : Prop := (∀ v sv, r !! (appRoleRaftPath, v) = Some sv → sv_Destroyed sv = false) ∧ max_version r appRoleRaftPath < max_int.

Lemma latest_of_max r : secrets_wf r → (∀ v sv, r !! (appRoleRaftPath, v) = Some sv → sv_Destroyed sv = false) →
  match GetLatest r appRoleRaftPath with
  | Ok m => r !! (appRoleRaftPath, max_version r appRoleRaftPath) = Some m ∧ sv_Version m = max_version r appRoleRaftPath
  | Err _ => max_version r appRoleRaftPath = 0
  end.
Proof.
  intros Hwf Hd. assert (H := latest_spec r appRoleRaftPath Hwf). unfold GetLatest. fold (latestNonDestroyedLocked r appRoleRaftPath).
  destruct (max_version_cases r appRoleRaftPath) as [E|[sv E]].
  - destruct (latestNonDestroyedLocked r appRoleRaftPath) as [m|]; [|done]. destruct H as [[Hm _] _].
    assert (Hu := max_version_upper _ _ _ _ Hm). destruct (wf_version _ _ _ _ Hwf Hm) as (_ & _ & ? & _). lia.
  - assert (Hl : live r appRoleRaftPath (max_version r appRoleRaftPath) sv) by (split; [done|by eapply Hd]).
    destruct (latestNonDestroyedLocked r appRoleRaftPath) as [m|]; [|by apply H in Hl]. destruct H as [[Hm _] Hmax].
    assert (Hv : sv_Version m = max_version r appRoleRaftPath).
    { apply Hmax in Hl. assert (Hu := max_version_upper _ _ _ _ Hm). lia. }
    by rewrite <-Hv.
Qed.

Lemma next_version_max r : secrets_wf r → appendable r → next_approle_version r = max_version r appRoleRaftPath + 1.
Proof.
  intros Hwf [Hd Hmax]. assert (H := latest_of_max r Hwf Hd). unfold next_approle_version. destruct (GetLatest r appRoleRaftPath) as [m|e].
  - destruct H as [_ ->]. assert (Hn := max_version_nonneg r appRoleRaftPath). unfold wrap64, max_int in *. rewrite Z.mod_small; lia.
  - by rewrite H.
Qed.

(** A write that is stored is what the next read finds. *)
Lemma appended_latest r sv : secrets_wf r → appendable r → SecretVersion_Validate sv = Ok tt → sv_Destroyed sv = false →
  sv_Path sv = appRoleRaftPath → sv_Version sv = max_version r appRoleRaftPath + 1 →
  ∃ r', SaveVersion r sv = Ok r' ∧ secrets_wf r' ∧ GetLatest r' appRoleRaftPath = Ok sv.
Proof.
  intros Hwf [Hd Hmax] Hval Hdes Hp Hv. unfold SaveVersion. rewrite Hval, Hp, Hv, next_version_fresh by lia. eexists. split; [done|].
  set (r' := <[_ := sv]> r). assert (Hwf' : secrets_wf r').
  { unfold r'. rewrite <-Hv. rewrite <-Hp at 1. apply secrets_wf_insert; [done|done|]. rewrite Hv. unfold max_int in *. lia. }
  split; [done|]. assert (Hd' : ∀ v x, r' !! (appRoleRaftPath, v) = Some x → sv_Destroyed x = false).
  { intros v x. unfold r'. rewrite lookup_insert_Some. intros [[_ <-]|[_ Hx]]; [done|by eapply Hd]. }
  assert (Hm : max_version r' appRoleRaftPath = max_version r appRoleRaftPath + 1).
  { apply Z.le_antisymm; [|by apply (max_version_upper _ _ _ sv); unfold r'; rewrite lookup_insert_eq].
    destruct (max_version_cases r' appRoleRaftPath) as [->|[x Hx]]; [assert (Hn := max_version_nonneg r appRoleRaftPath); lia|].
    assert (Hlook : ∀ v y, r' !! (appRoleRaftPath, v) = Some y → v = max_version r appRoleRaftPath + 1 ∨ r !! (appRoleRaftPath, v) = Some y).
    { intros v y. unfold r'. rewrite lookup_insert_Some. naive_solver. }
    destruct (Hlook _ _ Hx) as [->|Hx']; [done|]. apply max_version_upper in Hx'. lia. }
  assert (H := latest_of_max r' Hwf' Hd'). rewrite Hm in H. unfold r' in H at 2. rewrite lookup_insert_eq in H.
  destruct (GetLatest r' appRoleRaftPath) as [m|e]; [by destruct H as [[= <-] _]|]. assert (Hn := max_version_nonneg r appRoleRaftPath). lia.
Qed.

(** Replication works across a restart: a node that starts after a change, with
    the key ring of the writer or a later one, has exactly the roles the writer
    had, whatever its own were. *)
Theorem approles_replicated k k' id dek n1 n2 now s s0 r raw :
  secrets_wf r → appendable r → keyed s → is_nil_uuid id = false →
  ring_wf k → rtc ring_step k k' → len dek = dekSize → length n1 = nonce_size → length n2 = nonce_size →
  approles_marshal (snd <$> map_to_list (ars_roles s)) = Ok raw → approles_unmarshal raw = Ok (snd <$> map_to_list (ars_roles s)) →
  let rnd := mkEntropy (Ok dek) (Ok n1) (Ok n2) in
  ∃ c enc, Seal k rnd raw = Ok (c, enc) ∧ secrets_wf (persistRaftLocked k (mkDraw id rnd now) s r) ∧
    ((kr_legacy k = true → shift_refused k' enc) →
     ars_roles (AttachRaftBackend k' s0 (persistRaftLocked k (mkDraw id rnd now) s r)) = ars_roles s).
Proof.
  intros Hwf Happ Hk Hid Hrw Hst Hd H1 H2 Hm Hu rnd.
  destruct (Open_later k k' dek n1 n2 raw Hrw Hst Hd H1 H2) as (c & enc & Hs & Hc & He & Ho). exists c, enc. split; [done|].
  set (sv := approle_version (mkDraw id rnd now) (next_approle_version r) (c, enc)).
  destruct (appended_latest r sv) as (r' & Hsave & Hwf' & Hget); try done.
  { unfold sv, approle_version, SecretVersion_Validate. cbn. rewrite Hid. cbn. rewrite next_version_max by done.
    assert (Hn := max_version_nonneg r appRoleRaftPath). destruct (Z.ltb_spec (max_version r appRoleRaftPath + 1) 1); [lia|]. cbn.
    by rewrite !bool_decide_eq_false_2. }
  { cbn. by apply next_version_max. }
  assert (Hp : persistRaftLocked k (mkDraw id rnd now) s r = r').
  { unfold persistRaftLocked. rewrite Hm. cbn. fold rnd in Hs. rewrite Hs. cbn. fold sv. by rewrite Hsave. }
  rewrite Hp. split; [done|]. intros Hl. unfold AttachRaftBackend, LoadFromRaft. rewrite Hget. change (sv_DataEnc sv) with c. change (sv_DEKEnc sv) with enc. rewrite bool_decide_eq_false_2 by done.
  rewrite (Ho Hl). cbn. rewrite Hu. cbn. by apply roles_of_values.
Qed.
End laws.

(** ** Two nodes *)

Module TwoNodes.
#[local] Instance nodes_sha : Sha256 := toy_sha256.
#[local] Instance nodes_aead : Aead := toy_aead.

Definition role_a : AppRole := mkAppRole "a" "approle:a" ["deploy"] (hashSecretID "a" "aaaaaaaaaaaaaaaa").
Definition role_b : AppRole := mkAppRole "b" "approle:b" ["read"] (hashSecretID "b" "bbbbbbbbbbbbbbbb").

(** An encoding of the lists the examples write. *)
Definition coded_lists : list (list AppRole) := [[]; [role_a]; [role_b]; [role_a; role_b]; [role_b; role_a]].
Fixpoint list_code (l : list AppRole) (ls : list (list AppRole)) (n : nat) : res bytes :=
  match ls with
  | [] => Err (Plain "no code")
  | x :: ls => if bool_decide (ap_RoleID <$> x = ap_RoleID <$> l) then Ok [ascii_of_nat n] else list_code l ls (S n)
  end.
#[local] Instance nodes_json : AppRoleJson := {|
  approles_marshal l := list_code l coded_lists 1;
  approles_unmarshal raw := match raw with [c] => match coded_lists !! (nat_of_ascii c - 1)%nat with Some l => Ok l | None => Err (Plain "no code") end | _ => Err (Plain "no code") end;
|}.

Definition ring : KeyRing := demo_ring "a".
Definition node_draw (n : N) : Draw := mkDraw n (mkEntropy (Ok (demo_key "d")) (Ok demo_nonce) (Ok demo_nonce)) 5.
Definition fresh_node : AppRoleStore := NewAppRoleStore ∅.
Definition holding (m : gmap string AppRole) : AppRoleStore := set_roles fresh_node m.

Lemma approles_replicated_witness : ars_roles (AttachRaftBackend ring (holding {["b" := role_b]}) (persistRaftLocked ring (node_draw 7) (holding {["a" := role_a]}) ∅)) = {["a" := role_a]}.
Proof.
  destruct (approles_replicated (laws := toy_laws) ring ring 7%N (demo_key "d") demo_nonce demo_nonce 5 (holding {["a" := role_a]}) (holding {["b" := role_b]}) ∅ [ascii_of_nat 2])
    as (c & enc & Hs & _ & H).
  - intros k x Hx. by rewrite lookup_empty in Hx.
  - split; [intros v x Hx; by rewrite lookup_empty in Hx|reflexivity].
  - unfold keyed. cbn. apply map_Forall_singleton. reflexivity.
  - reflexivity.
  - apply (NewKeyRing_wf (demo_key "a")). reflexivity.
  - reflexivity.
  - reflexivity.
  - reflexivity.
  - reflexivity.
  - vm_compute. reflexivity.
  - vm_compute. reflexivity.
  - apply H. intros _. vm_compute in Hs. injection Hs as <- <-. intros w sealed key [= <- <-]. vm_compute. discriminate.
Defined.

Definition registered (dr : Draw) (s : AppRoleStore) (r : SecretRepository) (role secret : string) (policy : string) : AppRoleStore * SecretRepository :=
  match raft_Register ring true dr s r role secret "" [policy] with Ok x => x | Err _ => (s, r) end.

(** Two nodes start empty; each registers a role. The second write replaces the
    first, so a node that starts afterwards knows the second role only. *)
Definition after_first : AppRoleStore * SecretRepository := registered (node_draw 7) fresh_node ∅ "a" "aaaaaaaaaaaaaaaa" "deploy".
Definition after_second : AppRoleStore * SecretRepository := registered (node_draw 8) fresh_node after_first.2 "b" "bbbbbbbbbbbbbbbb" "read".
Example stale_node_overwrites :
  is_ok (AppRole_Authenticate (Some after_first.1) "a" "aaaaaaaaaaaaaaaa") = true ∧
  map_to_list (ars_roles (AttachRaftBackend ring fresh_node after_second.2)) = [("b", role_b)].
Proof. split; vm_compute; reflexivity. Qed.

(** A role deleted on one node is still accepted by another that was running. *)
Definition other_node : AppRoleStore := AttachRaftBackend ring fresh_node after_first.2.
Definition after_delete : AppRoleStore * SecretRepository := raft_Delete ring true (node_draw 9) after_first.1 after_first.2 "a".
Example deleted_role_accepted :
  is_ok (AppRole_Authenticate (Some after_delete.1) "a" "aaaaaaaaaaaaaaaa") = false ∧
  map_to_list (ars_roles (AttachRaftBackend ring fresh_node after_delete.2)) = [] ∧
  is_ok (AppRole_Authenticate (Some other_node) "a" "aaaaaaaaaaaaaaaa") = true.
Proof. split_and!; vm_compute; reflexivity. Qed.
End TwoNodes.
