(* ===== verification/Ldap.v ===== *)
(** LDAP logins (internal/auth/ldap.go): the simple bind on the wire, the check
    of the answer of the directory, the allowed user names and the login method
    of the authentication service.

    A BER message is a list of bytes. The parser of URLs and the exchange of one
    request and one answer with a directory are arguments; so is the resolver of
    identities, which [Entities] implements. *)

From S2P Require Import Prelude.
From S2P Require Import Effects.
From S2P Require Import GoLib.
From S2P Require Import Policy.
From S2P Require Import Domain.
From S2P Require Import Lockout.
From S2P Require Import Repos.
From S2P Require Import TokenStore.
From S2P Require Import Identity.
From S2P Require Import AuditHelper.
From S2P Require Import PolicyService.
From S2P Require Import AppRole.
From S2P Require Import AuthService.
From S2P Require Import Entities.

#[local] Open Scope Z_scope.

(** ** Bytes *)

Definition bval (c : ascii) : Z := Z.of_N (N_of_ascii c).
Definition mkb (z : Z) : ascii := ascii_of_N (Z.to_N z).
(** [n = (n << 8) | int(b)] over the bytes, on 64-bit integers. *)
Definition be_int (b : bytes) : Z := foldl (λ n c, wrap64 (Z.lor (Z.shiftl n 8) (bval c))) 0 b.

(** ** Encoding *)

Definition encodeLength (n : Z) : bytes :=
  let n := if n <? 0 then 0 else n in
  let n := if 0xffff <? n then 0xffff else n in
  if n <? 128 then [mkb (Z.land n 0xff)]
  else if n <? 256 then [mkb 0x81; mkb (Z.land n 0xff)]
  else [mkb 0x82; mkb (Z.land (Z.shiftr n 8) 0xff); mkb (Z.land n 0xff)].

Definition blen (b : bytes) : Z := Z.of_nat (length b).

Definition encodeOctetString (b : bytes) : bytes := mkb 0x04 :: encodeLength (blen b) ++ b.

Definition encodeSimpleBind (messageID : Z) (dn password : string) : bytes :=
  let version := [mkb 0x02; mkb 0x01; mkb 0x03] in
  let name := encodeOctetString (bytes_of dn) in
  let auth := mkb 0x80 :: encodeLength (blen (bytes_of password)) ++ bytes_of password in
  let bindBody := version ++ name ++ auth in
  let bind := mkb 0x60 :: encodeLength (blen bindBody) ++ bindBody in
  let midByte := if (0 <=? messageID) && (messageID <=? 127) then messageID else 1 in
  let seqBody := [mkb 0x02; mkb 0x01; mkb midByte] ++ bind in
  mkb 0x30 :: encodeLength (blen seqBody) ++ seqBody.

(** ** The answer *)

Definition readLength (b : bytes) (off : nat) : res (nat * Z) :=
  match b !! off with
  | None => Err (Plain "eof")
  | Some fb =>
      let off := S off in
      if Z.land (bval fb) 0x80 =? 0 then Ok (off, bval fb)
      else
        let n := Z.to_nat (Z.land (bval fb) 0x7f) in
        if (n =? 0)%nat || (2 <? n)%nat || (length b <? off + n)%nat then Err (Plain "bad length")
        else Ok ((off + n)%nat, be_int (take n (drop off b)))
  end.

Definition bind_failed (why : string) : error := New ErrCodeUnauthorized ("ldap bind failed" +:+ why).

(** [b[off] == tag], out of range being false. *)
Definition tag_at (b : bytes) (off : nat) (tag : Z) : bool :=
  match b !! off with Some c => bval c =? tag | None => false end.

(** [off, n, err := readLength(b, off)] and its guard: the offset and the [n]
    bytes of the value. *)
Definition read_value (b : bytes) (off : nat) (least : Z) : option (nat * bytes) :=
  match readLength b off with
  | Err _ => None
  | Ok (off, n) =>
      if (n <? least) || (blen b <? Z.of_nat off + n) then None else Some (off, take (Z.to_nat n) (drop off b))
  end.

Definition parseBindResponse (resp : bytes) (expectMessageID : Z) : res unit :=
  _ ← reject (length resp <? 5)%nat (bind_failed ": short response");
  _ ← reject (negb (tag_at resp 0 0x30)) (bind_failed ": not a sequence");
  match readLength resp 1 with
  | Err _ => Err (bind_failed ": bad length")
  | Ok (off, _) =>
      _ ← reject (negb (tag_at resp off 0x02)) (bind_failed ": missing message id");
      match read_value resp (S off) 1 with
      | None => Err (bind_failed ": bad message id")
      | Some (off, mid) =>
          let off := (off + length mid)%nat in
          _ ← reject (negb (be_int mid =? expectMessageID)) (bind_failed ": message id mismatch");
          _ ← reject (negb (tag_at resp off 0x61)) (bind_failed ": not a bind response");
          match read_value resp (S off) 3 with
          | None => Err (bind_failed ": bad bind body")
          | Some (_, body) =>
              _ ← reject (negb (tag_at body 0 0x0a)) (bind_failed ": missing result code");
              match read_value body 1 1 with
              | None => Err (bind_failed ": bad result code")
              | Some (_, code) => reject (negb (be_int code =? 0)) (bind_failed "")
              end
          end
      end
  end.

(** ** The binder over the network *)

Record URL := mkURL { u_Scheme : string; u_Host : string }.

Class LdapNet := {
  url_Parse : string → res URL;
  (** Dial with or without TLS ([Some skip]: TLS, with or without verification),
      write the request and read once. *)
  ldap_exchange : option bool → string → Duration → bytes → res bytes;
}.

Definition NetLDAPBinder_Bind `{LdapNet} (serverURL bindDN password : string) (insecureSkipVerify : bool) (timeout : Duration) : res unit :=
  let timeout := if timeout <=? 0 then 10 * Second else timeout in
  u ← url_Parse serverURL;
  let scheme := ToLower (u_Scheme u) in
  _ ← reject (negb (scheme =s "ldap") && negb (scheme =s "ldaps")) (Plain "ldap url scheme must be ldap or ldaps");
  let host := u_Host u in
  _ ← reject (host =s "") (Plain "ldap url host required");
  let host := if Contains host ":" then host else host +:+ (if scheme =s "ldaps" then ":636" else ":389") in
  resp ← ldap_exchange (if scheme =s "ldaps" then Some insecureSkipVerify else None) host timeout (encodeSimpleBind 1 bindDN password);
  parseBindResponse resp 1.

(** ** User names *)

(** The class of [ldapUsernameRe]. *)
Definition username_char (c : ascii) : bool :=
  let n := nat_of_ascii c in
  (Nat.leb 97 n && Nat.leb n 122) || (Nat.leb 65 n && Nat.leb n 90) || (Nat.leb 48 n && Nat.leb n 57) ||
  str_mem c "._@+-".

Definition ldapUsernameRe (s : string) : bool :=
  Nat.leb 1 (String.length s) && Nat.leb (String.length s) 128 && forallb username_char (bytes_of s).

Definition ValidateLDAPUsername (username : string) : res unit :=
  reject (negb (ldapUsernameRe (TrimSpace username))) (New ErrCodeValidation "invalid ldap username").

(** [fmt.Sprintf] of a template whose directives are [%s], once, and [%%]. *)
Fixpoint Sprintf_s (template arg : string) : string :=
  match template with
  | EmptyString => EmptyString
  | String c t =>
      if Ascii.eqb c "%" then
        match t with
        | String "s" t => arg +:+ Sprintf_s t arg
        | String "%" t => String "%" (Sprintf_s t arg)
        | _ => String c (Sprintf_s t arg)
        end
      else String c (Sprintf_s t arg)
  end.

(** ** The login *)

Record LDAPConfig := mkLDAPConfig {
  ld_URL : string;
  ld_UserDNTemplate : string;
  ld_BindDN : string;
  ld_BindPassword : string;
  ld_UserSearchBase : string;
  ld_UserSearchFilter : string;
  ld_GroupPolicyMap : gmap string (list string);
  ld_DefaultPolicies : list string;
  ld_InsecureSkipVerify : bool;
  ld_Timeout : Duration;
}.

Definition LDAPConfigured (defaults : option LDAPConfig) : bool :=
  match defaults with Some cfg => negb (TrimSpace (ld_URL cfg) =s "") | None => false end.

Definition not_configured : error := New ErrCodeUnavailable "ldap authentication is not configured".

Definition user_dn (cfg : LDAPConfig) (username : string) : res string :=
  if ld_UserDNTemplate cfg =s "" then Ok username
  else
    _ ← reject (negb (Nat.eqb (Count (ld_UserDNTemplate cfg) "%s") 1)) (New ErrCodeInternal "ldap user DN template must contain exactly one %s");
    Ok (Sprintf_s (ld_UserDNTemplate cfg) username).

Definition base_policies (cfg : LDAPConfig) : list string :=
  if bool_decide (ld_DefaultPolicies cfg = []) then ["default"] else ld_DefaultPolicies cfg.

Abbreviation Binder := (string → string → string → bool → Duration → res unit).
Abbreviation IdentityResolver := (string → string → list string → res (string * list string)).

Definition resolved_policies (resolver : option IdentityResolver) (username : string) (policies : list string) : res (list string) :=
  match resolver with
  | None => Ok policies
  | Some resolve =>
      x ← resolve "ldap" username policies;
      Ok (if bool_decide (x.2 = []) then policies else x.2)
  end.

Section login.
Context {R X : Type} {repo : TokenRepo R} {codec : TokenCodec} {sha : Sha256} (range_keys : gmap string Z → list string).
Context (defaults : option LDAPConfig) (bind : Binder) (resolver : option IdentityResolver).
Abbreviation M := (prog (AuthService R X)).

Definition ldap_audit (username : string) : LoginAuditContext := mkLoginAudit "ldap" "" username "" "" "".

Definition LoginLDAP (clk : nat → Time) (raw : res bytes) (username password : string) : M (string * ClientToken) :=
  match defaults with
  | None => raise not_configured
  | Some cfg =>
      _ ← guard_not (TrimSpace (ld_URL cfg) =s "") not_configured;
      _ ← lift (ValidateLDAPUsername username);
      _ ← guard_not (password =s "") (New ErrCodeValidation "username and password required");
      dn ← lift (user_dn cfg username);
      match bind (ld_URL cfg) dn password (ld_InsecureSkipVerify cfg) (ld_Timeout cfg) with
      | Err _ =>
          _ ← recordLoginFailure range_keys clk ("ldap:" +:+ username) (ldap_audit username) "bind_failed";
          raise (New ErrCodeUnauthorized "ldap authentication failed")
      | Ok _ =>
          policies ← lift (resolved_policies resolver username (base_policies cfg));
          ttl ← gets (λ s, ts_ttl (au_tokens s));
          issued ← tokens (Create ("ldap:" +:+ username) policies ttl true (clk 200%nat + ttl) raw (clk 201%nat));
          _ ← recordLoginAudit true (ldap_audit username);
          mret issued
      end
  end.
End login.

(** ** Lengths *)

Lemma bval_mkb z : 0 ≤ z < 256 → bval (mkb z) = z.
Proof.
  intros Hz. unfold bval, mkb. rewrite N_ascii_embedding; lia.
Qed.

Lemma bval_bounds c : 0 ≤ bval c < 256.
Proof. unfold bval. assert (H := N_ascii_bounded c). lia. Qed.

Lemma low_byte n : 0 ≤ Z.land n 0xff < 256.
Proof. change 0xff with (Z.ones 8). rewrite Z.land_ones by lia. apply Z.mod_pos_bound. lia. Qed.

Lemma be_int_one c : be_int [c] = bval c.
Proof.
  unfold be_int. cbn [foldl]. change (Z.shiftl 0 8) with 0. rewrite Z.lor_0_l. apply wrap64_id. assert (H := bval_bounds c). lia.
Qed.

Lemma be_int_two c d : be_int [c; d] = 256 * bval c + bval d.
Proof.
  unfold be_int. cbn [foldl]. change (Z.shiftl 0 8) with 0. rewrite Z.lor_0_l.
  assert (Hc := bval_bounds c). assert (Hd := bval_bounds d). rewrite (wrap64_id (bval c)) by lia.
  rewrite Z.shiftl_mul_pow2 by lia. change (2 ^ 8) with 256.
  rewrite <-Z.add_nocarry_lor; [rewrite wrap64_id; lia|]. apply Z.bits_inj'. intros i Hi. rewrite Z.land_spec, Z.bits_0.
  destruct (Z.lt_ge_cases i 8).
  - change 256 with (2 ^ 8). rewrite Z.mul_pow2_bits_low by lia. done.
  - rewrite (Z.bits_above_log2 (bval d) i); [apply andb_false_r|lia|].
    destruct (Z.eq_dec (bval d) 0) as [->|]; [cbn; lia|]. apply Z.log2_lt_pow2; [lia|]. apply Z.lt_le_trans with (2 ^ 8); [lia|]. by apply Z.pow_le_mono_r.
Qed.

(** What [encodeLength] writes at any place of a message, [readLength] reads there. *)
Lemma readLength_encodeLength pre n rest : 0 ≤ n ≤ 0xffff →
  readLength (pre ++ encodeLength n ++ rest) (length pre) = Ok ((length pre + length (encodeLength n))%nat, n).
Proof.
  intros Hn. unfold encodeLength. destruct (Z.ltb_spec n 0); [lia|]. destruct (Z.ltb_spec 0xffff n); [lia|].
  assert (Hl := low_byte n). assert (Hh := low_byte (Z.shiftr n 8)).
  assert (El : Z.land n 0xff = n mod 256) by (change 0xff with (Z.ones 8); by rewrite Z.land_ones by lia).
  assert (Eh : Z.land (Z.shiftr n 8) 0xff = n / 256).
  { change 0xff with (Z.ones 8). rewrite Z.land_ones, Z.shiftr_div_pow2 by lia. change (2 ^ 8) with 256. apply Z.mod_small.
    split; [apply Z.div_pos; lia|apply Z.div_lt_upper_bound; lia]. }
  unfold readLength. cbn [app].
  destruct (Z.ltb_spec n 128); [|destruct (Z.ltb_spec n 256)].
  - cbn [app]. rewrite list_lookup_middle by done. rewrite El, Z.mod_small by lia. rewrite bval_mkb by lia.
    assert (Eb : Z.land n 0x80 = 0).
    { apply Z.bits_inj'. intros i Hi. rewrite Z.land_spec, Z.bits_0. change 0x80 with (2 ^ 7). rewrite Z.pow2_bits_eqb by lia.
      destruct (Z.eqb_spec 7 i) as [<-|]; [|apply andb_false_r]. rewrite andb_true_r. apply Z.testbit_false; [lia|]. rewrite Z.div_small by (cbn; lia). done. }
    rewrite Eb. cbn. f_equal. f_equal. lia.
  - cbn [app]. rewrite list_lookup_middle by done. rewrite !bval_mkb by lia. change (Z.land 129 128 =? 0) with false. change (Z.to_nat (Z.land 129 127)) with 1%nat. cbn [orb Nat.eqb].
    change (2 <? 1)%nat with false. cbn [orb].
    rewrite (proj2 (Nat.ltb_ge _ _)) by (rewrite length_app; cbn; lia). rewrite cons_middle, app_assoc, drop_app_length' by (rewrite length_app; cbn; lia).
    cbn [take]. rewrite take_0, be_int_one, El, Z.mod_small, bval_mkb by lia. f_equal. f_equal. cbn. lia.
  - cbn [app]. rewrite list_lookup_middle by done. rewrite !bval_mkb by lia. change (Z.land 130 128 =? 0) with false. change (Z.to_nat (Z.land 130 127)) with 2%nat. cbn [orb Nat.eqb].
    change (2 <? 2)%nat with false. cbn [orb].
    rewrite (proj2 (Nat.ltb_ge _ _)) by (rewrite length_app; cbn; lia). rewrite cons_middle, app_assoc, drop_app_length' by (rewrite length_app; cbn; lia).
    cbn [take]. rewrite take_0, be_int_two, !bval_mkb, El, Eh by lia. f_equal. f_equal; [cbn; lia|]. rewrite <-Z.div_mod; lia.
Qed.

Lemma encodeLength_size n : (1 ≤ length (encodeLength n) ≤ 3)%nat.
Proof. unfold encodeLength. repeat case_match; cbn; lia. Qed.

(** ** What a directory reads

    A tag, a length and that many bytes of content, as X.690 has them, and the
    bind request of RFC 4511 in these terms. *)

Definition tlv (tag : Z) (content : bytes) : bytes := mkb tag :: encodeLength (blen content) ++ content.

Definition take_tlv (tag : Z) (b : bytes) : option (bytes * bytes) :=
  if tag_at b 0 tag then
    match readLength b 1 with
    | Ok (off, n) => if blen b <? Z.of_nat off + n then None else Some (take (Z.to_nat n) (drop off b), drop (off + Z.to_nat n) b)
    | Err _ => None
    end
  else None.

Definition decode_bind (b : bytes) : option (Z * Z * string * string) :=
  '(msg, r0) ← take_tlv 0x30 b;
  '(mid, r) ← take_tlv 0x02 msg;
  '(op, r1) ← take_tlv 0x60 r;
  '(ver, r) ← take_tlv 0x02 op;
  '(name, r) ← take_tlv 0x04 r;
  '(pw, r2) ← take_tlv 0x80 r;
  if bool_decide (r0 = [] ∧ r1 = [] ∧ r2 = []) then Some (be_int mid, be_int ver, string_of name, string_of pw) else None.

Lemma tlv_at pre tag content rest : 0 ≤ tag < 256 → blen content ≤ 0xffff →
  tag_at (pre ++ tlv tag content ++ rest) (length pre) tag = true ∧
  readLength (pre ++ tlv tag content ++ rest) (S (length pre)) = Ok ((length pre + length (tlv tag content) - length content)%nat, blen content) ∧
  drop (length pre + length (tlv tag content) - length content) (pre ++ tlv tag content ++ rest) = content ++ rest.
Proof.
  intros Ht Hc.
  assert (E : pre ++ tlv tag content ++ rest = (pre ++ [mkb tag]) ++ encodeLength (blen content) ++ content ++ rest)
    by (unfold tlv; cbn; by rewrite <-!app_assoc).
  assert (El : (length pre + length (tlv tag content) - length content)%nat = (length (pre ++ [mkb tag]) + length (encodeLength (blen content)))%nat)
    by (unfold tlv; cbn; rewrite !length_app; cbn; lia).
  split_and!.
  - unfold tag_at, tlv. cbn [app]. rewrite list_lookup_middle by done. rewrite bval_mkb by lia. apply Z.eqb_refl.
  - rewrite E, El. replace (S (length pre)) with (length (pre ++ [mkb tag])) by (rewrite length_app; cbn; lia).
    apply readLength_encodeLength. unfold blen in *. lia.
  - rewrite E, El, (app_assoc _ (encodeLength _)). apply drop_app_length'. by rewrite (length_app (pre ++ _)).
Qed.

Lemma take_tlv_app tag content rest : 0 ≤ tag < 256 → blen content ≤ 0xffff → take_tlv tag (tlv tag content ++ rest) = Some (content, rest).
Proof.
  intros Ht Hc. destruct (tlv_at [] tag content rest Ht Hc) as (H1 & H2 & H3). cbn [app length Nat.add] in H1, H2, H3. unfold take_tlv. rewrite H1, H2.
  assert (Hl : (length content ≤ length (tlv tag content))%nat) by (unfold tlv; cbn; rewrite length_app; lia).
  destruct (Z.ltb_spec (blen (tlv tag content ++ rest)) (Z.of_nat (length (tlv tag content) - length content) + blen content)) as [Hx|_].
  { unfold blen in Hx. rewrite length_app in Hx. lia. }
  rewrite <-drop_drop, H3. unfold blen. rewrite Nat2Z.id, take_app_length, drop_app_length. done.
Qed.

Lemma take_tlv_all tag content : 0 ≤ tag < 256 → blen content ≤ 0xffff → take_tlv tag (tlv tag content) = Some (content, []).
Proof. intros. rewrite <-(app_nil_r (tlv tag content)). by apply take_tlv_app. Qed.

Lemma blen_app b c : blen (b ++ c) = blen b + blen c.
Proof. unfold blen. rewrite length_app. lia. Qed.

Lemma tlv_size tag content : blen (tlv tag content) ≤ blen content + 4.
Proof. unfold tlv. change (mkb tag :: ?l) with ([mkb tag] ++ l). rewrite !blen_app. assert (H := encodeLength_size (blen content)). unfold blen in *. cbn. lia. Qed.

(** The bind on the wire: for names and passwords that fit, a directory that
    decodes the request as X.690 and RFC 4511 have it sees the message number,
    protocol version 3, the distinguished name and the password that were given,
    whatever bytes they contain. *)
Theorem bind_request_decodes id dn pw : 0 ≤ id ≤ 127 → blen (bytes_of dn) + blen (bytes_of pw) ≤ 65517 →
  decode_bind (encodeSimpleBind id dn pw) = Some (id, 3, dn, pw).
Proof.
  intros Hid Hlen.
  set (body := tlv 2 [mkb 3] ++ tlv 4 (bytes_of dn) ++ tlv 128 (bytes_of pw)).
  assert (E : encodeSimpleBind id dn pw = tlv 48 (tlv 2 [mkb id] ++ tlv 96 body)).
  { unfold encodeSimpleBind. destruct (Z.leb_spec 0 id); [|lia]. destruct (Z.leb_spec id 127); [|lia]. done. }
  assert (Hnn : ∀ b, 0 ≤ blen b) by (unfold blen; lia). assert (Hd := Hnn (bytes_of dn)). assert (Hp := Hnn (bytes_of pw)).
  assert (Hb : blen body ≤ 65528).
  { unfold body. rewrite !blen_app. assert (H1 := tlv_size 4 (bytes_of dn)). assert (H2 := tlv_size 128 (bytes_of pw)). change (blen (tlv 2 [mkb 3])) with 3. lia. }
  assert (Hs : blen (tlv 2 [mkb id] ++ tlv 96 body) ≤ 65535).
  { rewrite blen_app. assert (H1 := tlv_size 96 body). change (blen (tlv 2 [mkb id])) with 3. lia. }
  unfold decode_bind. rewrite E, take_tlv_all by lia. cbn [mbind option_bind]. rewrite take_tlv_app by (unfold blen; cbn; lia). cbn [mbind option_bind].
  rewrite take_tlv_all by lia. cbn [mbind option_bind]. unfold body. rewrite take_tlv_app by (unfold blen; cbn; lia). cbn [mbind option_bind].
  rewrite take_tlv_app by lia. cbn [mbind option_bind]. rewrite take_tlv_all by lia. cbn [mbind option_bind].
  rewrite bool_decide_eq_true_2 by done. rewrite !be_int_one, !bval_mkb, !string_of_bytes by lia. done.
Qed.

(** ** The answer of the directory *)

(** A bind response of RFC 4511: the result code and the rest of its fields. *)
Definition bind_response (id code : Z) (fields : bytes) : bytes :=
  tlv 0x30 (tlv 0x02 [mkb id] ++ tlv 0x61 (tlv 0x0a [mkb code] ++ fields)).

Lemma read_value_tlv pre tag content rest least : 0 ≤ tag < 256 → blen content ≤ 0xffff → least ≤ blen content →
  read_value (pre ++ tlv tag content ++ rest) (S (length pre)) least =
  Some ((length pre + length (tlv tag content) - length content)%nat, content).
Proof.
  intros Ht Hc Hle. destruct (tlv_at pre tag content rest Ht Hc) as (_ & H2 & H3). unfold read_value. rewrite H2.
  assert (Hl : (length content ≤ length (tlv tag content))%nat) by (unfold tlv; cbn; rewrite length_app; lia).
  destruct (Z.ltb_spec (blen content) least); [lia|]. cbn [orb].
  destruct (Z.ltb_spec (blen (pre ++ tlv tag content ++ rest)) (Z.of_nat (length pre + length (tlv tag content) - length content) + blen content)) as [Hx|_].
  { rewrite !blen_app in Hx. unfold blen in Hx. lia. }
  rewrite H3. unfold blen. by rewrite Nat2Z.id, take_app_length.
Qed.

(** A login is accepted on a bind response with the number of the request and
    result code 0 (success), and on no other bind response. *)
Theorem bind_response_judged id code fields expect : 0 ≤ id ≤ 127 → 0 ≤ code < 256 → blen fields ≤ 65000 →
  parseBindResponse (bind_response id code fields) expect =
  if negb (id =? expect) then Err (bind_failed ": message id mismatch")
  else if code =? 0 then Ok tt else Err (bind_failed "").
Proof.
  intros Hid Hcode Hf. unfold bind_response. set (body := tlv 10 [mkb code] ++ fields).
  assert (Hb : blen body = 3 + blen fields) by (unfold body; by rewrite blen_app).
  assert (Hnn : 0 ≤ blen fields) by (unfold blen; lia).
  set (seqb := tlv 2 [mkb id] ++ tlv 97 body).
  assert (Hs : blen seqb ≤ 65535) by (unfold seqb; rewrite blen_app; assert (H1 := tlv_size 97 body); change (blen (tlv 2 [mkb id])) with 3; lia).
  set (pre := mkb 48 :: encodeLength (blen seqb)).
  assert (E1 : tlv 48 seqb = pre ++ tlv 2 [mkb id] ++ tlv 97 body ++ []) by (unfold tlv at 1, pre, seqb; by rewrite app_nil_r).
  destruct (tlv_at [] 48 seqb [] ltac:(lia) Hs) as (T1 & R1 & _). rewrite app_nil_r in T1, R1. cbn [app length Nat.add] in T1, R1.
  assert (Hoff : (length (tlv 48 seqb) - length seqb)%nat = length pre) by (change (tlv 48 seqb) with (pre ++ seqb); rewrite length_app; lia).
  assert (Hpre : (2 ≤ length pre)%nat) by (assert (H := encodeLength_size (blen seqb)); unfold pre; cbn [length]; lia).
  unfold parseBindResponse. rewrite (proj2 (Nat.ltb_ge _ _)); [|rewrite E1, !length_app; change (length (tlv 2 [mkb id])) with 3%nat; lia]. cbn [reject mbind res_bind].
  rewrite T1, R1, Hoff. cbn [negb reject mbind res_bind]. rewrite E1.
  destruct (tlv_at pre 2 [mkb id] (tlv 97 body ++ []) ltac:(lia) ltac:(unfold blen; cbn; lia)) as (T2 & _ & _). rewrite T2. cbn [negb reject mbind res_bind].
  rewrite read_value_tlv by (unfold blen; cbn; lia). rewrite be_int_one, bval_mkb by lia. destruct (id =? expect); [|done]. cbn [negb reject mbind res_bind].
  replace (length pre + length (tlv 2 [mkb id]) - length [mkb id] + length [mkb id])%nat with (length (pre ++ tlv 2 [mkb id])) by (rewrite length_app; cbn; lia).
  rewrite app_assoc. destruct (tlv_at (pre ++ tlv 2 [mkb id]) 97 body [] ltac:(lia) ltac:(lia)) as (T3 & _ & _). rewrite T3. cbn [negb reject mbind res_bind].
  rewrite read_value_tlv by lia.
  destruct (tlv_at [] 10 [mkb code] fields ltac:(lia) ltac:(unfold blen; cbn; lia)) as (T4 & _ & _). cbn [app length] in T4. fold body in T4. rewrite T4. cbn [negb reject mbind res_bind].
  assert (R4 := read_value_tlv [] 10 [mkb code] fields 1 ltac:(lia) ltac:(unfold blen; cbn; lia) ltac:(unfold blen; cbn; lia)). cbn [app length] in R4. fold body in R4.
  rewrite R4, be_int_one, bval_mkb by lia. by destruct (code =? 0).
Qed.

(** ** User names stay inside the template *)

Lemma Sprintf_s_plain a b u : str_mem "%" a = false → str_mem "%" b = false → Sprintf_s (a +:+ "%s" +:+ b) u = a +:+ u +:+ b.
Proof.
  intros Ha Hb.
  assert (Hp : ∀ t, str_mem "%" t = false → Sprintf_s t u = t).
  { intros t. induction t as [|c t IH]; [done|]. cbn [str_mem Sprintf_s]. destruct (Ascii.eqb_spec c "%") as [->|]; [done|].
    intros [_ Ht]%orb_false_iff. by rewrite IH. }
  induction a as [|c a IH]; cbn in *.
  - by rewrite Hp.
  - destruct (Ascii.eqb_spec c "%") as [->|]; [done|]. apply orb_false_iff in Ha as [_ Ha]. by rewrite IH.
Qed.

Lemma mem_TrimLeft c s : IsSpace c = false → str_mem c (TrimLeft s) = str_mem c s.
Proof.
  intros Hc. induction s as [|d s IH]; [done|]. cbn. destruct (IsSpace d) eqn:Ed; [|done]. rewrite IH. destruct (bool_decide_reflect (c = d)) as [->|]; [congruence|done].
Qed.

Lemma mem_TrimRight c s : IsSpace c = false → str_mem c (TrimRight s) = str_mem c s.
Proof.
  intros Hc. induction s as [|d s IH]; [done|]. cbn. rewrite <-IH. destruct (TrimRight s) as [|e t]; [|done].
  destruct (IsSpace d) eqn:Ed; [|done]. cbn. destruct (bool_decide_reflect (c = d)) as [->|]; [congruence|done].
Qed.

Lemma mem_allowed c s : forallb username_char (bytes_of s) = true → str_mem c s = true → username_char c = true.
Proof.
  unfold bytes_of. induction s as [|d s IH]; [done|]. cbn. intros [Hd Hs]%andb_true_iff [->%bool_decide_eq_true|Hc]%orb_true_iff; [done|by apply IH].
Qed.

(** The characters with a meaning in a distinguished name or a search filter. *)
Definition dn_special : list ascii :=
  [","; "="; "\"; "<"; ">"; ";"; "#"; "*"; "("; ")"; "/"; ascii_of_nat 34; ascii_of_nat 0]%char.

Lemma valid_username_plain u c : ValidateLDAPUsername u = Ok tt → c ∈ dn_special → str_mem c u = false.
Proof.
  intros Hv Hc. apply reject_ok in Hv. apply negb_false_iff in Hv. apply andb_true_iff in Hv as [_ Hv]. apply not_true_iff_false. intros Hm.
  assert (Hsp : IsSpace c = false ∧ username_char c = false).
  { assert (Hall : forallb (λ c, negb (IsSpace c) && negb (username_char c)) dn_special = true) by reflexivity.
    rewrite forallb_elem in Hall. apply Hall, andb_true_iff in Hc as [H1%negb_true_iff H2%negb_true_iff]. done. }
  destruct Hsp as [Hsp Huc]. rewrite (mem_allowed c (TrimSpace u)) in Huc; [done|done|]. unfold TrimSpace. by rewrite mem_TrimRight, mem_TrimLeft.
Qed.

Lemma Count_plain b k sub : str_mem "%" b = false → count_skip k b (String "%" sub) = 0%nat.
Proof.
  revert k. induction b as [|c b IH]; intros k; [done|]. cbn [str_mem]. intros [Hc%bool_decide_eq_false Hb]%orb_false_iff. cbn [count_skip].
  destruct k; [|by apply IH]. cbn [HasPrefix]. rewrite bool_decide_eq_false_2 by done. by apply IH.
Qed.

Lemma Count_template a b : str_mem "%" a = false → str_mem "%" b = false → Count (a +:+ "%s" +:+ b) "%s" = 1%nat.
Proof.
  unfold Count. intros Ha Hb. induction a as [|c a IH].
  - cbn. by rewrite Count_plain.
  - cbn [str_mem] in Ha. apply orb_false_iff in Ha as [Hc%bool_decide_eq_false Ha]. cbn [String.append count_skip HasPrefix]. rewrite bool_decide_eq_false_2 by done. by apply IH.
Qed.

(** The name a client gives is confined to its place in the template: what is
    bound is the template around the name, and the name holds no character that
    could end it in a distinguished name or a filter. *)
Theorem ldap_dn_confined cfg u a b : ValidateLDAPUsername u = Ok tt →
  ld_UserDNTemplate cfg = a +:+ "%s" +:+ b → str_mem "%" a = false → str_mem "%" b = false →
  user_dn cfg u = Ok (a +:+ u +:+ b) ∧ Forall (λ c, str_mem c u = false) dn_special.
Proof.
  intros Hv Ht Ha Hb. split.
  - unfold user_dn. rewrite Ht. rewrite bool_decide_eq_false_2 by (by destruct a). rewrite Count_template by done. cbn [Nat.eqb negb reject mbind res_bind]. by rewrite Sprintf_s_plain.
  - apply Forall_forall. intros c Hc. by apply valid_username_plain.
Qed.

(** ** The login *)

Section login_theorems.
Context {R X : Type} {repo : TokenRepo R} {codec : TokenCodec} {sha : Sha256} (range_keys : gmap string Z → list string).
Context (defaults : option LDAPConfig) (bind : Binder) (resolver : option IdentityResolver).
Implicit Type s : AuthService R X.

Lemma audit_tokens actor action resource status details s s' :
  audit_record actor action resource status details s = (s', Ok tt) → au_tokens s' = au_tokens s.
Proof. intros [= <-]. by destruct (au_audit s). Qed.

Lemma tokens_Create_run subject policies ttl max raw now s s' token t :
  tokens (X := X) (Create subject policies ttl true max raw now) s = (s', Ok (token, t)) →
  save t (au_tokens s) = (au_tokens s', Ok tt) ∧
  t = mkClientToken (hashToken token) subject policies (ct_ExpiresAt t) true false "" "" [] "" max ∧ ct_ID t = hashToken token ∧
  (max ≠ 0 → ct_ExpiresAt t ≤ max).
Proof.
  unfold tokens, zoom. destruct raw as [rawb|]; [|by cbv]. rewrite Create_eq. cbv zeta. set (t0 := created _ _ _ _ _ _ _ _).
  unfold mbind, prog_bind. destruct (save t0 (au_tokens s)) as [st [[]|]] eqn:Es; [|done]. intros [= <- <- <-]. split; [done|]. unfold t0, created. cbn.
  split_and!; try done. intros Hm. unfold IsZero, After. rewrite (proj2 (Z.eqb_neq _ _) Hm). cbn [negb andb]. case_match eqn:E; [lia|]. apply Z.ltb_ge in E. lia.
Qed.

(** C37. An LDAP login gives a token only for a configured directory, an allowed
    name, a password that is not empty (so no unauthenticated bind is taken for
    a login) and a bind of the name of the user that succeeded; the token is
    stored, belongs to that user, carries the policies the identities resolve to
    and has the life time of the store as its hard limit. *)
Theorem ldap_login_correct clk raw u pw s s' token t :
  LoginLDAP range_keys defaults bind resolver clk raw u pw s = (s', Ok (token, t)) →
  ∃ cfg dn, defaults = Some cfg ∧ TrimSpace (ld_URL cfg) ≠ "" ∧ ValidateLDAPUsername u = Ok tt ∧ pw ≠ "" ∧ user_dn cfg u = Ok dn ∧
    bind (ld_URL cfg) dn pw (ld_InsecureSkipVerify cfg) (ld_Timeout cfg) = Ok tt ∧
    resolved_policies resolver u (base_policies cfg) = Ok (ct_Policies t) ∧
    ct_Subject t = "ldap:" +:+ u ∧ ct_ID t = hashToken token ∧ ct_Revoked t = false ∧
    let limit := clk 200%nat + ts_ttl (au_tokens s) in
    ct_MaxExpiresAt t = limit ∧ (limit ≠ 0 → ct_ExpiresAt t ≤ limit) ∧
    save t (au_tokens s) = (au_tokens s', Ok tt).
Proof.
  unfold LoginLDAP. destruct defaults as [cfg|]; [|done]. intros Hr. inv_run. bool_props.
  destruct (bind _ _ _ _ _) as [[]|e] eqn:Eb; [|inv_run]. inv_run.
  match goal with H : tokens _ _ = _ |- _ => apply tokens_Create_run in H as (Hsv & Ht & Hid & Hex) end.
  match goal with H : recordLoginAudit _ _ _ = (_, Ok ?u) |- _ => destruct u; apply audit_tokens in H; rewrite H end.
  match goal with H : ValidateLDAPUsername _ = Ok ?u |- _ => destruct u end.
  eexists cfg, _. split_and!; try done; by rewrite Ht || (intros Hl; by apply Hex).
Qed.

(** A bind the directory refuses gives no token and changes none. *)
Lemma ldap_refused cfg dn clk raw u pw s e : defaults = Some cfg → user_dn cfg u = Ok dn →
  bind (ld_URL cfg) dn pw (ld_InsecureSkipVerify cfg) (ld_Timeout cfg) = Err e →
  ¬ is_Ok (LoginLDAP range_keys defaults bind resolver clk raw u pw s).2 ∧
  au_tokens (LoginLDAP range_keys defaults bind resolver clk raw u pw s).1 = au_tokens s.
Proof.
  intros -> Hdn Hb. split.
  - intros [[token t] Hr%run_eq]. unfold LoginLDAP in Hr. inv_run. rewrite Hdn in *. simplify_eq. rewrite Hb in *. inv_run.
  - revert s. change (always (λ s s', au_tokens s' = au_tokens s) (LoginLDAP range_keys (Some cfg) bind resolver clk raw u pw)).
    unfold LoginLDAP. assert (PreOrder (λ s s' : AuthService R X, au_tokens s' = au_tokens s)) by (split; [by intros ?|intros x y z; congruence]).
    do 3 (apply always_bind; [done|eauto with prog|intros _]). rewrite Hdn. apply always_lift_bind; [done|]. intros ? [= <-]. rewrite Hb.
    apply always_bind; [done| |eauto with prog]. unfold recordLoginFailure, recordLoginAudit, noteLockoutFailure, recordLockoutAudit, audit_record, record_failure.
    walk_prog; try (apply always_modify; intros s; by destruct (au_audit s)). all: intros s; unfold update; repeat case_match; by simplify_eq.
Qed.

(** Programs that do the same whatever the lockout tracker and the audit trail hold. *)
Definition unlogged (s : AuthService R X) : AuthService R X := set_au_lockout (set_au_audit s None) None.
Definition log_blind {A} (m : prog (AuthService R X) A) : Prop :=
  ∀ s t, unlogged s = unlogged t → unlogged (m s).1 = unlogged (m t).1 ∧ (m s).2 = (m t).2.

Lemma log_blind_lift {A} (r : res A) : log_blind (lift r).
Proof. by intros s t E. Qed.
Lemma log_blind_ret {A} (a : A) : log_blind (mret a).
Proof. by intros s t E. Qed.
Lemma log_blind_ttl : log_blind (gets (λ s, ts_ttl (au_tokens s))).
Proof. intros s t E. split; [done|]. unfold gets. cbn. f_equal. by apply (f_equal (λ s, ts_ttl (au_tokens s))) in E. Qed.
Lemma log_blind_bind {A B} (m : prog (AuthService R X) A) (k : A → prog (AuthService R X) B) : log_blind m → (∀ a, log_blind (k a)) → log_blind (m ≫= k).
Proof.
  intros Hm Hk s t E. apply Hm in E as [E1 E2]. unfold mbind, prog_bind. destruct (m s) as [s1 r1], (m t) as [t1 r2]. cbn in E1, E2. subst r2.
  destruct r1; [by apply Hk|done].
Qed.
(** What only writes the log and the tracker. *)
Lemma log_blind_log {A} (m : prog (AuthService R X) A) (r : res A) : (∀ s, unlogged (m s).1 = unlogged s ∧ (m s).2 = r) → log_blind m.
Proof. intros Hm s t E. destruct (Hm s) as [-> ->], (Hm t) as [-> ->]. done. Qed.
Lemma log_blind_audit actor action resource status details : log_blind (audit_record actor action resource status details).
Proof. apply (log_blind_log _ (Ok tt)). intros s. unfold audit_record, modify. by destruct s as [? ? ? ? [log|] ? ? ?]. Qed.
Lemma log_blind_tokens {A} (m : prog (TokenStore R) A) : log_blind (tokens m).
Proof.
  intros s t E. unfold tokens, zoom. assert (Et : au_tokens s = au_tokens t) by apply (f_equal au_tokens E). rewrite Et.
  destruct (m (au_tokens t)) as [ts r]. split; [|done]. cbn. clear Et. destruct s, t. unfold unlogged, set_au_lockout, set_au_audit, set_au_tokens in *. cbn in *. congruence.
Qed.
Lemma log_blind_note clk lockKey c : log_blind (noteLockoutFailure range_keys clk lockKey c).
Proof.
  apply (log_blind_log _ (Ok tt)). intros s. unfold noteLockoutFailure, mbind, prog_bind, gets. destruct (au_lockout s) as [tr|] eqn:El; [|done].
  cbv zeta. unfold record_failure, update. rewrite El. destruct (RecordFailure _ _ _ _ _) as [tr' b]. destruct b; [|done].
  unfold when, recordLockoutAudit, audit_record, modify. cbn. by destruct (au_audit s).
Qed.

(** The lockout is counted but never looked at: whatever the tracker holds, a
    login succeeds or fails the same, so a password can be guessed without end. *)
Theorem ldap_ignores_lockout clk raw u pw s l :
  (LoginLDAP range_keys defaults bind resolver clk raw u pw (set_au_lockout s l)).2 = (LoginLDAP range_keys defaults bind resolver clk raw u pw s).2.
Proof.
  assert (Hb : log_blind (LoginLDAP range_keys defaults bind resolver clk raw u pw)).
  { unfold LoginLDAP. destruct defaults as [cfg|]; [|apply log_blind_lift]. do 4 (apply log_blind_bind; [apply log_blind_lift|intros ?]).
    destruct (bind _ _ _ _ _).
    - apply log_blind_bind; [apply log_blind_lift|intros pol]. apply log_blind_bind; [apply log_blind_ttl|intros ttl]. apply log_blind_bind; [apply log_blind_tokens|intros x].
      apply log_blind_bind; [apply log_blind_audit|intros _]. apply log_blind_ret.
    - apply log_blind_bind; [|intros _; apply log_blind_lift]. apply log_blind_bind; [apply log_blind_audit|intros _]. apply log_blind_note. }
  by apply Hb.
Qed.
End login_theorems.

(** ** Examples *)

Definition demo_ldap : LDAPConfig := mkLDAPConfig "ldaps://ldap.example" "uid=%s,ou=people" "" "" "" "" ∅ ["reader"] false 0.
Definition demo_directory : Binder := λ _ dn pw _ _,
  if (dn =s "uid=bob,ou=people") && (pw =s "secret") then Ok tt else Err (bind_failed "").
Definition demo_ldap_login (clk : nat → Time) (pw : string) : prog (AuthService (gmap string ClientToken) unit) (string * ClientToken) :=
  LoginLDAP (codec := toy_codec) (λ _, []) (Some demo_ldap) demo_directory None clk demo_raw "bob" pw.

Lemma bind_request_decodes_witness : decode_bind (encodeSimpleBind 1 "uid=bob,ou=people" "secret") = Some (1, 3, "uid=bob,ou=people", "secret").
Proof. apply (bind_request_decodes 1 "uid=bob,ou=people" "secret"); vm_compute; [split|]; discriminate. Defined.

Lemma bind_response_judged_witness : parseBindResponse (bind_response 1 49 []) 1 = Err (bind_failed "").
Proof. apply (bind_response_judged 1 49 [] 1); vm_compute; [split|split|]; done. Defined.

Lemma ldap_dn_confined_witness : user_dn demo_ldap "bob" = Ok "uid=bob,ou=people" ∧ Forall (λ c, str_mem c "bob" = false) dn_special.
Proof. apply (ldap_dn_confined demo_ldap "bob" "uid=" ",ou=people"); reflexivity. Defined.

Lemma ldap_login_correct_witness : ∃ token t s', demo_ldap_login demo_clock "secret" (demo_auth ∅) = (s', Ok (token, t)) ∧ ct_Subject t = "ldap:bob" ∧ ct_Policies t = ["reader"].
Proof.
  destruct (demo_ldap_login demo_clock "secret" (demo_auth ∅)) as [s' [[token t]|e]] eqn:E; [|vm_compute in E; discriminate E].
  destruct (ldap_login_correct _ _ _ _ _ _ _ _ _ _ _ _ E) as (cfg & dn & [= <-] & _ & _ & _ & _ & _ & Hp & Hs & _). injection Hp as Hp.
  exists token, t, s'. split; [reflexivity|]. split; [exact Hs|exact (eq_sym Hp)].
Defined.

(** With five failures, the limit of the tracker, the name is locked; the right
    password is accepted all the same. *)
Example locked_name_logs_in :
  let s := foldl (λ s _, (demo_ldap_login demo_clock "wrong" s).1) (set_au_lockout (demo_auth ∅) (Some (NewLockoutTracker 5 Hour))) (seq 0 6) in
  (lo_locked <$> au_lockout s) ≠ Some ∅ ∧ is_ok (demo_ldap_login demo_clock "secret" s).2 = true.
Proof. vm_compute. split; [discriminate|reflexivity]. Qed.

(** Beyond 65535 bytes the length is cut while the content is not, and the
    request no longer decodes. *)
Example long_password_misframed : decode_bind (encodeSimpleBind 1 "uid=bob" (string_of (replicate 70000 "a"%char))) = None.
Proof. vm_compute. reflexivity. Qed.

(** A result code of nine bytes is shifted out of the 64-bit integer: code
    256^8 reads as 0, success. *)
Example long_result_code_wraps :
  parseBindResponse (tlv 48 (tlv 2 [mkb 1] ++ tlv 97 (tlv 10 (mkb 1 :: replicate 8 (mkb 0))))) 1 = Ok tt.
Proof. vm_compute. reflexivity. Qed.

(** The login of a disabled entity: refused under its name, accepted with a
    space before it, which the check of the name trims and the directory ignores,
    but neither the login nor the alias look-up does. *)
Definition lenient_directory : Binder := λ _ dn pw _ _,
  if ((dn =s "uid=bob,ou=people") || (dn =s "uid= bob,ou=people")) && (pw =s "secret") then Ok tt else Err (bind_failed "").
Definition demo_resolver : IdentityResolver := λ mount name base,
  (ResolveLogin in_order mount name base
     (identity_step (H := Crypto.toy_aead) (H0 := text_snapshot) (Crypto.demo_ring "a") None in_order (demo_service demo_identities)
        (ISetDisabled None 40 (blob_fresh 4 40) "ent_1" true))).2.

Example disabled_entity_logs_in :
  let login u := (LoginLDAP (R := gmap string ClientToken) (X := unit) (codec := toy_codec) (λ _, []) (Some demo_ldap) lenient_directory (Some demo_resolver)
                    demo_clock demo_raw u "secret" (demo_auth ∅)).2 in
  login "bob" = Err (New ErrCodeForbidden "entity disabled") ∧ is_ok (login " bob") = true.
Proof. vm_compute. split; reflexivity. Qed.
