(* ===== verification/Wrapping.v ===== *)
(** Response wrapping, internal/service/wrapping.go: a payload is kept in the
    cubbyhole of a fresh token and handed out once.

    The service of one process holds its own map of wrap metadata; when storage
    was attached the metadata is also kept, sealed, in the secret store, which
    the processes of a cluster share. [Wrapping] is what one process sees: its
    map, the store and the audit sink.

    The lock covers the metadata only, so a request is a sequence of atomic
    parts that other requests may come between. The parts are definitions of
    their own ([mark_used], [putMeta], [gcExpiredLocked] and the cubbyhole
    calls), the requests are composed from them, and the theorems speak of
    every order of parts. Encoding of the metadata is the class [MetaCodec];
    each reading of the clock is an argument. *)

From S2P Require Import Prelude.
From S2P Require Import Effects.
From S2P Require Import GoLib.
From S2P Require Import Domain.
From S2P Require Import SecretRepo.
From S2P Require Import Crypto.
From S2P Require Import KVEngine.
From S2P Require Import AuditHelper.
From S2P Require Import TokenStore.
From S2P Require Import Cubbyhole.

#[local] Open Scope Z_scope.

Definition wrapPath : string := "response".
Definition wrapMetaPrefix : string := "sys/wrapping/meta/".

Record wrapMeta := mkWrapMeta {
  wm_ExpiresAt : Time;
  wm_Used : bool;
  wm_Creation : Time;
  wm_casVersion : option Z;
}.

Definition meta_used (m : wrapMeta) : wrapMeta := mkWrapMeta (wm_ExpiresAt m) true (wm_Creation m) (wm_casVersion m).
Definition meta_cas (m : wrapMeta) (v : option Z) : wrapMeta := mkWrapMeta (wm_ExpiresAt m) (wm_Used m) (wm_Creation m) v.

(** JSON of the metadata; the version for compare-and-set is not encoded. *)
Class MetaCodec := {
  meta_marshal : wrapMeta → res bytes;
  meta_unmarshal : bytes → res wrapMeta;
}.
Class MetaCodecLaws `{MetaCodec} := {
  meta_roundtrip : ∀ m b, meta_marshal m = Ok b → meta_unmarshal b = Ok (meta_cas m None);
}.

Record Wrapping := mkWrapping {
  wr_wraps : gmap string wrapMeta;
  wr_repo : SecretRepository;
  wr_audit : AuditSink;
}.

Definition set_wraps (s : Wrapping) (m : gmap string wrapMeta) : Wrapping := mkWrapping m (wr_repo s) (wr_audit s).
Definition set_repo (s : Wrapping) (r : SecretRepository) : Wrapping := mkWrapping (wr_wraps s) r (wr_audit s).

Record WrapResult := mkWrapResult {
  wq_Token : string;
  wq_TTL : Z;
  wq_Creation : Time;
  wq_ExpiresAt : Time;
}.

Definition not_found : error := New ErrCodeNotFound "wrapping token not found".
Definition already_used : error := New ErrCodeForbidden "wrapping token already used".
Definition wrap_expired : error := New ErrCodeForbidden "wrapping token expired".

(** [int(d.Seconds())]: whole seconds, towards zero. *)
Definition whole_seconds (d : Duration) : Z := Z.quot d Second.

Section service.
Context `{Aead} `{Json} `{MetaCodec} {codec : TokenCodec} (k : KeyRing) (attached : bool).

Abbreviation W := (prog Wrapping).

Definition NewWrappingService (r : SecretRepository) (audit : AuditSink) : Wrapping := mkWrapping ∅ r audit.
Definition maxTTL : Duration := Hour.

Definition store {A} (m : Store A) : W A := zoom wr_repo set_repo m.

Definition record_wrap {A} (subject : option string) (action : string) (x : res A) (details : list (string * any)) : W unit :=
  modify (λ s, mkWrapping (wr_wraps s) (wr_repo s) (audithelper_Record (wr_audit s) subject action "sys/wrapping" x details)).

Definition hashWrap (token : string) : string := sha256_hex_string token.

Definition meta_version (fr : Fresh) (id : string) (ce : bytes * bytes) : SecretVersion :=
  mkSecretVersion (fr_ID fr) (wrapMetaPrefix +:+ id) 0 ce.1 ce.2 None None (fr_Now fr) None false (<["engine" := "wrapping"]> ∅).

Definition putMetaLocked (fr : Fresh) (id : string) (meta : wrapMeta) : W unit :=
  _ ← modify (λ s, set_wraps s (<[id := meta]> (wr_wraps s)));
  if negb attached then mret tt
  else
    raw ← lift (meta_marshal meta);
    ce ← lift (Seal k (fr_Rnd fr) raw);
    _ ← store (store_put (meta_version fr id ce) (wm_casVersion meta) 1);
    mret tt.

Definition putMeta (fr : Fresh) (id : string) (meta : wrapMeta) : W unit := putMetaLocked fr id meta.

Definition local_meta (id : string) : W wrapMeta := λ s,
  match wr_wraps s !! id with
  | Some meta => (s, Ok meta)
  | None => (s, Err not_found)
  end.

Definition decode_meta (sv : SecretVersion) : res wrapMeta :=
  plain ← Open k (sv_DataEnc sv) (sv_DEKEnc sv);
  meta_unmarshal plain.

Definition getMetaLocked (id : string) : W wrapMeta :=
  if attached then
    x ← attempt (store (store_latest (wrapMetaPrefix +:+ id)));
    match x with
    | Err _ => local_meta id
    | Ok sv =>
        meta ← lift (decode_meta sv);
        let meta := meta_cas meta (Some (sv_Version sv)) in
        _ ← modify (λ s, set_wraps s (<[id := meta]> (wr_wraps s)));
        mret meta
    end
  else local_meta id.

(** One iteration of the loop of [gcExpiredLocked]: the metadata first, then the
    payload. *)
Definition gc_meta (id : string) (s : Wrapping) : Wrapping :=
  let s := set_wraps s (delete id (wr_wraps s)) in
  if attached then
    match GetLatest (wr_repo s) (wrapMetaPrefix +:+ id) with
    | Ok sv => set_repo s (store_destroy (sv_Path sv) (sv_Version sv) (wr_repo s)).1
    | Err _ => s
    end
  else s.

Definition gc_one (now : Time) (s : Wrapping) (x : string * wrapMeta) : Wrapping :=
  let '(id, meta) := x in
  if wm_Used meta || After now (wm_ExpiresAt meta) then
    let s := gc_meta id s in
    set_repo s (Cubby_Delete id wrapPath (wr_repo s)).1
  else s.

Definition gcExpiredLocked (now : Time) : W unit := modify (λ s, foldl (gc_one now) s (map_to_list (wr_wraps s))).

(** The part of [Unwrap] that runs under the lock. *)
Definition mark_used (fr : Fresh) (now : Time) (id : string) : W unit :=
  meta ← getMetaLocked id;
  _ ← guard_not (wm_Used meta) already_used;
  _ ← guard_not (After now (wm_ExpiresAt meta)) wrap_expired;
  putMetaLocked fr id (meta_used meta).

Definition clamp_ttl (ttl : Duration) : Duration :=
  let ttl := if ttl <=? 0 then 60 * Second else ttl in
  if maxTTL <? ttl then maxTTL else ttl.

Definition Wrap_ (subject : option string) (raw : res bytes) (now : Time) (fr1 fr2 : Fresh) (now3 : Time)
    (payload : object) (ttl : Duration) : W WrapResult :=
  _ ← guard_not (bool_decide (length payload = 0%nat)) (New ErrCodeValidation "payload required");
  let ttl := clamp_ttl ttl in
  raw ← lift (wrap_internal "token" raw);
  let token := "knxw_" +:+ RawURLEncode raw in
  let id := hashWrap token in
  let exp := now + ttl in
  _ ← store (Cubby_Put k fr1 id wrapPath payload);
  _ ← on_error (putMeta fr2 id (mkWrapMeta exp false now None))
        (λ e, _ ← ignore (store (Cubby_Delete id wrapPath)); raise e);
  _ ← gcExpiredLocked now3;
  _ ← record_wrap subject "wrapping.wrap" (Ok tt) [("ttl", VNum (whole_seconds ttl))];
  mret (mkWrapResult token (whole_seconds ttl) now exp).

Definition Unwrap (subject : option string) (fr : Fresh) (now : Time) (token : string) : W object :=
  let id := hashWrap token in
  _ ← mark_used fr now id;
  x ← attempt (store (Cubby_Get k id wrapPath));
  match x with
  | Err e =>
      _ ← record_wrap subject "wrapping.unwrap" (Err e : res unit) [];
      raise e
  | Ok data =>
      _ ← ignore (store (Cubby_Delete id wrapPath));
      _ ← record_wrap subject "wrapping.unwrap" (Ok tt) [];
      mret data
  end.

Definition Lookup_ (now1 now2 : Time) (token : string) : W WrapResult :=
  meta ← getMetaLocked (hashWrap token);
  _ ← guard_not (wm_Used meta) not_found;
  _ ← guard_not (After now1 (wm_ExpiresAt meta)) wrap_expired;
  let ttl := whole_seconds (wm_ExpiresAt meta - now2) in
  let ttl := if ttl <? 0 then 0 else ttl in
  mret (mkWrapResult "" ttl (wm_Creation meta) (wm_ExpiresAt meta)).
End service.

(** ** The parts of requests *)

Inductive wrap_part :=
  | PStore (fr : Fresh) (id : string) (payload : object)
  | PMeta (fr : Fresh) (id : string) (meta : wrapMeta)
  | PDrop (id : string)
  | PGc (now : Time)
  | PMark (fr : Fresh) (now : Time) (id : string)
  | PRead (id : string)
  | PPeek (id : string).

Section parts.
Context `{Aead} `{Json} `{MetaCodec} (k : KeyRing) (attached : bool).

Definition part_step (p : wrap_part) : prog Wrapping unit :=
  match p with
  | PStore fr id payload => store (Cubby_Put k fr id wrapPath payload)
  | PMeta fr id meta => putMeta k attached fr id meta
  | PDrop id => store (Cubby_Delete id wrapPath)
  | PGc now => gcExpiredLocked attached now
  | PMark fr now id => mark_used k attached fr now id
  | PRead id => ignore (store (Cubby_Get k id wrapPath))
  | PPeek id => ignore (getMetaLocked k attached id)
  end.

Definition wrap_run (ps : list wrap_part) (s : Wrapping) : Wrapping := foldl (λ s p, (part_step p s).1) s ps.

(** No part mints the token again. *)
Definition not_minted (id : string) (p : wrap_part) : Prop := match p with PMeta _ i _ => i ≠ id | _ => True end.
End parts.

(** The path of a token's payload and of its metadata. *)
Definition payloadPath (id : string) : string := pathPrefix +:+ id +:+ "/response".
Definition metaPath (id : string) : string := wrapMetaPrefix +:+ id.

Lemma storagePath_wrap id : storagePath id wrapPath = Ok (payloadPath id).
Proof. unfold storagePath. by replace (NormalizePath wrapPath) with (Ok "response") by (by vm_compute). Qed.

Lemma storagePath_wrap_iff id p : storagePath id wrapPath = Ok p ↔ p = payloadPath id.
Proof. rewrite storagePath_wrap. split; congruence. Qed.

Lemma payloadPath_inj id id' : payloadPath id = payloadPath id' → id = id'.
Proof. intros E%str_app_inj_l. by eapply str_app_inj_r. Qed.
Lemma metaPath_inj id id' : metaPath id = metaPath id' → id = id'.
Proof. apply str_app_inj_l. Qed.
Lemma payloadPath_metaPath id id' : payloadPath id ≠ metaPath id'.
Proof. done. Qed.
#[local] Hint Resolve payloadPath_inj metaPath_inj payloadPath_metaPath : core.

(** ** Single use *)

Section single_use.
Context `{Aead} `{Json} `{MetaCodec} `{!MetaCodecLaws} {codec : TokenCodec} (k : KeyRing) (attached : bool).
Implicit Types (s : Wrapping) (id : string).

(** Nothing a process or the store holds of the token is unused. *)
Record spent id s : Prop := {
  sp_wf : secrets_wf (wr_repo s);
  sp_local : ∀ m, wr_wraps s !! id = Some m → wm_Used m = true;
  sp_store : attached = true → ∀ v sv m, live (wr_repo s) (metaPath id) v sv → decode_meta k sv = Ok m → wm_Used m = true;
}.

Lemma spent_repo id s r : spent id s → secrets_wf r →
  (∀ v sv, live r (metaPath id) v sv → live (wr_repo s) (metaPath id) v sv) → spent id (set_repo s r).
Proof. intros [Hw Hl Hs] Hr Hlive. split; simpl; [done|done|]. intros Ha v sv m Hv. by eapply Hs, Hlive. Qed.

Lemma live_same r r' p v sv : r' !! (p, v) = r !! (p, v) → live r' p v sv → live r p v sv.
Proof. unfold live. by intros ->. Qed.

Lemma spent_store {A} id (P : string → Prop) (m : Store A) : ¬ P (metaPath id) → always (confined P) m → preserves (spent id) (store m).
Proof.
  intros HP Hm s Hs. specialize (Hm (wr_repo s) (sp_wf _ _ Hs)). unfold store, zoom.
  destruct (m (wr_repo s)) as [r x]. simpl in *. destruct Hm as [Hr Hsame]. apply spent_repo; [done|done|].
  intros v sv. apply live_same. by apply Hsame.
Qed.

Lemma spent_cubby_put id fr i payload : preserves (spent id) (store (Cubby_Put k fr i wrapPath payload)).
Proof. eapply spent_store; [|apply confined_Cubby_Put]. rewrite storagePath_wrap. by intros [= ?]. Qed.
Lemma spent_cubby_delete id i : preserves (spent id) (store (Cubby_Delete i wrapPath)).
Proof. eapply spent_store; [|apply confined_Cubby_Delete]. rewrite storagePath_wrap. by intros [= ?]. Qed.

Lemma spent_insert id i meta s : (i = id → wm_Used meta = true) → spent id s → spent id (set_wraps s (<[i := meta]> (wr_wraps s))).
Proof.
  intros Hi [Hw Hl Hs]. split; simpl; [done| |done]. intros m. destruct (decide (i = id)) as [->|Hne].
  - rewrite lookup_insert_eq. intros [= <-]. by apply Hi.
  - rewrite lookup_insert_ne by done. apply Hl.
Qed.

Lemma spent_putMeta id fr i meta : i ≠ id → preserves (spent id) (putMetaLocked k attached fr i meta).
Proof.
  intros Hne. unfold putMetaLocked. apply always_bind; [apply _| |intros _].
  { apply always_modify. intros s Hs. by apply spent_insert. }
  apply always_if; [auto with prog|]. apply always_bind; [apply _|auto with prog|intros raw].
  apply always_bind; [apply _|auto with prog|intros ce]. apply always_bind; [apply _| |auto with prog].
  apply (spent_store _ (λ p, p = metaPath i)); [by intros ?%metaPath_inj|]. by apply confined_store_put.
Qed.

(** Reading the metadata, attached storage or not. *)
Lemma getMetaLocked_eq id s : getMetaLocked k attached id s =
  if attached then
    match GetLatest (wr_repo s) (metaPath id) with
    | Ok sv =>
        match decode_meta k sv with
        | Ok m => let m := meta_cas m (Some (sv_Version sv)) in (set_wraps s (<[id := m]> (wr_wraps s)), Ok m)
        | Err e => (s, Err e)
        end
    | Err _ => local_meta id s
    end
  else local_meta id s.
Proof.
  unfold getMetaLocked. destruct attached; [|done].
  unfold mbind, prog_bind, attempt, store, zoom, store_latest, lift, modify, mret, prog_ret. fold (metaPath id). destruct s as [w r a].
  cbn [wr_repo set_repo wr_wraps wr_audit]. destruct (GetLatest r (metaPath id)) as [sv|]; [|done]. by destruct (decode_meta k sv).
Qed.

Lemma latest_live r p sv : secrets_wf r → GetLatest r p = Ok sv → live r p (sv_Version sv) sv.
Proof.
  intros Hr. assert (Hs := latest_spec r p Hr). unfold GetLatest. fold (latestNonDestroyedLocked r p).
  destruct (latestNonDestroyedLocked r p); [|done]. intros [= ->]. by destruct Hs.
Qed.

(** Reading a spent token's metadata finds it used, and leaves it spent. *)
Lemma getMeta_spent id s s' x : spent id s → getMetaLocked k attached id s = (s', x) →
  spent id s' ∧ ∀ m, x = Ok m → wm_Used m = true.
Proof.
  intros Hsp. rewrite getMetaLocked_eq. unfold local_meta. destruct Hsp as [Hw Hl Hs] eqn:Ei. clear Ei.
  assert (Hloc : ∀ s' x, match wr_wraps s !! id with Some m => (s, Ok m) | None => (s, Err not_found) end = (s', x) →
            spent id s' ∧ ∀ m, x = Ok m → wm_Used m = true).
  { intros s1 x1. destruct (wr_wraps s !! id) as [m|] eqn:E; intros [= <- <-]; (split; [done|]); [|done]. intros ? [= <-]. by apply Hl. }
  destruct attached eqn:Ea; [|by apply Hloc]. destruct (GetLatest (wr_repo s) (metaPath id)) as [sv|] eqn:E; [|by apply Hloc].
  destruct (decode_meta k sv) as [m|] eqn:Ed; intros [= <- <-]; [|done].
  assert (Hu : wm_Used m = true) by (by eapply (Hs eq_refl (sv_Version sv) sv); [apply latest_live|]).
  split; [|by intros ? [= <-]]. by apply spent_insert.
Qed.

Lemma getMeta_other id i s : i ≠ id → implies (spent id) s (getMetaLocked k attached i s).1.
Proof.
  intros Hne Hs. rewrite getMetaLocked_eq. unfold local_meta. destruct attached eqn:Ea; [|by destruct (wr_wraps s !! i)].
  destruct (GetLatest (wr_repo s) (metaPath i)); [|by destruct (wr_wraps s !! i)]. destruct (decode_meta k _); [|done].
  by apply spent_insert.
Qed.

Lemma spent_getMeta id i : preserves (spent id) (getMetaLocked k attached i).
Proof.
  intros s Hs. destruct (decide (i = id)) as [->|Hne]; [|by apply getMeta_other].
  destruct (getMetaLocked k attached id s) as [s' x] eqn:E. by destruct (getMeta_spent id s s' x Hs E).
Qed.

Lemma spent_gc_meta id i s : spent id s → spent id (gc_meta attached i s).
Proof.
  intros Hs. unfold gc_meta. set (s1 := set_wraps s (delete i (wr_wraps s))).
  assert (Hs1 : spent id s1).
  { destruct Hs as [Hw Hl Hst]. split; simpl; [done| |done]. intros m [_ Hm]%lookup_delete_Some. by apply Hl. }
  clearbody s1. destruct attached eqn:Ea; [|done]. destruct (GetLatest _ _) as [sv|]; [|done]. unfold store_destroy.
  destruct (DestroyVersion (wr_repo s1) (sv_Path sv) (sv_Version sv)) as [r|] eqn:Ed; simpl; [|by destruct s1].
  destruct (DestroyVersion_ok _ _ _ _ (sp_wf _ _ Hs1) Ed) as (s0 & Hs0 & _ & -> & Hr). apply spent_repo; [done|done|].
  intros v su [Hlv Hd]. apply lookup_insert_Some in Hlv as [[_ <-]|[_ Hlv]]; [done|by split].
Qed.

Lemma spent_gc_one id now x s : spent id s → spent id (gc_one attached now s x).
Proof.
  intros Hs. destruct x as [i meta]. unfold gc_one. destruct (_ || _); [|done].
  apply (spent_cubby_delete id i). by apply spent_gc_meta.
Qed.

Lemma spent_gc id now : preserves (spent id) (gcExpiredLocked attached now).
Proof.
  intros s Hs. unfold gcExpiredLocked, modify. simpl. generalize (map_to_list (wr_wraps s)). intros l. revert s Hs.
  induction l as [|x l IH]; intros s Hs; [done|]. simpl. by apply IH, spent_gc_one.
Qed.

Lemma mark_spent_fails id fr now s : spent id s → ¬ is_Ok (mark_used k attached fr now id s).2.
Proof.
  intros Hs [u Hu]. unfold mark_used in Hu. unfold mbind at 1, prog_bind at 1 in Hu.
  destruct (getMetaLocked k attached id s) as [s1 [m|e]] eqn:E; [|done].
  destruct (getMeta_spent id s s1 _ Hs E) as [_ Hm]. unfold guard_not at 1, mbind, prog_bind, lift in Hu. by rewrite (Hm m eq_refl) in Hu.
Qed.

Lemma spent_mark id fr now i : preserves (spent id) (mark_used k attached fr now i).
Proof.
  destruct (decide (i = id)) as [->|Hne].
  - intros s Hs. unfold mark_used. unfold mbind at 1, prog_bind at 1.
    destruct (getMetaLocked k attached id s) as [s1 [m|e]] eqn:E; destruct (getMeta_spent id s s1 _ Hs E) as [Hs1 Hm]; [|done].
    unfold guard_not, mbind, prog_bind, lift. by rewrite (Hm m eq_refl).
  - unfold mark_used. apply always_bind; [apply _|apply spent_getMeta|intros m]. apply always_bind; [apply _|auto with prog|intros _].
    apply always_bind; [apply _|auto with prog|intros _]. by apply spent_putMeta.
Qed.

Lemma spent_part id p : not_minted id p → preserves (spent id) (part_step k attached p).
Proof.
  destruct p as [fr i payload|fr i meta|i|now|fr now i|i|i]; simpl; intros Hp.
  - apply spent_cubby_put.
  - by apply spent_putMeta.
  - apply spent_cubby_delete.
  - apply spent_gc.
  - apply spent_mark.
  - apply always_ignore, (spent_store id (λ _, False)); [by intros []|]. apply always_pure; [apply _|]. apply Cubby_Get_pure.
  - apply always_ignore, spent_getMeta.
Qed.

Lemma spent_run id ps s : Forall (not_minted id) ps → spent id s → spent id (wrap_run k attached ps s).
Proof. intros Hps. revert s. induction Hps as [|p ps Hp _ IH]; intros s Hs; [done|]. simpl. apply IH. by apply (spent_part id p Hp s Hs). Qed.
Lemma decode_sealed fr id m raw ce : seals k (fr_Rnd fr) → meta_marshal m = Ok raw → Seal k (fr_Rnd fr) raw = Ok ce →
  ∀ v, decode_meta k (sv_with_version (meta_version fr id ce) v) = Ok (meta_cas m None).
Proof.
  intros Hs Hm Hse v. destruct ce as [c enc]. unfold decode_meta. cbn [sv_DataEnc sv_DEKEnc sv_with_version meta_version fst snd].
  rewrite (Hs _ _ _ Hse). by apply meta_roundtrip.
Qed.

(** What a successful write of the metadata leaves behind. *)
Lemma putMeta_run fr id m s s' u : secrets_wf (wr_repo s) → seals k (fr_Rnd fr) → putMetaLocked k attached fr id m s = (s', Ok u) →
  wr_wraps s' = <[id := m]> (wr_wraps s) ∧ secrets_wf (wr_repo s') ∧
  (∀ p v, p ≠ metaPath id → wr_repo s' !! (p, v) = wr_repo s !! (p, v)) ∧
  (attached = true → ∃ sv, GetLatest (wr_repo s') (metaPath id) = Ok sv ∧ decode_meta k sv = Ok (meta_cas m None) ∧
     ∀ v su, live (wr_repo s') (metaPath id) v su → su = sv) ∧
  (attached = false → wr_repo s' = wr_repo s).
Proof.
  intros Hw Hs. unfold putMetaLocked. intros Hp. inv_run. destruct attached eqn:Ea; cbn [negb] in Hp; inv_run; [|by split_and!].
  match goal with H : store _ _ = _ |- _ => unfold store, zoom in H; cbn [wr_repo set_wraps] in H;
    destruct (store_put _ _ _ (wr_repo s)) as [r x] eqn:Hput; injection H as <- -> end.
  apply store_put_ok in Hput. cbn [wr_wraps wr_repo set_repo set_wraps].
  assert (Hsole := λ E, PutAtomic_sole _ _ _ _ _ Hw E Hput). specialize (Hsole eq_refl). apply PutAtomic_read in Hput as (Hw' & _ & Hlat & _ & Hother & _); [|done|done].
  split_and!; [done|done|done| |done]. intros _. eexists. split_and!; [exact Hlat|by eapply decode_sealed|].
  intros v su Hl. by destruct (Hsole v su Hl) as [-> ->].
Qed.

Lemma mark_used_run fr now id s s' u : secrets_wf (wr_repo s) → seals k (fr_Rnd fr) → mark_used k attached fr now id s = (s', Ok u) →
  spent id s'.
Proof.
  intros Hw Hs. unfold mark_used. intros Hm. inv_run.
  match goal with H : getMetaLocked _ _ _ _ = (?s1, Ok ?m) |- _ => rename s1 into s1', m into m', H into Hg end.
  assert (Hw1 : secrets_wf (wr_repo s1')).
  { rewrite getMetaLocked_eq in Hg. unfold local_meta in Hg. by case_all_in Hg; simplify_eq. }
  apply putMeta_run in Hm as (Hl & Hw' & _ & Hst & _); [|done|done]. split; [done| |].
  - intros m. rewrite Hl, lookup_insert_eq. by intros [= <-].
  - intros Ha v sv m Hlv Hd. destruct (Hst Ha) as (sv' & _ & Hd' & Hsole). rewrite (Hsole _ _ Hlv), Hd' in Hd. by injection Hd as <-.
Qed.

(** C29. A wrapping token is good for one use within a process. Once the metadata of a
    token was marked used, no order of other requests' parts on that process (wraps,
    unwraps and lookups of this and other tokens, collections) lets the token be
    marked or unwrapped again, unless a wrap mints the same token. The stores are
    well formed and the data key of the mark can be sealed. Other processes, with
    their own memory of a shared store, are not covered: there the token can be
    unwrapped again ([wrap_disclosed_twice]). *)
Theorem unwrap_single_use fr now token s s1 u ps fr' now' subject :
  secrets_wf (wr_repo s) → seals k (fr_Rnd fr) → mark_used k attached fr now (hashWrap token) s = (s1, Ok u) →
  Forall (not_minted (hashWrap token)) ps →
  ¬ is_Ok (mark_used k attached fr' now' (hashWrap token) (wrap_run k attached ps s1)).2 ∧
  ¬ is_Ok (Unwrap k attached subject fr' now' token (wrap_run k attached ps s1)).2.
Proof.
  intros Hw Hs Hm Hps. assert (Hsp := spent_run _ _ _ Hps (mark_used_run _ _ _ _ _ _ Hw Hs Hm)).
  assert (Hf := mark_spent_fails _ fr' now' _ Hsp). split; [done|]. intros [d Hd]. apply Hf. unfold Unwrap in Hd.
  unfold mbind at 1, prog_bind at 1 in Hd. cbv zeta in Hd. destruct (mark_used k attached fr' now' (hashWrap token) (wrap_run k attached ps s1)) as [s2 [x|e]]; [by exists x|done].
Qed.
End single_use.

(** ** Delivery *)

Section delivery.
Context `{Aead} `{!AeadLaws} `{Json} `{!JsonLaws} `{MetaCodec} `{!MetaCodecLaws} {codec : TokenCodec} (k : KeyRing) (attached : bool).
Implicit Types (s : Wrapping) (id : string).

(** What the state holds of a token is not touched. *)
Definition leaves id : relation Wrapping := λ s s', secrets_wf (wr_repo s) →
  secrets_wf (wr_repo s') ∧ wr_wraps s' !! id = wr_wraps s !! id ∧
  ∀ p v, p = metaPath id ∨ p = payloadPath id → wr_repo s' !! (p, v) = wr_repo s !! (p, v).
#[global] Instance leaves_preorder id : PreOrder (leaves id).
Proof.
  unfold leaves. split; [by intros s|]. intros s1 s2 s3 H12 H23 Hw. destruct (H12 Hw) as (Hw2 & E2 & R2).
  destruct (H23 Hw2) as (Hw3 & E3 & R3). split_and!; [done|congruence|]. intros p v Hp. by rewrite R3, R2.
Qed.

Lemma leaves_store {A} id (P : string → Prop) (m : Store A) : ¬ P (metaPath id) → ¬ P (payloadPath id) → always (confined P) m →
  always (leaves id) (store m).
Proof.
  intros HP HQ Hm s Hw. specialize (Hm (wr_repo s) Hw). unfold store, zoom. destruct (m (wr_repo s)) as [r x]. simpl in *.
  destruct Hm as [Hr Hsame]. split_and!; [done|done|]. intros p v [->| ->]; by apply Hsame.
Qed.

Lemma leaves_cubby_put id fr i payload : i ≠ id → always (leaves id) (store (Cubby_Put k fr i wrapPath payload)).
Proof. intros Hne. eapply leaves_store; [| |apply confined_Cubby_Put]; rewrite storagePath_wrap_iff; intros E; first [by apply payloadPath_inj in E|done]. Qed.
Lemma leaves_cubby_delete id i : i ≠ id → always (leaves id) (store (Cubby_Delete i wrapPath)).
Proof. intros Hne. eapply leaves_store; [| |apply confined_Cubby_Delete]; rewrite storagePath_wrap_iff; intros E; first [by apply payloadPath_inj in E|done]. Qed.

Lemma leaves_insert id i meta : i ≠ id → always (leaves id) (modify (λ s, set_wraps s (<[i := meta]> (wr_wraps s)))).
Proof. intros Hne. apply always_modify. intros s Hw. split_and!; [done| |done]. simpl. by rewrite lookup_insert_ne. Qed.

Lemma leaves_putMeta id fr i meta : i ≠ id → always (leaves id) (putMetaLocked k attached fr i meta).
Proof.
  intros Hne. unfold putMetaLocked. apply always_bind; [apply _|by apply leaves_insert|intros _].
  apply always_if; [auto with prog|]. apply always_bind; [apply _|auto with prog|intros raw].
  apply always_bind; [apply _|auto with prog|intros ce]. apply always_bind; [apply _| |auto with prog].
  apply (leaves_store _ (λ p, p = metaPath i)); [by intros ?%metaPath_inj|done|]. by apply confined_store_put.
Qed.

Lemma leaves_getMeta id i : i ≠ id → always (leaves id) (getMetaLocked k attached i).
Proof.
  intros Hne s. rewrite getMetaLocked_eq. unfold local_meta. destruct attached; [|by destruct (wr_wraps s !! i)].
  destruct (GetLatest (wr_repo s) (metaPath i)); [|by destruct (wr_wraps s !! i)]. destruct (decode_meta k _); [|done].
  by apply (leaves_insert id i _ Hne s).
Qed.

Lemma leaves_mark id fr now i : i ≠ id → always (leaves id) (mark_used k attached fr now i).
Proof.
  intros Hne. unfold mark_used. apply always_bind; [apply _|by apply leaves_getMeta|intros m].
  apply always_bind; [apply _|auto with prog|intros _]. apply always_bind; [apply _|auto with prog|intros _]. by apply leaves_putMeta.
Qed.

Lemma leaves_gc_meta id i s : i ≠ id → leaves id s (gc_meta attached i s).
Proof.
  intros Hne. unfold gc_meta. set (s1 := set_wraps s (delete i (wr_wraps s))).
  assert (Hs1 : leaves id s s1) by (intros Hw; split_and!; [done| |done]; simpl; by rewrite lookup_delete_ne).
  etrans; [exact Hs1|]. clearbody s1. clear Hs1 s.
  destruct attached; [|done]. destruct (GetLatest _ _) as [sv|] eqn:El; [|done]. intros Hw. unfold store_destroy.
  destruct (DestroyVersion (wr_repo s1) (sv_Path sv) (sv_Version sv)) as [r|] eqn:Ed; simpl; [|by destruct s1].
  destruct (DestroyVersion_ok _ _ _ _ Hw Ed) as (s0 & Hs0 & _ & -> & Hr). split_and!; [done|done|].
  assert (Hsv := latest_live _ _ _ Hw El). destruct Hsv as [Hsv _]. destruct (Hw _ _ Hsv) as ([= Hp] & _).
  intros p v Hpv. apply lookup_insert_ne. rewrite <-Hp. fold (metaPath i). intros [= E _]. destruct Hpv as [->| ->]; [|done].
  by apply metaPath_inj in E.
Qed.

Lemma leaves_gc_one id now x s : x.1 ≠ id → leaves id s (gc_one attached now s x).
Proof.
  intros Hne. destruct x as [i meta]. unfold gc_one. destruct (_ || _); [|done].
  etrans; [by apply (leaves_gc_meta id i)|]. apply (leaves_cubby_delete id i Hne).
Qed.

(** A token that waits to be unwrapped: its payload can be read, and every
    record of it is unused and expires at [exp]. *)
Record pending id (exp : Time) (data : object) s : Prop := {
  pd_wf : secrets_wf (wr_repo s);
  pd_local : ∀ m, wr_wraps s !! id = Some m → wm_Used m = false ∧ wm_ExpiresAt m = exp;
  pd_some : attached = false → is_Some (wr_wraps s !! id);
  pd_meta : attached = true → ∃ sv m, GetLatest (wr_repo s) (metaPath id) = Ok sv ∧ decode_meta k sv = Ok m ∧
    wm_Used m = false ∧ wm_ExpiresAt m = exp;
  pd_data : ∃ sv plain, GetLatest (wr_repo s) (payloadPath id) = Ok sv ∧ Open k (sv_DataEnc sv) (sv_DEKEnc sv) = Ok plain ∧
    json_unmarshal plain = Ok data;
}.

Lemma pending_leaves id exp data s s' : leaves id s s' → pending id exp data s → pending id exp data s'.
Proof.
  intros Hl [Hw Hloc Hsome Hm Hd]. destruct (Hl Hw) as (Hw' & E & R). split; rewrite ?E; [done..| |].
  - rewrite (GetLatest_same _ _ (metaPath id) Hw Hw'); [done|]. intros v. apply R. by left.
  - rewrite (GetLatest_same _ _ (payloadPath id) Hw Hw'); [done|]. intros v. apply R. by right.
Qed.

(** Parts that do not concern the token, lookups of it, and collections before
    it expires. *)
Definition undisturbed id (exp : Time) (p : wrap_part) : Prop :=
  match p with
  | PStore _ i _ | PMeta _ i _ | PDrop i | PMark _ _ i => i ≠ id
  | PGc now => now ≤ exp
  | PRead _ | PPeek _ => True
  end.

Lemma pending_peek id exp data s : pending id exp data s → pending id exp data (getMetaLocked k attached id s).1.
Proof.
  intros Hp. rewrite getMetaLocked_eq. assert (Hloc : pending id exp data (local_meta id s).1).
  { unfold local_meta. by destruct (wr_wraps s !! id). }
  destruct attached eqn:Ea; [|done]. destruct (pd_meta _ _ _ _ Hp Ea) as (sv & m & Hl & Hdm & Hu & He). rewrite Hl, Hdm.
  split; cbn [fst wr_repo wr_wraps set_wraps]; [apply Hp| |congruence| |apply Hp].
  - intros m'. rewrite lookup_insert_eq. by intros [= <-].
  - intros _. by exists sv, m.
Qed.

Lemma pending_gc id exp data now s : now ≤ exp → pending id exp data s →
  pending id exp data (foldl (gc_one attached now) s (map_to_list (wr_wraps s))).
Proof.
  intros Hn Hp. assert (Hall : ∀ m, (id, m) ∈ map_to_list (wr_wraps s) → wm_Used m = false ∧ wm_ExpiresAt m = exp).
  { intros m Hm%elem_of_map_to_list. by apply (pd_local _ _ _ _ Hp). }
  revert Hall. generalize (map_to_list (wr_wraps s)). intros l. revert s Hp. induction l as [|[i m] l IH]; intros s Hp Hall; [done|].
  cbn [foldl]. apply IH; [|intros m' Hin; apply Hall; by right]. destruct (decide (i = id)) as [->|Hne].
  - unfold gc_one. destruct (Hall m) as [-> ->]; [by left|]. unfold After. by replace (exp <? now) with false by (symmetry; apply Z.ltb_ge; lia).
  - apply (pending_leaves _ _ _ s); [|done]. exact (leaves_gc_one id now (i, m) s Hne).
Qed.

Lemma pending_part id exp data p s : undisturbed id exp p → pending id exp data s → pending id exp data (part_step k attached p s).1.
Proof.
  intros Hp Hs. assert (Hk : ∀ (m : prog Wrapping unit), always (leaves id) m → pending id exp data (m s).1).
  { intros m Hm. exact (pending_leaves _ _ _ s _ (Hm s) Hs). }
  destruct p as [fr i payload|fr i meta|i|now|fr now i|i|i]; cbn [part_step undisturbed] in *.
  - by apply Hk, leaves_cubby_put.
  - by apply Hk, leaves_putMeta.
  - by apply Hk, leaves_cubby_delete.
  - by apply pending_gc.
  - by apply Hk, leaves_mark.
  - apply Hk, always_ignore, (leaves_store id (λ _, False)); [by intros []..|]. apply always_pure; [apply _|]. apply Cubby_Get_pure.
  - destruct (decide (i = id)) as [->|Hne]; [by apply pending_peek|]. by apply Hk, always_ignore, leaves_getMeta.
Qed.

Lemma pending_run id exp data ps s : Forall (undisturbed id exp) ps → pending id exp data s → pending id exp data (wrap_run k attached ps s).
Proof. intros Hps. revert s. induction Hps as [|p ps Hp _ IH]; intros s Hs; [done|]. by apply IH, pending_part. Qed.

(** What a write of the metadata needs to succeed. *)
Record writable (fr : Fresh) id s : Prop := {
  wb_ring : ring_wf k;
  wb_id : fr_ID fr ≠ uuid_Nil;
  wb_rnd : good_entropy (fr_Rnd fr);
  wb_marshal : ∀ m, is_Ok (meta_marshal m);
  wb_room : max_version (wr_repo s) (metaPath id) < max_int;
}.

Lemma putMeta_succeeds fr id m s : writable fr id s → secrets_wf (wr_repo s) →
  (attached = true → cas_matches (wr_repo s) (metaPath id) (wm_casVersion m) = true) →
  ∃ s', putMetaLocked k attached fr id m s = (s', Ok tt).
Proof.
  intros [Hring Hid (dek & n1 & n2 & Hrnd & Hd & Hn1 & Hn2) Hmar Hroom] Hw Hcas. unfold putMetaLocked.
  unfold mbind at 1, prog_bind at 1, modify. destruct attached; simpl; [|by eexists].
  destruct (Hmar m) as [raw Hraw]. destruct (Open_later k k dek n1 n2 raw Hring) as (c & enc & Hs & Hc & He & _); [reflexivity|done..|].
  unfold mbind, prog_bind, lift. rewrite Hraw. rewrite Hrnd, Hs. unfold store, zoom, store_put. cbn [wr_repo set_wraps].
  destruct (PutAtomic_succeeds (wr_repo s) (meta_version fr id (c, enc)) (wm_casVersion m) 1) as (r' & v & ->); try done; [by apply Hcas|].
  by eexists.
Qed.

Lemma getMeta_pending id exp data s : pending id exp data s → ∃ s' m, getMetaLocked k attached id s = (s', Ok m) ∧
  wr_repo s' = wr_repo s ∧ wm_Used m = false ∧ wm_ExpiresAt m = exp ∧
  (attached = true → cas_matches (wr_repo s) (metaPath id) (wm_casVersion m) = true).
Proof.
  intros Hp. rewrite getMetaLocked_eq. unfold local_meta. destruct attached eqn:Ea.
  - destruct (pd_meta _ _ _ _ Hp Ea) as (sv & m & Hl & Hdm & Hu & He). rewrite Hl, Hdm. eexists _, _. split_and!; [done|done|done|done|].
    intros _. cbn [wm_casVersion meta_cas cas_matches]. unfold GetLatest in Hl. fold (latestNonDestroyedLocked (wr_repo s) (metaPath id)) in Hl.
    destruct (latestNonDestroyedLocked _ _); [|done]. injection Hl as ->. apply Z.eqb_refl.
  - destruct (pd_some _ _ _ _ Hp Ea) as [m El]. rewrite El. destruct (pd_local _ _ _ _ Hp _ El). by eexists _, _.
Qed.

Lemma mark_pending fr now id exp data s : pending id exp data s → now ≤ exp → writable fr id s → seals k (fr_Rnd fr) →
  ∃ s', mark_used k attached fr now id s = (s', Ok tt) ∧ secrets_wf (wr_repo s') ∧
    ∀ v, wr_repo s' !! (payloadPath id, v) = wr_repo s !! (payloadPath id, v).
Proof.
  intros Hp Hn Hwr Hse. destruct (getMeta_pending _ _ _ _ Hp) as (s1 & m & Hg & Hr & Hu & He & Hc).
  assert (Hw1 : secrets_wf (wr_repo s1)) by (rewrite Hr; apply (pd_wf _ _ _ _ Hp)).
  destruct (putMeta_succeeds fr id (meta_used m) s1) as [s' Hs'].
  { destruct Hwr. split; try done. by rewrite Hr. }
  { done. }
  { rewrite Hr. apply Hc. }
  exists s'. split.
  - unfold mark_used, mbind, prog_bind, guard_not, lift. rewrite Hg, Hu. cbn [reject]. rewrite He.
    unfold After. replace (exp <? now) with false by (symmetry; apply Z.ltb_ge; lia). exact Hs'.
  - destruct (putMeta_run _ _ _ _ _ _ _ _ Hw1 Hse Hs') as (_ & Hw' & Ho & _). split; [done|]. intros v. by rewrite Ho, Hr.
Qed.

Lemma Unwrap_pending subject fr now token exp data s : pending (hashWrap token) exp data s → hashWrap token ≠ "" → now ≤ exp →
  writable fr (hashWrap token) s → seals k (fr_Rnd fr) → (Unwrap k attached subject fr now token s).2 = Ok data.
Proof.
  intros Hp Hne Hn Hwr Hse. destruct (mark_pending fr now _ _ _ _ Hp Hn Hwr Hse) as (s1 & Hm & Hw1 & Ho).
  unfold Unwrap. unfold mbind at 1, prog_bind at 1. cbv zeta. rewrite Hm. unfold mbind at 1, prog_bind at 1, attempt, store, zoom.
  destruct (pd_data _ _ _ _ Hp) as (sv & plain & Hl & Hop & Hj).
  assert (Hget : (Cubby_Get k (hashWrap token) wrapPath (wr_repo s1)).2 = Ok data).
  { rewrite (Cubby_Get_at k _ _ _ _ Hne (storagePath_wrap _)). rewrite (GetLatest_same _ _ _ (pd_wf _ _ _ _ Hp) Hw1 Ho), Hl. cbn.
    rewrite Hop. cbn. by rewrite Hj. }
  destruct (Cubby_Get k (hashWrap token) wrapPath (wr_repo s1)) as [r x]. simpl in Hget. subst x. done.
Qed.
Lemma wrap_stored fr1 fr2 id payload m s s1 s2 u u' : secrets_wf (wr_repo s) → seals k (fr_Rnd fr1) → seals k (fr_Rnd fr2) →
  store (Cubby_Put k fr1 id wrapPath payload) s = (s1, Ok u) → putMeta k attached fr2 id m s1 = (s2, Ok u') →
  wm_Used m = false → pending id (wm_ExpiresAt m) payload s2.
Proof.
  intros Hw Hs1 Hs2 Hc Hm Hu. unfold store, zoom in Hc. destruct (Cubby_Put k fr1 id wrapPath payload (wr_repo s)) as [r x] eqn:Hp.
  injection Hc as <- ->. apply Cubby_Put_run in Hp as (_ & sp & raw & c & enc & v & Hsp & Hj & Hse & Hput).
  apply storagePath_wrap_iff in Hsp as ->. apply PutAtomic_read in Hput as (Hw1 & _ & Hlat & _); [|done|done]. cbn [sv_Path cubby_version] in Hlat.
  destruct (putMeta_run k attached fr2 id m (set_repo s r) _ _ Hw1 Hs2 Hm) as (Hl & Hw2 & Ho & Ha & _). cbn [wr_wraps wr_repo set_repo] in *. split.
  - done.
  - intros m'. rewrite Hl, lookup_insert_eq. by intros [= <-].
  - intros _. by rewrite Hl, lookup_insert_eq.
  - intros E. destruct (Ha E) as (sv & Hg & Hd & _). by exists sv, (meta_cas m None).
  - eexists (sv_with_version (cubby_version fr1 (payloadPath id) id (c, enc)) v), raw.
    split_and!; [|by apply (Hs1 _ _ _ Hse)|by apply json_roundtrip].
    rewrite (GetLatest_same r (wr_repo s2)); [exact Hlat|done|done|]. intros w. by apply Ho.
Qed.

Lemma Wrap_run subject raw now fr1 fr2 now3 payload ttl s s' x : secrets_wf (wr_repo s) → seals k (fr_Rnd fr1) → seals k (fr_Rnd fr2) →
  Wrap_ k attached subject raw now fr1 fr2 now3 payload ttl s = (s', Ok x) →
  wq_ExpiresAt x = now + clamp_ttl ttl ∧ (now3 ≤ wq_ExpiresAt x → pending (hashWrap (wq_Token x)) (wq_ExpiresAt x) payload s').
Proof.
  intros Hw Hs1 Hs2. unfold Wrap_. intros Hr. inv_run. cbn [wq_Token wq_ExpiresAt]. split; [done|]. intros Hn.
  match goal with H : store (Cubby_Put _ _ _ _ _) _ = _, H' : on_error _ _ _ = _ |- _ => rename H into Hc, H' into Hm end.
  unfold on_error in Hm. destruct (putMeta _ _ _ _ _ _) as [s2 [u|e]] eqn:Hp; [|by unfold mbind, prog_bind, ignore, raise in Hm].
  injection Hm as <- <-. assert (Hpd := wrap_stored _ _ _ _ _ _ _ _ _ _ Hw Hs1 Hs2 Hc Hp eq_refl). cbn [wm_ExpiresAt] in Hpd.
  apply (pending_gc _ _ _ _ _ Hn) in Hpd.
  match goal with H : gcExpiredLocked _ _ _ = _, H' : record_wrap _ _ _ _ _ = _ |- _ => injection H as <- _; injection H' as <- _ end.
  eapply pending_leaves; [|exact Hpd]. intros ?. by split_and!.
Qed.

Lemma clamp_ttl_bounds ttl : 0 < clamp_ttl ttl ≤ Hour.
Proof. unfold clamp_ttl, maxTTL, Hour, Minute, Second. case_all; bool_props; lia. Qed.

(** A wrapped payload is delivered. Between a wrap and the expiry of its token,
    which is at most an hour away, other requests and lookups may run in any
    order and expired tokens may be collected: an unwrap then returns the
    payload, provided the store can take the record of its use. *)
Theorem wrapped_payload_delivered subject raw now fr1 fr2 now3 payload ttl s s1 x ps subject' fr now' :
  secrets_wf (wr_repo s) → seals k (fr_Rnd fr1) → seals k (fr_Rnd fr2) → seals k (fr_Rnd fr) →
  Wrap_ k attached subject raw now fr1 fr2 now3 payload ttl s = (s1, Ok x) → hashWrap (wq_Token x) ≠ "" →
  now3 ≤ wq_ExpiresAt x → Forall (undisturbed (hashWrap (wq_Token x)) (wq_ExpiresAt x)) ps →
  now' ≤ wq_ExpiresAt x → writable fr (hashWrap (wq_Token x)) (wrap_run k attached ps s1) →
  now < wq_ExpiresAt x ≤ now + Hour ∧
  (Unwrap k attached subject' fr now' (wq_Token x) (wrap_run k attached ps s1)).2 = Ok payload.
Proof.
  intros Hw Hs1 Hs2 Hs Hr Hne Hn3 Hps Hn' Hwr. destruct (Wrap_run _ _ _ _ _ _ _ _ _ _ _ Hw Hs1 Hs2 Hr) as [He Hp].
  split; [rewrite He; assert (Hb := clamp_ttl_bounds ttl); lia|]. eapply Unwrap_pending; [|done|exact Hn'|done|done].
  apply pending_run; [done|]. by apply Hp.
Qed.
(** ** A collection between marking and reading *)

Lemma leaves_gc_others id now l s : (∀ x, x ∈ l → x.1 ≠ id) → leaves id s (foldl (gc_one attached now) s l).
Proof.
  revert s. induction l as [|x l IH]; intros s Hl; [done|]. cbn [foldl].
  etrans; [apply (leaves_gc_one id now x); apply Hl; by left|]. apply IH. intros y Hy. apply Hl. by right.
Qed.

Lemma gc_used_drops id now m s : wm_Used m = true → secrets_wf (wr_repo s) →
  secrets_wf (wr_repo (gc_one attached now s (id, m))) ∧
  GetLatest (wr_repo (gc_one attached now s (id, m))) (payloadPath id) = Err (New ErrCodeNotFound "secret version not found").
Proof.
  intros Hu Hw. unfold gc_one. rewrite Hu. cbn [orb]. cbn [wr_repo set_repo].
  assert (Hw1 : secrets_wf (wr_repo (gc_meta attached id s))).
  { unfold gc_meta. destruct attached; [|done]. destruct (GetLatest _ _); [|done]. unfold store_destroy.
    cbn [wr_repo set_wraps set_repo]. destruct (DestroyVersion _ _ _) eqn:Ed; cbn [fst wr_repo set_wraps set_repo]; [|done].
    by destruct (DestroyVersion_ok _ _ _ _ Hw Ed) as (? & _ & _ & _ & ?). }
  unfold Cubby_Delete, mbind, prog_bind, lift. rewrite storagePath_wrap.
  destruct (destroyAllVersions_of _ (payloadPath id) Hw1) as (r' & x & -> & Hr' & Hd). split; [done|].
  by apply (destroyed_no_latest _ r' _ _ Hr' Hd).
Qed.

(** Unwrapping is not atomic: when an expired-token collection of another wrap
    runs on the process after a token was marked used and before its payload was
    read, the payload is destroyed, so the caller gets an error and the secret is
    lost, never having been handed out. *)
Theorem unwrap_payload_lost fr now id exp data s now' :
  pending id exp data s → id ≠ "" → now ≤ exp → writable fr id s → seals k (fr_Rnd fr) →
  ∃ s1, mark_used k attached fr now id s = (s1, Ok tt) ∧
    (Cubby_Get k id wrapPath (wr_repo (gcExpiredLocked attached now' s1).1)).2 = Err (New ErrCodeNotFound "secret version not found").
Proof.
  intros Hp Hne Hn Hwr Hse. destruct (mark_pending fr now _ _ _ _ Hp Hn Hwr Hse) as (s1 & Hm & Hw1 & _). exists s1. split; [done|].
  assert (Hloc : ∃ m, wr_wraps s1 !! id = Some m ∧ wm_Used m = true).
  { unfold mark_used in Hm. inv_run. match goal with H : getMetaLocked _ _ _ _ = (?s0, _) |- _ =>
      assert (Hs0 : secrets_wf (wr_repo s0)) by (destruct (getMeta_pending _ _ _ _ Hp) as (? & ? & Hg & Hr & _); rewrite H in Hg;
        injection Hg as -> _; rewrite Hr; apply Hp) end.
    destruct (putMeta_run _ _ _ _ _ _ _ _ Hs0 Hse Hm) as (-> & _). rewrite lookup_insert_eq. by eexists. }
  destruct Hloc as (m & Hl & Hu). rewrite (Cubby_Get_at k _ _ _ _ Hne (storagePath_wrap _)). unfold gcExpiredLocked, modify. cbn [fst].
  apply elem_of_map_to_list, list_elem_of_split in Hl as (l1 & l2 & Hl).
  assert (Hnd := NoDup_fst_map_to_list (wr_wraps s1)). rewrite Hl, fmap_app, fmap_cons in Hnd. cbn [fst] in Hnd.
  apply NoDup_app in Hnd as (_ & Hdis & [Hn2 _]%NoDup_cons). rewrite Hl, foldl_app. cbn [foldl].
  assert (Hl1 : leaves id s1 (foldl (gc_one attached now') s1 l1)).
  { apply leaves_gc_others. intros x Hx E. apply (Hdis x.1); [by apply list_elem_of_fmap_2|]. rewrite E. by left. }
  destruct (Hl1 Hw1) as (Hwa & _ & _). destruct (gc_used_drops id now' m _ Hu Hwa) as [Hwb Hlost].
  assert (Hl2 : leaves id (gc_one attached now' (foldl (gc_one attached now') s1 l1) (id, m))
                 (foldl (gc_one attached now') (gc_one attached now' (foldl (gc_one attached now') s1 l1) (id, m)) l2)).
  { apply leaves_gc_others. intros x Hx E. apply Hn2. rewrite <-E. by apply list_elem_of_fmap_2. }
  destruct (Hl2 Hwb) as (Hwc & _ & R). rewrite (GetLatest_same _ _ (payloadPath id) Hwb Hwc); [by rewrite Hlost|]. intros v. apply R. by right.
Qed.
End delivery.

(** ** Examples *)

#[local] Existing Instance toy_aead.
#[local] Existing Instance toy_laws.
#[local] Existing Instance toy_json.
#[local] Existing Instance toy_json_laws.
#[local] Existing Instance toy_codec.

(** Metadata written as the binary digits of its code. *)
#[local] Instance toy_meta : MetaCodec := {|
  meta_marshal m := Ok (pos_bytes (encode (wm_ExpiresAt m, wm_Used m, wm_Creation m)));
  meta_unmarshal b := match decode (bytes_pos b) with Some (e, u, c) => Ok (mkWrapMeta e u c None) | None => Err (Plain "json") end
|}.
#[local] Instance toy_meta_laws : MetaCodecLaws.
Proof. split. intros m b [= <-]. simpl. by rewrite bytes_pos_bytes, decode_encode. Qed.

Definition demo_empty : Wrapping := NewWrappingService ∅ None.
Definition demo_wrapped_run : Wrapping * res WrapResult :=
  Wrap_ (demo_ring "a") true None (Ok (bytes_of "w1")) 1000 (demo_fresh 1 1000) (demo_fresh 2 1000) 1001 (demo_data "hunter2") Minute demo_empty.
Definition demo_wrapped : Wrapping := demo_wrapped_run.1.
Definition demo_wrap_token : string := "knxw_w1".
Definition demo_id : string := hashWrap demo_wrap_token.
Definition demo_wrap_result : WrapResult := mkWrapResult demo_wrap_token 60 1000 (1000 + Minute).

Lemma demo_wrapped_ok : demo_wrapped_run = (demo_wrapped, Ok demo_wrap_result).
Proof. unfold demo_wrapped, demo_wrapped_run. apply run_eq. vm_compute. reflexivity. Qed.

Lemma demo_wrapped_pending : pending (demo_ring "a") true demo_id (1000 + Minute) (demo_data "hunter2") demo_wrapped.
Proof.
  destruct (Wrap_run (demo_ring "a") true None (Ok (bytes_of "w1")) 1000 (demo_fresh 1 1000) (demo_fresh 2 1000) 1001 (demo_data "hunter2") Minute demo_empty _ _ secrets_wf_empty demo_seals demo_seals demo_wrapped_ok) as [_ Hp].
  by apply Hp.
Qed.

Lemma demo_writable fr_id now s : fr_id ≠ uuid_Nil → max_version (wr_repo s) (metaPath demo_id) < max_int →
  writable (demo_ring "a") (demo_fresh fr_id now) demo_id s.
Proof. intros Hid Hm. split; [apply demo_ring_wf|done|by exists (demo_key "d"), demo_nonce, demo_nonce|by eexists|done]. Qed.

(** Other traffic between a wrap and its unwrap. *)
Definition demo_parts : list wrap_part :=
  [PStore (demo_fresh 5 1200) "other" (demo_data "x"); PMeta (demo_fresh 6 1200) "other" (mkWrapMeta 1500 false 1200 None);
   PPeek demo_id; PGc 2000].

Lemma wrapped_payload_delivered_witness :
  (Unwrap (demo_ring "a") true None (demo_fresh 9 5000) 5000 demo_wrap_token (wrap_run (demo_ring "a") true demo_parts demo_wrapped)).2 =
  Ok (demo_data "hunter2").
Proof.
  refine (proj2 (wrapped_payload_delivered (demo_ring "a") true None (Ok (bytes_of "w1")) 1000 (demo_fresh 1 1000) (demo_fresh 2 1000) 1001
    (demo_data "hunter2") Minute demo_empty demo_wrapped demo_wrap_result demo_parts None (demo_fresh 9 5000) 5000
    secrets_wf_empty demo_seals demo_seals demo_seals demo_wrapped_ok _ _ _ _ _)).
  - discriminate.
  - discriminate.
  - repeat apply Forall_cons_2; cbn [undisturbed]; first [exact I|apply Forall_nil_2|discriminate].
  - discriminate.
  - apply demo_writable; [discriminate|]. vm_compute. reflexivity.
Defined.

Definition demo_marked : Wrapping := (mark_used (demo_ring "a") true (demo_fresh 9 5000) 5000 demo_id demo_wrapped).1.

Lemma unwrap_single_use_witness :
  ¬ is_Ok (Unwrap (demo_ring "a") true None (demo_fresh 10 6000) 6000 demo_wrap_token
             (wrap_run (demo_ring "a") true (PRead demo_id :: demo_parts) demo_marked)).2.
Proof.
  refine (proj2 (unwrap_single_use (demo_ring "a") true (demo_fresh 9 5000) 5000 demo_wrap_token demo_wrapped demo_marked tt
    (PRead demo_id :: demo_parts) (demo_fresh 10 6000) 6000 None (pd_wf _ _ _ _ _ _ demo_wrapped_pending) demo_seals _ _)).
  - unfold demo_marked. apply run_eq. vm_compute. reflexivity.
  - repeat apply Forall_cons_2; try exact I; [discriminate|apply Forall_nil_2].
Defined.

Lemma unwrap_payload_lost_witness : ∃ s1,
  mark_used (demo_ring "a") true (demo_fresh 9 5000) 5000 demo_id demo_wrapped = (s1, Ok tt) ∧
  (Cubby_Get (demo_ring "a") demo_id wrapPath (wr_repo (gcExpiredLocked true 5001 s1).1)).2 =
    Err (New ErrCodeNotFound "secret version not found").
Proof.
  apply (unwrap_payload_lost (demo_ring "a") true (demo_fresh 9 5000) 5000 demo_id (1000 + Minute) (demo_data "hunter2") demo_wrapped 5001
    demo_wrapped_pending); [discriminate|discriminate| |exact demo_seals].
  apply demo_writable; [discriminate|]. vm_compute. reflexivity.
Defined.

(** ** Two processes *)

(** Two processes with maps of their own over one store. *)
Definition two_nodes : Type := gmap string wrapMeta * gmap string wrapMeta * SecretRepository.

Definition on_first {A} (m : prog Wrapping A) (c : two_nodes) : two_nodes * res A :=
  let '(w1, w2, r) := c in let '(s, x) := m (mkWrapping w1 r None) in ((wr_wraps s, w2, wr_repo s), x).
Definition on_second {A} (m : prog Wrapping A) (c : two_nodes) : two_nodes * res A :=
  let '(w1, w2, r) := c in let '(s, x) := m (mkWrapping w2 r None) in ((w1, wr_wraps s, wr_repo s), x).

(** Across processes the single use of a token can be broken. The first process
    wraps; the second one marks the token used; a collection on the second one
    destroys the metadata and has not reached the payload yet; the first one,
    which finds no metadata in the store, trusts the unused record of its own
    map and marks the token as well; both read the payload. *)
Theorem wrap_disclosed_twice :
  let ring := demo_ring "a" in
  let c1 := (demo_wrapped.(wr_wraps), ∅, demo_wrapped.(wr_repo)) in
  let '(c2, marked2) := on_second (mark_used ring true (demo_fresh 9 5000) 5000 demo_id) c1 in
  let '(c3, _) := on_second (modify (gc_meta true demo_id)) c2 in
  let '(c4, marked1) := on_first (mark_used ring true (demo_fresh 11 5002) 5002 demo_id) c3 in
  let '(c5, read2) := on_second (store (Cubby_Get ring demo_id wrapPath)) c4 in
  let '(c6, read1) := on_first (store (Cubby_Get ring demo_id wrapPath)) c5 in
  marked2 = Ok tt ∧ marked1 = Ok tt ∧ read2 = Ok (demo_data "hunter2") ∧ read1 = Ok (demo_data "hunter2").
Proof. vm_compute. done. Qed.
