(* ===== verification/Credentials.v ===== *)
(** What the dynamic credential engines (database and SSH) share: the
    repositories they work on, the quota check of
    internal/engine/secrets/leaseutil, and the storage of issued credentials,
    which both engines write with the same code (storeSecret, destroySecret and
    newLeaseID of internal/engine/secrets/database/engine.go).

    [Vault] is the state of a process that runs the engines and the lease
    service: the role, lease and secret repositories, the statements the SQL
    runner has executed, and the audit sink. *)

From S2P Require Import Prelude.
From S2P Require Import Effects.
From S2P Require Import GoLib.
From S2P Require Import Domain.
From S2P Require Import DynamicRoles.
From S2P Require Import Repos.
From S2P Require Import AuditHelper.
From S2P Require Import TokenStore.
From S2P Require Import SecretRepo.
From S2P Require Import Crypto.
From S2P Require Import KVEngine.
From S2P Require Import Cubbyhole.

#[local] Open Scope Z_scope.

Record Vault := mkVault {
  vt_dbroles : gmap string DatabaseRole;
  vt_sshroles : gmap string SSHRole;
  vt_leases : gmap string Lease;
  vt_secrets : SecretRepository;
  vt_sql : list (string * string);
  vt_audit : AuditSink;
}.

Section setters.
Implicit Type s : Vault.
Definition set_dbroles s m := mkVault m (vt_sshroles s) (vt_leases s) (vt_secrets s) (vt_sql s) (vt_audit s).
Definition set_sshroles s m := mkVault (vt_dbroles s) m (vt_leases s) (vt_secrets s) (vt_sql s) (vt_audit s).
Definition set_leases s m := mkVault (vt_dbroles s) (vt_sshroles s) m (vt_secrets s) (vt_sql s) (vt_audit s).
Definition set_secrets s m := mkVault (vt_dbroles s) (vt_sshroles s) (vt_leases s) m (vt_sql s) (vt_audit s).
Definition set_sql s m := mkVault (vt_dbroles s) (vt_sshroles s) (vt_leases s) (vt_secrets s) m (vt_audit s).
Definition set_audit s m := mkVault (vt_dbroles s) (vt_sshroles s) (vt_leases s) (vt_secrets s) (vt_sql s) m.
End setters.

Abbreviation V := (prog Vault).

(** Calls of a repository that keep it as it was when they fail. *)
Definition secrets {A} (m : Store A) : V A := zoom vt_secrets set_secrets m.
Definition on_leases (call : gmap string Lease → res (gmap string Lease)) : V unit := λ s,
  match call (vt_leases s) with
  | Ok m => (set_leases s m, Ok tt)
  | Err e => (s, Err e)
  end.
Definition lease_get (id : string) : V Lease := λ s, (s, LeaseRepository_Get (vt_leases s) id).
Definition lease_save (l : Lease) : V unit := on_leases (λ m, LeaseRepository_Save m l).
Definition lease_revoke_at (id : string) (at_ : Time) : V unit := on_leases (λ m, LeaseRepository_Revoke m id at_).

Definition audit {A} (subject : option string) (action resource : string) (err : res A) (details : list (string * any)) : V unit :=
  modify (λ s, set_audit s (audithelper_Record (vt_audit s) subject action resource err details)).

(** Members of a decoded JSON object. *)
Definition obj_get (key : string) (d : object) : option any := snd <$> find (λ kv, kv.1 =s key) d.
Definition obj_set (key : string) (v : any) (d : object) : object :=
  if existsb (λ kv, kv.1 =s key) d then (λ kv, if kv.1 =s key then (key, v) else kv) <$> d else d ++ [(key, v)].

(** [s, _ := data[key].(string)]. *)
Definition str_field (key : string) (d : object) : string := default "" (as_string (obj_get key d)).

(** ** leaseutil.go *)

Definition CountActiveLeasesForRole (leases : gmap string Lease) (now : Time) (engine role : string) : Z :=
  Z.of_nat (length (filter (λ l, lease_Engine l = engine ∧ lease_RoleName l = role ∧ Lease_Active l now = true)
                           (LeaseRepository_List leases))).

Definition CheckMaxLeases (now : Time) (engine role : string) (tuning : LeaseTuning) : V unit := λ s,
  (s, if lt_MaxLeases tuning <=? 0 then Ok tt
      else reject (lt_MaxLeases tuning <=? CountActiveLeasesForRole (vt_leases s) now engine role)
             (New ErrCodeForbidden "max_leases quota exceeded for role")).

(** ** Stored credentials *)

Section stored.
Context `{Aead} `{Json} {codec : TokenCodec} (k : KeyRing).

(** [now.Add(time.Duration(ttl) * time.Second)]. *)
Definition plus_seconds (now : Time) (ttlSeconds : Z) : Time := now + wrap64 (ttlSeconds * Second).

Definition creds_version (fr : Fresh) (path leaseID : string) (ttlSeconds : Z) (expiresAt : Time) (ce : bytes * bytes) : SecretVersion :=
  mkSecretVersion (fr_ID fr) path 0 ce.1 ce.2 (Some leaseID) (Some ttlSeconds) (fr_Now fr) (Some expiresAt) false ∅.

Definition storeSecret (fr : Fresh) (path leaseID : string) (ttlSeconds : Z) (expiresAt : Time) (data : object) : V unit :=
  payload ← lift (wrap_internal "marshal credentials" (json_marshal data));
  ce ← lift (wrap_internal "encrypt credentials" (Seal k (fr_Rnd fr) payload));
  _ ← secrets (store_put (creds_version fr path leaseID ttlSeconds expiresAt ce) None 0);
  mret tt.

(** A store read, decryption and decoding of what an engine keeps. *)
Definition open_object (decrypt unmarshal : string) (sv : SecretVersion) : res object :=
  plain ← wrap_internal decrypt (Open k (sv_DataEnc sv) (sv_DEKEnc sv));
  wrap_internal unmarshal (json_unmarshal plain).

Definition newLeaseID (raw : res bytes) : res string :=
  match raw with Ok b => Ok ("l_" +:+ RawURLEncode b) | Err e => Err e end.
End stored.

Definition destroySecret (path : string) : V unit := λ s,
  match GetLatest (vt_secrets s) path with
  | Err _ => (s, Ok tt)
  | Ok latest =>
      if sv_Destroyed latest then (s, Ok tt)
      else secrets (store_destroy path (sv_Version latest)) s
  end.

(** A lease with another lifetime. *)
Definition lease_extend (l : Lease) (ttlSeconds : Z) (expiresAt : Time) : Lease :=
  mkLease (lease_ID l) (lease_Path l) (lease_RoleName l) (lease_Engine l) ttlSeconds (lease_CreatedAt l) expiresAt
    (lease_RevokedAt l) (lease_Renewable l) (lease_TokenID l) (lease_Metadata l).

(** An operation of the engine and the event that records its outcome. *)
Definition recorded {A} (subject : option string) (action resource : string) (details : res A → list (string * any)) (m : V A) : V A := λ s,
  let '(s1, x) := m s in ((audit subject action resource x (details x) s1).1, x).

(** ** The invariant of the repositories *)

Record vault_wf `{UrlParser} (s : Vault) : Prop := {
  vw_dbroles : keyed_wf (vt_dbroles s);
  vw_sshroles : keyed_wf (vt_sshroles s);
  vw_leases : keyed_wf (vt_leases s);
  vw_secrets : secrets_wf (vt_secrets s);
}.

(** A lease as later operations may leave it: it keeps its identity, and once
    revoked it stays so. *)
Definition lease_later (l l' : Lease) : Prop :=
  lease_ID l' = lease_ID l ∧ lease_Path l' = lease_Path l ∧ lease_RoleName l' = lease_RoleName l ∧ lease_Engine l' = lease_Engine l ∧
  lease_TokenID l' = lease_TokenID l ∧ lease_CreatedAt l' = lease_CreatedAt l ∧
  (lease_RevokedAt l ≠ None → lease_RevokedAt l' ≠ None ∧ lease_ExpiresAt l' = lease_ExpiresAt l).

#[global] Instance lease_later_preorder : PreOrder lease_later.
Proof. unfold lease_later. split; [by intros l; split_and!|]. intros l1 l2 l3 H12 H23. destruct_and!. split_and!; try congruence; intuition congruence. Qed.

Lemma lease_later_revoke l at_ : lease_later l (lease_revoke l at_).
Proof. by split_and!. Qed.

Lemma on_leases_ok call s s' u : on_leases call s = (s', Ok u) ↔ ∃ m, call (vt_leases s) = Ok m ∧ s' = set_leases s m.
Proof. unfold on_leases. destruct u, (call (vt_leases s)) as [m|e]; naive_solver. Qed.

Lemma lease_save_ok l s s' u : lease_save l s = (s', Ok u) →
  Lease_Validate l = Ok tt ∧ s' = set_leases s (<[lease_ID l := l]> (vt_leases s)).
Proof.
  unfold lease_save. intros (m & Hm & ->)%on_leases_ok. unfold LeaseRepository_Save in Hm. apply keyed_Save_ok in Hm as (a' & Hv & ->).
  simpl in Hv. apply checked_ok in Hv as [Hv ->]. done.
Qed.

Lemma lease_revoke_at_ok id at_ s s' u : lease_revoke_at id at_ s = (s', Ok u) →
  ∃ l, vt_leases s !! id = Some l ∧ s' = set_leases s (<[id := lease_revoke l at_]> (vt_leases s)).
Proof.
  unfold lease_revoke_at. intros (m & Hm & ->)%on_leases_ok. unfold LeaseRepository_Revoke, keyed_Alter in Hm.
  destruct (vt_leases s !! id) as [l|] eqn:E; [|done]. injection Hm as <-. by exists l.
Qed.

Lemma lease_get_ok id s s' l : lease_get id s = (s', Ok l) ↔ s' = s ∧ vt_leases s !! id = Some l.
Proof. unfold lease_get, LeaseRepository_Get, keyed_Get. destruct (vt_leases s !! id) as [l'|]; naive_solver. Qed.

(** What a step may do to the leases: none disappears and each is later. *)
Definition leases_later : relation Vault := λ s s', ∀ id l, vt_leases s !! id = Some l →
  ∃ l', vt_leases s' !! id = Some l' ∧ lease_later l l'.
#[global] Instance leases_later_preorder : PreOrder leases_later.
Proof.
  split; [intros s id l Hl; by exists l|]. intros s1 s2 s3 H12 H23 id l Hl. destruct (H12 id l Hl) as (l2 & Hl2 & E2).
  destruct (H23 id l2 Hl2) as (l3 & Hl3 & E3). exists l3. split; [done|by etrans].
Qed.

Lemma leases_later_same s s' : vt_leases s' = vt_leases s → leases_later s s'.
Proof. intros E id l Hl. rewrite E. by exists l. Qed.

Lemma leases_later_insert s s' l l' : vt_leases s' = <[lease_ID l := l']> (vt_leases s) →
  (∀ l0, vt_leases s !! lease_ID l = Some l0 → lease_later l0 l') → leases_later s s'.
Proof.
  intros E Hl id l0 Hl0. rewrite E. destruct (decide (id = lease_ID l)) as [->|Hne].
  - rewrite lookup_insert_eq. exists l'. split; [done|by apply Hl].
  - rewrite lookup_insert_ne by done. by exists l0.
Qed.

Section vault.
Context `{UrlParser}.

Lemma vault_wf_secrets s r : vault_wf s → secrets_wf r → vault_wf (set_secrets s r).
Proof. intros [] ?. by split. Qed.
Lemma vault_wf_leases s m : vault_wf s → keyed_wf m → vault_wf (set_leases s m).
Proof. intros [] ?. by split. Qed.
Lemma vault_wf_audit s a : vault_wf s → vault_wf (set_audit s a).
Proof. intros []. by split. Qed.
Lemma vault_wf_sql s a : vault_wf s → vault_wf (set_sql s a).
Proof. intros []. by split. Qed.

Lemma preserves_store_put sv cas maxv : sv_Destroyed sv = false → preserves vault_wf (secrets (store_put sv cas maxv)).
Proof.
  intros Hd s Hs. unfold secrets, zoom. destruct (confined_store_put (λ _, True) sv cas maxv I Hd _ (vw_secrets _ Hs)) as [Hr _].
  destruct (store_put sv cas maxv (vt_secrets s)). by apply vault_wf_secrets.
Qed.

Lemma preserves_destroySecret path : preserves vault_wf (destroySecret path).
Proof.
  intros s Hs. unfold destroySecret. destruct (GetLatest _ _) as [sv|]; [|done]. destruct (sv_Destroyed sv); [done|].
  unfold secrets, zoom, store_destroy. destruct (DestroyVersion _ _ _) as [r|] eqn:E; simpl; [|by destruct s].
  apply vault_wf_secrets; [done|]. by destruct (DestroyVersion_ok _ _ _ _ (vw_secrets _ Hs) E) as (? & _ & _ & _ & ?).
Qed.

Lemma preserves_lease_save l : preserves vault_wf (lease_save l).
Proof.
  intros s Hs. unfold lease_save, on_leases. destruct (LeaseRepository_Save _ _) eqn:E; [|done].
  apply vault_wf_leases; [done|]. eapply keyed_Save_wf; [apply Hs|exact E].
Qed.

Lemma lease_revoke_valid l at_ : ent_validate l = Ok l → ent_key (lease_revoke l at_) = ent_key l ∧
  ent_validate (lease_revoke l at_) = Ok (lease_revoke l at_).
Proof. intros Hv. split; [done|]. apply checked_ok in Hv as [Hv _]. apply checked_ok. done. Qed.

Lemma preserves_lease_revoke id at_ : preserves vault_wf (lease_revoke_at id at_).
Proof.
  intros s Hs. unfold lease_revoke_at, on_leases. destruct (LeaseRepository_Revoke _ _ _) eqn:E; [|done].
  apply vault_wf_leases; [done|]. eapply keyed_Alter_wf; [|apply Hs|exact E]. intros l Hl. by apply lease_revoke_valid.
Qed.

Lemma preserves_pure {A} (m : V A) : (∀ s, (m s).1 = s) → preserves vault_wf m.
Proof. intros Hm. apply always_pure; [apply _|done]. Qed.

Lemma preserves_CheckMaxLeases now engine role t : preserves vault_wf (CheckMaxLeases now engine role t).
Proof. by apply preserves_pure. Qed.
Lemma preserves_lease_get id : preserves vault_wf (lease_get id).
Proof. by apply preserves_pure. Qed.
Lemma preserves_latest path : preserves vault_wf (secrets (store_latest path)).
Proof. apply preserves_pure. by intros []. Qed.

Lemma preserves_storeSecret `{Aead} `{Json} k fr path leaseID ttl exp data : preserves vault_wf (storeSecret k fr path leaseID ttl exp data).
Proof.
  unfold storeSecret. apply always_bind; [apply _|auto with prog|intros p]. apply always_bind; [apply _|auto with prog|intros ce].
  apply always_bind; [apply _| |auto with prog]. by apply preserves_store_put.
Qed.

Lemma preserves_audit {A} subject action resource (err : res A) details : preserves vault_wf (audit subject action resource err details).
Proof. apply always_modify. intros s Hs. by apply vault_wf_audit. Qed.
End vault.

#[export] Hint Resolve preserves_destroySecret preserves_lease_save preserves_lease_revoke preserves_CheckMaxLeases preserves_lease_get
  preserves_latest preserves_storeSecret preserves_audit : prog.

(** Destroying the newest version of a path succeeds and changes nothing else. *)
Lemma destroySecret_run path s : secrets_wf (vt_secrets s) → destroySecret path s =
  (match GetLatest (vt_secrets s) path with
   | Ok m => set_secrets s (<[(path, sv_Version m) := sv_destroy m]> (vt_secrets s))
   | Err _ => s
   end, Ok tt).
Proof.
  intros Hw. unfold destroySecret. destruct (GetLatest (vt_secrets s) path) as [m|e] eqn:E; [|done].
  assert (Hl : live (vt_secrets s) path (sv_Version m) m).
  { assert (Hs := latest_spec (vt_secrets s) path Hw). unfold GetLatest in E. fold (latestNonDestroyedLocked (vt_secrets s) path) in E.
    destruct (latestNonDestroyedLocked (vt_secrets s) path); [|done]. injection E as ->. by destruct Hs. }
  destruct Hl as [Hl Hd]. rewrite Hd. unfold secrets, zoom, store_destroy, DestroyVersion. by rewrite Hl, Hd.
Qed.

(** ** Runs of the shared operations *)

Section runs.
Implicit Types (s : Vault) (l : Lease).

Lemma storeSecret_ok `{Aead} `{Json} `{UrlParser} k fr path leaseID ttl exp data s s' u : vault_wf s → storeSecret k fr path leaseID ttl exp data s = (s', Ok u) →
  ∃ payload c enc, let v := max_version (vt_secrets s) path + 1 in
    let sv := sv_with_version (creds_version fr path leaseID ttl exp (c, enc)) v in
    json_marshal data = Ok payload ∧ Seal k (fr_Rnd fr) payload = Ok (c, enc) ∧
    s' = set_secrets s (<[(path, v) := sv]> (vt_secrets s)) ∧ secrets_wf (vt_secrets s') ∧ GetLatest (vt_secrets s') path = Ok sv.
Proof.
  intros Hw. unfold storeSecret. intros Hs. inv_run. repeat match goal with Hx : wrap_internal _ _ = Ok _ |- _ => apply wrap_internal_ok in Hx end.
  match goal with Hx : Seal _ _ _ = Ok ?ce |- _ => destruct ce as [c enc] end.
  match goal with Hx : secrets _ ?s0 = (s', _) |- _ => unfold secrets, zoom in Hx;
    destruct (store_put _ _ _ (vt_secrets s0)) as [r y] eqn:Hput; injection Hx as <- ->; rename s0 into t end.
  apply store_put_ok in Hput. cbn [vt_secrets set_secrets]. eexists _, c, enc. cbv zeta.
  destruct (PutAtomic_ok _ _ _ _ _ _ (vw_secrets _ Hw) Hput) as (_ & -> & _ & _ & Hr). simpl in Hr.
  apply PutAtomic_read in Hput as (Hwr & _ & Hlat & _); [|apply Hw|done]. split_and!; [done|done|by rewrite Hr|done|exact Hlat].
Qed.

Lemma CheckMaxLeases_ok now engine role t s s' u : CheckMaxLeases now engine role t s = (s', Ok u) →
  s' = s ∧ (0 < lt_MaxLeases t → CountActiveLeasesForRole (vt_leases s) now engine role < lt_MaxLeases t).
Proof.
  unfold CheckMaxLeases. destruct (Z.leb_spec (lt_MaxLeases t) 0); intros Hc; injection Hc as <- Hc; (split; [done|]); [lia|].
  intros _. destruct (Z.leb_spec (lt_MaxLeases t) (CountActiveLeasesForRole (vt_leases s) now engine role)); [done|done].
Qed.

Lemma ResolveIssueTTL_bounds t requested ttl : ResolveIssueTTL t requested = Ok ttl → 0 < ttl ≤ lt_MaxTTL t.
Proof. unfold ResolveIssueTTL. intros Hr. case_all_in Hr; bool_props; simplify_eq; lia. Qed.

(** A vault with a lease marked revoked, and one with the newest version of a
    path destroyed. *)
Definition marked (now : Time) (id : string) l s : Vault := set_leases s (<[id := lease_revoke l now]> (vt_leases s)).
Definition dropped (path : string) s : Vault := (destroySecret path s).1.

Lemma dropped_fields path s : vt_leases (dropped path s) = vt_leases s ∧ vt_sql (dropped path s) = vt_sql s ∧ vt_dbroles (dropped path s) = vt_dbroles s.
Proof.
  unfold dropped, destroySecret. destruct (GetLatest _ _) as [m|]; [|done]. destruct (sv_Destroyed m); [done|].
  unfold secrets, zoom. by destruct (store_destroy _ _ _).
Qed.

Lemma dropped_secrets path s : secrets_wf (vt_secrets s) → vt_secrets (dropped path s) =
  match GetLatest (vt_secrets s) path with Ok m => <[(path, sv_Version m) := sv_destroy m]> (vt_secrets s) | Err _ => vt_secrets s end.
Proof. intros Hw. unfold dropped. rewrite destroySecret_run by done. by destruct (GetLatest _ _). Qed.

Lemma drop_then {A} path (a : A) s : secrets_wf (vt_secrets s) → (_ ← destroySecret path; mret a) s = (dropped path s, Ok a).
Proof. intros Hw. unfold mbind, prog_bind, dropped. by rewrite destroySecret_run. Qed.

End runs.

(** ** Examples *)

(** JSON for objects whose members are texts. *)
Definition text_member (kv : string * any) : option (string * string) := match kv.2 with VStr s => Some (kv.1, s) | _ => None end.
Definition member_of_text (kv : string * string) : string * any := (kv.1, VStr kv.2).

Lemma members_of_texts d l : mapM text_member d = Some l → member_of_text <$> l = d.
Proof.
  revert l. induction d as [|[key v] d IH]; intros l; [by intros [= <-]|]. simpl. destruct v; try done. simpl.
  destruct (mapM text_member d) as [l'|]; [|done]. intros [= <-]. cbn. by rewrite (IH l').
Qed.

#[local] Instance text_json : Json := {|
  json_marshal d := match mapM text_member d with Some l => Ok (pos_bytes (encode l)) | None => Err (Plain "unsupported") end;
  json_unmarshal b := match decode (bytes_pos b) with Some l => Ok (member_of_text <$> l) | None => Err (Plain "invalid") end
|}.
#[local] Instance text_json_laws : JsonLaws.
Proof.
  split. intros d b. simpl. destruct (mapM text_member d) as [l|] eqn:E; [|done]. intros [= <-].
  rewrite bytes_pos_bytes, decode_encode. by rewrite (members_of_texts _ _ E).
Qed.

Definition empty_vault : Vault := mkVault ∅ ∅ ∅ ∅ [] (Some []).
Lemma empty_vault_wf `{UrlParser} : vault_wf empty_vault.
Proof. by split. Qed.
