(* ===== verification/Secrets.v ===== *)
(** The secrets service, internal/service/secrets.go: the KV engine behind tenant
    scoping, audit and a read-through cache; and the repository wrapper
    internal/repository/tenant/secret.go.

    The state is [Secrets]: the vault whose secret repository and audit log the
    service shares with the other engines, the cache when one is set, and the
    counters of invalidations by path. JSON of a read result is a parameter. *)

From S2P Require Import Prelude.
From S2P Require Import Effects.
From S2P Require Import GoLib.
From S2P Require Import Domain.
From S2P Require Import Lockout.
From S2P Require Import Cache.
From S2P Require Import DynamicRoles.
From S2P Require Import Repos.
From S2P Require Import AuditHelper.
From S2P Require Import Tenant.
From S2P Require Import TokenStore.
From S2P Require Import SecretRepo.
From S2P Require Import Crypto.
From S2P Require Import KVEngine.
From S2P Require Import Cubbyhole.
From S2P Require Import Credentials.

#[local] Open Scope Z_scope.

(** ** internal/service/secrets.go *)

(** [json.Marshal] and [json.Unmarshal] of a read result. *)
Class ResultJson := {
  result_marshal : GetResult → res bytes;
  result_unmarshal : bytes → res GetResult;
}.
Class ResultJsonLaws `{ResultJson} := {
  result_roundtrip : ∀ r b, result_marshal r = Ok b → result_unmarshal b = Ok r;
}.

Record Secrets (C : Type) := mkSecrets {
  ss_vault : Vault;
  ss_cache : option C;
  ss_cacheGen : gmap string Z;
}.
Arguments mkSecrets {C}.
Arguments ss_vault {C}.
Arguments ss_cache {C}.
Arguments ss_cacheGen {C}.

Definition cacheKey (path : string) (version : Z) : string := "kv:" +:+ path +:+ ":v" +:+ Itoa version.

Definition scopePath (tenantMode : bool) (cx : TenantCtx) (path : string) : res string :=
  if negb tenantMode then Ok path
  else if cx_tenant cx =s "" then Err (New ErrCodeValidation "tenant namespace required")
  else
    let scoped := ScopePath (cx_tenant cx) path true in
    if negb (ValidateAccess (cx_tenant cx) scoped true) then Err (New ErrCodeNotFound "secret not found") else Ok scoped.

Section service.
Context {C : Type} `{CacheStore C}.
Implicit Type s : Secrets C.
Abbreviation M := (prog (Secrets C)).

Definition ss_repo s : SecretRepository := vt_secrets (ss_vault s).
Definition set_vault s (v : Vault) : Secrets C := mkSecrets v (ss_cache s) (ss_cacheGen s).
Definition set_cache s (c : C) : Secrets C := mkSecrets (ss_vault s) (Some c) (ss_cacheGen s).

Definition on_vault {A} (m : V A) : M A := zoom ss_vault set_vault m.

Definition SetCache s (store : option C) : Secrets C := mkSecrets (ss_vault s) store (ss_cacheGen s).

(** A call of the engine; a call that fails changes nothing. *)
Definition kv_call {A} (f : SecretRepository → res (SecretRepository * A)) : M A := λ s,
  match f (ss_repo s) with
  | Ok (r, a) => (set_vault s (set_secrets (ss_vault s) r), Ok a)
  | Err e => (s, Err e)
  end.

Definition ss_record {A} (subject : option string) (action resource : string) (err : res A) (details : list (string * any)) : M unit :=
  on_vault (audit subject action resource err details).

Definition cacheGenFor s (path : string) : Z := default 0 (ss_cacheGen s !! path).

(** The counter is a [uint64]. *)
Definition bumpCacheGen s (path : string) : Secrets C :=
  mkSecrets (ss_vault s) (ss_cache s) (<[path := (cacheGenFor s path + 1) mod 2 ^ 64]> (ss_cacheGen s)).

Definition delete_versions (path : string) (c : C) (versions : list VersionMetadata) : C :=
  foldl (λ c v, cs_Delete c (cacheKey path (vm_Version v))) c versions.

Definition invalidateCache (path : string) : M unit := modify (λ s,
  match ss_cache s with
  | None => s
  | Some c =>
      let s := bumpCacheGen s path in
      let c := cs_Delete c (cacheKey path 0) in
      match KV_ListVersions (ss_repo s) path with
      | Ok versions => set_cache s (delete_versions path c versions)
      | Err _ => set_cache s c
      end
  end).

(** A change through the engine, then the invalidation when it succeeded, then
    the event with its outcome. *)
Definition kv_write {A} (subject : option string) (action path : string) (details : list (string * any))
    (f : SecretRepository → res (SecretRepository * A)) : M A :=
  result ← attempt (kv_call f);
  _ ← when (is_ok result) (invalidateCache path);
  _ ← ss_record subject action ("secrets/kv/" +:+ path) result details;
  lift result.

Context `{Aead} `{Json} `{ResultJson} (parse_duration : string → option Duration) (k : KeyRing) (tenantMode : bool).

Definition Secrets_Put (cx : TenantCtx) (subject : option string) (fr : Fresh) (path : string) (data : object) (opts : PutOptions) : M Z :=
  path ← lift (scopePath tenantMode cx path);
  kv_write subject "secret.write" path [] (λ r, KV_Put parse_duration r k (fr_ID fr) (fr_Now fr) (fr_Rnd fr) path data opts).

(** The clock as the cache lookup, the engine and the cache write read it. *)
Record ReadClock := mkReadClock { rc_lookup : Time; rc_engine : Time; rc_store : Time }.

(** The cached result, when there is one and it can be decoded. *)
Definition cached_result s (now : Time) (path : string) (version : Z) : option GetResult :=
  match ss_cache s with
  | None => None
  | Some c =>
      match cs_Get c now (cacheKey path version) with
      | None => None
      | Some raw => match result_unmarshal raw with Ok r => Some r | Err _ => None end
      end
  end.

(** [s.cache.Set] of a result that can be encoded. *)
Definition cache_result (now : Time) (path : string) (version : Z) (result : GetResult) : M unit := modify (λ s,
  match ss_cache s, result_marshal result with
  | Some c, Ok raw => set_cache s (cs_Set c now (cacheKey path version) raw (5 * Minute))
  | _, _ => s
  end).

(** The end of a read that missed: [readGen] is the count of invalidations at
    its start. *)
Definition fill_cache (now : Time) (path : string) (version : Z) (readGen : Z) (result : res GetResult) : M unit :=
  match result with
  | Err _ => mret tt
  | Ok r =>
      same ← gets (λ s, bool_decide (ss_cache s ≠ None) && (cacheGenFor s path =? readGen));
      when same (cache_result now path version r)
  end.

Definition getVersion (cx : TenantCtx) (subject : option string) (clk : ReadClock) (path : string) (version : Z) : M GetResult :=
  path ← lift (scopePath tenantMode cx path);
  readGen ← gets (λ s, cacheGenFor s path);
  hit ← gets (λ s, cached_result s (rc_lookup clk) path version);
  match hit with
  | Some r =>
      _ ← ss_record subject "secret.read" ("secrets/kv/" +:+ path) (Ok tt) [("cached", VBool true); ("version", VNum version)];
      mret r
  | None =>
      result ← gets (λ s, KV_GetVersion (ss_repo s) k (rc_engine clk) path version);
      _ ← fill_cache (rc_store clk) path version readGen result;
      _ ← ss_record subject "secret.read" ("secrets/kv/" +:+ path) result [("version", VNum version)];
      lift result
  end.

Definition Secrets_Get cx subject clk path : M GetResult := getVersion cx subject clk path 0.
Definition Secrets_GetVersion cx subject clk path (version : Z) : M GetResult := getVersion cx subject clk path version.

(** A read of the engine. *)
Definition kv_peek {A} (f : SecretRepository → res A) : M A := λ s, (s, f (ss_repo s)).

(** A read of the engine and the event that records its outcome. *)
Definition kv_read {A} (subject : option string) (action resource : string) (details : list (string * any)) (f : SecretRepository → res A) : M A :=
  result ← gets (λ s, f (ss_repo s));
  _ ← ss_record subject action resource result details;
  lift result.

Definition Secrets_ListPaths (cx : TenantCtx) (subject : option string) (prefix : string) : M (list string) :=
  prefix ← lift (scopePath tenantMode cx prefix);
  kv_read subject "secret.list" "secrets/kv/" [("prefix", VStr prefix)] (λ r, KV_ListPaths r prefix).

Definition Secrets_ListVersions (cx : TenantCtx) (subject : option string) (path : string) : M (list VersionMetadata) :=
  path ← lift (scopePath tenantMode cx path);
  kv_read subject "secret.versions" ("secrets/kv/" +:+ path) [] (λ r, KV_ListVersions r path).

(** No labels and no label at all are both the empty map. *)
Definition LabelsForPath (cx : TenantCtx) (path : string) : M (gmap string string) :=
  scoped ← lift (scopePath tenantMode cx path);
  meta ← kv_peek (λ r, KV_GetMetadata r scoped 0);
  mret (pm_Labels meta).

Definition Secrets_GetMetadata (cx : TenantCtx) (subject : option string) (path : string) (version : Z) : M PathMetadata :=
  path ← lift (scopePath tenantMode cx path);
  kv_read subject "secret.metadata" ("secrets/kv/" +:+ path) [] (λ r, KV_GetMetadata r path version).

Definition Secrets_DestroyVersion (cx : TenantCtx) (subject : option string) (path : string) (version : Z) : M unit :=
  path ← lift (scopePath tenantMode cx path);
  kv_write subject "secret.destroy" path [("version", VNum version)] (λ r, r ← KV_DestroyVersion r path version; Ok (r, tt)).

Definition Secrets_Delete (cx : TenantCtx) (subject : option string) (path : string) : M unit :=
  scoped ← lift (scopePath tenantMode cx path);
  kv_write subject "secret.delete" scoped [] (λ r, r ← KV_Delete r scoped; Ok (r, tt)).
End service.

(** ** internal/repository/tenant/secret.go *)

Section tenantrepo.
Context (ns : string).

(** The wrapper exists only when scoping is enabled. *)
Definition tenant_scope (path : string) : res string :=
  let path := ScopePath ns path true in
  if negb (ValidateAccess ns path true) then Err (New ErrCodeNotFound "secret not found") else Ok path.

Definition sv_with_path (sv : SecretVersion) (path : string) : SecretVersion :=
  mkSecretVersion (sv_ID sv) path (sv_Version sv) (sv_DataEnc sv) (sv_DEKEnc sv) (sv_LeaseID sv) (sv_TTLSeconds sv) (sv_CreatedAt sv)
    (sv_ExpiresAt sv) (sv_Destroyed sv) (sv_Labels sv).

Definition Tenant_SaveVersion (r : SecretRepository) (sv : SecretVersion) : res SecretRepository :=
  p ← tenant_scope (sv_Path sv); SaveVersion r (sv_with_path sv p).
Definition Tenant_PutAtomic (r : SecretRepository) (sv : SecretVersion) (cas : option Z) (maxVersions : Z) : res (SecretRepository * Z) :=
  p ← tenant_scope (sv_Path sv); PutAtomic r (sv_with_path sv p) cas maxVersions.
Definition Tenant_GetLatest (r : SecretRepository) (path : string) : res SecretVersion :=
  p ← tenant_scope path; GetLatest r p.
Definition Tenant_GetVersion (r : SecretRepository) (path : string) (version : Z) : res SecretVersion :=
  p ← tenant_scope path; GetVersion r p version.
Definition Tenant_ListByPath (r : SecretRepository) (pathPrefix : string) : res (list SecretVersion) :=
  p ← tenant_scope pathPrefix; Ok (ListByPath r p).
Definition Tenant_NextVersion (r : SecretRepository) (path : string) : res Z :=
  p ← tenant_scope path; Ok (NextVersion r p).
Definition Tenant_DestroyVersion (r : SecretRepository) (path : string) (version : Z) : res SecretRepository :=
  p ← tenant_scope path; DestroyVersion r p version.
Definition Tenant_UpdateDEKEnc (r : SecretRepository) (path : string) (version : Z) (dekEnc : bytes) : res SecretRepository :=
  p ← tenant_scope path; UpdateDEKEnc r p version dekEnc.
End tenantrepo.

(** ** The keys of the cache *)

Lemma str_last_sep_inj c a a' s s' : str_mem c s = false → str_mem c s' = false →
  a +:+ String c s = a' +:+ String c s' → a = a' ∧ s = s'.
Proof.
  intros Hs Hs'. revert a'. induction a as [|x a IH]; intros [|x' a'] E; cbn in E.
  - by injection E.
  - exfalso. injection E as -> ->. rewrite str_mem_app in Hs. cbn in Hs. rewrite bool_decide_eq_true_2 in Hs by done.
    by rewrite orb_true_r in Hs.
  - exfalso. injection E as -> <-. rewrite str_mem_app in Hs'. cbn in Hs'. rewrite bool_decide_eq_true_2 in Hs' by done.
    by rewrite orb_true_r in Hs'.
  - injection E as -> E. by destruct (IH a' E) as [-> ->].
Qed.

Lemma digit_not_colon d : 0 ≤ d < 10 → (digit d) ≠ ":"%char.
Proof. intros Hd E. destruct (digit_facts d Hd) as [Hi _]. by rewrite E in Hi. Qed.

Lemma digits_no_colon fuel n rest : str_mem ":" rest = false → str_mem ":" (digits fuel n rest) = false.
Proof.
  revert n rest. induction fuel as [|fuel IH]; intros n rest Hr; [done|]. cbn [digits].
  assert (Hc : str_mem ":" (String (digit (n mod 10)) rest) = false).
  { cbn. rewrite Hr, bool_decide_eq_false_2; [done|]. apply not_eq_sym, digit_not_colon, Z.mod_pos_bound. lia. }
  case_match; [done|]. by apply IH.
Qed.

Lemma Itoa_no_colon n : str_mem ":" (Itoa n) = false.
Proof. unfold Itoa. case_match; [rewrite str_mem_app|]; by rewrite digits_no_colon. Qed.

Definition int64 (v : Z) : Prop := - 2 ^ 63 ≤ v < 2 ^ 63.

Lemma cacheKey_inj p v p' v' : int64 v → int64 v' → cacheKey p v = cacheKey p' v' → p = p' ∧ v = v'.
Proof.
  unfold cacheKey. intros Hv Hv' E. cbn in E. injection E as E.
  apply (str_last_sep_inj ":" p p' (String "v" (Itoa v)) (String "v" (Itoa v'))) in E as [-> E];
    [|exact (Itoa_no_colon v)|exact (Itoa_no_colon v')].
  split; [done|]. injection E as E. apply (f_equal Atoi) in E. rewrite !Atoi_Itoa in E by done. congruence.
Qed.

(** ** What the engine reads *)

Section reads.
Context `{Aead} `{Json} (k : KeyRing).




(** It depends on the versions of the path only. *)
Lemma KV_GetVersion_same r r' p v now : secrets_wf r → secrets_wf r' → (∀ u, r' !! (p, u) = r !! (p, u)) →
  KV_GetVersion r' k now p v = KV_GetVersion r k now p v.
Proof.
  intros Hr Hr' Hs. unfold KV_GetVersion. replace (if v <=? 0 then GetLatest r' p else GetVersion r' p v)
    with (if v <=? 0 then GetLatest r p else GetVersion r p v); [done|].
  case_match; [symmetry; by apply GetLatest_same|]. unfold GetVersion. by rewrite Hs.
Qed.
End reads.

Lemma KV_ListVersions_listed r p u : secrets_wf r → rejectReservedKVPath p = Ok tt → is_Some (r !! (p, u)) →
  ∃ versions v, KV_ListVersions r p = Ok versions ∧ v ∈ versions ∧ vm_Version v = u.
Proof.
  intros Hwf Hrej [sv Hl]. destruct (Hwf _ _ Hl) as ([= -> ->] & _).
  unfold KV_ListVersions. rewrite Hrej. cbn [mbind res_bind].
  assert (Hin : version_metadata sv ∈ version_metadata <$> filter (λ x, sv_Path x = sv_Path sv) (ListByPath r (sv_Path sv))).
  { apply list_elem_of_fmap. exists sv. split; [done|]. apply list_elem_of_filter. split; [done|].
    apply ListByPath_elem; [done|]. split; [done|]. apply HasPrefix_spec. exists "". by rewrite str_app_empty_r. }
  rewrite bool_decide_eq_false_2 by (intros E; apply nil_length_inv in E; rewrite E in Hin; by apply not_elem_of_nil in Hin).
  cbn. by eexists _, _.
Qed.

(** ** What a request does to the repository and to the cache *)

Section effects.
Context {C : Type} `{CacheStore C} `{Aead} `{Json} `{ResultJson} (parse_duration : string → option Duration) (k : KeyRing) (tenantMode : bool).
Implicit Type s : Secrets C.

Inductive secrets_op :=
  | SPut (cx : TenantCtx) (subject : option string) (fr : Fresh) (path : string) (data : object) (opts : PutOptions)
  | SGetVersion (cx : TenantCtx) (subject : option string) (clk : ReadClock) (path : string) (version : Z)
  | SListPaths (cx : TenantCtx) (subject : option string) (prefix : string)
  | SListVersions (cx : TenantCtx) (subject : option string) (path : string)
  | SGetMetadata (cx : TenantCtx) (subject : option string) (path : string) (version : Z)
  | SDestroyVersion (cx : TenantCtx) (subject : option string) (path : string) (version : Z)
  | SDelete (cx : TenantCtx) (subject : option string) (path : string).

Definition secrets_step s (o : secrets_op) : Secrets C :=
  match o with
  | SPut cx subject fr path data opts => (Secrets_Put parse_duration k tenantMode cx subject fr path data opts s).1
  | SGetVersion cx subject clk path version => (getVersion k tenantMode cx subject clk path version s).1
  | SListPaths cx subject prefix => (Secrets_ListPaths tenantMode cx subject prefix s).1
  | SListVersions cx subject path => (Secrets_ListVersions tenantMode cx subject path s).1
  | SGetMetadata cx subject path version => (Secrets_GetMetadata tenantMode cx subject path version s).1
  | SDestroyVersion cx subject path version => (Secrets_DestroyVersion tenantMode cx subject path version s).1
  | SDelete cx subject path => (Secrets_Delete tenantMode cx subject path s).1
  end.
Definition secrets_requests s (os : list secrets_op) : Secrets C := foldl secrets_step s os.

(** The change of the engine behind a request, and its path. *)
Definition op_write (o : secrets_op) : option (string * (SecretRepository → res SecretRepository)) :=
  let scoped cx path f := match scopePath tenantMode cx path with Ok p => Some (p, f p) | Err _ => None end in
  match o with
  | SPut cx _ fr path data opts => scoped cx path (λ p r, fst <$> KV_Put parse_duration r k (fr_ID fr) (fr_Now fr) (fr_Rnd fr) p data opts)
  | SDestroyVersion cx _ path v => scoped cx path (λ p r, KV_DestroyVersion r p v)
  | SDelete cx _ path => scoped cx path (λ p r, KV_Delete r p)
  | _ => None
  end.

Definition repo_step (r : SecretRepository) (o : secrets_op) : SecretRepository :=
  match op_write o with
  | None => r
  | Some (_, f) => match f r with Ok r' => r' | Err _ => r end
  end.

Definition invalidated (r : SecretRepository) (path : string) (c : C) : C :=
  let c := cs_Delete c (cacheKey path 0) in
  match KV_ListVersions r path with Ok versions => delete_versions path c versions | Err _ => c end.

Lemma kv_write_effect {A} (subject : option string) (action path : string) (details : list (string * any)) (f : SecretRepository → res (SecretRepository * A)) s :
  let s' := (kv_write subject action path details f s).1 in
  ss_repo s' = match f (ss_repo s) with Ok x => x.1 | Err _ => ss_repo s end ∧
  ss_cache s' = match f (ss_repo s) with Ok x => invalidated x.1 path <$> ss_cache s | Err _ => ss_cache s end.
Proof.
  unfold kv_write, kv_call, attempt, mbind, prog_bind. destruct (f (ss_repo s)) as [[r a]|e]; cbn; [|done].
  unfold invalidated, ss_repo. cbn. destruct (ss_cache s) as [c|] eqn:Ec; cbn; [|by rewrite Ec].
  destruct (KV_ListVersions r path); cbn; by rewrite ?Ec.
Qed.

Lemma kv_read_effect {A} (subject : option string) (action resource : string) (details : list (string * any)) (f : SecretRepository → res A) s :
  let s' := (kv_read subject action resource details f s).1 in ss_repo s' = ss_repo s ∧ ss_cache s' = ss_cache s.
Proof. done. Qed.

Lemma getVersion_effect (cx : TenantCtx) (subject : option string) clk (path : string) (v : Z) s :
  let s' := (getVersion k tenantMode cx subject clk path v s).1 in
  ss_repo s' = ss_repo s ∧ (ss_cache s' = ss_cache s ∨ ∃ c p r raw, ss_cache s = Some c ∧ scopePath tenantMode cx path = Ok p ∧
    KV_GetVersion (ss_repo s) k (rc_engine clk) p v = Ok r ∧ result_marshal r = Ok raw ∧
    ss_cache s' = Some (cs_Set c (rc_store clk) (cacheKey p v) raw (5 * Minute))).
Proof.
  unfold getVersion, mbind, prog_bind, lift. destruct (scopePath tenantMode cx path) as [p|]; cbn; [|auto].
  destruct (cached_result s (rc_lookup clk) p v); cbn; [auto|].
  destruct (KV_GetVersion (ss_repo s) k (rc_engine clk) p v) as [r|] eqn:Er; cbn; [|auto].
  unfold fill_cache, mbind, prog_bind, gets. rewrite Z.eqb_refl, andb_true_r.
  destruct (ss_cache s) as [c|] eqn:Ec; cbn; [|rewrite Ec; auto]. rewrite Ec.
  destruct (result_marshal r) as [raw|] eqn:Em; cbn; [|rewrite Ec; auto]. split; [done|]. right. by exists c, p, r, raw.
Qed.

(** A read answers from the cache or from the engine. *)
Lemma getVersion_result (cx : TenantCtx) (subject : option string) clk (path p : string) (v : Z) s : scopePath tenantMode cx path = Ok p →
  (getVersion k tenantMode cx subject clk path v s).2 =
    match cached_result s (rc_lookup clk) p v with
    | Some r => Ok r
    | None => KV_GetVersion (ss_repo s) k (rc_engine clk) p v
    end.
Proof.
  intros Hp. unfold getVersion, mbind, prog_bind, lift. rewrite Hp. cbn. destruct (cached_result s (rc_lookup clk) p v); cbn; [done|].
  destruct (KV_GetVersion (ss_repo s) k (rc_engine clk) p v) as [r|]; cbn; [|done].
  unfold fill_cache, mbind, prog_bind, gets. by destruct (_ && _).
Qed.

(** The repository evolves as without a cache. *)
Lemma secrets_step_repo s o : ss_repo (secrets_step s o) = repo_step (ss_repo s) o.
Proof.
  destruct o as [cx subject fr path data opts|cx subject clk path v|cx subject prefix|cx subject path|cx subject path v|cx subject path v|cx subject path];
    unfold repo_step; cbn [op_write secrets_step].
  2: by apply getVersion_effect.
  all: unfold Secrets_Put, Secrets_ListPaths, Secrets_ListVersions, Secrets_GetMetadata, Secrets_DestroyVersion, Secrets_Delete, mbind, prog_bind, lift.
  all: destruct (scopePath tenantMode cx _) as [p|]; [|done].
  2-4: done.
  all: rewrite (proj1 (kv_write_effect _ _ _ _ _ s)).
  - by destruct (KV_Put _ _ _ _ _ _ _ _ _) as [[]|].
  - by destruct (KV_DestroyVersion _ _ _).
  - by destruct (KV_Delete _ _).
Qed.

(** The cache is left alone, filled by a read, or invalidated by a change. *)
Lemma secrets_step_cache s o : let s' := secrets_step s o in
  ss_cache s' = ss_cache s ∧ (op_write o = None ∨ repo_step (ss_repo s) o = ss_repo s) ∨
  (∃ c p v now now' r raw, ss_cache s = Some c ∧ op_write o = None ∧ (∃ cx subject clk path, o = SGetVersion cx subject clk path v ∧ scopePath tenantMode cx path = Ok p) ∧
    KV_GetVersion (ss_repo s) k now p v = Ok r ∧ result_marshal r = Ok raw ∧
    ss_cache s' = Some (cs_Set c now' (cacheKey p v) raw (5 * Minute))) ∨
  (∃ p f, op_write o = Some (p, f) ∧ f (ss_repo s) = Ok (ss_repo s') ∧ ss_cache s' = invalidated (ss_repo s') p <$> ss_cache s).
Proof.
  cbv zeta. rewrite secrets_step_repo. unfold repo_step.
  destruct o as [cx subject fr path data opts|cx subject clk path v|cx subject prefix|cx subject path|cx subject path v|cx subject path v|cx subject path];
    cbn [op_write secrets_step].
  2:{ destruct (getVersion_effect cx subject clk path v s) as [_ [E|(c & p & r & raw & E1 & E2 & E3 & E4 & E5)]]; [auto|].
      right. left. exists c, p, v, (rc_engine clk), (rc_store clk), r, raw. eauto 20. }
  all: unfold Secrets_Put, Secrets_ListPaths, Secrets_ListVersions, Secrets_GetMetadata, Secrets_DestroyVersion, Secrets_Delete, mbind, prog_bind, lift.
  all: destruct (scopePath tenantMode cx _) as [p|]; [|auto].
  2-4: left; split; [done|auto].
  all: rewrite (proj2 (kv_write_effect _ _ _ _ _ s)).
  - destruct (KV_Put _ _ _ _ _ _ _ _ _) as [[r' x]|] eqn:E; cbn; [|auto]. right. right. eexists _, _. split; [done|]. cbn. by rewrite E.
  - destruct (KV_DestroyVersion _ _ _) eqn:E; cbn; [|auto]. right. right. eexists _, _. split; [done|]. cbn. by rewrite E.
  - destruct (KV_Delete _ _) eqn:E; cbn; [|auto]. right. right. eexists _, _. split; [done|]. cbn. by rewrite E.
Qed.
End effects.

(** ** The cache answers what the engine would *)

Lemma delete_versions_lookup path (c : MemoryStore) versions key :
  (delete_versions path c versions : gmap string entry) !! key =
    if bool_decide (key ∈ (cacheKey path ∘ vm_Version <$> versions)) then None else (c : gmap string entry) !! key.
Proof.
  unfold delete_versions. revert c. induction versions as [|v versions IH]; intros c; [done|]. cbn [foldl fmap list_fmap]. rewrite IH.
  cbn [cs_Delete memory_store]. unfold Memory_Delete. destruct (decide (key = cacheKey path (vm_Version v))) as [->|Hne].
  - rewrite lookup_delete_eq, (bool_decide_eq_true_2 (_ ∈ _ :: _)) by (apply elem_of_cons; auto). by case_bool_decide.
  - rewrite lookup_delete_ne by done.
    destruct (decide (key ∈ cacheKey path ∘ vm_Version <$> versions)).
    + by rewrite !bool_decide_eq_true_2 by (rewrite ?elem_of_cons; auto).
    + rewrite !bool_decide_eq_false_2; [done|rewrite elem_of_cons; naive_solver|done].
Qed.

(** Nothing that is stored is still cached for a path that was invalidated. *)
Lemma invalidated_lookup r p (c : MemoryStore) v : secrets_wf r → rejectReservedKVPath p = Ok tt → v = 0 ∨ is_Some (r !! (p, v)) →
  (invalidated r p c : gmap string entry) !! cacheKey p v = None.
Proof.
  intros Hwf Hrej Hv. unfold invalidated. cbn [cs_Delete memory_store]. destruct Hv as [->|Hv].
  - destruct (KV_ListVersions r p); [rewrite delete_versions_lookup; case_bool_decide; [done|]|]; apply lookup_delete_eq.
  - destruct (KV_ListVersions_listed r p v Hwf Hrej Hv) as (versions & x & -> & Hx & <-).
    rewrite delete_versions_lookup, bool_decide_eq_true_2; [done|]. apply list_elem_of_fmap. by exists x.
Qed.

Lemma invalidated_other r p (c : MemoryStore) key e : (invalidated r p c : gmap string entry) !! key = Some e → (c : gmap string entry) !! key = Some e.
Proof.
  unfold invalidated. cbn [cs_Delete memory_store]. destruct (KV_ListVersions r p);
    [rewrite delete_versions_lookup; case_bool_decide; [done|]|]; unfold Memory_Delete; intros Hl%lookup_delete_Some; apply Hl.
Qed.

Section coherence.
Context `{Aead} {json : Json} {codec : ResultJson} {codec_laws : ResultJsonLaws} (parse_duration : string → option Duration) (k : KeyRing) (tenantMode : bool).
Implicit Type s : Secrets MemoryStore.

(** Every entry for a version that is still stored, and every entry for the
    latest version, is what the engine read from the repository as it is now. *)
Definition cache_current (r : SecretRepository) (c : MemoryStore) : Prop :=
  ∀ p v e x, 0 ≤ v < 2 ^ 63 → (c : gmap string entry) !! cacheKey p v = Some e → result_unmarshal (en_value e) = Ok x →
    v = 0 ∨ is_Some (r !! (p, v)) → ∃ t, KV_GetVersion r k t p v = Ok x.

Definition coherent s : Prop := secrets_wf (ss_repo s) ∧ ∀ c, ss_cache s = Some c → cache_current (ss_repo s) c.

Lemma op_write_ok o p f r r' : secrets_wf r → op_write parse_duration k tenantMode o = Some (p, f) → f r = Ok r' →
  secrets_wf r' ∧ rejectReservedKVPath p = Ok tt ∧ ∀ q u, q ≠ p → r' !! (q, u) = r !! (q, u).
Proof.
  intros Hwf Ho Hf. destruct o as [cx subject fr path data opts| | | | |cx subject path v|cx subject path]; cbn in Ho; try done;
    destruct (scopePath tenantMode cx path) as [p'|] eqn:Es; cbn in Ho; simplify_eq.
  - destruct (KV_Put _ _ _ _ _ _ _ _ _) as [[r1 v]|] eqn:E; simplify_eq/=.
    apply KV_Put_ok in E as (Hrej & payload & c & enc & ttl & _ & _ & _ & Hput).
    apply PutAtomic_read in Hput as (Hwf' & _ & _ & _ & Hother & _); [|done|done]. done.
  - unfold KV_DestroyVersion in Hf. apply res_bind_unit_ok in Hf as [_ Hf]. apply res_bind_unit_ok in Hf as [Hrej Hf].
    apply DestroyVersion_ok in Hf as (sv & _ & _ & -> & Hwf'); [|done]. split_and!; [done|done|]. intros q u Hq. by rewrite lookup_insert_ne by congruence.
  - unfold KV_Delete in Hf. apply res_bind_unit_ok in Hf as [Hrej Hf]. apply res_bind_ok in Hf as (m & _ & Hf).
    apply DestroyVersion_ok in Hf as (sv & _ & _ & -> & Hwf'); [|done]. split_and!; [done|done|]. intros q u Hq. by rewrite lookup_insert_ne by congruence.
Qed.

Definition op_versions (o : secrets_op) : Prop := match o with SGetVersion _ _ _ _ v => int64 v | _ => True end.

Lemma secrets_step_coherent s o : op_versions o → coherent s → coherent (secrets_step parse_duration k tenantMode s o).
Proof.
  intros Hov [Hwf Hc]. unfold coherent.
  destruct (secrets_step_cache parse_duration k tenantMode s o) as [[E Hr]|[(c & p & v & now & now' & r & raw & E1 & Hn & (cx & sub & clk & path & -> & _) & Hg & Hm & E2)|(p & f & Ho & Hf & E)]].
  - rewrite secrets_step_repo, E. unfold repo_step in Hr |- *. destruct Hr as [->|Hr]; [done|]. by rewrite Hr.
  - rewrite secrets_step_repo. unfold repo_step. rewrite Hn. split; [done|]. rewrite E2. intros c' [= <-] q u e x Hu Hl Hx Hst.
    cbn [cs_Set memory_store] in Hl. unfold Memory_Set in Hl. destruct (decide (cacheKey p v = cacheKey q u)) as [Ek|Ek].
    + apply cacheKey_inj in Ek as [<- <-]; [|done|split; lia]. rewrite lookup_insert_eq in Hl. injection Hl as <-. cbn in Hx.
      rewrite (result_roundtrip _ _ Hm) in Hx. injection Hx as <-. eauto.
    + rewrite lookup_insert_ne in Hl by done. by eapply Hc.
  - destruct (op_write_ok o p f _ _ Hwf Ho Hf) as (Hwf' & Hrej & Hother). split; [done|].
    rewrite E. intros c' Hc'. apply fmap_Some in Hc' as (c & Ec & ->). intros q u e x Hu Hl Hx Hst.
    destruct (decide (q = p)) as [->|Hne].
    + rewrite invalidated_lookup in Hl by done. done.
    + apply invalidated_other in Hl. destruct (Hc c Ec q u e x Hu Hl Hx) as [t Ht]; [by rewrite <-Hother|].
      exists t. rewrite (KV_GetVersion_same k (ss_repo s)); [done..|]. intros w. by apply Hother.
Qed.



End coherence.

(** ** Tenants *)

Section isolation.
Context `{Aead} {json : Json} {codec : ResultJson} (parse_duration : string → option Duration) (k : KeyRing).
Implicit Type s : Secrets MemoryStore.

Definition op_cx (o : secrets_op) : TenantCtx :=
  match o with
  | SPut cx _ _ _ _ _ | SGetVersion cx _ _ _ _ | SListPaths cx _ _ | SListVersions cx _ _ | SGetMetadata cx _ _ _ | SDestroyVersion cx _ _ _ | SDelete cx _ _ => cx
  end.

Definition namespace (t : string) : Prop := str_mem "/" t = false.

Lemma scopePath_in cx path p : scopePath true cx path = Ok p → HasPrefix p (cx_tenant cx +:+ "/") = true.
Proof.
  unfold scopePath. cbn. case_bool_decide; [done|]. case_match; [done|]. intros [= <-]. by apply ScopePath_in.
Qed.

Lemma op_write_scoped o p f : op_write parse_duration k true o = Some (p, f) → ∃ path, scopePath true (op_cx o) path = Ok p.
Proof. destruct o as [cx ? ? path ? ?| | | | |cx ? path ?|cx ? path]; cbn [op_write op_cx]; try done; case_match; intros; simplify_eq; eauto. Qed.

Lemma invalidated_same r p (c : MemoryStore) q u : secrets_wf r → q ≠ p → int64 u →
  (invalidated r p c : gmap string entry) !! cacheKey q u = (c : gmap string entry) !! cacheKey q u.
Proof.
  intros Hwf Hq Hu. assert (H0 : ∀ v, int64 v → cacheKey p v ≠ cacheKey q u) by (intros v Hv E; apply cacheKey_inj in E as [E _]; congruence).
  unfold invalidated. cbn [cs_Delete memory_store].
  assert (Hd : (Memory_Delete c (cacheKey p 0) : gmap string entry) !! cacheKey q u = (c : gmap string entry) !! cacheKey q u)
    by (apply lookup_delete_ne, H0; split; lia).
  destruct (KV_ListVersions r p) as [versions|] eqn:El; [|done]. rewrite delete_versions_lookup, bool_decide_eq_false_2; [exact Hd|].
  intros Hin. apply list_elem_of_fmap in Hin as (m & Em & Hm). cbn in Em.
  unfold KV_ListVersions in El. apply res_bind_unit_ok in El as [_ El]. apply res_bind_unit_ok in El as [_ [= <-]].
  apply list_elem_of_fmap in Hm as (sv & -> & Hsv). apply list_elem_of_filter in Hsv as [_ Hsv]. apply ListByPath_elem in Hsv as [Hl _]; [|done].
  destruct (wf_version _ _ _ _ Hwf Hl). apply (H0 (sv_Version sv)); [unfold max_int in *; split; cbn in *; lia|done].
Qed.

(** What a read of [q] looks at. *)
Definition same_at (q : string) s s' : Prop :=
  (∀ u, ss_repo s' !! (q, u) = ss_repo s !! (q, u)) ∧
  (∀ u, int64 u → (ss_cache s' ≫= λ c, (c : gmap string entry) !! cacheKey q u) = (ss_cache s ≫= λ c, (c : gmap string entry) !! cacheKey q u)) ∧
  (secrets_wf (ss_repo s) → secrets_wf (ss_repo s')).

Lemma secrets_step_isolated s o t q : secrets_wf (ss_repo s) → op_versions o → namespace t → namespace (cx_tenant (op_cx o)) → cx_tenant (op_cx o) ≠ t →
  HasPrefix q (t +:+ "/") = true → same_at q s (secrets_step parse_duration k true s o).
Proof.
  intros Hwf Hov Ht Hto Hne Hq.
  assert (Hd : ∀ path p, scopePath true (op_cx o) path = Ok p → p ≠ q).
  { intros path p Hs ->. apply Hne, (tenant_prefix_unique "/" _ _ q); [exact Hto|exact Ht|by eapply scopePath_in|done]. }
  destruct (secrets_step_cache parse_duration k true s o) as [[E Hr]|[(c & p & v & now & now' & r & raw & E1 & Hn & (cx & sub & clk & path & -> & Hs) & Hg & Hm & E2)|(p & f & Ho & Hf & E)]].
  - unfold same_at. rewrite secrets_step_repo, E. unfold repo_step in Hr |- *. destruct Hr as [->|Hr]; [done|]. by rewrite Hr.
  - unfold same_at. rewrite secrets_step_repo. unfold repo_step. rewrite Hn. split_and!; [done| |done]. intros u Hu. rewrite E1, E2. cbn.
    unfold Memory_Set. rewrite lookup_insert_ne; [done|]. intros Ek. apply cacheKey_inj in Ek as [Ek _]; [|done|done]. by apply (Hd path p).
  - destruct (op_write_scoped _ _ _ Ho) as [path Hs]. assert (Hpq := Hd _ _ Hs).
    destruct (op_write_ok parse_duration k true o p f _ _ Hwf Ho Hf) as (Hwf' & _ & Hother).
    split_and!; [intros u; by apply Hother| |done]. intros u Hu. rewrite E. destruct (ss_cache s) as [c|]; [|done]. cbn.
    by apply invalidated_same.
Qed.

Lemma secrets_requests_isolated s os t q : secrets_wf (ss_repo s) → namespace t → HasPrefix q (t +:+ "/") = true →
  Forall (λ o, op_versions o ∧ namespace (cx_tenant (op_cx o)) ∧ cx_tenant (op_cx o) ≠ t) os →
  same_at q s (secrets_requests parse_duration k true s os).
Proof.
  intros Hwf Ht Hq Hos. revert s Hwf. induction Hos as [|o os (Ho1 & Ho2 & Ho3) _ IH]; intros s Hwf; [done|]. cbn.
  destruct (secrets_step_isolated s o t q) as (H1 & H2 & H3); [done..|]. destruct (IH _ (H3 Hwf)) as (I1 & I2 & I3).
  split_and!; [intros u; by rewrite I1|intros u Hu; by rewrite I2, H2|tauto].
Qed.

(** C14. Tenants whose namespaces hold no slash are isolated: in tenant mode,
    whatever requests other such tenants make, a read of a tenant returns what
    it would have returned without them, data, error or cached value. The store is
    well formed at the start, and the versions asked for are 64-bit integers. A
    namespace with a slash is accepted and shares: [nested_namespace_shares]. *)
Theorem tenant_secrets_isolated s os cx subject clk path v :
  secrets_wf (ss_repo s) → namespace (cx_tenant cx) → int64 v →
  Forall (λ o, op_versions o ∧ namespace (cx_tenant (op_cx o)) ∧ cx_tenant (op_cx o) ≠ cx_tenant cx) os →
  (getVersion k true cx subject clk path v (secrets_requests parse_duration k true s os)).2 = (getVersion k true cx subject clk path v s).2.
Proof.
  intros Hwf Ht Hv Hos. destruct (scopePath true cx path) as [p|e] eqn:Hp; [|unfold getVersion, mbind, prog_bind, lift; by rewrite Hp].
  destruct (secrets_requests_isolated s os (cx_tenant cx) p) as (H1 & H2 & H3); [done|done|by eapply scopePath_in|done|].
  rewrite !(getVersion_result _ _ cx subject clk path p v) by done. rewrite (KV_GetVersion_same k (ss_repo s)) by auto.
  replace (cached_result (secrets_requests parse_duration k true s os) (rc_lookup clk) p v) with (cached_result s (rc_lookup clk) p v); [done|].
  specialize (H2 v Hv). unfold cached_result. cbn [cs_Get memory_store]. unfold Memory_Get.
  destruct (ss_cache s) as [c|], (ss_cache (secrets_requests _ _ _ _ _)) as [c'|]; cbn [mbind option_bind] in H2; [by rewrite H2|by rewrite <-H2|by rewrite H2|done].
Qed.
End isolation.

(** ** Examples *)

#[local] Existing Instance toy_aead.
#[local] Existing Instance text_json.

Definition result_code (r : GetResult) : option (list (string * string) * Z * Time * string * gmap string string) :=
  (λ l, (l, gr_Version r, gr_CreatedAt r, gr_TTL r, gr_Labels r)) <$> mapM text_member (gr_Data r).

#[local] Instance text_result : ResultJson := {|
  result_marshal r := match result_code r with Some x => Ok (pos_bytes (encode x)) | None => Err (Plain "unsupported") end;
  result_unmarshal b := match decode (bytes_pos b) with
                        | Some (l, v, t, ttl, labels) => Ok (mkGetResult (member_of_text <$> l) v t ttl labels)
                        | None => Err (Plain "invalid")
                        end
|}.
#[local] Instance text_result_laws : ResultJsonLaws.
Proof.
  split. intros [d v t ttl labels] b. unfold result_marshal, result_unmarshal, text_result, result_code. cbn.
  destruct (mapM text_member d) as [l|] eqn:E; [|done]. intros [= <-]. rewrite bytes_pos_bytes, decode_encode.
  by rewrite (members_of_texts _ _ E).
Qed.

Definition no_tenant : TenantCtx := mkTenantCtx "" None.
Definition fresh_at (now : Time) : Fresh := mkFresh 7 now demo_entropy.
Definition clock_at (now : Time) : ReadClock := mkReadClock now now now.
Definition start_service : Secrets MemoryStore := mkSecrets empty_vault (Some NewMemoryStore) ∅.
Definition sixty (s : string) : option Duration := if s =s "60s" then Some (60 * Second) else None.
Definition put_at (now : Time) (ttl password : string) (maxVersions : Z) : secrets_op :=
  SPut no_tenant None (fresh_at now) "app/db" (demo_data password) (mkPutOptions ttl None maxVersions ∅).
Definition read_at (now : Time) (v : Z) (s : Secrets MemoryStore) : option string :=
  match (getVersion (demo_ring "a") false no_tenant None (clock_at now) "app/db" v s).2 with
  | Ok r => as_string (obj_get "password" (gr_Data r))
  | Err _ => None
  end.



(** The cache does not know about expiry: a secret that lives for a minute is
    still read two minutes later, where the engine reports it expired. *)
Example expired_secret_still_read :
  let s := secrets_requests sixty (demo_ring "a") false start_service [put_at 0 "60s" "old" 0; SGetVersion no_tenant None (clock_at (30 * Second)) "app/db" 0] in
  read_at (120 * Second) 0 s = Some "old" ∧ read_at (120 * Second) 0 (SetCache s None) = None.
Proof. vm_compute. split; reflexivity. Qed.

(** A version that a later write trimmed away is still read from the cache. *)
Example trimmed_version_still_read :
  let s := secrets_requests sixty (demo_ring "a") false start_service
    [put_at 0 "" "old" 1; SGetVersion no_tenant None (clock_at Second) "app/db" 1; put_at (2 * Second) "" "new" 1] in
  read_at (3 * Second) 1 s = Some "old" ∧ read_at (3 * Second) 1 (SetCache s None) = None.
Proof. vm_compute. split; reflexivity. Qed.

(** The check of the invalidation count and the write of the cache are two
    steps: a write in between leaves the old value in the cache. *)
Example write_during_read_leaves_old_value :
  let s := secrets_step sixty (demo_ring "a") false start_service (put_at 0 "" "old" 0) in
  let gen := cacheGenFor s "app/db" in
  let result := KV_GetVersion (ss_repo s) (demo_ring "a") Second "app/db" 0 in
  let unchanged := cacheGenFor s "app/db" =? gen in
  let s := secrets_step sixty (demo_ring "a") false s (put_at (2 * Second) "" "new" 0) in
  let s := match result with Ok r => if unchanged then (cache_result (3 * Second) "app/db" 0 r s).1 else s | Err _ => s end in
  read_at (4 * Second) 0 s = Some "old" ∧ read_at (4 * Second) 0 (SetCache s None) = Some "new".
Proof. vm_compute. split; reflexivity. Qed.

Definition tenant_cx (t : string) : TenantCtx := mkTenantCtx t (Some t).

Lemma tenant_secrets_isolated_witness :
  let other := [SPut (tenant_cx "b") None (fresh_at 5) "../a/db" (demo_data "evil") demo_opts; SDelete (tenant_cx "b") None "/a/db"] in
  let s := secrets_step sixty (demo_ring "a") true start_service (SPut (tenant_cx "a") None (fresh_at 1) "db" (demo_data "good") demo_opts) in
  (getVersion (demo_ring "a") true (tenant_cx "a") None (clock_at 9) "db" 0 (secrets_requests sixty (demo_ring "a") true s other)).2 =
  (getVersion (demo_ring "a") true (tenant_cx "a") None (clock_at 9) "db" 0 s).2.
Proof.
  intros other s. apply (tenant_secrets_isolated sixty (demo_ring "a") s other (tenant_cx "a") None (clock_at 9) "db" 0).
  - apply (secrets_step_coherent sixty (demo_ring "a") true start_service); [exact I|]. split; [apply map_Forall_empty|].
    intros c [= <-] q u e x _ Hl. discriminate Hl.
  - reflexivity.
  - split; [discriminate|reflexivity].
  - repeat constructor; discriminate.
Defined.

(** Namespaces with a slash are not refused, and nest: what tenant [a] stores at
    [b/db] is what tenant [a/b] reads at [db]. *)
Example nested_namespace_shares :
  let s := secrets_step sixty (demo_ring "a") true start_service (SPut (tenant_cx "a") None (fresh_at 1) "b/db" (demo_data "mine") demo_opts) in
  match (getVersion (demo_ring "a") true (tenant_cx "a/b") None (clock_at 9) "db" 0 s).2 with
  | Ok r => as_string (obj_get "password" (gr_Data r))
  | Err _ => None
  end = Some "mine".
Proof. vm_compute. reflexivity. Qed.
