(* ===== verification/DatabaseEngine.v ===== *)
(** Dynamic database credentials: the engine
    internal/engine/secrets/database/engine.go with its SQL templates
    (postgres.go) and its SQL runner (sql.go), and the audited, tenant-scoped
    service internal/service/database.go.

    The engine is fully configured; its state is [Vault], which records every
    statement a database took. The drivers, the formatting of expiry times and
    the URLs are the class [DbExternals]; whether a statement is taken may depend
    on what was executed before. What a request takes from outside is the record
    [CredsEnv]. *)

From S2P Require Import Prelude.
From S2P Require Import Effects.
From S2P Require Import GoLib.
From S2P Require Import Domain.
From S2P Require Import DynamicRoles.
From S2P Require Import Repos.
From S2P Require Import AuditHelper.
From S2P Require Import Tenant.
From S2P Require Import TokenStore.
From S2P Require Import SecretRepo.
From S2P Require Import Crypto.
From S2P Require Import KVEngine.
From S2P Require Import Cubbyhole.
From S2P Require Import Credentials.

#[local] Open Scope Z_scope.

Class DbExternals := {
  sql_Open : string → string → res unit;
  ExecContext : list (string * string) → string → string → res unit;
  conn_Scheme : string → res string;
  conn_String : string → string → string;
  format_expiration : Time → string;
  postgres_url : string → string → string → string → string → string;
}.

(** ** postgres.go *)

Definition normalizeDBType (config : gmap string any) : string :=
  ToLower (TrimSpace (default "" (as_string (config !! "db_type")))).

Definition isPostgresFamily (dbType : string) : bool := bool_decide (dbType ∈ ["postgres"; "postgresql"; "cnpg"]).

Definition privilegeReadonly : string := "readonly".
Definition privilegeReadWrite : string := "readwrite".

Definition privilegeFromConfig (config : gmap string any) : string :=
  if bool_decide (ToLower (TrimSpace (default "" (as_string (config !! "privilege")))) ∈ [privilegeReadWrite; "rw"; "write"])
  then privilegeReadWrite else privilegeReadonly.

(** The first of the keys that holds a text other than blanks. *)
Fixpoint config_text (config : gmap string any) (keys : list string) (dflt : string) : string :=
  match keys with
  | [] => dflt
  | key :: keys =>
      match as_string (config !! key) with
      | Some raw => if TrimSpace raw =s "" then config_text config keys dflt else TrimSpace raw
      | None => config_text config keys dflt
      end
  end.

Definition databaseFromConfig (config : gmap string any) : string :=
  config_text config ["database_name"; "database"; "db_name"] "postgres".
Definition schemaFromConfig (config : gmap string any) : string := config_text config ["schema"] "public".
Definition sslModeFromConfig (config : gmap string any) : string := config_text config ["ssl_mode"] "require".

Definition user_template : string := quoted "{{username}}".

Definition postgresCreationStatements (privilege : string) : list string :=
  let db := "{{database}}" in
  let schema := "{{schema}}" in
  let user := user_template in
  let create := "CREATE ROLE " +:+ user +:+ " WITH LOGIN PASSWORD '{{password}}' VALID UNTIL '{{expiration}}';" in
  let connect := "GRANT CONNECT ON DATABASE " +:+ db +:+ " TO " +:+ user +:+ ";" in
  let usage := "GRANT USAGE ON SCHEMA " +:+ schema +:+ " TO " +:+ user +:+ ";" in
  if privilege =s privilegeReadWrite then
    [create; connect; usage;
     "GRANT SELECT, INSERT, UPDATE, DELETE ON ALL TABLES IN SCHEMA " +:+ schema +:+ " TO " +:+ user +:+ ";";
     "ALTER DEFAULT PRIVILEGES IN SCHEMA " +:+ schema +:+ " GRANT SELECT, INSERT, UPDATE, DELETE ON TABLES TO " +:+ user +:+ ";"]
  else
    [create; connect; usage;
     "GRANT SELECT ON ALL TABLES IN SCHEMA " +:+ schema +:+ " TO " +:+ user +:+ ";";
     "ALTER DEFAULT PRIVILEGES IN SCHEMA " +:+ schema +:+ " GRANT SELECT ON TABLES TO " +:+ user +:+ ";"].

Definition postgresRevocationStatements (privilege : string) : list string :=
  let db := "{{database}}" in
  let schema := "{{schema}}" in
  let user := user_template in
  ["REVOKE ALL PRIVILEGES ON ALL TABLES IN SCHEMA " +:+ schema +:+ " FROM " +:+ user +:+ ";";
   "REVOKE USAGE ON SCHEMA " +:+ schema +:+ " FROM " +:+ user +:+ ";";
   "REVOKE CONNECT ON DATABASE " +:+ db +:+ " FROM " +:+ user +:+ ";";
   "DROP ROLE IF EXISTS " +:+ user +:+ ";"].

Definition db_statements (r : DatabaseRole) (creation revocation : list string) : DatabaseRole :=
  mkDatabaseRole (db_Name r) (db_TTLSeconds r) (db_DefaultTTL r) (db_MaxTTL r) (db_Period r) (db_Renewable r) (db_MaxLeases r)
    (db_UsernamePrefix r) (db_DefaultUsername r) creation revocation (db_ExecutionMode r) (db_AdminCredentialsPath r)
    (db_Config r) (db_CreatedAt r) (db_UpdatedAt r).

Definition applyDBTypeDefaults (r : DatabaseRole) : DatabaseRole :=
  if negb (isPostgresFamily (normalizeDBType (db_Config r))) then r
  else
    let priv := privilegeFromConfig (db_Config r) in
    db_statements r
      (match db_CreationStatements r with [] => postgresCreationStatements priv | l => l end)
      (match db_RevocationStatements r with [] => postgresRevocationStatements priv | l => l end).

Record statementContext := mkStatementContext {
  sc_Username : string;
  sc_Password : string;
  sc_Database : string;
  sc_Schema : string;
  sc_Expiration : string;
}.

(** [strings.ReplaceAll] of one byte by two copies of it. *)
Fixpoint double_char (c : ascii) (s : string) : string :=
  match s with
  | EmptyString => EmptyString
  | String d s => if Ascii.eqb d c then String c (String c (double_char c s)) else String d (double_char c s)
  end.

Definition squote_char : ascii := ascii_of_nat 39.
Definition dquote_char : ascii := ascii_of_nat 34.

Definition escapePostgresLiteral (value : string) : string := double_char squote_char value.

Definition quotePostgresIdent (ident : string) : string := quoted (double_char dquote_char (TrimSpace ident)).

Definition ident_char (c : ascii) : bool := is_alpha c || is_digit c || Ascii.eqb c "_".

Definition safePostgresUsername (username : string) : bool :=
  if (username =s "") || Nat.ltb 63 (String.length username) then false
  else match username with
       | EmptyString => false
       | String c rest => ident_char c && forallb (λ d, ident_char d || Ascii.eqb d "-") (bytes_of rest)
       end.

(** [strings.NewReplacer(...).Replace]: at each position the first of the old
    texts that matches is replaced and skipped. *)
Definition matching_old (pairs : list (string * string)) (s : string) : option (string * string) :=
  find (λ on, HasPrefix s on.1) pairs.

Fixpoint replace_go (pairs : list (string * string)) (skip : nat) (s : string) : string :=
  match s with
  | EmptyString => EmptyString
  | String c s' =>
      match skip with
      | S n => replace_go pairs n s'
      | O =>
          match matching_old pairs s with
          | Some (old, new) => new +:+ replace_go pairs (String.length old - 1) s'
          | None => String c (replace_go pairs 0 s')
          end
      end
  end.

Section statements.
Context `{DbExternals}.

Definition buildStatementContext (r : DatabaseRole) (username password : string) (expiresAt : Time) : statementContext :=
  mkStatementContext username (escapePostgresLiteral password)
    (quotePostgresIdent (databaseFromConfig (db_Config r))) (quotePostgresIdent (schemaFromConfig (db_Config r)))
    (format_expiration expiresAt).

Definition replacements (cx : statementContext) : list (string * string) :=
  [("{{username}}", sc_Username cx); ("{{password}}", sc_Password cx); ("{{name}}", sc_Username cx);
   ("{{database}}", sc_Database cx); ("{{schema}}", sc_Schema cx); ("{{expiration}}", sc_Expiration cx)].

Definition renderStatementsForRole (templates : list string) (r : DatabaseRole) (username password : string) (expiresAt : Time)
    : list string :=
  replace_go (replacements (buildStatementContext r username password expiresAt)) 0 <$> templates.

Definition BuildConnectionURL (data : object) (config : gmap string any) : res string :=
  let given := str_field "connection_url" data in
  if negb (TrimSpace given =s "") then Ok (TrimSpace given)
  else
    let username := TrimSpace (str_field "username" data) in
    let password := TrimSpace (str_field "password" data) in
    let host := TrimSpace (str_field "host" data) in
    let database := TrimSpace (str_field "database" data) in
    let portStr := str_field "port" data in
    let database := if database =s "" then databaseFromConfig config else database in
    _ ← reject (host =s "") (Plain "admin credentials require connection_url or host");
    _ ← reject (username =s "") (Plain "admin credentials require connection_url or username");
    port ← (if portStr =s "" then Ok 5432
            else match Atoi (TrimSpace portStr) with
                 | Some p => if p <=? 0 then Err (Plain ("invalid port " +:+ quoted portStr)) else Ok p
                 | None => Err (Plain ("invalid port " +:+ quoted portStr))
                 end);
    Ok (postgres_url username password (host +:+ ":" +:+ Itoa port) ("/" +:+ database) (sslModeFromConfig config)).
End statements.

(** ** engine.go *)

Definition db_engine : string := "database".

Record RoleConfig := mkRoleConfig {
  rf_Name : string;
  rf_TTLSeconds : Z;
  rf_DefaultTTL : Z;
  rf_MaxTTL : Z;
  rf_Period : Z;
  rf_Renewable : option bool;
  rf_MaxLeases : Z;
  rf_UsernamePrefix : string;
  rf_DefaultUsername : string;
  rf_CreationStatements : list string;
  rf_RevocationStatements : list string;
  rf_ExecutionMode : string;
  rf_AdminCredentialsPath : string;
  rf_Config : gmap string any;
}.

Record CredsRequest := mkCredsRequest {
  cq_Role : string;
  cq_TTLSecond : Z;
  cq_TokenID : string;
  cq_Tenant : string;
  cq_TenantMode : bool;
}.

Record CredsResult := mkCredsResult {
  cr_LeaseID : string;
  cr_Username : string;
  cr_Password : string;
  cr_Role : string;
  cr_TTLSeconds : Z;
  cr_MaxTTL : Z;
  cr_ExpiresAt : Time;
  cr_Statements : list string;
  cr_Warnings : list string;
}.

(** The clock as the engine and the quota check read it, the write of the
    secret, and the random bytes of the lease identifier, of the user name and
    of the password. *)
Record CredsEnv := mkCredsEnv {
  ce_now : Time;
  ce_count : Time;
  ce_store : Fresh;
  ce_lease : res bytes;
  ce_user : res bytes;
  ce_pass : res bytes;
}.

Definition role_of_config (cfg : RoleConfig) : DatabaseRole :=
  mkDatabaseRole (rf_Name cfg)
    (if rf_TTLSeconds cfg <=? 0 then 3600 else rf_TTLSeconds cfg) (rf_DefaultTTL cfg) (rf_MaxTTL cfg) (rf_Period cfg)
    (default true (rf_Renewable cfg)) (rf_MaxLeases cfg)
    (if rf_UsernamePrefix cfg =s "" then "v-" else rf_UsernamePrefix cfg) (rf_DefaultUsername cfg)
    (rf_CreationStatements cfg) (rf_RevocationStatements cfg) (rf_ExecutionMode cfg) (rf_AdminCredentialsPath cfg) (rf_Config cfg) 0 0.

Definition kept_in_name (c : ascii) : bool := ident_char c || Ascii.eqb c "-".

Section engine.
Context `{Aead} `{Json} `{UrlParser} {codec : TokenCodec} `{DbExternals} (k : KeyRing).

(** [SaveRole]; the repository stamps the times of a role, which are left at
    zero here. *)
Definition DB_SaveRole (cfg : RoleConfig) : V unit := λ s,
  let role := applyDBTypeDefaults (NormalizeDatabaseRole (role_of_config cfg)) in
  match DatabaseRole_Validate role with
  | Err e => (s, Err (Wrap ErrCodeValidation "invalid database role" e))
  | Ok role => match DatabaseRoleRepository_Save (vt_dbroles s) role with
               | Ok m => (set_dbroles s m, Ok tt)
               | Err e => (s, Err e)
               end
  end.

Definition DB_GetRole (name : string) : V DatabaseRole := λ s, (s, DatabaseRoleRepository_Get (vt_dbroles s) name).

Definition randomToken (raw : res bytes) : res string := match raw with Ok b => Ok (RawURLEncode b) | Err e => Err e end.

Definition generateUsername (role : DatabaseRole) (raw : res bytes) : res string :=
  if negb (db_DefaultUsername role =s "") then
    if negb (safePostgresUsername (db_DefaultUsername role))
    then Err (Plain "default_username must be a safe SQL identifier")
    else Ok (db_DefaultUsername role)
  else
    suffix ← randomToken raw;
    let name := db_UsernamePrefix role +:+ db_Name role +:+ "-" +:+ suffix in
    if negb (safePostgresUsername name) then Ok (string_of (List.filter kept_in_name (bytes_of name))) else Ok name.

Definition adminConnectionURL (role : DatabaseRole) : V string := λ s, (s,
  _ ← reject (db_AdminCredentialsPath role =s "") (New ErrCodeValidation "admin_credentials_path is required for managed mode");
  latest ← match GetLatest (vt_secrets s) (db_AdminCredentialsPath role) with
           | Ok sv => Ok sv
           | Err e => Err (Wrap ErrCodeValidation "read admin credentials from kv" e)
           end;
  data ← open_object k "decrypt admin credentials" "unmarshal admin credentials" latest;
  match BuildConnectionURL data (db_Config role) with
  | Ok url => Ok url
  | Err e => Err (Wrap ErrCodeValidation "admin credentials" e)
  end).

(** ** sql.go *)

(** [parseConnectionURL]: the data source and its driver. [conn_Scheme] parses a
    URL, [conn_String] prints one with another scheme. *)
Definition parseConnectionURL (raw0 : string) : res (string * string) :=
  let raw := TrimSpace raw0 in
  if raw =s "" then Err (Plain "connection_url is required")
  else if HasPrefix raw "sqlite:" then Ok (TrimPrefix raw "sqlite:", "sqlite")
  else match conn_Scheme raw with
       | Err e => Err (Wrapf "parse connection_url: " e)
       | Ok scheme =>
           if (scheme =s "sqlite") || (scheme =s "file") then Ok (TrimPrefix raw (scheme +:+ ":"), "sqlite")
           else if scheme =s "mysql" then Err (Plain "mysql driver not bundled; use sqlite for tests or client execution mode")
           else if (scheme =s "postgres") || (scheme =s "postgresql") then Ok (conn_String raw "postgres", "pgx")
           else Err (Plain ("unsupported connection_url scheme " +:+ quoted scheme))
       end.

(** The statements one by one, without a transaction: what a database took before
    a statement fails stays. *)
Fixpoint exec_all (dsn : string) (statements : list string) (done : list (string * string)) : list (string * string) * res unit :=
  match statements with
  | [] => (done, Ok tt)
  | stmt :: rest =>
      let stmt := TrimSpace stmt in
      if stmt =s "" then exec_all dsn rest done
      else match ExecContext done dsn stmt with
           | Ok _ => exec_all dsn rest (done ++ [(dsn, stmt)])
           | Err e => (done, Err (Wrapf "execute statement: " e))
           end
  end.

(** [ExecStatements] of the default runner. *)
Definition exec_sql (url : string) (statements : list string) : V unit := λ s,
  match statements with
  | [] => (s, Ok tt)
  | _ =>
      match parseConnectionURL url with
      | Err e => (s, Err e)
      | Ok (dsn, driver) =>
          match sql_Open driver dsn with
          | Err e => (s, Err (Wrapf "open database: " e))
          | Ok _ => let '(done, r) := exec_all dsn statements (vt_sql s) in (set_sql s done, r)
          end
      end
  end.

Definition creds_path (role leaseID : string) : string := "database/creds/" +:+ role +:+ "/" +:+ leaseID.

Definition creds_data (username password leaseID role : string) : object :=
  [("lease_id", VStr leaseID); ("password", VStr password); ("role", VStr role); ("username", VStr username)].

Definition creds_lease (req : CredsRequest) (leaseID : string) (ttlSeconds : Z) (now : Time) (renewable : bool) : Lease :=
  mkLease leaseID (creds_path (cq_Role req) leaseID) (cq_Role req) db_engine ttlSeconds now (plus_seconds now ttlSeconds) None renewable
    (cq_TokenID req) ∅.

(** The creation statements of a managed role; on a failure of the runner the
    secret and the lease are taken back. *)
Definition run_creation (role : DatabaseRole) (path leaseID : string) (now : Time) (statements : list string) : V unit :=
  connURL ← adminConnectionURL role;
  on_error (exec_sql connURL statements) (λ e,
    _ ← ignore (destroySecret path);
    _ ← ignore (lease_revoke_at leaseID now);
    raise (Wrap ErrCodeInternal "execute creation statements" e)).

Definition DB_GenerateCredentials (env : CredsEnv) (req : CredsRequest) : V CredsResult :=
  _ ← guard_not (cq_Role req =s "") (New ErrCodeValidation "role is required");
  role ← DB_GetRole (cq_Role req);
  let role := NormalizeDatabaseRole role in
  let tuning := LeaseTuningFromDatabaseRole role in
  _ ← CheckMaxLeases (ce_count env) db_engine (cq_Role req) tuning;
  ttlSeconds ← lift (match ResolveIssueTTL tuning (cq_TTLSecond req) with
                     | Ok t => Ok t | Err e => Err (Wrap ErrCodeValidation "invalid ttl" e) end);
  leaseID ← lift (wrap_internal "generate lease id" (newLeaseID (ce_lease env)));
  let leaseID := if cq_TenantMode req then ScopeLeaseID (cq_Tenant req) leaseID true else leaseID in
  username ← lift (generateUsername role (ce_user env));
  password ← lift (randomToken (ce_pass env));
  let now := ce_now env in
  let expiresAt := plus_seconds now ttlSeconds in
  let path := creds_path (cq_Role req) leaseID in
  _ ← storeSecret k (ce_store env) path leaseID ttlSeconds expiresAt (creds_data username password leaseID (cq_Role req));
  _ ← on_error (lease_save (creds_lease req leaseID ttlSeconds now (lt_Renewable tuning)))
        (λ e, _ ← ignore (destroySecret path); raise e);
  let statements := renderStatementsForRole (db_CreationStatements role) role username password expiresAt in
  _ ← when (db_ExecutionMode role =s ExecutionModeManaged) (run_creation role path leaseID now statements);
  mret (mkCredsResult leaseID username password (cq_Role req) ttlSeconds (lt_MaxTTL tuning) expiresAt statements
          (LeaseWarnings now expiresAt ttlSeconds)).

(** The checks and reads of [Renew]. *)
Definition db_renew_read (now : Time) (leaseID : string) (ttlSeconds : Z) : V (Lease * DatabaseRole * Z * object) :=
  lease ← lease_get leaseID;
  _ ← guard_not (negb (Lease_Active lease now)) (New ErrCodeNotFound "lease is not active");
  _ ← guard_not (negb (lease_Renewable lease)) (New ErrCodeValidation "lease is not renewable");
  role ← DB_GetRole (lease_RoleName lease);
  let tuning := LeaseTuningFromDatabaseRole role in
  let ttlSeconds := ResolveRenewTTL tuning ttlSeconds (lease_TTLSeconds lease) now (lease_ExpiresAt lease) in
  latest ← secrets (store_latest (lease_Path lease));
  data ← lift (open_object k "decrypt credentials" "unmarshal credentials" latest);
  mret (lease, role, ttlSeconds, data).

Definition DB_Renew (now : Time) (fr : Fresh) (leaseID : string) (ttlSeconds : Z) : V CredsResult :=
  x ← db_renew_read now leaseID ttlSeconds;
  let '(lease, role, ttlSeconds, data) := x in
  let expiresAt := plus_seconds now ttlSeconds in
  _ ← lease_save (lease_extend lease ttlSeconds expiresAt);
  _ ← storeSecret k fr (lease_Path lease) leaseID ttlSeconds expiresAt data;
  let username := str_field "username" data in
  let password := str_field "password" data in
  mret (mkCredsResult leaseID username password (lease_RoleName lease) ttlSeconds (lt_MaxTTL (LeaseTuningFromDatabaseRole role)) expiresAt
          (renderStatementsForRole (db_CreationStatements role) role username password expiresAt)
          (LeaseWarnings now expiresAt ttlSeconds)).

(** What [RevokeLease] can read of the stored credentials. *)
Definition stored_login (path : string) : V (string * string) := λ s, (s, Ok
  match GetLatest (vt_secrets s) path with
  | Ok latest => match open_object k "" "" latest with
                 | Ok data => (str_field "username" data, str_field "password" data)
                 | Err _ => ("", "")
                 end
  | Err _ => ("", "")
  end).

(** The revocation statements of a managed role. *)
Definition run_revocation (role : DatabaseRole) (statements : list string) : V unit :=
  match statements with
  | [] => mret tt
  | _ =>
      connURL ← on_error (adminConnectionURL role) (λ e, raise (Wrap ErrCodeInternal "managed revoke: admin credentials" e));
      on_error (exec_sql connURL statements) (λ e, raise (Wrap ErrCodeInternal "managed revoke: execute revocation statements" e))
  end.

Definition DB_RevokeLease (now : Time) (leaseID : string) : V (list string) :=
  lease ← lease_get leaseID;
  match lease_RevokedAt lease with
  | Some _ => mret []
  | None =>
      login ← stored_login (lease_Path lease);
      role ← attempt (DB_GetRole (lease_RoleName lease));
      let statements :=
        match role with
        | Ok role => match db_RevocationStatements role with
                     | [] => []
                     | templates => if login.1 =s "" then []
                                    else renderStatementsForRole templates role login.1 login.2 now
                     end
        | Err _ => []
        end in
      _ ← lease_revoke_at leaseID now;
      statements ← match role with
                   | Ok role => if db_ExecutionMode role =s ExecutionModeManaged
                                then _ ← run_revocation role statements; mret []
                                else mret statements
                   | Err _ => mret statements
                   end;
      _ ← destroySecret (lease_Path lease);
      mret statements
  end.
(** The loop of [RenewExpiring]; the i-th lease of the list is renewed with what
    [envs i] gives. *)
Fixpoint db_renew_loop (now deadline : Time) (limit : Z) (envs : nat → Time * Fresh) (i : nat) (renewed : Z) (leases : list Lease) : V Z :=
  match leases with
  | [] => mret renewed
  | lease :: leases =>
      if limit <=? renewed then mret renewed
      else if negb (Lease_Active lease now) || negb (lease_Renewable lease) || After (lease_ExpiresAt lease) deadline
      then db_renew_loop now deadline limit envs (S i) renewed leases
      else
        x ← attempt (DB_Renew (envs i).1 (envs i).2 (lease_ID lease) (lease_TTLSeconds lease));
        db_renew_loop now deadline limit envs (S i) (if is_ok x then renewed + 1 else renewed) leases
  end.

Definition DB_RenewExpiring (now : Time) (grace : Duration) (limit : Z) (envs : nat → Time * Fresh) : V Z := λ s,
  db_renew_loop now (now + grace) (if limit <=? 0 then 50 else limit) envs 0 0 (LeaseRepository_List (vt_leases s)) s.

(** The loop of [CleanupExpired] over the expired leases. *)
Fixpoint db_cleanup_loop (clk : nat → Time) (i : nat) (revoked : Z) (first : option error) (leases : list Lease) : V (Z * option error) :=
  match leases with
  | [] => mret (revoked, first)
  | lease :: leases =>
      if negb (lease_Engine lease =s db_engine) then db_cleanup_loop clk (S i) revoked first leases
      else
        x ← attempt (DB_RevokeLease (clk i) (lease_ID lease));
        match x with
        | Ok _ => db_cleanup_loop clk (S i) (revoked + 1) first leases
        | Err e => db_cleanup_loop clk (S i) revoked (match first with None => Some e | Some _ => first end) leases
        end
  end.

Definition DB_CleanupExpired (now : Time) (limit : Z) (clk : nat → Time) : V (Z * option error) := λ s,
  db_cleanup_loop clk 0 0 None (LeaseRepository_ListExpired (vt_leases s) now limit) s.
End engine.

(** ** internal/service/database.go *)

Section service.
Context `{Aead} `{Json} `{UrlParser} {codec : TokenCodec} `{DbExternals} (k : KeyRing) (tenantMode : bool).

Definition rf_with_name (cfg : RoleConfig) (name : string) : RoleConfig :=
  mkRoleConfig name (rf_TTLSeconds cfg) (rf_DefaultTTL cfg) (rf_MaxTTL cfg) (rf_Period cfg) (rf_Renewable cfg) (rf_MaxLeases cfg)
    (rf_UsernamePrefix cfg) (rf_DefaultUsername cfg) (rf_CreationStatements cfg) (rf_RevocationStatements cfg)
    (rf_ExecutionMode cfg) (rf_AdminCredentialsPath cfg) (rf_Config cfg).

Definition DatabaseService_SaveRole (cx : TenantCtx) (subject : option string) (cfg : RoleConfig) : V unit :=
  name ← lift (scopeResourceName cx tenantMode (rf_Name cfg));
  recorded subject "database.role.write" ("secrets/database/roles/" +:+ name) (λ _, []) (DB_SaveRole (rf_with_name cfg name)).

Definition DatabaseService_GetRole (cx : TenantCtx) (name : string) : V DatabaseRole :=
  name ← lift (scopeResourceName cx tenantMode name);
  _ ← lift (assertTenantAccess cx tenantMode name);
  DB_GetRole name.

Definition DatabaseService_GenerateCredentials (cx : TenantCtx) (subject : option string) (env : CredsEnv) (req : CredsRequest) : V CredsResult :=
  role ← lift (scopeResourceName cx tenantMode (cq_Role req));
  let req := mkCredsRequest role (cq_TTLSecond req) (cq_TokenID req) (cq_Tenant req) (cq_TenantMode req) in
  recorded subject "database.creds.generate" ("secrets/database/creds/" +:+ role)
    (λ x, ("role", VStr role) :: match x with Ok r => [("lease_id", VStr (cr_LeaseID r))] | Err _ => [] end)
    (DB_GenerateCredentials k env req).

Definition DatabaseService_Renew (cx : TenantCtx) (subject : option string) (now : Time) (fr : Fresh) (leaseID : string) (ttlSeconds : Z) : V CredsResult :=
  _ ← lift (assertTenantLeaseAccess cx tenantMode leaseID);
  recorded subject "database.lease.renew" ("secrets/database/leases/" +:+ leaseID) (λ _, [("lease_id", VStr leaseID)])
    (DB_Renew k now fr leaseID ttlSeconds).

Definition DatabaseService_Revoke (cx : TenantCtx) (subject : option string) (now : Time) (leaseID : string) : V (list string) :=
  _ ← lift (assertTenantLeaseAccess cx tenantMode leaseID);
  recorded subject "database.lease.revoke" ("secrets/database/leases/" +:+ leaseID) (λ _, [("lease_id", VStr leaseID)])
    (DB_RevokeLease k now leaseID).

Definition DatabaseService_CleanupExpired (subject : option string) (now : Time) (limit : Z) (clk : nat → Time) : V (Z * option error) :=
  x ← DB_CleanupExpired k now limit clk;
  _ ← when (match x.2 with None => 0 <? x.1 | Some _ => false end)
        (audit subject "database.lease.cleanup" "secrets/database/leases" (Ok tt) [("revoked", VNum x.1)]);
  mret x.
End service.

(** ** Values in statements *)

(** The text of a quoted SQL identifier or literal after its opening quote: a
    doubled quote stands for one, a single quote ends it. *)
Fixpoint lex_quoted (q : ascii) (s : string) : option (string * string) :=
  match s with
  | EmptyString => None
  | String c s =>
      if Ascii.eqb c q then
        match s with
        | String d s' => if Ascii.eqb d q then (λ x, (String q x.1, x.2)) <$> lex_quoted q s' else Some (EmptyString, s)
        | EmptyString => Some (EmptyString, EmptyString)
        end
      else (λ x, (String c x.1, x.2)) <$> lex_quoted q s
  end.

Definition starts_with (q : ascii) (s : string) : bool := match s with String c _ => Ascii.eqb c q | EmptyString => false end.

Lemma lex_quoted_end q rest : starts_with q rest = false → lex_quoted q (String q rest) = Some ("", rest).
Proof. intros Hr. simpl. rewrite Ascii.eqb_refl. destruct rest as [|c rest]; [done|]. simpl in Hr. by rewrite Hr. Qed.

Lemma lex_quoted_double q s rest : starts_with q rest = false →
  lex_quoted q (double_char q s +:+ String q rest) = Some (s, rest).
Proof.
  intros Hr. induction s as [|c s IH]; [by apply lex_quoted_end|]. cbn [double_char]. destruct (Ascii.eqb c q) eqn:E.
  - apply Ascii.eqb_eq in E as ->. cbn [String.append lex_quoted]. by rewrite !Ascii.eqb_refl, IH.
  - cbn [String.append lex_quoted]. by rewrite E, IH.
Qed.

Lemma double_char_free q s : str_mem q s = false → double_char q s = s.
Proof.
  induction s as [|c s IH]; [done|]. cbn [str_mem double_char]. intros [Hc Hs]%orb_false_iff. apply bool_decide_eq_false in Hc.
  rewrite IH by done. destruct (Ascii.eqb_spec c q); [congruence|done].
Qed.

Lemma safe_name_chars s : safePostgresUsername s = true → forallb kept_in_name (bytes_of s) = true.
Proof.
  unfold safePostgresUsername. destruct (_ || _); [done|]. destruct s as [|c s]; [done|]. intros [Hc Hs]%andb_true_iff.
  change (kept_in_name c && forallb kept_in_name (bytes_of s) = true). apply andb_true_iff. split; [|exact Hs]. unfold kept_in_name. by rewrite Hc.
Qed.

Lemma generateUsername_chars {codec : TokenCodec} role raw u : generateUsername role raw = Ok u → forallb kept_in_name (bytes_of u) = true.
Proof.
  unfold generateUsername. destruct (negb (db_DefaultUsername role =s "")).
  - destruct (safePostgresUsername (db_DefaultUsername role)) eqn:E; simpl; intros [= <-]. by apply safe_name_chars.
  - intros (suffix & _ & Hu)%res_bind_ok. cbv zeta in Hu. destruct (safePostgresUsername _) eqn:E; simpl in Hu; injection Hu as <-.
    + by apply safe_name_chars.
    + rewrite bytes_of_string. apply forallb_forall. intros c [_ Hc]%filter_In. done.
Qed.

Lemma kept_no_quote s : forallb kept_in_name (bytes_of s) = true → str_mem dquote_char s = false.
Proof.
  induction s as [|c s IH]; [done|]. cbn [bytes_of String.list_ascii_of_string forallb str_mem]. intros [Hc Hs]%andb_true_iff.
  rewrite IH by exact Hs. rewrite orb_false_r. apply bool_decide_eq_false. intros <-. by vm_compute in Hc.
Qed.

(** ** Rendering *)

(** A template in pieces: text without braces, or the name of a value. *)
Inductive piece :=
  | Lit (s : string)
  | Hole (name : string).

Definition piece_text (p : piece) : string := match p with Lit s => s | Hole name => "{{" +:+ name +:+ "}}" end.
Fixpoint template_text (ps : list piece) : string := match ps with [] => "" | p :: ps => piece_text p +:+ template_text ps end.

Definition value_of (cx : statementContext) (name : string) : string :=
  default "" (snd <$> find (λ on, on.1 =s "{{" +:+ name +:+ "}}") (replacements cx)).
Fixpoint filled (cx : statementContext) (ps : list piece) : string :=
  match ps with
  | [] => ""
  | Lit s :: ps => s +:+ filled cx ps
  | Hole name :: ps => value_of cx name +:+ filled cx ps
  end.

Definition known_holes : list string := ["username"; "password"; "name"; "database"; "schema"; "expiration"].
Definition piece_ok (p : piece) : Prop :=
  match p with Lit s => str_mem "{" s = false | Hole name => name ∈ known_holes end.

Lemma replace_go_skip pairs t s : replace_go pairs (String.length t) (t +:+ s) = replace_go pairs 0 s.
Proof. induction t as [|c t IH]; [by destruct s|]. exact IH. Qed.

Lemma replace_lit cx l s : str_mem "{" l = false → replace_go (replacements cx) 0 (l +:+ s) = l +:+ replace_go (replacements cx) 0 s.
Proof.
  induction l as [|c l IH]; [done|]. cbn [str_mem String.append]. intros [Hc Hl]%orb_false_iff. apply bool_decide_eq_false in Hc.
  cbn [replace_go]. replace (matching_old (replacements cx) (String c (l +:+ s))) with (@None (string * string)); [by rewrite IH|].
  unfold matching_old, replacements. cbn [find fst HasPrefix]. by rewrite !bool_decide_eq_false_2 by congruence.
Qed.

Lemma replace_hole cx name s : name ∈ known_holes →
  replace_go (replacements cx) 0 ("{{" +:+ name +:+ "}}" +:+ s) = value_of cx name +:+ replace_go (replacements cx) 0 s.
Proof.
  intros Hn. assert (Hm : matching_old (replacements cx) ("{{" +:+ name +:+ "}}" +:+ s) = Some ("{{" +:+ name +:+ "}}", value_of cx name)).
  { unfold known_holes in Hn. repeat (apply elem_of_cons in Hn as [->|Hn]; [destruct s; reflexivity|]). by apply elem_of_nil in Hn. }
  change ("{{" +:+ name +:+ "}}" +:+ s) with (String "{" ("{" +:+ name +:+ "}}" +:+ s)) in *. cbn [replace_go]. rewrite Hm. f_equal.
  change (String.length ("{{" +:+ name +:+ "}}") - 1)%nat with (String.length ("{" +:+ name +:+ "}}") - 0)%nat. rewrite Nat.sub_0_r.
  replace ("{" +:+ name +:+ "}}" +:+ s) with (("{" +:+ name +:+ "}}") +:+ s) by (by rewrite !str_app_assoc). apply replace_go_skip.
Qed.

(** Rendering fills every hole of a template with its value and leaves the rest
    as it is; the values are not scanned again, so a value that looks like a
    hole stays as it is. *)
Theorem render_fills `{DbExternals} templates role user password expiresAt :
  Forall (Forall piece_ok) templates →
  renderStatementsForRole (template_text <$> templates) role user password expiresAt =
  filled (buildStatementContext role user password expiresAt) <$> templates.
Proof.
  intros Ht. unfold renderStatementsForRole. rewrite <-list_fmap_compose. apply list_fmap_ext. intros i ps Hps. simpl.
  apply (Forall_lookup_1 _ _ _ _ Ht) in Hps. set (cx := buildStatementContext _ _ _ _). clearbody cx. clear Ht i.
  induction Hps as [|[l|name] ps Hp _ IH]; [done| |]; cbn [template_text filled piece_text piece_ok] in *.
  - by rewrite replace_lit, IH.
  - rewrite !str_app_assoc. by rewrite replace_hole, IH.
Qed.

(** The default statements that revoke access end by dropping the user. *)
Definition drop_template : list piece := [Lit ("DROP ROLE IF EXISTS " +:+ dquote); Hole "username"; Lit (dquote +:+ ";")].
Lemma render_fills_witness :
  let H := {| sql_Open := λ _ _, Ok tt; ExecContext := λ _ _ _, Ok tt; conn_Scheme := λ _, Ok "postgres"; conn_String := λ raw _, raw; format_expiration := λ _, "now"; postgres_url := λ _ _ _ _ _, "" |} in
  renderStatementsForRole [template_text drop_template] (role_of_config (mkRoleConfig "app" 60 0 0 0 None 0 "" "" [] [] "" "" ∅))
    "v-app-{{password}}" "pw" 0 = ["DROP ROLE IF EXISTS " +:+ quoted "v-app-{{password}}" +:+ ";"].
Proof.
  intros H. rewrite (render_fills [drop_template] _ "v-app-{{password}}" "pw" 0); [reflexivity|].
  repeat apply Forall_cons_2; first [apply Forall_nil_2|reflexivity|by left].
Defined.

(** ** Rendered statements as SQL reads them *)

(** The tokens of a statement: characters outside quotes, and quoted text with the
    quote it stands in. *)
Inductive token :=
  | TChar (c : ascii)
  | TQuoted (q : ascii) (text : string).
Definition is_quote (c : ascii) : bool := Ascii.eqb c squote_char || Ascii.eqb c dquote_char.
Inductive lexed : string → list token → Prop :=
  | lexed_end : lexed "" []
  | lexed_char c s toks : is_quote c = false → lexed s toks → lexed (String c s) (TChar c :: toks)
  | lexed_quoted q s text rest toks : is_quote q = true → lex_quoted q s = Some (text, rest) → lexed rest toks →
      lexed (String q s) (TQuoted q text :: toks).

Lemma lexed_det s toks toks' : lexed s toks → lexed s toks' → toks = toks'.
Proof.
  intros Hl. revert toks'. induction Hl as [|c s toks Hc Hl IH|q s text rest toks Hq He Hl IH]; intros toks' Hl'; inversion Hl'; subst; try congruence.
  - f_equal. by apply IH.
  - match goal with E : lex_quoted q s = Some _ |- _ => rewrite He in E; injection E as <- <- end. f_equal. by apply IH.
Qed.

(** A template as text, in which values stand at marked places: the user name
    between double quotes, the password and the expiry between single quotes,
    the names of the database and the schema where quotes come with the value.
    Text follows every value. *)
Inductive slot := SUser | SPassword | SExpiry | SDatabase | SSchema.
Record sql_template := mkSqlTemplate { st_head : string; st_rest : list (slot * string) }.

Definition plain_text (s : string) : bool := forallb (λ c, negb (is_quote c) && negb (Ascii.eqb c "{")) (bytes_of s).
Definition template_ok (t : sql_template) : bool :=
  plain_text (st_head t) && forallb (λ x, plain_text x.2 && negb (x.2 =s "")) (st_rest t).

Definition slot_pieces (sl : slot) : list piece :=
  match sl with
  | SUser => [Lit dquote; Hole "username"; Lit dquote]
  | SPassword => [Lit (String squote_char ""); Hole "password"; Lit (String squote_char "")]
  | SExpiry => [Lit (String squote_char ""); Hole "expiration"; Lit (String squote_char "")]
  | SDatabase => [Hole "database"]
  | SSchema => [Hole "schema"]
  end.
Definition template_pieces (t : sql_template) : list piece :=
  Lit (st_head t) :: concat ((λ x, slot_pieces x.1 ++ [Lit x.2]) <$> st_rest t).

Section confined.
Context {codec : TokenCodec} `{DbExternals} (role : DatabaseRole) (user password : string) (expiresAt : Time).

Definition slot_token (sl : slot) : token :=
  match sl with
  | SUser => TQuoted dquote_char user
  | SPassword => TQuoted squote_char password
  | SExpiry => TQuoted squote_char (format_expiration expiresAt)
  | SDatabase => TQuoted dquote_char (TrimSpace (databaseFromConfig (db_Config role)))
  | SSchema => TQuoted dquote_char (TrimSpace (schemaFromConfig (db_Config role)))
  end.
Definition template_tokens (t : sql_template) : list token :=
  (TChar <$> bytes_of (st_head t)) ++ concat ((λ x, slot_token x.1 :: (TChar <$> bytes_of x.2)) <$> st_rest t).

Abbreviation cx := (buildStatementContext role user password expiresAt).

Lemma lexed_plain t s toks : plain_text t = true → lexed s toks → lexed (t +:+ s) ((TChar <$> bytes_of t) ++ toks).
Proof.
  induction t as [|c t IH]; [done|]. cbn. intros [[Hc _]%andb_true_iff Ht]%andb_true_iff Hl. constructor; [by apply negb_true_iff|by apply IH].
Qed.

Lemma plain_starts t s q : plain_text t = true → t ≠ "" → is_quote q = true → starts_with q (t +:+ s) = false.
Proof.
  destruct t as [|c t]; [done|]. cbn. intros [[Hc _]%andb_true_iff _]%andb_true_iff _ Hq. apply negb_true_iff in Hc.
  destruct (Ascii.eqb_spec c q) as [->|]; [congruence|done].
Qed.

Lemma quoted_lexed q text rest toks : is_quote q = true → starts_with q rest = false → lexed rest toks →
  lexed (String q "" +:+ double_char q text +:+ String q "" +:+ rest) (TQuoted q text :: toks).
Proof. intros Hq Hr Hl. cbn [String.append]. apply lexed_quoted with rest; [done|by apply lex_quoted_double|done]. Qed.

(** Each value reads back as itself. *)
Lemma slot_lexed sl rest toks : str_mem dquote_char user = false → str_mem squote_char (format_expiration expiresAt) = false →
  starts_with dquote_char rest = false → starts_with squote_char rest = false → lexed rest toks →
  lexed (filled cx (slot_pieces sl) +:+ rest) (slot_token sl :: toks).
Proof.
  intros Hu He Hd Hs Hl. destruct sl; cbn [slot_pieces filled slot_token].
  - change (value_of cx "username") with user. rewrite <-(double_char_free dquote_char user Hu) at 1. rewrite str_app_empty_r, !str_app_assoc.
    by apply (quoted_lexed dquote_char).
  - change (value_of cx "password") with (double_char squote_char password). rewrite str_app_empty_r, !str_app_assoc. by apply quoted_lexed.
  - change (value_of cx "expiration") with (format_expiration expiresAt). rewrite <-(double_char_free squote_char (format_expiration expiresAt) He) at 1.
    rewrite str_app_empty_r, !str_app_assoc. by apply quoted_lexed.
  - change (value_of cx "database") with (quotePostgresIdent (databaseFromConfig (db_Config role))). unfold quotePostgresIdent, quoted.
    rewrite str_app_empty_r, !str_app_assoc. by apply (quoted_lexed dquote_char).
  - change (value_of cx "schema") with (quotePostgresIdent (schemaFromConfig (db_Config role))). unfold quotePostgresIdent, quoted.
    rewrite str_app_empty_r, !str_app_assoc. by apply (quoted_lexed dquote_char).
Qed.

Lemma filled_app ps qs : filled cx (ps ++ qs) = filled cx ps +:+ filled cx qs.
Proof. induction ps as [|[l|n] ps IH]; cbn [app filled]; rewrite ?IH, ?str_app_assoc; done. Qed.

Lemma template_lexed t : template_ok t = true → str_mem dquote_char user = false → str_mem squote_char (format_expiration expiresAt) = false →
  lexed (filled cx (template_pieces t)) (template_tokens t).
Proof.
  intros [Hh Hr]%andb_true_iff Hu He. unfold template_pieces, template_tokens. cbn [filled]. apply lexed_plain; [done|]. clear Hh.
  induction (st_rest t) as [|[sl x] l IH]; [constructor|]. cbn [forallb fst snd] in Hr. apply andb_true_iff in Hr as [[Hx Hne]%andb_true_iff Hr].
  apply negb_true_iff, bool_decide_eq_false in Hne. cbn [fmap list_fmap concat fst snd]. rewrite <-app_assoc, filled_app.
  cbn [app filled]. apply slot_lexed; [done|done|by apply plain_starts..|]. apply lexed_plain; [done|]. by apply IH.
Qed.

Lemma pieces_ok t : template_ok t = true → Forall piece_ok (template_pieces t).
Proof.
  assert (Hlit : ∀ x, plain_text x = true → piece_ok (Lit x)).
  { intros x. unfold plain_text. cbn. induction x as [|c x IH]; [done|]. cbn. intros [[_ Hc]%andb_true_iff Hx]%andb_true_iff. rewrite IH by done.
    rewrite orb_false_r. apply bool_decide_eq_false. intros <-. done. }
  intros [Hh Hr]%andb_true_iff. unfold template_pieces. constructor; [by apply Hlit|]. clear Hh.
  induction (st_rest t) as [|[sl x] l IH]; [constructor|]. cbn [forallb fst snd] in Hr. apply andb_true_iff in Hr as [[Hx _]%andb_true_iff Hr].
  cbn [fmap list_fmap concat fst snd]. rewrite !Forall_app. split_and!; [|by constructor; [apply Hlit|]|by apply IH].
  destruct sl; cbn; repeat constructor; unfold known_holes; set_solver.
Qed.
End confined.

(** The default statements as templates. *)
Definition default_templates (privilege : string) : list sql_template :=
  let grant what : sql_template := mkSqlTemplate ("GRANT " +:+ what +:+ " ON ALL TABLES IN SCHEMA ") [(SSchema, " TO "); (SUser, ";")] in
  let future what : sql_template := mkSqlTemplate "ALTER DEFAULT PRIVILEGES IN SCHEMA " [(SSchema, " GRANT " +:+ what +:+ " ON TABLES TO "); (SUser, ";")] in
  let what := if privilege =s privilegeReadWrite then "SELECT, INSERT, UPDATE, DELETE" else "SELECT" in
  [mkSqlTemplate "CREATE ROLE " [(SUser, " WITH LOGIN PASSWORD "); (SPassword, " VALID UNTIL "); (SExpiry, ";")];
   mkSqlTemplate "GRANT CONNECT ON DATABASE " [(SDatabase, " TO "); (SUser, ";")];
   mkSqlTemplate "GRANT USAGE ON SCHEMA " [(SSchema, " TO "); (SUser, ";")]; grant what; future what;
   mkSqlTemplate "REVOKE ALL PRIVILEGES ON ALL TABLES IN SCHEMA " [(SSchema, " FROM "); (SUser, ";")];
   mkSqlTemplate "REVOKE USAGE ON SCHEMA " [(SSchema, " FROM "); (SUser, ";")];
   mkSqlTemplate "REVOKE CONNECT ON DATABASE " [(SDatabase, " FROM "); (SUser, ";")];
   mkSqlTemplate "DROP ROLE IF EXISTS " [(SUser, ";")]].

Lemma default_statements privilege : postgresCreationStatements privilege ++ postgresRevocationStatements privilege =
  template_text ∘ template_pieces <$> default_templates privilege ∧ forallb template_ok (default_templates privilege) = true.
Proof.
  unfold postgresCreationStatements, default_templates. destruct (privilege =s privilegeReadWrite); split; reflexivity.
Qed.

(** C30. Values cannot change the SQL they are rendered into. Read as SQL reads it,
    with quoted text apart, a statement rendered for a generated user name, any
    password, and the database and schema of any role is, token by token, its
    template with the values in place: the user, database and schema names as
    identifiers, the password and the expiry as literals. It holds for every
    template in which the user name stands between double and the password and
    expiry between single quotes, and the default statements for Postgres are
    such templates. The expiry is text of the formatter, which has to be free of
    single quotes, and of templates of another form nothing is said. *)
Theorem sql_values_confined {codec : TokenCodec} `{DbExternals} role raw user password expiresAt privilege :
  generateUsername role raw = Ok user → str_mem squote_char (format_expiration expiresAt) = false →
  (∀ t, template_ok t = true → ∃ sql, renderStatementsForRole [template_text (template_pieces t)] role user password expiresAt = [sql] ∧
     ∀ toks, lexed sql toks ↔ toks = template_tokens role user password expiresAt t) ∧
  (∃ sqls, renderStatementsForRole (postgresCreationStatements privilege ++ postgresRevocationStatements privilege) role user password expiresAt = sqls ∧
     Forall2 (λ sql t, lexed sql (template_tokens role user password expiresAt t)) sqls (default_templates privilege)).
Proof.
  intros Hu He. assert (Hq : str_mem dquote_char user = false) by (by eapply kept_no_quote, generateUsername_chars). split.
  - intros t Ht. eexists. split; [exact (render_fills [template_pieces t] role user password expiresAt (Forall_cons_2 _ _ _ (pieces_ok t Ht) (Forall_nil_2 _)))|].
    pose proof (template_lexed role user password expiresAt t Ht Hq He) as Hl. intros toks. split; [intros Hl'; by eapply lexed_det|by intros ->].
  - eexists. split; [reflexivity|]. destruct (default_statements privilege) as [-> Hok]. rewrite list_fmap_compose, render_fills.
    + rewrite <-list_fmap_compose. apply Forall2_fmap_l, Forall_Forall2_diag, Forall_forall. intros t Ht%list_elem_of_In. apply template_lexed; [|done..].
      by apply (proj1 (forallb_forall _ _) Hok).
    + apply Forall_fmap, Forall_forall. intros t Ht%list_elem_of_In. apply pieces_ok. by apply (proj1 (forallb_forall _ _) Hok).
Qed.

(** ** Issuing *)

Section issuing.
Context `{Aead} `{!AeadLaws} `{Json} `{!JsonLaws} `{UrlParser} {codec : TokenCodec} `{DbExternals} (k : KeyRing).
Implicit Type s : Vault.

Lemma DB_GetRole_ok name s s' role : DB_GetRole name s = (s', Ok role) → s' = s ∧ vt_dbroles s !! name = Some role.
Proof. unfold DB_GetRole, DatabaseRoleRepository_Get, keyed_Get. destruct (vt_dbroles s !! name); naive_solver. Qed.

(** The statements a database is given, and the record of those it took. *)
Definition runnable (statements : list string) : list string := filter (λ st, st ≠ "") (TrimSpace <$> statements).
Definition taken (s : Vault) (dsn : string) (statements : list string) : Vault := set_sql s (vt_sql s ++ (pair dsn <$> statements)).

Lemma taken_nil s dsn : taken s dsn [] = s.
Proof. unfold taken, set_sql. cbn. rewrite app_nil_r. by destruct s. Qed.

Lemma exec_all_run dsn statements done : ∃ ran rest, runnable statements = ran ++ rest ∧
  (exec_all dsn statements done).1 = done ++ (pair dsn <$> ran) ∧
  match (exec_all dsn statements done).2 with Ok _ => rest = [] | Err _ => rest ≠ [] end.
Proof.
  revert done. induction statements as [|st sts IH]; intros done; cbn [exec_all].
  - exists [], []. cbn. by rewrite app_nil_r.
  - unfold runnable. rewrite fmap_cons, filter_cons. fold (runnable sts). case_bool_decide as Hst; cbv zeta.
    + rewrite decide_False by tauto. apply IH.
    + rewrite decide_True by done. destruct (ExecContext done dsn (TrimSpace st)) as [[]|e].
      * destruct (IH (done ++ [(dsn, TrimSpace st)])) as (ran & rest & -> & -> & Hr). exists (TrimSpace st :: ran), rest.
        split; [done|]. split; [cbn; by rewrite <-app_assoc|done].
      * exists [], (TrimSpace st :: runnable sts). cbn. by rewrite app_nil_r.
Qed.

(** The runner executes the statements in order up to the first that fails; if it
    fails without executing any, it may not have reached the database. *)
Lemma exec_sql_run url statements s s' x : exec_sql url statements s = (s', x) → ∃ dsn ran rest,
  runnable statements = ran ++ rest ∧ s' = taken s dsn ran ∧
  match x with Ok _ => rest = [] | Err _ => rest = [] → ran = [] end.
Proof.
  unfold exec_sql. destruct statements as [|st sts]; [intros [= <- <-]; exists "", [], []; by rewrite taken_nil|].
  destruct (parseConnectionURL url) as [[dsn driver]|e]; [|intros [= <- <-]; exists "", [], (runnable (st :: sts)); by rewrite taken_nil].
  destruct (sql_Open driver dsn); [|intros [= <- <-]; exists "", [], (runnable (st :: sts)); by rewrite taken_nil].
  destruct (exec_all_run dsn (st :: sts) (vt_sql s)) as (ran & rest & E1 & E2 & E3). destruct (exec_all dsn (st :: sts) (vt_sql s)) as [done r].
  intros [= <- <-]. cbn in E2, E3. subst done. exists dsn, ran, rest. split_and!; [done..|]. destruct r; [done|]. by intros ->.
Qed.

(** The managed part of issuing leaves the repositories alone when it succeeds. *)
Lemma run_creation_ok role path leaseID now statements s s' u : run_creation k role path leaseID now statements s = (s', Ok u) →
  ∃ dsn, s' = taken s dsn (runnable statements).
Proof.
  unfold run_creation. intros Hr. inv_run. match goal with Hx : adminConnectionURL _ _ _ = _ |- _ => injection Hx as -> _ end.
  unfold on_error in Hr. destruct (exec_sql _ _ _) as [s1 [v|e]] eqn:E.
  - injection Hr as <- _. apply exec_sql_run in E as (dsn & ran & rest & -> & -> & ->). exists dsn. by rewrite app_nil_r.
  - unfold mbind, prog_bind, ignore, raise in Hr. done.
Qed.

(** Issued credentials are leased. On success the role exists and its quota had
    room, the lifetime is positive and within the role's maximum, the lease is
    stored, active until exactly then and bound to the token that asked, the
    stored secret opens to the credentials that are returned, and for a managed
    role the rendered statements are the last that were executed. *)
Theorem db_issue_correct env req s s' r :
  vault_wf s → seals k (fr_Rnd (ce_store env)) → DB_GenerateCredentials k env req s = (s', Ok r) →
  ∃ role0 sv, let role := NormalizeDatabaseRole role0 in let t := LeaseTuningFromDatabaseRole role in
    vt_dbroles s !! cq_Role req = Some role0 ∧
    (0 < lt_MaxLeases t → CountActiveLeasesForRole (vt_leases s) (ce_count env) db_engine (cq_Role req) < lt_MaxLeases t) ∧
    0 < cr_TTLSeconds r ≤ lt_MaxTTL t ∧ cr_ExpiresAt r = plus_seconds (ce_now env) (cr_TTLSeconds r) ∧
    vt_leases s' = <[cr_LeaseID r := creds_lease req (cr_LeaseID r) (cr_TTLSeconds r) (ce_now env) (lt_Renewable t)]> (vt_leases s) ∧
    (0 < wrap64 (cr_TTLSeconds r * Second) →
       Lease_Active (creds_lease req (cr_LeaseID r) (cr_TTLSeconds r) (ce_now env) (lt_Renewable t)) (ce_now env) = true) ∧
    GetLatest (vt_secrets s') (creds_path (cq_Role req) (cr_LeaseID r)) = Ok sv ∧
    open_object k "" "" sv = Ok (creds_data (cr_Username r) (cr_Password r) (cr_LeaseID r) (cq_Role req)) ∧
    forallb kept_in_name (bytes_of (cr_Username r)) = true ∧
    (db_ExecutionMode role = ExecutionModeManaged → ∃ dsn, vt_sql s' = vt_sql s ++ (pair dsn <$> runnable (cr_Statements r))) ∧
    (db_ExecutionMode role ≠ ExecutionModeManaged → vt_sql s' = vt_sql s).
Proof.
  intros Hw Hse. unfold DB_GenerateCredentials. intros Hg. inv_run.
  match goal with Hx : DB_GetRole _ _ = _ |- _ => apply DB_GetRole_ok in Hx as [-> Hrole] end.
  match goal with Hx : CheckMaxLeases _ _ _ _ _ = _ |- _ => apply CheckMaxLeases_ok in Hx as [-> Hquota] end.
  match goal with Hx : match ResolveIssueTTL ?t ?q with _ => _ end = Ok _ |- _ =>
    destruct (ResolveIssueTTL t q) as [ttl|] eqn:Httl; [injection Hx as <-|done] end.
  match goal with Hx : generateUsername _ _ = Ok _ |- _ => apply generateUsername_chars in Hx as Huser end.
  match goal with Hx : storeSecret _ _ _ _ _ _ _ _ = _ |- _ => apply storeSecret_ok in Hx as (payload & c & enc & Hj & Hsl & E1 & Hw1 & Hlat); [|done] end.
  match goal with Hx : on_error (lease_save _) _ _ = _ |- _ => apply on_error_run in Hx; [|intros e t [? ?]; done]; apply lease_save_ok in Hx as [_ ->] end.
  match goal with Hx : when _ _ _ = _ |- _ => apply when_run in Hx; rename Hx into Hrun end.
  set (leaseID := if cq_TenantMode req then _ else _) in *. clearbody leaseID.
  match type of E1 with ?t = _ => assert (El : vt_leases t = vt_leases s ∧ vt_sql t = vt_sql s) by (by rewrite E1); destruct El as [El Es];
    clear E1; rename t into s1 end.
  match type of Hrole with _ = Some ?x => rename x into role0; exists role0 end. eexists. cbv zeta.
  cbn [cr_TTLSeconds cr_ExpiresAt cr_LeaseID cr_Username cr_Password cr_Statements].
  assert (Hend : vt_leases s' = <[leaseID := creds_lease req leaseID ttl (ce_now env)
        (lt_Renewable (LeaseTuningFromDatabaseRole (NormalizeDatabaseRole role0)))]> (vt_leases s) ∧ vt_secrets s' = vt_secrets s1).
  { destruct Hrun as [[_ (dsn & ->)%run_creation_ok]|[_ ->]]; simpl; by rewrite El. }
  destruct Hend as [-> ->]. split_and!; [done|done|apply (ResolveIssueTTL_bounds _ _ _ Httl)..|done|done| |exact Hlat| |done| |].
  - intros Hpos. unfold Lease_Active, Before. cbn. apply Z.ltb_lt. unfold plus_seconds. lia.
  - unfold open_object. cbn. rewrite (Hse _ _ _ Hsl). cbn. by rewrite (json_roundtrip _ _ Hj).
  - intros Hm. destruct Hrun as [[_ (dsn & ->)%run_creation_ok]|[Hf _]]; [|by rewrite Hm in Hf]. exists dsn. simpl. by rewrite Es.
  - intros Hm. destruct Hrun as [[Ht _]|[_ ->]]; [by apply bool_decide_eq_true in Ht|done].
Qed.
End issuing.

(** ** Revoking *)

Section revoking.
Context `{Aead} `{Json} `{UrlParser} {codec : TokenCodec} `{DbExternals} (k : KeyRing).
Implicit Types (s : Vault) (l : Lease).

(** The statements that take the access of a lease away, and whether the vault
    has to execute them. *)
Definition revocation_sql (now : Time) l s : list string :=
  let login := match (stored_login k (lease_Path l) s).2 with Ok x => x | Err _ => ("", "") end in
  match vt_dbroles s !! lease_RoleName l with
  | Some role => match db_RevocationStatements role with
                 | [] => []
                 | templates => if login.1 =s "" then [] else renderStatementsForRole templates role login.1 login.2 now
                 end
  | None => []
  end.
Definition managed l s : option DatabaseRole :=
  role ← vt_dbroles s !! lease_RoleName l;
  if db_ExecutionMode role =s ExecutionModeManaged then Some role else None.

Lemma run_revocation_run role statements s s1 x : run_revocation k role statements s = (s1, x) → ∃ dsn ran rest,
  runnable statements = ran ++ rest ∧ s1 = taken s dsn ran ∧
  match x with Ok _ => rest = [] | Err _ => statements ≠ [] ∧ (rest = [] → ran = []) end.
Proof.
  unfold run_revocation. destruct statements as [|st sts]; [intros [= <- <-]; exists "", [], []; by rewrite taken_nil|]. intros Hr.
  unfold mbind, prog_bind, on_error in Hr. destruct (adminConnectionURL k role s) as [s0 [url|e]] eqn:E; unfold adminConnectionURL in E; injection E as <- _.
  - destruct (exec_sql url (st :: sts) s) as [s2 [u|e]] eqn:Ex; injection Hr as <- <-; apply exec_sql_run in Ex as (dsn & ran & rest & E1 & E2 & E3);
      by exists dsn, ran, rest.
  - injection Hr as <- <-. exists "", [], (runnable (st :: sts)). by rewrite taken_nil.
Qed.

Lemma run_revocation_keeps role statements s s1 x : run_revocation k role statements s = (s1, x) →
  vt_secrets s1 = vt_secrets s ∧ vt_leases s1 = vt_leases s.
Proof. by intros (dsn & ran & rest & _ & -> & _)%run_revocation_run. Qed.

Lemma DB_RevokeLease_eq now id l s : secrets_wf (vt_secrets s) → vt_leases s !! id = Some l → DB_RevokeLease k now id s =
  match lease_RevokedAt l with
  | Some _ => (s, Ok [])
  | None =>
      match managed l s with
      | Some role =>
          match run_revocation k role (revocation_sql now l s) (marked now id l s) with
          | (s1, Ok _) => (dropped (lease_Path l) s1, Ok [])
          | (s1, Err e) => (s1, Err e)
          end
      | None => (dropped (lease_Path l) (marked now id l s), Ok (revocation_sql now l s))
      end
  end.
Proof.
  intros Hw Hl. unfold DB_RevokeLease. unfold mbind at 1, prog_bind at 1, lease_get, LeaseRepository_Get, keyed_Get. rewrite Hl.
  destruct (lease_RevokedAt l); [done|]. unfold mbind at 1, prog_bind at 1. unfold stored_login at 1.
  unfold mbind at 1, prog_bind at 1, attempt, DB_GetRole, DatabaseRoleRepository_Get, keyed_Get.
  unfold mbind at 1, prog_bind at 1, lease_revoke_at, on_leases, LeaseRepository_Revoke, keyed_Alter. rewrite Hl.
  fold (marked now id l s). assert (Hm : secrets_wf (vt_secrets (marked now id l s))) by exact Hw.
  unfold managed, revocation_sql. cbn [stored_login snd]. destruct (vt_dbroles s !! lease_RoleName l) as [role|]; cbn [mbind option_bind].
  - destruct (db_ExecutionMode role =s ExecutionModeManaged).
    + match goal with |- context [run_revocation k role ?st] => generalize st end. intros st.
      unfold mbind at 1, prog_bind at 1. unfold mbind at 1, prog_bind at 1.
      destruct (run_revocation k role st (marked now id l s)) as [s1 [u|e]] eqn:E; [|done].
      apply run_revocation_keeps in E as [E _]. apply drop_then. by rewrite E.
    + unfold mbind at 1, prog_bind at 1. by apply drop_then.
  - unfold mbind at 1, prog_bind at 1. by apply drop_then.
Qed.

(** What a successful revocation leaves in the store. *)
Lemma revoked_secrets now id l s s' statements : vault_wf s → vt_leases s !! id = Some l → lease_RevokedAt l = None →
  DB_RevokeLease k now id s = (s', Ok statements) →
  vt_secrets s' = match GetLatest (vt_secrets s) (lease_Path l) with
                  | Ok m => <[(lease_Path l, sv_Version m) := sv_destroy m]> (vt_secrets s)
                  | Err _ => vt_secrets s
                  end.
Proof.
  intros Hw Hl Hr. rewrite (DB_RevokeLease_eq now id l s (vw_secrets _ Hw) Hl), Hr. destruct (managed l s) as [role|].
  - destruct (run_revocation k role _ _) as [s1 [u|e]] eqn:E; intros [= <- <-].
    destruct (run_revocation_keeps _ _ _ _ _ E) as [Es _]. rewrite dropped_secrets; rewrite Es; [done|apply Hw].
  - intros [= <- <-]. rewrite dropped_secrets by apply Hw. done.
Qed.

(** Revoking a lease that was not revoked marks it and nothing else in the
    leases. When the call succeeds the newest stored credentials are destroyed
    and the statements of the role were executed (managed) or are handed to the
    caller (client); when it fails, it is the statements of a managed role that
    failed, the store did not change, and the database took those before the one
    that failed. *)
Theorem db_revoke_correct now id l s s' x :
  vault_wf s → vt_leases s !! id = Some l → lease_RevokedAt l = None → DB_RevokeLease k now id s = (s', x) →
  vt_leases s' = <[id := lease_revoke l now]> (vt_leases s) ∧
  match x with
  | Ok statements =>
      vt_secrets s' = match GetLatest (vt_secrets s) (lease_Path l) with
                      | Ok m => <[(lease_Path l, sv_Version m) := sv_destroy m]> (vt_secrets s)
                      | Err _ => vt_secrets s
                      end ∧
      match managed l s with
      | Some _ => statements = [] ∧ ∃ dsn, vt_sql s' = vt_sql s ++ (pair dsn <$> runnable (revocation_sql now l s))
      | None => statements = revocation_sql now l s ∧ vt_sql s' = vt_sql s
      end
  | Err _ => is_Some (managed l s) ∧ revocation_sql now l s ≠ [] ∧ vt_secrets s' = vt_secrets s ∧
      ∃ dsn ran rest, runnable (revocation_sql now l s) = ran ++ rest ∧ (rest = [] → ran = []) ∧ vt_sql s' = vt_sql s ++ (pair dsn <$> ran)
  end.
Proof.
  intros Hw Hl Hr Hd. assert (Hs : ∀ st, x = Ok st → _) by (intros st ->; exact (revoked_secrets _ _ _ _ _ _ Hw Hl Hr Hd)).
  rewrite (DB_RevokeLease_eq now id l s (vw_secrets _ Hw) Hl), Hr in Hd. destruct (managed l s) as [role|] eqn:Em.
  - destruct (run_revocation k role (revocation_sql now l s) (marked now id l s)) as [s1 [u|e]] eqn:E; injection Hd as <- <-.
    + rewrite (Hs _ eq_refl). destruct (dropped_fields (lease_Path l) s1) as (-> & -> & _). destruct (run_revocation_keeps _ _ _ _ _ E) as [_ ->].
      split_and!; [done|done|done|].
      apply run_revocation_run in E as (dsn & ran & rest & Eq & -> & ->). rewrite app_nil_r in Eq. exists dsn. by rewrite Eq.
    + apply run_revocation_run in E as (dsn & ran & rest & Eq & -> & Hne & Hr2). split_and!; [done|by eexists|done..|]. by exists dsn, ran, rest.
  - injection Hd as <- <-. rewrite (Hs _ eq_refl). by destruct (dropped_fields (lease_Path l) (marked now id l s)) as (-> & -> & _).
Qed.

(** C40. A failed revocation is never made good. When a revocation returns an error,
    as it does when the admin credentials of a managed role cannot be read, or its
    database cannot be reached or refuses a statement, the lease is already marked:
    the database has taken the statements before the failure and none after it, the
    stored credentials are left, every later revocation of the lease answers success
    without executing anything, and the cleanup of expired leases does not see
    the lease any more. The stores are well formed and the lease was stored and
    not revoked. *)
Theorem failed_revocation_final now id l s s' e now' before limit :
  vault_wf s → vt_leases s !! id = Some l → lease_RevokedAt l = None → DB_RevokeLease k now id s = (s', Err e) →
  (∃ dsn ran rest, runnable (revocation_sql now l s) = ran ++ rest ∧ (rest = [] → ran = []) ∧ vt_sql s' = vt_sql s ++ (pair dsn <$> ran)) ∧
  vt_secrets s' = vt_secrets s ∧
  DB_RevokeLease k now' id s' = (s', Ok []) ∧
  Forall (λ l', lease_ID l' ≠ id) (LeaseRepository_ListExpired (vt_leases s') before limit).
Proof.
  intros Hw Hl Hr Hd. assert (Hk := vw_leases _ Hw). rewrite (DB_RevokeLease_eq now id l s (vw_secrets _ Hw) Hl), Hr in Hd.
  destruct (managed l s) as [role|]; [|done].
  destruct (run_revocation k role _ _) as [s1 [u|e1]] eqn:E; [done|]. injection Hd as <- <-.
  apply run_revocation_run in E as (dsn & ran & rest & Eq & -> & _ & Hr2). split_and!; [by exists dsn, ran, rest|done| |].
  - rewrite (DB_RevokeLease_eq now' id (lease_revoke l now) (taken (marked now id l s) dsn ran)); [done|apply Hw|]. by cbn; rewrite lookup_insert_eq.
  - apply Forall_forall. intros l' Hin Hid. unfold LeaseRepository_ListExpired in Hin.
    apply subseteq_take in Hin. rewrite elem_of_sort_by_Z in Hin. apply list_elem_of_filter in Hin as [[Hn _] [i Hi]%elem_of_map_values].
    cbn in Hi. destruct (decide (i = id)) as [->|Hne].
    + rewrite lookup_insert_eq in Hi. injection Hi as <-. done.
    + rewrite lookup_insert_ne in Hi by done. destruct (Hk _ _ Hi) as [E _]. cbn in E. congruence.
Qed.

(** Every operation keeps the repositories well formed. *)
Lemma preserves_DB_GetRole name : preserves vault_wf (DB_GetRole name).
Proof. by apply preserves_pure. Qed.
Lemma preserves_admin role : preserves vault_wf (adminConnectionURL k role).
Proof. by apply preserves_pure. Qed.
Lemma preserves_exec url statements : preserves vault_wf (exec_sql url statements).
Proof.
  intros s Hs. destruct (exec_sql url statements s) as [s' x] eqn:E. apply exec_sql_run in E as (dsn & ran & rest & _ & -> & _). by apply vault_wf_sql.
Qed.
Lemma preserves_login path : preserves vault_wf (stored_login k path).
Proof. by apply preserves_pure. Qed.
#[local] Hint Resolve preserves_DB_GetRole preserves_admin preserves_exec preserves_login : prog.

Lemma preserves_run_revocation role statements : preserves vault_wf (run_revocation k role statements).
Proof. unfold run_revocation. destruct statements; eauto 8 with prog. Qed.
#[local] Hint Resolve preserves_run_revocation : prog.

Lemma preserves_DB_RevokeLease now id : preserves vault_wf (DB_RevokeLease k now id).
Proof.
  unfold DB_RevokeLease. apply always_bind; [apply _|auto with prog|]. intros l. destruct (lease_RevokedAt l); [auto with prog|].
  apply always_bind; [apply _|auto with prog|intros login]. apply always_bind; [apply _|auto with prog|intros role].
  apply always_bind; [apply _|auto with prog|intros _]. apply always_bind; [apply _| |intros st; eauto with prog].
  destruct role as [role|]; [|auto with prog]. apply always_if; eauto with prog.
Qed.

Lemma preserves_DB_SaveRole cfg : preserves vault_wf (DB_SaveRole cfg).
Proof.
  intros s Hs. unfold DB_SaveRole. destruct (DatabaseRole_Validate _) as [role|]; [|done].
  destruct (DatabaseRoleRepository_Save _ _) as [m|] eqn:E; [|done]. destruct Hs. split; try done. by eapply keyed_Save_wf.
Qed.

Lemma preserves_run_creation role path leaseID now statements : preserves vault_wf (run_creation k role path leaseID now statements).
Proof. unfold run_creation. eauto 9 with prog. Qed.
#[local] Hint Resolve preserves_run_creation : prog.

Lemma preserves_DB_GenerateCredentials env req : preserves vault_wf (DB_GenerateCredentials k env req).
Proof. unfold DB_GenerateCredentials. cbv zeta. repeat (apply always_bind; [apply _|eauto 6 with prog|intros ?]). eauto with prog. Qed.

Lemma preserves_DB_Renew now fr id ttl : preserves vault_wf (DB_Renew k now fr id ttl).
Proof.
  unfold DB_Renew. apply always_bind; [apply _| |].
  - unfold db_renew_read. repeat (apply always_bind; [apply _|eauto 6 with prog|intros ?]). eauto with prog.
  - intros [[[l role] t] data]. cbv zeta. repeat (apply always_bind; [apply _|eauto 6 with prog|intros ?]). eauto with prog.
Qed.

Lemma preserves_db_renew_loop now deadline limit envs leases i n : preserves vault_wf (db_renew_loop k now deadline limit envs i n leases).
Proof.
  revert i n. induction leases as [|l leases IH]; intros i n; simpl; [auto with prog|].
  apply always_if; [auto with prog|]. apply always_if; [auto with prog|].
  apply always_bind; [apply _| |auto]. apply always_attempt, preserves_DB_Renew.
Qed.
Lemma preserves_DB_RenewExpiring now grace limit envs : preserves vault_wf (DB_RenewExpiring k now grace limit envs).
Proof. intros s. apply preserves_db_renew_loop. Qed.

Lemma preserves_db_cleanup_loop clk leases i n first : preserves vault_wf (db_cleanup_loop k clk i n first leases).
Proof.
  revert i n first. induction leases as [|l leases IH]; intros i n first; simpl; [auto with prog|]. apply always_if; [auto with prog|].
  apply always_bind; [apply _| |intros [st|e]; auto]. apply always_attempt, preserves_DB_RevokeLease.
Qed.
Lemma preserves_DB_CleanupExpired now limit clk : preserves vault_wf (DB_CleanupExpired k now limit clk).
Proof. intros s. apply preserves_db_cleanup_loop. Qed.

(** ** Renewing, then revoking *)

Lemma db_renew_read_ok now id ttl s s' x : db_renew_read k now id ttl s = (s', Ok x) →
  s' = s ∧ ∃ l role latest data, x = (l, role, ResolveRenewTTL (LeaseTuningFromDatabaseRole role) ttl (lease_TTLSeconds l) now (lease_ExpiresAt l), data) ∧
    vt_leases s !! id = Some l ∧ Lease_Active l now = true ∧ lease_Renewable l = true ∧ vt_dbroles s !! lease_RoleName l = Some role ∧
    GetLatest (vt_secrets s) (lease_Path l) = Ok latest ∧ open_object k "decrypt credentials" "unmarshal credentials" latest = Ok data.
Proof.
  unfold db_renew_read. intros Hr. inv_run. match goal with Hx : lease_get _ _ = _ |- _ => apply lease_get_ok in Hx as [-> Hl] end.
  match goal with Hx : DB_GetRole _ _ = _ |- _ => apply DB_GetRole_ok in Hx as [-> Hrole] end.
  match goal with Hx : secrets (store_latest _) ?t = (?t', _) |- _ => unfold secrets, zoom, store_latest in Hx; injection Hx as Ht Hlat;
    assert (t' = t) as -> by (rewrite <-Ht; by destruct t) end.
  bool_props. split; [done|]. by eexists _, _, _, _.
Qed.

(** Revoking a renewed lease leaves the credentials in the store. Every renewal
    writes another version of them and a revocation destroys the newest one
    only, so after it the version from before the renewal is the current one
    and still opens to the same credentials. *)
Theorem renewed_credentials_survive now id ttl fr s s1 r l now' s2 statements :
  vault_wf s → vt_leases s !! id = Some l → DB_Renew k now fr id ttl s = (s1, Ok r) → DB_RevokeLease k now' id s1 = (s2, Ok statements) →
  GetLatest (vt_secrets s2) (lease_Path l) = GetLatest (vt_secrets s) (lease_Path l) ∧
  ∃ sv data, GetLatest (vt_secrets s2) (lease_Path l) = Ok sv ∧ open_object k "decrypt credentials" "unmarshal credentials" sv = Ok data ∧
    str_field "username" data = cr_Username r ∧ str_field "password" data = cr_Password r.
Proof.
  intros Hw Hl Hrn Hrv. unfold DB_Renew in Hrn. apply prog_bind_run in Hrn as (s0 & x & Hrd & Hrn).
  apply db_renew_read_ok in Hrd as (-> & l0 & role & latest & data & -> & Hl0 & Hact & _ & _ & Hlat & Hop). rewrite Hl in Hl0. injection Hl0 as <-. inv_run.
  set (t := ResolveRenewTTL _ _ _ _ _) in *.
  match goal with Hx : lease_save _ _ = (?sa, _) |- _ => assert (Hwa : vault_wf sa) by (exact (preserves_run _ _ _ _ _ (preserves_lease_save _) Hx Hw));
    apply lease_save_ok in Hx as [_ Ea] end. subst.
  match goal with Hx : storeSecret _ _ _ _ _ _ _ _ = (?sb, _) |- _ => assert (Hwb : vault_wf sb) by (exact (preserves_run _ _ _ _ _ (preserves_storeSecret _ _ _ _ _ _ _) Hx Hwa));
    apply storeSecret_ok in Hx as (payload & c & enc & _ & _ & Eb & Hwsb & Hlatb); [|done]; rename sb into sb' end.
  cbn [vt_secrets set_leases] in *. set (new := sv_with_version _ _) in *.
  assert (Hid : lease_ID l = id) by (by destruct (vw_leases _ Hw _ _ Hl)).
  assert (Hlb : vt_leases sb' !! id = Some (lease_extend l t (plus_seconds now t))) by (rewrite Eb; cbn; by rewrite Hid, lookup_insert_eq).
  assert (Hrevd : lease_RevokedAt (lease_extend l t (plus_seconds now t)) = None).
  { cbn. unfold Lease_Active in Hact. by destruct (lease_RevokedAt l). }
  assert (Hw2 := preserves_run _ _ _ _ _ (preserves_DB_RevokeLease now' id) Hrv Hwb).
  assert (Es2 := revoked_secrets _ _ _ _ _ _ Hwb Hlb Hrevd Hrv). cbn [lease_Path lease_extend] in Es2. rewrite Hlatb in Es2.
  assert (Esame : GetLatest (vt_secrets s2) (lease_Path l) = GetLatest (vt_secrets s) (lease_Path l)).
  { apply GetLatest_live; [apply Hw|apply Hw2|]. intros w sv. unfold live. rewrite Es2, Eb. cbn [vt_secrets set_secrets set_leases sv_Version new sv_with_version].
    rewrite insert_insert_eq. destruct (decide (w = max_version (vt_secrets s) (lease_Path l) + 1)) as [->|Hne].
    - rewrite lookup_insert_eq, next_version_fresh by lia. split; [intros [[= <-] ?]; done|by intros [? _]].
    - by rewrite lookup_insert_ne by congruence. }
  split; [done|]. exists latest, data. by rewrite Esame.
Qed.
End revoking.

(** ** Examples *)

#[local] Existing Instance toy_aead.
#[local] Existing Instance toy_laws.
#[local] Existing Instance text_json.
#[local] Existing Instance text_json_laws.
#[local] Existing Instance toy_codec.
#[local] Instance any_url : UrlParser := λ _, false.

(** A database that takes every statement but those that drop a role when the
    address says so. *)
#[local] Instance demo_externals : DbExternals := {|
  sql_Open := λ _ _, Ok tt;
  ExecContext := λ _ dsn stmt, if HasPrefix dsn "stuck" && HasPrefix stmt "DROP ROLE" then Err (Plain "role owns objects") else Ok tt;
  conn_Scheme := λ _, Ok "postgres";
  conn_String := λ raw _, raw;
  format_expiration := λ t, Itoa t;
  postgres_url := λ user password host path mode, "postgres://" +:+ user +:+ ":" +:+ password +:+ "@" +:+ host +:+ path;
|}.

#[local] Strategy 1000 [DB_GenerateCredentials DB_Renew DB_RevokeLease].

Definition app_role (mode : string) : RoleConfig :=
  mkRoleConfig "app" 600 0 3600 0 None 5 "" "" [] [] mode "admin/db" {["db_type" := VStr "postgres"]}.
Definition demo_admin (url : string) : object := [("connection_url", VStr url)].

Definition setup (mode url : string) : V unit :=
  _ ← DB_SaveRole (app_role mode);
  storeSecret (demo_ring "a") (demo_fresh 1 10) "admin/db" "" 0 0 (demo_admin url).
Definition demo_vault (mode url : string) : Vault := (setup mode url empty_vault).1.
Lemma demo_vault_wf mode url : vault_wf (demo_vault mode url).
Proof.
  apply (preserves_run vault_wf (setup mode url) empty_vault _ (setup mode url empty_vault).2);
    [|by unfold demo_vault; destruct (setup mode url empty_vault)|apply empty_vault_wf].
  unfold setup. apply always_bind; [apply _|apply preserves_DB_SaveRole|]. auto with prog.
Qed.

Definition demo_env : CredsEnv := mkCredsEnv 1000 1000 (demo_fresh 2 1000) (Ok (bytes_of "L1")) (Ok (bytes_of "u1")) (Ok (bytes_of "it's")).
Definition demo_req : CredsRequest := mkCredsRequest "app" 300 "tok" "" false.
Definition issue (mode url : string) : Vault * res CredsResult := DB_GenerateCredentials (demo_ring "a") demo_env demo_req (demo_vault mode url).

Definition issued (mode url : string) : Vault := (issue mode url).1.
Lemma issued_wf mode url : vault_wf (issued mode url).
Proof.
  apply (preserves_run vault_wf _ (demo_vault mode url) _ (issue mode url).2 (preserves_DB_GenerateCredentials (demo_ring "a") demo_env demo_req));
    [|apply demo_vault_wf]. by unfold issued, issue; destruct (DB_GenerateCredentials _ _ _ _).
Qed.


Lemma sql_values_confined_witness : ∃ sqls,
  renderStatementsForRole (postgresCreationStatements "readonly" ++ postgresRevocationStatements "readonly")
    (NormalizeDatabaseRole (role_of_config (app_role "managed"))) "v-app-u1" "it's" 9 = sqls ∧
  sqls !! 0%nat = Some ("CREATE ROLE " +:+ quoted "v-app-u1" +:+ " WITH LOGIN PASSWORD 'it''s' VALID UNTIL '9';").
Proof.
  refine (let '(ex_intro _ sqls (conj E _)) := proj2 (sql_values_confined (NormalizeDatabaseRole (role_of_config (app_role "managed")))
    (Ok (bytes_of "u1")) "v-app-u1" "it's" 9 "readonly" _ _) in ex_intro _ sqls (conj E _)); [reflexivity..|]. rewrite <-E. vm_compute. reflexivity.
Defined.

(** The run of [issue], with what the caller sees of it. *)
Lemma demo_issue_run url : url = "sqlite:pg" ∨ url = "sqlite:stuck" →
  ∃ r, DB_GenerateCredentials (demo_ring "a") demo_env demo_req (demo_vault "managed" url) = (issued "managed" url, Ok r) ∧
       (cr_LeaseID r, cr_Username r, cr_Password r) = ("l_L1", "v-app-u1", "it's").
Proof.
  intros Hu. assert (E : (λ r, (cr_LeaseID r, cr_Username r, cr_Password r)) <$> (issue "managed" url).2 = Ok ("l_L1", "v-app-u1", "it's"))
    by (destruct Hu as [->| ->]; vm_compute; reflexivity).
  unfold issued. unfold issue in *. destruct (DB_GenerateCredentials _ _ _ _) as [s' [r|e]]; [|discriminate E]. injection E as E1 E2 E3.
  exists r. by rewrite E1, E2, E3.
Qed.

Lemma issued_lease url : url = "sqlite:pg" ∨ url = "sqlite:stuck" →
  ∃ l, vt_leases (issued "managed" url) !! "l_L1" = Some l ∧ lease_RevokedAt l = None ∧ lease_Path l = "database/creds/app/l_L1".
Proof.
  intros Hu. assert (E : (λ l, (lease_RevokedAt l, lease_Path l)) <$> vt_leases (issued "managed" url) !! "l_L1" = Some (None, "database/creds/app/l_L1"))
    by (destruct Hu as [->| ->]; vm_compute; reflexivity).
  destruct (vt_leases (issued "managed" url) !! "l_L1") as [l|]; [|discriminate E]. injection E as E1 E2. by exists l.
Qed.

(** The credentials of a managed role, as they are stored. *)
Lemma db_issue_correct_witness : ∃ sv, GetLatest (vt_secrets (issued "managed" "sqlite:pg")) "database/creds/app/l_L1" = Ok sv ∧
  open_object (demo_ring "a") "" "" sv = Ok (creds_data "v-app-u1" "it's" "l_L1" "app").
Proof.
  destruct (demo_issue_run "sqlite:pg" (or_introl eq_refl)) as (r & E & Er). injection Er as E1 E2 E3.
  destruct (db_issue_correct (demo_ring "a") demo_env demo_req _ _ r (demo_vault_wf "managed" "sqlite:pg") demo_seals E)
    as (role & sv & _ & _ & _ & _ & _ & _ & Hl & Ho & _).
  rewrite E1, E2, E3 in Ho. rewrite E1 in Hl. exists sv. split; [exact Hl|exact Ho].
Defined.

Lemma db_revoke_correct_witness : ∃ s' l, DB_RevokeLease (demo_ring "a") 2000 "l_L1" (issued "managed" "sqlite:pg") = (s', Ok []) ∧
  vt_leases s' = <["l_L1" := lease_revoke l 2000]> (vt_leases (issued "managed" "sqlite:pg")).
Proof.
  destruct (issued_lease "sqlite:pg" (or_introl eq_refl)) as (l & Hl & Hr & _). eexists _, l.
  assert (E : DB_RevokeLease (demo_ring "a") 2000 "l_L1" (issued "managed" "sqlite:pg") = (_, Ok [])) by (apply run_eq; vm_compute; reflexivity).
  split; [exact E|]. exact (proj1 (db_revoke_correct (demo_ring "a") 2000 "l_L1" l _ _ _ (issued_wf "managed" "sqlite:pg") Hl Hr E)).
Defined.

(** A database that refuses to drop the account. *)
Lemma failed_revocation_final_witness : ∃ s' e, DB_RevokeLease (demo_ring "a") 2000 "l_L1" (issued "managed" "sqlite:stuck") = (s', Err e) ∧
  DB_RevokeLease (demo_ring "a") 3000 "l_L1" s' = (s', Ok []).
Proof.
  destruct (issued_lease "sqlite:stuck" (or_intror eq_refl)) as (l & Hl & Hr & _).
  destruct (DB_RevokeLease (demo_ring "a") 2000 "l_L1" (issued "managed" "sqlite:stuck")) as [s' [st|e]] eqn:E.
  - assert (Hok : is_ok (DB_RevokeLease (demo_ring "a") 2000 "l_L1" (issued "managed" "sqlite:stuck")).2 = false) by (vm_compute; reflexivity).
    rewrite E in Hok. discriminate Hok.
  - exists s', e. split; [reflexivity|].
    exact (proj1 (proj2 (proj2 (failed_revocation_final (demo_ring "a") 2000 "l_L1" l _ s' e 3000 0 0 (issued_wf "managed" "sqlite:stuck") Hl Hr E)))).
Defined.

(** Three of the four statements stay executed. *)
Example revocation_half_done :
  let s := issued "managed" "sqlite:stuck" in
  let '(s', x) := DB_RevokeLease (demo_ring "a") 2000 "l_L1" s in
  is_ok x = false ∧ length (vt_sql s') = (length (vt_sql s) + 3)%nat.
Proof. vm_compute. split; reflexivity. Qed.

Definition renewed_run : Vault * res CredsResult := DB_Renew (demo_ring "a") 2000 (demo_fresh 3 2000) "l_L1" 60 (issued "managed" "sqlite:pg").
Lemma renewed_credentials_survive_witness : ∃ s2 sv, DB_RevokeLease (demo_ring "a") 3000 "l_L1" renewed_run.1 = (s2, Ok []) ∧
  GetLatest (vt_secrets s2) "database/creds/app/l_L1" = Ok sv.
Proof.
  destruct (issued_lease "sqlite:pg" (or_introl eq_refl)) as (l & Hl & _ & Hp).
  assert (Hok : is_ok renewed_run.2 = true) by (vm_compute; reflexivity).
  assert (E : DB_RevokeLease (demo_ring "a") 3000 "l_L1" renewed_run.1 = (_, Ok [])) by (apply run_eq; vm_compute; reflexivity).
  eexists. assert (Hrn : renewed_run = (renewed_run.1, renewed_run.2)) by (by destruct renewed_run). unfold renewed_run at 1 in Hrn.
  destruct renewed_run.2 as [r|e] eqn:E2; [|discriminate Hok].
  destruct (renewed_credentials_survive (demo_ring "a") 2000 "l_L1" 60 (demo_fresh 3 2000) _ _ r l 3000 _ _ (issued_wf "managed" "sqlite:pg") Hl Hrn E)
    as (_ & sv & data & Hg & _). rewrite Hp in Hg. exists sv. split; [exact E|exact Hg].
Defined.

(** A managed role whose administrator credentials cannot be read: the request
    fails, yet its lease and its credentials are kept, and the lease counts
    against the quota of the role until it expires. *)
Example unready_role_keeps_lease :
  let s := (DB_SaveRole (app_role "managed") empty_vault).1 in
  let '(s', x) := DB_GenerateCredentials (demo_ring "a") demo_env demo_req s in
  is_ok x = false ∧ CountActiveLeasesForRole (vt_leases s') 1000 db_engine "app" = 1 ∧
  is_ok (GetLatest (vt_secrets s') "database/creds/app/l_L1") = true ∧ vt_sql s' = [].
Proof. vm_compute. repeat split. Qed.

(** The fallback of [generateUsername] drops characters but not length: with a
    long role name the account name exceeds what [safePostgresUsername] takes. *)
Definition long_role : DatabaseRole := role_of_config (rf_with_name (app_role "client") (string_of (replicate 70 "r"%char))).
Example username_over_limit :
  is_ok (DatabaseRole_Validate long_role) = true ∧
  match generateUsername long_role (Ok (bytes_of "u1")) with
  | Ok u => String.length u = 75%nat ∧ safePostgresUsername u = false
  | Err _ => False
  end.
Proof. vm_compute. repeat split. Qed.
