(* ===== verification/SSHEngine.v ===== *)
(** Dynamic SSH credentials: the engine internal/engine/secrets/ssh/engine.go
    with the certificates it signs (signer.go), and the audited, tenant-scoped
    service internal/service/ssh.go.

    Keys, signatures and their encodings are golang.org/x/crypto/ssh: the class
    [SshExternals]. The engine shares its state and the storage of credentials
    with the database engine (Credentials.v). *)

From S2P Require Import Prelude.
From S2P Require Import Effects.
From S2P Require Import GoLib.
From S2P Require Import Domain.
From S2P Require Import DynamicRoles.
From S2P Require Import Repos.
From S2P Require Import AuditHelper.
From S2P Require Import Tenant.
From S2P Require Import TokenStore.
From S2P Require Import SecretRepo.
From S2P Require Import Crypto.
From S2P Require Import KVEngine.
From S2P Require Import Cubbyhole.
From S2P Require Import Credentials.

#[local] Open Scope Z_scope.

(** ** signer.go *)

(** The fields of the certificate that is signed; the certificate type is
    always that of a user. *)
Record Certificate (PublicKey : Type) := mkCertificate {
  ct_Key : PublicKey;
  ct_Serial : Z;
  ct_KeyId : string;
  ct_ValidPrincipals : list string;
  ct_ValidAfter : Z;
  ct_ValidBefore : Z;
  ct_Extensions : option (gmap string string);
  ct_CriticalOptions : option (gmap string string);
}.
Arguments mkCertificate {_}.
Arguments ct_Key {_}.
Arguments ct_Serial {_}.
Arguments ct_KeyId {_}.
Arguments ct_ValidPrincipals {_}.
Arguments ct_ValidAfter {_}.
Arguments ct_ValidBefore {_}.
Arguments ct_Extensions {_}.
Arguments ct_CriticalOptions {_}.

Class SshExternals := {
  Signer : Type;
  RawKey : Type;
  PublicKey : Type;
  ParsePrivateKey : string → res Signer;
  ParseRawPrivateKey : string → res RawKey;
  NewSignerFromKey : RawKey → res Signer;
  MarshalPrivateKey : RawKey → res string;
  signer_PublicKey : Signer → PublicKey;
  SignCert : Signer → Certificate PublicKey → res string;
  time_digest : Time → bytes;
}.

Record CertOptions := mkCertOptions {
  co_KeyID : string;
  co_Principals : list string;
  co_ValidAfter : Time;
  co_ValidBefore : Time;
  co_Extensions : option (gmap string string);
  co_CriticalOptions : option (gmap string string);
}.

Definition certEpochSeconds (t : Time) : res Z :=
  if Unix t <? 0 then Err (Plain "certificate time is before unix epoch") else Ok (Unix t).

Definition copyStringMap (m : option (gmap string string)) : option (gmap string string) :=
  match m with
  | None => None
  | Some m => if bool_decide (m = ∅) then None else Some m
  end.

(** [out<<8 | uint64(b)] over the bytes, on 64 bits. *)
Definition uint64_of (b : bytes) : Z :=
  fold_left (λ out c, Z.lor (Z.shiftl out 8 mod 2 ^ 64) (Z.of_N (N_of_ascii c))) b 0.

(** What signing and key generation take from outside: a fresh key of each
    type, the bytes of the serial number, and the clock they fall back to. *)
Record SshRandom `{SshExternals} := mkSshRandom {
  sr_key : string → res RawKey;
  sr_serial : res bytes;
  sr_clock : Time;
}.

Section signer.
Context `{SshExternals}.

Definition parseUserSigner (pemBytes : string) : res Signer :=
  match ParsePrivateKey pemBytes with
  | Ok signer => Ok signer
  | Err _ =>
      match ParseRawPrivateKey pemBytes with
      | Ok raw => NewSignerFromKey raw
      | Err e => Err (Plain "parse user private key")
      end
  end.

Definition parseCAPrivateKey (pemBytes : string) : res Signer :=
  match ParsePrivateKey pemBytes with
  | Ok signer => Ok signer
  | Err _ =>
      match ParseRawPrivateKey pemBytes with
      | Ok raw => NewSignerFromKey raw
      | Err e => Err (Plain "parse ca private key")
      end
  end.

Definition marshalSignerFromKey (key : RawKey) : res (Signer * string) :=
  signer ← NewSignerFromKey key;
  block ← MarshalPrivateKey key;
  Ok (signer, block).

Definition generateUserKeyPEM (rnd : SshRandom) (keyType : string) : res (Signer * string) :=
  if (keyType =s "") || (keyType =s SSHKeyTypeED25519)
  then key ← sr_key rnd SSHKeyTypeED25519; marshalSignerFromKey key
  else if keyType =s SSHKeyTypeRSA then key ← sr_key rnd SSHKeyTypeRSA; marshalSignerFromKey key
  else Err (Plain ("unsupported key type " +:+ quoted keyType)).

Definition randomSerial (rnd : SshRandom) : Z :=
  match sr_serial rnd with
  | Ok buf => uint64_of buf
  | Err _ => uint64_of (take 8 (time_digest (sr_clock rnd)))
  end.

(** The certificate a request asks for. *)
Definition user_certificate (rnd : SshRandom) (pub : PublicKey) (validAfter validBefore : Z) (opts : CertOptions) : Certificate PublicKey :=
  mkCertificate pub (randomSerial rnd) (co_KeyID opts) (co_Principals opts) validAfter validBefore
    (copyStringMap (co_Extensions opts)) (copyStringMap (co_CriticalOptions opts)).

Definition signUserCertificate (rnd : SshRandom) (caSigner userSigner : Signer) (opts : CertOptions) : res string :=
  validAfter ← certEpochSeconds (co_ValidAfter opts);
  validBefore ← certEpochSeconds (co_ValidBefore opts);
  match SignCert caSigner (user_certificate rnd (signer_PublicKey userSigner) validAfter validBefore opts) with
  | Ok signed => Ok signed
  | Err e => Err (Plain "sign ssh certificate")
  end.
End signer.

(** ** engine.go *)

Definition ssh_engine : string := "ssh".

Record SshRoleConfig := mkSshRoleConfig {
  sf_Name : string;
  sf_TTLSeconds : Z;
  sf_DefaultTTL : Z;
  sf_MaxTTL : Z;
  sf_Period : Z;
  sf_Renewable : option bool;
  sf_MaxLeases : Z;
  sf_CAKeyPath : string;
  sf_AllowedUsers : list string;
  sf_DefaultUser : string;
  sf_KeyType : string;
  sf_Extensions : option (gmap string string);
}.

Record SshCredsRequest := mkSshCredsRequest {
  sq_Role : string;
  sq_Username : string;
  sq_TTLSecond : Z;
  sq_TokenID : string;
  sq_Tenant : string;
  sq_TenantMode : bool;
}.

Record SshCredsResult := mkSshCredsResult {
  sx_LeaseID : string;
  sx_Username : string;
  sx_PrivateKey : string;
  sx_SignedKey : string;
  sx_Role : string;
  sx_TTLSeconds : Z;
  sx_MaxTTL : Z;
  sx_ExpiresAt : Time;
  sx_Warnings : list string;
}.

(** The clock as the engine and the quota check read it, the write of the
    secret, the bytes of the lease identifier, and keys and serial numbers. *)
Record SshEnv `{SshExternals} := mkSshEnv {
  se_now : Time;
  se_count : Time;
  se_store : Fresh;
  se_lease : res bytes;
  se_random : SshRandom;
}.

Definition role_of_ssh_config (cfg : SshRoleConfig) : SSHRole :=
  mkSSHRole (sf_Name cfg) (sf_TTLSeconds cfg) (sf_DefaultTTL cfg) (sf_MaxTTL cfg) (sf_Period cfg) (default true (sf_Renewable cfg))
    (sf_MaxLeases cfg) (sf_CAKeyPath cfg) (sf_AllowedUsers cfg) (sf_DefaultUser cfg) (sf_KeyType cfg) (sf_Extensions cfg) 0 0.

(** The user a request is for. *)
Definition requested_user (role : SSHRole) (asked : string) : string :=
  let username := TrimSpace asked in
  let username := if username =s "" then ssh_DefaultUser role else username in
  match ssh_AllowedUsers role with
  | [only] => if username =s "" then only else username
  | _ => username
  end.

Definition cert_options (roleName username : string) (now expiresAt : Time) (role : SSHRole) : CertOptions :=
  mkCertOptions (roleName +:+ "-" +:+ username) [username] (now - 30 * Second) expiresAt (ssh_Extensions role) None.

Definition ssh_path (role leaseID : string) : string := "ssh/creds/" +:+ role +:+ "/" +:+ leaseID.

Definition ssh_data (username privPEM signedKey leaseID role : string) : object :=
  [("lease_id", VStr leaseID); ("private_key", VStr privPEM); ("role", VStr role); ("signed_key", VStr signedKey); ("username", VStr username)].

Definition ssh_lease (req : SshCredsRequest) (leaseID : string) (ttlSeconds : Z) (now : Time) (renewable : bool) : Lease :=
  mkLease leaseID (ssh_path (sq_Role req) leaseID) (sq_Role req) ssh_engine ttlSeconds now (plus_seconds now ttlSeconds) None renewable
    (sq_TokenID req) ∅.

Section engine.
Context `{Aead} `{Json} {codec : TokenCodec} `{SshExternals} (k : KeyRing).

(** [SaveRole]; the times the repository stamps are left at zero. *)
Definition SSH_SaveRole (cfg : SshRoleConfig) : V unit := λ s,
  match SSHRole_Validate (NormalizeSSHRole (role_of_ssh_config cfg)) with
  | Err e => (s, Err (Wrap ErrCodeValidation "invalid ssh role" e))
  | Ok role => match SSHRoleRepository_Save (vt_sshroles s) role with
               | Ok m => (set_sshroles s m, Ok tt)
               | Err e => (s, Err e)
               end
  end.

Definition SSH_GetRole (name : string) : V SSHRole := λ s, (s, SSHRoleRepository_Get (vt_sshroles s) name).

Definition loadCASigner (path : string) : V Signer := λ s, (s,
  latest ← match GetLatest (vt_secrets s) path with
           | Ok sv => Ok sv
           | Err e => Err (Wrap ErrCodeValidation "read ssh ca key from kv" e)
           end;
  data ← open_object k "decrypt ssh ca key" "unmarshal ssh ca key" latest;
  let keyPEM := str_field "private_key" data in
  let keyPEM := if TrimSpace keyPEM =s "" then str_field "private_key_pem" data else keyPEM in
  _ ← reject (TrimSpace keyPEM =s "") (New ErrCodeValidation "ssh ca key must include private_key");
  match parseCAPrivateKey keyPEM with
  | Ok signer => Ok signer
  | Err e => Err (Wrap ErrCodeValidation "invalid ssh ca private key" e)
  end).

Definition SSH_GenerateCredentials (env : SshEnv) (req : SshCredsRequest) : V SshCredsResult :=
  _ ← guard_not (sq_Role req =s "") (New ErrCodeValidation "role is required");
  role ← SSH_GetRole (sq_Role req);
  let role := NormalizeSSHRole role in
  let tuning := LeaseTuningFromSSHRole role in
  _ ← CheckMaxLeases (se_count env) ssh_engine (sq_Role req) tuning;
  let username := requested_user role (sq_Username req) in
  _ ← guard_not (username =s "") (New ErrCodeValidation "username is required");
  _ ← guard_not (negb (AllowedUser role username)) (New ErrCodeValidation ("username " +:+ quoted username +:+ " not allowed by role"));
  ttlSeconds ← lift (match ResolveIssueTTL tuning (sq_TTLSecond req) with
                     | Ok t => Ok t | Err e => Err (Wrap ErrCodeValidation "invalid ttl" e) end);
  caSigner ← loadCASigner (ssh_CAKeyPath role);
  key ← lift (wrap_internal "generate ssh key" (generateUserKeyPEM (se_random env) (ssh_KeyType role)));
  let '(userSigner, privPEM) := key in
  let now := se_now env in
  let expiresAt := plus_seconds now ttlSeconds in
  signedKey ← lift (wrap_internal "sign ssh certificate"
                      (signUserCertificate (se_random env) caSigner userSigner (cert_options (sq_Role req) username now expiresAt role)));
  leaseID ← lift (wrap_internal "generate lease id" (newLeaseID (se_lease env)));
  let leaseID := if sq_TenantMode req then ScopeLeaseID (sq_Tenant req) leaseID true else leaseID in
  let path := ssh_path (sq_Role req) leaseID in
  _ ← storeSecret k (se_store env) path leaseID ttlSeconds expiresAt (ssh_data username privPEM signedKey leaseID (sq_Role req));
  _ ← on_error (lease_save (ssh_lease req leaseID ttlSeconds now (lt_Renewable tuning)))
        (λ e, _ ← ignore (destroySecret path); raise e);
  mret (mkSshCredsResult leaseID username privPEM signedKey (sq_Role req) ttlSeconds (lt_MaxTTL tuning) expiresAt
          (LeaseWarnings now expiresAt ttlSeconds)).

(** The checks and reads of [Renew], up to the new certificate. *)
Definition ssh_renew_read (now : Time) (leaseID : string) (ttlSeconds : Z) : V (Lease * SSHRole * Z * object) :=
  lease ← lease_get leaseID;
  _ ← guard_not (negb (lease_Engine lease =s ssh_engine)) (New ErrCodeValidation "lease is not an ssh lease");
  _ ← guard_not (negb (Lease_Active lease now)) (New ErrCodeNotFound "lease is not active");
  _ ← guard_not (negb (lease_Renewable lease)) (New ErrCodeValidation "lease is not renewable");
  role ← SSH_GetRole (lease_RoleName lease);
  let ttlSeconds := ResolveRenewTTL (LeaseTuningFromSSHRole role) ttlSeconds (lease_TTLSeconds lease) now (lease_ExpiresAt lease) in
  latest ← secrets (store_latest (lease_Path lease));
  data ← lift (open_object k "decrypt credentials" "unmarshal credentials" latest);
  mret (lease, role, ttlSeconds, data).

Definition SSH_Renew (now : Time) (fr : Fresh) (rnd : SshRandom) (leaseID : string) (ttlSeconds : Z) : V SshCredsResult :=
  x ← ssh_renew_read now leaseID ttlSeconds;
  let '(lease, role, ttlSeconds, data) := x in
  let username := str_field "username" data in
  let privKey := str_field "private_key" data in
  userSigner ← lift (wrap_internal "parse stored private key" (parseUserSigner privKey));
  caSigner ← loadCASigner (ssh_CAKeyPath role);
  let expiresAt := plus_seconds now ttlSeconds in
  signedKey ← lift (wrap_internal "re-sign ssh certificate"
                      (signUserCertificate rnd caSigner userSigner (cert_options (lease_RoleName lease) username now expiresAt role)));
  let data := obj_set "signed_key" (VStr signedKey) data in
  _ ← lease_save (lease_extend lease ttlSeconds expiresAt);
  _ ← storeSecret k fr (lease_Path lease) leaseID ttlSeconds expiresAt data;
  mret (mkSshCredsResult leaseID username privKey signedKey (lease_RoleName lease) ttlSeconds (lt_MaxTTL (LeaseTuningFromSSHRole role)) expiresAt
          (LeaseWarnings now expiresAt ttlSeconds)).

Definition SSH_RevokeLease (now : Time) (leaseID : string) : V unit :=
  lease ← lease_get leaseID;
  _ ← guard_not (negb (lease_Engine lease =s ssh_engine)) (New ErrCodeValidation "lease is not an ssh lease");
  match lease_RevokedAt lease with
  | Some _ => mret tt
  | None => _ ← lease_revoke_at leaseID now; destroySecret (lease_Path lease)
  end.

(** The loop of [RenewExpiring]. *)
Fixpoint ssh_renew_loop (now deadline : Time) (limit : Z) (envs : nat → Time * Fresh * SshRandom) (i : nat) (renewed : Z) (leases : list Lease) : V Z :=
  match leases with
  | [] => mret renewed
  | lease :: leases =>
      if limit <=? renewed then mret renewed
      else if negb (lease_Engine lease =s ssh_engine) || negb (Lease_Active lease now) || negb (lease_Renewable lease)
      then ssh_renew_loop now deadline limit envs (S i) renewed leases
      else if After (lease_ExpiresAt lease) deadline then ssh_renew_loop now deadline limit envs (S i) renewed leases
      else
        x ← attempt (SSH_Renew (envs i).1.1 (envs i).1.2 (envs i).2 (lease_ID lease) (lease_TTLSeconds lease));
        ssh_renew_loop now deadline limit envs (S i) (if is_ok x then renewed + 1 else renewed) leases
  end.

Definition SSH_RenewExpiring (now : Time) (grace : Duration) (limit : Z) (envs : nat → Time * Fresh * SshRandom) : V Z := λ s,
  ssh_renew_loop now (now + grace) (if limit <=? 0 then 50 else limit) envs 0 0 (LeaseRepository_List (vt_leases s)) s.

(** The loop of [CleanupExpired]. *)
Fixpoint ssh_cleanup_loop (clk : nat → Time) (i : nat) (revoked : Z) (first : option error) (leases : list Lease) : V (Z * option error) :=
  match leases with
  | [] => mret (revoked, first)
  | lease :: leases =>
      if negb (lease_Engine lease =s ssh_engine) then ssh_cleanup_loop clk (S i) revoked first leases
      else
        x ← attempt (SSH_RevokeLease (clk i) (lease_ID lease));
        match x with
        | Ok _ => ssh_cleanup_loop clk (S i) (revoked + 1) first leases
        | Err e => ssh_cleanup_loop clk (S i) revoked (match first with None => Some e | Some _ => first end) leases
        end
  end.

Definition SSH_CleanupExpired (now : Time) (limit : Z) (clk : nat → Time) : V (Z * option error) := λ s,
  ssh_cleanup_loop clk 0 0 None (LeaseRepository_ListExpired (vt_leases s) now (if limit <=? 0 then 50 else limit)) s.
End engine.

(** ** internal/service/ssh.go *)

Section service.
Context `{Aead} `{Json} {codec : TokenCodec} `{SshExternals} (k : KeyRing) (tenantMode : bool).

Definition sf_with_name (cfg : SshRoleConfig) (name : string) : SshRoleConfig :=
  mkSshRoleConfig name (sf_TTLSeconds cfg) (sf_DefaultTTL cfg) (sf_MaxTTL cfg) (sf_Period cfg) (sf_Renewable cfg) (sf_MaxLeases cfg)
    (sf_CAKeyPath cfg) (sf_AllowedUsers cfg) (sf_DefaultUser cfg) (sf_KeyType cfg) (sf_Extensions cfg).

Definition SSHService_SaveRole (cx : TenantCtx) (subject : option string) (cfg : SshRoleConfig) : V unit :=
  name ← lift (scopeResourceName cx tenantMode (sf_Name cfg));
  recorded subject "ssh.role.write" ("secrets/ssh/roles/" +:+ name) (λ _, []) (SSH_SaveRole (sf_with_name cfg name)).

Definition SSHService_GetRole (cx : TenantCtx) (name : string) : V SSHRole :=
  name ← lift (scopeResourceName cx tenantMode name);
  _ ← lift (assertTenantAccess cx tenantMode name);
  SSH_GetRole name.

Definition SSHService_GenerateCredentials (cx : TenantCtx) (subject : option string) (env : SshEnv) (req : SshCredsRequest) : V SshCredsResult :=
  role ← lift (scopeResourceName cx tenantMode (sq_Role req));
  let req := mkSshCredsRequest role (sq_Username req) (sq_TTLSecond req) (sq_TokenID req) (sq_Tenant req) (sq_TenantMode req) in
  recorded subject "ssh.creds.generate" ("secrets/ssh/creds/" +:+ role)
    (λ x, ("role", VStr role) :: match x with
                                 | Ok r => [("lease_id", VStr (sx_LeaseID r)); ("username", VStr (sx_Username r))]
                                 | Err _ => [] end)
    (SSH_GenerateCredentials k env req).

Definition SSHService_Renew (cx : TenantCtx) (subject : option string) (now : Time) (fr : Fresh) (rnd : SshRandom) (leaseID : string) (ttlSeconds : Z) : V SshCredsResult :=
  _ ← lift (assertTenantLeaseAccess cx tenantMode leaseID);
  recorded subject "ssh.lease.renew" ("secrets/ssh/leases/" +:+ leaseID) (λ _, [("lease_id", VStr leaseID)])
    (SSH_Renew k now fr rnd leaseID ttlSeconds).

Definition SSHService_Revoke (cx : TenantCtx) (subject : option string) (now : Time) (leaseID : string) : V unit :=
  _ ← lift (assertTenantLeaseAccess cx tenantMode leaseID);
  recorded subject "ssh.lease.revoke" ("secrets/ssh/leases/" +:+ leaseID) (λ _, [("lease_id", VStr leaseID)])
    (SSH_RevokeLease now leaseID).

Definition SSHService_RenewExpiring (now : Time) (grace : Duration) (limit : Z) (envs : nat → Time * Fresh * SshRandom) : V Z :=
  SSH_RenewExpiring k now grace limit envs.

Definition SSHService_CleanupExpired (subject : option string) (now : Time) (limit : Z) (clk : nat → Time) : V (Z * option error) :=
  x ← SSH_CleanupExpired now limit clk;
  _ ← when (match x.2 with None => 0 <? x.1 | Some _ => false end)
        (audit subject "ssh.lease.cleanup" "secrets/ssh/leases" (Ok tt) [("revoked", VNum x.1)]);
  mret x.
End service.

(** ** The repositories *)

Section invariant.
Context `{Aead} `{Json} `{UrlParser} {codec : TokenCodec} `{SshExternals} (k : KeyRing).

Lemma preserves_SSH_SaveRole cfg : preserves vault_wf (SSH_SaveRole cfg).
Proof.
  intros s Hs. unfold SSH_SaveRole. destruct (SSHRole_Validate _) as [role|]; [|done].
  destruct (SSHRoleRepository_Save _ _) as [m|] eqn:E; [|done]. destruct Hs. split; try done. by eapply keyed_Save_wf.
Qed.
Lemma preserves_SSH_GetRole name : preserves vault_wf (SSH_GetRole name).
Proof. by apply preserves_pure. Qed.
Lemma preserves_loadCASigner path : preserves vault_wf (loadCASigner k path).
Proof. by apply preserves_pure. Qed.
#[local] Hint Resolve preserves_SSH_GetRole preserves_loadCASigner : prog.

Lemma preserves_SSH_GenerateCredentials env req : preserves vault_wf (SSH_GenerateCredentials k env req).
Proof.
  unfold SSH_GenerateCredentials. cbv zeta. do 7 (apply always_bind; [apply _|eauto 6 with prog|intros ?]).
  apply always_bind; [apply _|auto with prog|intros [userSigner privPEM]].
  repeat (apply always_bind; [apply _|eauto 6 with prog|intros ?]). eauto with prog.
Qed.

Lemma preserves_SSH_Renew now fr rnd id ttl : preserves vault_wf (SSH_Renew k now fr rnd id ttl).
Proof.
  unfold SSH_Renew. apply always_bind; [apply _| |].
  - unfold ssh_renew_read. repeat (apply always_bind; [apply _|eauto 6 with prog|intros ?]). eauto with prog.
  - intros [[[l role] t] data]. cbv zeta. repeat (apply always_bind; [apply _|eauto 6 with prog|intros ?]). eauto with prog.
Qed.

Lemma preserves_SSH_RevokeLease now id : preserves vault_wf (SSH_RevokeLease now id).
Proof.
  unfold SSH_RevokeLease. apply always_bind; [apply _|auto with prog|intros l]. apply always_bind; [apply _|auto with prog|intros _].
  destruct (lease_RevokedAt l); eauto with prog.
Qed.

Lemma preserves_ssh_renew_loop now deadline limit envs leases i n : preserves vault_wf (ssh_renew_loop k now deadline limit envs i n leases).
Proof.
  revert i n. induction leases as [|l leases IH]; intros i n; simpl; [auto with prog|].
  repeat (apply always_if; [auto with prog|]). apply always_bind; [apply _| |auto]. apply always_attempt, preserves_SSH_Renew.
Qed.
Lemma preserves_SSH_RenewExpiring now grace limit envs : preserves vault_wf (SSH_RenewExpiring k now grace limit envs).
Proof. intros s. apply preserves_ssh_renew_loop. Qed.

Lemma preserves_ssh_cleanup_loop clk leases i n first : preserves vault_wf (ssh_cleanup_loop clk i n first leases).
Proof.
  revert i n first. induction leases as [|l leases IH]; intros i n first; simpl; [auto with prog|]. apply always_if; [auto with prog|].
  apply always_bind; [apply _| |intros [st|e]; auto]. apply always_attempt, preserves_SSH_RevokeLease.
Qed.
Lemma preserves_SSH_CleanupExpired now limit clk : preserves vault_wf (SSH_CleanupExpired now limit clk).
Proof. intros s. apply preserves_ssh_cleanup_loop. Qed.
End invariant.

(** ** Issuing and renewing *)

Section issuing.
Context `{Aead} `{!AeadLaws} `{Json} `{!JsonLaws} `{UrlParser} {codec : TokenCodec} `{SshExternals} (k : KeyRing).
Implicit Type s : Vault.

Lemma SSH_GetRole_ok name s s' role : SSH_GetRole name s = (s', Ok role) → s' = s ∧ vt_sshroles s !! name = Some role.
Proof. unfold SSH_GetRole, SSHRoleRepository_Get, keyed_Get. destruct (vt_sshroles s !! name); naive_solver. Qed.

(** A certificate signed by the key of a CA for one user, over a period. *)
Definition certifies (s : Vault) (caPath : string) (signed username : string) (ext : option (gmap string string)) (from until : Time) : Prop :=
  ∃ ca cert, (loadCASigner k caPath s).2 = Ok ca ∧ SignCert ca cert = Ok signed ∧ ct_ValidPrincipals cert = [username] ∧
    ct_Extensions cert = copyStringMap ext ∧ ct_CriticalOptions cert = None ∧
    0 ≤ ct_ValidAfter cert ∧
    unix_epoch + ct_ValidAfter cert * Second ≤ from < unix_epoch + (ct_ValidAfter cert + 1) * Second ∧
    unix_epoch + ct_ValidBefore cert * Second ≤ until < unix_epoch + (ct_ValidBefore cert + 1) * Second.

Lemma signUserCertificate_ok rnd ca user roleName username now expiresAt role signed s s' path :
  loadCASigner k path s = (s', Ok ca) →
  signUserCertificate rnd ca user (cert_options roleName username now expiresAt role) = Ok signed →
  s' = s ∧ certifies s path signed username (ssh_Extensions role) (now - 30 * Second) expiresAt.
Proof.
  intros Hca Hs. unfold signUserCertificate in Hs. apply res_bind_ok in Hs as (va & Ha & Hs). apply res_bind_ok in Hs as (vb & Hb & Hs).
  unfold certEpochSeconds in Ha, Hb. cbn [co_ValidAfter co_ValidBefore cert_options] in Ha, Hb.
  destruct (Z.ltb_spec (Unix (now - 30 * Second)) 0) as [|Hpos]; [done|]. destruct (Unix expiresAt <? 0); [done|].
  injection Ha as <-. injection Hb as <-. destruct (SignCert _ _) as [sg|] eqn:E; [|done]. injection Hs as ->.
  split; [by unfold loadCASigner in Hca; simplify_eq|]. exists ca. eexists. rewrite Hca. split_and!; [done|exact E|done..|exact Hpos| | | |]; apply Unix_bounds.
Qed.

(** SSH credentials are issued within the role. On success the quota had room,
    the user is one the role allows, the certificate names that user alone and
    carries the extensions of the role, it is signed by the role's CA and ends
    with the lease, the lease is stored and bound to the token that asked, and
    the stored secret opens to the credentials that are returned. *)
Theorem ssh_issue_correct env req s s' r :
  vault_wf s → seals k (fr_Rnd (se_store env)) → SSH_GenerateCredentials k env req s = (s', Ok r) →
  ∃ role0 sv, let role := NormalizeSSHRole role0 in let t := LeaseTuningFromSSHRole role in
    vt_sshroles s !! sq_Role req = Some role0 ∧
    (0 < lt_MaxLeases t → CountActiveLeasesForRole (vt_leases s) (se_count env) ssh_engine (sq_Role req) < lt_MaxLeases t) ∧
    AllowedUser role (sx_Username r) = true ∧
    certifies s (ssh_CAKeyPath role) (sx_SignedKey r) (sx_Username r) (ssh_Extensions role) (se_now env - 30 * Second) (sx_ExpiresAt r) ∧
    0 < sx_TTLSeconds r ≤ lt_MaxTTL t ∧ sx_ExpiresAt r = plus_seconds (se_now env) (sx_TTLSeconds r) ∧
    vt_leases s' = <[sx_LeaseID r := ssh_lease req (sx_LeaseID r) (sx_TTLSeconds r) (se_now env) (lt_Renewable t)]> (vt_leases s) ∧
    GetLatest (vt_secrets s') (ssh_path (sq_Role req) (sx_LeaseID r)) = Ok sv ∧
    open_object k "" "" sv = Ok (ssh_data (sx_Username r) (sx_PrivateKey r) (sx_SignedKey r) (sx_LeaseID r) (sq_Role req)).
Proof.
  intros Hw Hse. unfold SSH_GenerateCredentials. intros Hg. inv_run.
  match goal with Hx : SSH_GetRole _ _ = (_, Ok ?x) |- _ => apply SSH_GetRole_ok in Hx as [-> Hrole]; rename x into role0 end.
  match goal with Hx : CheckMaxLeases _ _ _ _ _ = _ |- _ => apply CheckMaxLeases_ok in Hx as [-> Hquota] end.
  match goal with Hx : match ResolveIssueTTL ?t ?q with _ => _ end = Ok _ |- _ =>
    destruct (ResolveIssueTTL t q) as [ttl|] eqn:Httl; [injection Hx as <-|done] end.
  match goal with Hx : wrap_internal _ (generateUserKeyPEM _ _) = Ok ?x |- _ => destruct x as [user pem] end. inv_run.
  repeat match goal with Hx : wrap_internal _ _ = Ok _ |- _ => apply wrap_internal_ok in Hx end.
  match goal with Hx : loadCASigner _ _ _ = _, Hy : signUserCertificate _ _ _ _ = Ok ?x |- _ =>
    destruct (signUserCertificate_ok _ _ _ _ _ _ _ _ _ _ _ _ Hx Hy) as [-> Hcert]; rename x into signed end.
  match goal with Hx : storeSecret _ _ _ _ _ _ _ _ = _ |- _ => apply storeSecret_ok in Hx as (payload & c & enc & Hj & Hsl & E1 & Hw1 & Hlat); [|done] end.
  match goal with Hx : on_error (lease_save _) _ _ = _ |- _ => apply on_error_run in Hx; [|intros e t [? ?]; done]; apply lease_save_ok in Hx as [_ ->] end.
  match goal with Hx : negb (AllowedUser _ _) = false |- _ => apply negb_false_iff in Hx; rename Hx into Hallowed end.
  exists role0. eexists. cbv zeta. cbn. cbn in Hlat. split_and!; [done|done|done|exact Hcert|apply (ResolveIssueTTL_bounds _ _ _ Httl)..|done| |exact Hlat|].
  - rewrite E1. done.
  - unfold open_object. cbn. rewrite (Hse _ _ _ Hsl). cbn. by rewrite (json_roundtrip _ _ Hj).
Qed.

(** Renewing signs a new certificate for the user and the key that are stored,
    again ending with the lease, and extends that lease and no other. Whether
    the role still allows the user is not asked. *)
Theorem ssh_renew_correct now fr rnd id ttl s s' r :
  vault_wf s → SSH_Renew k now fr rnd id ttl s = (s', Ok r) →
  ∃ l role latest data,
    vt_leases s !! id = Some l ∧ lease_Engine l = ssh_engine ∧ Lease_Active l now = true ∧ lease_Renewable l = true ∧
    vt_sshroles s !! lease_RoleName l = Some role ∧
    GetLatest (vt_secrets s) (lease_Path l) = Ok latest ∧ open_object k "decrypt credentials" "unmarshal credentials" latest = Ok data ∧
    sx_Username r = str_field "username" data ∧ sx_PrivateKey r = str_field "private_key" data ∧
    certifies s (ssh_CAKeyPath role) (sx_SignedKey r) (sx_Username r) (ssh_Extensions role) (now - 30 * Second) (sx_ExpiresAt r) ∧
    sx_ExpiresAt r = plus_seconds now (sx_TTLSeconds r) ∧
    vt_leases s' = <[id := lease_extend l (sx_TTLSeconds r) (sx_ExpiresAt r)]> (vt_leases s).
Proof.
  intros Hw. unfold SSH_Renew. intros Hr. apply prog_bind_run in Hr as (s0 & x & Hrd & Hr). destruct x as [[[l role] t] data].
  unfold ssh_renew_read in Hrd. inv_run. match goal with Hx : lease_get _ _ = _ |- _ => apply lease_get_ok in Hx as [-> Hl] end.
  match goal with Hx : SSH_GetRole _ _ = _ |- _ => apply SSH_GetRole_ok in Hx as [-> Hrole] end.
  match goal with Hx : secrets (store_latest _) ?u = (?u', Ok ?y) |- _ => unfold secrets, zoom, store_latest in Hx; injection Hx as Ht Hlat;
    assert (u' = u) as -> by (rewrite <-Ht; by destruct u); rename y into latest end.
  repeat match goal with Hx : wrap_internal _ _ = Ok _ |- _ => apply wrap_internal_ok in Hx end.
  simplify_eq. inv_run.
  match goal with Hx : loadCASigner _ _ _ = _, Hy : signUserCertificate _ _ _ _ = Ok ?x |- _ =>
    destruct (signUserCertificate_ok _ _ _ _ _ _ _ _ _ _ _ _ Hx Hy) as [-> Hcert]; rename x into signed end.
  match goal with Hx : lease_save _ _ = (?sa, _) |- _ => assert (Hwa : vault_wf sa) by (exact (preserves_run _ _ _ _ _ (preserves_lease_save _) Hx Hw));
    apply lease_save_ok in Hx as [_ Ea] end. subst.
  match goal with Hx : storeSecret _ _ _ _ _ _ _ _ = _ |- _ => apply storeSecret_ok in Hx as (payload & c & enc & _ & _ & Eb & _); [|done] end.
  bool_props. assert (Hid : lease_ID l = id) by (by destruct (vw_leases _ Hw _ _ Hl)).
  exists l, role, latest, data. cbn. split_and!; try done. rewrite Eb. cbn. by rewrite Hid.
Qed.

(** Revoking an SSH lease. *)
Lemma SSH_RevokeLease_eq now id l s : secrets_wf (vt_secrets s) → vt_leases s !! id = Some l → SSH_RevokeLease now id s =
  if negb (lease_Engine l =s ssh_engine) then (s, Err (New ErrCodeValidation "lease is not an ssh lease"))
  else match lease_RevokedAt l with
       | Some _ => (s, Ok tt)
       | None => (dropped (lease_Path l) (marked now id l s), Ok tt)
       end.
Proof.
  intros Hw Hl. unfold SSH_RevokeLease. unfold mbind at 1, prog_bind at 1, lease_get, LeaseRepository_Get, keyed_Get. rewrite Hl.
  unfold mbind at 1, prog_bind at 1, guard_not, lift. destruct (negb _); [done|]. cbn [reject].
  destruct (lease_RevokedAt l); [done|]. unfold mbind at 1, prog_bind at 1, lease_revoke_at, on_leases, LeaseRepository_Revoke, keyed_Alter.
  rewrite Hl. fold (marked now id l s). unfold dropped. by rewrite destroySecret_run.
Qed.
End issuing.

(** ** Examples *)

#[local] Existing Instance toy_aead.
#[local] Existing Instance toy_laws.
#[local] Existing Instance text_json.
#[local] Existing Instance text_json_laws.
#[local] Existing Instance toy_codec.
#[local] Instance no_passwords : UrlParser := λ _, false.

(** Keys are their names; a signature lists who signed what for whom. *)
#[local] Instance toy_ssh : SshExternals := {|
  Signer := string; RawKey := string; PublicKey := string;
  ParsePrivateKey p := Ok p;
  ParseRawPrivateKey p := Ok p;
  NewSignerFromKey key := Ok key;
  MarshalPrivateKey key := Ok key;
  signer_PublicKey key := "pub-" +:+ key;
  SignCert ca cert := Ok (ca +:+ ":" +:+ ct_Key cert +:+ ":" +:+ String.concat "," (ct_ValidPrincipals cert));
  time_digest t := bytes_of (Itoa t);
|}.

#[local] Strategy 1000 [SSH_GenerateCredentials SSH_Renew].

Definition shell_role : SshRoleConfig := mkSshRoleConfig "shell" 600 0 3600 0 None 0 "kv/ca" ["deploy"; "ops"] "" "" None.
Definition ssh_setup : V unit :=
  _ ← SSH_SaveRole shell_role;
  storeSecret (demo_ring "a") (demo_fresh 1 10) "kv/ca" "" 0 0 [("private_key", VStr "CA")].
Definition ssh_vault : Vault := (ssh_setup empty_vault).1.
Lemma ssh_vault_wf : vault_wf ssh_vault.
Proof.
  apply (preserves_run vault_wf ssh_setup empty_vault _ (ssh_setup empty_vault).2);
    [|by unfold ssh_vault; destruct (ssh_setup empty_vault)|apply empty_vault_wf].
  unfold ssh_setup. apply always_bind; [apply _|apply preserves_SSH_SaveRole|]. auto with prog.
Qed.

Definition demo_random : SshRandom := mkSshRandom _ (λ kind, Ok (kind +:+ "-1")) (Ok (bytes_of "12345678")) 0.
Definition demo_ssh_env : SshEnv := mkSshEnv _ (unix_epoch + 100 * Second) (unix_epoch + 100 * Second) (demo_fresh 2 1000) (Ok (bytes_of "L2")) demo_random.
Definition demo_ssh_req (user : string) : SshCredsRequest := mkSshCredsRequest "shell" user 300 "tok" "" false.
Definition ssh_issued : Vault := (SSH_GenerateCredentials (demo_ring "a") demo_ssh_env (demo_ssh_req " ops ") ssh_vault).1.

Lemma ssh_issue_run : ∃ r, SSH_GenerateCredentials (demo_ring "a") demo_ssh_env (demo_ssh_req " ops ") ssh_vault = (ssh_issued, Ok r) ∧
  (sx_LeaseID r, sx_Username r, sx_SignedKey r) = ("l_L2", "ops", "CA:pub-ed25519-1:ops").
Proof.
  assert (E : (λ r, (sx_LeaseID r, sx_Username r, sx_SignedKey r)) <$>
                (SSH_GenerateCredentials (demo_ring "a") demo_ssh_env (demo_ssh_req " ops ") ssh_vault).2 = Ok ("l_L2", "ops", "CA:pub-ed25519-1:ops"))
    by (vm_compute; reflexivity).
  unfold ssh_issued. destruct (SSH_GenerateCredentials _ _ _ _) as [s' [r|e]]; [|discriminate E]. injection E as E1 E2 E3.
  exists r. by rewrite E1, E2, E3.
Qed.

Lemma ssh_issued_wf : vault_wf ssh_issued.
Proof.
  destruct ssh_issue_run as (r & E & _).
  apply (preserves_run vault_wf _ _ _ _ (preserves_SSH_GenerateCredentials _ _ _) E). apply ssh_vault_wf.
Qed.

Lemma ssh_issue_correct_witness : certifies (demo_ring "a") ssh_vault "kv/ca" "CA:pub-ed25519-1:ops" "ops" (Some {["permit-pty" := ""]})
  (unix_epoch + 70 * Second) (unix_epoch + 400 * Second).
Proof.
  destruct ssh_issue_run as (r & E & Er). injection Er as E1 E2 E3.
  destruct (ssh_issue_correct (demo_ring "a") demo_ssh_env (demo_ssh_req " ops ") ssh_vault _ r ssh_vault_wf demo_seals E)
    as (role & sv & Hr & _ & _ & Hc & _ & Hx & _).
  assert (Hrole : (λ x, (ssh_CAKeyPath x, ssh_Extensions x)) <$> vt_sshroles ssh_vault !! "shell" = Some ("kv/ca", Some {["permit-pty" := ""]}))
    by (vm_compute; reflexivity).
  assert (Ht : sx_TTLSeconds <$> (SSH_GenerateCredentials (demo_ring "a") demo_ssh_env (demo_ssh_req " ops ") ssh_vault).2 = Ok 300)
    by (vm_compute; reflexivity).
  rewrite E in Ht. injection Ht as Ht. rewrite Ht in Hx. change (sq_Role (demo_ssh_req " ops ")) with "shell" in Hr. rewrite Hr in Hrole.
  injection Hrole as Hca Hext. rewrite Hx, E2, E3 in Hc. cbn [NormalizeSSHRole ssh_CAKeyPath ssh_Extensions] in Hc. rewrite Hca, Hext in Hc. exact Hc.
Defined.

Definition ssh_renewed_run : Vault * res SshCredsResult :=
  SSH_Renew (demo_ring "a") (unix_epoch + 200 * Second) (demo_fresh 3 2000) demo_random "l_L2" 60 ssh_issued.
Lemma ssh_renew_correct_witness : ∃ r l, ssh_renewed_run.2 = Ok r ∧ vt_leases ssh_issued !! "l_L2" = Some l ∧ lease_Engine l = ssh_engine ∧
  vt_leases ssh_renewed_run.1 = <["l_L2" := lease_extend l (sx_TTLSeconds r) (sx_ExpiresAt r)]> (vt_leases ssh_issued).
Proof.
  assert (Hok : is_ok ssh_renewed_run.2 = true) by (vm_compute; reflexivity).
  assert (Hrn : ssh_renewed_run = (ssh_renewed_run.1, ssh_renewed_run.2)) by (by destruct ssh_renewed_run). unfold ssh_renewed_run at 1 in Hrn.
  destruct ssh_renewed_run.2 as [r|e] eqn:E2; [|discriminate Hok].
  destruct (ssh_renew_correct (demo_ring "a") (unix_epoch + 200 * Second) (demo_fresh 3 2000) demo_random "l_L2" 60 ssh_issued _ r ssh_issued_wf Hrn)
    as (l & role & latest & data & Hl & He & _ & _ & _ & _ & _ & _ & _ & _ & _ & Hend).
  exists r, l. split; [reflexivity|split; [exact Hl|split; [exact He|exact Hend]]].
Defined.
