(* ===== verification/Leases.v ===== *)
(** The lease service, internal/service/leases.go: one interface over the leases
    of all engines, with the engines' own revocation and renewal behind it, and
    the cascade that runs when a token is revoked.

    The service is [LeaseService]: its hooks by engine name and the tenant mode.
    Its state is [Vault] (Credentials.v). A revocation reads the clock on its
    own; the i-th of a loop reads [clk i]. *)

From S2P Require Import Prelude.
From S2P Require Import Effects.
From S2P Require Import GoLib.
From S2P Require Import Domain.
From S2P Require Import DynamicRoles.
From S2P Require Import Repos.
From S2P Require Import AuditHelper.
From S2P Require Import Tenant.
From S2P Require Import TokenStore.
From S2P Require Import SecretRepo.
From S2P Require Import Crypto.
From S2P Require Import KVEngine.
From S2P Require Import Cubbyhole.
From S2P Require Import Credentials.
From S2P Require Import DatabaseEngine.
From S2P Require Import SSHEngine.
From S2P Require Import Policy.
From S2P Require Import Lockout.
From S2P Require Import Identity.
From S2P Require Import PolicyService.
From S2P Require Import AppRole.
From S2P Require Import AuthService.

#[local] Open Scope Z_scope.

Definition LeaseRevoker : Type := Time → string → V unit.

(** What a renewal takes from outside: the clock of the engine, the write of
    the secret, and the randomness of a new certificate. *)
Record RenewEnv `{SshExternals} := mkRenewEnv {
  re_now : Time;
  re_store : Fresh;
  re_random : SshRandom;
}.

Record LeaseView := mkLeaseView {
  lv_ID : string;
  lv_Engine : string;
  lv_Role : string;
  lv_Path : string;
  lv_TTLSeconds : Z;
  lv_ExpiresAt : Time;
  lv_Renewable : bool;
  lv_Revoked : bool;
  lv_RevokedAt : option Time;
  lv_TokenID : string;
  lv_Metadata : gmap string string;
}.

Record LeaseListFilter := mkLeaseListFilter {
  lf_Engine : string;
  lf_Role : string;
  lf_Prefix : string;
  lf_TokenID : string;
  lf_ActiveOnly : bool;
  lf_Limit : Z;
  lf_Offset : Z;
}.

Record BulkRevokeRequest := mkBulkRevokeRequest {
  br_Engine : string;
  br_Role : string;
  br_PathPrefix : string;
}.

Record BulkRevokeResult := mkBulkRevokeResult {
  bv_Revoked : Z;
  bv_IDs : list string;
}.

Definition toLeaseView (l : Lease) : LeaseView :=
  mkLeaseView (lease_ID l) (lease_Engine l) (lease_RoleName l) (lease_Path l) (lease_TTLSeconds l) (lease_ExpiresAt l) (lease_Renewable l)
    (bool_decide (lease_RevokedAt l ≠ None)) (lease_RevokedAt l) (lease_TokenID l) (lease_Metadata l).

Section service.
Context `{Aead} `{Json} `{UrlParser} {codec : TokenCodec} `{DbExternals} `{SshExternals} (k : KeyRing).

Definition LeaseRenewer : Type := RenewEnv → string → Z → V unit.

Definition dbRevoker : LeaseRevoker := λ now id, _ ← DB_RevokeLease k now id; mret tt.
Definition sshRevoker : LeaseRevoker := λ now id, SSH_RevokeLease now id.
Definition dbRenewer : LeaseRenewer := λ env id ttl, _ ← DB_Renew k (re_now env) (re_store env) id ttl; mret tt.
Definition sshRenewer : LeaseRenewer := λ env id ttl, _ ← SSH_Renew k (re_now env) (re_store env) (re_random env) id ttl; mret tt.

Record LeaseService := mkLeaseService {
  ls_hooks : gmap string LeaseRevoker;
  ls_renewers : gmap string LeaseRenewer;
  ls_tenantMode : bool;
}.

(** [NewLeaseService]; the arguments say which engines are configured. *)
Definition NewLeaseService (database ssh : bool) : LeaseService :=
  let hooks := if database then <["database" := dbRevoker]> ∅ else ∅ in
  let renewers := if database then <["database" := dbRenewer]> ∅ else ∅ in
  mkLeaseService (if ssh then <["ssh" := sshRevoker]> hooks else hooks) (if ssh then <["ssh" := sshRenewer]> renewers else renewers) false.

Definition RegisterRevoker (svc : LeaseService) (engine : string) (r : LeaseRevoker) : LeaseService :=
  if engine =s "" then svc else mkLeaseService (<[engine := r]> (ls_hooks svc)) (ls_renewers svc) (ls_tenantMode svc).

Definition RegisterRenewer (svc : LeaseService) (engine : string) (r : LeaseRenewer) : LeaseService :=
  if engine =s "" then svc else mkLeaseService (ls_hooks svc) (<[engine := r]> (ls_renewers svc)) (ls_tenantMode svc).

Definition SetTenantMode (svc : LeaseService) (enabled : bool) : LeaseService := mkLeaseService (ls_hooks svc) (ls_renewers svc) enabled.

Context (svc : LeaseService).

Definition lease_with_id (l : Lease) (id : string) : Lease :=
  mkLease id (lease_Path l) (lease_RoleName l) (lease_Engine l) (lease_TTLSeconds l) (lease_CreatedAt l) (lease_ExpiresAt l) (lease_RevokedAt l)
    (lease_Renewable l) (lease_TokenID l) (lease_Metadata l).

Definition LeaseService_Register (cx : TenantCtx) (lease : Lease) : V unit :=
  let lease := if ls_tenantMode svc
               then if tenantNamespaceFromCtx cx =s "" then lease
                    else lease_with_id lease (ScopeLeaseID (tenantNamespaceFromCtx cx) (lease_ID lease) true)
               else lease in
  _ ← lift (match Lease_Validate lease with Ok _ => Ok tt | Err e => Err (Wrap ErrCodeValidation "lease" e) end);
  lease_save lease.

Definition checkTenantLease (cx : TenantCtx) (id : string) : res unit := assertTenantLeaseAccess cx (ls_tenantMode svc) id.

Definition LeaseService_Get (cx : TenantCtx) (subject : option string) (id : string) : V LeaseView :=
  _ ← lift (checkTenantLease cx id);
  lease ← lease_get id;
  _ ← audit subject "lease.lookup" ("sys/leases/" +:+ id) (Ok tt) [("lease_id", VStr id)];
  mret (toLeaseView lease).

(** The leases a filter selects, of the namespace when there is one. *)
Definition lease_matches (now : Time) (tenantNS : string) (filter : LeaseListFilter) (l : Lease) : bool :=
  ((tenantNS =s "") || ValidateLeaseIDAccess tenantNS (lease_ID l) true) &&
  ((lf_Engine filter =s "") || (lease_Engine l =s lf_Engine filter)) &&
  ((lf_Role filter =s "") || (lease_RoleName l =s lf_Role filter)) &&
  ((lf_Prefix filter =s "") || HasPrefix (lease_Path l) (lf_Prefix filter)) &&
  ((lf_TokenID filter =s "") || (lease_TokenID l =s lf_TokenID filter)) &&
  (negb (lf_ActiveOnly filter) || Lease_Active l now).

(** Offset, then limit. *)
Definition page {A} (offset limit : Z) (l : list A) : list A :=
  let l := if 0 <? offset then if Z.of_nat (length l) <=? offset then [] else drop (Z.to_nat offset) l else l in
  if (0 <? limit) && (limit <? Z.of_nat (length l)) then take (Z.to_nat limit) l else l.

Definition LeaseService_List (cx : TenantCtx) (now : Time) (filter : LeaseListFilter) : V (list LeaseView) := λ s,
  let tenantNS := if ls_tenantMode svc then tenantNamespaceFromCtx cx else "" in
  (s, Ok (page (lf_Offset filter) (lf_Limit filter)
            (toLeaseView <$> List.filter (lease_matches now tenantNS filter) (LeaseRepository_List (vt_leases s))))).

Definition maxGenericRenewTTL : Z := 24 * 3600.

(** [now] and [now'] are the two readings of the clock. *)
Definition LeaseService_Renew (cx : TenantCtx) (subject : option string) (now now' : Time) (env : RenewEnv) (id : string) (ttlSeconds : Z) : V LeaseView :=
  _ ← lift (checkTenantLease cx id);
  lease ← lease_get id;
  _ ← guard_not (negb (Lease_Active lease now)) (New ErrCodeValidation "lease not active");
  _ ← guard_not (negb (lease_Renewable lease)) (New ErrCodeValidation "lease is not renewable");
  let ttlSeconds := if ttlSeconds <=? 0 then lease_TTLSeconds lease else ttlSeconds in
  ttlSeconds ← match ls_renewers svc !! lease_Engine lease with
               | Some renewer =>
                   _ ← on_error (renewer env id ttlSeconds)
                         (λ e, _ ← audit subject "lease.renew" ("sys/leases/" +:+ id) (Err (A := unit) e) []; raise e);
                   mret ttlSeconds
               | None =>
                   let ttlSeconds := if maxGenericRenewTTL <? ttlSeconds then maxGenericRenewTTL else ttlSeconds in
                   _ ← lease_save (lease_extend lease ttlSeconds (plus_seconds now' ttlSeconds));
                   mret ttlSeconds
               end;
  updated ← lease_get id;
  _ ← audit subject "lease.renew" ("sys/leases/" +:+ id) (Ok tt) [("ttl", VNum ttlSeconds)];
  mret (toLeaseView updated).

Definition revokeOne (subject : option string) (now : Time) (id engine : string) : V unit :=
  recorded subject "lease.revoke" ("sys/leases/" +:+ id) (λ _, [("engine", VStr engine); ("lease_id", VStr id)])
    (match ls_hooks svc !! engine with
     | Some hook => hook now id
     | None => lease_revoke_at id now
     end).

Definition LeaseService_Revoke (cx : TenantCtx) (subject : option string) (now : Time) (id : string) : V unit :=
  _ ← lift (checkTenantLease cx id);
  lease ← lease_get id;
  revokeOne subject now (lease_ID lease) (lease_Engine lease).

(** The loop of [BulkRevoke]: the result carries what was revoked and, when one
    revocation failed, its error. *)
Fixpoint bulk_loop (subject : option string) (clk : nat → Time) (i : nat) (result : BulkRevokeResult) (views : list LeaseView)
    : V (option BulkRevokeResult * option error) :=
  match views with
  | [] => mret (Some result, None)
  | view :: views =>
      x ← attempt (revokeOne subject (clk i) (lv_ID view) (lv_Engine view));
      match x with
      | Ok _ => bulk_loop subject clk (S i) (mkBulkRevokeResult (bv_Revoked result + 1) (bv_IDs result ++ [lv_ID view])) views
      | Err e => mret (if 0 <? bv_Revoked result
                       then (Some result, Some (Plain ("partial bulk revoke after " +:+ Itoa (bv_Revoked result) +:+ " leases")))
                       else (None, Some e))
      end
  end.

Definition BulkRevoke (cx : TenantCtx) (subject : option string) (now : Time) (clk : nat → Time) (req : BulkRevokeRequest)
    : V (option BulkRevokeResult * option error) :=
  _ ← guard_not ((TrimSpace (br_Engine req) =s "") && (TrimSpace (br_Role req) =s "") && (TrimSpace (br_PathPrefix req) =s ""))
        (New ErrCodeValidation "bulk revoke requires engine, role, or path_prefix");
  leases ← LeaseService_List cx now (mkLeaseListFilter (br_Engine req) (br_Role req) (br_PathPrefix req) "" true 0 0);
  bulk_loop subject clk 0 (mkBulkRevokeResult 0 []) leases.

Definition RevokePrefix (cx : TenantCtx) (subject : option string) (now : Time) (clk : nat → Time) (prefix : string)
    : V (option BulkRevokeResult * option error) :=
  _ ← guard_not (TrimSpace prefix =s "") (New ErrCodeValidation "prefix is required");
  BulkRevoke cx subject now clk (mkBulkRevokeRequest "" "" prefix).

(** The best-effort loops of [Tidy] and [RevokeByTokenID]. *)
Fixpoint revoke_loop (subject : option string) (clk : nat → Time) (i : nat) (n : Z) (leases : list (string * string)) : V Z :=
  match leases with
  | [] => mret n
  | (id, engine) :: leases =>
      x ← attempt (revokeOne subject (clk i) id engine);
      revoke_loop subject clk (S i) (if is_ok x then n + 1 else n) leases
  end.

Definition Tidy (subject : option string) (now : Time) (clk : nat → Time) (limit : Z) : V Z :=
  expired ← gets (λ s, LeaseRepository_ListExpired (vt_leases s) now (if limit <=? 0 then 100 else limit));
  n ← revoke_loop subject clk 0 0
        ((λ l, (lease_ID l, lease_Engine l)) <$> List.filter (λ l, bool_decide (lease_RevokedAt l = None)) expired);
  _ ← audit subject "lease.tidy" "sys/leases" (Ok tt) [("revoked", VNum n)];
  mret n.

Definition LeaseService_RevokeByTokenID (cx : TenantCtx) (subject : option string) (now : Time) (clk : nat → Time) (tokenID : string) : V Z :=
  if tokenID =s "" then mret 0
  else
    leases ← LeaseService_List cx now (mkLeaseListFilter "" "" "" tokenID true 0 0);
    n ← revoke_loop subject clk 0 0 ((λ v, (lv_ID v, lv_Engine v)) <$> leases);
    _ ← when (0 <? n) (audit subject "lease.cascade_revoke" "sys/leases" (Ok tt) [("count", VNum n); ("token_id", VStr tokenID)]);
    mret n.

(** What a token revocation calls (internal/app/deps.go wires the lease service
    and the cubbyhole service to the authentication service). *)
Definition vault_hooks (cx : TenantCtx) (subject : option string) (now : Time) (clk : nat → Time) : TokenHooks Vault := {|
  RevokeByTokenID := LeaseService_RevokeByTokenID cx subject now clk;
  WipeToken := λ id, secrets (Cubby_WipeToken id);
|}.
End service.

(** ** What a revocation hook promises *)

(** A hook of an engine keeps the repositories well formed and, for a lease of
    that engine that was not revoked, marks it and touches no other, whether or
    not the rest of its work succeeds. *)
Record hook_sound `{UrlParser} (engine : string) (hook : LeaseRevoker) : Prop := {
  hk_wf : ∀ now id, preserves vault_wf (hook now id);
  hk_marks : ∀ now id s l, vault_wf s → vt_leases s !! id = Some l → lease_Engine l = engine → lease_RevokedAt l = None →
    vt_leases (hook now id s).1 = <[id := lease_revoke l now]> (vt_leases s);
}.

Section laws.
Context `{Aead} `{Json} `{UrlParser} {codec : TokenCodec} `{DbExternals} `{SshExternals} (k : KeyRing).
Implicit Types (s : Vault) (l : Lease).

Lemma bind_ret_state {A B} (m : V A) (b : B) s : ((_ ← m; mret b) s).1 = (m s).1.
Proof. unfold mbind, prog_bind. by destruct (m s) as [? []]. Qed.

Lemma dbRevoker_sound engine : hook_sound engine (dbRevoker k).
Proof.
  split.
  - intros now id. apply always_bind; [apply _|apply preserves_DB_RevokeLease|auto with prog].
  - intros now id s l Hw Hl _ Hr. unfold dbRevoker. rewrite bind_ret_state, (DB_RevokeLease_eq k now id l s (vw_secrets _ Hw) Hl), Hr.
    destruct (managed l s) as [role|].
    + destruct (run_revocation _ _ _ _) as [s1 [u|e]] eqn:E; apply run_revocation_keeps in E as [_ E]; [|exact E].
      cbn [fst]. by destruct (dropped_fields (lease_Path l) s1) as (-> & _).
    + cbn [fst]. by destruct (dropped_fields (lease_Path l) (marked now id l s)) as (-> & _).
Qed.

Lemma sshRevoker_sound : hook_sound "ssh" sshRevoker.
Proof.
  split.
  - intros now id. apply preserves_SSH_RevokeLease.
  - intros now id s l Hw Hl He Hr. unfold sshRevoker. rewrite (SSH_RevokeLease_eq now id l s (vw_secrets _ Hw) Hl), Hr.
    rewrite bool_decide_eq_true_2 by done. cbn [negb fst]. by destruct (dropped_fields (lease_Path l) (marked now id l s)) as (-> & _).
Qed.

Definition hooks_sound (svc : LeaseService) : Prop := map_Forall hook_sound (ls_hooks svc).

Lemma NewLeaseService_sound database ssh : hooks_sound (NewLeaseService k database ssh).
Proof.
  assert (Hd : map_Forall hook_sound (if database then <["database" := dbRevoker k]> ∅ else ∅ : gmap string LeaseRevoker)).
  { destruct database; [|apply map_Forall_empty]. apply map_Forall_insert_2; [apply dbRevoker_sound|apply map_Forall_empty]. }
  unfold hooks_sound. simpl. destruct ssh; [|exact Hd]. apply map_Forall_insert_2; [apply sshRevoker_sound|exact Hd].
Qed.

Lemma RegisterRevoker_sound svc engine r : hooks_sound svc → hook_sound engine r → hooks_sound (RegisterRevoker svc engine r).
Proof. intros Hs Hr. unfold RegisterRevoker. case_bool_decide; [done|]. by apply map_Forall_insert_2. Qed.

Context (svc : LeaseService) (Hsvc : hooks_sound svc).

Lemma recorded_fst {A} subject action resource details (m : V A) s :
  vt_leases (recorded subject action resource details m s).1 = vt_leases (m s).1 ∧
  vt_secrets (recorded subject action resource details m s).1 = vt_secrets (m s).1.
Proof. unfold recorded. by destruct (m s). Qed.

Lemma preserves_recorded {A} subject action resource details (m : V A) :
  preserves vault_wf m → preserves vault_wf (recorded subject action resource details m).
Proof.
  intros Hm s Hs. specialize (Hm s Hs). unfold recorded. destruct (m s) as [s1 x]. by apply vault_wf_audit.
Qed.

Lemma preserves_revokeOne subject now id engine : preserves vault_wf (revokeOne svc subject now id engine).
Proof.
  apply preserves_recorded. destruct (ls_hooks svc !! engine) as [hook|] eqn:E; [|auto with prog]. by apply (hk_wf _ _ (Hsvc _ _ E)).
Qed.

Lemma revokeOne_marks subject now id s l : vault_wf s → vt_leases s !! id = Some l → lease_RevokedAt l = None →
  vt_leases (revokeOne svc subject now id (lease_Engine l) s).1 = <[id := lease_revoke l now]> (vt_leases s).
Proof.
  intros Hw Hl Hr. unfold revokeOne. destruct (recorded_fst subject "lease.revoke" ("sys/leases/" +:+ id)
    (λ _ : res unit, [("engine", VStr (lease_Engine l)); ("lease_id", VStr id)])
    (match ls_hooks svc !! lease_Engine l with Some hook => hook now id | None => lease_revoke_at id now end) s) as [-> _].
  destruct (ls_hooks svc !! lease_Engine l) as [hook|] eqn:E; [by apply (hk_marks _ _ (Hsvc _ _ E))|].
  unfold lease_revoke_at, on_leases, LeaseRepository_Revoke, keyed_Alter. by rewrite Hl.
Qed.

(** The loop marks every lease it is given and leaves the others. *)
Definition pending_revocation (s : Vault) (x : string * string) : Prop :=
  ∃ l, vt_leases s !! x.1 = Some l ∧ lease_Engine l = x.2 ∧ lease_RevokedAt l = None.

Lemma revoke_loop_marks subject clk leases i n s :
  vault_wf s → NoDup leases.*1 → Forall (pending_revocation s) leases →
  let s' := (revoke_loop svc subject clk i n leases s).1 in
  vault_wf s' ∧ is_Ok (revoke_loop svc subject clk i n leases s).2 ∧
  ∀ id, (id ∈ leases.*1 → ∃ l t, vt_leases s !! id = Some l ∧ vt_leases s' !! id = Some (lease_revoke l t)) ∧
        (id ∉ leases.*1 → vt_leases s' !! id = vt_leases s !! id).
Proof.
  revert i n s. induction leases as [|[id0 e0] leases IH]; intros i n s Hw Hnd Hp.
  - split_and!; [done|by eexists|]. intros id. split; [by intros ?%elem_of_nil|done].
  - cbn [revoke_loop]. unfold mbind, prog_bind, attempt. apply Forall_cons in Hp as [(l0 & Hl0 & He0 & Hr0) Hp]. simpl in Hl0, He0. subst e0.
    apply NoDup_cons in Hnd as [Hn0 Hnd]. assert (Hm := revokeOne_marks subject (clk i) id0 s l0 Hw Hl0 Hr0).
    assert (Hw1 := preserves_revokeOne subject (clk i) id0 (lease_Engine l0) s Hw).
    destruct (revokeOne svc subject (clk i) id0 (lease_Engine l0) s) as [s1 x]. simpl in Hm, Hw1.
    destruct (IH (S i) (if is_ok x then n + 1 else n) s1 Hw1 Hnd) as (Hw' & Hok & Hid).
    + apply Forall_forall. intros [id e] Hin. rewrite Forall_forall in Hp. destruct (Hp _ Hin) as (l & Hl & He & Hr). exists l. simpl in *.
      rewrite Hm, lookup_insert_ne; [done|]. intros <-. apply Hn0. by apply (list_elem_of_fmap_2 fst _ (id0, e)).
    + split_and!; [done|done|]. intros id. destruct (Hid id) as [Hin Hout]. simpl. destruct (decide (id = id0)) as [->|Hne].
      * split; [|intros Hx; destruct Hx; apply list_elem_of_here]. intros _. exists l0, (clk i). split; [done|]. rewrite Hout by done.
        by rewrite Hm, lookup_insert_eq.
      * rewrite Hm, lookup_insert_ne in Hin, Hout by done. split.
        { intros Hx. apply elem_of_cons in Hx as [?|Hx]; [done|]. by apply Hin. }
        { intros Hx. apply Hout. intros Hy. apply Hx. by right. }
Qed.

Lemma lease_List_ids s : vault_wf s → NoDup (lease_ID <$> LeaseRepository_List (vt_leases s)).
Proof.
  intros Hw. unfold LeaseRepository_List, keyed_List. rewrite sort_by_string_perm. apply (keyed_keys_NoDup _ (vw_leases _ Hw)).
Qed.

Lemma NoDup_fmap_filter {A} (f : A → string) (p : A → bool) xs : NoDup (f <$> xs) → NoDup (f <$> List.filter p xs).
Proof.
  induction xs as [|x xs IH]; [done|]. simpl. intros [Hx Hnd]%NoDup_cons. destruct (p x); [|by apply IH]. simpl. apply NoDup_cons.
  split; [|by apply IH]. intros (y & Hy & Hin)%list_elem_of_fmap_1. apply Hx. rewrite Hy. apply list_elem_of_fmap_2.
  apply list_elem_of_In, filter_In in Hin as [Hin _]. by apply list_elem_of_In.
Qed.

(** The pairs the cascade walks. *)
Definition selected (cx : TenantCtx) (now : Time) (tokenID : string) s : list (string * string) :=
  (λ l, (lease_ID l, lease_Engine l)) <$>
  List.filter (lease_matches now (if ls_tenantMode svc then tenantNamespaceFromCtx cx else "") (mkLeaseListFilter "" "" "" tokenID true 0 0))
    (LeaseRepository_List (vt_leases s)).

Lemma selected_ids cx now tokenID s : (selected cx now tokenID s).*1 =
  lease_ID <$> List.filter (lease_matches now (if ls_tenantMode svc then tenantNamespaceFromCtx cx else "") (mkLeaseListFilter "" "" "" tokenID true 0 0))
    (LeaseRepository_List (vt_leases s)).
Proof. unfold selected. by rewrite <-list_fmap_compose. Qed.

(** A lease is selected when it is active, of the token and in reach of the
    namespace. *)
Definition in_reach (cx : TenantCtx) (id : string) : bool :=
  let ns := if ls_tenantMode svc then tenantNamespaceFromCtx cx else "" in (ns =s "") || ValidateLeaseIDAccess ns id true.

Lemma selected_elem cx now tokenID s id l : vault_wf s → tokenID ≠ "" → vt_leases s !! id = Some l →
  id ∈ (selected cx now tokenID s).*1 ↔ in_reach cx id = true ∧ lease_TokenID l = tokenID ∧ Lease_Active l now = true.
Proof.
  intros Hw Ht Hl. assert (Hid : lease_ID l = id) by (by destruct (vw_leases _ Hw _ _ Hl)). rewrite selected_ids, list_elem_of_fmap. unfold in_reach. split.
  - intros (l' & E & [Hin Hm]%list_elem_of_In%filter_In). apply list_elem_of_In, keyed_List_elem in Hin as [id' Hl'].
    assert (id' = id) as -> by (destruct (vw_leases _ Hw _ _ Hl') as [Hk _]; cbn in Hk; congruence). rewrite Hl in Hl'. injection Hl' as <-.
    unfold lease_matches in Hm. cbn [lf_Engine lf_Role lf_Prefix lf_TokenID lf_ActiveOnly] in Hm.
    rewrite (bool_decide_eq_false_2 _ Ht), !orb_false_l, <-E in Hm. apply andb_true_iff in Hm as [Hm Ha]. apply andb_true_iff in Hm as [Hm Htok].
    repeat (apply andb_true_iff in Hm as [Hm _]). by apply bool_decide_eq_true in Htok.
  - intros (Hr & Htok & Ha). exists l. split; [done|]. apply list_elem_of_In, filter_In. split; [apply list_elem_of_In, keyed_List_elem; by exists id|].
    unfold lease_matches. cbn [lf_Engine lf_Role lf_Prefix lf_TokenID lf_ActiveOnly]. by rewrite Hid, Hr, Ha, (bool_decide_eq_false_2 _ Ht), (bool_decide_eq_true_2 _ Htok).
Qed.

(** The cascade touches the leases it selects: those are marked, the others
    stay as they are. *)
Lemma cascade_run cx subject now clk tokenID s : vault_wf s → tokenID ≠ "" →
  let '(s', x) := LeaseService_RevokeByTokenID svc cx subject now clk tokenID s in
  vault_wf s' ∧ is_Ok x ∧ dom (vt_leases s') = dom (vt_leases s) ∧
  ∀ id l, vt_leases s !! id = Some l →
    if decide (in_reach cx id = true ∧ lease_TokenID l = tokenID ∧ Lease_Active l now = true)
    then ∃ t, vt_leases s' !! id = Some (lease_revoke l t) else vt_leases s' !! id = Some l.
Proof.
  intros Hw Ht. unfold LeaseService_RevokeByTokenID. rewrite (bool_decide_eq_false_2 _ Ht).
  unfold mbind at 1, prog_bind at 1, LeaseService_List. cbn [lf_Offset lf_Limit page Z.ltb Z.compare andb]. rewrite <-list_fmap_compose.
  change (_ ∘ toLeaseView) with (λ l, (lease_ID l, lease_Engine l)). fold (selected cx now tokenID s).
  destruct (revoke_loop_marks subject clk (selected cx now tokenID s) 0 0 s Hw) as (Hw1 & [n Hn] & Hm).
  { rewrite selected_ids. apply NoDup_fmap_filter, lease_List_ids, Hw. }
  { apply Forall_forall. intros x (l & -> & [Hin Hmt]%list_elem_of_In%filter_In)%list_elem_of_fmap_1. apply list_elem_of_In, keyed_List_elem in Hin as [id Hl].
    assert (Hid : lease_ID l = id) by (by destruct (vw_leases _ Hw _ _ Hl)). exists l. cbn [fst snd]. rewrite Hid. split_and!; [done|done|].
    unfold lease_matches in Hmt. apply andb_true_iff in Hmt as [_ Ha]. cbn in Ha. unfold Lease_Active in Ha. by destruct (lease_RevokedAt l). }
  destruct (revoke_loop svc subject clk 0 0 (selected cx now tokenID s) s) as [s1 x] eqn:E. simpl in Hn, Hw1, Hm. subst x.
  unfold mbind, prog_bind. rewrite E. set (event := audit subject "lease.cascade_revoke" "sys/leases" (Ok tt) [("count", VNum n); ("token_id", VStr tokenID)]).
  pose (s2 := (when (0 <? n) event s1).1). assert (Ev : when (0 <? n) event s1 = (s2, Ok tt)).
  { unfold s2. destruct (0 <? n); done. }
  assert (El : vt_leases s2 = vt_leases s1) by (unfold s2; destruct (0 <? n); done).
  assert (Hw2 : vault_wf s2) by (unfold s2; destruct (0 <? n); [by apply vault_wf_audit|done]).
  rewrite Ev. split_and!; [done|by eexists| |].
  - rewrite El. apply set_eq. intros id. rewrite !elem_of_dom. destruct (Hm id) as [Hin Hout].
    destruct (decide (id ∈ (selected cx now tokenID s).*1)) as [Hi|Hi]; [|by rewrite Hout].
    destruct (Hin Hi) as (l & t & -> & ->). done.
  - intros id l Hl. rewrite El. destruct (Hm id) as [Hin Hout]. rewrite (selected_elem cx now tokenID s id l Hw Ht Hl) in Hin, Hout.
    case_decide as Hd; [|by rewrite Hout]. destruct (Hin Hd) as (l' & t & Hl' & E'). rewrite Hl in Hl'. injection Hl' as <-. by exists t.
Qed.

(** The cascade when it sees all namespaces: tenant mode off, or a request
    without a namespace. *)
Lemma cascade_complete cx subject now clk tokenID s s' x :
  vault_wf s → tokenID ≠ "" → (ls_tenantMode svc = false ∨ tenantNamespaceFromCtx cx = "") →
  LeaseService_RevokeByTokenID svc cx subject now clk tokenID s = (s', x) →
  vault_wf s' ∧ is_Ok x ∧ dom (vt_leases s') = dom (vt_leases s) ∧
  (∀ id l t, vt_leases s' !! id = Some l → lease_TokenID l = tokenID → now ≤ t → Lease_Active l t = false) ∧
  (∀ id l, vt_leases s !! id = Some l → lease_TokenID l ≠ tokenID → vt_leases s' !! id = Some l).
Proof.
  intros Hw Ht Hns Hr. assert (Hc := cascade_run cx subject now clk tokenID s Hw Ht). rewrite Hr in Hc. destruct Hc as (Hw' & Hok & Hd & Hc).
  assert (Hreach : ∀ id, in_reach cx id = true).
  { intros id. unfold in_reach. destruct Hns as [->| ->]; [done|]. by destruct (ls_tenantMode svc). }
  split_and!; [done..| |].
  - intros id l' t Hl' Htok Hle. assert (Hin : id ∈ dom (vt_leases s)) by (rewrite <-Hd; apply elem_of_dom; by eexists).
    apply elem_of_dom in Hin as [l Hl]. specialize (Hc id l Hl). case_decide as Hsel.
    + destruct Hc as [t' Hc]. rewrite Hc in Hl'. injection Hl' as <-. done.
    + rewrite Hc in Hl'. injection Hl' as <-. unfold Lease_Active, Before in *. destruct (lease_RevokedAt l) eqn:Er; [done|].
      apply Z.ltb_ge. destruct (Z.ltb_spec now (lease_ExpiresAt l)) as [Hlt|]; [|lia]. destruct Hsel. by rewrite Hreach.
  - intros id l Hl Hne. specialize (Hc id l Hl). case_decide as Hsel; [|done]. by destruct Hsel as (_ & ? & _).
Qed.

(** In tenant mode the cascade is bounded by the namespace of the request, not
    by the token: a lease of the same token that another namespace scopes
    stays active. *)
Theorem cascade_stops_at_namespace cx subject now clk tokenID s id l :
  vault_wf s → tokenID ≠ "" → ls_tenantMode svc = true → tenantNamespaceFromCtx cx ≠ "" →
  ValidateLeaseIDAccess (tenantNamespaceFromCtx cx) id true = false →
  vt_leases s !! id = Some l → lease_TokenID l = tokenID →
  vt_leases (LeaseService_RevokeByTokenID svc cx subject now clk tokenID s).1 !! id = Some l.
Proof.
  intros Hw Ht Htm Hns Hv Hl _. assert (Hc := cascade_run cx subject now clk tokenID s Hw Ht).
  destruct (LeaseService_RevokeByTokenID svc cx subject now clk tokenID s) as [s' x]. destruct Hc as (_ & _ & _ & Hc). specialize (Hc id l Hl).
  case_decide as Hsel; [|done]. destruct Hsel as [Hr _]. unfold in_reach in Hr. rewrite Htm, (bool_decide_eq_false_2 _ Hns), Hv in Hr. done.
Qed.
End laws.

(** ** Revoking a token *)

Section revocation.
Context `{Aead} `{Json} `{UrlParser} {codec : TokenCodec} `{DbExternals} `{SshExternals} (k : KeyRing) {R : Type} {repo : TokenRepo R}.
Context (svc : LeaseService) (Hsvc : hooks_sound svc).

(** C21. Revoking a token takes away the leases it holds. When [RevokeToken] answers
    success, every lease filed under the token is inactive from the moment the
    cascade looked on, even when an engine failed to revoke one of them, no path of
    the token's cubbyhole can be read, and the leases of other tokens are as they
    were. Nothing is said of the credentials behind a lease: an engine that failed,
    or a credential renewed past its lease, may leave them working. Assumed: the
    stores are well formed, the revocation hooks of the engines change only the
    lease they are given ([hooks_sound], which holds of the database and SSH
    engines), the hash of the token is not empty, and the
    cascade sees all namespaces: tenant mode is off, or the request has none. *)
Theorem token_revocation_cleans_up cx subject seen clk token now (st st' : AuthService R Vault) u :
  vault_wf (au_hooks st) → hashToken token ≠ "" → (ls_tenantMode svc = false ∨ tenantNamespaceFromCtx cx = "") →
  RevokeToken (hooks := vault_hooks svc cx subject seen clk) token now st = (st', Ok u) →
  (∀ id l t, vt_leases (au_hooks st') !! id = Some l → lease_TokenID l = hashToken token → seen ≤ t → Lease_Active l t = false) ∧
  (∀ id l, vt_leases (au_hooks st) !! id = Some l → lease_TokenID l ≠ hashToken token → vt_leases (au_hooks st') !! id = Some l) ∧
  (∀ q sq, storagePath (hashToken token) q = Ok sq →
     (Cubby_Get k (hashToken token) q (vt_secrets (au_hooks st'))).2 = Err (New ErrCodeNotFound "secret version not found")).
Proof.
  intros Hw Hne Hns Hr. unfold RevokeToken in Hr. cbv zeta in Hr. apply prog_bind_run in Hr as (s1 & [] & Ht & Hr).
  assert (E1 : au_hooks s1 = au_hooks st) by (unfold tokens, zoom in Ht; destruct (Revoke _ _ _); by simplify_eq).
  unfold mbind, prog_bind, ignore, zoom in Hr. cbn [RevokeByTokenID WipeToken vault_hooks] in Hr.
  destruct (LeaseService_RevokeByTokenID svc cx subject seen clk (hashToken token) (au_hooks s1)) as [v x] eqn:Ec. rewrite E1 in Ec.
  destruct (cascade_complete svc Hsvc _ _ _ _ _ _ _ _ Hw Hne Hns Ec) as (Hw' & _ & _ & Hoff & Hother).
  cbn [fst au_hooks set_au_hooks] in Hr. unfold secrets, zoom in Hr.
  destruct (WipeToken_of (vt_secrets v) (hashToken token) (vw_secrets _ Hw') Hne) as (r' & y & E2 & Hr' & Hd). rewrite E2 in Hr.
  injection Hr as <- <-. cbn [fst au_hooks set_au_hooks vt_leases vt_secrets set_secrets]. split_and!; [exact Hoff|exact Hother|].
  intros q sq Hq. rewrite (Cubby_Get_at k _ q sq) by done. rewrite (destroyed_no_latest _ r' _ sq Hr' Hd); [done|].
  intros _. by apply (storagePath_prefix _ q).
Qed.
End revocation.

(** ** All operations together *)

Section operations.
Context `{Aead} `{Json} `{UrlParser} {codec : TokenCodec} `{DbExternals} `{SshExternals} (k : KeyRing) (tenantMode : bool).

(** Requests to the credential services, with what each takes from outside. *)
Inductive vault_op :=
  | ODbRole (cx : TenantCtx) (subject : option string) (cfg : RoleConfig)
  | ODbGetRole (cx : TenantCtx) (name : string)
  | ODbCreds (cx : TenantCtx) (subject : option string) (env : CredsEnv) (req : CredsRequest)
  | ODbRenew (cx : TenantCtx) (subject : option string) (now : Time) (fr : Fresh) (id : string) (ttl : Z)
  | ODbRevoke (cx : TenantCtx) (subject : option string) (now : Time) (id : string)
  | ODbRenewExpiring (now : Time) (grace : Duration) (limit : Z) (envs : nat → Time * Fresh)
  | ODbCleanup (subject : option string) (now : Time) (limit : Z) (clk : nat → Time)
  | OSshRole (cx : TenantCtx) (subject : option string) (cfg : SshRoleConfig)
  | OSshGetRole (cx : TenantCtx) (name : string)
  | OSshCreds (cx : TenantCtx) (subject : option string) (env : SshEnv) (req : SshCredsRequest)
  | OSshRenew (cx : TenantCtx) (subject : option string) (now : Time) (fr : Fresh) (rnd : SshRandom) (id : string) (ttl : Z)
  | OSshRevoke (cx : TenantCtx) (subject : option string) (now : Time) (id : string)
  | OSshRenewExpiring (now : Time) (grace : Duration) (limit : Z) (envs : nat → Time * Fresh * SshRandom)
  | OSshCleanup (subject : option string) (now : Time) (limit : Z) (clk : nat → Time)
  | OLeaseRegister (cx : TenantCtx) (lease : Lease)
  | OLeaseGet (cx : TenantCtx) (subject : option string) (id : string)
  | OLeaseList (cx : TenantCtx) (now : Time) (filter : LeaseListFilter)
  | OLeaseRenew (cx : TenantCtx) (subject : option string) (now now' : Time) (env : RenewEnv) (id : string) (ttl : Z)
  | OLeaseRevoke (cx : TenantCtx) (subject : option string) (now : Time) (id : string)
  | OLeaseBulk (cx : TenantCtx) (subject : option string) (now : Time) (clk : nat → Time) (req : BulkRevokeRequest)
  | OLeasePrefix (cx : TenantCtx) (subject : option string) (now : Time) (clk : nat → Time) (prefix : string)
  | OLeaseTidy (subject : option string) (now : Time) (clk : nat → Time) (limit : Z)
  | OLeaseToken (cx : TenantCtx) (subject : option string) (now : Time) (clk : nat → Time) (tokenID : string)
  | OCubbyPut (fr : Fresh) (tokenID p : string) (data : object)
  | OCubbyDelete (tokenID p : string)
  | OCubbyWipe (tokenID : string).

(** The lease service over both engines. *)
Definition lease_service : LeaseService := SetTenantMode (NewLeaseService k true true) tenantMode.

Definition vault_step (op : vault_op) : V unit :=
  match op with
  | ODbRole cx subject cfg => DatabaseService_SaveRole tenantMode cx subject cfg
  | ODbGetRole cx name => ignore (DatabaseService_GetRole tenantMode cx name)
  | ODbCreds cx subject env req => ignore (DatabaseService_GenerateCredentials k tenantMode cx subject env req)
  | ODbRenew cx subject now fr id ttl => ignore (DatabaseService_Renew k tenantMode cx subject now fr id ttl)
  | ODbRevoke cx subject now id => ignore (DatabaseService_Revoke k tenantMode cx subject now id)
  | ODbRenewExpiring now grace limit envs => ignore (DB_RenewExpiring k now grace limit envs)
  | ODbCleanup subject now limit clk => ignore (DatabaseService_CleanupExpired k subject now limit clk)
  | OSshRole cx subject cfg => SSHService_SaveRole tenantMode cx subject cfg
  | OSshGetRole cx name => ignore (SSHService_GetRole tenantMode cx name)
  | OSshCreds cx subject env req => ignore (SSHService_GenerateCredentials k tenantMode cx subject env req)
  | OSshRenew cx subject now fr rnd id ttl => ignore (SSHService_Renew k tenantMode cx subject now fr rnd id ttl)
  | OSshRevoke cx subject now id => SSHService_Revoke tenantMode cx subject now id
  | OSshRenewExpiring now grace limit envs => ignore (SSHService_RenewExpiring k now grace limit envs)
  | OSshCleanup subject now limit clk => ignore (SSHService_CleanupExpired subject now limit clk)
  | OLeaseRegister cx lease => LeaseService_Register lease_service cx lease
  | OLeaseGet cx subject id => ignore (LeaseService_Get lease_service cx subject id)
  | OLeaseList cx now filter => ignore (LeaseService_List lease_service cx now filter)
  | OLeaseRenew cx subject now now' env id ttl => ignore (LeaseService_Renew lease_service cx subject now now' env id ttl)
  | OLeaseRevoke cx subject now id => LeaseService_Revoke lease_service cx subject now id
  | OLeaseBulk cx subject now clk req => ignore (BulkRevoke lease_service cx subject now clk req)
  | OLeasePrefix cx subject now clk prefix => ignore (RevokePrefix lease_service cx subject now clk prefix)
  | OLeaseTidy subject now clk limit => ignore (Tidy lease_service subject now clk limit)
  | OLeaseToken cx subject now clk tokenID => ignore (LeaseService_RevokeByTokenID lease_service cx subject now clk tokenID)
  | OCubbyPut fr tokenID p data => secrets (Cubby_Put k fr tokenID p data)
  | OCubbyDelete tokenID p => secrets (Cubby_Delete tokenID p)
  | OCubbyWipe tokenID => secrets (Cubby_WipeToken tokenID)
  end.

Definition vault_run (ops : list vault_op) (s : Vault) : Vault := foldl (λ s op, (vault_step op s).1) s ops.

#[local] Hint Resolve preserves_DB_GetRole preserves_DB_SaveRole preserves_DB_GenerateCredentials preserves_DB_Renew preserves_DB_RevokeLease
  preserves_DB_RenewExpiring preserves_DB_CleanupExpired preserves_SSH_GetRole preserves_SSH_SaveRole preserves_SSH_GenerateCredentials preserves_SSH_Renew
  preserves_SSH_RevokeLease preserves_SSH_RenewExpiring preserves_SSH_CleanupExpired preserves_recorded : prog.

Lemma lease_service_sound : hooks_sound lease_service.
Proof. apply (NewLeaseService_sound k true true). Qed.
#[local] Hint Resolve lease_service_sound : prog.

Lemma lease_service_renewers engine renewer env id ttl : ls_renewers lease_service !! engine = Some renewer →
  preserves vault_wf (renewer env id ttl).
Proof.
  intros E. assert (Hall : map_Forall (λ _ r, ∀ env id ttl, preserves vault_wf (r env id ttl)) (ls_renewers lease_service)).
  { apply map_Forall_insert_2; [|apply map_Forall_insert_2; [|apply map_Forall_empty]]; intros; eauto with prog. }
  apply (Hall _ _ E).
Qed.

Lemma preserves_revoke_one subject now id engine : preserves vault_wf (revokeOne lease_service subject now id engine).
Proof. apply preserves_revokeOne, lease_service_sound. Qed.
#[local] Hint Resolve preserves_revoke_one : prog.

Lemma preserves_revoke_loop subject clk leases i n : preserves vault_wf (revoke_loop lease_service subject clk i n leases).
Proof. revert i n. induction leases as [|[id engine] leases IH]; intros i n; simpl; eauto with prog. Qed.
Lemma preserves_bulk_loop subject clk views i result : preserves vault_wf (bulk_loop lease_service subject clk i result views).
Proof. revert i result. induction views as [|v views IH]; intros i result; simpl; eauto with prog. Qed.
Lemma preserves_list cx now filter : preserves vault_wf (LeaseService_List lease_service cx now filter).
Proof. by apply preserves_pure. Qed.
#[local] Hint Resolve preserves_revoke_loop preserves_bulk_loop preserves_list : prog.

Lemma preserves_bulk cx subject now clk req : preserves vault_wf (BulkRevoke lease_service cx subject now clk req).
Proof. unfold BulkRevoke. eauto 7 with prog. Qed.
#[local] Hint Resolve preserves_bulk : prog.

Lemma preserves_lease_renew cx subject now now' env id ttl : preserves vault_wf (LeaseService_Renew lease_service cx subject now now' env id ttl).
Proof.
  unfold LeaseService_Renew. do 4 (apply always_bind; [apply _|auto with prog|intros ?]). cbv zeta.
  apply always_bind; [apply _| |intros ?; eauto with prog].
  destruct (ls_renewers lease_service !! _) as [renewer|] eqn:E; [|eauto with prog].
  apply always_bind; [apply _| |eauto with prog]. apply always_on_error; [apply _|by eapply lease_service_renewers|eauto with prog].
Qed.

Lemma preserves_cubby (m : Store unit) : (∀ r, secrets_wf r → secrets_wf (m r).1) → preserves vault_wf (secrets m).
Proof.
  intros Hm s Hs. unfold secrets, zoom. specialize (Hm _ (vw_secrets _ Hs)). destruct (m (vt_secrets s)). by apply vault_wf_secrets.
Qed.

Lemma preserves_vault_step op : preserves vault_wf (vault_step op).
Proof.
  destruct op; unfold vault_step; try (apply preserves_cubby; intros r Hr).
  all: try (by apply (cubby_step_confined k tokenID (CPut fr p data))).
  all: try (by apply (cubby_step_confined k tokenID (CDelete p))).
  all: try (by apply (cubby_step_confined k tokenID CWipe)).
  all: try apply preserves_lease_renew.
  all: unfold DatabaseService_SaveRole, DatabaseService_GetRole, DatabaseService_GenerateCredentials, DatabaseService_Renew, DatabaseService_Revoke,
    DatabaseService_CleanupExpired, SSHService_SaveRole, SSHService_GetRole, SSHService_GenerateCredentials, SSHService_Renew, SSHService_Revoke,
    SSHService_RenewExpiring, SSHService_CleanupExpired, LeaseService_Register, LeaseService_Get, LeaseService_Revoke, RevokePrefix, Tidy,
    LeaseService_RevokeByTokenID; eauto 12 with prog.
Qed.

Lemma vault_run_wf ops s : vault_wf s → vault_wf (vault_run ops s).
Proof. revert s. induction ops as [|op ops IH]; intros s Hs; [done|]. apply IH. by apply preserves_vault_step. Qed.

(** The stores are well formed at all times. Whatever requests the database, SSH,
    lease and cubbyhole services receive, in whatever order, with whatever
    clocks and random bytes, and whether or not the engines and the database
    behind them fail, every stored role and lease is valid and filed under its
    own name, and versions of a secret stay numbered and unique. *)
Theorem vault_stays_well_formed ops : vault_wf (vault_run ops empty_vault).
Proof. apply vault_run_wf, empty_vault_wf. Qed.
End operations.

(** ** Examples *)

#[local] Existing Instance toy_aead.
#[local] Existing Instance text_json.
#[local] Existing Instance toy_codec.
#[local] Existing Instance any_url.
#[local] Existing Instance demo_externals.
#[local] Existing Instance toy_ssh.

Definition demo_leases (tenantMode : bool) : LeaseService := lease_service (demo_ring "a") tenantMode.
Definition no_ctx : TenantCtx := mkTenantCtx "" None.

(** A token that holds two database leases, whose accounts the database refuses to
    drop, one of them in a namespace, and a cubbyhole entry; and another holder. *)
Definition holder : string := hashToken demo_token.
Definition issue_to (token tenant raw : string) (fresh : UUID) : vault_op :=
  ODbCreds no_ctx None (mkCredsEnv 1000 1000 (demo_fresh fresh 1000) (Ok (bytes_of raw)) (Ok (bytes_of raw)) (Ok (bytes_of "pw")))
    (mkCredsRequest "app" 300 token tenant (negb (tenant =s ""))).
Definition held : Vault := vault_run (demo_ring "a") false
  [issue_to holder "" "L1" 2; issue_to holder "team-b" "L2" 3; issue_to "other" "" "L3" 4; OCubbyPut (demo_fresh 5 1000) holder "note" [("k", VStr "v")]]
  (demo_vault "managed" "sqlite:stuck").

Lemma held_wf : vault_wf held.
Proof. apply vault_run_wf, demo_vault_wf. Qed.

Lemma held_leases : (λ id, (λ l, (lease_TokenID l, Lease_Active l 2000)) <$> vt_leases held !! id) <$> ["l_L1"; "team-b.l_L2"; "l_L3"] =
  [Some (holder, true); Some (holder, true); Some ("other", true)].
Proof. vm_compute. reflexivity. Qed.

Definition demo_sessions : AuthService (gmap string ClientToken) Vault :=
  mkAuthService demo_config demo_issued (NewPolicyService ∅ ∅ NewRBAC) None None None None held.
Definition demo_revocation : AuthService (gmap string ClientToken) Vault * res unit :=
  RevokeToken (hooks := vault_hooks (demo_leases false) no_ctx None 2000 (λ _, 2000)) demo_token 2000 demo_sessions.

Lemma token_revocation_cleans_up_witness : demo_revocation.2 = Ok tt ∧
  (∀ l, vt_leases (au_hooks demo_revocation.1) !! "l_L1" = Some l → lease_TokenID l = holder → Lease_Active l 3000 = false) ∧
  (Cubby_Get (demo_ring "a") holder "note" (vt_secrets (au_hooks demo_revocation.1))).2 = Err (New ErrCodeNotFound "secret version not found").
Proof.
  assert (E : RevokeToken (hooks := vault_hooks (demo_leases false) no_ctx None 2000 (λ _, 2000)) demo_token 2000 demo_sessions =
              (demo_revocation.1, Ok tt)) by (unfold demo_revocation; apply run_eq; vm_compute; reflexivity).
  destruct (token_revocation_cleans_up (demo_ring "a") (demo_leases false) (lease_service_sound (demo_ring "a") false) no_ctx None 2000 (λ _, 2000)
    demo_token 2000 demo_sessions demo_revocation.1 tt held_wf) as (Hl & _ & Hc); [discriminate|by left|exact E|].
  split; [unfold demo_revocation; rewrite E; reflexivity|]. split.
  - intros l Hl1 Ht. apply (Hl "l_L1" l 3000 Hl1 Ht). discriminate.
  - apply (Hc "note" "cubbyhole/h:knxv_r1/note"). reflexivity.
Defined.

Lemma cascade_stops_at_namespace_witness : ∃ l, vt_leases held !! "team-b.l_L2" = Some l ∧
  vt_leases (LeaseService_RevokeByTokenID (demo_leases true) (mkTenantCtx "team-a" (Some "team-a")) None 2000 (λ _, 2000) holder held).1
    !! "team-b.l_L2" = Some l.
Proof.
  assert (E : lease_TokenID <$> vt_leases held !! "team-b.l_L2" = Some holder) by (vm_compute; reflexivity).
  destruct (vt_leases held !! "team-b.l_L2") as [l|] eqn:El; [|discriminate E]. injection E as Et. exists l. split; [reflexivity|].
  apply (cascade_stops_at_namespace (demo_leases true) (lease_service_sound (demo_ring "a") true) (mkTenantCtx "team-a" (Some "team-a")) None 2000
    (λ _, 2000) holder held "team-b.l_L2" l held_wf); [discriminate|reflexivity|discriminate|reflexivity|exact El|exact Et].
Defined.
