(* ===== verification/MasterKey.v ===== *)
(** Master key rotation, internal/service/masterkey.go: accepting a new master
    key, and the job that wraps every stored data key again under it.

    Base64 decoding is a parameter. The job takes a nonce per wrapped key. It
    returns the stores it reached together with the count or the error, since
    it stops where an error happens. *)

From S2P Require Import Prelude.
From S2P Require Import GoLib.
From S2P Require Import Domain.
From S2P Require Import Repos.
From S2P Require Import SecretRepo.
From S2P Require Import Crypto.
From S2P Require Import KVEngine.

#[local] Open Scope Z_scope.

Section masterkey.
Context `{Aead} (base64_decode : string → res bytes).

Definition Rotate (multiNodeRaft allowInsecure : bool) (k : KeyRing) (newKeyBase64 : string) : res (KeyRing * ascii) :=
  _ ← reject (multiNodeRaft && negb allowInsecure)
        (New ErrCodeForbidden "master key rotation on multi-node Raft requires KNXVAULT_MASTER_KEY_ROTATION_ALLOW_INSECURE=true and distributing previous keys via KNXVAULT_MASTER_KEY_PREVIOUS on every node");
  raw ← match base64_decode newKeyBase64 with
        | Ok raw => Ok raw
        | Err e => Err (Wrap ErrCodeValidation "invalid base64 master key" e)
        end;
  _ ← reject (negb (len raw =? 32)) (New ErrCodeValidation ("master key must be 32 bytes, got " +:+ Itoa (len raw)));
  match RotateMasterKey k raw with
  | Ok kv => Ok kv
  | Err e => Err (Wrap ErrCodeInternal "rotate master key" e)
  end.
End masterkey.

(** One of the two loops of [ReencryptDEKs]: [before] entities were done by the
    other loop, [count] by this one. *)
Section loop.
Context `{Aead} {St A : Type} (k : KeyRing) (nonces : nat → res bytes) (limit before : Z) (what : string).
Context (dek : A → bytes) (update : St → A → bytes → res St).

Fixpoint reencrypt_loop (st : St) (count : Z) (items : list A) : St * res Z :=
  match items with
  | [] => (st, Ok count)
  | it :: items =>
    if limit <=? before + count then (st, Ok count)
    else if negb (KeyRing_DEKNeedsReencrypt k (dek it)) then reencrypt_loop st count items
    else match KeyRing_ReencryptDEK k (nonces (Z.to_nat (before + count))) (dek it) with
         | Err e => (st, Err (Wrap ErrCodeInternal what e))
         | Ok newEnc =>
           match update st it newEnc with
           | Err e => (st, Err e)
           | Ok st => reencrypt_loop st (count + 1) items
           end
         end
  end.
End loop.

Definition ca_with_dek (c : CA) (d : bytes) : CA :=
  mkCA (ca_ID c) (ca_ParentID c) (ca_Name c) (ca_Type c) (ca_Subject c) (ca_Serial c) (ca_CertPEM c) (ca_PrivateKeyEnc c) d
    (ca_Status c) (ca_CreatedAt c) (ca_ExpiresAt c) (ca_CRLNextUpdate c).

Record ReencryptResult := mkReencryptResult { rr_CAs : Z; rr_Secrets : Z }.

Definition save_ca (r : gmap UUID CA) (c : CA) (d : bytes) : res (gmap UUID CA) := CARepository_Save r (ca_with_dek c d).
Definition save_secret (r : SecretRepository) (sv : SecretVersion) (d : bytes) : res SecretRepository :=
  UpdateDEKEnc r (sv_Path sv) (sv_Version sv) d.

Definition ReencryptDEKs `{Aead} (k : KeyRing) (nonces : nat → res bytes) (cas : gmap UUID CA) (secrets : SecretRepository)
    (limit : Z) : gmap UUID CA * SecretRepository * res ReencryptResult :=
  let limit := if limit <=? 0 then 100 else limit in
  match reencrypt_loop k nonces limit 0 "reencrypt ca dek" ca_DEKEnc save_ca cas 0 (CARepository_List cas) with
  | (cas, Err e) => (cas, secrets, Err e)
  | (cas, Ok n) =>
    match reencrypt_loop k nonces limit n "reencrypt secret dek" sv_DEKEnc save_secret secrets 0 (ListByPath secrets "") with
    | (secrets, Err e) => (cas, secrets, Err e)
    | (secrets, Ok m) => (cas, secrets, Ok (mkReencryptResult n m))
    end
  end.

(** ** The loop over any keyed store *)

Section loop_proof.
Context {aead : Aead} {laws : AeadLaws} {K A : Type} `{Countable K}.
Context (k : KeyRing) (nonces : nat → res bytes) (limit before : Z) (what : string).
Context (key : A → K) (dek : A → bytes) (with_dek : A → bytes → A) (update : gmap K A → A → bytes → res (gmap K A)).
Context (I : gmap K A → Prop).
Hypothesis Hring : ring_wf k.
Hypothesis Hnonce : ∀ i, ∃ n, nonces i = Ok n ∧ length n = nonce_size.
Hypothesis Hdek : ∀ a d, dek (with_dek a d) = d.
Hypothesis Hupd : ∀ st a d, I st → st !! key a = Some a → d ≠ [] →
  update st a d = Ok (<[key a := with_dek a d]> st) ∧ I (<[key a := with_dek a d]> st).

(** An entity after the job: the same but for its wrapped key, which opens to
    the same data key. *)
Definition rewrapped (a b : A) : Prop :=
  b = a ∨ (b = with_dek a (dek b) ∧ KeyRing_DecryptDEK k (dek b) = KeyRing_DecryptDEK k (dek a) ∧
           KeyRing_DEKNeedsReencrypt k (dek b) = false).

Definition opens (a : A) : Prop := ∃ d, KeyRing_DecryptDEK k (dek a) = Ok d ∧ len d = dekSize.

Lemma needs_not_legacy enc : KeyRing_DEKNeedsReencrypt k enc = true → kr_legacy k = false.
Proof.
  unfold KeyRing_DEKNeedsReencrypt. destruct (kr_legacy k) eqn:El; [|done].
  by rewrite (bool_decide_eq_true_2 _ (proj1 (rw_legacy k Hring El))).
Qed.

Lemma reencrypt_loop_spec items : ∀ st count,
  I st → NoDup (key <$> items) → (∀ a, a ∈ items → st !! key a = Some a ∧ opens a) →
  ∃ st' n, reencrypt_loop k nonces limit before what dek update st count items = (st', Ok n) ∧ I st' ∧ count ≤ n ∧
    (∀ i, i ∉ key <$> items → st' !! i = st !! i) ∧
    (∀ a, a ∈ items → ∃ b, st' !! key a = Some b ∧ rewrapped a b ∧
       (before + n < limit → KeyRing_DEKNeedsReencrypt k (dek b) = false)).
Proof.
  induction items as [|it items IH]; intros st count HI Hnd Hit; cbn [reencrypt_loop].
  { exists st, count. split_and!; [done|done|lia|done|]. intros a Ha. by apply not_elem_of_nil in Ha. }
  destruct (Hit it ltac:(left)) as (Hst & d & Hd & Hdl). apply NoDup_cons in Hnd as [Hnin Hnd].
  destruct (Z.leb_spec limit (before + count)) as [Hlim|Hlim].
  { exists st, count. split_and!; [done|done|lia|done|]. intros a Ha. exists a. split; [by apply Hit|]. split; [by left|lia]. }
  destruct (KeyRing_DEKNeedsReencrypt k (dek it)) eqn:En; cbn [negb].
  - destruct (Hnonce (Z.to_nat (before + count))) as (n & -> & Hn).
    destruct (ReencryptDEK_spec k n d (dek it) Hring Hn Hd Hdl (needs_not_legacy _ En)) as (enc & -> & Hne & Hdec & Hneed).
    destruct (Hupd st it enc HI Hst Hne) as [-> HI'].
    destruct (IH (<[key it := with_dek it enc]> st) (count + 1) HI' Hnd) as (st' & m & Hl & HI2 & Hm & Hout & Hin).
    { intros a Ha. rewrite lookup_insert_ne; [apply Hit; by right|]. intros E. apply Hnin. rewrite E. by apply list_elem_of_fmap_2. }
    exists st', m. split; [done|]. split; [done|]. split; [lia|]. split.
    + intros i Hi. rewrite fmap_cons, not_elem_of_cons in Hi. rewrite Hout, lookup_insert_ne; naive_solver.
    + intros a [->|Ha]%elem_of_cons; [|by apply Hin]. exists (with_dek it enc). rewrite Hout, lookup_insert_eq by done.
      split; [done|]. rewrite Hdek. split; [|done]. right. rewrite Hdek. split; [done|]. split; [congruence|done].
  - destruct (IH st count HI Hnd) as (st' & m & Hl & HI2 & Hm & Hout & Hin); [intros a Ha; apply Hit; by right|].
    exists st', m. split; [done|]. split; [done|]. split; [lia|]. split.
    + intros i Hi. rewrite fmap_cons, not_elem_of_cons in Hi. apply Hout. naive_solver.
    + intros a [->|Ha]%elem_of_cons; [|by apply Hin]. exists it. rewrite Hout by done. split; [done|]. split; [by left|done].
Qed.
End loop_proof.

(** ** The job *)

Section job.
Context {aead : Aead} {laws : AeadLaws}.

Lemma save_ca_spec r c d : ca_wf r → r !! ca_ID c = Some c → d ≠ [] →
  save_ca r c d = Ok (<[ca_ID c := ca_with_dek c d]> r) ∧ ca_wf (<[ca_ID c := ca_with_dek c d]> r).
Proof.
  intros Hwf Hc Hd. assert (Hs : save_ca r c d = Ok (<[ca_ID c := ca_with_dek c d]> r)); [|split; [done|]].
  - unfold save_ca. apply CARepository_Save_ok. destruct (ca_wf_key r Hwf _ _ Hc) as [_ Hv]. split; [|split; [done|]].
    + unfold CA_Validate in *. simpl. inv_res. simplify_eq. repeat match goal with E : _ = false |- _ => rewrite E end. simpl.
      bool_props. rewrite !bool_decide_eq_false_2 by done. done.
    + intros id e He Hne Hn. apply Hne. simpl in *. destruct (ca_wf_key r Hwf _ _ He) as [<- _].
      by apply (ca_wf_name r Hwf _ _ _ _ He Hc).
  - by apply CARepository_Save_wf in Hs.
Qed.

Lemma save_secret_spec r sv d : secrets_wf r → r !! (sv_Path sv, sv_Version sv) = Some sv → d ≠ [] →
  save_secret r sv d = Ok (<[(sv_Path sv, sv_Version sv) := sv_with_dek sv d]> r) ∧
  secrets_wf (<[(sv_Path sv, sv_Version sv) := sv_with_dek sv d]> r).
Proof.
  intros Hwf Hs Hd. destruct (Hwf _ _ Hs) as (_ & Hv & Hm). unfold SecretVersion_Validate in Hv. inv_res. split.
  - unfold save_secret, UpdateDEKEnc. rewrite Hs. bool_props.
    rewrite !bool_decide_eq_false_2 by done. destruct (Z.ltb_spec (sv_Version sv) 1); [lia|done].
  - apply (secrets_wf_insert r (sv_with_dek sv d)); [done| |done]. unfold SecretVersion_Validate. simpl.
    repeat match goal with E : _ = false |- _ => rewrite E; clear E end. simpl. bool_props. by rewrite !bool_decide_eq_false_2.
Qed.

(** A listing of a map by its values, when the key of a value is its own. *)
Lemma own_keys_NoDup {K A} `{Countable K} (key : A → K) (m : gmap K A) l :
  (∀ i a, m !! i = Some a → key a = i) → l ≡ₚ (map_to_list m).*2 → NoDup (key <$> l).
Proof.
  intros Hk Hl. rewrite Hl, <-list_fmap_compose.
  rewrite (list_fmap_ext _ fst); [apply NoDup_fst_map_to_list|].
  intros i [j a] Hi. simpl. apply Hk, elem_of_map_to_list. by eapply list_elem_of_lookup_2.
Qed.

Lemma own_keys_lookup {K A} `{Countable K} (key : A → K) (m : gmap K A) l a :
  (∀ i a, m !! i = Some a → key a = i) → l ≡ₚ (map_to_list m).*2 → a ∈ l → m !! key a = Some a.
Proof.
  intros Hk Hl Ha. rewrite Hl in Ha. apply list_elem_of_fmap in Ha as ([i a'] & -> & Hin%elem_of_map_to_list). simpl.
  by rewrite (Hk _ _ Hin).
Qed.

Lemma own_keys_elem {K A} `{Countable K} (key : A → K) (m : gmap K A) l i a :
  (∀ i a, m !! i = Some a → key a = i) → l ≡ₚ (map_to_list m).*2 → m !! i = Some a → a ∈ l ∧ key a = i.
Proof.
  intros Hk Hl Hi. split; [|by apply Hk]. rewrite Hl. apply list_elem_of_fmap. exists (i, a). split; [done|].
  by apply elem_of_map_to_list.
Qed.

(** One loop, on the whole of a store whose values know their keys. *)
Lemma reencrypt_store {K A} `{Countable K} k nonces limit before what (key : A → K) dek with_dek update (I : gmap K A → Prop) m l :
  ring_wf k → (∀ i, ∃ n, nonces i = Ok n ∧ length n = nonce_size) → (∀ a d, dek (with_dek a d) = d) →
  (∀ st a d, I st → st !! key a = Some a → d ≠ [] →
     update st a d = Ok (<[key a := with_dek a d]> st) ∧ I (<[key a := with_dek a d]> st)) →
  I m → (∀ i a, m !! i = Some a → key a = i) → l ≡ₚ (map_to_list m).*2 → map_Forall (λ _, opens k dek) m →
  ∃ m' n, reencrypt_loop k nonces limit before what dek update m 0 l = (m', Ok n) ∧ I m' ∧ 0 ≤ n ∧
    (∀ i, option_Forall2 (rewrapped k dek with_dek) (m !! i) (m' !! i)) ∧
    (before + n < limit → map_Forall (λ _ a, KeyRing_DEKNeedsReencrypt k (dek a) = false) m').
Proof.
  intros Hk Hn Hd Hu HI Hkey Hl Ho.
  destruct (reencrypt_loop_spec k nonces limit before what key dek with_dek update I Hk Hn Hd Hu l m 0 HI)
    as (m' & n & Hloop & HI' & Hpos & Hout & Hin).
  { by eapply own_keys_NoDup. }
  { intros a Ha. assert (Ha' := own_keys_lookup key m l a Hkey Hl Ha). split; [done|]. by eapply Ho. }
  assert (Hnone : ∀ i, m !! i = None → m' !! i = None).
  { intros i Hi. rewrite Hout; [done|]. intros (a & -> & Ha)%list_elem_of_fmap.
    rewrite (own_keys_lookup key m l a Hkey Hl Ha) in Hi. done. }
  exists m', n. split; [done|]. split; [done|]. split; [done|]. split.
  - intros i. destruct (m !! i) as [a|] eqn:Hi; [|rewrite (Hnone i Hi); constructor].
    destruct (own_keys_elem key m l i a Hkey Hl Hi) as [Ha <-]. destruct (Hin a Ha) as (b & -> & Hr & _). by constructor.
  - intros Hlt i b Hb. destruct (m !! i) as [a|] eqn:Hi; [|by rewrite (Hnone i Hi) in Hb].
    destruct (own_keys_elem key m l i a Hkey Hl Hi) as [Ha <-]. destruct (Hin a Ha) as (b' & Hb' & _ & Hneed).
    simplify_eq. by apply Hneed.
Qed.

(** The re-encryption job loses nothing: when every stored data key opens
    under the ring, the job succeeds, every certificate authority and secret
    version is as before except for a wrapped key that opens to the same data
    key, and when it stopped before its limit nothing is left under an older
    master key. *)
Theorem ReencryptDEKs_correct k nonces cas secrets limit :
  ring_wf k → (∀ i, ∃ n, nonces i = Ok n ∧ length n = nonce_size) → ca_wf cas → secrets_wf secrets →
  map_Forall (λ _, opens k ca_DEKEnc) cas → map_Forall (λ _, opens k sv_DEKEnc) secrets →
  ∃ cas' secrets' r, ReencryptDEKs k nonces cas secrets limit = (cas', secrets', Ok r) ∧ ca_wf cas' ∧ secrets_wf secrets' ∧
    (∀ id, option_Forall2 (rewrapped k ca_DEKEnc ca_with_dek) (cas !! id) (cas' !! id)) ∧
    (∀ pv, option_Forall2 (rewrapped k sv_DEKEnc sv_with_dek) (secrets !! pv) (secrets' !! pv)) ∧
    (rr_CAs r + rr_Secrets r < (if limit <=? 0 then 100 else limit) →
       map_Forall (λ _ c, KeyRing_DEKNeedsReencrypt k (ca_DEKEnc c) = false) cas' ∧
       map_Forall (λ _ sv, KeyRing_DEKNeedsReencrypt k (sv_DEKEnc sv) = false) secrets').
Proof.
  intros Hk Hn Hca Hs Hoc Hos. unfold ReencryptDEKs. set (lim := if limit <=? 0 then 100 else limit).
  destruct (reencrypt_store k nonces lim 0 "reencrypt ca dek" ca_ID ca_DEKEnc ca_with_dek save_ca ca_wf cas (CARepository_List cas))
    as (cas' & n & -> & Hca' & Hn0 & Hcr & Hcd); [done|done|done|apply save_ca_spec|done|intros i c Hi; by apply (ca_wf_key cas Hca)|apply sort_by_Z_perm|done|].
  destruct (reencrypt_store k nonces lim n "reencrypt secret dek" (λ sv, (sv_Path sv, sv_Version sv)) sv_DEKEnc sv_with_dek save_secret
              secrets_wf secrets (ListByPath secrets ""))
    as (secrets' & m & -> & Hs' & Hm0 & Hsr & Hsd); [done|done|done|apply save_secret_spec|done|intros i c Hi; by destruct (Hs _ _ Hi)| |done|].
  { unfold ListByPath. rewrite merge_sort_Permutation.
    assert (Hf : ∀ l : list SecretVersion, filter (λ sv, HasPrefix (sv_Path sv) "" = true) l = l); [|by rewrite Hf].
    intros l. induction l as [|sv l IH]; [done|]. by rewrite filter_cons_True, IH. }
  exists cas', secrets', (mkReencryptResult n m). split; [done|]. split_and!; try done. simpl. intros Hlt. split; [apply Hcd; lia|by apply Hsd].
Qed.
End job.

(** ** Example: a secret written before a rotation *)

#[local] Existing Instance toy_aead.
#[local] Existing Instance toy_laws.

Definition demo_rotated : KeyRing :=
  match RotateMasterKey (demo_ring "a") (demo_key "b") with Ok (k, _) => k | Err _ => demo_ring "a" end.

Lemma ReencryptDEKs_correct_witness : ∃ cas' secrets' r,
  ReencryptDEKs demo_rotated (λ _, Ok demo_nonce) ∅ (demo_store "x") 0 = (cas', secrets', Ok r) ∧ secrets_wf secrets' ∧
  (rr_CAs r + rr_Secrets r < 100 → map_Forall (λ _ sv, KeyRing_DEKNeedsReencrypt demo_rotated (sv_DEKEnc sv) = false) secrets').
Proof.
  assert (Hr : RotateMasterKey (demo_ring "a") (demo_key "b") = Ok (demo_rotated, ascii_of_nat 2)) by (vm_compute; reflexivity).
  destruct (ReencryptDEKs_correct demo_rotated (λ _, Ok demo_nonce) ∅ (demo_store "x") 0) as (cas' & secrets' & r & H & _ & Hw & _ & _ & Hd).
  - eapply ring_step_wf; [exact (NewKeyRing_wf (demo_key "a") (demo_ring "a") eq_refl)|eapply ring_rotate, Hr].
  - intros _. exists demo_nonce. split; reflexivity.
  - split; intros *; rewrite lookup_empty; discriminate.
  - apply (demo_put_wf ∅ "x" (demo_store "x") 1); [exact secrets_wf_empty|apply demo_put_version; vm_compute; reflexivity].
  - apply map_Forall_empty.
  - intros i sv Hi.
    assert (Hall : forallb (λ sv, match KeyRing_DecryptDEK demo_rotated (sv_DEKEnc sv) with Ok d => len d =? dekSize | Err _ => false end)
                     (map_to_list (demo_store "x")).*2 = true) by (vm_compute; reflexivity).
    rewrite forallb_elem in Hall. specialize (Hall sv). cbv beta in Hall. unfold opens.
    destruct (KeyRing_DecryptDEK demo_rotated (sv_DEKEnc sv)) as [d|e].
    + exists d. split; [reflexivity|]. apply Z.eqb_eq, Hall. apply list_elem_of_fmap. exists (i, sv).
      split; [reflexivity|]. by apply elem_of_map_to_list.
    + discriminate Hall. apply list_elem_of_fmap. exists (i, sv). split; [reflexivity|]. by apply elem_of_map_to_list.
  - exists cas', secrets', r. split; [exact H|]. split; [exact Hw|]. intros Hlt. by apply Hd.
Defined.
