(* ===== verification/Transit.v ===== *)
(** Encryption as a service: the engine internal/engine/transit/engine.go and its
    audited service internal/service/transit.go.

    [Transit] is the engine: the records it keeps in memory, which the handlers
    share and mutate in place, and the repository behind them, if any. The JSON
    of a record, base64 and HMAC are the class [TransitCodec]. *)

From S2P Require Import Prelude.
From S2P Require Import Effects.
From S2P Require Import GoLib.
From S2P Require Import Domain.
From S2P Require Import AuditHelper.
From S2P Require Import SecretRepo.
From S2P Require Import Crypto.
From S2P Require Import KVEngine.
From S2P Require Import Cubbyhole.
From S2P Require Import MasterKey.

#[local] Open Scope Z_scope.

Definition transit_engine : string := "transit".
Definition keysPrefix : string := "transit/keys/".
Definition cipherPrefix : string := "v".

Record KeyMeta := mkKeyMeta {
  km_Name : string;
  km_Type : string;
  km_LatestVersion : Z;
  km_MinDecryptVer : Z;
  km_CreatedAt : Time;
  km_SupportsEncrypt : bool;
  km_SupportsSign : bool;
}.

Record keyRecord := mkKeyRecord {
  rk_Name : string;
  rk_Type : string;
  rk_LatestVersion : Z;
  rk_MinDecryptVer : Z;
  rk_CreatedAt : Time;
  rk_Versions : gmap string bytes;
}.

Class TransitCodec := {
  key_marshal : keyRecord → res bytes;
  key_unmarshal : bytes → res keyRecord;
  RawStdEncode : bytes → string;
  RawStdDecode : string → res bytes;
  StdDecode : string → res bytes;
  hmac_sha256 : bytes → bytes → bytes;
}.

(** What is encoded decodes to what it was. *)
Class TransitCodecLaws `{TransitCodec} := {
  key_roundtrip : ∀ rec b, key_marshal rec = Ok b → key_unmarshal b = Ok rec;
  base64_roundtrip : ∀ b, RawStdDecode (RawStdEncode b) = Ok b;
}.

Record Transit := mkTransit {
  te_mem : gmap string keyRecord;
  te_repo : option SecretRepository;
}.

Definition TransitEngine_New (repo : option SecretRepository) : Transit := mkTransit ∅ repo.

(** Random bytes of a new key and of the nonce that wraps it. *)
Record KeyRandom := mkKeyRandom { kx_dek : res bytes; kx_wrap : res bytes }.

Abbreviation T := (prog Transit).

Definition metaOf (rec : keyRecord) : KeyMeta :=
  mkKeyMeta (rk_Name rec) (rk_Type rec) (rk_LatestVersion rec) (rk_MinDecryptVer rec) (rk_CreatedAt rec) true true.

Definition binding (name : string) (ver : Z) : string := "knxtransit|" +:+ name +:+ "|" +:+ Itoa ver +:+ "|".

Definition bindPlaintext (name : string) (ver : Z) (pt : bytes) : bytes := bytes_of (binding name ver) ++ pt.

Definition unbindPlaintext (name : string) (ver : Z) (raw : bytes) : res bytes :=
  if negb (HasPrefix (string_of raw) (binding name ver)) then Err (New ErrCodeForbidden "ciphertext not bound to this key")
  else Ok (drop (String.length (binding name ver)) raw).

Section engine.
Context `{Aead} `{TransitCodec} (k : KeyRing).

Definition remember (name : string) (rec : keyRecord) : T unit := modify (λ s, mkTransit (<[name := rec]> (te_mem s)) (te_repo s)).

(** The record of the newest version a repository holds under a path. *)
Definition stored_record (sv : SecretVersion) : res keyRecord :=
  plain ← Open k (sv_DataEnc sv) (sv_DEKEnc sv);
  key_unmarshal plain.

Definition transit_loadLocked (name : string) : T keyRecord := λ s,
  match te_repo s with
  | Some repo =>
      match GetLatest repo (keysPrefix +:+ name) with
      | Err e => match te_mem s !! name with
                 | Some rec => (s, Ok rec)
                 | None => (s, Err e)
                 end
      | Ok sv => (rec ← lift (stored_record sv); _ ← remember name rec; mret rec) s
      end
  | None => match te_mem s !! name with
            | Some rec => (s, Ok rec)
            | None => (s, Err (New ErrCodeNotFound "transit key not found"))
            end
  end.

Definition key_version (fr : Fresh) (rec : keyRecord) (ce : bytes * bytes) : SecretVersion :=
  mkSecretVersion (fr_ID fr) (keysPrefix +:+ rk_Name rec) 0 ce.1 ce.2 None None (fr_Now fr) None false {["engine" := transit_engine]}.

Definition put_record (sv : SecretVersion) : T unit := λ s,
  match te_repo s with
  | Some repo => match PutAtomic repo sv None 5 with
                 | Ok (repo, _) => (mkTransit (te_mem s) (Some repo), Ok tt)
                 | Err e => (s, Err e)
                 end
  | None => (s, Ok tt)
  end.

Definition transit_saveLocked (fr : Fresh) (rec : keyRecord) : T unit :=
  _ ← remember (rk_Name rec) rec;
  repo ← gets te_repo;
  match repo with
  | None => mret tt
  | Some _ =>
      raw ← lift (key_marshal rec);
      ce ← lift (Seal k (fr_Rnd fr) raw);
      put_record (key_version fr rec ce)
  end.

(** A new key under the active master key. *)
Definition new_dek (rnd : KeyRandom) : res bytes :=
  dek ← GenerateDEK (kx_dek rnd);
  KeyRing_EncryptDEK k (kx_wrap rnd) dek.

(** [CreateKey] up to the save. *)
Definition create_record (rnd : KeyRandom) (now : Time) (name : string) : T keyRecord :=
  let name := TrimSpace name in
  _ ← guard_not ((name =s "") || Contains name "..") (New ErrCodeValidation "invalid key name");
  x ← attempt (transit_loadLocked name);
  _ ← guard_not (is_ok x) (New ErrCodeValidation "key already exists");
  dekEnc ← lift (new_dek rnd);
  mret (mkKeyRecord name "aes256-gcm96" 1 1 now {["1" := dekEnc]}).

Definition CreateKey (rnd : KeyRandom) (now : Time) (fr : Fresh) (name : string) : T KeyMeta :=
  rec ← create_record rnd now name;
  _ ← transit_saveLocked fr rec;
  mret (metaOf rec).

(** The record with another version. *)
Definition next_record (rec : keyRecord) (dekEnc : bytes) : keyRecord :=
  let latest := wrap64 (rk_LatestVersion rec + 1) in
  mkKeyRecord (rk_Name rec) (rk_Type rec) latest (rk_MinDecryptVer rec) (rk_CreatedAt rec) (<[Itoa latest := dekEnc]> (rk_Versions rec)).

(** [RotateKey] up to the save: the record in memory is changed in place. *)
Definition rotate_record (rnd : KeyRandom) (name : string) : T keyRecord :=
  rec ← transit_loadLocked name;
  dekEnc ← lift (new_dek rnd);
  _ ← remember name (next_record rec dekEnc);
  mret (next_record rec dekEnc).

Definition RotateKey (rnd : KeyRandom) (fr : Fresh) (name : string) : T KeyMeta :=
  rec ← rotate_record rnd name;
  _ ← transit_saveLocked fr rec;
  mret (metaOf rec).

Definition getRecord (name : string) : T keyRecord := λ s,
  match te_mem s !! name with
  | Some rec => (s, Ok rec)
  | None => transit_loadLocked name s
  end.

Definition ReadKey (name : string) : T KeyMeta :=
  rec ← getRecord name;
  mret (metaOf rec).

Definition dekFor (rec : keyRecord) (ver : Z) : res bytes :=
  match rk_Versions rec !! Itoa ver with
  | None => Err (New ErrCodeNotFound "key version not found")
  | Some enc => DecryptDEK k enc
  end.

Definition version_for (rec : keyRecord) (keyVersion : Z) : Z := if 0 <? keyVersion then keyVersion else rk_LatestVersion rec.

Definition Transit_Encrypt (nonce : res bytes) (name : string) (plaintext : bytes) (keyVersion : Z) : T string :=
  rec ← getRecord name;
  let ver := version_for rec keyVersion in
  dek ← lift (dekFor rec ver);
  ct ← lift (EncryptWithDEK dek nonce (bindPlaintext name ver plaintext));
  mret (cipherPrefix +:+ Itoa ver +:+ ":" +:+ RawStdEncode ct).

Definition parseCipher (s : string) : res (Z * bytes) :=
  if negb (HasPrefix s cipherPrefix) then Err (Plain "missing version prefix")
  else
    let rest := str_drop (String.length cipherPrefix) s in
    match IndexByte rest ":" with
    | None | Some O => Err (Plain "invalid format")
    | Some i =>
        match Atoi (str_take i rest) with
        | None => Err (Plain "strconv.Atoi")
        | Some ver =>
            match RawStdDecode (str_drop (S i) rest) with
            | Ok raw => Ok (ver, raw)
            | Err _ => match StdDecode (str_drop (S i) rest) with
                       | Ok raw => Ok (ver, raw)
                       | Err e => Err e
                       end
            end
        end
    end.

Definition Transit_Decrypt (name ciphertext : string) : T bytes :=
  rec ← getRecord name;
  x ← lift (match parseCipher ciphertext with Ok x => Ok x | Err e => Err (Wrap ErrCodeValidation "ciphertext" e) end);
  let '(ver, raw) := x in
  _ ← guard_not (ver <? rk_MinDecryptVer rec) (New ErrCodeForbidden "key version below minimum");
  dek ← lift (dekFor rec ver);
  opened ← lift (DecryptWithDEK dek raw);
  lift (unbindPlaintext name ver opened).

Definition Rewrap (nonce : res bytes) (name ciphertext : string) : T string :=
  pt ← Transit_Decrypt name ciphertext;
  Transit_Encrypt nonce name pt 0.

Definition HMAC (name : string) (input : bytes) (keyVersion : Z) : T string :=
  rec ← getRecord name;
  let ver := version_for rec keyVersion in
  dek ← lift (dekFor rec ver);
  mret ("hmac:v" +:+ Itoa ver +:+ ":" +:+ RawStdEncode (hmac_sha256 dek (bytes_of name ++ [ascii_of_nat 0] ++ input))).

Definition Sign (name : string) (input : bytes) (keyVersion : Z) : T string := HMAC name input keyVersion.

(** The version a signature names; an unreadable one is 0, the latest. *)
Definition signature_version (signature : string) : Z :=
  if HasPrefix signature "hmac:v" then
    let rest := TrimPrefix signature "hmac:v" in
    match IndexByte rest ":" with
    | None | Some O => 0
    | Some i => default 0 (Atoi (str_take i rest))
    end
  else 0.

Definition Transit_Verify (name : string) (input : bytes) (signature : string) : T bool :=
  got ← HMAC name input (signature_version signature);
  mret (got =s signature).
End engine.

(** ** internal/service/transit.go *)

Record TransitService := mkTransitService { tv_engine : Transit; tv_audit : AuditSink }.

Section service.
Context `{Aead} `{TransitCodec} (k : KeyRing).

Definition transit_call {A} (m : T A) : prog TransitService A :=
  zoom tv_engine (λ s t, mkTransitService t (tv_audit s)) m.

(** A call of the engine and the event that records its outcome. *)
Definition transit_recorded {A} (subject : option string) (action resource : string) (m : T A) : prog TransitService A := λ s,
  let '(s, x) := transit_call m s in
  (mkTransitService (tv_engine s) (audithelper_Record (tv_audit s) subject action resource x []), x).

Definition TransitService_CreateKey (subject : option string) (rnd : KeyRandom) (now : Time) (fr : Fresh) (name : string) :=
  transit_recorded subject "transit.key.create" ("transit/keys/" +:+ name) (CreateKey k rnd now fr name).
Definition TransitService_ReadKey (name : string) := transit_call (ReadKey k name).
Definition TransitService_RotateKey (subject : option string) (rnd : KeyRandom) (fr : Fresh) (name : string) :=
  transit_recorded subject "transit.key.rotate" ("transit/keys/" +:+ name) (RotateKey k rnd fr name).
Definition TransitService_Encrypt (subject : option string) (nonce : res bytes) (name plaintext : string) (keyVersion : Z) :=
  transit_recorded subject "transit.encrypt" ("transit/encrypt/" +:+ name) (Transit_Encrypt k nonce name (bytes_of plaintext) keyVersion).
Definition TransitService_Decrypt (subject : option string) (name ciphertext : string) : prog TransitService string :=
  pt ← transit_recorded subject "transit.decrypt" ("transit/decrypt/" +:+ name) (Transit_Decrypt k name ciphertext);
  mret (string_of pt).
Definition TransitService_Rewrap (nonce : res bytes) (name ciphertext : string) := transit_call (Rewrap k nonce name ciphertext).
Definition TransitService_Sign (name input : string) (keyVersion : Z) := transit_call (Sign k name (bytes_of input) keyVersion).
Definition TransitService_Verify (name input signature : string) := transit_call (Transit_Verify k name (bytes_of input) signature).
Definition TransitService_HMAC (name input : string) (keyVersion : Z) := transit_call (HMAC k name (bytes_of input) keyVersion).
End service.

(** ** Ciphertexts *)

Lemma parse_digits_free c a s n : is_digit c = false → parse_digits a s = Some n → str_mem c s = false.
Proof.
  intros Hc. revert a. induction s as [|d s IH]; intros a; [done|]. cbn [parse_digits str_mem]. destruct (is_digit d) eqn:Ed; [|done].
  intros Hp. rewrite (IH _ Hp), orb_false_r. apply bool_decide_eq_false. congruence.
Qed.

Lemma Itoa_text n : 0 ≤ n < 2 ^ 63 → Itoa n ≠ "" ∧ str_mem ":" (Itoa n) = false.
Proof.
  intros Hn. unfold Itoa. destruct (Z.ltb_spec n 0); [lia|]. destruct (parse_Itoa n ltac:(lia)) as (d & s & _ & -> & Hp).
  split; [done|]. by apply (parse_digits_free _ 0 _ n).
Qed.

Lemma Itoa_inj n m : - 2 ^ 63 ≤ n < 2 ^ 63 → - 2 ^ 63 ≤ m < 2 ^ 63 → Itoa n = Itoa m → n = m.
Proof. intros Hn Hm E. assert (Some n = Some m) as [= ->]; [|done]. by rewrite <-(Atoi_Itoa n Hn), <-(Atoi_Itoa m Hm), E. Qed.

Lemma IndexByte_first c a b : str_mem c a = false → IndexByte (a +:+ String c b) c = Some (String.length a).
Proof.
  induction a as [|d a IH]; cbn [String.append str_mem IndexByte]; [by rewrite bool_decide_eq_true_2|].
  intros [Hd Ha]%orb_false_iff. apply bool_decide_eq_false in Hd. rewrite bool_decide_eq_false_2 by congruence. by rewrite IH.
Qed.

Lemma str_drop_sep a c b : str_drop (S (String.length a)) (a +:+ String c b) = b.
Proof. by induction a. Qed.

Lemma unbind_bind name ver pt : unbindPlaintext name ver (bindPlaintext name ver pt) = Ok pt.
Proof.
  unfold unbindPlaintext, bindPlaintext. generalize (binding name ver). intros h.
  assert (E : string_of (bytes_of h ++ pt) = h +:+ string_of pt).
  { induction h as [|c h IH]; [done|]. unfold bytes_of, string_of in *. simpl. by rewrite IH. }
  rewrite E. replace (HasPrefix _ _) with true by (symmetry; apply HasPrefix_spec; by eexists). cbn [negb]. f_equal.
  replace (String.length h) with (length (bytes_of h)); [apply drop_app_length|].
  clear E. unfold bytes_of. induction h as [|c h IH]; [done|]. simpl. by rewrite IH.
Qed.

Section ciphertexts.
Context `{Aead} `{!AeadLaws} `{TransitCodec} `{!TransitCodecLaws} (k : KeyRing).
Implicit Types (s : Transit) (rec : keyRecord).

Lemma parse_format ver ct : 0 ≤ ver < 2 ^ 63 → parseCipher (cipherPrefix +:+ Itoa ver +:+ ":" +:+ RawStdEncode ct) = Ok (ver, ct).
Proof.
  intros Hv. destruct (Itoa_text ver Hv) as [Hne Hfree]. unfold parseCipher.
  replace (HasPrefix (cipherPrefix +:+ Itoa ver +:+ ":" +:+ RawStdEncode ct) cipherPrefix) with true
    by (symmetry; apply HasPrefix_spec; by exists (Itoa ver +:+ ":" +:+ RawStdEncode ct)).
  unfold cipherPrefix. cbn [negb]. change ("v" +:+ Itoa ver +:+ ":" +:+ RawStdEncode ct) with (String "v" (Itoa ver +:+ String ":" (RawStdEncode ct))).
  change (str_drop (String.length "v") (String "v" (Itoa ver +:+ String ":" (RawStdEncode ct)))) with (Itoa ver +:+ String ":" (RawStdEncode ct)).
  cbv zeta. rewrite IndexByte_first by done.
  destruct (String.length (Itoa ver)) as [|i] eqn:El; [by destruct (Itoa ver)|]. rewrite <-El, str_take_app, Atoi_Itoa by lia.
  rewrite str_drop_sep. by rewrite base64_roundtrip.
Qed.

Lemma seal_open_dek dek n pt ct : length n = nonce_size → EncryptWithDEK dek (Ok n) pt = Ok ct → DecryptWithDEK dek ct = Ok pt.
Proof.
  intros Hn. unfold EncryptWithDEK, DecryptWithDEK, NewEnvelope. destruct (negb _); [done|]. cbn. intros [= <-]. by apply Envelope_roundtrip.
Qed.

(** ** What the engine holds *)

Definition disk (r : SecretRepository) (name : string) : option keyRecord :=
  match GetLatest r (keysPrefix +:+ name) with
  | Ok sv => match stored_record k sv with Ok rec => Some rec | Err _ => None end
  | Err _ => None
  end.

(** The record a handler works on. *)
Definition view s (name : string) : option keyRecord :=
  match te_repo s with
  | Some r => disk r name
  | None => te_mem s !! name
  end.

Record record_ok (name : string) rec : Prop := {
  ro_name : rk_Name rec = name;
  ro_min : rk_MinDecryptVer rec = 1;
  ro_latest : 1 ≤ rk_LatestVersion rec < 2 ^ 63;
  ro_versions : ∀ v, is_Some (rk_Versions rec !! v) → ∃ n, v = Itoa n ∧ 1 ≤ n ≤ rk_LatestVersion rec;
}.

(** The memory agrees with the repository, and records are in order. *)
Record transit_wf s : Prop := {
  tw_mem : ∀ name rec, te_mem s !! name = Some rec → view s name = Some rec;
  tw_records : ∀ name rec, view s name = Some rec → record_ok name rec;
  tw_repo : ∀ r, te_repo s = Some r → secrets_wf r;
}.

Lemma load_view name s : transit_wf s → ∃ s' x, transit_loadLocked k name s = (s', x) ∧ transit_wf s' ∧ te_repo s' = te_repo s ∧
  (∀ n, view s' n = view s n) ∧ match x with Ok rec => view s name = Some rec | Err _ => view s name = None end.
Proof.
  intros Hw. assert (Hv : view s name = match te_repo s with Some r => disk r name | None => te_mem s !! name end) by done.
  unfold transit_loadLocked. destruct (te_repo s) as [r|] eqn:Er.
  - unfold disk in Hv. destruct (GetLatest r (keysPrefix +:+ name)) as [sv|e] eqn:Eg.
    + unfold mbind, prog_bind, lift. destruct (stored_record k sv) as [rec|e] eqn:Es; [|by exists s, (Err e)].
      eexists _, (Ok rec). split; [reflexivity|]. assert (Hsame : ∀ n, view (mkTransit (<[name:=rec]> (te_mem s)) (te_repo s)) n = view s n).
      { intros n. unfold view. cbn [te_repo]. by rewrite Er. }
      split_and!; [|done|done|done]. split.
      * intros n rec'. rewrite Hsame. cbn. destruct (decide (n = name)) as [->|Hne].
        { rewrite lookup_insert_eq. by intros [= <-]. } { rewrite lookup_insert_ne by done. by apply (tw_mem s Hw). }
      * intros n rec'. rewrite Hsame. by apply (tw_records s Hw).
      * apply (tw_repo s Hw).
    + destruct (te_mem s !! name) as [rec|] eqn:Em; [|by exists s, (Err e)].
      apply (tw_mem s Hw) in Em. by rewrite Em in Hv.
  - destruct (te_mem s !! name) as [rec|] eqn:Em; [by exists s, (Ok rec)|]. by eexists s, _.
Qed.

Lemma getRecord_view name s : transit_wf s → ∃ s' x, getRecord k name s = (s', x) ∧ transit_wf s' ∧ te_repo s' = te_repo s ∧
  (∀ n, view s' n = view s n) ∧ match x with Ok rec => view s name = Some rec | Err _ => view s name = None end.
Proof.
  intros Hw. unfold getRecord. destruct (te_mem s !! name) as [rec|] eqn:Em; [|by apply load_view].
  exists s, (Ok rec). split_and!; [done..|]. by apply (tw_mem s Hw).
Qed.

Lemma keysPrefix_inj n m : keysPrefix +:+ n = keysPrefix +:+ m → n = m.
Proof. unfold keysPrefix. cbn [String.append]. congruence. Qed.

(** A successful save makes the record what everybody sees, and nothing else. *)
Lemma saveRecord_view fr rec name s0 s s' u : transit_wf s0 → record_ok name rec → seals k (fr_Rnd fr) →
  te_repo s = te_repo s0 → (∀ n, n ≠ name → te_mem s !! n = te_mem s0 !! n) →
  transit_saveLocked k fr rec s = (s', Ok u) →
  transit_wf s' ∧ view s' name = Some rec ∧ ∀ n, n ≠ name → view s' n = view s0 n.
Proof.
  intros Hw Hrec Hse Hrepo Hmem Hs. assert (name = rk_Name rec) as -> by (symmetry; apply Hrec). unfold transit_saveLocked, remember in Hs. inv_run. cbn [te_repo] in Hs.
  assert (Hfin : ∀ t, te_mem t = <[rk_Name rec := rec]> (te_mem s) → (te_repo t = None ↔ te_repo s0 = None) → (∀ r, te_repo t = Some r → secrets_wf r) →
    view t (rk_Name rec) = Some rec → (∀ n, n ≠ rk_Name rec → view t n = view s0 n) → transit_wf t ∧ view t (rk_Name rec) = Some rec ∧ ∀ n, n ≠ rk_Name rec → view t n = view s0 n).
  { intros t Em _ Hwr Hv Ho. split_and!; [|done|done]. split; [| |done].
    - intros n rec'. rewrite Em. destruct (decide (n = rk_Name rec)) as [->|Hne]; [rewrite lookup_insert_eq, Hv; congruence|].
      rewrite lookup_insert_ne, Hmem, Ho by done. apply (tw_mem s0 Hw).
    - intros n rec' Hn. destruct (decide (n = rk_Name rec)) as [->|Hne]; [rewrite Hv in Hn; injection Hn as <-; done|]. rewrite Ho in Hn by done.
      by apply (tw_records s0 Hw). }
  destruct (te_repo s) as [r|] eqn:Er.
  - inv_run. match goal with Hx : Seal _ _ _ = Ok ?ce |- _ => destruct ce as [c enc]; rename Hx into Hsl end.
    match goal with Hx : key_marshal _ = Ok ?b |- _ => rename b into raw; rename Hx into Hj end.
    unfold put_record in Hs. cbn [te_repo te_mem] in Hs. rewrite ?Er in Hs.
    destruct (PutAtomic r _ None 5) as [[r' v]|e] eqn:Ep; [|done]. injection Hs as <-.
    assert (Hwr : secrets_wf r) by (apply (tw_repo s0 Hw); by rewrite <-Hrepo).
    apply PutAtomic_read in Ep as (Hwr' & _ & Hlat & _ & Hother & _); [|done|done]. cbn [sv_Path key_version] in Hlat, Hother.
    apply Hfin; [done|rewrite <-Hrepo; done|by intros r0 [= <-]| |].
    + unfold view, disk. cbn [te_repo]. rewrite Hlat. unfold stored_record. cbn. rewrite (Hse _ _ _ Hsl). cbn. by rewrite (key_roundtrip _ _ Hj).
    + intros n Hne. unfold view. cbn [te_repo]. rewrite <-Hrepo. unfold disk. rewrite (GetLatest_same r r'); [done|done|done|].
      intros w. apply Hother. intros E. by apply Hne, keysPrefix_inj.
  - inv_run. apply Hfin; [done|cbn; by rewrite <-Hrepo|cbn; congruence| |].
    + unfold view. cbn. rewrite ?Er. apply lookup_insert_eq.
    + intros n Hne. unfold view. cbn [te_repo te_mem]. rewrite <-Hrepo, ?Er. rewrite lookup_insert_ne, Hmem by done. done.
Qed.

(** ** Requests *)

Inductive transit_op :=
  | TCreate (rnd : KeyRandom) (now : Time) (fr : Fresh) (name : string)
  | TRotate (rnd : KeyRandom) (fr : Fresh) (name : string)
  | TRead (name : string)
  | TEncrypt (nonce : res bytes) (name : string) (pt : bytes) (ver : Z)
  | TDecrypt (name ct : string)
  | TRewrap (nonce : res bytes) (name ct : string)
  | THmac (name : string) (input : bytes) (ver : Z)
  | TVerify (name : string) (input : bytes) (signature : string)
  | TRestart.

Definition transit_step (op : transit_op) s : Transit :=
  match op with
  | TCreate rnd now fr name => (CreateKey k rnd now fr name s).1
  | TRotate rnd fr name => (RotateKey k rnd fr name s).1
  | TRead name => (ReadKey k name s).1
  | TEncrypt nonce name pt ver => (Transit_Encrypt k nonce name pt ver s).1
  | TDecrypt name ct => (Transit_Decrypt k name ct s).1
  | TRewrap nonce name ct => (Rewrap k nonce name ct s).1
  | THmac name input ver => (HMAC k name input ver s).1
  | TVerify name input signature => (Transit_Verify k name input signature s).1
  | TRestart => mkTransit ∅ (te_repo s)
  end.
Definition transit_run (ops : list transit_op) s : Transit := foldl (λ s op, transit_step op s) s ops.

(** No save fails, what is saved can be opened, versions stay within an [int],
    and only an engine with a repository restarts. *)
Definition op_ok (op : transit_op) s : Prop :=
  match op with
  | TCreate rnd now fr name => seals k (fr_Rnd fr) ∧
      ∀ rec s1, create_record k rnd now name s = (s1, Ok rec) → is_Ok (transit_saveLocked k fr rec s1).2
  | TRotate rnd fr name => seals k (fr_Rnd fr) ∧
      ∀ rec s1, rotate_record k rnd name s = (s1, Ok rec) → is_Ok (transit_saveLocked k fr rec s1).2 ∧ 1 ≤ rk_LatestVersion rec
  | TRestart => te_repo s ≠ None
  | _ => True
  end.
Fixpoint run_ok (ops : list transit_op) s : Prop :=
  match ops with
  | [] => True
  | op :: ops => op_ok op s ∧ run_ok ops (transit_step op s)
  end.

(** Records only gain versions. *)
Definition grows : relation Transit := λ s s', transit_wf s → transit_wf s' ∧
  ∀ name rec, view s name = Some rec → ∃ rec', view s' name = Some rec' ∧ rk_Versions rec ⊆ rk_Versions rec'.
#[local] Instance grows_preorder : PreOrder grows.
Proof.
  split; [intros s Hs; split; [done|]; intros name rec Hv; by exists rec|].
  intros s1 s2 s3 H12 H23 Hw. destruct (H12 Hw) as [Hw2 G12]. destruct (H23 Hw2) as [Hw3 G23]. split; [done|]. intros name rec Hv.
  destruct (G12 name rec Hv) as (rec2 & Hv2 & Hs2). destruct (G23 name rec2 Hv2) as (rec3 & Hv3 & Hs3). exists rec3. split; [done|by etrans].
Qed.

Lemma grows_same s s' : (transit_wf s → transit_wf s' ∧ ∀ n, view s' n = view s n) → grows s s'.
Proof. intros Hs Hw. destruct (Hs Hw) as [Hw' Hv]. split; [done|]. intros name rec Hn. exists rec. by rewrite Hv. Qed.

Lemma grows_get name : always grows (getRecord k name).
Proof. intros s. apply grows_same. intros Hw. destruct (getRecord_view name s Hw) as (s' & x & -> & Hw' & _ & Hv & _). done. Qed.
Lemma grows_load name : always grows (transit_loadLocked k name).
Proof. intros s. apply grows_same. intros Hw. destruct (load_view name s Hw) as (s' & x & -> & Hw' & _ & Hv & _). done. Qed.
#[local] Hint Resolve grows_get grows_load : prog.

Lemma grows_encrypt nonce name pt ver : always grows (Transit_Encrypt k nonce name pt ver).
Proof. unfold Transit_Encrypt. eauto 9 with prog. Qed.
Lemma grows_decrypt name ct : always grows (Transit_Decrypt k name ct).
Proof.
  unfold Transit_Decrypt. apply always_bind; [apply _|auto with prog|intros rec]. apply always_bind; [apply _|auto with prog|intros [ver raw]].
  cbv zeta. eauto 12 with prog.
Qed.
Lemma grows_hmac name input ver : always grows (HMAC k name input ver).
Proof. unfold HMAC. eauto 9 with prog. Qed.
#[local] Hint Resolve grows_encrypt grows_decrypt grows_hmac : prog.

Lemma next_record_ok name rec d : record_ok name rec → 1 ≤ rk_LatestVersion (next_record rec d) →
  record_ok name (next_record rec d) ∧ rk_Versions rec ⊆ rk_Versions (next_record rec d).
Proof.
  intros [Hn Hm Hl Hv] Hpos. unfold next_record in *. cbn [rk_LatestVersion] in Hpos.
  assert (E : wrap64 (rk_LatestVersion rec + 1) = rk_LatestVersion rec + 1 ∧ rk_LatestVersion rec + 1 < 2 ^ 63).
  { unfold wrap64 in *. assert (rk_LatestVersion rec + 1 = 2 ^ 63 ∨ rk_LatestVersion rec + 1 < 2 ^ 63) as [E|E] by lia.
    - rewrite E in Hpos. by vm_compute in Hpos.
    - split; [|done]. rewrite Z.mod_small by lia. lia. }
  destruct E as [E Hlt]. rewrite E in *. split.
  - split; cbn; [done|done|lia|]. intros v. destruct (decide (v = Itoa (rk_LatestVersion rec + 1))) as [->|Hne].
    + intros _. exists (rk_LatestVersion rec + 1). split; [done|lia].
    + rewrite lookup_insert_ne by done. intros (n & -> & Hn')%Hv. exists n. split; [done|lia].
  - cbn. apply insert_subseteq. destruct (rk_Versions rec !! _) as [x|] eqn:Ex; [|done].
    destruct (Hv (Itoa (rk_LatestVersion rec + 1))) as (n & En & Hn'); [by eexists|]. apply Itoa_inj in En; lia.
Qed.

Lemma rotate_grows rnd fr name s : op_ok (TRotate rnd fr name) s → grows s (transit_step (TRotate rnd fr name) s).
Proof.
  intros [Hse Hok] Hw. cbn [transit_step]. unfold RotateKey, mbind, prog_bind.
  destruct (load_view name s Hw) as (s1 & x & El & Hw1 & Hr1 & Hv1 & Hx). unfold rotate_record, mbind, prog_bind in *. rewrite El in *.
  assert (Hsame : transit_wf s1 ∧ ∀ n rec, view s n = Some rec → ∃ rec', view s1 n = Some rec' ∧ rk_Versions rec ⊆ rk_Versions rec').
  { split; [done|]. intros n rec Hn. exists rec. by rewrite Hv1. }
  destruct x as [rec|e]; [|exact Hsame]. unfold lift in *. destruct (new_dek k rnd) as [d|e]; [|exact Hsame]. unfold remember, modify in *. cbn in *.
  destruct (Hok _ _ eq_refl) as [[u Hsave] Hpos]. assert (Hrec := tw_records s Hw _ _ Hx). destruct (next_record_ok name rec d Hrec Hpos) as [Hrec' Hsub].
  match type of Hsave with (transit_saveLocked k fr ?r ?t).2 = _ => destruct (transit_saveLocked k fr r t) as [s2 y] eqn:Es; cbn in Hsave; subst y end.
  destruct (saveRecord_view fr _ name s1 (mkTransit (<[name := next_record rec d]> (te_mem s1)) (te_repo s1)) s2 u Hw1 Hrec' Hse eq_refl
    ltac:(intros n Hne; by apply lookup_insert_ne) Es) as (Hw2 & Hv2 & Ho2).
  cbn. split; [done|]. intros n rec0 Hn. destruct (decide (n = name)) as [->|Hne].
  - exists (next_record rec d). split; [done|]. rewrite Hx in Hn. by injection Hn as <-.
  - exists rec0. by rewrite Ho2, Hv1.
Qed.

Lemma create_grows rnd now fr name s : op_ok (TCreate rnd now fr name) s → grows s (transit_step (TCreate rnd now fr name) s).
Proof.
  intros [Hse Hok] Hw. cbn [transit_step]. unfold CreateKey. set (m := create_record k rnd now name) in *. set (nm := TrimSpace name).
  assert (Hm : ∃ s1 x, m s = (s1, x) ∧ transit_wf s1 ∧ (∀ n, view s1 n = view s n) ∧
    match x with Ok rec => view s nm = None ∧ record_ok nm rec | Err _ => True end).
  { unfold m, create_record. fold nm. unfold mbind, prog_bind, guard_not, lift. destruct (reject _ _) as [[]|e]; [|by exists s, (Err e)].
    unfold attempt. destruct (load_view nm s Hw) as (s1 & x & -> & Hw1 & _ & Hv1 & Hx). destruct x as [rec|e]; cbn [is_ok reject].
    - by eexists s1, _.
    - destruct (new_dek k rnd) as [d|e']; [|by exists s1, (Err e')]. eexists s1, _. split; [reflexivity|]. split_and!; [done|done|exact Hx|]. split; cbn; [done|done|lia|].
      intros v [x Hv]. exists 1. split; [|lia]. destruct (decide (v = "1")) as [->|Hne]; [done|]. rewrite lookup_singleton_ne in Hv; done. }
  destruct Hm as (s1 & x & Em & Hw1 & Hv1 & Hx). unfold mbind, prog_bind. rewrite Em. destruct x as [rec|e].
  2: { split; [done|]. intros n rec Hn. exists rec. by rewrite Hv1. }
  destruct Hx as [Hnone Hrec]. destruct (Hok _ _ Em) as [u Hsave]. destruct (transit_saveLocked k fr rec s1) as [s2 y] eqn:Es. cbn in Hsave. subst y. cbn.
  destruct (saveRecord_view fr rec nm s1 s1 s2 u Hw1 Hrec Hse eq_refl ltac:(done) Es) as (Hw2 & Hv2 & Ho2). split; [done|]. intros n rec0 Hn.
  destruct (decide (n = nm)) as [->|Hne]; [by rewrite Hnone in Hn|]. exists rec0. by rewrite Ho2, Hv1.
Qed.

Lemma step_grows op s : op_ok op s → grows s (transit_step op s).
Proof.
  destruct op; intros Hok.
  - by apply create_grows.
  - by apply rotate_grows.
  - apply (always_bind grows (getRecord k name) (λ rec, mret (metaOf rec))); eauto with prog.
  - apply grows_encrypt.
  - apply grows_decrypt.
  - apply (always_bind grows (Transit_Decrypt k name ct) (λ pt, Transit_Encrypt k nonce name pt 0)); eauto with prog.
  - apply grows_hmac.
  - apply (always_bind grows (HMAC k name input (signature_version signature)) (λ got, mret (got =s signature))); eauto with prog.
  - apply grows_same. intros Hw. simpl in Hok. assert (Hv : ∀ n, view (transit_step TRestart s) n = view s n).
    { intros n. unfold view. cbn. by destruct (te_repo s). }
    split; [|done]. split; [done| |apply (tw_repo s Hw)]. intros n rec. rewrite Hv. apply (tw_records s Hw).
Qed.

Lemma run_grows ops s : run_ok ops s → grows s (transit_run ops s).
Proof.
  revert s. induction ops as [|op ops IH]; intros s; [intros _; apply grows_preorder|]. intros [Hop Hops].
  etrans; [by apply step_grows|by apply IH].
Qed.

(** C28. What was encrypted can be decrypted: on a well-formed engine, a ciphertext of a
    key version below 2^63 decrypts to its plaintext after any later requests, key
    rotations and restarts of the engine, as long as none of them fails to save a
    key. Without that it may not: see [failed_rotation_loses_data]. *)
Theorem transit_roundtrip n name pt keyVersion s s1 ct ops :
  transit_wf s → length n = nonce_size → keyVersion < 2 ^ 63 →
  Transit_Encrypt k (Ok n) name pt keyVersion s = (s1, Ok ct) → run_ok ops s1 →
  (Transit_Decrypt k name ct (transit_run ops s1)).2 = Ok pt.
Proof.
  intros Hw Hn Hkv He Hops. destruct (grows_encrypt (Ok n) name pt keyVersion s Hw) as [Hw1 G1]. rewrite He in Hw1, G1. cbn [fst] in Hw1, G1.
  unfold Transit_Encrypt in He. apply prog_bind_run in He as (s0 & rec & Hg & He). cbv zeta in He. inv_run.
  destruct (getRecord_view name s Hw) as (s' & x & Eg & _ & _ & Hv & Hx). rewrite Eg in Hg. injection Hg as -> ->.
  match goal with Hx : dekFor _ _ _ = Ok ?d |- _ => rename d into dek; rename Hx into Hdek end.
  match goal with Hx : EncryptWithDEK _ _ _ = Ok ?c |- _ => rename c into raw; rename Hx into Henc end.
  set (ver := version_for rec keyVersion) in *. destruct (tw_records s Hw name rec Hx) as [_ _ Hl _].
  assert (Hver : 1 ≤ ver < 2 ^ 63) by (unfold ver, version_for; destruct (Z.ltb_spec 0 keyVersion); lia).
  destruct (run_grows ops s1 Hops Hw1) as [Hw2 G2]. destruct (G1 name rec Hx) as (rec1 & Hx1 & S1). destruct (G2 name rec1 Hx1) as (rec2 & Hx2 & S2).
  destruct (getRecord_view name _ Hw2) as (s3 & x3 & E3 & _ & _ & _ & Hx3). unfold Transit_Decrypt, mbind, prog_bind. rewrite E3.
  destruct x3 as [rec3|e]; rewrite Hx2 in Hx3; [injection Hx3 as <-|done].
  change (String "v" (Itoa ver +:+ String ":" (RawStdEncode raw))) with (cipherPrefix +:+ Itoa ver +:+ ":" +:+ RawStdEncode raw).
  unfold lift. rewrite parse_format by lia.
  destruct (tw_records _ Hw2 name rec2 Hx2) as [_ Hmin _ _]. unfold guard_not, lift. rewrite Hmin. destruct (Z.ltb_spec ver 1); [lia|]. cbn [reject].
  assert (Hd2 : dekFor k rec2 ver = Ok dek).
  { unfold dekFor in *. destruct (rk_Versions rec !! Itoa ver) as [enc|] eqn:Ev; [|done].
    by rewrite (lookup_weaken _ _ _ _ Ev (transitivity S1 S2)). }
  rewrite Hd2, (seal_open_dek dek n _ raw Hn Henc). cbn [snd]. by rewrite unbind_bind.
Qed.

(** A signature verifies. What [Sign] returns, [Transit_Verify] accepts, after any later
    requests, rotations and restarts; and an accepted signature is the one the
    key gives for the input. *)
Theorem transit_sign_verify name input keyVersion s s1 signature ops :
  transit_wf s → keyVersion < 2 ^ 63 → Sign k name input keyVersion s = (s1, Ok signature) → run_ok ops s1 →
  (Transit_Verify k name input signature (transit_run ops s1)).2 = Ok true ∧
  ∀ sig', (Transit_Verify k name input sig' (transit_run ops s1)).2 = Ok true →
    (Sign k name input (signature_version sig') (transit_run ops s1)).2 = Ok sig'.
Proof.
  intros Hw Hkv He Hops. split.
  - destruct (grows_hmac name input keyVersion s Hw) as [Hw1 G1]. unfold Sign in He. rewrite He in Hw1, G1. cbn [fst] in Hw1, G1.
    unfold HMAC in He. apply prog_bind_run in He as (s0 & rec & Hg & He). cbv zeta in He. inv_run.
    destruct (getRecord_view name s Hw) as (s' & x & Eg & _ & _ & Hv & Hx). rewrite Eg in Hg. injection Hg as -> ->.
    match goal with Hx : dekFor _ _ _ = Ok ?d |- _ => rename d into dek; rename Hx into Hdek end.
    set (ver := version_for rec keyVersion) in *. destruct (tw_records s Hw name rec Hx) as [_ _ Hl _].
    assert (Hver : 1 ≤ ver < 2 ^ 63) by (unfold ver, version_for; destruct (Z.ltb_spec 0 keyVersion); lia).
    destruct (run_grows ops s1 Hops Hw1) as [Hw2 G2]. destruct (G1 name rec Hx) as (rec1 & Hx1 & S1). destruct (G2 name rec1 Hx1) as (rec2 & Hx2 & S2).
    set (body := RawStdEncode _). match goal with |- context [Transit_Verify k name input ?sg] =>
      change sg with ("hmac:v" +:+ Itoa ver +:+ ":" +:+ body) end. assert (Esv : signature_version ("hmac:v" +:+ Itoa ver +:+ ":" +:+ body) = ver).
    { destruct (Itoa_text ver ltac:(lia)) as [Hne Hfree]. unfold signature_version.
      replace (HasPrefix ("hmac:v" +:+ Itoa ver +:+ ":" +:+ body) "hmac:v") with true by (symmetry; apply HasPrefix_spec; by exists (Itoa ver +:+ ":" +:+ body)).
      rewrite TrimPrefix_app. change (":" +:+ body) with (String ":" body). cbv zeta. rewrite IndexByte_first by done.
      destruct (String.length (Itoa ver)) as [|i] eqn:El; [by destruct (Itoa ver)|]. by rewrite <-El, str_take_app, Atoi_Itoa by lia. }
    unfold Transit_Verify. rewrite Esv. unfold HMAC, mbind, prog_bind.
    destruct (getRecord_view name _ Hw2) as (s3 & x3 & E3 & _ & _ & _ & Hx3). rewrite E3.
    destruct x3 as [rec3|e]; rewrite Hx2 in Hx3; [injection Hx3 as <-|done]. unfold version_for at 1. destruct (Z.ltb_spec 0 ver); [|lia].
    assert (Hd2 : dekFor k rec2 ver = Ok dek).
    { unfold dekFor in *. destruct (rk_Versions rec !! Itoa ver) as [enc|] eqn:Ev; [|done].
      by rewrite (lookup_weaken _ _ _ _ Ev (transitivity S1 S2)). }
    unfold lift. rewrite Hd2. unfold version_for. rewrite (proj2 (Z.ltb_lt 0 ver)) by lia. unfold mret, prog_ret. cbn [snd]. f_equal. by apply bool_decide_eq_true.
  - intros sig'. unfold Transit_Verify, Sign, mbind, prog_bind. destruct (HMAC _ _ _ _ _) as [s2 [got|e]]; [|done]. cbn. intros [= Hb].
    apply bool_decide_eq_true in Hb as ->. done.
Qed.
End ciphertexts.

(** ** Examples *)

#[local] Existing Instance toy_aead.
#[local] Existing Instance toy_laws.

#[local] Instance toy_transit : TransitCodec := {|
  key_marshal rec := Ok (pos_bytes (encode (rk_Name rec, rk_Type rec, rk_LatestVersion rec, rk_MinDecryptVer rec, rk_CreatedAt rec, rk_Versions rec)));
  key_unmarshal b := match decode (bytes_pos b) with
                     | Some (name, typ, latest, low, created, versions) => Ok (mkKeyRecord name typ latest low created versions)
                     | None => Err (Plain "json")
                     end;
  RawStdEncode := string_of;
  RawStdDecode s := Ok (bytes_of s);
  StdDecode s := Ok (bytes_of s);
  hmac_sha256 key msg := key ++ msg;
|}.
#[local] Instance toy_transit_laws : TransitCodecLaws.
Proof.
  split; [|intros b; simpl; by rewrite bytes_of_string]. intros [] b [= <-]. simpl. by rewrite bytes_pos_bytes, decode_encode.
Qed.

Definition demo_keys (c : ascii) : KeyRandom := mkKeyRandom (Ok (demo_key c)) (Ok demo_nonce).
Definition fresh_engine : Transit := TransitEngine_New (Some ∅).
Lemma fresh_engine_wf : transit_wf (demo_ring "a") fresh_engine.
Proof. split; [done|done|]. by intros r [= <-]. Qed.

Definition demo_transit : Transit := transit_run (demo_ring "a") [TCreate (demo_keys "x") 100 (demo_fresh 1 100) "app"] fresh_engine.
Lemma create_saves : op_ok (demo_ring "a") (TCreate (demo_keys "x") 100 (demo_fresh 1 100) "app") fresh_engine.
Proof.
  split; [exact demo_seals|]. intros rec s1 E. assert (Ec : is_ok (CreateKey (demo_ring "a") (demo_keys "x") 100 (demo_fresh 1 100) "app" fresh_engine).2 = true)
    by (vm_compute; reflexivity).
  unfold CreateKey, mbind, prog_bind in Ec. rewrite E in Ec. destruct (transit_saveLocked _ _ _ _) as [s2 [u|e]]; [by exists u|discriminate Ec].
Qed.
Lemma demo_transit_wf : transit_wf (demo_ring "a") demo_transit.
Proof. apply (step_grows (demo_ring "a") _ fresh_engine create_saves fresh_engine_wf). Qed.

Definition demo_rotation : transit_op := TRotate (demo_keys "y") (demo_fresh 2 200) "app".
Lemma rotate_saves s : is_ok (RotateKey (demo_ring "a") (demo_keys "y") (demo_fresh 2 200) "app" s).2 = true →
  km_LatestVersion <$> (RotateKey (demo_ring "a") (demo_keys "y") (demo_fresh 2 200) "app" s).2 = Ok 2 → op_ok (demo_ring "a") demo_rotation s.
Proof.
  intros Ec Ev. split; [exact demo_seals|]. intros rec s1 E. unfold RotateKey, mbind, prog_bind in Ec, Ev. rewrite E in Ec, Ev.
  destruct (transit_saveLocked _ _ _ _) as [s2 [u|e]]; [|discriminate Ec]. split; [by exists u|]. injection Ev as Ev. cbn in Ev. lia.
Qed.

Definition demo_encrypted : Transit * res string := Transit_Encrypt (demo_ring "a") (Ok demo_nonce) "app" (bytes_of "pt") 0 demo_transit.
Definition demo_ciphertext : string := match demo_encrypted.2 with Ok ct => ct | Err _ => "" end.
Definition has_repo (s : Transit) : bool := match te_repo s with Some _ => true | None => false end.
Lemma rotate_restart_ok s : op_ok (demo_ring "a") demo_rotation s → has_repo (transit_step (demo_ring "a") demo_rotation s) = true →
  run_ok (demo_ring "a") [demo_rotation; TRestart] s.
Proof.
  intros Hr Hs. unfold has_repo in Hs. split; [exact Hr|]. generalize dependent (transit_step (demo_ring "a") demo_rotation s).
  intros t Ht. split; [|exact I]. simpl. by destruct (te_repo t).
Qed.
Lemma demo_run_ok : run_ok (demo_ring "a") [demo_rotation; TRestart] demo_encrypted.1.
Proof. apply rotate_restart_ok; [apply rotate_saves|]; vm_compute; reflexivity. Qed.

(** After a rotation and a restart. *)
Lemma transit_roundtrip_witness :
  (Transit_Decrypt (demo_ring "a") "app" demo_ciphertext (transit_run (demo_ring "a") [demo_rotation; TRestart] demo_encrypted.1)).2 = Ok (bytes_of "pt").
Proof.
  apply (transit_roundtrip (demo_ring "a") demo_nonce "app" (bytes_of "pt") 0 demo_transit demo_encrypted.1 demo_ciphertext _ demo_transit_wf);
    [reflexivity|reflexivity| |exact demo_run_ok].
  assert (Eo : is_ok demo_encrypted.2 = true) by (vm_compute; reflexivity). unfold demo_ciphertext. unfold demo_encrypted in *.
  destruct (Transit_Encrypt _ _ _ _ _ _) as [s1 [ct|e]]; [reflexivity|discriminate Eo].
Defined.

Definition demo_signed : Transit * res string := Sign (demo_ring "a") "app" (bytes_of "doc") 1 demo_transit.
Lemma transit_sign_verify_witness : ∃ signature, demo_signed.2 = Ok signature ∧
  (Transit_Verify (demo_ring "a") "app" (bytes_of "doc") signature (transit_run (demo_ring "a") [demo_rotation; TRestart] demo_signed.1)).2 = Ok true.
Proof.
  assert (Eo : is_ok demo_signed.2 = true) by (vm_compute; reflexivity).
  assert (Hr : run_ok (demo_ring "a") [demo_rotation; TRestart] demo_signed.1).
  { apply rotate_restart_ok; [apply rotate_saves|]; vm_compute; reflexivity. }
  unfold demo_signed in *. destruct (Sign _ _ _ _ _) as [s1 [sg|e]] eqn:Es; [|discriminate Eo]. exists sg. split; [reflexivity|].
  exact (proj1 (transit_sign_verify (demo_ring "a") "app" (bytes_of "doc") 1 demo_transit s1 sg _ demo_transit_wf eq_refl Es Hr)).
Defined.

(** A rotation whose save fails has already changed the record in memory. The
    engine then encrypts with a key that exists nowhere else: after a restart
    the ciphertext cannot be decrypted. *)
Definition no_entropy : Fresh := mkFresh 2 200 (mkEntropy (Err (Plain "rand")) (Ok demo_nonce) (Ok demo_nonce)).
Example failed_rotation_loses_data :
  let ring := demo_ring "a" in
  let '(s1, rotated) := RotateKey ring (demo_keys "y") no_entropy "app" demo_transit in
  let '(s2, ct) := Transit_Encrypt ring (Ok demo_nonce) "app" (bytes_of "pt") 0 s1 in
  is_ok rotated = false ∧
  match ct with
  | Ok ct => is_ok (Transit_Decrypt ring "app" ct s2).2 = true ∧
             (Transit_Decrypt ring "app" ct (mkTransit ∅ (te_repo s2))).2 = Err (New ErrCodeNotFound "key version not found")
  | Err _ => False
  end.
Proof. vm_compute. repeat split. Qed.

(** A node that has read a key never looks at the repository again: it cannot
    decrypt what another node encrypts after a rotation. *)
Example stale_key_cache :
  let ring := demo_ring "a" in
  let other := (ReadKey ring "app" (mkTransit ∅ (te_repo demo_transit))).1 in
  let rotated := (RotateKey ring (demo_keys "y") (demo_fresh 2 200) "app" demo_transit).1 in
  let '(s, ct) := Transit_Encrypt ring (Ok demo_nonce) "app" (bytes_of "pt") 0 rotated in
  match ct with
  | Ok ct => (Transit_Decrypt ring "app" ct (mkTransit (te_mem other) (te_repo s))).2 = Err (New ErrCodeNotFound "key version not found")
  | Err _ => False
  end.
Proof. vm_compute. reflexivity. Qed.

(** Re-encryption after a rotation of the master key does not reach the keys
    inside a transit record: the record itself opens with the new master key
    alone, the keys in it do not. *)
Example transit_keys_not_reencrypted :
  match te_repo demo_transit, RotateMasterKey (demo_ring "a") (demo_key "b") with
  | Some repo, Ok (ring, v) =>
      let '(_, repo', done) := ReencryptDEKs ring (λ _, Ok demo_nonce) ∅ repo 0 in
      let alone := mkKeyRing {[ v := demo_key "b" ]} v false in
      let restarted := mkTransit ∅ (Some repo') in
      is_ok done = true ∧ is_ok (ReadKey alone "app" restarted).2 = true ∧
      is_ok (Transit_Encrypt alone (Ok demo_nonce) "app" (bytes_of "pt") 0 restarted).2 = false
  | _, _ => False
  end.
Proof. vm_compute. repeat split. Qed.
