(* ===== verification/PkiEngine.v ===== *)
(** Certificates: the engine internal/engine/pki (engine.go, renewal.go, ocsp.go)
    and the audited, tenant-scoped service internal/service/pki.go.

    [Pki] is the engine's state: the repositories, of which roles, revocations
    and issued certificates are optional. The issuing backend is the interface
    of internal/crypto/pki; it and the encodings of crypto/x509, encoding/pem
    and golang.org/x/crypto/ocsp are the class [X509]. What a request takes from
    outside is the record [PkiEnv]. *)

From S2P Require Import Prelude.
From S2P Require Import Effects.
From S2P Require Import GoLib.
From S2P Require Import Domain.
From S2P Require Import DynamicRoles.
From S2P Require Import Repos.
From S2P Require Import AuditHelper.
From S2P Require Import Tenant.
From S2P Require Import Ttl.
From S2P Require Import Crypto.
From S2P Require Import KVEngine.
From S2P Require Import Cubbyhole.

#[local] Open Scope Z_scope.

(** ** Serial numbers *)

(** [big.Int.Text(16)] and [big.Int.SetString(s, 16)]. *)
Definition hex_digit (n : Z) : ascii := ascii_of_nat (Z.to_nat (if n <? 10 then 48 + n else 87 + n)).
Fixpoint hex_digits (fuel : nat) (n : Z) (rest : string) : string :=
  match fuel with
  | O => rest
  | S fuel => let rest := String (hex_digit (n mod 16)) rest in if n <? 16 then rest else hex_digits fuel (n / 16) rest
  end.
Definition Text16 (n : Z) : string :=
  let text m := hex_digits (S (Z.to_nat (Z.log2 m))) m "" in if n <? 0 then "-" +:+ text (- n) else text n.

Definition hex_val (c : ascii) : option Z :=
  let n := Z.of_nat (nat_of_ascii c) in
  if (48 <=? n) && (n <=? 57) then Some (n - 48)
  else if (97 <=? n) && (n <=? 102) then Some (n - 87)
  else if (65 <=? n) && (n <=? 70) then Some (n - 55)
  else None.
Fixpoint hex_parse (acc : Z) (s : string) : option Z :=
  match s with
  | EmptyString => Some acc
  | String c s => d ← hex_val c; hex_parse (acc * 16 + d) s
  end.
Definition SetString16 (s : string) : option Z :=
  let body t := if t =s "" then None else hex_parse 0 t in
  match s with
  | String "-" t => Z.opp <$> body t
  | String "+" t => body t
  | _ => body s
  end.

(** ** Requests and results *)

Record CreateRootRequest := mkCreateRoot {
  rr_Name : string; rr_CommonName : string; rr_TTL : string; rr_KeyBits : Z; rr_AllowedDomains : list string; rr_AllowSubdomains : bool;
}.
Record CreateIntermediateRequest := mkCreateIntermediate {
  ri_ParentName : string; ri_Name : string; ri_CommonName : string; ri_TTL : string; ri_KeyBits : Z; ri_AllowedDomains : list string;
  ri_AllowSubdomains : bool;
}.
Record IssueRequest := mkIssueRequest {
  iq_Role : string; iq_CommonName : string; iq_DNSNames : list string; iq_IPAddresses : list string; iq_TTL : string; iq_KeyBits : Z;
  iq_AutoRenew : bool; iq_ForceKeyUsage : string;
}.
Record CAResult := mkCAResult { cz_ID : UUID; cz_Name : string; cz_CertPEM : string; cz_Serial : string; cz_ExpiresAt : Time }.
Record IssueResult := mkIssueResult { ir_CertPEM : string; ir_PrivateKeyPEM : string; ir_Serial : string; ir_ExpiresAt : Time; ir_CAID : UUID }.
Record ImportCARequest := mkImportCA { im_Name : string; im_CommonName : string; im_CertPEM : string; im_KeyPEM : string; im_ParentName : string }.
Record ExportCAResult := mkExportCA {
  ex_ID : UUID; ex_Name : string; ex_CertPEM : string; ex_ChainPEM : string; ex_Serial : string; ex_ExpiresAt : Time;
}.
Record SignCSRRequest := mkSignCSR { sg_Role : string; sg_CSRPEM : string; sg_TTL : string }.
Record SignCSRResult := mkSignCSRResult { sr_CertPEM : string; sr_Serial : string; sr_ExpiresAt : Time; sr_CAChain : list string }.
Record RenewRequest := mkRenewRequest { rn_CAID : UUID; rn_Serial : string; rn_TTL : string }.
Record RenewResult := mkRenewResult {
  rw_PreviousSerial : string; rw_CertPEM : string; rw_PrivateKeyPEM : string; rw_Serial : string; rw_ExpiresAt : Time;
}.

(** What the backend is asked for. *)
Record RootRequest := mkRootRequest { bq_CommonName : string; bq_TTL : Duration; bq_KeyBits : Z }.
Record IntermediateRequest := mkIntermediateRequest {
  bi_ParentCertPEM : string; bi_ParentKeyPEM : bytes; bi_CommonName : string; bi_TTL : Duration; bi_KeyBits : Z;
}.
Record LeafRequest := mkLeafRequest {
  bl_CACertPEM : string; bl_CAKeyPEM : bytes; bl_CommonName : string; bl_DNSNames : list string; bl_IPAddresses : list string; bl_TTL : Duration;
  bl_KeyBits : Z; bl_KeyUsage : string;
}.
Record BackendCSRRequest := mkBackendCSR {
  bc_CSRPEM : string; bc_CACertPEM : string; bc_CAKeyPEM : bytes; bc_TTL : Duration; bc_KeyUsage : string;
}.

(** A parsed signing request. *)
Record CertificateRequest := mkCertificateRequest {
  csr_CommonName : string; csr_DNSNames : list string; csr_IPAddresses : list string; csr_EmailAddresses : list string; csr_URIs : list string;
}.

Record RevocationList := mkRevocationList {
  crl_Entries : list (Z * Time); crl_Number : Z; crl_ThisUpdate : Time; crl_NextUpdate : Time;
}.

Inductive ocsp_status := OcspGood | OcspRevoked | OcspUnknown.
Record OcspResponse := mkOcspResponse {
  oc_Status : ocsp_status; oc_Serial : Z; oc_ThisUpdate : Time; oc_NextUpdate : Time; oc_RevokedAt : Time;
}.

Class X509 := {
  Random : Type;
  PrivateKey : Type;
  CertKey : Type;
  Backend_CreateRoot : Random → RootRequest → res (string * bytes);
  Backend_CreateIntermediate : Random → IntermediateRequest → res (string * bytes);
  Backend_IssueCertificate : Random → LeafRequest → res (string * bytes);
  Backend_SignCSR : Random → BackendCSRRequest → res string;
  pem_Decode : string → option bytes;
  pem_Encode : string → bytes → string;
  ParseCertificate : bytes → res (Z * Time * CertKey);
  ParsePKCS8PrivateKey : bytes → res (option PrivateKey);
  ParsePKCS1PrivateKey : bytes → res PrivateKey;
  rsa_BitLen : PrivateKey → option Z;
  Public : PrivateKey → CertKey;
  key_Equal : CertKey → option (CertKey → bool);
  MarshalPKIXPublicKey : CertKey → res bytes;
  ParseCertificateRequest : bytes → res CertificateRequest;
  CheckSignature : bytes → res unit;
  CreateRevocationList : Random → RevocationList → Z * Time * CertKey → PrivateKey → res bytes;
  ocsp_ParseRequest : bytes → res Z;
  ocsp_CreateResponse : Z * Time * CertKey → OcspResponse → PrivateKey → res bytes;
  parse_duration : string → option Duration;
  uuid_String : UUID → string;
}.

(** Identifier, clock, sealing and backend randomness of a request; [pe_now'] is
    a second reading of the clock. *)
Record PkiEnv `{X509} := mkPkiEnv { pe_id : UUID; pe_now : Time; pe_now' : Time; pe_seal : Entropy; pe_random : Random }.

Record Pki := mkPki {
  pk_cas : gmap UUID CA;
  pk_roles : option (gmap string PKIRole);
  pk_revoked : option RevocationRepository;
  pk_issued : option (gmap (UUID * string) IssuedCertificate);
}.
Abbreviation K := (prog Pki).

Section setters.
Implicit Type s : Pki.
Definition set_cas s m := mkPki m (pk_roles s) (pk_revoked s) (pk_issued s).
Definition set_roles s m := mkPki (pk_cas s) (Some m) (pk_revoked s) (pk_issued s).
Definition set_revoked s m := mkPki (pk_cas s) (pk_roles s) (Some m) (pk_issued s).
Definition set_issued s m := mkPki (pk_cas s) (pk_roles s) (pk_revoked s) (Some m).
End setters.

(** ** engine.go *)

Definition CAStatusActive : string := "active".
Definition defaultLeafTTL : Duration := 72 * Hour.
Definition defaultMaxLeafTTL : Duration := 90 * 24 * Hour.
Definition defaultRoleMaxTTLSeconds : Z := Z.quot defaultMaxLeafTTL Second.
Definition MinRSAKeyBits : Z := 2048.

Definition normalizeDomains (inp : list string) : list string := filter (λ d, d ≠ "") (TrimSpace <$> inp).

Definition dn_of (cn : string) : DistinguishedName := mkDN cn "" "" "".

Section engine.
Context `{Aead} `{X509} (k : KeyRing).

Definition parseCertificate (pemBytes : string) : res (Z * Time * CertKey) :=
  match pem_Decode pemBytes with
  | None => Err (Plain "decode certificate pem")
  | Some block => ParseCertificate block
  end.

Definition parseCertMetadata (certPEM : string) : res (string * Time) :=
  cert ← parseCertificate certPEM;
  Ok (Text16 cert.1.1, cert.1.2).

Definition parseSigner (pemBytes : string) : res PrivateKey :=
  match pem_Decode pemBytes with
  | None => Err (Plain "decode private key pem")
  | Some block =>
      match ParsePKCS8PrivateKey block with
      | Ok (Some signer) => Ok signer
      | Ok None => Err (Plain "pkcs8 key is not a signer")
      | Err _ => ParsePKCS1PrivateKey block
      end
  end.

Definition validateImportedKeyStrength (keyPEM : string) : res unit :=
  signer ← parseSigner keyPEM;
  match rsa_BitLen signer with
  | Some bits => reject (bits <? MinRSAKeyBits) (Plain ("rsa key must be >= " +:+ Itoa MinRSAKeyBits +:+ " bits (got " +:+ Itoa bits +:+ ")"))
  | None => Err (Plain "imported CA key must be RSA")
  end.

Definition verifyCertKeyMatch (certPEM keyPEM : string) : res unit :=
  cert ← parseCertificate certPEM;
  signer ← parseSigner keyPEM;
  match key_Equal cert.2 with
  | Some equal => reject (negb (equal (Public signer))) (Plain "public key mismatch")
  | None =>
      want ← MarshalPKIXPublicKey cert.2;
      got ← MarshalPKIXPublicKey (Public signer);
      reject (negb (bool_decide (want = got))) (Plain "public key mismatch")
  end.

Definition decryptKey (keyEnc dekEnc : bytes) : res bytes := wrap_internal "decrypt private key" (Open k keyEnc dekEnc).

Definition put_ca (c : CA) : K unit := λ s,
  match CARepository_Save (pk_cas s) c with
  | Ok m => (set_cas s m, Ok tt)
  | Err e => (s, Err e)
  end.
Definition get_ca (id : UUID) : K CA := λ s, (s, CARepository_GetByID (pk_cas s) id).
Definition get_ca_by_name (name : string) : K CA := λ s, (s, CARepository_GetByName (pk_cas s) name).

Definition parse_ttl (raw : string) : res Duration :=
  match ParseTTL parse_duration raw with Ok d => Ok d | Err e => Err (Wrap ErrCodeValidation "invalid ttl" e) end.

Definition ensureDefaultRole (caName : string) (allowedDomains : list string) (allowSubdomains : bool) : K unit := λ s,
  match pk_roles s with
  | None => (s, Ok tt)
  | Some roles =>
      if caName =s "" then (s, Ok tt)
      else match PKIRoleRepository_Get roles caName with
           | Ok _ => (s, Ok tt)
           | Err _ =>
               let domains := match normalizeDomains allowedDomains with [] => ["_unconfigured.invalid"] | l => l end in
               match PKIRoleRepository_Save roles (mkPKIRole caName caName domains defaultRoleMaxTTLSeconds "" allowSubdomains) with
               | Ok roles => (set_roles s roles, Ok tt)
               | Err _ => (s, Ok tt)
               end
           end
  end.

Definition ca_result (ca : CA) : CAResult := mkCAResult (ca_ID ca) (ca_Name ca) (ca_CertPEM ca) (ca_Serial ca) (ca_ExpiresAt ca).

Definition PKI_CreateRoot (env : PkiEnv) (req : CreateRootRequest) : K CAResult :=
  ttl ← lift (parse_ttl (rr_TTL req));
  ck ← lift (wrap_internal "create root certificate" (Backend_CreateRoot (pe_random env) (mkRootRequest (rr_CommonName req) ttl (rr_KeyBits req))));
  let '(certPEM, keyPEM) := ck in
  se ← lift (parseCertMetadata certPEM);
  sealed ← lift (wrap_internal "encrypt root key" (Seal k (pe_seal env) keyPEM));
  let ca := mkCA (pe_id env) None (rr_Name req) CATypeRoot (dn_of (rr_CommonName req)) se.1 certPEM sealed.1 sealed.2 CAStatusActive (pe_now env)
              se.2 None in
  _ ← put_ca ca;
  _ ← ensureDefaultRole (ca_Name ca) (rr_AllowedDomains req) (rr_AllowSubdomains req);
  mret (ca_result ca).

Definition PKI_CreateIntermediate (env : PkiEnv) (req : CreateIntermediateRequest) : K CAResult :=
  parent ← get_ca_by_name (ri_ParentName req);
  ttl ← lift (parse_ttl (ri_TTL req));
  parentKey ← lift (decryptKey (ca_PrivateKeyEnc parent) (ca_DEKEnc parent));
  ck ← lift (wrap_internal "sign intermediate certificate"
               (Backend_CreateIntermediate (pe_random env)
                  (mkIntermediateRequest (ca_CertPEM parent) parentKey (ri_CommonName req) ttl (ri_KeyBits req))));
  let '(certPEM, keyPEM) := ck in
  se ← lift (parseCertMetadata certPEM);
  sealed ← lift (wrap_internal "encrypt intermediate key" (Seal k (pe_seal env) keyPEM));
  let ca := mkCA (pe_id env) (Some (ca_ID parent)) (ri_Name req) CATypeIntermediate (dn_of (ri_CommonName req)) se.1 certPEM sealed.1 sealed.2
              CAStatusActive (pe_now env) se.2 None in
  _ ← put_ca ca;
  _ ← ensureDefaultRole (ca_Name ca) (ri_AllowedDomains req) (ri_AllowSubdomains req);
  mret (ca_result ca).

Definition resolvePKIRole (roleName : string) : K (string * option PKIRole) := λ s, (s,
  let roleName := if TrimSpace roleName =s "" then "root" else TrimSpace roleName in
  match pk_roles s with
  | None => Ok (roleName, None)
  | Some roles => match PKIRoleRepository_Get roles roleName with
                  | Ok r => Ok (pr_CAName r, Some r)
                  | Err e => Err (Wrap ErrCodeNotFound
                      "pki role not found (create a role via PUT /pki/roles/:name or pass allowed_domains on CreateRoot)" e)
                  end
  end).

(** The part on lifetimes of both validations. *)
Definition check_role_ttl (role : PKIRole) (raw : string) : res unit :=
  if raw =s "" then Ok tt
  else
    ttl ← parse_ttl raw;
    let maxSec := if pr_MaxTTLSeconds role <=? 0 then defaultRoleMaxTTLSeconds else pr_MaxTTLSeconds role in
    reject (maxSec <? Seconds ttl) (New ErrCodeValidation "ttl exceeds role maximum").

Definition validateIssueAgainstRole (role : PKIRole) (req : IssueRequest) : res unit :=
  let cn := TrimSpace (iq_CommonName req) in
  _ ← reject (negb (cn =s "") && negb (AllowedDomain role cn)) (New ErrCodeValidation ("common name " +:+ quoted cn +:+ " not allowed by role"));
  _ ← for_each (λ _ dns, reject (negb (AllowedDomain role dns)) (New ErrCodeValidation ("dns name " +:+ quoted dns +:+ " not allowed by role")))
        tt (iq_DNSNames req);
  _ ← reject (bool_decide (iq_IPAddresses req ≠ []) && negb (AllowsAnyDomain role))
        (New ErrCodeValidation "ip SANs are not allowed by role domain policy");
  check_role_ttl role (iq_TTL req).

(** The lifetime a certificate gets: the default capped by the role, or what was
    asked for when the role allows it. *)
Definition role_max_ttl (role : option PKIRole) : Duration :=
  match role with
  | Some r => if 0 <? pr_MaxTTLSeconds r then wrap64 (pr_MaxTTLSeconds r * Second) else defaultMaxLeafTTL
  | None => defaultMaxLeafTTL
  end.
Definition issue_ttl (role : option PKIRole) (raw : string) : res Duration :=
  ttl ← (if raw =s "" then Ok defaultLeafTTL else parse_ttl raw);
  if role_max_ttl role <? ttl
  then if raw =s "" then Ok (role_max_ttl role) else Err (New ErrCodeValidation "ttl exceeds role maximum")
  else Ok ttl.

Definition role_usage (role : option PKIRole) : string :=
  match role with
  | Some r => if pr_KeyUsage r =s "" then RoleUsageServer else pr_KeyUsage r
  | None => RoleUsageServer
  end.
Definition issue_usage (role : option PKIRole) (force : string) : res string :=
  if force =s "" then Ok (role_usage role)
  else
    let server_role := match role with Some r => pr_KeyUsage r =s RoleUsageServer | None => false end in
    _ ← reject (server_role && negb (force =s RoleUsageServer))
          (New ErrCodeValidation "force key usage conflicts with role key_usage=server; use a client role");
    Ok force.

Definition check_not_revoked (serial : string) : K unit := λ s, (s,
  match pk_revoked s with
  | Some r => reject (RevocationRepository_IsRevoked r serial) (New ErrCodeValidation "certificate serial is revoked")
  | None => Ok tt
  end).

Definition save_issued (c : IssuedCertificate) : K unit := λ s,
  match pk_issued s with
  | Some m => match IssuedCertRepository_Save m c with
              | Ok m => (set_issued s m, Ok tt)
              | Err e => (s, Err e)
              end
  | None => (s, Ok tt)
  end.

Definition issued_record (env : PkiEnv) (ca : CA) (req : IssueRequest) (serial : string) (ttl : Duration) (expiresAt : Time) : IssuedCertificate :=
  let ttlSeconds := Seconds ttl in
  let ttlSeconds := if ttlSeconds <=? 0 then Seconds (Sub expiresAt (pe_now env)) else ttlSeconds in
  mkIssued (pe_id env) (ca_ID ca) (iq_Role req) serial (iq_CommonName req) (iq_DNSNames req) ttlSeconds (pe_now' env) expiresAt (iq_AutoRenew req) None.

Definition PKI_IssueCertificate (env : PkiEnv) (req : IssueRequest) : K IssueResult :=
  cr ← resolvePKIRole (iq_Role req);
  let '(caName, pkiRole) := cr in
  ca ← get_ca_by_name caName;
  _ ← lift (match pkiRole with Some role => validateIssueAgainstRole role req | None => Ok tt end);
  ttl ← lift (issue_ttl pkiRole (iq_TTL req));
  caKey ← lift (decryptKey (ca_PrivateKeyEnc ca) (ca_DEKEnc ca));
  usage ← lift (issue_usage pkiRole (iq_ForceKeyUsage req));
  ck ← lift (wrap_internal "sign leaf certificate"
               (Backend_IssueCertificate (pe_random env)
                  (mkLeafRequest (ca_CertPEM ca) caKey (iq_CommonName req) (iq_DNSNames req) (iq_IPAddresses req) ttl (iq_KeyBits req) usage)));
  let '(certPEM, keyPEM) := ck in
  se ← lift (parseCertMetadata certPEM);
  _ ← check_not_revoked se.1;
  _ ← save_issued (issued_record env ca req se.1 ttl se.2);
  mret (mkIssueResult certPEM (string_of keyPEM) se.1 se.2 (ca_ID ca)).

Definition PKI_GetCA (id : UUID) : K CA := get_ca id.

Definition PKI_GetCAByName (name : string) : K CA :=
  _ ← guard_not (TrimSpace name =s "") (New ErrCodeValidation "name is required");
  get_ca_by_name name.

Definition PKI_Revoke (now : Time) (caID : UUID) (serial reason : string) : K unit := λ s,
  match pk_revoked s with
  | None => (s, Err (New ErrCodeInternal "revocation repository not configured"))
  | Some r =>
      if serial =s "" then (s, Err (New ErrCodeValidation "serial is required"))
      else (set_revoked s (RevocationRepository_Revoke r (mkRevoked serial caID now (if reason =s "" then "unspecified" else reason))), Ok tt)
  end.

(** The entries of a revocation list. *)
Fixpoint crl_entries (revoked : list RevokedCertificate) : res (list (Z * Time)) :=
  match revoked with
  | [] => Ok []
  | entry :: revoked =>
      match SetString16 (rv_Serial entry) with
      | None => Err (Plain ("invalid serial " +:+ quoted (rv_Serial entry)))
      | Some serial => rest ← crl_entries revoked; Ok ((serial, rv_RevokedAt entry) :: rest)
      end
  end.

Definition GenerateCRL (now : Time) (rnd : Random) (caID : UUID) : K string := λ s, (s,
  match pk_revoked s with
  | None => Err (New ErrCodeInternal "pki engine not fully configured")
  | Some r =>
      ca ← CARepository_GetByID (pk_cas s) caID;
      parentCert ← parseCertificate (ca_CertPEM ca);
      caKey ← decryptKey (ca_PrivateKeyEnc ca) (ca_DEKEnc ca);
      signer ← parseSigner (string_of caKey);
      entries ← crl_entries (RevocationRepository_ListByCA r caID);
      der ← wrap_internal "create crl" (CreateRevocationList rnd (mkRevocationList entries (now - unix_epoch) now (now + 24 * Hour)) parentCert signer);
      Ok (pem_Encode "X509 CRL" der)
  end).

Definition ImportCA (env : PkiEnv) (req : ImportCARequest) : K CAResult :=
  _ ← guard_not ((im_Name req =s "") || (im_CertPEM req =s "") || (im_KeyPEM req =s ""))
        (New ErrCodeValidation "name, cert_pem, and key_pem are required");
  let wrap_validation {A} message (x : res A) := match x with Ok a => Ok a | Err e => Err (Wrap ErrCodeValidation message e) end in
  se ← lift (wrap_validation "invalid certificate" (parseCertMetadata (im_CertPEM req)));
  _ ← lift (wrap_validation "certificate and private key do not match" (verifyCertKeyMatch (im_CertPEM req) (im_KeyPEM req)));
  _ ← lift (wrap_validation "imported key strength" (validateImportedKeyStrength (im_KeyPEM req)));
  sealed ← lift (wrap_internal "encrypt private key" (Seal k (pe_seal env) (bytes_of (im_KeyPEM req))));
  tp ← (if im_ParentName req =s "" then mret (CATypeRoot, None)
        else parent ← get_ca_by_name (im_ParentName req); mret (CATypeIntermediate, Some (ca_ID parent)));
  let cn := if im_CommonName req =s "" then im_Name req else im_CommonName req in
  let ca := mkCA (pe_id env) tp.2 (im_Name req) tp.1 (dn_of cn) se.1 (im_CertPEM req) sealed.1 sealed.2 CAStatusActive (pe_now env) se.2 None in
  _ ← put_ca ca;
  mret (ca_result ca).

(** The certificate of the parent, when it can be read. *)
Definition parent_of (s : Pki) (ca : CA) : option CA :=
  pid ← ca_ParentID ca;
  match CARepository_GetByID (pk_cas s) pid with Ok parent => Some parent | Err _ => None end.

Definition ExportCA (id : UUID) : K ExportCAResult := λ s, (s,
  ca ← CARepository_GetByID (pk_cas s) id;
  let chain := match parent_of s ca with Some parent => ca_CertPEM ca +:+ newline +:+ ca_CertPEM parent | None => ca_CertPEM ca end in
  Ok (mkExportCA (ca_ID ca) (ca_Name ca) (ca_CertPEM ca) chain (ca_Serial ca) (ca_ExpiresAt ca))).

Definition RotateCA (env : PkiEnv) (id : UUID) : K CAResult :=
  old ← get_ca id;
  let name := ca_Name old +:+ "-successor-" +:+ Itoa (Unix (pe_now env)) in
  let cn := dn_CommonName (ca_Subject old) +:+ " Successor" in
  if ca_Type old =s CATypeRoot then PKI_CreateRoot env (mkCreateRoot name cn "8760h" 0 [] false)
  else
    parent ← gets (λ s, parent_of s old);
    PKI_CreateIntermediate env
      (mkCreateIntermediate (match parent with Some p => ca_Name p | None => ca_Name old end) name cn "4380h" 0 [] false).

(** The names of a signing request. *)
Definition csr_names (csr : CertificateRequest) : list string :=
  let cn := TrimSpace (csr_CommonName csr) in
  (if cn =s "" then [] else [cn]) ++ csr_DNSNames csr.

Definition validateCSRAgainstRole (role : PKIRole) (csrPEM ttl : string) : res unit :=
  block ← match pem_Decode csrPEM with Some block => Ok block | None => Err (New ErrCodeValidation "invalid csr pem") end;
  csr ← match ParseCertificateRequest block with Ok csr => Ok csr | Err e => Err (Wrap ErrCodeValidation "parse csr" e) end;
  _ ← match CheckSignature block with Ok _ => Ok tt | Err e => Err (Wrap ErrCodeValidation "invalid csr signature" e) end;
  let open := AllowsAnyDomain role in
  _ ← reject (bool_decide (csr_IPAddresses csr ≠ []) && negb open) (New ErrCodeValidation "csr ip SANs are not allowed by role domain policy");
  _ ← reject (bool_decide (csr_EmailAddresses csr ≠ []) && negb open) (New ErrCodeValidation "csr email SANs are not allowed by role domain policy");
  _ ← reject (bool_decide (csr_URIs csr ≠ []) && negb open) (New ErrCodeValidation "csr URI SANs are not allowed by role domain policy");
  let names := csr_names csr in
  _ ← reject (negb open && bool_decide (names = [])) (New ErrCodeValidation "csr has no common name or dns names to validate against role");
  _ ← for_each (λ _ name, reject (negb (AllowedDomain role name)) (New ErrCodeValidation ("csr name " +:+ quoted name +:+ " not allowed by role")))
        tt names;
  check_role_ttl role ttl.

Definition PKI_SignCSR (env : PkiEnv) (req : SignCSRRequest) : K SignCSRResult :=
  _ ← guard_not (TrimSpace (sg_CSRPEM req) =s "") (New ErrCodeValidation "csr is required");
  cr ← resolvePKIRole (sg_Role req);
  let '(caName, pkiRole) := cr in
  ca ← get_ca_by_name caName;
  _ ← lift (match pkiRole with Some role => validateCSRAgainstRole role (sg_CSRPEM req) (sg_TTL req) | None => Ok tt end);
  ttl ← lift (if sg_TTL req =s "" then Ok defaultLeafTTL else parse_ttl (sg_TTL req));
  _ ← guard_not (role_max_ttl pkiRole <? ttl) (New ErrCodeValidation "ttl exceeds role maximum");
  caKey ← lift (decryptKey (ca_PrivateKeyEnc ca) (ca_DEKEnc ca));
  certPEM ← lift (wrap_internal "sign csr"
                    (Backend_SignCSR (pe_random env) (mkBackendCSR (sg_CSRPEM req) (ca_CertPEM ca) caKey ttl (role_usage pkiRole))));
  se ← lift (parseCertMetadata certPEM);
  parent ← gets (λ s, parent_of s ca);
  mret (mkSignCSRResult certPEM se.1 se.2 (match parent with Some p => [ca_CertPEM p; ca_CertPEM ca] | None => [ca_CertPEM ca] end)).

Definition PKI_SaveRole (role : PKIRole) : K unit := λ s,
  match pk_roles s with
  | None => (s, Err (New ErrCodeInternal "pki role repository not configured"))
  | Some roles =>
      match PKIRole_Validate role with
      | Err e => (s, Err (Wrap ErrCodeValidation "invalid pki role" e))
      | Ok role => match PKIRoleRepository_Save roles role with
                   | Ok roles => (set_roles s roles, Ok tt)
                   | Err e => (s, Err e)
                   end
      end
  end.

(** ** renewal.go *)

Definition ic_renewed_from (c : IssuedCertificate) (prev : string) : IssuedCertificate :=
  mkIssued (ic_ID c) (ic_CAID c) (ic_Role c) (ic_Serial c) (ic_CommonName c) (ic_DNSNames c) (ic_TTLSeconds c) (ic_IssuedAt c) (ic_ExpiresAt c)
    (ic_AutoRenew c) (Some prev).

Definition issued_by_serial (caID : UUID) (serial : string) : K IssuedCertificate := λ s, (s,
  match pk_issued s with
  | None => Err (New ErrCodeInternal "issued certificate repository not configured")
  | Some m => IssuedCertRepository_GetBySerial m caID serial
  end).

Definition renewal_request (record : IssuedCertificate) (ttl : string) : IssueRequest :=
  mkIssueRequest (ic_Role record) (ic_CommonName record) (ic_DNSNames record) []
    (if ttl =s "" then Itoa (ic_TTLSeconds record) +:+ "s" else ttl) 0 (ic_AutoRenew record) "".

Definition RenewCertificate (env : PkiEnv) (req : RenewRequest) : K RenewResult := λ s,
  match pk_issued s with
  | None => (s, Err (New ErrCodeInternal "issued certificate repository not configured"))
  | Some _ =>
      (_ ← guard_not (rn_Serial req =s "") (New ErrCodeValidation "serial is required");
       record ← issued_by_serial (rn_CAID req) (rn_Serial req);
       result ← PKI_IssueCertificate env (renewal_request record (rn_TTL req));
       saved ← issued_by_serial (rn_CAID req) (ir_Serial result);
       _ ← save_issued (ic_renewed_from saved (ic_Serial record));
       mret (mkRenewResult (ic_Serial record) (ir_CertPEM result) (ir_PrivateKeyPEM result) (ir_Serial result) (ir_ExpiresAt result))) s
  end.

(** The loop of [RenewExpiring]: it ends at the first failure. *)
Fixpoint pki_renew_loop (envs : nat → PkiEnv) (i : nat) (renewed : Z) (expiring : list IssuedCertificate) : K (Z * option error) :=
  match expiring with
  | [] => mret (renewed, None)
  | cert :: expiring =>
      x ← attempt (RenewCertificate (envs i) (mkRenewRequest (ic_CAID cert) (ic_Serial cert) ""));
      match x with
      | Ok _ => pki_renew_loop envs (S i) (renewed + 1) expiring
      | Err e => mret (renewed, Some e)
      end
  end.

Definition PKI_RenewExpiring (now : Time) (grace : Duration) (limit : Z) (envs : nat → PkiEnv) : K (Z * option error) := λ s,
  match pk_issued s with
  | None => (s, Err (New ErrCodeInternal "issued certificate repository not configured"))
  | Some m => pki_renew_loop envs 0 0 (IssuedCertRepository_ListExpiring m (now + grace) limit) s
  end.

Definition ParseRenewGrace (raw : string) : res Duration := if raw =s "" then Ok (72 * Hour) else ParseTTL parse_duration raw.

(** ** ocsp.go *)

(** [now1], [now2] and [now3] are the readings of the clock. *)
Definition HandleOCSP (now1 now2 now3 : Time) (caID : UUID) (requestDER : bytes) : K bytes := λ s, (s,
  match pk_revoked s with
  | None => Err (New ErrCodeInternal "pki engine not fully configured")
  | Some r =>
      _ ← reject (bool_decide (requestDER = [])) (New ErrCodeValidation "ocsp request body is required");
      ca ← CARepository_GetByID (pk_cas s) caID;
      issuer ← parseCertificate (ca_CertPEM ca);
      serial ← match ocsp_ParseRequest requestDER with Ok n => Ok n | Err e => Err (Wrap ErrCodeValidation "invalid ocsp request" e) end;
      let revoked := RevocationRepository_IsRevoked r (Text16 serial) in
      caKey ← decryptKey (ca_PrivateKeyEnc ca) (ca_DEKEnc ca);
      signer ← parseSigner (string_of caKey);
      let template := mkOcspResponse (if revoked then OcspRevoked else OcspGood) serial now2 (now3 + 24 * Hour) (if revoked then now1 else 0) in
      wrap_internal "create ocsp response" (ocsp_CreateResponse issuer template signer)
  end).

Definition OCSPStatusName (status : ocsp_status) : string :=
  match status with OcspGood => "good" | OcspRevoked => "revoked" | OcspUnknown => "unknown" end.
End engine.

(** ** internal/service/pki.go *)

Record PKIService := mkPKIService { pv_engine : Pki; pv_audit : AuditSink }.

Section service.
Context `{Aead} `{X509} (k : KeyRing) (tenantMode : bool).
Abbreviation P := (prog PKIService).

Definition pki_call {A} (m : K A) : P A := zoom pv_engine (λ s t, mkPKIService t (pv_audit s)) m.
Definition pki_recorded {A} (subject : option string) (action resource : string) (details : list (string * any)) (m : K A) : P A := λ s,
  let '(s, x) := pki_call m s in (mkPKIService (pv_engine s) (audithelper_Record (pv_audit s) subject action resource x details), x).

Definition pr_scoped (role : PKIRole) (name ca : string) : PKIRole :=
  mkPKIRole name ca (pr_AllowedDomains role) (pr_MaxTTLSeconds role) (pr_KeyUsage role) (pr_AllowSubdomains role).

Definition SavePKIRole (cx : TenantCtx) (subject : option string) (role : PKIRole) : P unit :=
  name ← lift (scopeResourceName cx tenantMode (pr_Name role));
  ca ← lift (if pr_CAName role =s "" then Ok "" else scopeResourceName cx tenantMode (pr_CAName role));
  pki_recorded subject "pki.role.save" ("pki/roles/" +:+ name) [] (PKI_SaveRole (pr_scoped role name ca)).

Definition PKIService_CreateRoot (cx : TenantCtx) (subject : option string) (env : PkiEnv) (req : CreateRootRequest) : P CAResult :=
  name ← lift (scopeResourceName cx tenantMode (rr_Name req));
  pki_recorded subject "pki.root.create" ("pki/" +:+ name) []
    (PKI_CreateRoot k env (mkCreateRoot name (rr_CommonName req) (rr_TTL req) (rr_KeyBits req) (rr_AllowedDomains req) (rr_AllowSubdomains req))).

Definition PKIService_CreateIntermediate (cx : TenantCtx) (subject : option string) (env : PkiEnv) (req : CreateIntermediateRequest) : P CAResult :=
  name ← lift (scopeResourceName cx tenantMode (ri_Name req));
  parent ← lift (if ri_ParentName req =s "" then Ok "" else scopeResourceName cx tenantMode (ri_ParentName req));
  pki_recorded subject "pki.intermediate.create" ("pki/" +:+ name) []
    (PKI_CreateIntermediate k env
       (mkCreateIntermediate parent name (ri_CommonName req) (ri_TTL req) (ri_KeyBits req) (ri_AllowedDomains req) (ri_AllowSubdomains req))).

Definition PKIService_IssueCertificate (cx : TenantCtx) (subject : option string) (env : PkiEnv) (req : IssueRequest) : P IssueResult :=
  role ← lift (scopeResourceName cx tenantMode (iq_Role req));
  pki_recorded subject "pki.issue" ("pki/" +:+ role) [("common_name", VStr (iq_CommonName req))]
    (PKI_IssueCertificate k env (mkIssueRequest role (iq_CommonName req) (iq_DNSNames req) (iq_IPAddresses req) (iq_TTL req) (iq_KeyBits req)
                                   (iq_AutoRenew req) (iq_ForceKeyUsage req))).

Definition PKIService_SignCSR (cx : TenantCtx) (subject : option string) (env : PkiEnv) (req : SignCSRRequest) : P SignCSRResult :=
  role ← lift (scopeResourceName cx tenantMode (sg_Role req));
  pki_recorded subject "pki.sign" ("pki/" +:+ role) [] (PKI_SignCSR k env (mkSignCSR role (sg_CSRPEM req) (sg_TTL req))).

Definition PKIService_GetCA (id : UUID) : P CA := pki_call (PKI_GetCA id).

Definition PKIService_GetCAByName (cx : TenantCtx) (name : string) : P CA :=
  name ← lift (scopeResourceName cx tenantMode name);
  _ ← lift (assertTenantAccess cx tenantMode name);
  pki_call (PKI_GetCAByName name).

Definition PKIService_Revoke (subject : option string) (now : Time) (caID : UUID) (serial reason : string) : P unit :=
  pki_recorded subject "pki.revoke" ("pki/" +:+ serial) [("ca_id", VStr (uuid_String caID))] (PKI_Revoke now caID serial reason).

Definition PKIService_GenerateCRL (subject : option string) (now : Time) (rnd : Random) (caID : UUID) : P string :=
  pki_recorded subject "pki.crl.generate" ("pki/" +:+ uuid_String caID) [] (GenerateCRL k now rnd caID).

Definition PKIService_RenewCertificate (subject : option string) (env : PkiEnv) (req : RenewRequest) : P RenewResult :=
  pki_recorded subject "pki.renew" ("pki/" +:+ rn_Serial req) [("ca_id", VStr (uuid_String (rn_CAID req)))] (RenewCertificate k env req).

Definition PKIService_ImportCA (subject : option string) (env : PkiEnv) (req : ImportCARequest) : P CAResult :=
  pki_recorded subject "pki.ca.import" ("pki/" +:+ im_Name req) [] (ImportCA k env req).

Definition PKIService_ExportCA (subject : option string) (id : UUID) : P ExportCAResult :=
  pki_recorded subject "pki.ca.export" ("pki/" +:+ uuid_String id) [] (ExportCA id).

Definition PKIService_RotateCA (subject : option string) (env : PkiEnv) (id : UUID) : P CAResult :=
  pki_recorded subject "pki.ca.rotate" ("pki/" +:+ uuid_String id) [] (RotateCA k env id).

Definition PKIService_HandleOCSP (subject : option string) (now1 now2 now3 : Time) (caID : UUID) (requestDER : bytes) : P bytes :=
  pki_recorded subject "pki.ocsp" ("pki/ocsp/" +:+ uuid_String caID) [] (HandleOCSP k now1 now2 now3 caID requestDER).

Definition PKIService_RenewExpiring (subject : option string) (now : Time) (grace : Duration) (limit : Z) (envs : nat → PkiEnv) : P (Z * option error) :=
  x ← pki_call (PKI_RenewExpiring k now grace limit envs);
  _ ← when (match x.2 with None => 0 <? x.1 | Some _ => false end)
        (modify (λ s, mkPKIService (pv_engine s) (audithelper_Record (pv_audit s) subject "pki.renew.batch" "pki/renew" (Ok tt) [("count", VNum x.1)])));
  mret x.
End service.

(** ** What a certificate may say *)

Lemma for_each_checks {A} (p : A → bool) (err : A → error) xs : for_each (λ _ x, reject (negb (p x)) (err x)) tt xs = Ok tt ↔ Forall (λ x, p x = true) xs.
Proof.
  induction xs as [|x xs IH]; simpl; [split; done|]. rewrite Forall_cons, <-IH. destruct (p x); simpl; [|naive_solver]. naive_solver.
Qed.

(** A name within a role: any name for a role with a star, else an allowed
    domain or, when the role says so, a name below one. *)
Definition within_role (role : PKIRole) (name : string) : Prop :=
  ToLower (TrimSpace name) ≠ "" ∧
  (AllowsAnyDomain role = true ∨
   ∃ allowed, allowed ∈ pr_AllowedDomains role ∧ ToLower (TrimSpace allowed) ≠ "" ∧
     (ToLower (TrimSpace name) = ToLower (TrimSpace allowed) ∨
      (pr_AllowSubdomains role = true ∧ HasSuffix (ToLower (TrimSpace name)) ("." +:+ ToLower (TrimSpace allowed)) = true))).

Lemma AllowedDomain_within role name : AllowedDomain role name = true → within_role role name.
Proof.
  unfold AllowedDomain. case_bool_decide as Hn; [done|]. destruct (AllowsAnyDomain role) eqn:Ea; [intros _; split; [done|by left]|].
  intros (allowed & Hin & Ha)%existsb_exists. split; [done|]. right. exists allowed. split; [by apply list_elem_of_In|].
  destruct (ToLower (TrimSpace allowed) =s "") eqn:E1; [done|]. apply bool_decide_eq_false in E1. cbn [orb] in Ha.
  destruct (ToLower (TrimSpace allowed) =s "*"); [done|]. split; [done|]. apply orb_true_iff in Ha as [Ha|Ha].
  - left. by apply bool_decide_eq_true in Ha.
  - right. by apply andb_true_iff in Ha.
Qed.

Section issuing.
Context `{Aead} `{X509} (k : KeyRing).
Implicit Types (s : Pki).

Lemma get_ca_by_name_run name s s' ca : get_ca_by_name name s = (s', Ok ca) ↔ s' = s ∧ CARepository_GetByName (pk_cas s) name = Ok ca.
Proof. unfold get_ca_by_name. split; [by intros [= <- E]|by intros [-> ->]]. Qed.

Lemma resolve_run name s s' x : resolvePKIRole name s = (s', Ok x) → s' = s ∧
  (∀ roles, pk_roles s = Some roles → ∃ role, x = (pr_CAName role, Some role) ∧
     roles !! (if TrimSpace name =s "" then "root" else TrimSpace name) = Some role).
Proof.
  unfold resolvePKIRole. intros E. injection E as <- E. split; [done|]. intros roles Hr. rewrite Hr in E. cbv zeta in E.
  unfold PKIRoleRepository_Get, keyed_Get in E. destruct (roles !! _) as [role|]; [|done]. injection E as <-. by exists role.
Qed.

Lemma issue_ttl_bounds (role : option PKIRole) raw ttl : issue_ttl role raw = Ok ttl → ttl ≤ role_max_ttl role ∧ (0 < role_max_ttl role → 0 < ttl).
Proof.
  unfold issue_ttl. intros (t & Ht & E)%res_bind_ok.
  assert (Hpos : 0 < t).
  { destruct (raw =s ""); [injection Ht as <-; done|]. unfold parse_ttl in Ht. destruct (ParseTTL parse_duration raw) as [d|] eqn:Ep; [|done].
    injection Ht as <-. apply ParseTTL_bounds in Ep; lia. }
  destruct (Z.ltb_spec (role_max_ttl role) t).
  - destruct (raw =s ""); [|done]. injection E as <-. lia.
  - injection E as <-. lia.
Qed.

Lemma validateIssue_ok role req : validateIssueAgainstRole role req = Ok tt →
  (TrimSpace (iq_CommonName req) ≠ "" → within_role role (TrimSpace (iq_CommonName req))) ∧ Forall (within_role role) (iq_DNSNames req) ∧
  (iq_IPAddresses req ≠ [] → AllowsAnyDomain role = true).
Proof.
  unfold validateIssueAgainstRole. intros Hv. apply res_bind_unit_ok in Hv as [Hcn Hv]. apply reject_ok in Hcn.
  apply res_bind_unit_ok in Hv as [Hdns Hv]. apply for_each_checks in Hdns. apply res_bind_unit_ok in Hv as [Hip _]. apply reject_ok in Hip.
  split_and!.
  - intros Hne. rewrite (bool_decide_eq_false_2 _ Hne) in Hcn. simpl in Hcn. apply negb_false_iff in Hcn. by apply AllowedDomain_within.
  - eapply Forall_impl; [exact Hdns|]. intros x Hx. by apply AllowedDomain_within.
  - intros Hne. rewrite (bool_decide_eq_true_2 _ Hne) in Hip. simpl in Hip. by apply negb_false_iff in Hip.
Qed.

(** What the backend was asked to sign when a request succeeds. *)
Lemma pki_issue_run env req s s' r : PKI_IssueCertificate k env req s = (s', Ok r) →
  ∃ caName role ca ttl caKey usage keyPEM,
    (∀ roles, pk_roles s = Some roles → ∃ role0, role = Some role0 ∧ caName = pr_CAName role0 ∧
       roles !! (if TrimSpace (iq_Role req) =s "" then "root" else TrimSpace (iq_Role req)) = Some role0) ∧
    CARepository_GetByName (pk_cas s) caName = Ok ca ∧ ir_CAID r = ca_ID ca ∧
    match role with Some role0 => validateIssueAgainstRole role0 req = Ok tt | None => True end ∧
    issue_ttl role (iq_TTL req) = Ok ttl ∧ decryptKey k (ca_PrivateKeyEnc ca) (ca_DEKEnc ca) = Ok caKey ∧ issue_usage role (iq_ForceKeyUsage req) = Ok usage ∧
    Backend_IssueCertificate (pe_random env)
      (mkLeafRequest (ca_CertPEM ca) caKey (iq_CommonName req) (iq_DNSNames req) (iq_IPAddresses req) ttl (iq_KeyBits req) usage)
      = Ok (ir_CertPEM r, keyPEM) ∧
    ir_PrivateKeyPEM r = string_of keyPEM ∧ parseCertMetadata (ir_CertPEM r) = Ok (ir_Serial r, ir_ExpiresAt r) ∧
    (check_not_revoked (ir_Serial r) s).2 = Ok tt ∧ save_issued (issued_record env ca req (ir_Serial r) ttl (ir_ExpiresAt r)) s = (s', Ok tt).
Proof.
  unfold PKI_IssueCertificate. intros Hi. apply prog_bind_run in Hi as (s0 & [caName role] & Hres & Hi). apply resolve_run in Hres as [-> Hres]. inv_run.
  match goal with Hx : get_ca_by_name _ _ = _ |- _ => apply get_ca_by_name_run in Hx as [-> Hca] end.
  match goal with Hx : wrap_internal _ _ = Ok ?ck |- _ => apply wrap_internal_ok in Hx; destruct ck as [certPEM keyPEM] end. inv_run.
  match goal with Hx : parseCertMetadata _ = Ok ?se |- _ => destruct se as [serial exp] end.
  match goal with Hx : check_not_revoked _ _ = _ |- _ => unfold check_not_revoked in Hx; injection Hx as <- Hnr end.
  match goal with Hx : save_issued _ _ = (_, Ok ?u) |- _ => destruct u end.
  eexists caName, role, _, _, _, _, keyPEM. cbn [ir_CAID ir_CertPEM ir_PrivateKeyPEM ir_Serial ir_ExpiresAt fst snd] in *.
  split_and!; try done.
  - intros roles Hr. destruct (Hres roles Hr) as (role0 & [= -> ->] & Hl). by exists role0.
  - destruct role; [|done]. by match goal with Hx : validateIssueAgainstRole _ _ = Ok ?u |- _ => destruct u end.
  - unfold check_not_revoked. simpl. by match goal with u : unit |- _ => destruct u end.
Qed.

(** C22. Certificates stay within their role. With roles configured, a certificate is
    issued only for a stored role, signed with the key of that role's CA; its
    common name and DNS names are within the role, it has IP addresses only if
    the role is unconstrained, its lifetime is at most the role's maximum, and
    its serial number is not a revoked one. *)
Theorem issued_within_role env req s s' r roles : pk_roles s = Some roles → PKI_IssueCertificate k env req s = (s', Ok r) →
  ∃ role ca caKey ttl usage keyPEM,
    roles !! (if TrimSpace (iq_Role req) =s "" then "root" else TrimSpace (iq_Role req)) = Some role ∧
    CARepository_GetByName (pk_cas s) (pr_CAName role) = Ok ca ∧ ir_CAID r = ca_ID ca ∧
    decryptKey k (ca_PrivateKeyEnc ca) (ca_DEKEnc ca) = Ok caKey ∧
    Backend_IssueCertificate (pe_random env)
      (mkLeafRequest (ca_CertPEM ca) caKey (iq_CommonName req) (iq_DNSNames req) (iq_IPAddresses req) ttl (iq_KeyBits req) usage)
      = Ok (ir_CertPEM r, keyPEM) ∧
    (TrimSpace (iq_CommonName req) ≠ "" → within_role role (TrimSpace (iq_CommonName req))) ∧ Forall (within_role role) (iq_DNSNames req) ∧
    (iq_IPAddresses req ≠ [] → AllowsAnyDomain role = true) ∧
    ttl ≤ role_max_ttl (Some role) ∧ (0 < role_max_ttl (Some role) → 0 < ttl) ∧
    (pr_KeyUsage role = RoleUsageServer → usage = RoleUsageServer) ∧
    (∀ rev, pk_revoked s = Some rev → RevocationRepository_IsRevoked rev (ir_Serial r) = false).
Proof.
  intros Hr (caName & role & ca & ttl & caKey & usage & keyPEM & Hrole & Hca & Hid & Hv & Httl & Hkey & Hus & Hback & _ & _ & Hnr & _)%pki_issue_run.
  destruct (Hrole roles Hr) as (role0 & -> & -> & Hl). destruct (validateIssue_ok _ _ Hv) as (Hcn & Hdns & Hip). destruct (issue_ttl_bounds _ _ _ Httl) as [Hmax Hpos].
  exists role0, ca, caKey, ttl, usage, keyPEM. split_and!; try done.
  - intros Hu. unfold issue_usage, role_usage in Hus. destruct (iq_ForceKeyUsage req =s "").
    + rewrite Hu in Hus. by injection Hus as <-.
    + apply res_bind_unit_ok in Hus as [Hrej E]. injection E as <-. apply reject_ok in Hrej. rewrite (bool_decide_eq_true_2 _ Hu) in Hrej. simpl in Hrej.
      apply negb_false_iff in Hrej. by apply bool_decide_eq_true in Hrej.
  - intros rev Hrev. unfold check_not_revoked in Hnr. cbn [snd] in Hnr. rewrite Hrev in Hnr. by apply reject_ok in Hnr.
Qed.

(** Signing requests are held to the same rules: every name of the request is
    within the role, there is at least one name and no address, mail address or
    URI unless the role is unconstrained, and the lifetime is within its
    maximum. *)
Theorem signed_within_role env req s s' r roles : pk_roles s = Some roles → PKI_SignCSR k env req s = (s', Ok r) →
  ∃ role ca caKey ttl block csr,
    roles !! (if TrimSpace (sg_Role req) =s "" then "root" else TrimSpace (sg_Role req)) = Some role ∧
    CARepository_GetByName (pk_cas s) (pr_CAName role) = Ok ca ∧ decryptKey k (ca_PrivateKeyEnc ca) (ca_DEKEnc ca) = Ok caKey ∧
    Backend_SignCSR (pe_random env) (mkBackendCSR (sg_CSRPEM req) (ca_CertPEM ca) caKey ttl (role_usage (Some role))) = Ok (sr_CertPEM r) ∧
    pem_Decode (sg_CSRPEM req) = Some block ∧ ParseCertificateRequest block = Ok csr ∧ is_Ok (CheckSignature block) ∧
    Forall (within_role role) (csr_names csr) ∧
    (AllowsAnyDomain role = false → csr_names csr ≠ [] ∧ csr_IPAddresses csr = [] ∧ csr_EmailAddresses csr = [] ∧ csr_URIs csr = []) ∧
    ttl ≤ role_max_ttl (Some role) ∧ s' = s.
Proof.
  intros Hr Hs. unfold PKI_SignCSR in Hs. apply prog_bind_run in Hs as (s0 & [] & Hg & Hs). apply guard_not_run in Hg as [_ ->].
  apply prog_bind_run in Hs as (s0 & [caName role] & Hres & Hs). apply resolve_run in Hres as [-> Hres].
  destruct (Hres roles Hr) as (role0 & [= -> ->] & Hl). inv_run.
  match goal with Hx : get_ca_by_name _ _ = _ |- _ => apply get_ca_by_name_run in Hx as [-> Hca] end.
  match goal with Hx : wrap_internal _ _ = Ok _ |- _ => apply wrap_internal_ok in Hx end.
  match goal with Hx : validateCSRAgainstRole _ _ _ = Ok ?u |- _ => destruct u; rename Hx into Hv end.
  unfold validateCSRAgainstRole in Hv. apply res_bind_ok in Hv as (block & Hb & Hv). apply res_bind_ok in Hv as (csr & Hc & Hv).
  apply res_bind_unit_ok in Hv as [Hsig Hv]. destruct (pem_Decode (sg_CSRPEM req)) as [b|] eqn:Eb; [injection Hb as ->|done].
  destruct (ParseCertificateRequest block) as [c|] eqn:Ec; [injection Hc as ->|done]. destruct (CheckSignature block) as [u|] eqn:Es; [|done].
  apply res_bind_unit_ok in Hv as [Hip Hv]. apply res_bind_unit_ok in Hv as [Hem Hv]. apply res_bind_unit_ok in Hv as [Hur Hv].
  apply res_bind_unit_ok in Hv as [Hnn Hv]. apply res_bind_unit_ok in Hv as [Hall _]. apply for_each_checks in Hall.
  apply reject_ok in Hip, Hem, Hur, Hnn. bool_props. eexists role0, _, _, _, block, csr. split_and!; try done.
  - by exists u.
  - eapply Forall_impl; [exact Hall|]. intros x Hx. by apply AllowedDomain_within.
  - intros Ho. rewrite Ho in Hip, Hem, Hur, Hnn. cbn [negb andb] in *. rewrite andb_true_r in Hip, Hem, Hur.
    apply bool_decide_eq_false in Hip, Hem, Hur, Hnn. split_and!; [done|..]; by apply dec_stable.
Qed.

(** An imported CA is usable: its stored key decrypts to a key of at least 2048
    bits that belongs to the certificate. *)
Theorem imported_key_matches env req s s' r : seals k (pe_seal env) → ImportCA k env req s = (s', Ok r) →
  ∃ ca cert signer, pk_cas s' = <[cz_ID r := ca]> (pk_cas s) ∧ ca_Name ca = im_Name req ∧
    (key ← decryptKey k (ca_PrivateKeyEnc ca) (ca_DEKEnc ca); parseSigner (string_of key)) = Ok signer ∧
    parseCertificate (ca_CertPEM ca) = Ok cert ∧ (∃ bits, rsa_BitLen signer = Some bits ∧ MinRSAKeyBits ≤ bits) ∧
    match key_Equal cert.2 with
    | Some equal => equal (Public signer) = true
    | None => MarshalPKIXPublicKey cert.2 = MarshalPKIXPublicKey (Public signer)
    end.
Proof.
  intros Hse Hi. unfold ImportCA in Hi. inv_run.
  match goal with Hx : match parseCertMetadata _ with _ => _ end = Ok ?se |- _ =>
    destruct (parseCertMetadata (im_CertPEM req)) as [se0|] eqn:Hmeta; [injection Hx as <-|done] end.
  match goal with Hx : match verifyCertKeyMatch _ _ with _ => _ end = Ok _ |- _ =>
    destruct (verifyCertKeyMatch (im_CertPEM req) (im_KeyPEM req)) as [u1|] eqn:Hmatch; [clear Hx|done] end.
  match goal with Hx : match validateImportedKeyStrength _ with _ => _ end = Ok _ |- _ =>
    destruct (validateImportedKeyStrength (im_KeyPEM req)) as [u2|] eqn:Hstr; [clear Hx|done] end.
  match goal with Hx : wrap_internal _ (Seal _ _ _) = Ok ?ce |- _ => apply wrap_internal_ok in Hx; destruct ce as [c enc]; rename Hx into Hsl end.
  match goal with Hx : (if im_ParentName req =s "" then _ else _) ?a = (?b, Ok ?p) |- _ =>
    assert (b = a) as -> by (destruct (im_ParentName req =s ""); [by injection Hx as <-|]; apply prog_bind_run in Hx as (t & q & Hg & Hx);
      apply get_ca_by_name_run in Hg as [-> _]; by injection Hx as <-) end.
  match goal with Hx : put_ca ?ca _ = _ |- _ => unfold put_ca in Hx; destruct (CARepository_Save _ ca) as [m|] eqn:Hsave; [|done]; injection Hx as <-;
    exists ca end.
  unfold verifyCertKeyMatch in Hmatch. apply res_bind_ok in Hmatch as (cert & Hcert & Hmatch). apply res_bind_ok in Hmatch as (signer & Hsg & Hmatch).
  unfold validateImportedKeyStrength in Hstr. rewrite Hsg in Hstr. cbn in Hstr. exists cert, signer. split_and!.
  - cbn. unfold CARepository_Save in Hsave. destruct (CA_Validate _); [|done]. destruct (existsb _ _); [done|]. by injection Hsave as <-.
  - done.
  - unfold decryptKey. cbn [ca_PrivateKeyEnc ca_DEKEnc fst snd]. rewrite (Hse _ _ _ Hsl). cbn. by rewrite string_of_bytes.
  - done.
  - destruct (rsa_BitLen signer) as [bits|]; [|done]. exists bits. split; [done|]. destruct u2. apply reject_ok in Hstr. by apply Z.ltb_ge in Hstr.
  - destruct (key_Equal cert.2) as [equal|].
    + destruct u1. apply reject_ok in Hmatch. by apply negb_false_iff in Hmatch.
    + apply res_bind_ok in Hmatch as (want & Hw & Hmatch). apply res_bind_ok in Hmatch as (got & Hg & Hmatch). destruct u1. apply reject_ok in Hmatch.
      apply negb_false_iff, bool_decide_eq_true in Hmatch as <-. by rewrite Hw, Hg.
Qed.
End issuing.

(** ** Revocation and renewal *)

Section renewal.
Context `{Aead} `{X509} (k : KeyRing).
Implicit Types (s : Pki) (rev : RevocationRepository).

Lemma revoke_keeps_other rev c serial : serial ≠ rv_Serial c →
  RevocationRepository_IsRevoked (RevocationRepository_Revoke rev c) serial = RevocationRepository_IsRevoked rev serial.
Proof.
  intros Hne. unfold RevocationRepository_IsRevoked, RevocationRepository_Revoke. destruct (rev_serial rev !! rv_Serial c); [done|]. cbn.
  by rewrite lookup_insert_ne by done.
Qed.

Lemma save_issued_set_revoked c s s1 rev : save_issued c s = (s1, Ok tt) → save_issued c (set_revoked s rev) = (set_revoked s1 rev, Ok tt).
Proof.
  unfold save_issued. cbn [set_revoked pk_issued]. destruct (pk_issued s) as [m|]; [destruct (IssuedCertRepository_Save m c); [|done]|]; by intros [= <-].
Qed.

(** Issuing does not look at revocations other than that of the new serial. *)
Lemma issue_revocation_free env req s s1 r rev : PKI_IssueCertificate k env req s = (s1, Ok r) →
  RevocationRepository_IsRevoked rev (ir_Serial r) = false →
  PKI_IssueCertificate k env req (set_revoked s rev) = (set_revoked s1 rev, Ok r).
Proof.
  unfold PKI_IssueCertificate. intros (t1 & [caName role] & Hres & Hi)%prog_bind_run Hnr.
  assert (t1 = s ∧ resolvePKIRole (iq_Role req) (set_revoked s rev) = (set_revoked s rev, Ok (caName, role))) as [-> Hres'].
  { unfold resolvePKIRole in *. injection Hres as <- Hres. split; [done|]. cbn [set_revoked pk_roles]. by rewrite Hres. }
  rewrite (prog_bind_ok _ _ _ _ _ Hres'). apply prog_bind_run in Hi as (t2 & ca & [-> Hca]%get_ca_by_name_run & Hi).
  assert (Hca' : get_ca_by_name caName (set_revoked s rev) = (set_revoked s rev, Ok ca)) by by apply get_ca_by_name_run.
  rewrite (prog_bind_ok _ _ _ _ _ Hca').
  do 5 (let x := fresh "x" in apply prog_bind_run in Hi as (? & x & Hx & Hi); injection Hx as <- Hx;
        unfold mbind at 1, prog_bind at 1, lift at 1; rewrite Hx; clear Hx).
  match goal with H : match ?x with _ => _ end s = _ |- _ => destruct x as [certPEM keyPEM] end.
  apply prog_bind_run in Hi as (? & se & Hx & Hi). injection Hx as <- Hx. unfold mbind at 1, prog_bind at 1, lift at 1. rewrite Hx. clear Hx.
  apply prog_bind_run in Hi as (? & ? & Hx & Hi). injection Hx as <- _. apply prog_bind_run in Hi as (t3 & [] & Hsv & Hi).
  injection Hi as -> <-. cbn [ir_Serial] in Hnr.
  rewrite (prog_bind_ok _ _ _ (set_revoked s rev) tt); [|unfold check_not_revoked; cbn [set_revoked pk_revoked]; by rewrite Hnr].
  by rewrite (prog_bind_ok _ _ _ _ _ (save_issued_set_revoked _ _ _ rev Hsv)).
Qed.

(** Revoking a certificate does not stop its renewal: a renewal that would have
    succeeded before the revocation gives the same new certificate after it. *)
Theorem revoked_certificate_renews env req s s1 r now reason s2 :
  RenewCertificate k env req s = (s1, Ok r) → PKI_Revoke now (rn_CAID req) (rn_Serial req) reason s = (s2, Ok tt) → rw_Serial r ≠ rn_Serial req →
  (RenewCertificate k env req s2).2 = Ok r.
Proof.
  intros Hn Hrev Hne. unfold PKI_Revoke in Hrev. destruct (pk_revoked s) as [rev|] eqn:Er; [|done]. destruct (rn_Serial req =s "") eqn:Es; [done|].
  injection Hrev as <-. set (rev' := RevocationRepository_Revoke _ _). unfold RenewCertificate in *.
  change (pk_issued (set_revoked s rev')) with (pk_issued s). destruct (pk_issued s) as [m|]; [|done].
  apply prog_bind_run in Hn as (t & [] & [_ ->]%guard_not_run & Hn). rewrite (prog_bind_ok _ _ _ (set_revoked s rev') tt); [|unfold guard_not, lift; by rewrite Es].
  apply prog_bind_run in Hn as (t & record & Hx & Hn). injection Hx as <- Hrec.
  rewrite (prog_bind_ok _ _ _ (set_revoked s rev') record); [|unfold issued_by_serial; cbn [set_revoked pk_issued]; by rewrite Hrec].
  apply prog_bind_run in Hn as (s3 & result & Hissue & Hn). apply prog_bind_run in Hn as (t & saved & Hx & Hn). injection Hx as <- Hsaved.
  apply prog_bind_run in Hn as (t & [] & Hsv & Hn). injection Hn as -> <-.
  assert (Hnr : RevocationRepository_IsRevoked rev' (ir_Serial result) = false).
  { unfold rev'. rewrite revoke_keeps_other by done.
    destruct (pki_issue_run k _ _ _ _ _ Hissue) as (? & ? & ? & ? & ? & ? & ? & _ & _ & _ & _ & _ & _ & _ & _ & _ & _ & Hc & _).
    unfold check_not_revoked in Hc. cbn in Hc. rewrite Er in Hc. by apply reject_ok in Hc. }
  rewrite (prog_bind_ok _ _ _ _ _ (issue_revocation_free _ _ _ _ _ _ Hissue Hnr)).
  rewrite (prog_bind_ok _ _ _ (set_revoked s3 rev') saved); [|unfold issued_by_serial; cbn [set_revoked pk_issued]; by rewrite Hsaved].
  by rewrite (prog_bind_ok _ _ _ _ _ (save_issued_set_revoked _ _ _ rev' Hsv)).
Qed.

End renewal.

(** ** The engine's invariant *)

(** Each table is well formed: CAs are stored under their identifiers with
    distinct names, roles are valid and under their names, certificates are
    under their CA and serial, and the two indexes of the revocations agree. *)
Record pki_wf (s : Pki) : Prop := {
  pkwf_cas : ca_wf (pk_cas s);
  pkwf_roles : ∀ roles, pk_roles s = Some roles → keyed_wf roles;
  pkwf_revoked : ∀ rev, pk_revoked s = Some rev → revocations_wf rev;
  pkwf_issued : ∀ m ca serial c, pk_issued s = Some m → m !! certKey ca serial = Some c → ic_CAID c = ca ∧ ic_Serial c = serial;
}.

(** What the three writes do to the state, every operation but [PKI_SaveRole] and
    [PKI_Revoke] does. *)
Section walk.
Context `{Aead} `{X509} (k : KeyRing) (R : relation Pki) `{!PreOrder R}.
Hypothesis R_put_ca : ∀ c, always R (put_ca c).
Hypothesis R_ensureDefaultRole : ∀ name domains subdomains, always R (ensureDefaultRole name domains subdomains).
Hypothesis R_save_issued : ∀ c, always R (save_issued c).

Lemma always_get_ca id : always R (get_ca id).
Proof. by apply always_pure. Qed.
Lemma always_get_ca_by_name name : always R (get_ca_by_name name).
Proof. by apply always_pure. Qed.
Lemma always_resolvePKIRole name : always R (resolvePKIRole name).
Proof. by apply always_pure. Qed.
Lemma always_check_not_revoked serial : always R (check_not_revoked serial).
Proof. by apply always_pure. Qed.
Lemma always_issued_by_serial ca serial : always R (issued_by_serial ca serial).
Proof. by apply always_pure. Qed.
#[local] Hint Resolve R_put_ca R_ensureDefaultRole R_save_issued always_get_ca always_get_ca_by_name always_resolvePKIRole always_check_not_revoked
  always_issued_by_serial : prog.

Lemma always_PKI_CreateRoot env req : always R (PKI_CreateRoot k env req).
Proof. unfold PKI_CreateRoot. walk_prog. Qed.
Lemma always_PKI_CreateIntermediate env req : always R (PKI_CreateIntermediate k env req).
Proof. unfold PKI_CreateIntermediate. walk_prog. Qed.
Lemma always_PKI_IssueCertificate env req : always R (PKI_IssueCertificate k env req).
Proof. unfold PKI_IssueCertificate. walk_prog. Qed.
Lemma always_ImportCA env req : always R (ImportCA k env req).
Proof. unfold ImportCA. walk_prog. Qed.
#[local] Hint Resolve always_PKI_CreateRoot always_PKI_CreateIntermediate always_PKI_IssueCertificate : prog.

Lemma always_RotateCA env id : always R (RotateCA k env id).
Proof. unfold RotateCA. walk_prog. Qed.

Lemma always_RenewCertificate env req : always R (RenewCertificate k env req).
Proof.
  intros s. unfold RenewCertificate. destruct (pk_issued s); [|done].
  match goal with |- R s ((?m s).1) => apply (always_run R m s _ (m s).2); [|by destruct (m s)] end. walk_prog.
Qed.
#[local] Hint Resolve always_RenewCertificate : prog.

Lemma always_pki_renew_loop envs expiring : ∀ i n, always R (pki_renew_loop k envs i n expiring).
Proof. induction expiring as [|c expiring IH]; intros i n; simpl; walk_prog. Qed.

Lemma always_PKI_RenewExpiring now grace limit envs : always R (PKI_RenewExpiring k now grace limit envs).
Proof. intros s. unfold PKI_RenewExpiring. destruct (pk_issued s); [|done]. apply always_pki_renew_loop. Qed.
End walk.

(** The requests that change the engine's state. *)
Inductive pki_op `{X509} :=
  | OpCreateRoot (env : PkiEnv) (req : CreateRootRequest)
  | OpCreateIntermediate (env : PkiEnv) (req : CreateIntermediateRequest)
  | OpIssue (env : PkiEnv) (req : IssueRequest)
  | OpImport (env : PkiEnv) (req : ImportCARequest)
  | OpRotate (env : PkiEnv) (id : UUID)
  | OpSaveRole (role : PKIRole)
  | OpRevoke (now : Time) (ca : UUID) (serial reason : string)
  | OpRenew (env : PkiEnv) (req : RenewRequest)
  | OpRenewExpiring (now : Time) (grace : Duration) (limit : Z) (envs : nat → PkiEnv).

Section invariant.
Context `{Aead} `{X509} (k : KeyRing).

Definition pki_step (o : pki_op) (s : Pki) : Pki :=
  match o with
  | OpCreateRoot env req => (PKI_CreateRoot k env req s).1
  | OpCreateIntermediate env req => (PKI_CreateIntermediate k env req s).1
  | OpIssue env req => (PKI_IssueCertificate k env req s).1
  | OpImport env req => (ImportCA k env req s).1
  | OpRotate env id => (RotateCA k env id s).1
  | OpSaveRole role => (PKI_SaveRole role s).1
  | OpRevoke now ca serial reason => (PKI_Revoke now ca serial reason s).1
  | OpRenew env req => (RenewCertificate k env req s).1
  | OpRenewExpiring now grace limit envs => (PKI_RenewExpiring k now grace limit envs s).1
  end.
Definition pki_run (ops : list pki_op) (s : Pki) : Pki := foldl (λ s o, pki_step o s) s ops.

Lemma pki_run_always (R : relation Pki) `{!PreOrder R} ops s :
  (∀ c, always R (put_ca c)) → (∀ name domains subdomains, always R (ensureDefaultRole name domains subdomains)) → (∀ c, always R (save_issued c)) →
  (∀ role, always R (PKI_SaveRole role)) → (∀ now ca serial reason, always R (PKI_Revoke now ca serial reason)) → R s (pki_run ops s).
Proof.
  intros H1 H2 H3 H4 H5. revert s. induction ops as [|o ops IH]; intros s; [done|]. cbn [pki_run foldl]. etrans; [|apply IH].
  destruct o; cbn [pki_step]; [by apply always_PKI_CreateRoot|by apply always_PKI_CreateIntermediate|by apply always_PKI_IssueCertificate|
    by apply always_ImportCA|by apply always_RotateCA|apply H4|apply H5|by apply always_RenewCertificate|by apply always_PKI_RenewExpiring].
Qed.

Lemma preserves_put_ca c : preserves pki_wf (put_ca c).
Proof.
  intros s Hw. pose proof Hw as [Hc Hr Hv Hi]. unfold put_ca. destruct (CARepository_Save (pk_cas s) c) as [m|] eqn:E; [|done]. split; [|done..].
  by apply (CARepository_Save_wf _ _ _ Hc E).
Qed.

Lemma preserves_ensureDefaultRole n d b : preserves pki_wf (ensureDefaultRole n d b).
Proof.
  intros s Hw. pose proof Hw as [Hc Hr Hv Hi]. unfold ensureDefaultRole. destruct (pk_roles s) as [roles|] eqn:E; [|done]. destruct (n =s ""); [done|].
  destruct (PKIRoleRepository_Get roles n); [done|]. destruct (PKIRoleRepository_Save roles _) as [roles'|] eqn:Es; [|done]. split; [done| |done..].
  intros ? [= <-]. eapply keyed_Save_wf; [by apply Hr|exact Es].
Qed.

Lemma preserves_PKI_SaveRole role : preserves pki_wf (PKI_SaveRole role).
Proof.
  intros s Hw. pose proof Hw as [Hc Hr Hv Hi]. unfold PKI_SaveRole. destruct (pk_roles s) as [roles|] eqn:E; [|done]. destruct (PKIRole_Validate role); [|done].
  destruct (PKIRoleRepository_Save roles _) as [roles'|] eqn:Es; [|done]. split; [done| |done..].
  intros ? [= <-]. eapply keyed_Save_wf; [by apply Hr|exact Es].
Qed.

Lemma preserves_save_issued c : preserves pki_wf (save_issued c).
Proof.
  intros s Hw. pose proof Hw as [Hc Hr Hv Hi]. unfold save_issued. destruct (pk_issued s) as [m|] eqn:E; [|done].
  destruct (IssuedCertRepository_Save m c) as [m'|] eqn:Es; [|done]. split; [done..|]. intros ? ca serial c' [= <-].
  unfold IssuedCertRepository_Save in Es. destruct (IssuedCertificate_Validate c); [|done]. injection Es as <-.
  intros [[[= <- <-] <-]|[_ Hl]]%lookup_insert_Some; [done|]. by apply (Hi m).
Qed.

Lemma preserves_PKI_Revoke now ca serial reason : preserves pki_wf (PKI_Revoke now ca serial reason).
Proof.
  intros s Hw. pose proof Hw as [Hc Hr Hv Hi]. unfold PKI_Revoke. destruct (pk_revoked s) as [rev|] eqn:E; [|done]. destruct (serial =s ""); [done|]. split; [done..| |done].
  intros ? [= <-]. by apply revocations_wf_revoke, Hv.
Qed.

Lemma pki_run_wf ops s : pki_wf s → pki_wf (pki_run ops s).
Proof.
  apply (pki_run_always (implies pki_wf)); [exact preserves_put_ca|exact preserves_ensureDefaultRole|exact preserves_save_issued|exact preserves_PKI_SaveRole|
    exact preserves_PKI_Revoke].
Qed.

Lemma save_issued_lookup c s s' m ca serial : pk_issued s = Some m → save_issued c s = (s', Ok tt) → certKey (ic_CAID c) (ic_Serial c) ≠ certKey ca serial →
  ∃ m', pk_issued s' = Some m' ∧ m' !! certKey ca serial = m !! certKey ca serial.
Proof.
  intros Em Hs Hne. unfold save_issued, IssuedCertRepository_Save in Hs. rewrite Em in Hs. destruct (IssuedCertificate_Validate c); [|done].
  injection Hs as <-. eexists. split; [done|]. by rewrite lookup_insert_ne.
Qed.

Lemma ListExpiring_all m before limit c : ic_AutoRenew c = true → ic_ExpiresAt c ≤ before → (size m ≤ effective_limit limit)%nat →
  (∃ key, m !! key = Some c) → c ∈ IssuedCertRepository_ListExpiring m before limit.
Proof.
  intros Ha He Hsz Hc. unfold IssuedCertRepository_ListExpiring. rewrite take_ge.
  - rewrite elem_of_sort_by_Z, list_elem_of_filter. split; [|by apply elem_of_map_values]. split; [done|]. apply Z.ltb_ge. lia.
  - rewrite sort_by_Z_perm. etrans; [apply length_filter|]. rewrite length_fmap. by rewrite length_map_to_list.
Qed.

(** A renewed certificate stays due. Renewing writes a new record and leaves the
    old one as it is, still marked for renewal, so the next run of the job
    finds it again, however often it has been renewed. *)
Theorem renewed_certificate_stays_due env req s s1 r m record : pki_wf s →
  pk_issued s = Some m → m !! certKey (rn_CAID req) (rn_Serial req) = Some record →
  RenewCertificate k env req s = (s1, Ok r) → rw_Serial r ≠ rn_Serial req →
  ∃ m', pk_issued s1 = Some m' ∧ m' !! certKey (rn_CAID req) (rn_Serial req) = Some record ∧
    ∀ before limit, ic_AutoRenew record = true → ic_ExpiresAt record ≤ before → (size m' ≤ effective_limit limit)%nat →
      record ∈ IssuedCertRepository_ListExpiring m' before limit.
Proof.
  intros Hwf Em Hrec Hn Hne. unfold RenewCertificate in Hn. rewrite Em in Hn. apply prog_bind_run in Hn as (t & [] & [_ ->]%guard_not_run & Hn).
  apply prog_bind_run in Hn as (t & rec' & Hx & Hn). injection Hx as <- Hx.
  apply prog_bind_run in Hn as (s3 & result & Hissue & Hn). apply prog_bind_run in Hn as (t & saved & Hy & Hn). injection Hy as <- Hsaved.
  apply prog_bind_run in Hn as (t & [] & Hsv & Hn). injection Hn as -> <-. cbn [rw_Serial] in Hne.
  assert (Hwf3 : pki_wf s3) by
    (apply (f_equal fst) in Hissue; cbn [fst] in Hissue; rewrite <-Hissue; exact (pki_run_wf [OpIssue _ _] _ Hwf)).
  destruct (pki_issue_run k _ _ _ _ _ Hissue) as (? & ? & ca & ? & ? & ? & ? & _ & _ & _ & _ & _ & _ & _ & _ & _ & _ & _ & Hs3).
  destruct (save_issued_lookup _ _ _ m (rn_CAID req) (rn_Serial req) Em Hs3) as (m3 & Em3 & Hl3); [intros [= _ E]; by apply Hne|].
  rewrite Em3 in Hsaved. unfold IssuedCertRepository_GetBySerial in Hsaved.
  destruct (m3 !! certKey (rn_CAID req) (ir_Serial result)) as [c|] eqn:Ec; [injection Hsaved as ->|done].
  destruct (pkwf_issued _ Hwf3 _ _ _ _ Em3 Ec) as [Hca Hser].
  destruct (save_issued_lookup _ _ _ m3 (rn_CAID req) (rn_Serial req) Em3 Hsv) as (m4 & Em4 & Hl4); [cbn; intros [= _ E]; apply Hne; congruence|].
  exists m4. split; [done|]. rewrite Hl4, Hl3. split; [done|]. intros before limit Ha He Hsz. apply ListExpiring_all; [done..|].
  exists (certKey (rn_CAID req) (rn_Serial req)). by rewrite Hl4, Hl3.
Qed.
End invariant.

(** ** Revocations are final and published *)

Lemma hex_digit_val n : 0 ≤ n < 16 → hex_val (hex_digit n) = Some n.
Proof.
  intros Hn. rewrite <-(Z2Nat.id n) by lia. assert (Hm : (Z.to_nat n < 16)%nat) by lia. generalize dependent (Z.to_nat n). intros m Hm.
  do 16 (destruct m as [|m]; [reflexivity|]). lia.
Qed.

Lemma hex_parse_snoc acc s c : hex_parse acc (s +:+ String c "") = n ← hex_parse acc s; d ← hex_val c; Some (n * 16 + d).
Proof. revert acc. induction s as [|c' s IH]; intros acc; simpl; [done|]. destruct (hex_val c'); [|done]. simpl. apply IH. Qed.

Lemma hex_digits_parse fuel : ∀ n rest, 0 ≤ n < 16 ^ Z.of_nat fuel → fuel ≠ O →
  ∃ c text, hex_digits fuel n rest = String c text +:+ rest ∧ hex_parse 0 (String c text) = Some n.
Proof.
  induction fuel as [|fuel IH]; intros n rest Hn Hf; [done|]. cbn [hex_digits]. assert (Hd := Z.mod_pos_bound n 16 ltac:(lia)).
  destruct (Z.ltb_spec n 16) as [Hlt|Hge].
  - exists (hex_digit (n mod 16)), "". split; [done|]. cbn [hex_parse]. rewrite hex_digit_val by done. simpl. f_equal. rewrite Z.mod_small; lia.
  - rewrite Nat2Z.inj_succ, Z.pow_succ_r in Hn by lia. assert (Hq : 1 ≤ n / 16 < 16 ^ Z.of_nat fuel) by (split; [apply Z.div_le_lower_bound|apply Z.div_lt_upper_bound]; lia).
    destruct (IH (n / 16) (String (hex_digit (n mod 16)) rest)) as (c & text & -> & Hp); [lia|intros ->; simpl in Hq; lia|].
    exists c, (text +:+ String (hex_digit (n mod 16)) ""). split; [cbn; by rewrite str_app_assoc|].
    change (String c (text +:+ ?x)) with (String c text +:+ x). rewrite hex_parse_snoc, Hp. cbn [mbind option_bind]. rewrite hex_digit_val by done.
    simpl. f_equal. rewrite (Z.div_mod n 16) at 3 by lia. lia.
Qed.

(** A serial number is read back from its text. *)
Lemma SetString16_Text16 n : 0 ≤ n → SetString16 (Text16 n) = Some n.
Proof.
  intros Hn. unfold Text16. destruct (Z.ltb_spec n 0); [lia|].
  assert (Hl : n < 16 ^ Z.of_nat (S (Z.to_nat (Z.log2 n)))).
  { destruct (decide (n = 0)) as [->|]; [done|]. rewrite Nat2Z.inj_succ, Z2Nat.id by apply Z.log2_nonneg.
    apply Z.lt_le_trans with (2 ^ Z.succ (Z.log2 n)); [apply Z.log2_spec; lia|]. apply Z.pow_le_mono_l. lia. }
  destruct (hex_digits_parse (S (Z.to_nat (Z.log2 n))) n "" ltac:(lia) ltac:(lia)) as (c & text & -> & Hp). rewrite str_app_empty_r.
  unfold SetString16. assert (Hb : (if String c text =s "" then None else hex_parse 0 (String c text)) = Some n) by done.
  destruct (decide (c = "-"%char)) as [->|Hm]; [done|]. destruct (decide (c = "+"%char)) as [->|Hpl]; [done|].
  repeat case_match; simplify_eq; done.
Qed.

(** The revocations of a state, none when they are not configured. *)
Definition revocations (s : Pki) : RevocationRepository := default NewRevocationRepository (pk_revoked s).

(** Revocations are only added. *)
Definition revocations_grow : relation Pki := λ s s',
  (is_Some (pk_revoked s) → is_Some (pk_revoked s')) ∧ rev_serial (revocations s) ⊆ rev_serial (revocations s') ∧
  ∀ ca, RevocationRepository_ListByCA (revocations s) ca ⊆ RevocationRepository_ListByCA (revocations s') ca.
#[global] Instance revocations_grow_preorder : PreOrder revocations_grow.
Proof.
  split; [by intros s|]. intros s1 s2 s3 (Hs1 & Hm1 & Hl1) (Hs2 & Hm2 & Hl2). split_and!; [by auto|by etrans|]. intros ca x Hx. by apply Hl2, Hl1.
Qed.
Lemma revocations_grow_same s s' : pk_revoked s' = pk_revoked s → revocations_grow s s'.
Proof. intros E. unfold revocations_grow, revocations. by rewrite E. Qed.

Section revocation.
Context `{Aead} `{X509} (k : KeyRing).

Lemma Revoke_grows now ca serial reason : always revocations_grow (PKI_Revoke now ca serial reason).
Proof.
  intros s. unfold PKI_Revoke. destruct (pk_revoked s) as [rev|] eqn:E; [|done]. destruct (serial =s ""); [done|].
  unfold revocations_grow, revocations. rewrite E. cbn. split; [done|]. unfold RevocationRepository_Revoke. cbn.
  destruct (rev_serial rev !! serial) eqn:El; [done|]. split; [by apply insert_subseteq|]. intros ca'. unfold RevocationRepository_ListByCA. cbn.
  destruct (decide (ca' = ca)) as [->|Hne]; [rewrite lookup_insert_eq|by rewrite lookup_insert_ne]. set_solver.
Qed.

Lemma pki_run_grows ops s : revocations_grow s (pki_run k ops s).
Proof.
  apply (pki_run_always k revocations_grow); [..|exact Revoke_grows]; intros; intros t; apply revocations_grow_same;
    unfold put_ca, ensureDefaultRole, save_issued, PKI_SaveRole; repeat case_match; done.
Qed.

Lemma crl_entries_elem l entries c n : crl_entries l = Ok entries → c ∈ l → SetString16 (rv_Serial c) = Some n → (n, rv_RevokedAt c) ∈ entries.
Proof.
  revert entries. induction l as [|e l IH]; intros entries He Hc Hn; [by apply not_elem_of_nil in Hc|]. cbn in He.
  destruct (SetString16 (rv_Serial e)) as [m|] eqn:Em; [|done]. apply res_bind_ok in He as (rest & Hr & [= <-]).
  apply elem_of_cons in Hc as [->|Hc]; [rewrite Em in Hn; injection Hn as ->; left|right; by apply IH].
Qed.

(** C23. A revocation is final and is published. Let the serial [n], not revoked so far,
    be revoked under the text the engine gives it, its lower-case hexadecimal
    digits. Whatever requests follow, the responder answers that [n] is revoked,
    every revocation list of the CA that is produced has the serial with the time of
    the revocation, and [IssueCertificate] does not issue a certificate with it.
    Signing of requests ([SignCSR]) does not look at revocations and is not covered,
    nor is a revocation under another spelling of the serial
    ([capital_serial_stays_good]). *)
Theorem revocation_is_final now ca n reason s s1 ops : 0 ≤ n → RevocationRepository_IsRevoked (revocations s) (Text16 n) = false →
  PKI_Revoke now ca (Text16 n) reason s = (s1, Ok tt) → let s2 := pki_run k ops s1 in
  (∀ t1 t2 t3 der resp, ocsp_ParseRequest der = Ok n → (HandleOCSP k t1 t2 t3 ca der s2).2 = Ok resp →
     ∃ issuer signer, ocsp_CreateResponse issuer (mkOcspResponse OcspRevoked n t2 (t3 + 24 * Hour) t1) signer = Ok resp) ∧
  (∀ t rnd crl, (GenerateCRL k t rnd ca s2).2 = Ok crl → ∃ entries issuer signer der, (n, now) ∈ entries ∧
     CreateRevocationList rnd (mkRevocationList entries (t - unix_epoch) t (t + 24 * Hour)) issuer signer = Ok der ∧ crl = pem_Encode "X509 CRL" der) ∧
  (∀ env req r, (PKI_IssueCertificate k env req s2).2 = Ok r → ir_Serial r ≠ Text16 n).
Proof.
  intros Hn Hnew Hrev s2. destruct (pki_run_grows ops s1) as (Hs & Hm & Hl). fold s2 in Hs, Hm, Hl.
  unfold PKI_Revoke, revocations in Hrev, Hnew. destruct (pk_revoked s) as [rev|] eqn:E; [|done]. destruct (Text16 n =s "") eqn:Et; [done|].
  injection Hrev as <-. unfold revocations at 1 in Hm. unfold revocations at 1 in Hl. cbn in Hs, Hm, Hl, Hnew.
  apply bool_decide_eq_false, eq_None_not_Some in Hnew. unfold RevocationRepository_Revoke in Hm, Hl. cbn in Hm, Hl. rewrite Hnew in Hm, Hl.
  destruct (Hs ltac:(done)) as [rev2 E2]. unfold revocations in Hm, Hl. rewrite E2 in Hm, Hl. cbn in Hm, Hl.
  assert (Hin : is_Some (rev_serial rev2 !! Text16 n)) by (eexists; eapply lookup_weaken; [apply lookup_insert_eq|exact Hm]).
  assert (Hrv : RevocationRepository_IsRevoked rev2 (Text16 n) = true) by by apply bool_decide_eq_true.
  split_and!.
  - intros t1 t2 t3 der resp Hd Hr. unfold HandleOCSP in Hr. cbn [snd] in Hr. rewrite E2 in Hr. apply res_bind_unit_ok in Hr as [_ Hr].
    apply res_bind_ok in Hr as (c & _ & Hr). apply res_bind_ok in Hr as (issuer & _ & Hr). rewrite Hd in Hr. cbn [mbind res_bind] in Hr. rewrite Hrv in Hr.
    apply res_bind_ok in Hr as (key & _ & Hr). apply res_bind_ok in Hr as (signer & _ & Hr). apply wrap_internal_ok in Hr. by exists issuer, signer.
  - intros t rnd crl Hr. unfold GenerateCRL in Hr. cbn [snd] in Hr. rewrite E2 in Hr. apply res_bind_ok in Hr as (c & _ & Hr).
    apply res_bind_ok in Hr as (issuer & _ & Hr). apply res_bind_ok in Hr as (key & _ & Hr). apply res_bind_ok in Hr as (signer & _ & Hr).
    apply res_bind_ok in Hr as (entries & He & Hr). apply res_bind_ok in Hr as (der & Hder%wrap_internal_ok & [= <-]).
    exists entries, issuer, signer, der. split; [|done]. specialize (Hl ca). unfold RevocationRepository_ListByCA at 1 in Hl. cbn in Hl.
    rewrite lookup_insert_eq in Hl. set (e := mkRevoked _ _ _ _) in Hl.
    apply (crl_entries_elem _ _ e n He); [apply Hl; cbn; set_solver|by apply SetString16_Text16].
  - intros env req r Hr Hser. destruct (PKI_IssueCertificate k env req s2) as [s3 x] eqn:Ei. cbn in Hr. subst x.
    destruct (pki_issue_run k _ _ _ _ _ Ei) as (? & ? & ? & ? & ? & ? & ? & _ & _ & _ & _ & _ & _ & _ & _ & _ & _ & Hc & _).
    unfold check_not_revoked in Hc. cbn in Hc. rewrite E2, Hser, Hrv in Hc. done.
Qed.
End revocation.

(** ** Examples *)

#[local] Existing Instance toy_aead.
#[local] Existing Instance toy_laws.

Definition toy_cert (serial : Z) (expires : Time) (key : Z) : string := string_of (pos_bytes (encode (serial, expires, key))).
Definition toy_key (bits : Z) : bytes := pos_bytes (encode bits).

(** A backend that draws the serial and the time from its randomness, with keys
    that are their length in bits. *)
#[local] Instance toy_x509 : X509 := {|
  Random := Z * Time;
  PrivateKey := Z;
  CertKey := Z;
  Backend_CreateRoot rnd req := Ok (toy_cert rnd.1 (rnd.2 + bq_TTL req) 2048, toy_key 2048);
  Backend_CreateIntermediate rnd req := Ok (toy_cert rnd.1 (rnd.2 + bi_TTL req) 2048, toy_key 2048);
  Backend_IssueCertificate rnd req := Ok (toy_cert rnd.1 (rnd.2 + bl_TTL req) 2048, toy_key 2048);
  Backend_SignCSR rnd req := Ok (toy_cert rnd.1 (rnd.2 + bc_TTL req) 2048);
  pem_Decode s := if s =s "" then None else Some (bytes_of s);
  pem_Encode _ der := string_of der;
  ParseCertificate b := match decode (bytes_pos b) with Some c => Ok c | None => Err (Plain "x509") end;
  ParsePKCS8PrivateKey b := match decode (bytes_pos b) with Some key => Ok (Some key) | None => Err (Plain "x509") end;
  ParsePKCS1PrivateKey _ := Err (Plain "x509");
  rsa_BitLen key := Some key;
  Public key := key;
  key_Equal key := Some (λ other, bool_decide (key = other));
  MarshalPKIXPublicKey key := Ok (toy_key key);
  ParseCertificateRequest b := Ok (mkCertificateRequest (string_of b) [] [] [] []);
  CheckSignature _ := Ok tt;
  CreateRevocationList _ crl _ _ := Ok (pos_bytes (encode (crl_Entries crl)));
  ocsp_ParseRequest b := match decode (bytes_pos b) with Some n => Ok n | None => Err (Plain "ocsp") end;
  ocsp_CreateResponse _ r _ := Ok (pos_bytes (encode (match oc_Status r with OcspGood => 0 | OcspRevoked => 1 | OcspUnknown => 2 end, oc_RevokedAt r)));
  parse_duration s := match Atoi (TrimSuffix s "s") with Some n => Some (n * Second) | None => if s =s "8760h" then Some (8760 * Hour) else None end;
  uuid_String _ := "";
|}.

Definition demo_pki_env (id : UUID) (serial : Z) (now : Time) : PkiEnv := mkPkiEnv _ id now now demo_entropy (serial, now).
Definition empty_pki : Pki := mkPki ∅ (Some ∅) (Some NewRevocationRepository) (Some ∅).
Lemma empty_pki_wf : pki_wf empty_pki.
Proof.
  split; cbn.
  - split; by intros.
  - by intros ? [= <-].
  - intros ? [= <-]. apply revocations_wf_new.
  - by intros ? ? ? ? [= <-].
Qed.

(** A root for [example.com] and its subdomains. *)
Definition demo_pki : Pki :=
  pki_run (demo_ring "a") [OpCreateRoot (demo_pki_env 1 160 1000) (mkCreateRoot "root" "Root" "8760h" 0 ["example.com"] true)] empty_pki.
Definition demo_issue : IssueRequest := mkIssueRequest "root" "app.example.com" ["www.example.com"] [] "3600s" 0 true "".
Definition demo_issued : Pki * res IssueResult := PKI_IssueCertificate (demo_ring "a") (demo_pki_env 2 161 2000) demo_issue demo_pki.
#[local] Strategy 1000 [demo_pki demo_issued PKI_IssueCertificate PKI_SignCSR RenewCertificate PKI_CreateRoot ImportCA].

Lemma demo_pki_wf : pki_wf demo_pki.
Proof. exact (pki_run_wf (demo_ring "a") _ _ empty_pki_wf). Qed.
Lemma pki_issued_wf : pki_wf demo_issued.1.
Proof. exact (pki_run_wf (demo_ring "a") [OpIssue (demo_pki_env 2 161 2000) demo_issue] _ demo_pki_wf). Qed.

Definition the {A} (x : A) (r : res A) : A := match r with Ok a => a | Err _ => x end.
Lemma the_ok {A} (x : A) r : is_ok r = true → r = Ok (the x r).
Proof. by destruct r. Qed.

Lemma issued_within_role_witness : ∃ roles r, pk_roles demo_pki = Some roles ∧ demo_issued.2 = Ok r ∧ ir_Serial r = "a1" ∧
  ∃ role, roles !! "root" = Some role ∧ within_role role "app.example.com".
Proof.
  assert (Ho : ir_Serial <$> demo_issued.2 = Ok "a1") by (vm_compute; reflexivity).
  assert (Hr : bool_decide (pk_roles demo_pki = None) = false) by (vm_compute; reflexivity).
  destruct (pk_roles demo_pki) as [roles|] eqn:Er; [|exfalso; by apply bool_decide_eq_false in Hr].
  unfold demo_issued in *. destruct (PKI_IssueCertificate _ _ _ _) as [s' [r|e]] eqn:E; [|discriminate Ho].
  destruct (issued_within_role (demo_ring "a") _ _ _ _ _ roles Er E) as (role & ca & caKey & ttl & usage & keyPEM & Hl & _ & _ & _ & _ & Hcn & _).
  exists roles, r. split; [reflexivity|]. split; [reflexivity|]. split; [by injection Ho|]. exists role. split; [exact Hl|].
  apply Hcn. discriminate.
Defined.

Definition demo_csr : SignCSRRequest := mkSignCSR "root" "api.example.com" "3600s".
Lemma signed_within_role_witness : ∃ r role, (PKI_SignCSR (demo_ring "a") (demo_pki_env 3 162 2000) demo_csr demo_pki).2 = Ok r ∧
  Forall (within_role role) ["api.example.com"].
Proof.
  assert (Ho : is_ok (PKI_SignCSR (demo_ring "a") (demo_pki_env 3 162 2000) demo_csr demo_pki).2 = true) by (vm_compute; reflexivity).
  assert (Hr : bool_decide (pk_roles demo_pki = None) = false) by (vm_compute; reflexivity).
  destruct (pk_roles demo_pki) as [roles|] eqn:Er; [|exfalso; by apply bool_decide_eq_false in Hr].
  destruct (PKI_SignCSR _ _ _ _) as [s' [r|e]] eqn:E; [|discriminate Ho].
  destruct (signed_within_role (demo_ring "a") _ _ _ _ _ roles Er E) as (role & ca & caKey & ttl & block & csr & _ & _ & _ & _ & Hb & Hc & _ & Hall & _).
  exists r, role. split; [reflexivity|]. injection Hb as <-. injection Hc as <-. exact Hall.
Defined.

Definition demo_import : ImportCARequest := mkImportCA "legacy" "" (toy_cert 9 5000 4096) (string_of (toy_key 4096)) "".
Lemma imported_key_matches_witness : ∃ r ca, (ImportCA (demo_ring "a") (demo_pki_env 4 0 2000) demo_import demo_pki).2 = Ok r ∧ ca_Name ca = "legacy".
Proof.
  assert (Ho : is_ok (ImportCA (demo_ring "a") (demo_pki_env 4 0 2000) demo_import demo_pki).2 = true) by (vm_compute; reflexivity).
  destruct (ImportCA _ _ _ _) as [s' [r|e]] eqn:E; [|discriminate Ho].
  destruct (imported_key_matches (demo_ring "a") (demo_pki_env 4 0 2000) _ _ _ _ demo_seals E) as (ca & cert & signer & _ & Hn & _). exists r, ca. split; [reflexivity|exact Hn].
Defined.

Definition demo_renewal : RenewRequest := mkRenewRequest 1 "a1" "".
Definition demo_renewed : Pki * res RenewResult := RenewCertificate (demo_ring "a") (demo_pki_env 5 163 3000) demo_renewal demo_issued.1.
#[local] Strategy 1000 [demo_renewed].

Lemma revoked_certificate_renews_witness : ∃ r s2, demo_renewed.2 = Ok r ∧ rw_Serial r = "a3" ∧
  PKI_Revoke 2500 1 "a1" "compromised" demo_issued.1 = (s2, Ok tt) ∧
  (RenewCertificate (demo_ring "a") (demo_pki_env 5 163 3000) demo_renewal s2).2 = Ok r.
Proof.
  assert (Ho : rw_Serial <$> demo_renewed.2 = Ok "a3") by (vm_compute; reflexivity).
  assert (Hv : (PKI_Revoke 2500 1 "a1" "compromised" demo_issued.1).2 = Ok tt) by (vm_compute; reflexivity).
  unfold demo_renewed in *. destruct (RenewCertificate _ _ _ _) as [s1 [r|e]] eqn:E; [|discriminate Ho].
  destruct (PKI_Revoke _ _ _ _ _) as [s2 u] eqn:Er. cbn in Hv. subst u. injection Ho as Ho. exists r, s2. split; [reflexivity|]. split; [exact Ho|].
  split; [reflexivity|]. apply (revoked_certificate_renews (demo_ring "a") _ demo_renewal _ _ _ _ _ _ E Er). rewrite Ho. discriminate.
Defined.

Definition issued_table (s : Pki) : gmap (UUID * string) IssuedCertificate := default ∅ (pk_issued s).
Definition serials (l : list IssuedCertificate) : list string := ic_Serial <$> l.

Lemma renewed_certificate_stays_due_witness : ∃ r m' record, demo_renewed.2 = Ok r ∧ rw_Serial r = "a3" ∧
  pk_issued demo_renewed.1 = Some m' ∧ m' !! certKey 1%N "a1" = Some record.
Proof.
  assert (Ho : rw_Serial <$> demo_renewed.2 = Ok "a3") by (vm_compute; reflexivity).
  assert (Hm : bool_decide (pk_issued demo_issued.1 = None) = false) by (vm_compute; reflexivity).
  assert (Hl : bool_decide (issued_table demo_issued.1 !! certKey 1%N "a1" = None) = false) by (vm_compute; reflexivity).
  assert (Hw := pki_issued_wf). apply bool_decide_eq_false in Hm, Hl. unfold demo_renewed in *. unfold issued_table in Hl.
  generalize dependent (demo_issued.1). intros s Ho Hm Hl Hw. destruct (pk_issued s) as [m|] eqn:Em; [|done]. cbn in Hl.
  destruct (m !! certKey 1%N "a1") as [record|] eqn:Ec; [|done].
  destruct (RenewCertificate _ _ _ _) as [s1 [r|e]] eqn:E; [|discriminate Ho]. injection Ho as Ho. exists r.
  destruct (renewed_certificate_stays_due (demo_ring "a") _ demo_renewal s s1 r m record Hw Em Ec E) as (m' & Hm' & Hr & _); [rewrite Ho; discriminate|].
  exists m', record. repeat split; assumption.
Defined.

(** The record of the first certificate is due again after its renewal: both are
    found by the next run of the job. *)
Example renewal_repeats :
  serials (IssuedCertRepository_ListExpiring (issued_table demo_renewed.1) (10000 * Second) 10) = ["a1"; "a3"].
Proof. vm_compute. reflexivity. Qed.

(** The role made with a CA is stored for servers, so a request for a client
    certificate is refused. *)
Example default_role_refuses_client :
  let req := mkIssueRequest "root" "app.example.com" [] [] "" 0 false RoleUsageClient in
  (PKI_IssueCertificate (demo_ring "a") (demo_pki_env 2 161 2000) req demo_pki).2
  = Err (New ErrCodeValidation "force key usage conflicts with role key_usage=server; use a client role").
Proof. vm_compute. reflexivity. Qed.

(** A revocation accepts any serial; one that is not hexadecimal breaks every
    later revocation list of the CA. *)
Example bad_serial_breaks_crl :
  is_ok (GenerateCRL (demo_ring "a") 3000 (0, 0) 1 demo_issued.1).2 = true ∧
  (GenerateCRL (demo_ring "a") 3000 (0, 0) 1 (PKI_Revoke 2500 1 "zz" "" demo_issued.1).1).2 = Err (Plain ("invalid serial " +:+ quoted "zz")).
Proof. split; vm_compute; reflexivity. Qed.

(** A serial revoked in capitals is on the revocation list but not revoked for
    the responder, which looks for the lower-case form. *)
Example capital_serial_stays_good :
  let s := (PKI_Revoke 2500 1 "A1" "" demo_issued.1).1 in
  (GenerateCRL (demo_ring "a") 3000 (0, 0) 1 s).2 = Ok (string_of (pos_bytes (encode [(161, 2500)]))) ∧
  (HandleOCSP (demo_ring "a") 3000 3000 3000 1 (pos_bytes (encode 161)) s).2 = Ok (pos_bytes (encode (0, 0))).
Proof. split; vm_compute; reflexivity. Qed.

(** The responder gives the time of the request as the time of revocation, and
    calls every serial it never issued good. *)
Example ocsp_answers :
  let s := (PKI_Revoke 2500 1 "a1" "" demo_issued.1).1 in
  (HandleOCSP (demo_ring "a") 9000 9000 9000 1 (pos_bytes (encode 161)) s).2 = Ok (pos_bytes (encode (1, 9000))) ∧
  (HandleOCSP (demo_ring "a") 9000 9000 9000 1 (pos_bytes (encode 777)) s).2 = Ok (pos_bytes (encode (0, 0))).
Proof. split; vm_compute; reflexivity. Qed.

(** Imports are not scoped: with tenants on, a CA created by tenant [blue] is put
    below its name, but one it imports takes a name of tenant [red]. *)
Example import_unscoped :
  let s := mkPKIService demo_pki None in
  let create := mkCreateRoot "red/root" "Root" "8760h" 0 [] false in
  let import := mkImportCA "red/root" "" (toy_cert 9 5000 4096) (string_of (toy_key 4096)) "" in
  cz_Name <$> (PKIService_CreateRoot (demo_ring "a") true (mkTenantCtx "blue" None) None (demo_pki_env 4 0 2000) create s).2 = Ok "blue/red/root" ∧
  cz_Name <$> (PKIService_ImportCA (demo_ring "a") None (demo_pki_env 4 0 2000) import s).2 = Ok "red/root".
Proof. split; vm_compute; reflexivity. Qed.

Definition after_revocation : list pki_op := [OpRenew (demo_pki_env 5 163 3000) demo_renewal; OpRevoke 2600 1 "a3" ""].
Lemma revocation_is_final_witness : ∃ s1, PKI_Revoke 2500 1 (Text16 161) "compromised" demo_issued.1 = (s1, Ok tt) ∧
  (HandleOCSP (demo_ring "a") 9000 9000 9000 1 (pos_bytes (encode 161)) (pki_run (demo_ring "a") after_revocation s1)).2 = Ok (pos_bytes (encode (1, 9000))) ∧
  ∀ env req r, (PKI_IssueCertificate (demo_ring "a") env req (pki_run (demo_ring "a") after_revocation s1)).2 = Ok r → ir_Serial r ≠ "a1".
Proof.
  assert (Hv : (PKI_Revoke 2500 1 (Text16 161) "compromised" demo_issued.1).2 = Ok tt) by (vm_compute; reflexivity).
  assert (Hn : RevocationRepository_IsRevoked (revocations demo_issued.1) (Text16 161) = false) by (vm_compute; reflexivity).
  assert (Ho : (HandleOCSP (demo_ring "a") 9000 9000 9000 1 (pos_bytes (encode 161))
                  (pki_run (demo_ring "a") after_revocation (PKI_Revoke 2500 1 (Text16 161) "compromised" demo_issued.1).1)).2
               = Ok (pos_bytes (encode (1, 9000)))) by (vm_compute; reflexivity).
  destruct (PKI_Revoke _ _ _ _ _) as [s1 u] eqn:Er. cbn [fst snd] in Hv, Ho. subst u. exists s1. split; [reflexivity|]. split; [exact Ho|].
  exact (proj2 (proj2 (revocation_is_final (demo_ring "a") 2500 1 161 "compromised" demo_issued.1 s1 after_revocation ltac:(lia) Hn Er))).
Defined.
