(* ===== verification/Jobs.v ===== *)
(** Maintenance that runs on its own: the rotation of secrets
    (internal/engine/secrets/rotation.go, internal/service/rotation.go), its
    orchestration with the renewals of the other engines
    (internal/service/orchestration.go), and the jobs of the leader
    (internal/app/jobs.go).

    The state is [World]: the secrets service with the vault behind it, the
    rotation policies, the PKI service and the notifications sent. A webhook is
    configured or not; how a notification fares is ignored by the source. What a
    rotation takes from outside is the record [RotationEnv]. *)

From S2P Require Import Prelude.
From S2P Require Import Effects.
From S2P Require Import GoLib.
From S2P Require Import Domain.
From S2P Require Import Lockout.
From S2P Require Import Cache.
From S2P Require Import DynamicRoles.
From S2P Require Import Repos.
From S2P Require Import AuditHelper.
From S2P Require Import Tenant.
From S2P Require Import TokenStore.
From S2P Require Import SecretRepo.
From S2P Require Import Crypto.
From S2P Require Import KVEngine.
From S2P Require Import Cubbyhole.
From S2P Require Import Credentials.
From S2P Require Import Secrets.
From S2P Require Import DatabaseEngine.
From S2P Require Import SSHEngine.
From S2P Require Import MasterKey.
From S2P Require Import PkiEngine.

#[local] Open Scope Z_scope.

(** ** State *)

Record Event := mkEvent {
  ev_Event : string;
  ev_Path : string;
  ev_LeaseID : string;
  ev_Severity : string;
  ev_Detector : string;
  ev_Details : list (string * any);
}.

Record World (C : Type) := mkWorld {
  w_secrets : Secrets C;
  w_policies : gmap string RotationPolicy;
  w_pki : PKIService;
  w_events : list Event;
}.
Arguments mkWorld {C}.
Arguments w_secrets {C}.
Arguments w_policies {C}.
Arguments w_pki {C}.
Arguments w_events {C}.

Section access.
Context {C : Type}.
Abbreviation M := (prog (World C)).

Definition on_secrets {A} (m : prog (Secrets C) A) : M A := zoom w_secrets (λ w s, mkWorld s (w_policies w) (w_pki w) (w_events w)) m.
Definition on_vault_of {A} (m : V A) : M A := on_secrets (on_vault m).
Definition on_pki {A} (m : prog PKIService A) : M A := zoom w_pki (λ w s, mkWorld (w_secrets w) (w_policies w) s (w_events w)) m.
Definition save_policies (call : gmap string RotationPolicy → res (gmap string RotationPolicy)) : M unit := λ w,
  match call (w_policies w) with
  | Ok m => (mkWorld (w_secrets w) m (w_pki w) (w_events w), Ok tt)
  | Err e => (w, Err e)
  end.
Definition Send (e : Event) : M unit := modify (λ w, mkWorld (w_secrets w) (w_policies w) (w_pki w) (w_events w ++ [e])).
End access.

(** ** internal/engine/secrets/rotation.go *)

Definition GenerateRotationValue {codec : TokenCodec} (raw : res bytes) (generator : string) : res object :=
  if generator =s GeneratorRandomPassword then
    match raw with
    | Ok raw => Ok [("password", VStr (RawURLEncode raw))]
    | Err e => Err (Wrapf "generate password: " e)
    end
  else if generator =s GeneratorScriptRef then Err (Plain "script_ref generator not supported in-process")
  else Err (Plain ("unknown generator " +:+ quoted generator)).

(** ** internal/service/rotation.go *)

Record RotationEnv := mkRotationEnv { rv_random : res bytes; rv_get : ReadClock; rv_put : Fresh; rv_now : Time }.

Definition rp_enable (p : RotationPolicy) : RotationPolicy :=
  mkRotationPolicy (rp_Path p) (rp_Interval p) (rp_Generator p) (rp_ScriptRef p) (rp_LastRotatedAt p) true.
Definition rp_with_path (p : RotationPolicy) (path : string) : RotationPolicy :=
  mkRotationPolicy path (rp_Interval p) (rp_Generator p) (rp_ScriptRef p) (rp_LastRotatedAt p) (rp_Enabled p).
Definition rp_rotated (p : RotationPolicy) (at_ : Time) : RotationPolicy :=
  mkRotationPolicy (rp_Path p) (rp_Interval p) (rp_Generator p) (rp_ScriptRef p) at_ (rp_Enabled p).

Section rotation.
Context {C : Type} `{CacheStore C} `{Aead} `{Json} `{ResultJson} {codec : TokenCodec} (parse_duration : string → option Duration) (k : KeyRing)
  (tenantMode webhook : bool).
Abbreviation M := (prog (World C)).

Definition audited {A} (subject : option string) (action resource : string) (err : res A) (details : list (string * any)) : M unit :=
  on_vault_of (audit subject action resource err details).

Definition Rotation_PutPolicy (cx : TenantCtx) (subject : option string) (policy : RotationPolicy) : M unit :=
  let policy := rp_enable policy in
  scoped ← lift (scopePath tenantMode cx (rp_Path policy));
  let policy := rp_with_path policy scoped in
  err ← attempt (save_policies (λ m, RotationPolicyRepository_Save m policy));
  _ ← audited subject "rotation.policy.set" ("secrets/kv/" +:+ scoped) err [];
  lift err.

Definition Rotation_DeletePolicy (cx : TenantCtx) (subject : option string) (path : string) : M unit :=
  path ← lift (scopePath tenantMode cx path);
  err ← attempt (save_policies (λ m, RotationPolicyRepository_Delete m path));
  _ ← audited subject "rotation.policy.delete" ("secrets/kv/" +:+ path) err [];
  lift err.

Definition Rotation_GetPolicy (path : string) : M RotationPolicy := λ w, (w, RotationPolicyRepository_Get (w_policies w) path).

Definition RotatePath (cx : TenantCtx) (subject : option string) (env : RotationEnv) (policy : RotationPolicy) : M unit :=
  let path := rp_Path policy in
  data ← lift (GenerateRotationValue (rv_random env) (rp_Generator policy));
  prev ← attempt (on_secrets (Secrets_Get k tenantMode cx subject (rv_get env) path));
  let oldVersion := match prev with Ok r => gr_Version r | Err _ => 0 end in
  result ← attempt (on_secrets (Secrets_Put parse_duration k tenantMode cx subject (rv_put env) path data (mkPutOptions "" None 0 ∅)));
  let newVersion := match result with Ok v => v | Err _ => 0 end in
  _ ← audited subject "secret.rotate" ("secrets/kv/" +:+ path) result [("old_version", VNum oldVersion); ("new_version", VNum newVersion)];
  version ← lift result;
  _ ← on_error (save_policies (λ m, RotationPolicyRepository_Save m (rp_rotated policy (rv_now env))))
        (λ e, raise (Wrapf "save rotation policy: " e));
  when webhook (Send (mkEvent "secret.rotate" path "" "" "" [("version", VNum version)])).

(** The loop of [RunDue]: the rotations that succeeded and the errors of the
    others, which are joined. *)
Fixpoint run_due_loop (cx : TenantCtx) (subject : option string) (now : Time) (envs : nat → RotationEnv) (i : nat) (rotated : Z) (errs : list error)
    (policies : list RotationPolicy) : M (Z * list error) :=
  match policies with
  | [] => mret (rotated, errs)
  | policy :: policies =>
      if negb (Due policy now) then run_due_loop cx subject now envs (S i) rotated errs policies
      else
        x ← attempt (RotatePath cx subject (envs i) policy);
        match x with
        | Err e => run_due_loop cx subject now envs (S i) rotated (errs ++ [Wrapf (rp_Path policy +:+ ": ") e]) policies
        | Ok _ => run_due_loop cx subject now envs (S i) (rotated + 1) errs policies
        end
  end.

Definition RunDue (cx : TenantCtx) (subject : option string) (now : Time) (envs : nat → RotationEnv) : M (Z * list error) := λ w,
  run_due_loop cx subject now envs 0 0 [] (RotationPolicyRepository_List (w_policies w)) w.
End rotation.

(** ** internal/service/orchestration.go *)

Record RunResult := mkRunResult { ru_KVRotated : Z; ru_DBRenewed : Z; ru_SSHRenewed : Z; ru_PKIRenewed : Z; ru_TotalActions : Z }.

(** The services that are configured. *)
Record Orchestration := mkOrchestration { oc_rotation : bool; oc_database : bool; oc_ssh : bool; oc_pki : bool; oc_webhook : bool }.

Section orchestration.
Context {C : Type} `{CacheStore C} `{Aead} `{Json} `{ResultJson} `{UrlParser} {codec : TokenCodec} `{DbExternals} `{SshExternals} `{X509} (k : KeyRing)
  (tenantMode rotationWebhook : bool).
Abbreviation M := (prog (World C)).

Record RunEnv := mkRunEnv {
  rx_now : Time;
  rx_rotation : nat → RotationEnv;
  rx_dbNow : Time;
  rx_database : nat → Time * Fresh;
  rx_sshNow : Time;
  rx_ssh : nat → Time * Fresh * SshRandom;
  rx_pkiNow : Time;
  rx_pki : nat → PkiEnv;
}.

Definition only_if (c : bool) (m : M (Z * list error)) : M (Z * list error) := if c then m else mret (0, []).
Definition single {A} (x : A * option error) : A * list error := (x.1, match x.2 with Some e => [e] | None => [] end).

(** [Run] ends at the first engine that reports an error; the second component
    holds the errors, joined when they come from the rotation. *)
Definition Run (o : Orchestration) (cx : TenantCtx) (subject : option string) (env : RunEnv) (dbGrace sshGrace pkiGrace : Duration) :
    M (RunResult + list error) :=
  kv ← only_if (oc_rotation o) (RunDue parse_duration k tenantMode rotationWebhook cx subject (rx_now env) (rx_rotation env));
  if bool_decide (kv.2 ≠ []) then mret (inr kv.2)
  else
    db ← only_if (oc_database o) (on_vault_of (n ← DB_RenewExpiring k (rx_dbNow env) dbGrace 50 (rx_database env); mret (n, [])));
    let sshGrace := if sshGrace <=? 0 then dbGrace else sshGrace in
    ssh ← only_if (oc_ssh o) (on_vault_of (n ← SSHService_RenewExpiring k (rx_sshNow env) sshGrace 50 (rx_ssh env); mret (n, [])));
    pki ← only_if (oc_pki o && (0 <? pkiGrace))
            (x ← attempt (on_pki (PKIService_RenewExpiring k subject (rx_pkiNow env) pkiGrace 50 (rx_pki env)));
             mret match x with Ok x => single x | Err e => (0, [e]) end);
    if bool_decide (pki.2 ≠ []) then mret (inr pki.2)
    else
      let total := wrap64 (wrap64 (wrap64 (kv.1 + db.1) + ssh.1) + pki.1) in
      _ ← when (oc_webhook o && (0 <? total))
            (Send (mkEvent "rotation.run" "" "" "" "" [("kv_rotated", VNum kv.1); ("db_leases_renewed", VNum db.1);
                                               ("ssh_leases_renewed", VNum ssh.1); ("pki_certs_renewed", VNum pki.1)]));
      mret (inl (mkRunResult kv.1 db.1 ssh.1 pki.1 total)).
End orchestration.

(** ** internal/app/jobs.go *)

Definition defaultLeaseGrace : Duration := 24 * Hour.
Definition leaseRenewGrace (pkiRenewGrace : Duration) : Duration :=
  if pkiRenewGrace <=? 0 then defaultLeaseGrace
  else if defaultLeaseGrace <? pkiRenewGrace then defaultLeaseGrace
  else pkiRenewGrace.

(** The services that are configured, the seal, and the window of renewals. *)
Record JobRunner := mkJobRunner {
  jr_database : bool;
  jr_ssh : bool;
  jr_pki : bool;
  jr_rotation : bool;
  jr_masterKey : bool;
  jr_cas : bool;
  jr_leases : bool;
  jr_seal : option bool;
  jr_RenewGrace : Duration;
}.

Definition SetSeal (j : JobRunner) (s : option bool) : JobRunner :=
  mkJobRunner (jr_database j) (jr_ssh j) (jr_pki j) (jr_rotation j) (jr_masterKey j) (jr_cas j) (jr_leases j) s (jr_RenewGrace j).

Definition job_sealed (j : JobRunner) : bool := default false (jr_seal j).

Definition ca_with_crl (c : CA) (next : Time) : CA :=
  mkCA (ca_ID c) (ca_ParentID c) (ca_Name c) (ca_Type c) (ca_Subject c) (ca_Serial c) (ca_CertPEM c) (ca_PrivateKeyEnc c) (ca_DEKEnc c)
    (ca_Status c) (ca_CreatedAt c) (ca_ExpiresAt c) (Some next).

(** The gauges of active leases, by engine and role. *)
Definition active_leases (leases : gmap string Lease) (now : Time) : gmap string Z :=
  foldl (λ m l, let key := lease_Engine l +:+ String "000" (lease_RoleName l) in
                if Lease_Active l now then <[key := default 0 (m !! key) + 1]> m else m) ∅ (LeaseRepository_List leases).

Section jobs.
Context {C : Type} `{CacheStore C} `{Aead} `{Json} `{ResultJson} `{UrlParser} {codec : TokenCodec} `{DbExternals} `{SshExternals} `{X509} (k : KeyRing)
  (tenantMode rotationWebhook : bool) (j : JobRunner).
Abbreviation M := (prog (World C)).

(** The context of a job carries neither a subject nor a tenant. *)
Definition job_cx : TenantCtx := mkTenantCtx "" None.

(** A job that is skipped while the vault is sealed; its errors are logged. *)
Definition job (m : M unit) : M unit := if job_sealed j then mret tt else ignore m.

Definition runMasterKeyReencrypt (nonces : nat → res bytes) : M unit :=
  job (when (jr_masterKey j) (λ w,
    let engine := pv_engine (w_pki w) in
    let vault := ss_vault (w_secrets w) in
    let '(cas, secrets, _) := ReencryptDEKs k nonces (pk_cas engine) (vt_secrets vault) 50 in
    (mkWorld (set_vault (w_secrets w) (set_secrets vault secrets)) (w_policies w) (mkPKIService (set_cas engine cas) (pv_audit (w_pki w))) (w_events w),
     Ok tt))).

Definition runKVRotation (now : Time) (envs : nat → RotationEnv) : M unit :=
  job (when (jr_rotation j) (ignore (RunDue parse_duration k tenantMode rotationWebhook job_cx None now envs))).

Definition runLeaseRenewal (now : Time) (dbs : nat → Time * Fresh) (now' : Time) (sshs : nat → Time * Fresh * SshRandom) : M unit :=
  let grace := leaseRenewGrace (jr_RenewGrace j) in
  job (_ ← when (jr_database j) (ignore (on_vault_of (DB_RenewExpiring k now grace 50 dbs)));
       when (jr_ssh j) (ignore (on_vault_of (SSHService_RenewExpiring k now' grace 50 sshs)))).

Definition runCertRenewal (now : Time) (envs : nat → PkiEnv) : M unit :=
  job (when (jr_pki j) (ignore (on_pki (PKIService_RenewExpiring k None now (jr_RenewGrace j) 50 envs)))).

Definition runLeaseCleanup (now : Time) (clk : nat → Time) (now' : Time) (clk' : nat → Time) : M unit :=
  job (_ ← when (jr_database j) (ignore (on_vault_of (DatabaseService_CleanupExpired k None now 100 clk)));
       when (jr_ssh j) (ignore (on_vault_of (SSHService_CleanupExpired None now' 100 clk')))).

(** The total and the gauges of engines and roles. *)
Definition updateActiveLeasesMetric (now now' : Time) (w : World C) : option (Z * gmap string Z) :=
  let leases := vt_leases (ss_vault (w_secrets w)) in
  if jr_leases j then Some (LeaseRepository_CountActive leases now, active_leases leases now') else None.

(** The loop over the authorities; the list of the i-th is made at [clk i]. *)
Fixpoint crl_loop (now : Time) (clk : nat → Time * Random) (i : nat) (cas : list CA) : M unit :=
  match cas with
  | [] => mret tt
  | ca :: cas =>
      if negb (ca_Status ca =s CAStatusActive) || match ca_CRLNextUpdate ca with Some t => After t now | None => false end
      then crl_loop now clk (S i) cas
      else
        x ← attempt (on_pki (PKIService_GenerateCRL k None (clk i).1 (clk i).2 (ca_ID ca)));
        match x with
        | Err _ => crl_loop now clk (S i) cas
        | Ok _ =>
            _ ← ignore (on_pki (pki_call (λ s, match CARepository_Save (pk_cas s) (ca_with_crl ca (now + 24 * Hour)) with
                                                | Ok m => (set_cas s m, Ok tt)
                                                | Err e => (s, Err e)
                                                end)));
            crl_loop now clk (S i) cas
        end
  end.

Definition runCRLRefresh (now : Time) (clk : nat → Time * Random) : M unit :=
  job (when (jr_pki j && jr_cas j) (λ w, crl_loop now clk 0 (CARepository_List (pk_cas (pv_engine (w_pki w)))) w)).

(** What a tick of a ticker runs. *)
Inductive tick :=
  | TLease (now : Time) (clk : nat → Time) (now' : Time) (clk' : nat → Time)
  | TCrl (now : Time) (clk : nat → Time * Random)
  | TRenew (now : Time) (envs : nat → PkiEnv) (now1 : Time) (dbs : nat → Time * Fresh) (now2 : Time) (sshs : nat → Time * Fresh * SshRandom)
  | TRotation (now : Time) (envs : nat → RotationEnv)
  | TReencrypt (nonces : nat → res bytes).

Definition run_tick (t : tick) : M unit :=
  match t with
  | TLease now clk now' clk' => runLeaseCleanup now clk now' clk'
  | TCrl now clk => runCRLRefresh now clk
  | TRenew now envs now1 dbs now2 sshs => _ ← runCertRenewal now envs; runLeaseRenewal now1 dbs now2 sshs
  | TRotation now envs => runKVRotation now envs
  | TReencrypt nonces => runMasterKeyReencrypt nonces
  end.

(** The start of [runOnLeader], then its loop until the context ends. *)
Definition runOnLeader (clean : tick) (crl : tick) (renew : tick) (rotate : tick) (reencrypt : tick) (ticks : list tick) : M unit :=
  foldl (λ m t, _ ← m; run_tick t) (mret tt) ([clean; crl; renew; rotate; reencrypt] ++ ticks).
End jobs.

(** ** Sealed vaults *)

Section sealed.
Context {C : Type} `{CacheStore C} `{Aead} `{Json} `{ResultJson} `{UrlParser} {codec : TokenCodec} `{DbExternals} `{SshExternals} `{X509} (k : KeyRing)
  (tenantMode rotationWebhook : bool) (j : JobRunner).

Lemma sealed_tick (w : World C) t : job_sealed j = true → run_tick k tenantMode rotationWebhook j t w = (w, Ok tt).
Proof.
  intros Hs. destruct t; cbn [run_tick];
    unfold runLeaseCleanup, runCRLRefresh, runCertRenewal, runLeaseRenewal, runKVRotation, runMasterKeyReencrypt, job; by rewrite Hs.
Qed.

Lemma sealed_leader (w : World C) a b c d e ticks : job_sealed j = true →
  runOnLeader k tenantMode rotationWebhook j a b c d e ticks w = (w, Ok tt).
Proof.
  intros Hs. unfold runOnLeader. set (l := _ ++ ticks). clearbody l.
  assert (Hg : ∀ (m : prog (World C) unit), m w = (w, Ok tt) → foldl (λ m t, _ ← m; run_tick k tenantMode rotationWebhook j t) m l w = (w, Ok tt)); [|by apply Hg].
  induction l as [|t l IH]; intros m Hm; [done|]. cbn [foldl]. apply IH. by rewrite (prog_bind_ok _ _ _ _ _ Hm), sealed_tick.
Qed.
End sealed.

(** ** Due policies *)

Section due.
Context {C : Type} `{CacheStore C} `{Aead} `{Json} `{ResultJson} {codec : TokenCodec} (parse_duration : string → option Duration) (k : KeyRing)
  (tenantMode webhook : bool).
Implicit Type w : World C.

Abbreviation rotate := (RotatePath parse_duration k tenantMode webhook).

(** What a rotation leaves alone: leases and certificates always, the policies
    unless it succeeds. *)
Definition untouched w w' : Prop :=
  vt_leases (ss_vault (w_secrets w')) = vt_leases (ss_vault (w_secrets w)) ∧ w_pki w' = w_pki w.
#[local] Instance untouched_preorder : PreOrder untouched.
Proof. split; [done|]. intros w1 w2 w3 [] []. split; congruence. Qed.

Lemma kv_write_leases {A} (subject : option string) (action path : string) (details : list (string * any)) (f : SecretRepository → res (SecretRepository * A)) (s : Secrets C) :
  vt_leases (ss_vault (kv_write subject action path details f s).1) = vt_leases (ss_vault s).
Proof.
  unfold kv_write, kv_call, attempt, mbind, prog_bind. destruct (f (ss_repo s)) as [[r a]|e]; cbn; [|done].
  destruct (ss_cache s); cbn; [|done]. by destruct (KV_ListVersions _ _).
Qed.

Lemma getVersion_leases (cx : TenantCtx) (subject : option string) clk (path : string) v (s : Secrets C) :
  vt_leases (ss_vault (getVersion k tenantMode cx subject clk path v s).1) = vt_leases (ss_vault s).
Proof.
  unfold getVersion, mbind, prog_bind, lift. destruct (scopePath tenantMode cx path) as [p|]; cbn; [|done].
  destruct (cached_result s (rc_lookup clk) p v); cbn; [done|]. destruct (KV_GetVersion _ _ _ _ _); cbn; [|done].
  unfold fill_cache, mbind, prog_bind, gets. destruct (_ && _); cbn; [|done]. destruct (ss_cache s); cbn; [|done]. by destruct (result_marshal _).
Qed.

Lemma RotatePath_untouched cx subject env policy : always untouched (rotate cx subject env policy).
Proof.
  unfold RotatePath. apply always_lift_bind; [apply _|]. intros data _.
  apply always_bind; [apply _|apply always_attempt|].
  { intros w. split; [|by unfold on_secrets, zoom; destruct (Secrets_Get _ _ _ _ _ _ _)].
    unfold on_secrets, zoom. assert (E := getVersion_leases cx subject (rv_get env) (rp_Path policy) 0 (w_secrets w)).
    unfold Secrets_Get. by destruct (getVersion _ _ _ _ _ _ _ _). }
  intros prev. apply always_bind; [apply _|apply always_attempt|].
  { intros w. unfold on_secrets, zoom, Secrets_Put, mbind, prog_bind, lift. destruct (scopePath _ _ _) as [p|]; [|done].
    assert (E := kv_write_leases subject "secret.write" p [] (λ r, KV_Put parse_duration r k (fr_ID (rv_put env)) (fr_Now (rv_put env)) (fr_Rnd (rv_put env)) p data (mkPutOptions "" None 0 ∅)) (w_secrets w)).
    destruct (kv_write _ _ _ _ _ _). by split. }
  intros result. apply always_bind; [apply _|by intros w|]. intros _. apply always_lift_bind; [apply _|]. intros version _.
  apply always_bind; [apply _|apply always_on_error; [apply _| |intros e; apply always_raise; apply _]|].
  { intros w. unfold save_policies. by destruct (RotationPolicyRepository_Save _ _). }
  intros _. apply always_when; [apply _|by intros w].
Qed.

(** A rotation stores the new time of the policy when it succeeds, and else
    leaves the policies as they were. *)
Lemma RotatePath_policies cx subject env policy w : let '(w', x) := rotate cx subject env policy w in
  match x with
  | Ok _ => rp_Generator policy = GeneratorRandomPassword ∧ w_policies w' = <[rp_Path policy := rp_rotated policy (rv_now env)]> (w_policies w)
  | Err _ => w_policies w' = w_policies w
  end.
Proof.
  unfold RotatePath, mbind, prog_bind, lift. destruct (GenerateRotationValue _ _) as [data|] eqn:Eg; [|done].
  assert (Hg : rp_Generator policy = GeneratorRandomPassword) by (unfold GenerateRotationValue in Eg; by repeat case_bool_decide).
  unfold attempt at 1. destruct (on_secrets (Secrets_Get _ _ _ _ _ _) w) as [w1 prev] eqn:E1.
  assert (Hw1 : w_policies w1 = w_policies w) by (unfold on_secrets, zoom in E1; destruct (Secrets_Get _ _ _ _ _ _ _); by injection E1 as <- _).
  unfold attempt. destruct (on_secrets (Secrets_Put _ _ _ _ _ _ _ _ _) w1) as [w2 result] eqn:E2.
  assert (Hw2 : w_policies w2 = w_policies w1) by (unfold on_secrets, zoom in E2; destruct (Secrets_Put _ _ _ _ _ _ _ _ _ _); by injection E2 as <- _).
  unfold audited. destruct (on_vault_of (audit _ _ _ _ _) w2) as [w3 y] eqn:E3.
  assert (Hw3 : w_policies w3 = w_policies w2 ∧ y = Ok tt) by (cbn in E3; by injection E3 as <- <-). destruct Hw3 as [Hw3 ->].
  destruct result as [v|e]; [|congruence]. unfold on_error, save_policies, RotationPolicyRepository_Save.
  destruct (keyed_Save (w_policies w3) (rp_rotated policy (rv_now env))) as [m|e] eqn:E4; cbn; [|congruence].
  apply keyed_Save_ok in E4 as (a & Ha & ->). cbn in Ha. unfold checked in Ha. apply res_bind_ok in Ha as ([] & _ & [= <-]).
  destruct webhook; cbn; split; congruence.
Qed.

(** A policy that was rotated at or after [now] is not due at [now]. *)
Lemma rotated_not_due policy now t : 0 < now → now ≤ t → 0 < rp_Interval policy * Second < 2 ^ 63 → Due (rp_rotated policy t) now = false.
Proof.
  intros Hp Ht Hi. unfold Due. cbn [rp_rotated rp_Enabled rp_LastRotatedAt rp_Interval]. destruct (rp_Enabled policy); [|done]. cbn.
  unfold IsZero. rewrite (proj2 (Z.eqb_neq t 0)) by lia. rewrite wrap64_id by lia. apply Z.leb_gt. unfold Sub. lia.
Qed.

Definition due_count (now : Time) (policies : list RotationPolicy) : Z := Z.of_nat (length (filter (λ p, Due p now = true) policies)).

(** The loop over policies with different paths: nothing is counted twice, a
    policy that is still due has its error, and other policies stay as they
    were. *)
Lemma run_due_loop_spec cx subject now envs policies : ∀ i n errs w, 0 < now → (∀ i, now ≤ rv_now (envs i)) → NoDup (rp_Path <$> policies) →
  Forall (λ p, w_policies w !! rp_Path p = Some p ∧ 0 < rp_Interval p * Second < 2 ^ 63) policies →
  ∃ w' n' es, run_due_loop parse_duration k tenantMode webhook cx subject now envs i n errs policies w = (w', Ok (n', errs ++ es)) ∧
    n' + Z.of_nat (length es) = n + due_count now policies ∧ untouched w w' ∧
    (∀ path, path ∉ (rp_Path <$> policies) → w_policies w' !! path = w_policies w !! path) ∧
    (∀ p, p ∈ policies → ∃ p', w_policies w' !! rp_Path p = Some p' ∧ (p' = p ∨ rp_Generator p = GeneratorRandomPassword) ∧
       (Due p' now = true → ∃ e, Wrapf (rp_Path p +:+ ": ") e ∈ es)).
Proof.
  induction policies as [|p policies IH]; intros i n errs w Hnow Henv Hnd Hall.
  { exists w, n, []. unfold due_count. cbn. rewrite app_nil_r. split_and!; [done|lia|done|done|]. intros p Hp. by apply not_elem_of_nil in Hp. }
  apply NoDup_cons in Hnd as [Hp Hnd]. apply Forall_cons in Hall as [[Hst Hint] Hall]. cbn [run_due_loop]. destruct (Due p now) eqn:Hd; cbn [negb].
  - assert (Hrp := RotatePath_policies cx subject (envs i) p w). assert (Hu := RotatePath_untouched cx subject (envs i) p w).
    unfold mbind, prog_bind, attempt. destruct (rotate cx subject (envs i) p w) as [w1 x] eqn:Er. cbn [fst] in Hu.
    assert (Hkeep : ∀ q, q ∈ policies → w_policies w1 !! rp_Path q = w_policies w !! rp_Path q).
    { intros q Hq. assert (rp_Path p ≠ rp_Path q) by (intros E; apply Hp; rewrite E; by apply list_elem_of_fmap_2).
      destruct x; [destruct Hrp as [_ Hrp]|]; rewrite Hrp; [by rewrite lookup_insert_ne|done]. }
    assert (Hall1 : Forall (λ q, w_policies w1 !! rp_Path q = Some q ∧ 0 < rp_Interval q * Second < 2 ^ 63) policies).
    { apply Forall_forall. intros q Hq. rewrite Hkeep by done. by eapply Forall_forall in Hall. }
    assert (Hout : ∀ path, path ≠ rp_Path p → w_policies w1 !! path = w_policies w !! path).
    { intros path Hne. destruct x; [destruct Hrp as [_ Hrp]|]; rewrite Hrp; [by rewrite lookup_insert_ne|done]. }
    destruct x as [[]|e].
    + destruct (IH (S i) (n + 1) errs w1 Hnow Henv Hnd Hall1) as (w' & n' & es & -> & Hn & Hu' & Hsame & Hes). exists w', n', es.
      split_and!; [done|unfold due_count in *; rewrite filter_cons_True by done; cbn; lia|by etrans| |].
      * intros path Hpath. rewrite fmap_cons, not_elem_of_cons in Hpath. destruct Hpath. rewrite Hsame, Hout by done. done.
      * intros q Hq. apply elem_of_cons in Hq as [->|Hq]; [|by apply Hes]. destruct Hrp as [Hg Hrp]. exists (rp_rotated p (rv_now (envs i))).
        rewrite Hsame, Hrp, lookup_insert_eq by done. split_and!; [done|auto|]. by rewrite rotated_not_due.
    + destruct (IH (S i) n (errs ++ [Wrapf (rp_Path p +:+ ": ") e]) w1 Hnow Henv Hnd Hall1) as (w' & n' & es & -> & Hn & Hu' & Hsame & Hes).
      exists w', n', (Wrapf (rp_Path p +:+ ": ") e :: es). rewrite <-app_assoc.
      split_and!; [done|unfold due_count in *; rewrite filter_cons_True by done; cbn; lia|by etrans| |].
      * intros path Hpath. rewrite fmap_cons, not_elem_of_cons in Hpath. destruct Hpath. rewrite Hsame, Hout by done. done.
      * intros q Hq. apply elem_of_cons in Hq as [->|Hq].
        -- exists p. rewrite Hsame, Hrp by done. split_and!; [done|auto|]. intros _. exists e. apply elem_of_cons. by left.
        -- destruct (Hes q Hq) as (p' & ? & ? & He). exists p'. split_and!; [done|done|]. intros Hdue. destruct (He Hdue) as [e' ?]. exists e'. by apply elem_of_cons; right.
  - destruct (IH (S i) n errs w Hnow Henv Hnd Hall) as (w' & n' & es & -> & Hn & Hu & Hsame & Hes). exists w', n', es.
    split_and!; [done|unfold due_count in *; rewrite filter_cons_False by congruence; lia|done| |].
    + intros path Hpath. rewrite fmap_cons, not_elem_of_cons in Hpath. destruct Hpath. by apply Hsame.
    + intros q Hq. apply elem_of_cons in Hq as [->|Hq]; [|by apply Hes]. exists p. rewrite Hsame, Hst by done. split_and!; [done|auto|congruence].
Qed.

Definition policies_ok w : Prop :=
  keyed_wf (w_policies w) ∧ map_Forall (λ _ p, 0 < rp_Interval p * Second < 2 ^ 63) (w_policies w).

Lemma policies_listed w : policies_ok w →
  NoDup (rp_Path <$> RotationPolicyRepository_List (w_policies w)) ∧
  Forall (λ p, w_policies w !! rp_Path p = Some p ∧ 0 < rp_Interval p * Second < 2 ^ 63) (RotationPolicyRepository_List (w_policies w)) ∧
  (∀ path p, w_policies w !! path = Some p → path = rp_Path p ∧ p ∈ RotationPolicyRepository_List (w_policies w)).
Proof.
  intros [Hwf Hint]. unfold RotationPolicyRepository_List. split_and!.
  - exact (keyed_List_NoDup (w_policies w) Hwf).
  - apply Forall_forall. intros p [path Hp]%keyed_List_elem. destruct (Hwf _ _ Hp) as [<- _]. split; [done|]. by apply (Hint _ _ Hp).
  - intros path p Hp. destruct (Hwf _ _ Hp) as [<- _]. split; [done|]. apply keyed_List_elem. eauto.
Qed.
End due.

Section due_theorems.
Context {C : Type} `{CacheStore C} `{Aead} `{Json} `{ResultJson} {codec : TokenCodec} (parse_duration : string → option Duration) (k : KeyRing)
  (tenantMode webhook : bool).

(** A run of the rotation handles every policy that is due: it ends, the
    rotations it counts and the errors it returns are as many as the policies
    that were due, leases and certificates are left alone, and a policy that is
    still due afterwards has its error among those returned. *)
Theorem run_due_complete (w : World C) cx subject now envs :
  policies_ok w → 0 < now → (∀ i, now ≤ rv_now (envs i)) →
  ∃ w' n errs, RunDue parse_duration k tenantMode webhook cx subject now envs w = (w', Ok (n, errs)) ∧
    n + Z.of_nat (length errs) = due_count now (RotationPolicyRepository_List (w_policies w)) ∧ untouched w w' ∧
    ∀ path p, w_policies w' !! path = Some p → Due p now = true → ∃ e, Wrapf (path +:+ ": ") e ∈ errs.
Proof.
  intros Hok Hnow Henv. destruct (policies_listed w Hok) as (Hnd & Hall & Hin).
  destruct (run_due_loop_spec parse_duration k tenantMode webhook cx subject now envs _ 0 0 [] w Hnow Henv Hnd Hall) as (w' & n & es & E & Hn & Hu & Hout & Hes).
  exists w', n, es. split_and!; [exact E|lia|done|]. intros path p Hp Hd.
  destruct (w_policies w !! path) as [p0|] eqn:E0.
  - destruct (Hin _ _ E0) as [-> Hl]. destruct (Hes _ Hl) as (p' & Hp' & _ & He). rewrite Hp in Hp'. injection Hp' as <-. by apply He.
  - rewrite Hout in Hp; [congruence|]. intros (q & -> & Hq)%list_elem_of_fmap. eapply Forall_forall in Hall as [Hq' _]; [|exact Hq]. congruence.
Qed.
End due_theorems.

(** ** What stops the maintenance *)

Section blocked.
Context {C : Type} `{CacheStore C} `{Aead} `{Json} `{ResultJson} `{UrlParser} {codec : TokenCodec} `{DbExternals} `{SshExternals} `{X509} (k : KeyRing)
  (tenantMode rotationWebhook : bool).

(** One policy with the script generator, which [Rotation_PutPolicy] accepts and the
    process cannot run, stops the orchestration: every run ends with its error
    before a database or SSH lease or a certificate is renewed, and the policy
    stays due. *)
Theorem script_policy_blocks_run (w : World C) o cx subject (env : RunEnv) dbGrace sshGrace pkiGrace p :
  policies_ok w → 0 < rx_now env → (∀ i, rx_now env ≤ rv_now (rx_rotation env i)) → oc_rotation o = true →
  w_policies w !! rp_Path p = Some p → rp_Generator p = GeneratorScriptRef → Due p (rx_now env) = true →
  ∃ w' errs, Run k tenantMode rotationWebhook o cx subject env dbGrace sshGrace pkiGrace w = (w', Ok (inr errs)) ∧ errs ≠ [] ∧
    untouched w w' ∧ w_policies w' !! rp_Path p = Some p.
Proof.
  intros Hok Hnow Henv Ho Hp Hg Hd. destruct (policies_listed w Hok) as (Hnd & Hall & Hin).
  destruct (run_due_loop_spec parse_duration k tenantMode rotationWebhook cx subject _ (rx_rotation env) _ 0 0 [] w Hnow Henv Hnd Hall)
    as (w' & n & es & E & _ & Hu & _ & Hes).
  destruct (Hes p) as (p' & Hp' & [->|Hg'] & He); [by eapply Hin|..]; [|rewrite Hg in Hg'; done].
  destruct (He Hd) as [e Hin']. assert (Hne : es ≠ []) by (intros ->; by apply not_elem_of_nil in Hin').
  exists w', es. split_and!; [|done|done|done]. unfold Run. rewrite Ho. cbn [only_if]. erewrite prog_bind_ok by exact E. cbn.
  by rewrite bool_decide_eq_true_2 by done.
Qed.
End blocked.

Section tenants.
Context {C : Type} `{CacheStore C} `{Aead} `{Json} `{ResultJson} {codec : TokenCodec} (parse_duration : string → option Duration) (k : KeyRing) (webhook : bool).

Lemma RotatePath_no_tenant (w : World C) cx subject env p : cx_tenant cx = "" →
  let '(w', x) := RotatePath parse_duration k true webhook cx subject env p w in
  x <> Ok tt ∧ w_policies w' = w_policies w ∧ ss_repo (w_secrets w') = ss_repo (w_secrets w).
Proof.
  intros Hcx. unfold RotatePath, mbind, prog_bind, lift. destruct (GenerateRotationValue _ _); [|done].
  unfold attempt, on_secrets, zoom, Secrets_Get, getVersion, Secrets_Put, mbind, prog_bind, lift, scopePath. rewrite Hcx. done.
Qed.

(** With tenants the scheduled rotation never rotates: policies are stored under
    scoped paths, but the job runs without a namespace, and without one every
    path is refused. *)
Theorem tenant_rotation_never_runs (w : World C) now envs :
  ∃ w' errs, RunDue parse_duration k true webhook job_cx None now envs w = (w', Ok (0, errs)) ∧
    w_policies w' = w_policies w ∧ ss_repo (w_secrets w') = ss_repo (w_secrets w) ∧
    Z.of_nat (length errs) = due_count now (RotationPolicyRepository_List (w_policies w)).
Proof.
  unfold RunDue. generalize (RotationPolicyRepository_List (w_policies w)) as ps.
  assert (Hg : ∀ ps i errs w, ∃ w' es, run_due_loop parse_duration k true webhook job_cx None now envs i 0 errs ps w = (w', Ok (0, errs ++ es)) ∧
    w_policies w' = w_policies w ∧ ss_repo (w_secrets w') = ss_repo (w_secrets w) ∧ Z.of_nat (length es) = due_count now ps).
  2:{ intros ps. destruct (Hg ps 0%nat [] w) as (w' & es & -> & ?). eauto. }
  clear w. unfold due_count. induction ps as [|p ps IH]; intros i errs w; [exists w, []; by rewrite app_nil_r|].
  cbn [run_due_loop]. destruct (Due p now) eqn:Hd; cbn [negb].
  - rewrite filter_cons_True by done. unfold mbind, prog_bind, attempt.
    assert (Hr := RotatePath_no_tenant w job_cx None (envs i) p eq_refl). destruct (RotatePath _ _ _ _ _ _ _ _ _) as [w1 [[]|e]]; [by destruct Hr|].
    destruct Hr as (_ & Hr1 & Hr2). destruct (IH (S i) (errs ++ [Wrapf (rp_Path p +:+ ": ") e]) w1) as (w' & es & -> & Hw1 & Hw2 & Hl).
    exists w', (Wrapf (rp_Path p +:+ ": ") e :: es). rewrite <-app_assoc. split_and!; [done|congruence|congruence|cbn; lia].
  - rewrite filter_cons_False by congruence. apply IH.
Qed.
End tenants.

(** ** Examples *)

#[local] Existing Instance toy_aead.
#[local] Existing Instance text_json.
#[local] Existing Instance text_result.
#[local] Existing Instance toy_codec.
#[local] Existing Instance any_url.
#[local] Existing Instance demo_externals.
#[local] Existing Instance toy_ssh.
#[local] Existing Instance toy_x509.

Definition daily (path generator : string) : RotationPolicy := mkRotationPolicy path 86400 generator "rotate.sh" 0 true.
Definition demo_world (policies : list RotationPolicy) : World MemoryStore :=
  mkWorld start_service (list_to_map ((λ p, (rp_Path p, p)) <$> policies)) (mkPKIService (mkPki ∅ None None None) (Some [])) [].
Definition demo_rotation (i : nat) : RotationEnv := mkRotationEnv (Ok (bytes_of "raw")) (clock_at 200) (fresh_at 200) 200.

Lemma demo_policies_ok generator : generator = GeneratorRandomPassword ∨ generator = GeneratorScriptRef → policies_ok (demo_world [daily "app/db" generator]).
Proof.
  intros Hg. split; cbn; (apply map_Forall_insert_2; [|apply map_Forall_empty]).
  - split; [done|]. by destruct Hg as [->| ->].
  - done.
Qed.

Lemma run_due_complete_witness : ∃ w' n errs,
  RunDue sixty (demo_ring "a") false true no_tenant None 100 demo_rotation (demo_world [daily "app/db" GeneratorRandomPassword]) = (w', Ok (n, errs)) ∧
  n + Z.of_nat (length errs) = 1.
Proof.
  destruct (run_due_complete sixty (demo_ring "a") false true (demo_world [daily "app/db" GeneratorRandomPassword]) no_tenant None 100 demo_rotation)
    as (w' & n & errs & E & Hn & _); [apply demo_policies_ok; left; reflexivity|reflexivity|intros i; discriminate|].
  exists w', n, errs. split; [exact E|]. rewrite Hn. vm_compute. reflexivity.
Defined.

Definition demo_run : RunEnv := mkRunEnv 100 demo_rotation 300 (λ _, (300, fresh_at 300)) 300 (λ _, (300, fresh_at 300, mkSshRandom _ (λ _, Err (Plain "")) (Err (Plain "")) 300)) 300
  (λ _, mkPkiEnv _ 9 300 300 demo_entropy (1, 300)).

Lemma script_policy_blocks_run_witness : ∃ w' errs,
  Run (demo_ring "a") false true (mkOrchestration true true true true true) no_tenant None demo_run (24 * Hour) 0 (72 * Hour)
    (demo_world [daily "app/db" GeneratorScriptRef]) = (w', Ok (inr errs)) ∧ errs ≠ [].
Proof.
  destruct (script_policy_blocks_run (demo_ring "a") false true (demo_world [daily "app/db" GeneratorScriptRef]) (mkOrchestration true true true true true)
    no_tenant None demo_run (24 * Hour) 0 (72 * Hour) (daily "app/db" GeneratorScriptRef)) as (w' & errs & E & Hne & _);
    [apply demo_policies_ok; right; reflexivity|reflexivity|intros i; discriminate|reflexivity|reflexivity|reflexivity|reflexivity|].
  exists w', errs. split; [exact E|exact Hne].
Defined.

(** Without tenants the same rotation writes a first version, sends its
    notification and is then no longer due. *)
Example rotation_works :
  let w := (runKVRotation (demo_ring "a") false true (mkJobRunner true true true true true true true None 0) 100 demo_rotation
              (demo_world [daily "app/db" GeneratorRandomPassword])).1 in
  read_at 300 0 (w_secrets w) = Some (RawURLEncode (bytes_of "raw")) ∧ length (w_events w) = 1%nat ∧
  (λ p, Due p 300) <$> w_policies w !! "app/db" = Some false.
Proof. vm_compute. split_and!; reflexivity. Qed.
