(* ===== verification/Exposure.v ===== *)
(** Signed requests: reports of exposed secrets with their protection against
    replays (internal/api/middleware/exposure.go), the handler that acts on a
    report (ReportExposure in internal/api/handlers/sys.go), and the signatures
    of other requests (internal/api/middleware/signing.go).

    HMAC-SHA256 in hexadecimal is the parameter [hmac_hex]. A middleware returns
    the message of its refusal, or nothing when the request is passed on. *)

From S2P Require Import Prelude.
From S2P Require Import Effects.
From S2P Require Import GoLib.
From S2P Require Import Domain.
From S2P Require Import Lockout.
From S2P Require Import Cache.
From S2P Require Import DynamicRoles.
From S2P Require Import Repos.
From S2P Require Import AuditHelper.
From S2P Require Import Tenant.
From S2P Require Import TokenStore.
From S2P Require Import SecretRepo.
From S2P Require Import Crypto.
From S2P Require Import KVEngine.
From S2P Require Import Cubbyhole.
From S2P Require Import Credentials.
From S2P Require Import Secrets.
From S2P Require Import DatabaseEngine.
From S2P Require Import SSHEngine.
From S2P Require Import PkiEngine.
From S2P Require Import Jobs.

#[local] Open Scope Z_scope.

(** [time.Unix(sec, 0)]: the seconds since year 1 are an [int64]. *)
Definition time_Unix (sec : Z) : Time := wrap64 (sec + 62135596800) * Second.

(** ** exposure.go *)

Definition MaxExposureSkew : Duration := 5 * Minute.
Definition exposureReplayKeyPrefix : string := "knxvault:exposure:replay:".

Record ExposureSigning (S : Type) := mkExposureSigning {
  xs_key : bytes;
  xs_seen : gmap string Time;
  xs_seenTTL : Duration;
  xs_maxSkew : Duration;
  xs_replay : option S;
}.
Arguments mkExposureSigning {S}.
Arguments xs_key {S}.
Arguments xs_seen {S}.
Arguments xs_seenTTL {S}.
Arguments xs_maxSkew {S}.
Arguments xs_replay {S}.

(** A report: its headers, its body, and the readings of the clock for the skew
    and for the replay check; the last two belong to a store without increment. *)
Record ExposureRequest := mkExposureRequest {
  xq_Signature : string;
  xq_Timestamp : string;
  xq_Body : res bytes;
  xq_now : Time;
  xq_mark : Time;
  xq_get : Time;
  xq_set : Time;
}.

Section exposure.
Context {S : Type} `{CacheStore S} (hmac_hex : bytes → bytes → string).
Implicit Type s : ExposureSigning S.

(** No middleware without a key. *)
Definition NewExposureSigning (key : string) : option (ExposureSigning S) :=
  if key =s "" then None else Some (mkExposureSigning (bytes_of key) ∅ (5 * Minute) MaxExposureSkew None).

Definition SetReplayStore s (store : option S) : ExposureSigning S := mkExposureSigning (xs_key s) (xs_seen s) (xs_seenTTL s) (xs_maxSkew s) store.
Definition set_seen s (seen : gmap string Time) : ExposureSigning S := mkExposureSigning (xs_key s) seen (xs_seenTTL s) (xs_maxSkew s) (xs_replay s).

(** [CacheExposureReplayStore.MarkSeen]: an error of the counter counts as seen. *)
Definition MarkSeen (store : S) (now1 now2 now3 : Time) (key : string) (ttl : Duration) : S * bool :=
  let ttl := if ttl <=? 0 then 5 * Minute else ttl in
  let full := exposureReplayKeyPrefix +:+ key in
  match cs_Incr with
  | Some incr => match incr store now1 full ttl with
                 | (store, Ok n) => (store, n =? 1)
                 | (store, Err _) => (store, false)
                 end
  | None => match cs_Get store now2 full with
            | Some _ => (store, false)
            | None => (cs_Set store now3 full (bytes_of "1") ttl, true)
            end
  end.

Definition markSeen s (now1 now2 now3 : Time) (signature : string) : ExposureSigning S * bool :=
  let ttl := if xs_seenTTL s <=? 0 then 5 * Minute else xs_seenTTL s in
  match xs_replay s with
  | Some store => let '(store, b) := MarkSeen store now1 now2 now3 signature ttl in (SetReplayStore s (Some store), b)
  | None =>
      let seen := filter (λ kv, ttl <? Sub now1 kv.2 = false) (xs_seen s) in
      match seen !! signature with
      | Some _ => (set_seen s seen, false)
      | None => (set_seen s (<[signature := now1]> seen), true)
      end
  end.

Definition SignExposurePayload (key : bytes) (timestamp : string) (body : bytes) : string :=
  hmac_hex key (bytes_of timestamp ++ [ascii_of_nat 10] ++ body).

Definition Exposure_Middleware s (c : ExposureRequest) : ExposureSigning S * option string :=
  if bool_decide (xs_key s = []) then (s, Some "exposure signing not configured")
  else if xq_Signature c =s "" then (s, Some "exposure signature required")
  else if xq_Timestamp c =s "" then (s, Some "exposure timestamp required")
  else match Atoi (xq_Timestamp c) with
  | None => (s, Some "invalid exposure timestamp")
  | Some tsUnix =>
      let skew := if xs_maxSkew s <=? 0 then MaxExposureSkew else xs_maxSkew s in
      let d := Sub (xq_now c) (time_Unix tsUnix) in
      if (skew <? d) || (d <? - skew) then (s, Some "exposure timestamp outside allowed skew")
      else match xq_Body c with
      | Err _ => (s, Some "read body failed")
      | Ok body =>
          if negb (xq_Signature c =s SignExposurePayload (xs_key s) (xq_Timestamp c) body) then (s, Some "invalid exposure signature")
          else
            let '(s, fresh) := markSeen s (xq_mark c) (xq_get c) (xq_set c) (xq_Timestamp c +:+ ":" +:+ xq_Signature c) in
            (s, if fresh then None else Some "exposure report replay detected")
      end
  end.
End exposure.

(** ** ReportExposure *)

Record ExposureReportRequest := mkExposureReport {
  er_Detector : string;
  er_Fingerprint : string;
  er_SecretPath : string;
  er_LeaseID : string;
  er_Severity : string;
}.

Definition lease_id_char (c : ascii) : bool :=
  let n := nat_of_ascii c in
  (Nat.leb 97 n && Nat.leb n 122) || (Nat.leb 65 n && Nat.leb n 90) || (Nat.leb 48 n && Nat.leb n 57) ||
  bool_decide (c = "."%char) || bool_decide (c = "_"%char) || bool_decide (c = "-"%char) || bool_decide (c = "/"%char).

Definition validExposureLeaseID (id : string) : bool :=
  let id := TrimSpace id in
  if Nat.ltb (String.length id) 4 || Nat.ltb 128 (String.length id) then false else forallb lease_id_char (bytes_of id).

Definition exposurePathAllowed (path : string) (prefixes : list string) : bool :=
  let path := TrimSpace path in
  if (path =s "") || Contains path ".." then false
  else existsb (λ p, let p := TrimSpace p in
                     negb (p =s "") && ((path =s p) || HasPrefix path (TrimSuffix p "/" +:+ "/") || HasPrefix path p)) prefixes.

(** The settings of the handler. *)
Record SysHandler := mkSysHandler {
  sh_sealed : bool;
  sh_exposureAuto : bool;
  sh_database : bool;
  sh_rotation : bool;
  sh_exposureWebhook : bool;
  sh_exposurePathPrefixes : list string;
}.

Section report.
Context {C : Type} `{CacheStore C} `{Aead} `{Json} `{ResultJson} `{UrlParser} {codec : TokenCodec} `{DbExternals} `{SshExternals} `{X509} (k : KeyRing)
  (tenantMode rotationWebhook : bool) (h : SysHandler).
Abbreviation M := (prog (World C)).

Definition revoke_exposed (cx : TenantCtx) (subject : option string) (now : Time) (req : ExposureReportRequest) : M (list string) :=
  if negb (er_LeaseID req =s "") && sh_database h && validExposureLeaseID (er_LeaseID req) then
    x ← attempt (on_vault_of (DatabaseService_Revoke k tenantMode cx subject now (er_LeaseID req)));
    mret (if is_ok x then ["lease_revoked"] else [])
  else mret [].

Definition rotate_exposed (cx : TenantCtx) (subject : option string) (env : RotationEnv) (req : ExposureReportRequest) : M (list string) :=
  if negb (er_SecretPath req =s "") && sh_rotation h && exposurePathAllowed (er_SecretPath req) (sh_exposurePathPrefixes h) then
    x ← attempt (policy ← Rotation_GetPolicy (er_SecretPath req); RotatePath parse_duration k tenantMode rotationWebhook cx subject env policy);
    mret (if is_ok x then ["kv_rotated"] else [])
  else mret [].

(** The actions taken, which the response reports. *)
Definition ReportExposure (cx : TenantCtx) (subject : option string) (now : Time) (env : RotationEnv) (req : ExposureReportRequest) : M (list string) :=
  actions ← (if sh_exposureAuto h && negb (sh_sealed h) then
               a ← revoke_exposed cx subject now req;
               b ← rotate_exposed cx subject env req;
               mret (a ++ b)
             else mret []);
  _ ← when (sh_exposureWebhook h)
        (Send (mkEvent "exposure.reported" (er_SecretPath req) (er_LeaseID req) (er_Severity req) (er_Detector req)
                 [("fingerprint", VStr (er_Fingerprint req)); ("actions", VStrs actions)]));
  mret actions.
End report.

(** ** signing.go *)

Definition maxSkew : Duration := 5 * Minute.

Record RequestSigning := mkRequestSigning { rs_key : bytes; rs_required : bool }.

Definition NewRequestSigning (key : string) (required : bool) : RequestSigning :=
  if key =s "" then mkRequestSigning [] false else mkRequestSigning (bytes_of key) required.

Record SignedRequest := mkSignedRequest {
  sq_Method : string;
  sq_Path : string;
  sq_Signature : string;
  sq_Timestamp : string;
  sq_Body : res bytes;
}.

Definition bar : ascii := "|".
Definition signed_text (method path timestamp : string) (body : bytes) : bytes :=
  bytes_of method ++ [bar] ++ bytes_of path ++ [bar] ++ bytes_of timestamp ++ [bar] ++ body.

Section signing.
Context (hmac_hex : bytes → bytes → string).

Definition computeRequestSignature (key : bytes) (method path timestamp : string) (body : bytes) : string :=
  hmac_hex key (signed_text method path timestamp body).

Definition Signing_Middleware (s : RequestSigning) (now : Time) (c : SignedRequest) : option string :=
  if bool_decide (rs_key s = []) then None
  else if (sq_Signature c =s "") || (sq_Timestamp c =s "") then if rs_required s then Some "signed request required" else None
  else match Atoi (sq_Timestamp c) with
  | None => Some "invalid request timestamp"
  | Some ts =>
      if Before (time_Unix ts) (now - maxSkew) || After (time_Unix ts) (now + maxSkew) then Some "request timestamp out of range"
      else match sq_Body c with
      | Err _ => Some "read request body"
      | Ok body =>
          if negb (sq_Signature c =s computeRequestSignature (rs_key s) (sq_Method c) (sq_Path c) (sq_Timestamp c) body)
          then Some "invalid request signature" else None
      end
  end.

(** The request with its headers set; the error of its body otherwise. *)
Definition SignRequest (key : bytes) (now : Time) (c : SignedRequest) : res SignedRequest :=
  if bool_decide (key = []) then Ok c
  else
    body ← sq_Body c;
    let ts := Itoa (Unix now) in
    Ok (mkSignedRequest (sq_Method c) (sq_Path c) (computeRequestSignature key (sq_Method c) (sq_Path c) ts body) ts (Ok body)).
End signing.

(** ** Replays *)

Section replay.
Context {S : Type} `{LawfulCache S} (hmac_hex : bytes → bytes → string).
Implicit Type s : ExposureSigning S.

(** The settings [NewExposureSigning] makes. *)
Definition default_settings s : Prop := xs_seenTTL s = 5 * Minute ∧ xs_maxSkew s = MaxExposureSkew.

Definition replay_key (c : ExposureRequest) : string := xq_Timestamp c +:+ ":" +:+ xq_Signature c.

(** A key is marked until [u] and was counted at most [b] times: neither the map
    nor the shared store forgets it before. *)
Definition marked s (key : string) (u : Time) (b : Z) : Prop :=
  match xs_replay s with
  | None => ∃ at_, xs_seen s !! key = Some at_ ∧ u ≤ at_ + 5 * Minute
  | Some store => ∃ n until, (cview store : gmap string entry) !! (exposureReplayKeyPrefix +:+ key) = Some (mkEntry (bytes_of (itoa n)) until) ∧
                    0 < n ≤ b ∧ u ≤ until
  end.

Lemma Sub_gt c a b : - 2 ^ 63 < c < 2 ^ 63 - 1 → (c <? Sub a b) = (c <? a - b).
Proof. intros Hc. unfold Sub. apply eq_true_iff_eq. rewrite !Z.ltb_lt. lia. Qed.
Lemma Sub_lt c a b : - 2 ^ 63 < c < 2 ^ 63 - 1 → (Sub a b <? c) = (a - b <? c).
Proof. intros Hc. unfold Sub. apply eq_true_iff_eq. rewrite !Z.ltb_lt. lia. Qed.

(** The default in the place of a duration that is not positive. *)
Local Ltac settle_ttl := cbv zeta; change (if 5 * Minute <=? 0 then 5 * Minute else 5 * Minute) with (5 * Minute).

Lemma replay_prefix_inj key key' : exposureReplayKeyPrefix +:+ key = exposureReplayKeyPrefix +:+ key' → key = key'.
Proof. unfold exposureReplayKeyPrefix. intros E. by repeat injection E as E. Qed.

Lemma Ok_inj {A} (a b : A) : Ok a = Ok b → a = b.
Proof. by intros [= ->]. Qed.

(** The shared store, if there is one, answers. *)
Definition reached s : Prop := match xs_replay s with Some store => answers store | None => True end.

Lemma MarkSeen_incr store now1 now2 now3 key : answers store → ∃ store' n, MarkSeen store now1 now2 now3 key (5 * Minute) = (store', n =? 1) ∧
  Memory_Incr (cview store) now1 (exposureReplayKeyPrefix +:+ key) (5 * Minute) = (cview store', Ok n).
Proof.
  intros Ha. unfold MarkSeen. destruct cache_incr as (incr & -> & Hl). settle_ttl. destruct (Hl store now1 (exposureReplayKeyPrefix +:+ key) (5 * Minute) Ha) as (s' & n & E1 & E2).
  exists s', n. by rewrite E1.
Qed.

(** The first mark of a key. *)
Lemma markSeen_fresh s now1 now2 now3 key s' : reached s → xs_seenTTL s = 5 * Minute → markSeen s now1 now2 now3 key = (s', true) → marked s' key (now1 + 5 * Minute) 1.
Proof.
  intros Ha Ht. unfold markSeen, marked, reached in *. rewrite Ht. settle_ttl. destruct (xs_replay s) as [store|] eqn:Er.
  - destruct (MarkSeen_incr store now1 now2 now3 key Ha) as (store' & n & E1 & E2). rewrite E1. intros [= <- Hn]. apply Z.eqb_eq in Hn as ->. cbn [xs_replay SetReplayStore].
    unfold Memory_Incr in E2. apply pair_equal_spec in E2 as [<- E2]. apply Ok_inj in E2. exists 1, (now1 + 5 * Minute).
    rewrite lookup_insert_eq. split_and!; [by rewrite E2|lia|lia|done].
  - case_match; [done|]. intros [= <-]. cbn. rewrite Er. exists now1. by rewrite lookup_insert_eq.
Qed.

(** A marked key stays marked, and is refused, until its time has come. *)
Lemma markSeen_marked s now1 now2 now3 key key' u b s' x : reached s → xs_seenTTL s = 5 * Minute → marked s key u b → 0 ≤ b < 2 ^ 63 - 1 → u ≤ now1 + 5 * Minute →
  markSeen s now1 now2 now3 key' = (s', x) → (marked s' key u (b + 1) ∧ (key' = key → x = false)) ∨ u ≤ now1.
Proof.
  intros Ha Ht Hm Hb Hu. unfold markSeen, marked, reached in *. rewrite Ht. settle_ttl. destruct (xs_replay s) as [store|] eqn:Er.
  - destruct Hm as (n & until & Hl & Hn & Hun). destruct (MarkSeen_incr store now1 now2 now3 key' Ha) as (store' & m & E1 & E2). rewrite E1. intros [= <- <-]. cbn [xs_replay SetReplayStore].
    unfold Memory_Incr in E2. destruct (decide (key' = key)) as [->|Hne].
    + rewrite Hl in E2. cbn [en_value en_until] in E2. destruct (Before now1 until) eqn:Eb; [|right; apply Z.ltb_ge in Eb; lia].
      rewrite parse_prior_itoa, wrap64_id in E2 by lia. apply pair_equal_spec in E2 as [<- E2]. apply Ok_inj in E2 as <-. left.
      split; [|intros _; apply Z.eqb_neq; lia]. exists (n + 1), (now1 + 5 * Minute). rewrite lookup_insert_eq. split_and!; [done|lia|lia|done].
    + apply pair_equal_spec in E2 as [<- _]. left. split; [|done]. exists n, until. rewrite lookup_insert_ne by (intros E; by apply replay_prefix_inj in E). split_and!; [done|lia|lia|done].
  - destruct Hm as (at_ & Hl & Hun). set (seen := filter _ _). destruct (decide (5 * Minute < now1 - at_)) as [Hold|Hnew]; [right; lia|].
    assert (Hk : seen !! key = Some at_).
    { apply map_lookup_filter_Some. split; [done|]. cbn. rewrite Sub_gt by (split; reflexivity). apply Z.ltb_ge. lia. }
    destruct (seen !! key') as [t|] eqn:Ek; intros [= <- <-]; left; cbn; rewrite Er; (split; [|intros ->; congruence]); exists at_; [done|].
    rewrite lookup_insert_ne; [done|]. intros ->. congruence.
Qed.

Lemma markSeen_settings s now1 now2 now3 key : let s' := (markSeen s now1 now2 now3 key).1 in
  xs_key s' = xs_key s ∧ xs_seenTTL s' = xs_seenTTL s ∧ xs_maxSkew s' = xs_maxSkew s.
Proof. unfold markSeen. destruct (xs_replay s); [destruct (MarkSeen _ _ _ _ _ _)|case_match]; done. Qed.

Abbreviation middleware := (Exposure_Middleware hmac_hex).

(** What a request does to the marks. *)
Lemma middleware_cases s c : (∃ m, middleware s c = (s, Some m)) ∨
  ∃ ts body, Atoi (xq_Timestamp c) = Some ts ∧ xq_Body c = Ok body ∧ xq_Signature c = SignExposurePayload hmac_hex (xs_key s) (xq_Timestamp c) body ∧
    (default_settings s → - (5 * Minute) ≤ xq_now c - time_Unix ts ≤ 5 * Minute) ∧
    middleware s c = let '(s', fresh) := markSeen s (xq_mark c) (xq_get c) (xq_set c) (replay_key c) in
                     (s', if fresh then None else Some "exposure report replay detected").
Proof.
  unfold Exposure_Middleware. case_bool_decide; [eauto|]. case_bool_decide; [eauto|]. case_bool_decide; [eauto|].
  destruct (Atoi (xq_Timestamp c)) as [ts|]; [|eauto]. destruct (_ || _) eqn:Es; [eauto|]. destruct (xq_Body c) as [body|]; [|eauto].
  destruct (negb _) eqn:En; [eauto|]. right. exists ts, body. apply negb_false_iff, bool_decide_eq_true in En. split_and!; [done..| |done].
  intros [_ Hs]. rewrite Hs in Es. cbn [Z.leb MaxExposureSkew] in Es. change (if MaxExposureSkew <=? 0 then MaxExposureSkew else MaxExposureSkew) with (5 * Minute) in Es.
  apply orb_false_iff in Es as [E1 E2]. rewrite Sub_gt in E1 by (split; reflexivity). rewrite Sub_lt in E2 by (split; reflexivity). apply Z.ltb_ge in E1, E2. lia.
Qed.

Lemma middleware_settings s c : default_settings s → default_settings (middleware s c).1.
Proof.
  intros Hs. destruct (middleware_cases s c) as [[m ->]|(ts & body & _ & _ & _ & _ & ->)]; [done|].
  assert (E := markSeen_settings s (xq_mark c) (xq_get c) (xq_set c) (replay_key c)). destruct (markSeen _ _ _ _ _). cbn in *.
  unfold default_settings in *. destruct E as (_ & -> & ->). done.
Qed.

Definition exposure_run s (cs : list ExposureRequest) : ExposureSigning S := foldl (λ s c, (middleware s c).1) s cs.

(** The store is reached at each of the requests. *)
Fixpoint always_reached s (cs : list ExposureRequest) : Prop :=
  match cs with [] => True | c :: cs => reached s ∧ always_reached (middleware s c).1 cs end.

Lemma always_reached_app s cs c : always_reached s (cs ++ [c]) → always_reached s cs ∧ reached (exposure_run s cs).
Proof. revert s. induction cs as [|x cs IH]; intros s; cbn; [naive_solver|]. intros [Hx Hcs]. apply IH in Hcs. naive_solver. Qed.

Lemma exposure_run_marked cs : ∀ s key u b now, default_settings s → always_reached s cs → marked s key u b → 0 ≤ b → b + Z.of_nat (length cs) < 2 ^ 63 - 1 →
  Forall (λ c, u ≤ xq_mark c + 5 * Minute ∧ xq_mark c ≤ now) cs →
  (∃ b', marked (exposure_run s cs) key u b' ∧ 0 ≤ b' ≤ b + Z.of_nat (length cs)) ∨ u ≤ now.
Proof.
  induction cs as [|c cs IH]; intros s key u b now Hs Hrc Hm Hb Hlen Hcs; [left; exists b; cbn; split; [done|lia]|].
  apply Forall_cons in Hcs as [[Hu Hnow] Hcs]. cbn [length exposure_run foldl always_reached] in *. destruct Hrc as [Hr Hrc]. rewrite Nat2Z.inj_succ in Hlen.
  assert (Hs' := middleware_settings s c Hs). destruct (middleware_cases s c) as [[m E]|(ts & body & _ & _ & _ & _ & E)].
  - rewrite E in *. cbn [fst] in *. destruct (IH s key u b now Hs Hrc Hm) as [(b' & Hm' & Hb')|?]; [lia|lia|done| |auto]. left. exists b'. split; [exact Hm'|lia].
  - rewrite E in *. destruct (markSeen s (xq_mark c) (xq_get c) (xq_set c) (replay_key c)) as [s1 x] eqn:Em. cbn [fst] in *.
    destruct (markSeen_marked s _ _ _ key _ u b s1 x Hr (proj1 Hs) Hm ltac:(lia) Hu Em) as [[Hm1 _]|?]; [|right; lia].
    destruct (IH s1 key u (b + 1) now Hs' Hrc Hm1) as [(b' & Hm' & Hb')|?]; [lia|lia|done| |auto]. left. exists b'. split; [exact Hm'|lia].
Qed.

(** C32. A report is acted on once: after it was passed on, the same report is refused
    however often it is sent again and whatever other reports come in between, by
    a process with its own map or with a store. Assumed: the times to live and the
    skew that [NewExposureSigning] sets, fewer than 2^63 - 3 reports, a clock that
    does not run backwards, a store that answers each increment, and a report that
    was not dated ahead of the clock: it is older than the pause between the two
    readings of the clock in the request that repeats it. *)
Theorem exposure_report_once s c cs c' ts :
  default_settings s → always_reached s (c :: cs ++ [c']) → Z.of_nat (length cs) < 2 ^ 63 - 3 → (middleware s c).2 = None →
  Atoi (xq_Timestamp c) = Some ts → xq_Timestamp c' = xq_Timestamp c → xq_Signature c' = xq_Signature c →
  Forall (λ x, xq_mark c ≤ xq_mark x ≤ xq_now c') cs → xq_mark c ≤ xq_now c' ≤ xq_mark c' →
  xq_mark c' - xq_now c' < xq_mark c - time_Unix ts →
  (middleware (exposure_run (middleware s c).1 cs) c').2 ≠ None.
Proof.
  intros Hs [Hr Hrc] Hlen Hpass Hts Et Esig Hcs Hclk Hgap.
  destruct (middleware_cases s c) as [[m E]|(ts' & body & _ & _ & _ & _ & E)]; [by rewrite E in Hpass|].
  assert (Hs1 := middleware_settings s c Hs). rewrite E in Hpass, Hs1, Hrc |- *.
  destruct (markSeen s (xq_mark c) (xq_get c) (xq_set c) (replay_key c)) as [s1 x] eqn:Em. cbn [fst snd] in *. destruct x; [|done].
  apply markSeen_fresh in Em; [|done|apply Hs]. apply always_reached_app in Hrc as [Hrc Hr']. set (u := xq_mark c + 5 * Minute) in *.
  assert (Hs2 : default_settings (exposure_run s1 cs)).
  { clear -Hs1 H0. unfold exposure_run. revert s1 Hs1. induction cs as [|x cs IH]; intros s1 Hs1; [done|]. cbn. by apply IH, middleware_settings. }
  destruct (exposure_run_marked cs s1 (replay_key c) u 1 (xq_now c') Hs1 Hrc Em) as [(b & Hm & Hb)|Hlate]; [lia|lia| | |].
  { eapply Forall_impl; [exact Hcs|]. cbn. unfold u. intros y ?. lia. }
  - destruct (middleware_cases (exposure_run s1 cs) c') as [[m ->]|(ts2 & body' & Hts' & _ & _ & Hskew & ->)]; [done|].
    rewrite Et, Hts in Hts'. injection Hts' as <-. specialize (Hskew Hs2).
    destruct (markSeen (exposure_run s1 cs) (xq_mark c') (xq_get c') (xq_set c') (replay_key c')) as [s2 y] eqn:E2.
    destruct (markSeen_marked _ (xq_mark c') _ _ (replay_key c) _ u b s2 y Hr' (proj1 Hs2) Hm ltac:(lia) ltac:(unfold u; lia) E2) as [[_ Hy]|Hlate]; [|unfold u in Hlate; lia].
    unfold replay_key in Hy. rewrite Et, Esig in Hy. by rewrite (Hy eq_refl).
  - destruct (middleware_cases (exposure_run s1 cs) c') as [[m ->]|(ts2 & body' & Hts' & _ & _ & Hskew & _)]; [done|].
    rewrite Et, Hts in Hts'. injection Hts' as <-. specialize (Hskew Hs2). unfold u in Hlate. lia.
Qed.
End replay.

(** ** What a report can do *)

Section contained.
Context {C : Type} `{CacheStore C} `{Aead} `{Json} `{ResultJson} `{UrlParser} {codec : TokenCodec} `{DbExternals} `{SshExternals} `{X509} (k : KeyRing)
  (tenantMode rotationWebhook : bool) (h : SysHandler).
Implicit Type w : World C.

Lemma revoke_exposed_spec cx subject now req w : ∃ w' a, revoke_exposed k tenantMode h cx subject now req w = (w', Ok a) ∧
  w_policies w' = w_policies w ∧ w_pki w' = w_pki w ∧ (validExposureLeaseID (er_LeaseID req) = false → w' = w).
Proof.
  unfold revoke_exposed. destruct (_ && validExposureLeaseID (er_LeaseID req)) eqn:Ev; [|eauto 10].
  unfold mbind, prog_bind, attempt, on_vault_of, on_secrets, zoom. destruct (on_vault _ _) as [s x]. eexists _, _. split; [done|].
  split_and!; [done|done|]. intros E. by rewrite E, andb_false_r in Ev.
Qed.

Lemma rotate_exposed_spec cx subject env req w : keyed_wf (w_policies w) → ∃ w' a, rotate_exposed k tenantMode rotationWebhook h cx subject env req w = (w', Ok a) ∧
  untouched w w' ∧ (∀ path, path ≠ er_SecretPath req → w_policies w' !! path = w_policies w !! path) ∧
  (exposurePathAllowed (er_SecretPath req) (sh_exposurePathPrefixes h) = false → w' = w).
Proof.
  intros Hwf. unfold rotate_exposed. destruct (_ && exposurePathAllowed _ _) eqn:Ev.
  2:{ exists w, []. split_and!; done. }
  unfold mbind, prog_bind, attempt, Rotation_GetPolicy, RotationPolicyRepository_Get, keyed_Get.
  assert (Hx : exposurePathAllowed (er_SecretPath req) (sh_exposurePathPrefixes h) = false → False) by (intros E; by rewrite E, andb_false_r in Ev).
  destruct (w_policies w !! er_SecretPath req) as [p|] eqn:Ep.
  - destruct (Hwf _ _ Ep) as [Hk _]. cbn in Hk. assert (Hp := RotatePath_policies parse_duration k tenantMode rotationWebhook cx subject env p w).
    assert (Hu := RotatePath_untouched parse_duration k tenantMode rotationWebhook cx subject env p w).
    destruct (RotatePath _ _ _ _ _ _ _ _ _) as [w' x]. cbn in Hu |- *. eexists _, _. split_and!; [done|exact Hu| |by intros E%Hx].
    intros path Hne. destruct x; [destruct Hp as [_ Hp]|]; rewrite Hp; [|done]. rewrite Hk. by rewrite lookup_insert_ne.
  - cbn. eexists _, _. split_and!; [done|done|done|by intros E%Hx].
Qed.

(** The reach of a report: it always gets its answer; while the vault is sealed,
    or without automatic actions, it changes nothing but the list of
    notifications; otherwise it leaves certificates and the policies of other
    paths alone, leaves every policy alone when its path is not allowed, and every
    lease alone when its lease identifier is not well-formed. *)
Theorem exposure_report_contained w cx subject now env req :
  keyed_wf (w_policies w) →
  ∃ w' actions, ReportExposure k tenantMode rotationWebhook h cx subject now env req w = (w', Ok actions) ∧
    (sh_exposureAuto h = false ∨ sh_sealed h = true → actions = [] ∧ w_secrets w' = w_secrets w ∧ w_policies w' = w_policies w) ∧
    w_pki w' = w_pki w ∧
    (∀ path, path ≠ er_SecretPath req → w_policies w' !! path = w_policies w !! path) ∧
    (exposurePathAllowed (er_SecretPath req) (sh_exposurePathPrefixes h) = false → w_policies w' = w_policies w) ∧
    (validExposureLeaseID (er_LeaseID req) = false → vt_leases (ss_vault (w_secrets w')) = vt_leases (ss_vault (w_secrets w))).
Proof.
  intros Hwf. unfold ReportExposure. destruct (sh_exposureAuto h && negb (sh_sealed h)) eqn:Ea.
  - destruct (revoke_exposed_spec cx subject now req w) as (w1 & a & E1 & Hp1 & Hk1 & Hv1).
    destruct (rotate_exposed_spec cx subject env req w1) as (w2 & b & E2 & Hu2 & Hp2 & Hv2); [by rewrite Hp1|].
    unfold mbind, prog_bind. rewrite E1, E2. cbn [mret prog_ret]. unfold mret, prog_ret.
    set (e := mkEvent "exposure.reported" (er_SecretPath req) (er_LeaseID req) (er_Severity req) (er_Detector req)
                [("fingerprint", VStr (er_Fingerprint req)); ("actions", VStrs (a ++ b))]).
    exists (when (sh_exposureWebhook h) (Send e) w2).1, (a ++ b). split; [by destruct (sh_exposureWebhook h)|].
    assert (Hw : w_secrets (when (sh_exposureWebhook h) (Send e) w2).1 = w_secrets w2 ∧ w_policies (when (sh_exposureWebhook h) (Send e) w2).1 = w_policies w2 ∧
                 w_pki (when (sh_exposureWebhook h) (Send e) w2).1 = w_pki w2) by (by destruct (sh_exposureWebhook h)).
    destruct Hw as (Hs & Hp & Hk).
    rewrite Hs, Hp, Hk. split_and!.
    + intros [E|E]; rewrite E in Ea; [done|]. by rewrite andb_false_r in Ea.
    + destruct Hu2. congruence.
    + intros path Hne. by rewrite Hp2, Hp1.
    + intros E. by rewrite (Hv2 E).
    + intros E. destruct Hu2 as [-> _]. by rewrite (Hv1 E).
  - unfold mbind, prog_bind, mret, prog_ret. destruct (sh_exposureWebhook h); cbn; eexists _, _; (split; [reflexivity|]); done.
Qed.
End contained.

(** ** Signed requests *)

Section signed.
Context (hmac_hex : bytes → bytes → string).

Lemma Unix_time_Unix now : 0 ≤ now < 2 ^ 62 * Second → now - Second < time_Unix (Unix now) ≤ now.
Proof.
  intros Hn. assert (Hb := Unix_bounds now). unfold time_Unix. unfold unix_epoch in Hb.
  rewrite wrap64_id by (unfold Second in *; lia). unfold Second in *. lia.
Qed.

(** What the client signs the server accepts, for the next five minutes less a
    second. *)
Theorem signed_request_accepted key required now now' c c' :
  key ≠ "" → unix_epoch ≤ now < 2 ^ 62 * Second → now ≤ now' ≤ now + 5 * Minute - Second →
  (∀ m, hmac_hex (bytes_of key) m ≠ "") → SignRequest hmac_hex (bytes_of key) now c = Ok c' →
  Signing_Middleware hmac_hex (NewRequestSigning key required) now' c' = None.
Proof.
  intros Hk Hnow Hnow' Hh. assert (Hkb : bytes_of key ≠ []) by (by destruct key).
  unfold SignRequest, NewRequestSigning, Signing_Middleware. rewrite !(bool_decide_eq_false_2 (bytes_of key = [])), (bool_decide_eq_false_2 (key = "")) by done.
  intros E. apply res_bind_ok in E as (body & Hbody & [= <-]). cbn [rs_key rs_required sq_Signature sq_Timestamp sq_Method sq_Path sq_Body].
  rewrite (bool_decide_eq_false_2 (bytes_of key = [])) by done. unfold computeRequestSignature at 1. rewrite bool_decide_eq_false_2 by done.
  assert (Hu : 0 ≤ Unix now < 2 ^ 63) by (assert (Hb := Unix_bounds now); unfold unix_epoch, Second in *; lia).
  assert (Hi : Itoa (Unix now) ≠ "") by (destruct (Itoa_nonempty _ Hu) as (b & raw & E); by destruct (Itoa (Unix now))).
  rewrite bool_decide_eq_false_2 by done. cbn [orb]. rewrite Atoi_Itoa by lia.
  assert (Ht := Unix_time_Unix now ltac:(unfold unix_epoch, Second in *; lia)).
  unfold Before, After. rewrite !(proj2 (Z.ltb_ge _ _)) by (unfold maxSkew in *; lia). cbn [orb].
  rewrite bool_decide_eq_true_2 by done. done.
Qed.

Lemma bar_split (a a' b b' : bytes) : bar ∉ a → bar ∉ a' → a ++ [bar] ++ b = a' ++ [bar] ++ b' → a = a' ∧ b = b'.
Proof.
  revert a'. induction a as [|x a IH]; intros [|x' a'] Ha Ha' E; cbn in E.
  - by injection E.
  - injection E as E _. destruct Ha'. rewrite E. left.
  - injection E as E _. destruct Ha. rewrite <-E. left.
  - injection E as <- E. destruct (IH a') as [-> ->]; [set_solver|set_solver|done|done].
Qed.

(** A signature belongs to one request: when the hash has no collisions, two
    requests that pass with the same signature under the same key have the same
    method, path, timestamp and body, unless one of these, the body apart,
    contains the separator. *)
Theorem signature_binds_request s now now' c c' :
  rs_key s ≠ [] → (∀ m m', hmac_hex (rs_key s) m = hmac_hex (rs_key s) m' → m = m') →
  (∀ x, x = c ∨ x = c' → sq_Signature x ≠ "" ∧ sq_Timestamp x ≠ "" ∧ bar ∉ bytes_of (sq_Method x) ∧ bar ∉ bytes_of (sq_Path x) ∧ bar ∉ bytes_of (sq_Timestamp x)) →
  Signing_Middleware hmac_hex s now c = None → Signing_Middleware hmac_hex s now' c' = None → sq_Signature c = sq_Signature c' →
  sq_Method c = sq_Method c' ∧ sq_Path c = sq_Path c' ∧ sq_Timestamp c = sq_Timestamp c' ∧ sq_Body c = sq_Body c'.
Proof.
  intros Hk Hinj Hx Hc Hc' Esig.
  assert (Hsig : ∀ now x, x = c ∨ x = c' → Signing_Middleware hmac_hex s now x = None → ∃ body, sq_Body x = Ok body ∧
    sq_Signature x = hmac_hex (rs_key s) (signed_text (sq_Method x) (sq_Path x) (sq_Timestamp x) body)).
  { intros n x Hin. destruct (Hx x Hin) as (H1 & H2 & _). unfold Signing_Middleware. rewrite (bool_decide_eq_false_2 (rs_key s = [])) by done.
    rewrite (bool_decide_eq_false_2 (sq_Signature x = "")), (bool_decide_eq_false_2 (sq_Timestamp x = "")) by done. cbn [orb].
    destruct (Atoi _); [|done]. destruct (_ || _); [done|]. destruct (sq_Body x) as [body|]; [|done].
    unfold computeRequestSignature. case_bool_decide as E; [|done]. intros _. by exists body. }
  destruct (Hsig now c) as (body & Hb & E1); [auto|done|]. destruct (Hsig now' c') as (body' & Hb' & E2); [auto|done|].
  rewrite E1, E2 in Esig. apply Hinj in Esig. unfold signed_text in Esig.
  destruct (Hx c) as (_ & _ & M1 & P1 & T1); [auto|]. destruct (Hx c') as (_ & _ & M2 & P2 & T2); [auto|].
  apply bar_split in Esig as [Em Esig]; [|done..]. apply bar_split in Esig as [Ep Esig]; [|done..]. apply bar_split in Esig as [Et Eb]; [|done..].
  rewrite Hb, Hb', Eb. rewrite <-(string_of_bytes (sq_Method c)), <-(string_of_bytes (sq_Path c)), <-(string_of_bytes (sq_Timestamp c)).
  by rewrite Em, Ep, Et, !string_of_bytes.
Qed.
End signed.

(** ** Examples *)

(** A hash that is injective for each key. *)
Definition toy_hmac (key msg : bytes) : string := "#" +:+ string_of (key ++ msg).

Definition reports : ExposureSigning MemoryStore := mkExposureSigning (bytes_of "key") ∅ (5 * Minute) MaxExposureSkew None.
Definition report_at (ts : string) (now : Z) : ExposureRequest :=
  let body := bytes_of "{}" in
  let t := unix_epoch + now * Second in
  mkExposureRequest (SignExposurePayload toy_hmac (bytes_of "key") ts body) ts (Ok body) t t t t.

Lemma exposure_report_once_witness :
  (Exposure_Middleware toy_hmac (exposure_run toy_hmac (Exposure_Middleware toy_hmac reports (report_at "1000" 1010)).1 [report_at "1001" 1020]) (report_at "1000" 1299)).2 ≠ None.
Proof.
  apply (exposure_report_once (H0:=memory_lawful) toy_hmac reports (report_at "1000" 1010) [report_at "1001" 1020] (report_at "1000" 1299) 1000).
  - split; reflexivity.
  - vm_compute. repeat split.
  - reflexivity.
  - vm_compute. reflexivity.
  - vm_compute. reflexivity.
  - reflexivity.
  - vm_compute. reflexivity.
  - repeat constructor; vm_compute; discriminate.
  - split; vm_compute; discriminate.
  - vm_compute. reflexivity.
Defined.

(** A report dated ahead of the clock outlives its mark: sent four minutes before
    its date it is passed on, and again six minutes later. *)
Example early_report_replayed :
  let s := Exposure_Middleware toy_hmac reports (report_at "1240" 1000) in
  s.2 = None ∧ (Exposure_Middleware toy_hmac s.1 (report_at "1240" 1360)).2 = None.
Proof. vm_compute. split; reflexivity. Qed.

#[local] Existing Instance toy_aead.
#[local] Existing Instance text_json.
#[local] Existing Instance text_result.
#[local] Existing Instance toy_codec.
#[local] Existing Instance any_url.
#[local] Existing Instance demo_externals.
#[local] Existing Instance toy_ssh.
#[local] Existing Instance toy_x509.

Lemma exposure_report_contained_witness : ∃ w' actions,
  ReportExposure (demo_ring "a") false true (mkSysHandler true true true true true ["app/"]) no_tenant None 300 (demo_rotation 0)
    (mkExposureReport "scanner" "f" "app/db" "" "high") (demo_world [daily "app/db" GeneratorRandomPassword]) = (w', Ok actions) ∧ actions = [].
Proof.
  destruct (exposure_report_contained (demo_ring "a") false true (mkSysHandler true true true true true ["app/"])
    (demo_world [daily "app/db" GeneratorRandomPassword]) no_tenant None 300 (demo_rotation 0) (mkExposureReport "scanner" "f" "app/db" "" "high"))
    as (w' & actions & E & Hs & _); [apply demo_policies_ok; left; reflexivity|].
  exists w', actions. split; [exact E|]. apply Hs. right. reflexivity.
Defined.

(** A prefix without a final slash is no boundary: the prefix of one application
    allows the paths of another whose name it begins. *)
Example prefix_is_no_boundary : exposurePathAllowed "application/db" ["app"] = true.
Proof. reflexivity. Qed.

Definition plain_request : SignedRequest := mkSignedRequest "GET" "/secrets/kv/app" "" "" (Ok []).

Lemma signed_request_accepted_witness : ∃ c', SignRequest toy_hmac (bytes_of "key") (unix_epoch + 1000 * Second) plain_request = Ok c' ∧
  Signing_Middleware toy_hmac (NewRequestSigning "key" true) (unix_epoch + 1100 * Second) c' = None.
Proof.
  eexists. split; [reflexivity|].
  eapply (signed_request_accepted toy_hmac "key" true (unix_epoch + 1000 * Second) (unix_epoch + 1100 * Second) plain_request);
    [discriminate|split; vm_compute; [discriminate|reflexivity]|split; vm_compute; discriminate|discriminate|reflexivity].
Defined.

Lemma signature_binds_request_witness :
  let c := mkSignedRequest "GET" "/a" (toy_hmac (bytes_of "key") (signed_text "GET" "/a" "1000" [])) "1000" (Ok []) in
  sq_Path c = "/a" ∧ sq_Body c = sq_Body c.
Proof.
  intros c. destruct (signature_binds_request toy_hmac (mkRequestSigning (bytes_of "key") true) (unix_epoch + 1000 * Second) (unix_epoch + 1010 * Second) c c)
    as (_ & Hp & _ & Hb).
  - discriminate.
  - intros m m' E. unfold toy_hmac in E. injection E as E. apply (f_equal bytes_of) in E. rewrite !bytes_of_string in E. exact E.
  - intros x [->| ->]; (split_and!; [discriminate|discriminate|..]; refine (bool_decide_eq_true_1 (bar ∉ _) _); vm_compute; reflexivity).
  - vm_compute. reflexivity.
  - vm_compute. reflexivity.
  - reflexivity.
  - split; [reflexivity|exact Hb].
Defined.

(** With a separator in the path the signed text has two readings: one signature
    passes for both requests. *)
Example separator_in_path_ambiguous :
  let sign := mkRequestSigning (bytes_of "key") true in
  let c := mkSignedRequest "POST" "/a" (toy_hmac (bytes_of "key") (signed_text "POST" "/a" "1000" (bytes_of "1000|x"))) "1000" (Ok (bytes_of "1000|x")) in
  let c' := mkSignedRequest "POST" "/a|1000" (sq_Signature c) "1000" (Ok (bytes_of "x")) in
  let now := unix_epoch + 1000 * Second in
  Signing_Middleware toy_hmac sign now c = None ∧ Signing_Middleware toy_hmac sign now c' = None.
Proof. vm_compute. split; reflexivity. Qed.
