(* ===== verification/Redact.v ===== *)
(** Redaction of audit details, internal/audit/redact.go: sensitive keys and
    credential-like strings are replaced before an entry is persisted.

    A [map[string]any] is an association list; [sanitizeValue] handles
    [map[string]any], [[]any] and [string] and leaves every other dynamic
    type (a [[]string] among them) as it is. *)

From Stdlib Require Import Ascii.
From S2P Require Import Prelude.
From S2P Require Import GoLib.

Definition sensitiveDetailKeys : list string :=
  ["password"; "passwd"; "secret"; "token"; "client_token"; "jwt"; "access_token"; "refresh_token";
   "api_key"; "apikey"; "credential"; "credentials"; "private_key"; "private_key_pem"; "tls_key";
   "access_key"; "secret_key"; "secret_id"; "unseal_key"; "master_key"; "connection_url";
   "connection_string"; "database_url"; "dsn"].

Definition isSensitiveKey (key : string) : bool :=
  existsb (String.eqb (ToLower (TrimSpace key))) sensitiveDetailKeys.

Definition looksLikeEmbeddedCredentials (value : string) : bool :=
  let trimmed := TrimSpace value in
  if trimmed =s "" then false
  else if Contains trimmed "://" && Contains trimmed "@" && Contains trimmed ":" then
    match IndexByte trimmed "@" with
    | Some i => Nat.leb 2 (Count (str_take i trimmed) ":")
    | None => false
    end
  else false.

Definition redacted : string := "[REDACTED]".

Fixpoint sanitizeValue (value : any) : any :=
  match value with
  | VMap m => VMap ((fix sanitizeMap (m : list (string * any)) : list (string * any) :=
      match m with
      | [] => []
      | (key, value) :: m =>
        (key, if isSensitiveKey key then VStr redacted else sanitizeValue value) :: sanitizeMap m
      end) m)
  | VList l => VList ((fix go (l : list any) : list any :=
      match l with [] => [] | item :: l => sanitizeValue item :: go l end) l)
  | VStr s => if looksLikeEmbeddedCredentials s then VStr redacted else VStr s
  | _ => value
  end.

Definition sanitizeMap (m : list (string * any)) : list (string * any) :=
  (λ kv, (kv.1, if isSensitiveKey kv.1 then VStr redacted else sanitizeValue kv.2)) <$> m.

(** [SanitizeDetails]: a nil map stays nil (the empty list). *)
Definition SanitizeDetails (details : list (string * any)) : list (string * any) := sanitizeMap details.

(** [walkSensitive] with the path of the offending value; the loop over a Go
    map reports the first offender in the association list's order. *)
Fixpoint walkSensitive (value : any) (path : string) : res unit :=
  match value with
  | VMap m => (fix go (m : list (string * any)) : res unit :=
      match m with
      | [] => Ok tt
      | (key, nested) :: m =>
        if isSensitiveKey key
        then Err (Plain (path +:+ ": sensitive key " +:+ quoted key +:+ " is not allowed in audit details"))
        else _ ← walkSensitive nested (path +:+ "." +:+ key); go m
      end) m
  | VList l => (fix go (i : nat) (l : list any) : res unit :=
      match l with
      | [] => Ok tt
      | item :: l => _ ← walkSensitive item (path +:+ "[" +:+ pretty i +:+ "]"); go (S i) l
      end) 0 l
  | VStr s =>
    if looksLikeEmbeddedCredentials s
    then Err (Plain (path +:+ ": credential-like string is not allowed in audit details"))
    else Ok tt
  | _ => Ok tt
  end.

Definition RejectSensitiveDetails (details : list (string * any)) : res unit :=
  match details with [] => Ok tt | _ => walkSensitive (VMap details) "details" end.

(** ** What a sanitised value may hold *)

(** [occurs v x]: [x] is [v] or is nested in it. *)
Inductive occurs : any → any → Prop :=
  | occurs_here v : occurs v v
  | occurs_map m k v x : (k, v) ∈ m → occurs v x → occurs (VMap m) x
  | occurs_list l v x : v ∈ l → occurs v x → occurs (VList l) x.

Lemma sanitizeValue_map m : sanitizeValue (VMap m) = VMap (sanitizeMap m).
Proof. simpl. f_equal. induction m as [|[k v] m IH]; simpl; [done|]. by f_equal. Qed.

Lemma sanitizeValue_list l : sanitizeValue (VList l) = VList (sanitizeValue <$> l).
Proof. reflexivity. Qed.

Lemma redacted_harmless : looksLikeEmbeddedCredentials redacted = false.
Proof. by vm_compute. Qed.

Lemma sanitizeValue_occurs v x : occurs (sanitizeValue v) x →
  (∀ s, x = VStr s → looksLikeEmbeddedCredentials s = false) ∧
  (∀ m k w, x = VMap m → (k, w) ∈ m → isSensitiveKey k = true → w = VStr redacted).
Proof.
  revert x. induction v as [| | |s| |l IH|m IH] using any_nested_ind; intros x Hx.
  1-3, 5: by inversion Hx; subst.
  - simpl in Hx. destruct (looksLikeEmbeddedCredentials s) eqn:E; inversion Hx; subst; (split; [|done]).
    + intros ? [= <-]. apply redacted_harmless.
    + by intros ? [= <-].
  - rewrite sanitizeValue_list in Hx. inversion Hx as [|????? |? w ? Hin Ho]; subst; [done|].
    apply list_elem_of_fmap in Hin as (y & -> & Hy). rewrite Forall_forall in IH. by apply (IH y).
  - rewrite sanitizeValue_map in Hx. inversion Hx as [|? k w ? Hin Ho|]; subst.
    + split; [done|]. intros m' k w [= <-] Hin Hk.
      apply list_elem_of_fmap in Hin as ([k' w'] & [= -> ->] & _). simpl in Hk. by rewrite Hk.
    + apply list_elem_of_fmap in Hin as ([k' w'] & [= -> ->] & Hin). simpl in Ho.
      destruct (isSensitiveKey k').
      * inversion Ho; subst. split; [|done]. intros ? [= <-]. apply redacted_harmless.
      * rewrite Forall_forall in IH. by apply (IH _ Hin).
Qed.

Lemma sanitizeValue_idemp v : sanitizeValue (sanitizeValue v) = sanitizeValue v.
Proof.
  induction v as [| | |s| |l IH|m IH] using any_nested_ind; try done.
  - simpl. destruct (looksLikeEmbeddedCredentials s) eqn:E; simpl; [done|by rewrite E].
  - rewrite !sanitizeValue_list. f_equal. rewrite <-list_fmap_compose.
    apply list_fmap_ext. intros i x Hx. rewrite Forall_forall in IH. apply IH. by eapply list_elem_of_lookup_2.
  - rewrite !sanitizeValue_map. f_equal. unfold sanitizeMap. rewrite <-list_fmap_compose.
    apply list_fmap_ext. intros i [k x] Hx. simpl. f_equal. destruct (isSensitiveKey k) eqn:E; [done|].
    rewrite Forall_forall in IH. apply (IH (k, x)). by eapply list_elem_of_lookup_2.
Qed.

(** ** Theorem *)

(** Redaction is complete on what it traverses and idempotent: in the
    details that are persisted, at any nesting depth of maps and lists, a
    sensitive key holds only the redaction mark and no string looks like a
    URL with embedded credentials; sanitising again changes nothing; and the
    keys are those of the input. *)
Theorem SanitizeDetails_complete details :
  let out := SanitizeDetails details in
  (∀ k w, (k, w) ∈ out → isSensitiveKey k = true → w = VStr redacted) ∧
  (∀ k w x, (k, w) ∈ out → occurs w x →
     (∀ s, x = VStr s → looksLikeEmbeddedCredentials s = false) ∧
     (∀ m k' w', x = VMap m → (k', w') ∈ m → isSensitiveKey k' = true → w' = VStr redacted)) ∧
  SanitizeDetails out = out ∧ fst <$> out = fst <$> details.
Proof.
  intros out.
  assert (Hv : sanitizeValue (VMap details) = VMap out) by apply sanitizeValue_map.
  assert (Ho := sanitizeValue_occurs (VMap details)). rewrite Hv in Ho.
  split_and!.
  - intros k w Hin Hk. by apply (proj2 (Ho (VMap out) (occurs_here _)) out k w).
  - intros k w x Hin Hx. apply Ho. by eapply occurs_map.
  - assert (Hi := sanitizeValue_idemp (VMap details)). rewrite Hv, sanitizeValue_map in Hi. by injection Hi.
  - unfold out, SanitizeDetails, sanitizeMap. rewrite <-list_fmap_compose. by apply list_fmap_ext.
Qed.
