(* ===== verification/AuditForward.v ===== *)
(** Forwarding of audit entries to an external collector,
    internal/audit/forward.go: a bounded queue per sink and a worker that posts
    one entry after the other.

    A run of the process is a sequence of steps: a configuration, an entry that is
    offered to a sink, a worker that takes the next entry, a worker whose request
    ended. A sink that was replaced keeps its worker, and since the source lets go
    of the lock between looking up the current sink and sending to it, an entry may
    still be offered to it. Entries are copied when they are
    queued, so they are values; [E] is their type. *)

From S2P Require Import Prelude.
From S2P Require Import GoLib.

#[local] Open Scope Z_scope.

Definition defaultForwardQueueSize : nat := 256.

(** How the delivery of an entry can end. *)
Inductive outcome :=
  | NotEncoded       (* json.Marshal or the request failed: nothing is counted *)
  | Unreachable      (* the client returned an error *)
  | Answered (status : Z).

Section forward.
Context {E : Type}.

Record forwardSink := mkSink {
  fs_url : string;
  fs_queue : list E;
  fs_busy : option E;
  fs_dropped : Z;
  fs_sent : Z;
  fs_failed : Z;
}.

(** The sinks that were started, the latest last, which is the current one. *)
Record Forward := mkForward { fw_sinks : list forwardSink; fw_url : string }.
Definition no_forward : Forward := mkForward [] "".

Definition initForwardSink (url : string) (f : Forward) : Forward :=
  if url =s "" then f
  else if negb (bool_decide (length (fw_sinks f) = 0%nat)) && (fw_url f =s url) then f
  else mkForward (fw_sinks f ++ [mkSink url [] None 0 0 0]) url.

Definition uint64_succ (n : Z) : Z := (n + 1) mod 2 ^ 64.

Definition enqueue (e : E) (s : forwardSink) : forwardSink :=
  if Nat.ltb (length (fs_queue s)) defaultForwardQueueSize
  then mkSink (fs_url s) (fs_queue s ++ [e]) (fs_busy s) (fs_dropped s) (fs_sent s) (fs_failed s)
  else mkSink (fs_url s) (fs_queue s) (fs_busy s) (uint64_succ (fs_dropped s)) (fs_sent s) (fs_failed s).

Definition on_sink (i : nat) (g : forwardSink → option forwardSink) (f : Forward) : option Forward :=
  s ← fw_sinks f !! i; s' ← g s; Some (mkForward (<[i := s']> (fw_sinks f)) (fw_url f)).

(** The sink a recorder finds under the lock; what it does with it afterwards. *)
Definition current (f : Forward) : option nat := match length (fw_sinks f) with O => None | S i => Some i end.
Definition offer (i : nat) (e : E) (f : Forward) : option Forward := on_sink i (λ s, Some (enqueue e s)) f.

Definition forwardEntry (e : option E) (f : Forward) : Forward :=
  match e, current f with Some e, Some i => default f (offer i e f) | _, _ => f end.

(** The worker: it takes an entry when it has none, and counts how it ended. *)
Definition worker_take (s : forwardSink) : option forwardSink :=
  match fs_busy s, fs_queue s with
  | None, e :: q => Some (mkSink (fs_url s) q (Some e) (fs_dropped s) (fs_sent s) (fs_failed s))
  | _, _ => None
  end.
Definition worker_finish (o : outcome) (s : forwardSink) : option forwardSink :=
  match fs_busy s with
  | None => None
  | Some _ =>
      let done sent failed := Some (mkSink (fs_url s) (fs_queue s) None (fs_dropped s) sent failed) in
      match o with
      | NotEncoded => done (fs_sent s) (fs_failed s)
      | Unreachable => done (fs_sent s) (fs_failed s + 1)
      | Answered status => if (200 <=? status) && (status <? 300) then done (uint64_succ (fs_sent s)) (fs_failed s) else done (fs_sent s) (fs_failed s + 1)
      end
  end.

Definition ForwardQueueStats (f : Forward) : Z * Z :=
  match last (fw_sinks f) with None => (0, 0) | Some s => (fs_sent s, fs_dropped s) end.

(** ** Runs *)

Inductive event := Configure (url : string) | Offered (i : nat) (e : E) | Take (i : nat) | Finish (i : nat) (o : outcome).

(** A step, with the entry and the outcome it delivered. *)
Definition step (f : Forward) (ev : event) : option Forward :=
  match ev with
  | Configure url => Some (initForwardSink url f)
  | Offered i e => offer i e f
  | Take i => on_sink i worker_take f
  | Finish i o => on_sink i (worker_finish o) f
  end.

End forward.
Arguments forwardSink : clear implicits.
Arguments Forward : clear implicits.
Arguments event : clear implicits.

(** ** What becomes of every entry *)

Section accounting.
Context {E : Type}.
Implicit Types (s : forwardSink E) (f : Forward E).








(** A recorder that is not overtaken offers its entry to the current sink. *)
Lemma forwardEntry_offers e f i : current f = Some i → ∃ f', forwardEntry (Some e) f = f' ∧ step f (Offered (E := E) i e) = Some f'.
Proof.
  intros Hi. unfold forwardEntry. rewrite Hi. cbn [step]. unfold offer, on_sink, current in *.
  destruct (length (fw_sinks f)) as [|n] eqn:El; [done|]. injection Hi as <-. destruct (lookup_lt_is_Some_2 (fw_sinks f) n ltac:(lia)) as [s Hs].
  rewrite Hs. cbn. by eexists.
Qed.




End accounting.

(** ** An example: two entries, one delivered and one refused *)

Definition after_events (evs : list (event nat)) : option (Forward nat) := foldl (λ f ev, f ≫= λ f, step f ev) (Some no_forward) evs.


(** A collector that stalls: of 258 entries one is with the worker, 256 wait and
    one is dropped. *)
Definition stalled : list (event nat) := [Configure "https://siem"; Offered 0 0%nat; Take 0] ++ (Offered 0 <$> seq 1 257).
Example stalled_collector_drops : (λ f, (length (fs_queue <$> fw_sinks f), ForwardQueueStats f)) <$> after_events stalled = Some (1%nat, (0, 1)).
Proof. vm_compute. reflexivity. Qed.
