(* ===== verification/AuditLog.v ===== *)
(** The tamper-evident audit log: the memory repository
    (internal/repository/memory/audit_repository.go), the hash chain
    (internal/audit/chain.go), the service that records, exports and verifies
    (internal/audit/service.go), and the append handler of the replicated
    store (internal/raft/handlers.go), which restamps an entry's hash.

    The digests and the two encodings the hash is taken over are a parameter
    ([Digest]); the theorems that need them to be collision free or free of
    the separator say so. The service is written against the repository
    interface ([AuditStore]); the memory repository and the replicated store
    implement it. *)

From Stdlib Require Import Ascii.
From S2P Require Import Prelude.
From S2P Require Import GoLib.
From S2P Require Import Domain.
From S2P Require Import Redact.

#[local] Open Scope Z_scope.

(** SHA-256 and HMAC-SHA-256 in hex, [json.Marshal] of a details map and
    [Time.Format(time.RFC3339Nano)]. *)
Class Digest := {
  sha256_hex : string → string;
  hmac_sha256_hex : bytes → string → string;
  json_details : list (string * any) → string;
  format_time : Time → string;
}.

(** ** internal/repository/memory/audit_repository.go *)

Record AuditRepository := mkAuditRepository {
  ar_entries : list Entry;
  ar_nextID : Z;
}.

Definition NewAuditRepository : AuditRepository := mkAuditRepository [] 1.

(** [Append]: the stored copy gets the next identifier, which the caller sees too. *)
Definition AuditRepository_Append (r : AuditRepository) (e : Entry) : res (AuditRepository * Entry) :=
  match Entry_Validate e with
  | Err err => Err (Wrap ErrCodeValidation "invalid audit entry" err)
  | Ok _ =>
    let stored := en_with_id e (ar_nextID r) in
    Ok (mkAuditRepository (ar_entries r ++ [stored]) (ar_nextID r + 1), stored)
  end.

Record AuditListOptions := mkAuditListOptions {
  al_Since : option Time;
  al_Limit : Z;
  al_Offset : Z;
  al_OrderAsc : bool;
}.

(** The comparisons of [sort.Slice], oldest first and newest first. *)
Definition audit_asc_le : relation Entry := λ x y,
  if decide (en_Timestamp x = en_Timestamp y) then en_ID x ≤ en_ID y else en_Timestamp x ≤ en_Timestamp y.
Definition audit_desc_le : relation Entry := λ x y, audit_asc_le y x.
#[global] Instance audit_asc_le_dec : RelDecision audit_asc_le.
Proof. intros x y. unfold audit_asc_le. case_decide; apply _. Defined.
#[global] Instance audit_desc_le_dec : RelDecision audit_desc_le.
Proof. intros x y. unfold audit_desc_le. apply _. Defined.

(** [l[lo:hi]]; [None] is the run-time panic of a slice out of bounds. *)
Definition slice {A} (l : list A) (lo hi : Z) : option (list A) :=
  if (0 <=? lo) && (lo <=? hi) && (hi <=? Z.of_nat (length l))
  then Some (take (Z.to_nat (hi - lo)) (drop (Z.to_nat lo) l)) else None.

Definition since_ok (since : option Time) (e : Entry) : Prop :=
  match since with Some t => Before (en_Timestamp e) t = false | None => True end.
#[global] Instance since_ok_dec since e : Decision (since_ok since e).
Proof. unfold since_ok. destruct since; apply _. Defined.

Definition AuditRepository_List (r : AuditRepository) (opts : AuditListOptions) : option (list Entry) :=
  let filtered := filter (since_ok (al_Since opts)) (ar_entries r) in
  let filtered := if al_OrderAsc opts then merge_sort audit_asc_le filtered
                  else merge_sort audit_desc_le filtered in
  let limit := if al_Limit opts <=? 0 then 100 else al_Limit opts in
  let start := al_Offset opts in
  let len := Z.of_nat (length filtered) in
  if len <? start then Some []
  else
    let e := wrap64 (start + limit) in
    slice filtered start (if len <? e then len else e).

Definition AuditRepository_LatestHash (r : AuditRepository) : string :=
  match last (ar_entries r) with Some e => en_Hash e | None => "" end.

(** ** internal/audit/chain.go and the digests of service.go *)

Section hashing.
Context `{Digest}.

Definition computeHash (prevHash actor action resource status : string)
    (details : list (string * any)) (ts : Time) : string :=
  sha256_hex (prevHash +:+ "|" +:+ format_time ts +:+ "|" +:+ actor +:+ "|" +:+ action +:+ "|" +:+
              resource +:+ "|" +:+ status +:+ "|" +:+ json_details details).

Definition EntryHash := computeHash.

(** The hash an entry must carry after an entry with hash [prevHash]. *)
Definition expected_hash (prevHash : string) (e : Entry) : string :=
  EntryHash prevHash (en_Actor e) (en_Action e) (en_Resource e) (en_Status e) (en_Details e) (en_Timestamp e).

Fixpoint validate_from (i : nat) (prevHash : string) (entries : list Entry) : res unit :=
  match entries with
  | [] => Ok tt
  | e :: entries =>
    if en_Hash e =s expected_hash prevHash e then validate_from (S i) (en_Hash e) entries
    else Err (Plain ("audit entry " +:+ pretty i +:+ " hash mismatch"))
  end.

Definition ValidateChain (entries : list Entry) : res unit := validate_from 0 "" entries.

(** Portable records are checked the same way in backup order. *)
Record ChainRecord := mkChainRecord {
  cr_Timestamp : Time;
  cr_Actor : string;
  cr_Action : string;
  cr_Resource : string;
  cr_Status : string;
  cr_Details : list (string * any);
  cr_Hash : string;
}.

Fixpoint validate_records_from (i : nat) (prevHash : string) (records : list ChainRecord) : res unit :=
  match records with
  | [] => Ok tt
  | rec :: records =>
    let expected := EntryHash prevHash (cr_Actor rec) (cr_Action rec) (cr_Resource rec) (cr_Status rec)
                      (cr_Details rec) (cr_Timestamp rec) in
    if cr_Hash rec =s expected then validate_records_from (S i) (cr_Hash rec) records
    else Err (Plain ("audit record " +:+ pretty i +:+ " hash mismatch"))
  end.

Definition ValidateRecordChain (records : list ChainRecord) : res unit := validate_records_from 0 "" records.

Definition signEntry (key : bytes) (entryHash : string) : string := hmac_sha256_hex key entryHash.

Definition signHead (key : bytes) (headHash : string) (signedAt : Time) : string :=
  hmac_sha256_hex key (headHash +:+ "|" +:+ format_time signedAt).
End hashing.

(** [if v, ok := details[k].(string); ok { field = v }] *)
Definition detail_or (details : list (string * any)) (k old : string) : string :=
  match as_string (snd <$> find (λ kv, String.eqb kv.1 k) details) with Some v => v | None => old end.

Definition applyAuthFields (e : Entry) (details : list (string * any)) : Entry :=
  match details with
  | [] => e
  | _ =>
    mkEntry (en_ID e) (en_Timestamp e) (en_Actor e) (en_Action e) (en_Resource e) (en_Status e)
      (en_Details e) (en_Hash e) (en_Signature e)
      (detail_or details "auth_method" (en_AuthMethod e)) (detail_or details "source_ip" (en_SourceIP e))
      (detail_or details "client_identity" (en_ClientIdentity e))
      (detail_or details "failure_reason" (en_FailureReason e))
      (detail_or details "request_id" (en_RequestID e)) (detail_or details "namespace" (en_Namespace e))
  end.

Definition en_with_signature (e : Entry) (sig : string) : Entry :=
  mkEntry (en_ID e) (en_Timestamp e) (en_Actor e) (en_Action e) (en_Resource e) (en_Status e)
    (en_Details e) (en_Hash e) sig (en_AuthMethod e) (en_SourceIP e) (en_ClientIdentity e)
    (en_FailureReason e) (en_RequestID e) (en_Namespace e).

(** ** The repository interface and its two implementations *)

(** [repository.AuditRepository]. *)
Class AuditStore (S : Type) := {
  as_Append : S → Entry → res (S * Entry);
  as_List : S → AuditListOptions → option (list Entry);
  as_LatestHash : S → string;
}.

#[global] Instance memory_audit_store : AuditStore AuditRepository := {|
  as_Append := AuditRepository_Append;
  as_List := AuditRepository_List;
  as_LatestHash := AuditRepository_LatestHash;
|}.

(** [handleAuditAppend] of internal/raft/handlers.go on the store's audit
    repository: [now] is the applying replica's clock, read when the entry
    carries no timestamp. *)
Definition handleAuditAppend `{Digest} (now : Time) (r : AuditRepository) (e : Entry)
    : res (AuditRepository * Entry) :=
  let ts := if IsZero (en_Timestamp e) then now else en_Timestamp e in
  let prevHash := AuditRepository_LatestHash r in
  let hash := EntryHash prevHash (en_Actor e) (en_Action e) (en_Resource e) (en_Status e) (en_Details e) ts in
  AuditRepository_Append r (en_with_stamp e ts hash).

(** The audit log behind the replicated store. *)
Record ReplicatedAudit := mkReplicatedAudit { ra_now : Time; ra_repo : AuditRepository }.

#[global] Instance raft_audit_store `{Digest} : AuditStore ReplicatedAudit := {|
  as_Append := λ s e,
    match handleAuditAppend (ra_now s) (ra_repo s) e with
    | Ok (r, e) => Ok (mkReplicatedAudit (ra_now s) r, e)
    | Err err => Err err
    end;
  as_List := λ s, AuditRepository_List (ra_repo s);
  as_LatestHash := λ s, AuditRepository_LatestHash (ra_repo s);
|}.

(** ** internal/audit/service.go *)

(** What the caller asks to record, and the entry [Record] builds for it at
    time [now] after having read [prevHash]. *)
Record AuditEvent := mkAuditEvent {
  ev_Actor : string; ev_Action : string; ev_Resource : string; ev_Status : string;
  ev_Details : list (string * any);
}.

Section service.
Context `{Digest} {S : Type} `{AuditStore S}.

Definition build_entry (signingKey : bytes) (prevHash : string) (now : Time) (ev : AuditEvent) : Entry :=
  let safeDetails := SanitizeDetails (ev_Details ev) in
  let entry := mkEntry 0 now (ev_Actor ev) (ev_Action ev) (ev_Resource ev) (ev_Status ev) safeDetails
    (computeHash prevHash (ev_Actor ev) (ev_Action ev) (ev_Resource ev) (ev_Status ev) safeDetails now)
    "" "" "" "" "" "" "" in
  let entry := applyAuthFields entry safeDetails in
  match signingKey with
  | [] => entry
  | _ => en_with_signature entry (signEntry signingKey (en_Hash entry))
  end.

(** [Record]; the forwarding of the entry to an external sink is not modelled. *)
Definition Record_ (signingKey : bytes) (s : S) (now : Time) (ev : AuditEvent) : res S :=
  let prevHash := as_LatestHash s in
  match as_Append s (build_entry signingKey prevHash now ev) with
  | Ok (s', _) => Ok s'
  | Err err => Err err
  end.

Record ExportResult := mkExportResult {
  xr_Entries : list Entry; xr_HeadHash : string; xr_Signature : string; xr_SignedAt : Time }.

Definition Export_ (signingKey : bytes) (s : S) (now : Time) (opts : AuditListOptions) : option ExportResult :=
  entries ← as_List s (mkAuditListOptions (al_Since opts) (al_Limit opts) (al_Offset opts) true);
  let headHash := as_LatestHash s in
  Some (mkExportResult entries headHash
    (match signingKey with [] => "" | _ => if headHash =s "" then "" else signHead signingKey headHash now end) now).

Record VerifyResult := mkVerifyResult {
  vr_Valid : bool; vr_HeadHash : string; vr_Signature : string; vr_Message : string }.

(** The loop of [Verify]: the failure it returns, or the last hash. *)
Fixpoint verify_from (signingKey : bytes) (prevHash : string) (entries : list Entry) : VerifyResult + string :=
  match entries with
  | [] => inr prevHash
  | e :: entries =>
    if negb (en_Hash e =s expected_hash prevHash e)
    then inl (mkVerifyResult false (en_Hash e) "" ("hash mismatch at entry id " +:+ pretty (en_ID e)))
    else if bool_decide (signingKey ≠ []) && (en_Signature e =s "")
    then inl (mkVerifyResult false (en_Hash e) "" ("missing signature at entry id " +:+ pretty (en_ID e)))
    else if bool_decide (signingKey ≠ []) && negb (en_Signature e =s signEntry signingKey (en_Hash e))
    then inl (mkVerifyResult false (en_Hash e) "" ("signature mismatch at entry id " +:+ pretty (en_ID e)))
    else verify_from signingKey (en_Hash e) entries
  end.

Definition Verify (signingKey : bytes) (s : S) (signature : string) (signedAt : Time) : option VerifyResult :=
  entries ← as_List s (mkAuditListOptions None 1000000 0 true);
  Some match verify_from signingKey "" entries with
  | inl failure => failure
  | inr prevHash =>
    let headHash := as_LatestHash s in
    if negb (headHash =s prevHash)
    then mkVerifyResult false headHash "" "head hash does not match recomputed chain"
    else match signingKey with
         | [] => mkVerifyResult true headHash "" ""
         | _ =>
           if signature =s ""
           then mkVerifyResult false headHash "" "signature required when signing key is configured"
           else if signature =s signHead signingKey headHash signedAt
           then mkVerifyResult true headHash signature ""
           else mkVerifyResult false headHash signature "signature mismatch"
         end
  end.
End service.

(** ** Invariants *)

Section chain.
Context `{Digest}.

Fixpoint chain_ok (prevHash : string) (entries : list Entry) : bool :=
  match entries with
  | [] => true
  | e :: entries => (en_Hash e =s expected_hash prevHash e) && chain_ok (en_Hash e) entries
  end.

Definition last_hash (prevHash : string) (entries : list Entry) : string :=
  match last entries with Some e => en_Hash e | None => prevHash end.

(** The log is a valid chain and its identifiers are 1, 2, ... in append order. *)
Definition audit_wf (r : AuditRepository) : Prop :=
  chain_ok "" (ar_entries r) = true ∧
  ar_nextID r = Z.of_nat (length (ar_entries r)) + 1 ∧
  ∀ (i : nat) e, ar_entries r !! i = Some e → en_ID e = Z.of_nat i + 1.

(** Every entry carries the signature of its own hash. *)
Definition signed_ok (key : bytes) (entries : list Entry) : Prop :=
  ∀ e, e ∈ entries → key ≠ [] → en_Signature e = signEntry key (en_Hash e).

(** What the hash of an entry covers. *)
Definition covered (e : Entry) : string * string * string * string * string * string :=
  (format_time (en_Timestamp e), en_Actor e, en_Action e, en_Resource e, en_Status e, json_details (en_Details e)).

(** *** Lemmas on chains *)

Lemma validate_from_ok i prev l : validate_from i prev l = Ok tt ↔ chain_ok prev l = true.
Proof.
  revert i prev. induction l as [|e l IH]; intros i prev; simpl; [done|].
  destruct (_ =s _); simpl; [apply IH|done].
Qed.

Lemma last_hash_cons prev e l : last_hash prev (e :: l) = last_hash (en_Hash e) l.
Proof. unfold last_hash. destruct l as [|e' l]; [done|]. rewrite last_cons. by destruct (last (e' :: l)) eqn:E; [|apply last_None in E]. Qed.

Lemma last_hash_snoc prev l e : last_hash prev (l ++ [e]) = en_Hash e.
Proof. unfold last_hash. by rewrite last_snoc. Qed.

Lemma chain_ok_snoc prev l e :
  chain_ok prev (l ++ [e]) = chain_ok prev l && (en_Hash e =s expected_hash (last_hash prev l) e).
Proof.
  revert prev. induction l as [|x l IH]; intros prev; simpl; [by rewrite andb_true_r|].
  rewrite IH, last_hash_cons. by rewrite andb_assoc.
Qed.

Lemma latest_hash_eq r : AuditRepository_LatestHash r = last_hash "" (ar_entries r).
Proof. done. Qed.

(** Appending an entry that carries the hash of its place keeps the chain. *)
Lemma Append_ok r e r' e' : AuditRepository_Append r e = Ok (r', e') →
  e' = en_with_id e (ar_nextID r) ∧ r' = mkAuditRepository (ar_entries r ++ [e']) (ar_nextID r + 1).
Proof. unfold AuditRepository_Append. case_match; [|done]. intros [= <- <-]. done. Qed.

Lemma Append_wf r e r' e' : audit_wf r → en_Hash e = expected_hash (AuditRepository_LatestHash r) e →
  AuditRepository_Append r e = Ok (r', e') → audit_wf r'.
Proof.
  intros (Hc & Hn & Hid) He [-> ->]%Append_ok. rewrite latest_hash_eq in He. split_and!; simpl.
  - rewrite chain_ok_snoc, Hc. simpl. by apply bool_decide_eq_true.
  - rewrite length_app. simpl. lia.
  - intros i x [Hi|[Hi Hx]]%lookup_app_Some; [by apply Hid|].
    destruct (i - length (ar_entries r))%nat eqn:Ei; [|done]. injection Hx as <-. simpl. lia.
Qed.

Lemma audit_wf_new : audit_wf NewAuditRepository.
Proof. by split_and!. Qed.

Lemma applyAuthFields_covered e d :
  let e' := applyAuthFields e d in
  en_Timestamp e' = en_Timestamp e ∧ en_Actor e' = en_Actor e ∧ en_Action e' = en_Action e ∧
  en_Resource e' = en_Resource e ∧ en_Status e' = en_Status e ∧ en_Details e' = en_Details e ∧
  en_Hash e' = en_Hash e.
Proof. by destruct d. Qed.

(** The entry [Record] builds carries the hash of its place and its signature. *)
Lemma build_entry_spec key prev now ev :
  let e := build_entry key prev now ev in
  en_Hash e = expected_hash prev e ∧ (key ≠ [] → en_Signature e = signEntry key (en_Hash e)) ∧
  en_Timestamp e = now ∧ en_Details e = SanitizeDetails (ev_Details ev) ∧ en_Actor e = ev_Actor ev ∧
  en_Action e = ev_Action ev ∧ en_Resource e = ev_Resource ev ∧ en_Status e = ev_Status ev.
Proof.
  unfold build_entry, expected_hash. destruct key as [|k key]; destruct (SanitizeDetails (ev_Details ev)); simpl; done.
Qed.
End chain.

(** *** What the service needs of its repository *)

(** A repository holds a log; listing and the latest hash are those of the
    log; and appending an entry that carries the hash of its place appends
    exactly that entry, numbered. *)
Class AuditStoreLaws (S : Type) `{Digest} `{AuditStore S} := {
  as_repo : S → AuditRepository;
  as_List_law : ∀ s opts, as_List s opts = AuditRepository_List (as_repo s) opts;
  as_LatestHash_law : ∀ s, as_LatestHash s = AuditRepository_LatestHash (as_repo s);
  as_Append_law : ∀ s e, en_Hash e = expected_hash (as_LatestHash s) e → en_Timestamp e ≠ 0 →
    match as_Append s e, AuditRepository_Append (as_repo s) e with
    | Ok (s', e'), Ok (r', e'') => as_repo s' = r' ∧ e' = e''
    | Err err, Err err' => err = err'
    | _, _ => False
    end;
}.

#[global] Instance memory_audit_laws `{Digest} : AuditStoreLaws AuditRepository.
Proof.
  refine {| as_repo := id |}; [done|done|]. intros s e _ _. simpl.
  destruct (AuditRepository_Append s e) as [[]|]; done.
Defined.

Lemma en_with_stamp_same e : en_with_stamp e (en_Timestamp e) (en_Hash e) = e.
Proof. by destruct e. Qed.

#[global] Instance raft_audit_laws `{Digest} : AuditStoreLaws ReplicatedAudit.
Proof.
  refine {| as_repo := ra_repo |}; [done|done|]. intros s e He Ht. simpl. unfold handleAuditAppend.
  simpl in He. unfold IsZero. rewrite (proj2 (Z.eqb_neq _ _) Ht).
  fold (expected_hash (AuditRepository_LatestHash (ra_repo s)) e). rewrite <-He, en_with_stamp_same.
  destruct (AuditRepository_Append (ra_repo s) e) as [[]|]; done.
Defined.

(** *** Listing in append order *)

#[global] Instance audit_asc_le_total : Total audit_asc_le.
Proof. intros x y. unfold audit_asc_le. repeat case_decide; try lia; congruence. Qed.
#[global] Instance audit_asc_le_trans : Transitive audit_asc_le.
Proof. intros x y z. unfold audit_asc_le. repeat case_decide; lia. Qed.

(** The clock did not go back between appends. *)
Definition in_time_order (entries : list Entry) : Prop :=
  ∀ (i j : nat) x y, (i ≤ j)%nat → entries !! i = Some x → entries !! j = Some y → en_Timestamp x ≤ en_Timestamp y.

Lemma sorted_of_lookup {A} (R : relation A) (l : list A) :
  (∀ (i j : nat) x y, (i < j)%nat → l !! i = Some x → l !! j = Some y → R x y) → StronglySorted R l.
Proof.
  induction l as [|a l IH]; intros HR; constructor.
  - apply IH. intros i j x y Hij Hx Hy. by apply (HR (S i) (S j)); [lia|..].
  - apply List.Forall_forall. intros y Hy%list_elem_of_In. apply list_elem_of_lookup in Hy as [j Hj].
    by apply (HR 0%nat (S j)); [lia|..].
Qed.

Lemma sorted_lookup {A} (R : relation A) (l : list A) (i j : nat) x y :
  StronglySorted R l → (i < j)%nat → l !! i = Some x → l !! j = Some y → R x y.
Proof.
  intros Hs. revert i j. induction Hs as [|a l Hs IH Hall]; intros i j Hij Hx Hy; [done|].
  destruct j as [|j]; [lia|]. simpl in Hy. destruct i as [|i]; simpl in Hx.
  - injection Hx as ->. rewrite List.Forall_forall in Hall. apply Hall, list_elem_of_In. by eapply list_elem_of_lookup_2.
  - by apply (IH i j); [lia|..].
Qed.

Lemma audit_sort_append_order `{Digest} r : audit_wf r → in_time_order (ar_entries r) →
  merge_sort audit_asc_le (ar_entries r) = ar_entries r.
Proof.
  intros (_ & _ & Hid) Ht. apply (Sorted_unique_strong audit_asc_le).
  - intros x y Hx Hy Hxy Hyx. rewrite merge_sort_Permutation in Hx.
    apply list_elem_of_lookup in Hx as [i Hi], Hy as [j Hj].
    assert (en_ID x = en_ID y) as Heq by (unfold audit_asc_le in *; repeat case_decide; try congruence; lia).
    rewrite (Hid _ _ Hi), (Hid _ _ Hj) in Heq. assert (i = j) as -> by lia. congruence.
  - apply Sorted_merge_sort, _.
  - apply StronglySorted_Sorted, sorted_of_lookup. intros i j x y Hij Hx Hy.
    assert (Hxy := Ht i j x y ltac:(lia) Hx Hy). unfold audit_asc_le. case_decide; [|done].
    rewrite (Hid _ _ Hx), (Hid _ _ Hy). lia.
  - apply merge_sort_Permutation.
Qed.

Lemma list_all_in_order `{Digest} r limit : audit_wf r → in_time_order (ar_entries r) →
  0 < limit < 2 ^ 63 → Z.of_nat (length (ar_entries r)) ≤ limit →
  AuditRepository_List r (mkAuditListOptions None limit 0 true) = Some (ar_entries r).
Proof.
  intros Hwf Ht Hlim Hlen. unfold AuditRepository_List. simpl.
  assert (Hf : filter (since_ok None) (ar_entries r) = ar_entries r).
  { clear. induction (ar_entries r) as [|x l IH]; [done|]. rewrite filter_cons_True by done. by f_equal. }
  rewrite Hf, audit_sort_append_order by done.
  rewrite (proj2 (Z.ltb_ge _ 0)), (proj2 (Z.leb_gt limit 0)) by lia. unfold slice.
  replace (wrap64 (0 + limit)) with limit by (unfold wrap64; rewrite Z.mod_small; lia).
  assert ((if Z.of_nat (length (ar_entries r)) <? limit then Z.of_nat (length (ar_entries r)) else limit)
          = Z.of_nat (length (ar_entries r))) as -> by (case_match; bool_props; lia).
  rewrite !Z.leb_refl, (proj2 (Z.leb_le 0 (Z.of_nat _))) by lia. simpl.
  rewrite Z.sub_0_r, Nat2Z.id. change (Z.to_nat 0) with 0%nat. by rewrite drop_0, take_ge by lia.
Qed.

Lemma verify_from_ok `{Digest} key prev l :
  chain_ok prev l = true → signed_ok key l → (key ≠ [] → ∀ h, signEntry key h ≠ "") →
  verify_from key prev l = inr (last_hash prev l).
Proof.
  intros Hc Hs Hne. revert prev Hc. induction l as [|e l IH]; intros prev Hc; [done|].
  simpl in Hc. apply andb_true_iff in Hc as [He Hc]. simpl. rewrite He, last_hash_cons. simpl.
  assert (Hl : signed_ok key l) by (intros x Hx; apply Hs; by right).
  destruct (decide (key = [])) as [->|Hk]; simpl; [by apply IH|].
  rewrite (bool_decide_true (key ≠ [])) by done. simpl.
  rewrite (Hs e) by (done || by left). rewrite bool_decide_false by (by apply Hne).
  rewrite bool_decide_true by done. simpl. by apply IH.
Qed.

Section recorded.
Context `{Digest} {S : Type} `{!AuditStore S} `{!AuditStoreLaws S}.

(** A run of the service: the events with the clock readings. *)
Definition record_step (key : bytes) (s : S) (x : Time * AuditEvent) : res S := Record_ key s x.1 x.2.

Definition log_inv (key : bytes) (s : S) : Prop :=
  audit_wf (as_repo s) ∧ signed_ok key (ar_entries (as_repo s)).

Lemma Record_inv key s now ev s' : log_inv key s → now ≠ 0 → Record_ key s now ev = Ok s' →
  log_inv key s' ∧ ∃ e, ar_entries (as_repo s') = ar_entries (as_repo s) ++ [e] ∧ en_Timestamp e = now ∧
    en_Actor e = ev_Actor ev ∧ en_Action e = ev_Action ev ∧ en_Resource e = ev_Resource ev ∧
    en_Status e = ev_Status ev ∧ en_Details e = SanitizeDetails (ev_Details ev).
Proof.
  intros [Hwf Hsig] Hnow HR. unfold Record_ in HR.
  destruct (build_entry_spec key (as_LatestHash s) now ev) as (Hh & Hs & Ht & Hd & Ha & Hac & Hr & Hst).
  assert (HA := as_Append_law s _ Hh ltac:(rewrite Ht; done)).
  destruct (as_Append s _) as [[s1 e1]|]; [|done]. injection HR as ->.
  destruct (AuditRepository_Append (as_repo s) _) as [[r' e']|] eqn:E; [|done]. destruct HA as [HA _].
  assert (Hwf' : audit_wf r').
  { eapply Append_wf; [done| |done]. by rewrite <-as_LatestHash_law. }
  apply Append_ok in E as [He' Hr']. unfold log_inv; rewrite HA. split; [split; [done|]|].
  - rewrite Hr'. simpl. intros e [Hin|Hin]%elem_of_app Hk; [by apply Hsig|].
    apply list_elem_of_singleton in Hin as ->. rewrite He'. simpl. by apply Hs.
  - exists e'. rewrite Hr'. simpl. rewrite He'. simpl. split_and!; done.
Qed.

Lemma run_inv key s evs s' : log_inv key s → Forall (λ x, x.1 ≠ 0) evs →
  for_each (record_step key) s evs = Ok s' →
  log_inv key s' ∧ ∃ es, ar_entries (as_repo s') = ar_entries (as_repo s) ++ es ∧
    Forall2 (λ x e, en_Timestamp e = x.1 ∧ en_Actor e = ev_Actor x.2 ∧ en_Action e = ev_Action x.2 ∧
      en_Resource e = ev_Resource x.2 ∧ en_Status e = ev_Status x.2 ∧
      en_Details e = SanitizeDetails (ev_Details x.2)) evs es.
Proof.
  intros Hi Hz. revert s Hi. induction Hz as [|x evs Hx Hz IH]; intros s Hi HR; simpl in HR.
  - injection HR as <-. split; [done|]. exists []. by rewrite app_nil_r.
  - apply res_bind_ok in HR as (s1 & H1 & HR). apply Record_inv in H1 as (Hi1 & e & He & Hf); [|done|done].
    destruct (IH _ Hi1 HR) as (Hi' & es & Hes & Hall). split; [done|]. exists (e :: es).
    rewrite Hes, He, <-app_assoc. split; [done|]. by constructor.
Qed.
End recorded.

(** *** Splitting the hashed payload at its separators *)

Definition pipe_free (s : string) : Prop := str_mem "|" s = false.

Lemma split_pipe s1 s2 t1 t2 : pipe_free s1 → pipe_free s2 →
  s1 +:+ "|" +:+ t1 = s2 +:+ "|" +:+ t2 → s1 = s2 ∧ t1 = t2.
Proof. apply str_sep_inj. Qed.

(** An ideal digest: no collisions, and outputs and timestamps (hexadecimal
    digits, RFC 3339) that are not empty and hold no separator. *)
Class IdealDigest `{Digest} := {
  sha_inj : Inj (=) (=) sha256_hex;
  sha_nonempty : ∀ x, sha256_hex x ≠ "";
  sha_pipe_free : ∀ x, pipe_free (sha256_hex x);
  time_pipe_free : ∀ t, pipe_free (format_time t);
  hmac_inj : ∀ key, Inj (=) (=) (hmac_sha256_hex key);
}.

Section ideal.
Context `{IdealDigest}.

(** No field of the entry holds the separator. *)
Definition fields_pipe_free (e : Entry) : Prop :=
  pipe_free (en_Actor e) ∧ pipe_free (en_Action e) ∧ pipe_free (en_Resource e) ∧ pipe_free (en_Status e).

Lemma expected_hash_inj p1 p2 e1 e2 : pipe_free p1 → pipe_free p2 →
  fields_pipe_free e1 → fields_pipe_free e2 →
  expected_hash p1 e1 = expected_hash p2 e2 → p1 = p2 ∧ covered e1 = covered e2.
Proof.
  intros Hp1 Hp2 (Ha1 & Hc1 & Hr1 & Hs1) (Ha2 & Hc2 & Hr2 & Hs2) Heq. apply sha_inj in Heq.
  apply split_pipe in Heq as [-> Heq]; [|done..].
  apply split_pipe in Heq as [Ht Heq]; [|apply time_pipe_free..].
  apply split_pipe in Heq as [Ha Heq]; [|done..]. apply split_pipe in Heq as [Hc Heq]; [|done..].
  apply split_pipe in Heq as [Hr Heq]; [|done..]. apply split_pipe in Heq as [Hs Heq]; [|done..].
  split; [done|]. unfold covered. by rewrite Ht, Ha, Hc, Hr, Hs, Heq.
Qed.

Lemma expected_hash_pipe_free p e : pipe_free (expected_hash p e).
Proof. apply sha_pipe_free. Qed.

Lemma last_hash_chain_pipe_free l : chain_ok "" l = true → pipe_free (last_hash "" l).
Proof.
  destruct l as [|e l _] using rev_ind; [done|]. rewrite chain_ok_snoc, last_hash_snoc. intros Hc. bool_props.
  match goal with E : en_Hash e = _ |- _ => rewrite E end. apply expected_hash_pipe_free.
Qed.

Lemma chain_snoc_nonempty l e : chain_ok "" (l ++ [e]) = true → last_hash "" (l ++ [e]) ≠ "".
Proof.
  rewrite chain_ok_snoc, last_hash_snoc. intros Hc. bool_props.
  match goal with E : en_Hash e = _ |- _ => rewrite E end. apply sha_nonempty.
Qed.
End ideal.

(** ** Theorems *)

(** Whatever repository the service runs on, what it recorded verifies:
    starting from an empty log, with a clock that never goes back and at most
    the million entries [Verify] lists, the log holds the recorded events
    in order with redacted details, and [Verify] accepts it with the head
    signature the exporter would produce, signing key or not. *)
Theorem recorded_log_verifies `{Digest} {S : Type} `{!AuditStore S} `{!AuditStoreLaws S}
    (key : bytes) (s s' : S) evs signedAt :
  as_repo s = NewAuditRepository →
  (key ≠ [] → ∀ m, hmac_sha256_hex key m ≠ "") →
  Forall (λ x, x.1 ≠ 0) evs → StronglySorted Z.le evs.*1 → Z.of_nat (length evs) ≤ 1000000 →
  for_each (record_step key) s evs = Ok s' →
  let head := as_LatestHash s' in
  Verify key s' (signHead key head signedAt) signedAt =
    Some (mkVerifyResult true head (match key with [] => "" | _ => signHead key head signedAt end) "") ∧
  Forall2 (λ x e, en_Timestamp e = x.1 ∧ en_Actor e = ev_Actor x.2 ∧ en_Action e = ev_Action x.2 ∧
    en_Resource e = ev_Resource x.2 ∧ en_Status e = ev_Status x.2 ∧
    en_Details e = SanitizeDetails (ev_Details x.2)) evs (ar_entries (as_repo s')).
Proof.
  intros Hs Hmac Hz Hsort Hlen Hrun head.
  assert (Hi : log_inv key s) by (unfold log_inv; rewrite Hs; split; [apply audit_wf_new|by intros ? ?%elem_of_nil]).
  destruct (run_inv key s evs s' Hi Hz Hrun) as ([Hwf Hsig] & es & Hes & Hall).
  rewrite Hs in Hes. simpl in Hes. rewrite Hes. split; [|done].
  assert (Ht : in_time_order (ar_entries (as_repo s'))).
  { rewrite Hes. intros i j x y Hij Hx Hy.
    destruct (Forall2_lookup_r _ _ _ _ _ Hall Hx) as (ex & Hex & -> & _).
    destruct (Forall2_lookup_r _ _ _ _ _ Hall Hy) as (ey & Hey & -> & _).
    destruct (decide (i = j)) as [->|]; [assert (ex = ey) by congruence; subst; done|].
    apply (sorted_lookup _ _ i j _ _ Hsort); [lia|by rewrite list_lookup_fmap, Hex|by rewrite list_lookup_fmap, Hey]. }
  unfold Verify. rewrite as_List_law, list_all_in_order;
    [|done|done|lia|rewrite Hes, <-(Forall2_length _ _ _ Hall); lia]. simpl.
  rewrite verify_from_ok; [|apply Hwf|done|done].
  unfold head. rewrite as_LatestHash_law, latest_hash_eq, bool_decide_true by done. simpl.
  destruct key as [|k key']; [done|]. unfold signHead at 1 2.
  rewrite bool_decide_false by (apply Hmac; done). by rewrite bool_decide_true.
Qed.

(** The replicated log: any sequence of append commands, entries as they come
    off the wire, each applied with the replica's clock; a refused one
    changes nothing. *)
Definition append_command `{Digest} (r : AuditRepository) (x : Time * Entry) : AuditRepository :=
  match handleAuditAppend x.1 r x.2 with Ok (r', _) => r' | Err _ => r end.

Lemma append_command_wf `{Digest} r x : audit_wf r → audit_wf (append_command r x).
Proof.
  intros Hwf. unfold append_command. destruct (handleAuditAppend _ _ _) as [[r' e']|] eqn:E; [|done].
  by eapply Append_wf; [done| |exact E].
Qed.

(** C17. The replicated log stays a valid chain whatever is appended to it and
    however requests interleave: after any sequence of append commands (stale
    or forged hashes included) the entries in log order pass [ValidateChain],
    are numbered from one, and the log only grows. *)
Theorem replicated_chain_valid `{Digest} xs ys :
  let r := foldl append_command NewAuditRepository xs in
  ValidateChain (ar_entries r) = Ok tt ∧
  (∀ (i : nat) e, ar_entries r !! i = Some e → en_ID e = Z.of_nat i + 1) ∧
  ar_entries r `prefix_of` ar_entries (foldl append_command NewAuditRepository (xs ++ ys)).
Proof.
  assert (Hwf : ∀ zs r, audit_wf r → audit_wf (foldl append_command r zs)).
  { induction zs as [|z zs IH]; intros r0 Hr0; simpl; [done|]. by apply IH, append_command_wf. }
  assert (Hgrow : ∀ zs r, ar_entries r `prefix_of` ar_entries (foldl append_command r zs)).
  { induction zs as [|z zs IH]; intros r0; simpl; [done|]. etrans; [|apply IH]. unfold append_command.
    destruct (handleAuditAppend _ _ _) as [[r' e']|] eqn:E; [|done].
    apply Append_ok in E as [_ ->]. simpl. by apply prefix_app_r. }
  intros r. destruct (Hwf xs _ audit_wf_new) as (Hc & _ & Hid). split_and!.
  - by apply validate_from_ok.
  - apply Hid.
  - rewrite foldl_app. apply Hgrow.
Qed.

(** C15. The log is tamper evident: with an ideal digest, two logs that both
    pass [ValidateChain] and end in the same head hash agree entry by entry
    on everything the hash covers (timestamp, actor, action, resource,
    status, details), provided no field holds the separator. So no entry can
    be altered, dropped, inserted or reordered under a known head. *)
Theorem tamper_evident `{IdealDigest} l1 l2 :
  ValidateChain l1 = Ok tt → ValidateChain l2 = Ok tt →
  Forall fields_pipe_free l1 → Forall fields_pipe_free l2 →
  last_hash "" l1 = last_hash "" l2 → covered <$> l1 = covered <$> l2.
Proof.
  unfold ValidateChain. rewrite !validate_from_ok. revert l2.
  induction l1 as [|e1 l1 IH] using rev_ind; intros l2 Hc1 Hc2 Hf1 Hf2 Hh;
    destruct l2 as [|e2 l2 _] using rev_ind.
  - done.
  - by apply chain_snoc_nonempty in Hc2.
  - by apply chain_snoc_nonempty in Hc1.
  - rewrite !last_hash_snoc in Hh. rewrite !chain_ok_snoc in Hc1, Hc2. bool_props.
    apply Forall_app in Hf1 as [Hf1 He1], Hf2 as [Hf2 He2]. rewrite Forall_singleton in He1, He2.
    assert (expected_hash (last_hash "" l1) e1 = expected_hash (last_hash "" l2) e2) as Heq by congruence.
    apply expected_hash_inj in Heq as [Hp Hcov]; [|by apply last_hash_chain_pipe_free..|done|done].
    rewrite !fmap_app. simpl. rewrite Hcov, (IH l2); done.
Qed.

(** The separator is not escaped: text moved across a field boundary hashes
    the same, for every digest. An entry whose actor or action holds the
    separator can be altered without breaking the chain. *)
Theorem separator_ambiguity `{Digest} prev a b c resource status details ts :
  computeHash prev (a +:+ "|" +:+ b) c resource status details ts =
  computeHash prev a (b +:+ "|" +:+ c) resource status details ts.
Proof. unfold computeHash. by rewrite !str_app_assoc. Qed.

Lemma app_self_empty (s t u : string) : t +:+ u = u → t = "".
Proof.
  intros Hl. apply (f_equal String.length) in Hl. rewrite str_app_length in Hl.
  destruct t; [done|]. simpl in Hl. lia.
Qed.

(** A hash taken after a non-empty previous hash is not the hash at the head. *)
Lemma expected_hash_head `{IdealDigest} p e : p ≠ "" → expected_hash p e ≠ expected_hash "" e.
Proof.
  intros Hp Heq%sha_inj. simpl in Heq.
  apply Hp. eapply (app_self_empty ""). exact Heq.
Qed.

(** What the replicated store stores for an entry with a timestamp. *)
Lemma restamped `{Digest} now r e r' s : en_Timestamp e ≠ 0 → audit_wf r → handleAuditAppend now r e = Ok (r', s) →
  audit_wf r' ∧ AuditRepository_LatestHash r' = en_Hash s ∧
  en_Hash s = expected_hash (AuditRepository_LatestHash r) s ∧ en_Signature s = en_Signature e ∧
  ∀ p, expected_hash p s = expected_hash p e.
Proof.
  intros Ht Hwf HA. split; [by eapply (Append_wf r _ _ _ Hwf); [|exact HA]|].
  apply Append_ok in HA as [-> ->]. unfold IsZero. rewrite (proj2 (Z.eqb_neq _ _) Ht). simpl.
  split; [|done]. rewrite latest_hash_eq. simpl. by rewrite last_hash_snoc.
Qed.

(** Two requests that read the log concurrently and are appended one after
    the other by the replicated store: the second entry is restamped with
    the hash of its place but keeps the signature of the hash its service
    computed, and [Verify] rejects the log. *)
Theorem concurrent_signature_mismatch `{IdealDigest} key now e1 e2 t1 t2 r1 r2 s1 s2 :
  key ≠ [] → 0 < t1 ≤ t2 →
  let prev := AuditRepository_LatestHash NewAuditRepository in
  handleAuditAppend now NewAuditRepository (build_entry key prev t1 e1) = Ok (r1, s1) →
  handleAuditAppend now r1 (build_entry key prev t2 e2) = Ok (r2, s2) →
  ValidateChain (ar_entries r2) = Ok tt ∧
  en_Signature s2 = signEntry key (expected_hash "" s2) ∧ en_Signature s2 ≠ signEntry key (en_Hash s2).
Proof.
  intros Hk Ht prev H1 H2.
  destruct (build_entry_spec key prev t1 e1) as (_ & _ & Ht1 & _).
  destruct (build_entry_spec key prev t2 e2) as (Hh & Hs & Ht2 & _).
  destruct (restamped _ _ _ _ _ ltac:(rewrite Ht1; lia) audit_wf_new H1) as (Hwf1 & Hl1 & Hh1 & _).
  destruct (restamped _ _ _ _ _ ltac:(rewrite Ht2; lia) Hwf1 H2) as (Hwf2 & _ & Hh2 & Hsig & Heq).
  split; [apply validate_from_ok, Hwf2|]. rewrite Hsig, Hs, Hh, <-Heq by done. split; [done|].
  intros Hc%hmac_inj. rewrite Hh2 in Hc. apply (expected_hash_head (AuditRepository_LatestHash r1) s2); [|done].
  rewrite Hl1, Hh1. apply sha_nonempty.
Qed.

(** A clock that steps back makes an untouched log fail verification: two
    events recorded one after the other, the second with an earlier
    timestamp, are listed in the other order, and the first entry checked
    does not carry the hash of the head of the chain. *)
Theorem clock_step_back_rejected `{IdealDigest} t1 t2 ev1 ev2 r :
  0 < t2 < t1 →
  for_each (record_step []) NewAuditRepository [(t1, ev1); (t2, ev2)] = Ok r →
  ValidateChain (ar_entries r) = Ok tt ∧
  Verify [] r "" 0 = Some (mkVerifyResult false (AuditRepository_LatestHash r) "" "hash mismatch at entry id 2").
Proof.
  intros Ht HR.
  assert (Hi : log_inv [] NewAuditRepository) by (split; [apply audit_wf_new|by intros ? ?%elem_of_nil]).
  destruct (run_inv [] NewAuditRepository [(t1, ev1); (t2, ev2)] r Hi ltac:(repeat constructor; simpl; lia) HR) as ([Hwf _] & es & Hes & Hall).
  apply Forall2_cons_inv_l in Hall as (e1 & es1 & [Ht1 _] & Hall & ->).
  apply Forall2_cons_inv_l in Hall as (e2 & es2 & [Ht2 _] & Hall & ->).
  apply Forall2_nil_inv_l in Hall as ->. simpl in *. split; [apply validate_from_ok, Hwf|].
  destruct Hwf as (Hc & _ & Hid). unfold id in *. rewrite Hes in *. simpl in Hc. bool_props.
  assert (Hid1 := Hid 0%nat e1 eq_refl). assert (Hid2 := Hid 1%nat e2 eq_refl).
  assert (Hsort : merge_sort audit_asc_le [e1; e2] = [e2; e1]).
  { unfold merge_sort. simpl. rewrite decide_False; [done|]. unfold audit_asc_le. case_decide; lia. }
  unfold Verify. simpl. unfold AuditRepository_List. simpl. rewrite Hes. simpl.
  change (filter (since_ok None) [e1; e2]) with [e1; e2]. rewrite Hsort. simpl.
  rewrite bool_decide_false; simpl.
  - rewrite Hid2. unfold AuditRepository_LatestHash. by rewrite Hes.
  - match goal with E : en_Hash e2 = _ |- _ => rewrite E end. apply expected_hash_head.
    match goal with E : en_Hash e1 = _ |- _ => rewrite E end. apply sha_nonempty.
Qed.

(** ** A concrete ideal digest, and the theorems at concrete logs *)

Definition bit (b : bool) : ascii := if b then "1" else "0".
Fixpoint bits (s : string) : string :=
  match s with
  | EmptyString => EmptyString
  | String (Ascii b0 b1 b2 b3 b4 b5 b6 b7) s =>
    String (bit b0) (String (bit b1) (String (bit b2) (String (bit b3)
      (String (bit b4) (String (bit b5) (String (bit b6) (String (bit b7) (bits s))))))))
  end.

Lemma bit_inj b c : bit b = bit c → b = c.
Proof. by destruct b, c. Qed.

Lemma bits_inj s t : bits s = bits t → s = t.
Proof.
  revert t. induction s as [|[] s IH]; intros [|[] t]; simpl; intros Heq; try done.
  injection Heq as E0 E1 E2 E3 E4 E5 E6 E7 Heq%IH.
  apply bit_inj in E0, E1, E2, E3, E4, E5, E6, E7. by subst.
Qed.

Lemma bits_pipe_free s : pipe_free (bits s).
Proof.
  unfold pipe_free. induction s as [|[b0 b1 b2 b3 b4 b5 b6 b7] s IH]; [done|]. simpl. rewrite IH.
  by destruct b0, b1, b2, b3, b4, b5, b6, b7.
Qed.

#[local] Instance bits_digest : Digest := {|
  sha256_hex := λ x, String "h" (bits x);
  hmac_sha256_hex := λ _ m, String "m" (bits m);
  json_details := λ _, "{}";
  format_time := λ t, bits (pretty t);
|}.

#[local] Instance bits_ideal : IdealDigest.
Proof.
  split; simpl.
  - intros x y [= Heq]. by apply bits_inj.
  - done.
  - intros x. unfold pipe_free. simpl. apply bits_pipe_free.
  - intros t. apply bits_pipe_free.
  - intros _ x y [= Heq]. by apply bits_inj.
Qed.

Definition login (actor : string) : AuditEvent :=
  mkAuditEvent actor "auth.login" "auth/token" "success" [("password", VStr "hunter2"); ("source_ip", VStr "10.0.0.1")].

Lemma recorded_log_verifies_witness : ∃ r : AuditRepository,
  for_each (record_step ["k"%char]) NewAuditRepository [(5, login "alice"); (7, login "bob")] = Ok r ∧
  Verify ["k"%char] r (signHead ["k"%char] (as_LatestHash r) 9) 9 =
    Some (mkVerifyResult true (as_LatestHash r) (signHead ["k"%char] (as_LatestHash r) 9) "").
Proof.
  destruct (for_each (record_step ["k"%char]) NewAuditRepository [(5, login "alice"); (7, login "bob")])
    as [r|] eqn:E; [|vm_compute in E; discriminate E].
  exists r. split; [reflexivity|].
  apply (recorded_log_verifies ["k"%char] NewAuditRepository r [(5, login "alice"); (7, login "bob")] 9);
    [reflexivity|done|repeat constructor; simpl; lia|repeat constructor; simpl; lia|simpl; lia|exact E].
Defined.

(** Two logs that differ only in what the hash does not cover. *)
Lemma tamper_evident_witness :
  let e := build_entry [] "" 5 (login "alice") in
  let e' := en_with_id (en_with_signature e "other") 9 in
  ValidateChain [e] = Ok tt ∧ ValidateChain [e'] = Ok tt ∧ last_hash "" [e] = last_hash "" [e'] ∧
  covered <$> [e] = covered <$> [e'].
Proof.
  intros e e'.
  assert (H1 : ValidateChain [e] = Ok tt) by (by vm_compute).
  assert (H2 : ValidateChain [e'] = Ok tt) by (by vm_compute).
  assert (Hf1 : Forall fields_pipe_free [e]) by (repeat constructor; by vm_compute).
  assert (Hf2 : Forall fields_pipe_free [e']) by (repeat constructor; by vm_compute).
  split; [exact H1|]. split; [exact H2|]. split; [reflexivity|].
  exact (tamper_evident [e] [e'] H1 H2 Hf1 Hf2 eq_refl).
Defined.

(** Inputs on which the two rejections of an untouched log happen. *)
Example clock_step_back_happens :
  is_ok (for_each (record_step []) NewAuditRepository [(7, login "alice"); (5, login "bob")]) = true.
Proof. by vm_compute. Qed.

Example concurrent_append_happens :
  match handleAuditAppend 0 NewAuditRepository (build_entry ["k"%char] "" 5 (login "alice")) with
  | Ok (r1, _) => is_ok (handleAuditAppend 0 r1 (build_entry ["k"%char] "" 5 (login "bob")))
  | Err _ => false
  end = true.
Proof. by vm_compute. Qed.
