(* ===== verification/Backup.v ===== *)
(** Backup snapshots, internal/backup: the portable records
    (snapshot.go), the conversions (convert.go), export (export.go),
    validation and restore (import.go) and clearing (clear.go), over the
    memory repositories, all of them configured, as [Store.Repos] of
    internal/raft/store.go hands them over.

    A slice that is nil or empty is the empty list. [Restore] writes into
    the repositories it is given and stops at the first error, so it returns
    the repositories as they are then, with the error. *)

From Stdlib Require Import Ascii.
From S2P Require Import Prelude.
From S2P Require Import GoLib.
From S2P Require Import Glob.
From S2P Require Import Policy.
From S2P Require Import Domain.
From S2P Require Import SqlAllow.
From S2P Require Import DynamicRoles.
From S2P Require Import Repos.
From S2P Require Import SecretRepo.
From S2P Require Import Redact.
From S2P Require Import AuditLog.

#[local] Open Scope Z_scope.
#[local] Arguments String.append : simpl never.

(** ** snapshot.go *)

Definition formatVersion : Z := 1.

Record TokenRecord := mkTokenRecord {
  tr_ID : string; tr_Subject : string; tr_Policies : list string;
  tr_ExpiresAt : Time; tr_Renewable : bool; tr_Revoked : bool }.

Record CARecord := mkCARecord {
  car_ID : UUID; car_ParentID : option UUID; car_Name : string; car_Type : string;
  car_CommonName : string; car_Serial : string; car_CertPEM : string;
  car_PrivateKeyEnc : bytes; car_DEKEnc : bytes; car_Status : string;
  car_CreatedAt : Time; car_ExpiresAt : Time; car_CRLNextUpdate : option Time }.

Record SecretRecord := mkSecretRecord {
  sr_ID : UUID; sr_Path : string; sr_Version : Z; sr_DataEnc : bytes; sr_DEKEnc : bytes;
  sr_LeaseID : option string; sr_TTLSeconds : option Z; sr_CreatedAt : Time;
  sr_ExpiresAt : option Time; sr_Destroyed : bool }.

Record RevokedRecord := mkRevokedRecord {
  rr_Serial : string; rr_CAID : UUID; rr_RevokedAt : Time; rr_Reason : string }.

Record PolicyRecord := mkPolicyRecord {
  por_Name : string; por_Effect : string; por_Resources : list string;
  por_Actions : list string; por_Conditions : gmap string any }.

Record RoleRecord := mkRoleRecord {
  ror_Name : string; ror_Policies : list string;
  ror_BoundServiceAccountNames : list string; ror_BoundServiceAccountNamespaces : list string }.

Record PKIRoleRecord := mkPKIRoleRecord {
  pkr_Name : string; pkr_CAName : string; pkr_AllowedDomains : list string;
  pkr_MaxTTLSeconds : Z; pkr_KeyUsage : string; pkr_AllowSubdomains : bool }.

Record SSHRoleRecord := mkSSHRoleRecord {
  ssr_Name : string; ssr_TTLSeconds : Z; ssr_CAKeyPath : string; ssr_AllowedUsers : list string;
  ssr_DefaultUser : string; ssr_KeyType : string; ssr_Extensions : option (gmap string string) }.

Record DatabaseRoleRecord := mkDatabaseRoleRecord {
  dbr_Name : string; dbr_TTLSeconds : Z; dbr_UsernamePrefix : string; dbr_DefaultUsername : string;
  dbr_CreationStatements : list string; dbr_RevocationStatements : list string;
  dbr_ExecutionMode : string; dbr_AdminCredentialsPath : string; dbr_Config : gmap string any }.

Record LeaseRecord := mkLeaseRecord {
  lr_ID : string; lr_Path : string; lr_RoleName : string; lr_Engine : string; lr_TTLSeconds : Z;
  lr_CreatedAt : Time; lr_ExpiresAt : Time; lr_RevokedAt : option Time; lr_Renewable : bool }.

Record IssuedCertRecord := mkIssuedCertRecord {
  icr_ID : UUID; icr_CAID : UUID; icr_Role : string; icr_Serial : string; icr_CommonName : string;
  icr_DNSNames : list string; icr_TTLSeconds : Z; icr_IssuedAt : Time; icr_ExpiresAt : Time;
  icr_AutoRenew : bool; icr_RenewedFromSerial : option string }.

Record AuditRecord := mkAuditRecord {
  aur_Timestamp : Time; aur_Actor : string; aur_Action : string; aur_Resource : string;
  aur_Status : string; aur_Details : list (string * any); aur_Hash : string }.

Record Snapshot := mkSnapshot {
  sn_Version : Z;
  sn_CreatedAt : Time;
  sn_CAs : list CARecord;
  sn_Secrets : list SecretRecord;
  sn_Revoked : list RevokedRecord;
  sn_Policies : list PolicyRecord;
  sn_Roles : list RoleRecord;
  sn_PKIRoles : list PKIRoleRecord;
  sn_DBRoles : list DatabaseRoleRecord;
  sn_SSHRoles : list SSHRoleRecord;
  sn_Leases : list LeaseRecord;
  sn_Issued : list IssuedCertRecord;
  sn_Audit : list AuditRecord;
  sn_Tokens : list TokenRecord;
}.

Record Repos := mkRepos {
  rs_CA : gmap UUID CA;
  rs_Secret : SecretRepository;
  rs_Audit : AuditRepository;
  rs_Revoke : RevocationRepository;
  rs_Lease : gmap string Lease;
  rs_Policy : gmap string Policy;
  rs_Role : gmap string Role;
  rs_PKIRole : gmap string PKIRole;
  rs_DBRole : gmap string DatabaseRole;
  rs_SSHRole : gmap string SSHRole;
  rs_IssuedCert : gmap (UUID * string) IssuedCertificate;
  rs_Token : gmap string ClientToken;
}.

Definition empty_repos : Repos :=
  mkRepos ∅ ∅ NewAuditRepository NewRevocationRepository ∅ ∅ ∅ ∅ ∅ ∅ ∅ ∅.

(** ** convert.go *)

Definition caFromDomain (c : CA) : CARecord :=
  mkCARecord (ca_ID c) (ca_ParentID c) (ca_Name c) (ca_Type c) (dn_CommonName (ca_Subject c)) (ca_Serial c)
    (ca_CertPEM c) (ca_PrivateKeyEnc c) (ca_DEKEnc c) (ca_Status c) (ca_CreatedAt c) (ca_ExpiresAt c)
    (ca_CRLNextUpdate c).
Definition caToDomain (r : CARecord) : CA :=
  mkCA (car_ID r) (car_ParentID r) (car_Name r) (car_Type r) (mkDN (car_CommonName r) "" "" "") (car_Serial r)
    (car_CertPEM r) (car_PrivateKeyEnc r) (car_DEKEnc r) (car_Status r) (car_CreatedAt r) (car_ExpiresAt r)
    (car_CRLNextUpdate r).

Definition secretFromDomain (s : SecretVersion) : SecretRecord :=
  mkSecretRecord (sv_ID s) (sv_Path s) (sv_Version s) (sv_DataEnc s) (sv_DEKEnc s) (sv_LeaseID s)
    (sv_TTLSeconds s) (sv_CreatedAt s) (sv_ExpiresAt s) (sv_Destroyed s).
Definition secretToDomain (r : SecretRecord) : SecretVersion :=
  mkSecretVersion (sr_ID r) (sr_Path r) (sr_Version r) (sr_DataEnc r) (sr_DEKEnc r) (sr_LeaseID r)
    (sr_TTLSeconds r) (sr_CreatedAt r) (sr_ExpiresAt r) (sr_Destroyed r) ∅.

Definition pkiRoleFromDomain (r : PKIRole) : PKIRoleRecord :=
  mkPKIRoleRecord (pr_Name r) (pr_CAName r) (pr_AllowedDomains r) (pr_MaxTTLSeconds r) (pr_KeyUsage r)
    (pr_AllowSubdomains r).
Definition pkiRoleToDomain (r : PKIRoleRecord) : PKIRole :=
  mkPKIRole (pkr_Name r) (pkr_CAName r) (pkr_AllowedDomains r) (pkr_MaxTTLSeconds r) (pkr_KeyUsage r)
    (pkr_AllowSubdomains r).

Definition auditFromDomain (e : Entry) : AuditRecord :=
  mkAuditRecord (en_Timestamp e) (en_Actor e) (en_Action e) (en_Resource e) (en_Status e) (en_Details e) (en_Hash e).
Definition auditToDomain (r : AuditRecord) : Entry :=
  mkEntry 0 (aur_Timestamp r) (aur_Actor r) (aur_Action r) (aur_Resource r) (aur_Status r) (aur_Details r)
    (aur_Hash r) "" "" "" "" "" "" "".

Definition sshRoleFromDomain (r : SSHRole) : SSHRoleRecord :=
  let r := NormalizeSSHRole r in
  mkSSHRoleRecord (ssh_Name r) (ssh_TTLSeconds r) (ssh_CAKeyPath r) (ssh_AllowedUsers r) (ssh_DefaultUser r)
    (ssh_KeyType r) (ssh_Extensions r).
Definition sshRoleToDomain (r : SSHRoleRecord) : SSHRole :=
  NormalizeSSHRole
    (mkSSHRole (ssr_Name r) (ssr_TTLSeconds r) 0 0 0 false 0 (ssr_CAKeyPath r) (ssr_AllowedUsers r)
       (ssr_DefaultUser r) (ssr_KeyType r) (ssr_Extensions r) 0 0).

Definition databaseRoleFromDomain (r : DatabaseRole) : DatabaseRoleRecord :=
  let r := NormalizeDatabaseRole r in
  mkDatabaseRoleRecord (db_Name r) (db_TTLSeconds r) (db_UsernamePrefix r) (db_DefaultUsername r)
    (db_CreationStatements r) (db_RevocationStatements r) (db_ExecutionMode r) (db_AdminCredentialsPath r)
    (db_Config r).
Definition databaseRoleToDomain (r : DatabaseRoleRecord) : DatabaseRole :=
  NormalizeDatabaseRole
    (mkDatabaseRole (dbr_Name r) (dbr_TTLSeconds r) 0 0 0 false 0 (dbr_UsernamePrefix r) (dbr_DefaultUsername r)
       (dbr_CreationStatements r) (dbr_RevocationStatements r) (dbr_ExecutionMode r) (dbr_AdminCredentialsPath r)
       (dbr_Config r) 0 0).

Definition leaseFromDomain (l : Lease) : LeaseRecord :=
  mkLeaseRecord (lease_ID l) (lease_Path l) (lease_RoleName l) (lease_Engine l) (lease_TTLSeconds l)
    (lease_CreatedAt l) (lease_ExpiresAt l) (lease_RevokedAt l) (lease_Renewable l).
Definition leaseToDomain (r : LeaseRecord) : Lease :=
  mkLease (lr_ID r) (lr_Path r) (lr_RoleName r) (lr_Engine r) (lr_TTLSeconds r)
    (lr_CreatedAt r) (lr_ExpiresAt r) (lr_RevokedAt r) (lr_Renewable r) "" ∅.

Definition issuedFromDomain (c : IssuedCertificate) : IssuedCertRecord :=
  mkIssuedCertRecord (ic_ID c) (ic_CAID c) (ic_Role c) (ic_Serial c) (ic_CommonName c) (ic_DNSNames c)
    (ic_TTLSeconds c) (ic_IssuedAt c) (ic_ExpiresAt c) (ic_AutoRenew c) (ic_RenewedFromSerial c).
Definition issuedToDomain (r : IssuedCertRecord) : IssuedCertificate :=
  mkIssued (icr_ID r) (icr_CAID r) (icr_Role r) (icr_Serial r) (icr_CommonName r) (icr_DNSNames r)
    (icr_TTLSeconds r) (icr_IssuedAt r) (icr_ExpiresAt r) (icr_AutoRenew r) (icr_RenewedFromSerial r).

Definition policyFromDomain (p : Policy) : PolicyRecord :=
  mkPolicyRecord (policy_Name p) (policy_Effect p) (policy_Resources p) (policy_Actions p) (policy_Conditions p).
Definition policyToDomain (r : PolicyRecord) : Policy :=
  mkPolicy uuid_Nil (por_Name r) (por_Effect r) (por_Resources r) (por_Actions r) [] [] (por_Conditions r).

Definition roleFromDomain (r : Role) : RoleRecord :=
  mkRoleRecord (role_Name r) (role_Policies r) (role_BoundServiceAccountNames r)
    (role_BoundServiceAccountNamespaces r).
Definition roleToDomain (r : RoleRecord) : Role :=
  mkRole (ror_Name r) (ror_Policies r) [] (ror_BoundServiceAccountNames r)
    (ror_BoundServiceAccountNamespaces r) "" None false.

Definition tokenFromDomain (t : ClientToken) : TokenRecord :=
  mkTokenRecord (ct_ID t) (ct_Subject t) (ct_Policies t) (ct_ExpiresAt t) (ct_Renewable t) (ct_Revoked t).
Definition tokenToDomain (r : TokenRecord) : ClientToken :=
  mkClientToken (tr_ID r) (tr_Subject r) (tr_Policies r) (tr_ExpiresAt r) (tr_Renewable r) (tr_Revoked r)
    "" "" [] "" 0.

Definition revokedFromDomain (c : RevokedCertificate) : RevokedRecord :=
  mkRevokedRecord (rv_Serial c) (rv_CAID c) (rv_RevokedAt c) (rv_Reason c).
Definition revokedToDomain (r : RevokedRecord) : RevokedCertificate :=
  mkRevoked (rr_Serial r) (rr_CAID r) (rr_RevokedAt r) (rr_Reason r).

(** ** export.go *)

Record ExportOptions := mkExportOptions { eo_IncludeAudit : bool; eo_AuditLimit : Z }.

(** [now] is the clock; [None] is a run-time panic of a listing. *)
Definition Export `{UrlParser} (now : Time) (repos : Repos) (opts : ExportOptions) : option Snapshot :=
  let cas := CARepository_List (rs_CA repos) in
  let revoked := mjoin ((λ c, RevocationRepository_ListByCA (rs_Revoke repos) (ca_ID c)) <$> cas) in
  audit ← (if eo_IncludeAudit opts then
             let limit := if eo_AuditLimit opts <=? 0 then 10000 else eo_AuditLimit opts in
             AuditRepository_List (rs_Audit repos) (mkAuditListOptions None limit 0 true)
           else Some []);
  Some (mkSnapshot formatVersion now
    (caFromDomain <$> cas)
    (secretFromDomain <$> ListByPath (rs_Secret repos) "")
    (revokedFromDomain <$> revoked)
    (policyFromDomain <$> PolicyRepository_List (rs_Policy repos))
    (roleFromDomain <$> RoleRepository_List (rs_Role repos))
    (pkiRoleFromDomain <$> PKIRoleRepository_List (rs_PKIRole repos))
    (databaseRoleFromDomain <$> DatabaseRoleRepository_List (rs_DBRole repos))
    (sshRoleFromDomain <$> SSHRoleRepository_List (rs_SSHRole repos))
    (leaseFromDomain <$> LeaseRepository_List (rs_Lease repos))
    (issuedFromDomain <$> IssuedCertRepository_List (rs_IssuedCert repos))
    (auditFromDomain <$> audit)
    (tokenFromDomain <$> TokenRepository_List (rs_Token repos))).

(** ** import.go: validation *)

(** The first loop over the CAs, with the identifiers and names seen. *)
Definition check_ca (acc : gset UUID * gset string) (c : CARecord) : res (gset UUID * gset string) :=
  let '(seen, names) := acc in
  _ ← reject (is_nil_uuid (car_ID c)) (Plain "ca id is required");
  _ ← reject (bool_decide (car_ID c ∈ seen)) (Plain ("duplicate ca id " +:+ uuid_string (car_ID c)));
  _ ← reject (car_Name c =s "") (Plain "ca name is required");
  _ ← reject (bool_decide (car_Name c ∈ names)) (Plain ("duplicate ca name " +:+ car_Name c));
  Ok ({[car_ID c]} ∪ seen, {[car_Name c]} ∪ names).

Definition check_parent (seen : gset UUID) (_ : unit) (c : CARecord) : res unit :=
  match car_ParentID c with
  | None => Ok tt
  | Some p => reject (negb (bool_decide (p ∈ seen))) (Plain ("ca " +:+ car_Name c +:+ " references unknown parent"))
  end.

Definition check_policy (names : gset string) (p : PolicyRecord) : res (gset string) :=
  _ ← reject (por_Name p =s "") (Plain "policy name is required");
  Ok ({[por_Name p]} ∪ names).

Definition check_role (policyNames : gset string) (_ : unit) (r : RoleRecord) : res unit :=
  _ ← reject (ror_Name r =s "") (Plain "role name is required");
  for_each (λ _ policy, reject (negb (bool_decide (policy ∈ policyNames)))
    (Plain ("role " +:+ ror_Name r +:+ " references unknown policy " +:+ policy))) tt (ror_Policies r).

Definition check_pki_role (caNames : gset string) (_ : unit) (r : PKIRoleRecord) : res unit :=
  _ ← reject (pkr_Name r =s "") (Plain "pki role name is required");
  _ ← reject (pkr_CAName r =s "") (Plain ("pki role " +:+ pkr_Name r +:+ " ca_name is required"));
  reject (negb (bool_decide (pkr_CAName r ∈ caNames)))
    (Plain ("pki role " +:+ pkr_Name r +:+ " references unknown ca " +:+ pkr_CAName r)).

(** The serials seen are keyed by [CAID.String() + ":" + Serial], as a pair. *)
Definition check_issued (seen : gset UUID) (serials : gset (UUID * string)) (c : IssuedCertRecord)
    : res (gset (UUID * string)) :=
  _ ← reject (is_nil_uuid (icr_CAID c)) (Plain ("issued cert " +:+ icr_Serial c +:+ " ca_id is required"));
  _ ← reject (negb (bool_decide (icr_CAID c ∈ seen)))
        (Plain ("issued cert " +:+ icr_Serial c +:+ " references unknown ca"));
  _ ← reject (bool_decide (certKey (icr_CAID c) (icr_Serial c) ∈ serials))
        (Plain ("duplicate issued cert serial " +:+ icr_Serial c));
  Ok ({[certKey (icr_CAID c) (icr_Serial c)]} ∪ serials).

Definition chain_record (r : AuditRecord) : ChainRecord :=
  mkChainRecord (aur_Timestamp r) (aur_Actor r) (aur_Action r) (aur_Resource r) (aur_Status r)
    (aur_Details r) (aur_Hash r).

Definition validateAuditRecords `{Digest} (records : list AuditRecord) : res unit :=
  if forallb (λ r, aur_Hash r =s "") records then Ok tt
  else match ValidateRecordChain (chain_record <$> records) with
       | Ok _ => Ok tt
       | Err e => Err (Wrapf "audit chain: " e)
       end.

Definition ValidateSnapshot `{Digest} (s : Snapshot) : res unit :=
  _ ← reject (negb (sn_Version s =? formatVersion)) (Plain ("unsupported backup version " +:+ pretty (sn_Version s)));
  acc ← for_each check_ca (∅, ∅) (sn_CAs s);
  let '(seen, caNames) := acc in
  _ ← for_each (check_parent seen) tt (sn_CAs s);
  policyNames ← for_each check_policy ∅ (sn_Policies s);
  _ ← for_each (check_role policyNames) tt (sn_Roles s);
  _ ← for_each (check_pki_role caNames) tt (sn_PKIRoles s);
  _ ← for_each (check_issued seen) ∅ (sn_Issued s);
  validateAuditRecords (sn_Audit s).

(** ** import.go: restore *)

(** The order of [sortCAs]: roots first, then by name. *)
Definition ca_restore_le : relation CARecord := λ x y,
  if decide ((car_ParentID x = None) ↔ (car_ParentID y = None))
  then String.le (car_Name x) (car_Name y) else car_ParentID x = None.
#[global] Instance ca_restore_le_dec : RelDecision ca_restore_le.
Proof. intros x y. unfold ca_restore_le. case_decide; apply _. Defined.

Definition sortCAs (records : list CARecord) : list CARecord := merge_sort ca_restore_le records.

(** A restoring loop: stop at the first error, keep what was saved. *)
Fixpoint restore_loop {R A} (save : R → A → res R) (context : A → string) (r : R) (l : list A) : R * option error :=
  match l with
  | [] => (r, None)
  | a :: l =>
    match save r a with
    | Ok r' => restore_loop save context r' l
    | Err e => (r, Some (Wrapf (context a) e))
    end
  end.

(** A step of [Restore] on the repositories, and sequencing that returns early. *)
Definition Step := Repos → Repos * option error.
Definition andThen (m k : Step) : Step := λ r,
  match m r with (r', None) => k r' | (r', Some e) => (r', Some e) end.
Notation "m >>> k" := (andThen m k) (at level 60, right associativity).

Definition ClearRepos : Step := λ _, (empty_repos, None).

Definition restore_cas (s : Snapshot) : Step := λ r,
  let '(x, e) := restore_loop (λ x rec, CARepository_Save x (caToDomain rec))
    (λ rec, "restore ca " +:+ car_Name rec +:+ ": ") (rs_CA r) (sortCAs (sn_CAs s)) in
  (mkRepos x (rs_Secret r) (rs_Audit r) (rs_Revoke r) (rs_Lease r) (rs_Policy r) (rs_Role r) (rs_PKIRole r)
     (rs_DBRole r) (rs_SSHRole r) (rs_IssuedCert r) (rs_Token r), e).

Definition restore_secrets (s : Snapshot) : Step := λ r,
  let '(x, e) := restore_loop (λ x rec, SaveVersion x (secretToDomain rec))
    (λ rec, "restore secret " +:+ sr_Path rec +:+ " v" +:+ pretty (sr_Version rec) +:+ ": ")
    (rs_Secret r) (sn_Secrets s) in
  (mkRepos (rs_CA r) x (rs_Audit r) (rs_Revoke r) (rs_Lease r) (rs_Policy r) (rs_Role r) (rs_PKIRole r)
     (rs_DBRole r) (rs_SSHRole r) (rs_IssuedCert r) (rs_Token r), e).

Definition restore_revoked (s : Snapshot) : Step := λ r,
  let '(x, e) := restore_loop (λ x rec, Ok (RevocationRepository_Revoke x (revokedToDomain rec)))
    (λ rec, "restore revocation " +:+ rr_Serial rec +:+ ": ") (rs_Revoke r) (sn_Revoked s) in
  (mkRepos (rs_CA r) (rs_Secret r) (rs_Audit r) x (rs_Lease r) (rs_Policy r) (rs_Role r) (rs_PKIRole r)
     (rs_DBRole r) (rs_SSHRole r) (rs_IssuedCert r) (rs_Token r), e).

(** [fresh i] is what the [i]-th call of [uuid.New()] returns: a policy record
    has no identifier. *)
Definition restore_policies (fresh : nat → UUID) (s : Snapshot) : Step := λ r,
  let '(x, e) := restore_loop (λ x rec, fst <$> PolicyRepository_Save (fresh rec.1) x (policyToDomain rec.2))
    (λ rec, "restore policy " +:+ por_Name rec.2 +:+ ": ") (rs_Policy r) (imap pair (sn_Policies s)) in
  (mkRepos (rs_CA r) (rs_Secret r) (rs_Audit r) (rs_Revoke r) (rs_Lease r) x (rs_Role r) (rs_PKIRole r)
     (rs_DBRole r) (rs_SSHRole r) (rs_IssuedCert r) (rs_Token r), e).

Definition restore_roles (s : Snapshot) : Step := λ r,
  let '(x, e) := restore_loop (λ x rec, RoleRepository_Save x (roleToDomain rec))
    (λ rec, "restore role " +:+ ror_Name rec +:+ ": ") (rs_Role r) (sn_Roles s) in
  (mkRepos (rs_CA r) (rs_Secret r) (rs_Audit r) (rs_Revoke r) (rs_Lease r) (rs_Policy r) x (rs_PKIRole r)
     (rs_DBRole r) (rs_SSHRole r) (rs_IssuedCert r) (rs_Token r), e).

Definition restore_pki_roles (s : Snapshot) : Step := λ r,
  let '(x, e) := restore_loop (λ x rec, PKIRoleRepository_Save x (pkiRoleToDomain rec))
    (λ rec, "restore pki role " +:+ pkr_Name rec +:+ ": ") (rs_PKIRole r) (sn_PKIRoles s) in
  (mkRepos (rs_CA r) (rs_Secret r) (rs_Audit r) (rs_Revoke r) (rs_Lease r) (rs_Policy r) (rs_Role r) x
     (rs_DBRole r) (rs_SSHRole r) (rs_IssuedCert r) (rs_Token r), e).

Definition restore_db_roles `{UrlParser} (s : Snapshot) : Step := λ r,
  let '(x, e) := restore_loop (λ x rec, DatabaseRoleRepository_Save x (databaseRoleToDomain rec))
    (λ rec, "restore database role " +:+ dbr_Name rec +:+ ": ") (rs_DBRole r) (sn_DBRoles s) in
  (mkRepos (rs_CA r) (rs_Secret r) (rs_Audit r) (rs_Revoke r) (rs_Lease r) (rs_Policy r) (rs_Role r) (rs_PKIRole r)
     x (rs_SSHRole r) (rs_IssuedCert r) (rs_Token r), e).

Definition restore_ssh_roles (s : Snapshot) : Step := λ r,
  let '(x, e) := restore_loop (λ x rec, SSHRoleRepository_Save x (sshRoleToDomain rec))
    (λ rec, "restore ssh role " +:+ ssr_Name rec +:+ ": ") (rs_SSHRole r) (sn_SSHRoles s) in
  (mkRepos (rs_CA r) (rs_Secret r) (rs_Audit r) (rs_Revoke r) (rs_Lease r) (rs_Policy r) (rs_Role r) (rs_PKIRole r)
     (rs_DBRole r) x (rs_IssuedCert r) (rs_Token r), e).

Definition restore_leases (s : Snapshot) : Step := λ r,
  let '(x, e) := restore_loop (λ x rec, LeaseRepository_Save x (leaseToDomain rec))
    (λ rec, "restore lease " +:+ lr_ID rec +:+ ": ") (rs_Lease r) (sn_Leases s) in
  (mkRepos (rs_CA r) (rs_Secret r) (rs_Audit r) (rs_Revoke r) x (rs_Policy r) (rs_Role r) (rs_PKIRole r)
     (rs_DBRole r) (rs_SSHRole r) (rs_IssuedCert r) (rs_Token r), e).

Definition restore_issued (s : Snapshot) : Step := λ r,
  let '(x, e) := restore_loop (λ x rec, IssuedCertRepository_Save x (issuedToDomain rec))
    (λ rec, "restore issued cert " +:+ icr_Serial rec +:+ ": ") (rs_IssuedCert r) (sn_Issued s) in
  (mkRepos (rs_CA r) (rs_Secret r) (rs_Audit r) (rs_Revoke r) (rs_Lease r) (rs_Policy r) (rs_Role r) (rs_PKIRole r)
     (rs_DBRole r) (rs_SSHRole r) x (rs_Token r), e).

Definition restore_tokens (s : Snapshot) : Step := λ r,
  let '(x, e) := restore_loop (λ x rec, TokenRepository_Save x (tokenToDomain rec))
    (λ rec, "restore token " +:+ tr_ID rec +:+ ": ") (rs_Token r) (sn_Tokens s) in
  (mkRepos (rs_CA r) (rs_Secret r) (rs_Audit r) (rs_Revoke r) (rs_Lease r) (rs_Policy r) (rs_Role r) (rs_PKIRole r)
     (rs_DBRole r) (rs_SSHRole r) (rs_IssuedCert r) x, e).

Definition restore_audit (s : Snapshot) : Step := λ r,
  let '(x, e) := restore_loop (λ x rec, fst <$> AuditRepository_Append x (auditToDomain rec))
    (λ rec, "restore audit entry " +:+ aur_Action rec +:+ ": ") (rs_Audit r) (sn_Audit s) in
  (mkRepos (rs_CA r) (rs_Secret r) x (rs_Revoke r) (rs_Lease r) (rs_Policy r) (rs_Role r) (rs_PKIRole r)
     (rs_DBRole r) (rs_SSHRole r) (rs_IssuedCert r) (rs_Token r), e).

Definition Restore `{UrlParser} `{Digest} (fresh : nat → UUID) (s : Snapshot) : Step := λ r,
  match ValidateSnapshot s with
  | Err e => (r, Some e)
  | Ok _ =>
    (ClearRepos >>> restore_cas s >>> restore_secrets s >>> restore_revoked s >>> restore_policies fresh s >>>
     restore_roles s >>> restore_pki_roles s >>> restore_db_roles s >>> restore_ssh_roles s >>> restore_leases s >>>
     restore_issued s >>> restore_tokens s >>> restore_audit s) r
  end.

(** ** Lemmas on loops *)

Definition pairs {K V B} (key : B → K) (val : B → V) (l : list B) : list (K * V) := (λ b, (key b, val b)) <$> l.

Lemma restore_loop_union {K V B} `{Countable K} (save : gmap K V → B → res (gmap K V)) ctx key val (t : gmap K V) l m :
  NoDup (key <$> l) → (∀ b, b ∈ l → m !! key b = None ∧ t !! key b = Some (val b)) → m ⊆ t →
  (∀ m b, b ∈ l → m ⊆ t → m !! key b = None → save m b = Ok (<[key b := val b]> m)) →
  restore_loop save ctx m l = (list_to_map (pairs key val l) ∪ m, None).
Proof.
  intros Hnd Hl Hm Hs. revert m Hl Hm. induction l as [|b l IH]; intros m Hl Hm; simpl.
  { by rewrite (left_id_L ∅ (∪)). }
  rewrite fmap_cons in Hnd. apply NoDup_cons in Hnd as [Hb Hnd].
  destruct (Hl b) as [Hmb Htb]; [by left|]. rewrite Hs by (done || by left).
  rewrite IH.
  - f_equal. unfold pairs at 2. simpl. fold (pairs key val l).
    rewrite <-insert_union_l, insert_union_r; [done|].
    apply not_elem_of_list_to_map_1. unfold pairs. by rewrite <-list_fmap_compose.
  - done.
  - intros m' b' Hb'. apply Hs. by right.
  - intros b' Hb'. destruct (Hl b') as [Hm' Ht']; [by right|]. split; [|done].
    rewrite lookup_insert_ne; [done|]. intros Heq. apply Hb. rewrite Heq. by apply list_elem_of_fmap_2.
  - by apply insert_subseteq_l.
Qed.

(** Restoring, one save at a time, a listing of the target map gives the map. *)
Lemma restore_map {K V B} `{Countable K} (save : gmap K V → B → res (gmap K V)) ctx key val (t : gmap K V) l :
  pairs key val l ≡ₚ map_to_list t →
  (∀ m b, b ∈ l → m ⊆ t → m !! key b = None → save m b = Ok (<[key b := val b]> m)) →
  restore_loop save ctx ∅ l = (t, None).
Proof.
  intros Hp Hs. assert (Hk : NoDup (key <$> l)).
  { assert (fst <$> pairs key val l = key <$> l) as <- by (unfold pairs; by rewrite <-list_fmap_compose).
    rewrite Hp. apply NoDup_fst_map_to_list. }
  rewrite (restore_loop_union save ctx key val t); [|done| |apply map_empty_subseteq|done].
  - rewrite (right_id_L ∅ (∪)). f_equal. rewrite <-(list_to_map_to_list t). by apply list_to_map_proper;
      [unfold pairs; rewrite <-list_fmap_compose|].
  - intros b Hb. split; [apply lookup_empty|]. apply elem_of_map_to_list. rewrite <-Hp.
    unfold pairs. by apply (list_elem_of_fmap_2 (λ b, (key b, val b))).
Qed.

(** The same for the listing of a repository mapped through a record type. *)
Lemma restore_image {K V B} `{Countable K} (save : gmap K V → B → res (gmap K V)) ctx
    (fromD : V → B) (toD : B → V) (keyD : B → K) (r : gmap K V) l :
  l ≡ₚ (snd <$> map_to_list r) →
  (∀ k v, r !! k = Some v → keyD (fromD v) = k) →
  (∀ m k v, r !! k = Some v → m ⊆ ((toD ∘ fromD) <$> r) → m !! k = None →
     save m (fromD v) = Ok (<[k := toD (fromD v)]> m)) →
  restore_loop save ctx ∅ (fromD <$> l) = ((toD ∘ fromD) <$> r, None).
Proof.
  intros Hl Hk Hs. apply (restore_map save ctx keyD toD).
  - unfold pairs. rewrite Hl, map_to_list_fmap, <-!list_fmap_compose.
    rewrite (list_fmap_ext _ (prod_map id (toD ∘ fromD))); [done|].
    intros i [k v] Hi. simpl. apply list_elem_of_lookup_2, elem_of_map_to_list in Hi. by rewrite (Hk _ _ Hi).
  - intros m b Hb Hm Hn. apply list_elem_of_fmap in Hb as (v & -> & Hv). rewrite Hl in Hv.
    apply elem_of_map_values in Hv as [k Hkv]. rewrite (Hk _ _ Hkv) in *. by apply Hs.
Qed.

Lemma restore_keyed {A B} `{Keyed A} (toD : B → A) (fromD : A → B) ctx (r : gmap string A) :
  (∀ k a, r !! k = Some a → ent_key (toD (fromD a)) = k ∧ ent_validate (toD (fromD a)) = Ok (toD (fromD a))) →
  restore_loop (λ x rec, keyed_Save x (toD rec)) ctx ∅ (fromD <$> keyed_List r) = ((toD ∘ fromD) <$> r, None).
Proof.
  intros Hr. apply (restore_image _ _ fromD toD (λ b, ent_key (toD b))).
  - apply sort_by_string_perm.
  - intros k v Hkv. by apply Hr.
  - intros m k v Hkv _ _. destruct (Hr _ _ Hkv) as [<- Hv]. unfold keyed_Save. by rewrite Hv.
Qed.

Lemma for_each_unit {A} (f : unit → A → res unit) l :
  for_each f tt l = Ok tt ↔ ∀ x, x ∈ l → f tt x = Ok tt.
Proof.
  induction l as [|x l IH]; simpl; [set_solver|]. rewrite res_bind_ok. split.
  - intros ([] & Hx & Hl) y [->|Hy]%elem_of_cons; [done|]. by apply IH.
  - intros Hl. exists tt. split; [apply Hl; by left|]. apply IH. intros y Hy. apply Hl. by right.
Qed.

Lemma check_cas_ok l seen names :
  (∀ c, c ∈ l → car_ID c ≠ uuid_Nil ∧ car_Name c ≠ "" ∧ car_ID c ∉ seen ∧ car_Name c ∉ names) →
  NoDup (car_ID <$> l) → NoDup (car_Name <$> l) →
  for_each check_ca (seen, names) l = Ok (list_to_set (car_ID <$> l) ∪ seen, list_to_set (car_Name <$> l) ∪ names).
Proof.
  revert seen names. induction l as [|c l IH]; intros seen names Hl Hi Hn; simpl.
  { by rewrite !(left_id_L ∅ (∪)). }
  destruct (Hl c) as (H1 & H2 & H3 & H4); [by left|]. unfold is_nil_uuid.
  rewrite !bool_decide_false by done. simpl.
  apply NoDup_cons in Hi as [Hi1 Hi], Hn as [Hn1 Hn]. rewrite IH; [|clear IH|done|done].
  - f_equal. f_equal; set_solver.
  - intros x Hx. destruct (Hl x) as (? & ? & ? & ?); [by right|].
    assert (car_ID x ∈ car_ID <$> l) by (by apply list_elem_of_fmap_2).
    assert (car_Name x ∈ car_Name <$> l) by (by apply list_elem_of_fmap_2).
    rewrite !not_elem_of_union, !not_elem_of_singleton. split_and!; try done; intros Heq;
      [apply Hi1|apply Hn1]; by rewrite <-Heq.
Qed.

Lemma check_policies_ok l names : (∀ p, p ∈ l → por_Name p ≠ "") →
  for_each check_policy names l = Ok (list_to_set (por_Name <$> l) ∪ names).
Proof.
  revert names. induction l as [|p l IH]; intros names Hl; simpl; [by rewrite (left_id_L ∅ (∪))|].
  unfold check_policy at 2. rewrite bool_decide_false by (apply Hl; by left). simpl. rewrite IH by (intros x Hx; apply Hl; by right).
  f_equal. set_solver.
Qed.

Lemma check_issued_ok seen l serials :
  (∀ c, c ∈ l → icr_CAID c ≠ uuid_Nil ∧ icr_CAID c ∈ seen ∧ certKey (icr_CAID c) (icr_Serial c) ∉ serials) →
  NoDup ((λ c, certKey (icr_CAID c) (icr_Serial c)) <$> l) →
  is_Ok (for_each (check_issued seen) serials l).
Proof.
  revert serials. induction l as [|c l IH]; intros serials Hl Hn; simpl; [by eexists|].
  destruct (Hl c) as (H1 & H2 & H3); [by left|]. unfold check_issued at 2, is_nil_uuid.
  rewrite (bool_decide_false (_ = uuid_Nil)) by done. simpl. rewrite (bool_decide_true (_ ∈ seen)) by done. simpl.
  rewrite (bool_decide_false (_ ∈ serials)) by done. simpl.
  apply NoDup_cons in Hn as [Hn1 Hn]. apply IH; [|done].
  intros x Hx. destruct (Hl x) as (? & ? & ?); [by right|]. split_and!; try done.
  rewrite not_elem_of_union, not_elem_of_singleton. split; [|done]. intros Heq. apply Hn1. rewrite <-Heq.
  by apply (list_elem_of_fmap_2 (λ c, certKey (icr_CAID c) (icr_Serial c))).
Qed.

Lemma record_chain_ok `{Digest} i prev l :
  validate_records_from i prev ((chain_record ∘ auditFromDomain) <$> l) = Ok tt ↔ chain_ok prev l = true.
Proof.
  revert i prev. induction l as [|e l IH]; intros i prev; simpl; [done|].
  fold (expected_hash prev e). destruct (_ =s _); simpl; [apply IH|done].
Qed.

(** ** What a snapshot carries *)

Definition ca_trip : CA → CA := caToDomain ∘ caFromDomain.
Definition secret_trip : SecretVersion → SecretVersion := secretToDomain ∘ secretFromDomain.
Definition lease_trip : Lease → Lease := leaseToDomain ∘ leaseFromDomain.
Definition role_trip : Role → Role := roleToDomain ∘ roleFromDomain.
Definition token_trip : ClientToken → ClientToken := tokenToDomain ∘ tokenFromDomain.
Definition ssh_trip : SSHRole → SSHRole := sshRoleToDomain ∘ sshRoleFromDomain.
Definition db_trip : DatabaseRole → DatabaseRole := databaseRoleToDomain ∘ databaseRoleFromDomain.
Definition policy_trip : Policy → Policy := policyToDomain ∘ policyFromDomain.

(** What of a stored entity a restored backup holds, field by field: a CA without
    the organisation of its subject, a secret without its labels, a lease without
    its token and metadata, a role without groups, method and OIDC settings, a
    token without the limits of a delegation and its maximal lifetime, a dynamic
    role with its lifetime alone, a policy without capabilities and includes. *)
Definition ca_image (c : CA) : CA :=
  mkCA (ca_ID c) (ca_ParentID c) (ca_Name c) (ca_Type c) (mkDN (dn_CommonName (ca_Subject c)) "" "" "") (ca_Serial c) (ca_CertPEM c)
    (ca_PrivateKeyEnc c) (ca_DEKEnc c) (ca_Status c) (ca_CreatedAt c) (ca_ExpiresAt c) (ca_CRLNextUpdate c).
Definition secret_image (s : SecretVersion) : SecretVersion :=
  mkSecretVersion (sv_ID s) (sv_Path s) (sv_Version s) (sv_DataEnc s) (sv_DEKEnc s) (sv_LeaseID s) (sv_TTLSeconds s) (sv_CreatedAt s)
    (sv_ExpiresAt s) (sv_Destroyed s) ∅.
Definition lease_image (l : Lease) : Lease :=
  mkLease (lease_ID l) (lease_Path l) (lease_RoleName l) (lease_Engine l) (lease_TTLSeconds l) (lease_CreatedAt l) (lease_ExpiresAt l)
    (lease_RevokedAt l) (lease_Renewable l) "" ∅.
Definition role_image (r : Role) : Role :=
  mkRole (role_Name r) (role_Policies r) [] (role_BoundServiceAccountNames r) (role_BoundServiceAccountNamespaces r) "" None false.
Definition token_image (t : ClientToken) : ClientToken :=
  mkClientToken (ct_ID t) (ct_Subject t) (ct_Policies t) (ct_ExpiresAt t) (ct_Renewable t) (ct_Revoked t) "" "" [] "" 0.
Definition ssh_image (r : SSHRole) : SSHRole :=
  mkSSHRole (ssh_Name r) (ssh_TTLSeconds r) (ssh_TTLSeconds r) (ssh_TTLSeconds r) 0 false 0 (ssh_CAKeyPath r) (ssh_AllowedUsers r)
    (ssh_DefaultUser r) (ssh_KeyType r) (ssh_Extensions r) 0 0.
Definition db_image (r : DatabaseRole) : DatabaseRole :=
  mkDatabaseRole (db_Name r) (db_TTLSeconds r) (db_TTLSeconds r) (db_TTLSeconds r) 0 false 0 (db_UsernamePrefix r) (db_DefaultUsername r)
    (db_CreationStatements r) (db_RevocationStatements r) (db_ExecutionMode r) (db_AdminCredentialsPath r) (db_Config r) 0 0.
Definition policy_image (p : Policy) : Policy :=
  mkPolicy uuid_Nil (policy_Name p) (policy_Effect p) (policy_Resources p) (policy_Actions p) [] [] (policy_Conditions p).
Definition audit_image (e : Entry) : Time * string * string * string * string * list (string * any) * string :=
  (en_Timestamp e, en_Actor e, en_Action e, en_Resource e, en_Status e, en_Details e, en_Hash e).

Definition issued_wf (r : gmap (UUID * string) IssuedCertificate) : Prop :=
  map_Forall (λ k c, certKey (ic_CAID c) (ic_Serial c) = k ∧ IssuedCertificate_Validate c = Ok tt) r.

(** The audit identifiers are 1, 2, ... in append order. *)
Definition audit_ids (r : AuditRepository) : Prop :=
  ar_nextID r = Z.of_nat (length (ar_entries r)) + 1 ∧
  ∀ (i : nat) e, ar_entries r !! i = Some e → en_ID e = Z.of_nat i + 1.

(** The invariants of the twelve repositories together. *)
Record repos_wf `{UrlParser} (r : Repos) : Prop := {
  rw_CA : ca_wf (rs_CA r);
  rw_Secret : secrets_wf (rs_Secret r);
  rw_Audit : audit_ids (rs_Audit r);
  rw_Revoke : revocations_wf (rs_Revoke r);
  rw_Lease : keyed_wf (rs_Lease r);
  rw_Policy : keyed_wf (rs_Policy r);
  rw_Role : keyed_wf (rs_Role r);
  rw_PKIRole : keyed_wf (rs_PKIRole r);
  rw_DBRole : keyed_wf (rs_DBRole r);
  rw_SSHRole : keyed_wf (rs_SSHRole r);
  rw_Issued : issued_wf (rs_IssuedCert r);
  rw_Token : keyed_wf (rs_Token r);
}.

(** What a restore needs beyond the invariants: references resolve inside the
    snapshot, every policy lists actions, and the audit log is a valid chain
    in time order and within the export limit. *)
Record exportable `{Digest} (r : Repos) : Prop := {
  ex_parent : ∀ id c p, rs_CA r !! id = Some c → ca_ParentID c = Some p → is_Some (rs_CA r !! p);
  ex_role : ∀ n x p, rs_Role r !! n = Some x → p ∈ role_Policies x → is_Some (rs_Policy r !! p);
  ex_pki : ∀ n x, rs_PKIRole r !! n = Some x → ∃ id c, rs_CA r !! id = Some c ∧ ca_Name c = pr_CAName x;
  ex_issued : ∀ k c, rs_IssuedCert r !! k = Some c → is_Some (rs_CA r !! ic_CAID c);
  ex_policy : ∀ n p, rs_Policy r !! n = Some p → policy_Actions p ≠ [];
  ex_audit_chain : chain_ok "" (ar_entries (rs_Audit r)) = true;
  ex_audit_order : in_time_order (ar_entries (rs_Audit r));
  ex_audit_valid : ∀ e, e ∈ ar_entries (rs_Audit r) → Entry_Validate e = Ok tt;
  ex_audit_len : Z.of_nat (length (ar_entries (rs_Audit r))) ≤ 10000;
}.

(** ** The conversions keep entities valid *)

Lemma ca_trip_valid c : CA_Validate (ca_trip c) = CA_Validate c.
Proof. done. Qed.
Lemma secret_trip_valid s : SecretVersion_Validate (secret_trip s) = SecretVersion_Validate s.
Proof. done. Qed.

Lemma pki_trip r : pkiRoleToDomain (pkiRoleFromDomain r) = r.
Proof. by destruct r. Qed.
Lemma issued_trip c : issuedToDomain (issuedFromDomain c) = c.
Proof. by destruct c. Qed.
Lemma revoked_trip c : revokedToDomain (revokedFromDomain c) = c.
Proof. by destruct c. Qed.

Lemma policy_trip_valid p : Policy_Validate p = Ok tt → policy_Actions p ≠ [] → Policy_Validate (policy_trip p) = Ok tt.
Proof.
  unfold Policy_Validate. intros Hv Ha. simpl. rewrite (bool_decide_false (policy_Actions p = [])) in Hv |- * by done.
  rewrite !andb_false_r in *. by repeat case_match.
Qed.

Lemma ssh_trip_fields r :
  let n := NormalizeSSHRole r in
  ssh_Name (ssh_trip r) = ssh_Name n ∧ ssh_TTLSeconds (ssh_trip r) = ssh_TTLSeconds n ∧
  ssh_CAKeyPath (ssh_trip r) = ssh_CAKeyPath n ∧ ssh_AllowedUsers (ssh_trip r) = ssh_AllowedUsers n ∧
  ssh_DefaultUser (ssh_trip r) = ssh_DefaultUser n ∧ ssh_KeyType (ssh_trip r) = ssh_KeyType n ∧
  ssh_Extensions (ssh_trip r) = ssh_Extensions n.
Proof.
  unfold ssh_trip, sshRoleToDomain, sshRoleFromDomain. simpl. split_and!; try done.
  - destruct (ssh_TTLSeconds r <=? 0) eqn:E; [done|]. by rewrite E.
  - destruct (bool_decide (ssh_KeyType r = "")) eqn:E; [done|]. by rewrite E.
Qed.

Lemma ssh_trip_valid r r' : SSHRole_Validate r = Ok r' → SSHRole_Validate (ssh_trip r) = Ok (ssh_trip r).
Proof.
  intros Hv. destruct (ssh_trip_fields r) as (H1 & H2 & H3 & H4 & H5 & H6 & _).
  unfold SSHRole_Validate in *. assert (NormalizeSSHRole (ssh_trip r) = ssh_trip r) as -> by apply NormalizeSSHRole_idemp.
  rewrite H1, H2, H3, H4, H5, H6. inv_res.
  repeat match goal with H : _ = false |- _ => rewrite H; clear H end. done.
Qed.

Lemma db_trip_fields r : 0 < db_TTLSeconds (NormalizeDatabaseRole r) →
  let n := NormalizeDatabaseRole r in
  db_Name (db_trip r) = db_Name n ∧ db_TTLSeconds (db_trip r) = db_TTLSeconds n ∧
  db_UsernamePrefix (db_trip r) = db_UsernamePrefix n ∧ db_CreationStatements (db_trip r) = db_CreationStatements n ∧
  db_RevocationStatements (db_trip r) = db_RevocationStatements n ∧
  db_ExecutionMode (db_trip r) = db_ExecutionMode n ∧
  db_AdminCredentialsPath (db_trip r) = db_AdminCredentialsPath n ∧ db_Config (db_trip r) = db_Config n.
Proof.
  unfold db_trip, databaseRoleToDomain, databaseRoleFromDomain. intros Hpos. simpl in *. split_and!; try done.
  - apply Z.leb_gt in Hpos. by rewrite Hpos.
  - destruct (TrimSpace (db_ExecutionMode r) =s "") eqn:E; [done|]. by rewrite E.
  - apply TrimSpace_idemp.
Qed.

Lemma db_trip_valid `{UrlParser} r r' : DatabaseRole_Validate r = Ok r' → DatabaseRole_Validate (db_trip r) = Ok (db_trip r).
Proof.
  intros Hv. unfold DatabaseRole_Validate in *.
  assert (Hpos : 0 < db_TTLSeconds (NormalizeDatabaseRole r)) by (inv_res; bool_props; done).
  destruct (db_trip_fields r Hpos) as (H1 & H2 & H3 & H4 & H5 & H6 & H7 & H8).
  assert (NormalizeDatabaseRole (db_trip r) = db_trip r) as ->.
  { apply NormalizeDatabaseRole_idemp. fold (db_trip r). 
    change (NormalizeDatabaseRole _) with (db_trip r). by rewrite H2. }
  rewrite H1, H2, H3, H4, H5, H6, H7, H8. 
  apply res_bind_unit_ok in Hv as [-> Hv]. apply res_bind_unit_ok in Hv as [-> Hv].
  apply res_bind_unit_ok in Hv as [-> Hv]. apply res_bind_unit_ok in Hv as [-> Hv].
  apply res_bind_unit_ok in Hv as [-> Hv]. apply res_bind_unit_ok in Hv as [-> Hv].
  by apply res_bind_unit_ok in Hv as [-> Hv].
Qed.

(** ** Restoring an export *)

Lemma revoke_all_lookup cs s c : (∀ c1 c2, c1 ∈ cs → c2 ∈ cs → rv_Serial c1 = rv_Serial c2 → c1 = c2) →
  rev_serial (foldl RevocationRepository_Revoke NewRevocationRepository cs) !! s = Some c ↔ c ∈ cs ∧ rv_Serial c = s.
Proof.
  revert s c. induction cs as [|x cs IH] using rev_ind; intros s c Hu.
  { simpl. rewrite lookup_empty. set_solver. }
  rewrite foldl_app. simpl. set (r := foldl _ _ cs) in *.
  assert (IH' := λ s c, IH s c (λ c1 c2 H1 H2, Hu c1 c2 (proj2 (elem_of_app _ _ _) (or_introl H1)) (proj2 (elem_of_app _ _ _) (or_introl H2)))).
  unfold RevocationRepository_Revoke. destruct (rev_serial r !! rv_Serial x) as [y|] eqn:E.
  - apply IH' in E as [Hy Hs]. assert (y = x) as -> by (apply Hu; set_solver).
    rewrite IH'. set_solver.
  - simpl. rewrite lookup_insert_Some, IH', elem_of_app, list_elem_of_singleton. split.
    + intros [[<- <-]|[Hne [Hc <-]]]; auto.
    + intros [[Hc| ->] <-]; [|by left]. right. split; [|done]. intros Heq.
      assert (rev_serial r !! rv_Serial x = Some c) by (apply IH'; split; [done|by rewrite Heq]). congruence.
Qed.

Lemma restore_loop_total {R A} (f : R → A → R) ctx r l :
  restore_loop (λ x a, Ok (f x a)) ctx r l = (foldl f r l, None).
Proof. revert r. by induction l as [|a l IH]; intros r; simpl. Qed.

Lemma revoke_records cs x :
  foldl (λ x rec, RevocationRepository_Revoke x (revokedToDomain rec)) x (revokedFromDomain <$> cs) =
  foldl RevocationRepository_Revoke x cs.
Proof. revert x. induction cs as [|c cs IH]; intros x; simpl; [done|]. by rewrite revoked_trip. Qed.

Lemma imap_ignore {A B} (f : nat → A → B) (g : A → B) l : (∀ i x, f i x = g x) → imap f l = g <$> l.
Proof.
  intros Hfg. revert f Hfg. induction l as [|x l IH]; intros f Hfg; [done|].
  rewrite imap_cons, Hfg. simpl. f_equal. apply IH. intros i y. apply Hfg.
Qed.

Lemma audit_to_from e : auditFromDomain (auditToDomain e) = e.
Proof. by destruct e. Qed.

Lemma Append_ids r e r' e' : audit_ids r → AuditRepository_Append r e = Ok (r', e') → audit_ids r'.
Proof.
  intros (Hn & Hid) [-> ->]%Append_ok. split; simpl.
  - rewrite length_app. simpl. lia.
  - intros i x [Hi|[Hi Hx]]%lookup_app_Some; [by apply Hid|].
    destruct (i - length (ar_entries r))%nat eqn:Ei; [|done]. injection Hx as <-. simpl. lia.
Qed.

Lemma restore_audit_ok ctx recs r :
  (∀ a, a ∈ recs → Entry_Validate (auditToDomain a) = Ok tt) → audit_ids r →
  ∃ r', restore_loop (λ x rec, fst <$> AuditRepository_Append x (auditToDomain rec)) ctx r recs = (r', None) ∧
    auditFromDomain <$> ar_entries r' = (auditFromDomain <$> ar_entries r) ++ recs ∧ audit_ids r'.
Proof.
  revert r. induction recs as [|a recs IH]; intros r Hv Hr; simpl.
  { exists r. by rewrite app_nil_r. }
  unfold AuditRepository_Append at 1. rewrite Hv by (by left). simpl.
  destruct (IH (mkAuditRepository (ar_entries r ++ [en_with_id (auditToDomain a) (ar_nextID r)]) (ar_nextID r + 1)))
    as (r' & Hr' & He & Hi).
  - intros x Hx. apply Hv. by right.
  - apply (Append_ids r (auditToDomain a) _ (en_with_id (auditToDomain a) (ar_nextID r))); [done|].
    unfold AuditRepository_Append. by rewrite Hv by (by left).
  - exists r'. split_and!; [done| |done]. rewrite He. simpl. rewrite fmap_app, <-app_assoc. simpl.
    by destruct a.
Qed.

(** The snapshot of repositories whose log is listed whole. *)
Definition snapshot_of `{UrlParser} (now : Time) (r : Repos) : Snapshot :=
  mkSnapshot formatVersion now
    (caFromDomain <$> CARepository_List (rs_CA r))
    (secretFromDomain <$> ListByPath (rs_Secret r) "")
    (revokedFromDomain <$> mjoin ((λ c, RevocationRepository_ListByCA (rs_Revoke r) (ca_ID c)) <$> CARepository_List (rs_CA r)))
    (policyFromDomain <$> PolicyRepository_List (rs_Policy r))
    (roleFromDomain <$> RoleRepository_List (rs_Role r))
    (pkiRoleFromDomain <$> PKIRoleRepository_List (rs_PKIRole r))
    (databaseRoleFromDomain <$> DatabaseRoleRepository_List (rs_DBRole r))
    (sshRoleFromDomain <$> SSHRoleRepository_List (rs_SSHRole r))
    (leaseFromDomain <$> LeaseRepository_List (rs_Lease r))
    (issuedFromDomain <$> IssuedCertRepository_List (rs_IssuedCert r))
    (auditFromDomain <$> ar_entries (rs_Audit r))
    (tokenFromDomain <$> TokenRepository_List (rs_Token r)).

Section roundtrip.
Context `{UrlParser} `{Digest} (r : Repos) (Hwf : repos_wf r) (Hex : exportable r).

Lemma Export_whole now : Export now r (mkExportOptions true 0) = Some (snapshot_of now r).
Proof.
  unfold Export. simpl. destruct (rw_Audit r Hwf) as [Hn Hid]. rewrite list_all_in_order.
  - done.
  - split_and!; [apply Hex|done|done].
  - apply Hex.
  - lia.
  - apply Hex.
Qed.

Lemma ca_list_elem c : c ∈ CARepository_List (rs_CA r) ↔ ∃ id, rs_CA r !! id = Some c.
Proof. unfold CARepository_List. by rewrite elem_of_sort_by_Z, elem_of_map_values. Qed.

Lemma ca_ids_nodup : NoDup (car_ID <$> (caFromDomain <$> CARepository_List (rs_CA r))).
Proof.
  unfold CARepository_List. rewrite sort_by_Z_perm, <-!list_fmap_compose.
  apply NoDup_fmap_2_strong; [|apply NoDup_map_to_list].
  intros [i1 c1] [i2 c2] H1%elem_of_map_to_list H2%elem_of_map_to_list Heq. simpl in Heq.
  destruct (ca_wf_key _ (rw_CA r Hwf) _ _ H1) as [<- _], (ca_wf_key _ (rw_CA r Hwf) _ _ H2) as [<- _]. congruence.
Qed.

Lemma ca_names_nodup : NoDup (car_Name <$> (caFromDomain <$> CARepository_List (rs_CA r))).
Proof.
  unfold CARepository_List. rewrite sort_by_Z_perm, <-!list_fmap_compose.
  apply NoDup_fmap_2_strong; [|apply NoDup_map_to_list].
  intros [i1 c1] [i2 c2] H1%elem_of_map_to_list H2%elem_of_map_to_list Heq. simpl in Heq.
  assert (i1 = i2) as -> by (by eapply (ca_wf_name _ (rw_CA r Hwf))). congruence.
Qed.

Lemma ca_valid_nonempty id c : rs_CA r !! id = Some c → ca_ID c = id ∧ ca_ID c ≠ uuid_Nil ∧ ca_Name c ≠ "".
Proof.
  intros Hc. destruct (ca_wf_key _ (rw_CA r Hwf) _ _ Hc) as [Hid Hv]. split; [done|].
  unfold CA_Validate, is_nil_uuid in Hv. inv_res. by bool_props.
Qed.

Lemma seen_ids p : p ∈ (list_to_set (car_ID <$> (caFromDomain <$> CARepository_List (rs_CA r))) : gset UUID) ↔
  is_Some (rs_CA r !! p).
Proof.
  rewrite elem_of_list_to_set, <-list_fmap_compose, list_elem_of_fmap. split.
  - intros (c & -> & [id Hc]%ca_list_elem). destruct (ca_valid_nonempty _ _ Hc) as [<- _]. by eexists.
  - intros [c Hc]. exists c. destruct (ca_valid_nonempty _ _ Hc) as [<- _]. split; [done|]. apply ca_list_elem. eauto.
Qed.

Abbreviation seen_cas := (list_to_set (car_ID <$> (caFromDomain <$> CARepository_List (rs_CA r))) : gset UUID).
Abbreviation seen_names := (list_to_set (car_Name <$> (caFromDomain <$> CARepository_List (rs_CA r))) : gset string).
Abbreviation seen_policies :=
  (list_to_set (por_Name <$> (policyFromDomain <$> PolicyRepository_List (rs_Policy r))) : gset string).

Lemma cas_accepted :
  for_each check_ca (∅, ∅) (caFromDomain <$> CARepository_List (rs_CA r)) = Ok (seen_cas, seen_names).
Proof.
  rewrite check_cas_ok; [by rewrite !(right_id_L ∅ (∪))| |apply ca_ids_nodup|apply ca_names_nodup].
  intros x (c & -> & [id Hc]%ca_list_elem)%list_elem_of_fmap. simpl.
  destruct (ca_valid_nonempty _ _ Hc) as (_ & ? & ?). set_solver.
Qed.

Lemma parents_accepted : for_each (check_parent seen_cas) tt (caFromDomain <$> CARepository_List (rs_CA r)) = Ok tt.
Proof.
  apply for_each_unit. intros x (c & -> & [id Hc]%ca_list_elem)%list_elem_of_fmap. unfold check_parent. simpl.
  destruct (ca_ParentID c) as [p|] eqn:Ep; [|done].
  rewrite bool_decide_true; [done|]. apply seen_ids. by eapply ex_parent.
Qed.

Lemma policies_accepted :
  for_each check_policy ∅ (policyFromDomain <$> PolicyRepository_List (rs_Policy r)) = Ok seen_policies.
Proof.
  rewrite check_policies_ok; [by rewrite (right_id_L ∅ (∪))|].
  intros x (p & -> & [n Hp]%keyed_List_elem)%list_elem_of_fmap. simpl.
  destruct (rw_Policy r Hwf _ _ Hp) as [_ Hv]. apply checked_ok in Hv as [Hv _].
  unfold Policy_Validate in Hv. destruct (policy_Name p =s "") eqn:E; [done|]. by bool_props.
Qed.

Lemma roles_accepted : for_each (check_role seen_policies) tt (roleFromDomain <$> RoleRepository_List (rs_Role r)) = Ok tt.
Proof.
  apply for_each_unit. intros x (y & -> & [n Hy]%keyed_List_elem)%list_elem_of_fmap.
  destruct (rw_Role r Hwf _ _ Hy) as [_ Hv]. apply checked_ok in Hv as [Hv _].
  unfold Role_Validate in Hv. inv_res. unfold check_role. simpl.
  match goal with E : (role_Name y =s "") = false |- _ => rewrite E end. simpl.
  apply for_each_unit. intros p Hp. rewrite bool_decide_true; [done|].
  rewrite elem_of_list_to_set, <-list_fmap_compose, list_elem_of_fmap.
  destruct (ex_role r Hex _ _ _ Hy Hp) as [q Hq]. exists q. simpl.
  destruct (rw_Policy r Hwf _ _ Hq) as [<- _]. split; [done|]. apply keyed_List_elem. eauto.
Qed.

Lemma pki_roles_accepted :
  for_each (check_pki_role seen_names) tt (pkiRoleFromDomain <$> PKIRoleRepository_List (rs_PKIRole r)) = Ok tt.
Proof.
  apply for_each_unit. intros x (y & -> & [n Hy]%keyed_List_elem)%list_elem_of_fmap.
  destruct (rw_PKIRole r Hwf _ _ Hy) as [_ Hv]. unfold ent_validate in Hv. simpl in Hv.
  unfold PKIRole_Validate in Hv. apply res_bind_unit_ok in Hv as [H1 Hv]. apply res_bind_unit_ok in Hv as [H2 _].
  unfold check_pki_role. simpl. rewrite H1. simpl. rewrite reject_ok in H2. rewrite H2. simpl.
  rewrite bool_decide_true; [done|].
  destruct (ex_pki r Hex _ _ Hy) as (id & c & Hc & <-).
  rewrite elem_of_list_to_set, <-list_fmap_compose, list_elem_of_fmap. exists c. split; [done|]. apply ca_list_elem. eauto.
Qed.

Lemma issued_list_elem c : c ∈ IssuedCertRepository_List (rs_IssuedCert r) ↔ ∃ k, rs_IssuedCert r !! k = Some c.
Proof. unfold IssuedCertRepository_List. by rewrite merge_sort_Permutation, elem_of_map_values. Qed.

Lemma issued_accepted :
  is_Ok (for_each (check_issued seen_cas) ∅ (issuedFromDomain <$> IssuedCertRepository_List (rs_IssuedCert r))).
Proof.
  apply check_issued_ok.
  - intros x (c & -> & [k Hc]%issued_list_elem)%list_elem_of_fmap. simpl. split_and!; [| |set_solver].
    + destruct (rw_Issued r Hwf _ _ Hc) as [_ Hv]. unfold IssuedCertificate_Validate, is_nil_uuid in Hv. inv_res. by bool_props.
    + apply seen_ids. by eapply ex_issued.
  - unfold IssuedCertRepository_List. rewrite merge_sort_Permutation, <-!list_fmap_compose.
    apply NoDup_fmap_2_strong; [|apply NoDup_map_to_list].
    intros [k1 c1] [k2 c2] H1%elem_of_map_to_list H2%elem_of_map_to_list Heq. simpl in Heq.
    destruct (rw_Issued r Hwf _ _ H1) as [<- _], (rw_Issued r Hwf _ _ H2) as [<- _]. unfold certKey in *. congruence.
Qed.

Lemma audit_accepted : validateAuditRecords (auditFromDomain <$> ar_entries (rs_Audit r)) = Ok tt.
Proof.
  unfold validateAuditRecords. case_match; [done|].
  unfold ValidateRecordChain. rewrite <-list_fmap_compose, (proj2 (record_chain_ok _ _ _)); [done|apply Hex].
Qed.

Lemma snapshot_valid now : ValidateSnapshot (snapshot_of now r) = Ok tt.
Proof.
  unfold ValidateSnapshot. simpl. rewrite cas_accepted. simpl. rewrite parents_accepted. simpl.
  rewrite policies_accepted. simpl. rewrite roles_accepted. simpl. rewrite pki_roles_accepted. simpl.
  destruct issued_accepted as [x ->]. simpl. apply audit_accepted.
Qed.

Lemma cas_restored ctx :
  restore_loop (λ x rec, CARepository_Save x (caToDomain rec)) ctx ∅
    (sortCAs (caFromDomain <$> CARepository_List (rs_CA r))) = (ca_trip <$> rs_CA r, None).
Proof.
  assert (Hl : sortCAs (caFromDomain <$> CARepository_List (rs_CA r)) ≡ₚ caFromDomain <$> (snd <$> map_to_list (rs_CA r))).
  { unfold sortCAs, CARepository_List. by rewrite merge_sort_Permutation, sort_by_Z_perm. }
  apply (restore_map _ _ car_ID caToDomain).
  - unfold pairs. rewrite Hl, map_to_list_fmap, <-!list_fmap_compose.
    rewrite (list_fmap_ext _ (prod_map id ca_trip)); [done|].
    intros i [k c] Hi%list_elem_of_lookup_2%elem_of_map_to_list. simpl.
    by destruct (ca_wf_key _ (rw_CA r Hwf) _ _ Hi) as [-> _].
  - intros m b Hb Hm Hn. rewrite Hl in Hb. apply list_elem_of_fmap in Hb as (c & -> & [id Hc]%elem_of_map_values).
    apply CARepository_Save_ok. change (caToDomain (caFromDomain c)) with (ca_trip c). split_and!; [|done|].
    + rewrite ca_trip_valid. by destruct (ca_wf_key _ (rw_CA r Hwf) _ _ Hc).
    + intros id' e He Hne Heq. apply (lookup_weaken _ _ _ _ He) in Hm.
      apply lookup_fmap_Some in Hm as (c' & <- & Hc'). simpl in *.
      assert (id' = id) as -> by (by eapply (ca_wf_name _ (rw_CA r Hwf))).
      assert (c' = c) as -> by congruence. done.
Qed.

Lemma secrets_listed : ListByPath (rs_Secret r) "" ≡ₚ (snd <$> map_to_list (rs_Secret r)).
Proof.
  unfold ListByPath. rewrite merge_sort_Permutation.
  induction (snd <$> map_to_list (rs_Secret r)) as [|x l IH]; [done|]. rewrite filter_cons_True by done. by rewrite IH.
Qed.

Lemma secrets_restored ctx :
  restore_loop (λ x rec, SaveVersion x (secretToDomain rec)) ctx ∅ (secretFromDomain <$> ListByPath (rs_Secret r) "") =
  (secret_trip <$> rs_Secret r, None).
Proof.
  apply (restore_image _ _ secretFromDomain secretToDomain (λ b, (sr_Path b, sr_Version b))).
  - apply secrets_listed.
  - intros k sv Hk. by destruct (rw_Secret r Hwf _ _ Hk) as (-> & _).
  - intros m k sv Hk _ Hn. destruct (rw_Secret r Hwf _ _ Hk) as (Heq & Hv & _). unfold SaveVersion.
    change (secretToDomain (secretFromDomain sv)) with (secret_trip sv). rewrite secret_trip_valid, Hv. simpl.
    rewrite Heq in *. by rewrite Hn.
Qed.

Lemma tokens_restored ctx :
  restore_loop (λ x rec, TokenRepository_Save x (tokenToDomain rec)) ctx ∅ (tokenFromDomain <$> TokenRepository_List (rs_Token r)) =
  (token_trip <$> rs_Token r, None).
Proof.
  apply (restore_image _ _ tokenFromDomain tokenToDomain tr_ID).
  - apply sort_by_string_perm.
  - intros k t Hk. by destruct (rw_Token r Hwf _ _ Hk) as (<- & _).
  - intros m k t Hk _ _. destruct (rw_Token r Hwf _ _ Hk) as (<- & Hv). apply checked_ok in Hv as [Hv _].
    unfold token_check in Hv. apply reject_ok in Hv. unfold TokenRepository_Save. simpl. by rewrite Hv.
Qed.

Lemma issued_restored ctx :
  restore_loop (λ x rec, IssuedCertRepository_Save x (issuedToDomain rec)) ctx ∅
    (issuedFromDomain <$> IssuedCertRepository_List (rs_IssuedCert r)) = (rs_IssuedCert r, None).
Proof.
  rewrite <-(map_fmap_id (rs_IssuedCert r)) at 2.
  rewrite (map_fmap_ext id (issuedToDomain ∘ issuedFromDomain) (rs_IssuedCert r))
    by (intros k c _; symmetry; apply issued_trip).
  apply (restore_image _ _ issuedFromDomain issuedToDomain (λ b, certKey (icr_CAID b) (icr_Serial b))).
  - apply merge_sort_Permutation.
  - intros k c Hk. by destruct (rw_Issued r Hwf _ _ Hk).
  - intros m k c Hk _ _. rewrite issued_trip. unfold IssuedCertRepository_Save.
    destruct (rw_Issued r Hwf _ _ Hk) as [<- ->]. done.
Qed.

Lemma pki_roles_restored ctx :
  restore_loop (λ x rec, PKIRoleRepository_Save x (pkiRoleToDomain rec)) ctx ∅
    (pkiRoleFromDomain <$> PKIRoleRepository_List (rs_PKIRole r)) = (rs_PKIRole r, None).
Proof.
  unfold PKIRoleRepository_Save, PKIRoleRepository_List. rewrite restore_keyed.
  - f_equal. rewrite <-(map_fmap_id (rs_PKIRole r)) at 2. apply map_fmap_ext. intros k x _. apply pki_trip.
  - intros k x Hk. rewrite pki_trip. apply (rw_PKIRole r Hwf _ _ Hk).
Qed.

Lemma revoked_restored ctx : ∃ r',
  restore_loop (λ x rec, Ok (RevocationRepository_Revoke x (revokedToDomain rec))) ctx NewRevocationRepository
    (revokedFromDomain <$> mjoin ((λ c, RevocationRepository_ListByCA (rs_Revoke r) (ca_ID c)) <$> CARepository_List (rs_CA r))) =
    (r', None) ∧
  ∀ s c, rev_serial r' !! s = Some c ↔ rev_serial (rs_Revoke r) !! s = Some c ∧ is_Some (rs_CA r !! rv_CAID c).
Proof.
  set (cs := mjoin _). eexists. split; [apply (restore_loop_total (λ x rec, RevocationRepository_Revoke x (revokedToDomain rec)))|].
  assert (Hcs : ∀ c, c ∈ cs ↔ rev_serial (rs_Revoke r) !! rv_Serial c = Some c ∧ is_Some (rs_CA r !! rv_CAID c)).
  { intros c. unfold cs. rewrite list_elem_of_join. setoid_rewrite list_elem_of_fmap. split.
    - intros (l & Hc & a & -> & [id Ha]%ca_list_elem). apply (rev_wf_list _ (rw_Revoke r Hwf)) in Hc as [-> Hc].
      split; [done|]. destruct (ca_valid_nonempty _ _ Ha) as [-> _]. by eexists.
    - intros [Hc [a Ha]]. eexists. split; [by apply (rev_wf_list _ (rw_Revoke r Hwf))|]. exists a.
      destruct (ca_valid_nonempty _ _ Ha) as [-> _]. split; [done|]. apply ca_list_elem. eauto. }
  intros s c. rewrite revoke_records, revoke_all_lookup.
  - rewrite Hcs. split.
    + intros [[? ?] <-]. done.
    + intros [Hs Hca]. assert (rv_Serial c = s) as <- by (by eapply (rev_wf_key _ (rw_Revoke r Hwf))). done.
  - intros c1 c2 [H1 _]%Hcs [H2 _]%Hcs Heq. rewrite Heq in H1. congruence.
Qed.

(** The restored policies, their identifiers erased. *)
Definition erase_id (p : Policy) : Policy := policy_with_id p uuid_Nil.

Lemma policies_restored fresh ctx : ∃ m,
  restore_loop (λ x rec, fst <$> PolicyRepository_Save (fresh rec.1) x (policyToDomain rec.2)) ctx ∅
    (imap pair (policyFromDomain <$> PolicyRepository_List (rs_Policy r))) = (m, None) ∧
  erase_id <$> m = policy_trip <$> rs_Policy r.
Proof.
  set (recs := policyFromDomain <$> PolicyRepository_List (rs_Policy r)).
  set (val := λ b : nat * PolicyRecord, policy_with_id (policyToDomain b.2) (fresh b.1)).
  set (key := λ b : nat * PolicyRecord, por_Name b.2).
  assert (Hkeys : fst <$> pairs key val (imap pair recs) = por_Name <$> recs).
  { unfold pairs. rewrite <-list_fmap_compose, fmap_imap. by apply imap_ignore. }
  assert (Hnd : NoDup (por_Name <$> recs)).
  { unfold recs, PolicyRepository_List, keyed_List. rewrite sort_by_string_perm, <-list_fmap_compose.
    exact (keyed_keys_NoDup (rs_Policy r) (rw_Policy r Hwf)). }
  exists (list_to_map (pairs key val (imap pair recs))). split.
  - apply (restore_map _ _ key val).
    + symmetry. apply map_to_list_to_map. by rewrite Hkeys.
    + intros m [i rec] Hb _ _. apply elem_of_lookup_imap in Hb as (j & rec' & [= <- <-] & Hj).
      apply list_elem_of_lookup_2, list_elem_of_fmap in Hj as (p & -> & [n Hp]%keyed_List_elem).
      destruct (rw_Policy r Hwf _ _ Hp) as [_ Hv]. apply checked_ok in Hv as [Hv _].
      assert (Ht : Policy_Validate (policy_trip p) = Ok tt) by (apply policy_trip_valid; [done|by eapply ex_policy]).
      unfold PolicyRepository_Save. simpl. change (policyToDomain (policyFromDomain p)) with (policy_trip p).
      by rewrite Ht.
  - rewrite <-list_to_map_fmap. unfold pairs. rewrite <-list_fmap_compose, fmap_imap.
    rewrite (imap_ignore _ (λ rec, (por_Name rec, policyToDomain rec))) by done.
    unfold recs. rewrite <-list_fmap_compose.
    rewrite <-(list_to_map_to_list (policy_trip <$> rs_Policy r)). apply list_to_map_proper.
    + rewrite <-list_fmap_compose. revert Hnd. unfold recs. by rewrite <-list_fmap_compose.
    + unfold PolicyRepository_List, keyed_List. rewrite sort_by_string_perm, map_to_list_fmap, <-list_fmap_compose.
      rewrite (list_fmap_ext _ (prod_map id policy_trip)); [done|].
      intros i [k p] Hi%list_elem_of_lookup_2%elem_of_map_to_list. simpl.
      by destruct (rw_Policy r Hwf _ _ Hi) as [<- _].
Qed.

Lemma audit_restored ctx : ∃ a,
  restore_loop (λ x rec, fst <$> AuditRepository_Append x (auditToDomain rec)) ctx NewAuditRepository
    (auditFromDomain <$> ar_entries (rs_Audit r)) = (a, None) ∧
  auditFromDomain <$> ar_entries a = auditFromDomain <$> ar_entries (rs_Audit r) ∧ audit_wf a.
Proof.
  destruct (restore_audit_ok ctx (auditFromDomain <$> ar_entries (rs_Audit r)) NewAuditRepository)
    as (a & Ha & He & Hi).
  - intros x (e & -> & He)%list_elem_of_fmap. by apply (ex_audit_valid r Hex) in He.
  - by split.
  - exists a. simpl in He. split; [done|]. split; [done|]. split; [|apply Hi].
    apply (record_chain_ok 0%nat). rewrite list_fmap_compose, He, <-list_fmap_compose. apply record_chain_ok, Hex.
Qed.
End roundtrip.

(** What a restore of a backup of [r] leaves. *)
Record restored `{Digest} (r r' : Repos) : Prop := {
  re_CA : rs_CA r' = ca_image <$> rs_CA r;
  re_Secret : rs_Secret r' = secret_image <$> rs_Secret r;
  re_Lease : rs_Lease r' = lease_image <$> rs_Lease r;
  re_Role : rs_Role r' = role_image <$> rs_Role r;
  re_Token : rs_Token r' = token_image <$> rs_Token r;
  re_SSHRole : rs_SSHRole r' = ssh_image <$> rs_SSHRole r;
  re_DBRole : rs_DBRole r' = db_image <$> rs_DBRole r;
  re_PKIRole : rs_PKIRole r' = rs_PKIRole r;
  re_IssuedCert : rs_IssuedCert r' = rs_IssuedCert r;
  re_Policy : erase_id <$> rs_Policy r' = policy_image <$> rs_Policy r;
  re_Revoke : ∀ x c, rev_serial (rs_Revoke r') !! x = Some c ↔ rev_serial (rs_Revoke r) !! x = Some c ∧ is_Some (rs_CA r !! rv_CAID c);
  re_Audit : audit_image <$> ar_entries (rs_Audit r') = audit_image <$> ar_entries (rs_Audit r);
  re_chain : audit_wf (rs_Audit r');
}.

Lemma ssh_trip_image r : SSHRole_Validate r = Ok r → ssh_trip r = ssh_image r.
Proof.
  intros Hv. unfold SSHRole_Validate in Hv. inv_res. match goal with E : _ = r |- _ => rename E into En end. bool_props.
  unfold ssh_trip, sshRoleToDomain, sshRoleFromDomain, compose. rewrite En in *.
  assert (Hk := f_equal ssh_KeyType En). assert (He := f_equal ssh_Extensions En). cbn in Hk, He.
  unfold NormalizeSSHRole, ssh_image. cbn. destruct (Z.leb_spec (ssh_TTLSeconds r) 0); [lia|].
  rewrite He. f_equal. exact Hk.
Qed.

Lemma db_trip_image `{UrlParser} r : DatabaseRole_Validate r = Ok r → db_trip r = db_image r.
Proof.
  intros Hv. unfold DatabaseRole_Validate in Hv. inv_res. bool_props. match goal with E : NormalizeDatabaseRole r = r |- _ => rename E into En end.
  unfold db_trip, databaseRoleToDomain, databaseRoleFromDomain, compose. rewrite En in *.
  assert (Hm := f_equal db_ExecutionMode En). assert (Ha := f_equal db_AdminCredentialsPath En). cbn in Hm, Ha.
  unfold NormalizeDatabaseRole, NormalizeDatabaseLeaseTuning, db_with, db_image. cbn. destruct (Z.leb_spec (db_TTLSeconds r) 0); [lia|].
  f_equal; [exact Hm|exact Ha].
Qed.

Lemma audit_images (l l' : list Entry) : auditFromDomain <$> l = auditFromDomain <$> l' → audit_image <$> l = audit_image <$> l'.
Proof.
  intros E. apply (f_equal (fmap (λ r, (aur_Timestamp r, aur_Actor r, aur_Action r, aur_Resource r, aur_Status r, aur_Details r, aur_Hash r)))) in E.
  by rewrite <-!list_fmap_compose in E.
Qed.

(** Exporting and restoring, stage by stage. *)
Lemma restore_export_image `{UrlParser} `{Digest} now fresh (r r0 : Repos) :
  repos_wf r → exportable r → ∃ s r', Export now r (mkExportOptions true 0) = Some s ∧ Restore fresh s r0 = (r', None) ∧ restored r r'.
Proof.
  intros Hwf Hex. exists (snapshot_of now r).
  destruct (revoked_restored r Hwf (λ rec, "restore revocation " +:+ rr_Serial rec +:+ ": ")) as (rv & Hrv & Hrv').
  destruct (policies_restored r Hwf Hex fresh (λ rec, "restore policy " +:+ por_Name rec.2 +:+ ": ")) as (po & Hpo & Hpo').
  destruct (audit_restored r Hex (λ rec, "restore audit entry " +:+ aur_Action rec +:+ ": ")) as (au & Hau & Hau' & Hau'').
  eexists. split; [by apply Export_whole|]. split.
  - unfold Restore. rewrite snapshot_valid by done.
    unfold andThen, ClearRepos, restore_cas, restore_secrets, restore_revoked, restore_policies, restore_roles,
      restore_pki_roles, restore_db_roles, restore_ssh_roles, restore_leases, restore_issued, restore_tokens,
      restore_audit. simpl.
    rewrite (cas_restored r Hwf). simpl. rewrite (secrets_restored r Hwf). simpl. rewrite Hrv. simpl. rewrite Hpo. simpl.
    unfold RoleRepository_Save, RoleRepository_List.
    rewrite (restore_keyed roleToDomain roleFromDomain).
    2:{ intros k x Hk. destruct (rw_Role r Hwf _ _ Hk) as [Hn Hv]. apply checked_ok in Hv as [Hv _].
        split; [done|]. by apply checked_ok. }
    simpl. rewrite (pki_roles_restored r Hwf). simpl.
    unfold DatabaseRoleRepository_Save, DatabaseRoleRepository_List.
    rewrite (restore_keyed databaseRoleToDomain databaseRoleFromDomain).
    2:{ intros k x Hk. destruct (rw_DBRole r Hwf _ _ Hk) as [Hn Hv]. split; [done|]. by eapply db_trip_valid. }
    simpl. unfold SSHRoleRepository_Save, SSHRoleRepository_List.
    rewrite (restore_keyed sshRoleToDomain sshRoleFromDomain).
    2:{ intros k x Hk. destruct (rw_SSHRole r Hwf _ _ Hk) as [Hn Hv]. split; [done|]. by eapply ssh_trip_valid. }
    simpl. unfold LeaseRepository_Save, LeaseRepository_List.
    rewrite (restore_keyed leaseToDomain leaseFromDomain).
    2:{ intros k x Hk. destruct (rw_Lease r Hwf _ _ Hk) as [Hn Hv]. apply checked_ok in Hv as [Hv _].
        split; [done|]. by apply checked_ok. }
    simpl. rewrite (issued_restored r Hwf). simpl. rewrite (tokens_restored r Hwf). simpl. rewrite Hau. reflexivity.
  - split; cbn; try done; [| |by apply audit_images].
    + apply map_fmap_ext. intros k x Hk. by apply ssh_trip_image, (rw_SSHRole r Hwf _ _ Hk).
    + apply map_fmap_ext. intros k x Hk. by apply db_trip_image, (rw_DBRole r Hwf _ _ Hk).
Qed.

(** ** Theorems *)

(** C18. A backup restores, under conditions: for repositories that satisfy their
    invariants ([repos_wf]), in which parents of CAs, policies of roles, CAs of
    PKI roles and of issued certificates are stored, every policy lists actions,
    and the audit log is a valid chain of valid entries in time order of at most
    10000 entries ([exportable]), exporting all and restoring over any previous
    contents succeeds. The restored repositories hold every entity with the
    fields of [restored]: issued certificates and PKI roles identically, the
    others without the fields a snapshot omits, policies under new identifiers,
    the revocations of stored CAs, and the audit entries with what their hash
    covers, still a valid chain. *)
Theorem restore_export `{UrlParser} `{Digest} now fresh (r r0 : Repos) :
  repos_wf r → exportable r → ∃ s r', Export now r (mkExportOptions true 0) = Some s ∧ Restore fresh s r0 = (r', None) ∧ restored r r'.
Proof. apply restore_export_image. Qed.

(** *** Restoring keeps the invariants *)

Lemma restore_loop_inv {R A} (I : R → Prop) (save : R → A → res R) ctx r l :
  I r → (∀ x a x', I x → a ∈ l → save x a = Ok x' → I x') → I (fst (restore_loop save ctx r l)).
Proof.
  revert r. induction l as [|a l IH]; intros r Hr Hs; simpl; [done|].
  destruct (save r a) as [r'|e] eqn:E; simpl; [|done]. apply IH.
  - eapply Hs; [done|by left|done].
  - intros x a' x' Hx Ha'. apply Hs; [done|by right].
Qed.

(** A step that leaves the invariants of whatever it returns. *)
Definition keeps `{UrlParser} (m : Step) : Prop := ∀ r, repos_wf r → repos_wf (fst (m r)).

Lemma keeps_then `{UrlParser} m k : keeps m → keeps k → keeps (m >>> k).
Proof.
  intros Hm Hk r Hr. unfold andThen. specialize (Hm r Hr). destruct (m r) as [r' [e|]]; simpl in *; [done|]. by apply Hk.
Qed.

Lemma empty_repos_wf `{UrlParser} : repos_wf empty_repos.
Proof.
  split; simpl; try apply map_Forall_empty; try by split.
  apply revocations_wf_new.
Qed.

(** The version numbers of a decoded snapshot are [int]s. *)
Definition snapshot_int64 (s : Snapshot) : Prop := ∀ rec, rec ∈ sn_Secrets s → sr_Version rec ≤ max_int.

Lemma SaveVersion_wf r sv r' : secrets_wf r → sv_Version sv ≤ max_int → SaveVersion r sv = Ok r' → secrets_wf r'.
Proof.
  intros Hwf Hi Hs. eapply (secret_op_step_ok r (OpSaveVersion sv)); [done|done|]. simpl. by rewrite Hs.
Qed.

Lemma TokenSave_wf r t r' : keyed_wf r → TokenRepository_Save r t = Ok r' → keyed_wf r'.
Proof.
  unfold TokenRepository_Save. intros Hwf Hs. destruct (ct_ID t =s "") eqn:E; [done|]. injection Hs as <-.
  apply map_Forall_insert_2; [|done]. split; [done|]. apply checked_ok. split; [|done]. unfold token_check. by rewrite E.
Qed.

Lemma IssuedSave_wf r c r' : issued_wf r → IssuedCertRepository_Save r c = Ok r' → issued_wf r'.
Proof.
  unfold IssuedCertRepository_Save. intros Hwf Hs. destruct (IssuedCertificate_Validate c) as [[]|] eqn:E; [|done].
  injection Hs as <-. by apply map_Forall_insert_2.
Qed.

(** One restoring stage keeps the invariant [I] of its repository. *)
Ltac stage I :=
  lazymatch goal with |- context [restore_loop ?sv ?ctx ?x ?l] =>
    let HI := fresh "HI" in
    assert (HI : I (fst (restore_loop sv ctx x l)));
    [apply restore_loop_inv|destruct (restore_loop sv ctx x l); simpl in *]
  end.

Lemma Restore_keeps `{UrlParser} `{Digest} fresh s : snapshot_int64 s → keeps (Restore fresh s).
Proof.
  intros Hi r Hr. unfold Restore. destruct (ValidateSnapshot s); [|done]. revert r Hr.
  repeat apply keeps_then; intros r Hr.
  - apply empty_repos_wf.
  - unfold restore_cas. stage ca_wf; [apply Hr|intros; by eapply CARepository_Save_wf|]. destruct Hr; by split.
  - unfold restore_secrets. stage secrets_wf; [apply Hr| |destruct Hr; by split].
    intros x rec x' Hx Hrec Hs. eapply SaveVersion_wf; [done| |done]. by apply Hi.
  - unfold restore_revoked. stage revocations_wf; [apply Hr| |destruct Hr; by split].
    intros x rec x' Hx _ [= <-]. by apply revocations_wf_revoke.
  - unfold restore_policies. stage (keyed_wf (A := Policy)); [apply Hr| |destruct Hr; by split].
    intros x rec x' Hx _ Hs. destruct (PolicyRepository_Save _ _ _) as [[y p]|] eqn:E; [|done].
    injection Hs as <-. by eapply PolicySave_wf.
  - unfold restore_roles. stage (keyed_wf (A := Role)); [apply Hr|intros; by eapply keyed_Save_wf|destruct Hr; by split].
  - unfold restore_pki_roles. stage (keyed_wf (A := PKIRole)); [apply Hr|intros; by eapply keyed_Save_wf|destruct Hr; by split].
  - unfold restore_db_roles. stage (keyed_wf (A := DatabaseRole)); [apply Hr|intros; by eapply keyed_Save_wf|destruct Hr; by split].
  - unfold restore_ssh_roles. stage (keyed_wf (A := SSHRole)); [apply Hr|intros; by eapply keyed_Save_wf|destruct Hr; by split].
  - unfold restore_leases. stage (keyed_wf (A := Lease)); [apply Hr|intros; by eapply keyed_Save_wf|destruct Hr; by split].
  - unfold restore_issued. stage issued_wf; [apply Hr|intros; by eapply IssuedSave_wf|destruct Hr; by split].
  - unfold restore_tokens. stage (keyed_wf (A := ClientToken)); [apply Hr|intros; by eapply TokenSave_wf|destruct Hr; by split].
  - unfold restore_audit. stage audit_ids; [apply Hr| |destruct Hr; by split].
    intros x rec x' Hx _ Hs. destruct (AuditRepository_Append _ _) as [[y e]|] eqn:E; [|done].
    injection Hs as <-. by eapply Append_ids.
Qed.

(** *** What cannot be restored *)

Lemma restore_loop_fails {R A} (save : R → A → res R) ctx r l a :
  a ∈ l → (∀ x, ∃ e, save x a = Err e) → ∃ e, snd (restore_loop save ctx r l) = Some e.
Proof.
  intros Ha He. revert r. induction l as [|b l IH]; intros r; [by apply elem_of_nil in Ha|]. simpl.
  destruct (save r b) as [r'|e] eqn:E; simpl; [|by eexists].
  apply elem_of_cons in Ha as [->|Ha]; [|by apply IH]. destruct (He r) as [e E']. congruence.
Qed.

Definition failing (m : Step) : Prop := ∀ r, ∃ e, snd (m r) = Some e.

Lemma failing_first m k : failing m → failing (m >>> k).
Proof. intros Hm r. unfold andThen. destruct (Hm r) as [e He]. destruct (m r) as [r' [e'|]]; simpl in *; [by eexists|done]. Qed.
Lemma failing_later m k : failing k → failing (m >>> k).
Proof. intros Hk r. unfold andThen. destruct (m r) as [r' [e'|]]; simpl; [by eexists|]. apply Hk. Qed.

(** A policy that grants by capabilities alone is valid in the vault, but its
    record drops the capabilities: no snapshot of a vault that holds one can
    be restored. *)
Theorem capability_policy_unrestorable `{UrlParser} `{Digest} now opts fresh (r r0 : Repos) n p s :
  rs_Policy r !! n = Some p → policy_Actions p = [] → Export now r opts = Some s →
  ∃ e, snd (Restore fresh s r0) = Some e.
Proof.
  intros Hp Ha Hs. unfold Restore. destruct (ValidateSnapshot s) as [[]|e]; [|by exists e]. revert r0.
  do 4 apply failing_later. apply failing_first. intros r0. unfold restore_policies.
  assert (Hin : policyFromDomain p ∈ sn_Policies s).
  { unfold Export in Hs. destruct (if eo_IncludeAudit opts then _ else _) as [au|]; [|done]. injection Hs as <-. simpl.
    apply list_elem_of_fmap_2, keyed_List_elem. eauto. }
  apply list_elem_of_lookup in Hin as [i Hi].
  destruct (restore_loop_fails (λ x rec, fst <$> PolicyRepository_Save (fresh rec.1) x (policyToDomain rec.2))
    (λ rec, "restore policy " +:+ por_Name rec.2 +:+ ": ") (rs_Policy r0) (imap pair (sn_Policies s))
    (i, policyFromDomain p)) as [e He].
  - apply elem_of_lookup_imap. eauto.
  - intros x. simpl. unfold PolicyRepository_Save.
    destruct (Policy_Validate (policyToDomain (policyFromDomain p))) as [[]|e] eqn:E; [|by eexists].
    unfold Policy_Validate in E. simpl in E. rewrite Ha in E. simpl in E. by repeat case_match.
  - exists e. by destruct (restore_loop _ _ _ _).
Qed.

Lemma for_each_unit_fails {A} (f : unit → A → res unit) l x e :
  x ∈ l → f tt x = Err e → ∃ e', for_each f tt l = Err e'.
Proof.
  intros Hx Hf. destruct (for_each f tt l) as [[]|e'] eqn:E; [|by eexists].
  rewrite for_each_unit in E. rewrite E in Hf by done. done.
Qed.

Lemma check_policies_names l names names' : for_each check_policy names l = Ok names' →
  names' = list_to_set (por_Name <$> l) ∪ names.
Proof.
  revert names. induction l as [|p l IH]; intros names; simpl.
  { intros [= <-]. by rewrite (left_id_L ∅ (∪)). }
  unfold check_policy at 2. destruct (por_Name p =s ""); simpl; [done|]. intros ->%IH. set_solver.
Qed.

(** A role may name a built-in policy, which is never persisted: a snapshot
    of a vault with such a role is refused by its own validation, and the
    repositories are left as they were. *)
Theorem role_of_unstored_policy_unrestorable `{UrlParser} `{Digest} now opts fresh (r r0 : Repos) n x p s :
  keyed_wf (rs_Policy r) → rs_Role r !! n = Some x → p ∈ role_Policies x → rs_Policy r !! p = None →
  Export now r opts = Some s → ∃ e, Restore fresh s r0 = (r0, Some e).
Proof.
  intros Hwf Hx Hp Hn Hs. unfold Restore.
  assert (Hbad : ∃ e, ValidateSnapshot s = Err e); [|by destruct Hbad as [e ->]; exists e].
  unfold Export in Hs. destruct (if eo_IncludeAudit opts then _ else _) as [au|]; [|done]. injection Hs as <-.
  unfold ValidateSnapshot. simpl. destruct (for_each check_ca _ _) as [[seen names]|e]; simpl; [|by eexists].
  destruct (for_each (check_parent seen) _ _) as [[]|e]; simpl; [|by eexists].
  destruct (for_each check_policy _ _) as [pn|e] eqn:Epn; simpl; [|by eexists].
  apply check_policies_names in Epn.
  assert (Hrole : ∃ e, check_role pn tt (roleFromDomain x) = Err e).
  { unfold check_role. simpl. destruct (role_Name x =s ""); simpl; [by eexists|].
    eapply (for_each_unit_fails _ _ p); [done|]. rewrite bool_decide_false; [done|]. rewrite Epn.
    rewrite (right_id_L ∅ (∪)), elem_of_list_to_set, <-list_fmap_compose, list_elem_of_fmap.
    intros (q & -> & [m Hq]%keyed_List_elem). simpl in Hn. destruct (Hwf _ _ Hq) as [Hm _]. simpl in Hm. congruence. }
  destruct Hrole as [e He].
  destruct (for_each_unit_fails (check_role pn) (roleFromDomain <$> RoleRepository_List (rs_Role r))
    (roleFromDomain x) e) as [e' ->]; [|done|by exists e'].
  apply list_elem_of_fmap_2, keyed_List_elem. eauto.
Qed.

(** What a token or a dynamic role loses in a snapshot: the restriction of a
    delegated token to actions, a path prefix, a parent identity and a
    maximal lifetime; the lease cap, period and longer maximum of a role. *)
Theorem restrictions_lost (t : ClientToken) (d : DatabaseRole) :
  ct_AllowedActions (token_trip t) = [] ∧ ct_PathPrefix (token_trip t) = "" ∧
  ct_ParentIdentityID (token_trip t) = "" ∧ ct_MaxExpiresAt (token_trip t) = 0 ∧
  ct_Policies (token_trip t) = ct_Policies t ∧ db_MaxLeases (db_trip d) = 0 ∧ db_Period (db_trip d) = 0.
Proof. done. Qed.

(** ** A concrete vault *)

Definition sample_policy : Policy :=
  mkPolicy 3%N "reader" EffectAllow ["secrets/*"] ["read"] [] [] ∅.
Definition sample_role : Role := mkRole "ci" ["reader"] [] ["builder"] ["default"] "" None false.
Definition sample_repos : Repos :=
  mkRepos {[7%N := sample_ca]} {[("app", 1) := sample_secret "app" 1]} NewAuditRepository NewRevocationRepository
    {["l1" := sample_lease "l1" 50]} {["reader" := sample_policy]} {["ci" := sample_role]} ∅ ∅ ∅ ∅
    {["tok" := mkClientToken "tok" "ci" ["reader"] 90 true false "" "" ["read"] "secrets/" 100]}.

#[local] Instance sample_parser : UrlParser := λ _, false.
#[local] Instance sample_digest : Digest := bits_digest.

Lemma sample_repos_wf : repos_wf sample_repos.
Proof.
  split; simpl; try apply map_Forall_empty; try apply revocations_wf_new; try (by split);
    try (apply map_Forall_singleton; split_and!; by vm_compute).
  split.
  - intros id c [<- <-]%lookup_singleton_Some. by split; vm_compute.
  - intros i1 i2 c1 c2 [<- <-]%lookup_singleton_Some [<- <-]%lookup_singleton_Some. done.
Qed.

Lemma sample_repos_exportable : exportable sample_repos.
Proof.
  split; simpl.
  - intros id c p [<- <-]%lookup_singleton_Some. done.
  - intros n x p [<- <-]%lookup_singleton_Some ->%list_elem_of_singleton. eexists. by vm_compute.
  - intros n x. by rewrite lookup_empty.
  - intros n x. by rewrite lookup_empty.
  - intros n p [<- <-]%lookup_singleton_Some. done.
  - done.
  - intros i j x y _. done.
  - by intros e ?%elem_of_nil.
  - done.
Qed.

Lemma restore_export_witness : ∃ s r',
  Export 5 sample_repos (mkExportOptions true 0) = Some s ∧
  Restore (λ i, N.of_nat (100 + i)) s empty_repos = (r', None) ∧
  rs_Secret r' = secret_image <$> rs_Secret sample_repos ∧ ct_AllowedActions <$> rs_Token r' = {["tok" := []]}.
Proof.
  destruct (restore_export 5 (λ i, N.of_nat (100 + i)) sample_repos empty_repos sample_repos_wf
    sample_repos_exportable) as (s & r' & Hs & Hr & Himg).
  exists s, r'. split; [exact Hs|]. split; [exact Hr|]. split; [exact (re_Secret _ _ Himg)|]. rewrite (re_Token _ _ Himg). by vm_compute.
Defined.

(** A vault whose only policy grants by capability. *)
Example capability_policy_exists :
  let p := mkPolicy 3%N "cap" EffectAllow ["secrets/*"] [] ["read"] [] ∅ in
  Policy_Validate p = Ok tt ∧
  ∃ s, Export 5 (mkRepos ∅ ∅ NewAuditRepository NewRevocationRepository ∅ {["cap" := p]} ∅ ∅ ∅ ∅ ∅ ∅)
         (mkExportOptions true 0) = Some s.
Proof. split; [by vm_compute|]. eexists. by vm_compute. Qed.
