(* ===== verification/Archive.v ===== *)
(** Encrypted backups: the archive around a snapshot (internal/backup/archive.go)
    and the service that creates and restores archives
    (internal/service/backup.go).

    The state is the repositories of a process, with the rest of it ([X]), which
    the optional hooks work on: the importer and exporter of a Raft cluster, the
    request for a snapshot on disk and the reload of policies. The audit service
    appends to the audit repository that a backup exports and a restore fills.
    JSON of snapshots and archives is the class [ArchiveCodec]. *)

From S2P Require Import Prelude.
From S2P Require Import Effects.
From S2P Require Import GoLib.
From S2P Require Import Domain.
From S2P Require Import Crypto.
From S2P Require Import DynamicRoles.
From S2P Require Import Repos.
From S2P Require Import AuditHelper.
From S2P Require Import AuditLog.
From S2P Require Import Backup.

#[local] Open Scope Z_scope.

(** ** internal/backup/archive.go *)

Record Archive := mkArchive { ah_Format : string; ah_Version : Z; ah_CreatedAt : Time; ah_Ciphertext : bytes; ah_DEKEnc : bytes }.

Class ArchiveCodec := {
  snapshot_marshal : Snapshot → res bytes;
  snapshot_unmarshal : bytes → res Snapshot;
  archive_marshal : Archive → res bytes;
  archive_unmarshal : bytes → res Archive;
}.

Definition with_context {A} (msg : string) (r : res A) : res A := match r with Ok a => Ok a | Err e => Err (Wrapf (msg +:+ ": ") e) end.
Definition backup_format : string := "knxvault-backup".

Section archive.
Context {aead : Aead} {codec : ArchiveCodec} {digest : Digest}.

Definition archive_Seal (cryptoSvc : option KeyRing) (rnd : Entropy) (now : Time) (snapshot : option Snapshot) : res bytes :=
  match cryptoSvc, snapshot with
  | None, _ => Err (Plain "crypto service not configured")
  | Some _, None => Err (Plain "snapshot is required")
  | Some k, Some snapshot =>
      raw ← with_context "marshal snapshot" (snapshot_marshal snapshot);
      sealed ← with_context "seal snapshot" (Seal k rnd raw);
      archive_marshal (mkArchive backup_format formatVersion now sealed.1 sealed.2)
  end.

Definition archive_Open (cryptoSvc : option KeyRing) (data : bytes) : res Snapshot :=
  match cryptoSvc with
  | None => Err (Plain "crypto service not configured")
  | Some k =>
      archive ← with_context "parse archive" (archive_unmarshal data);
      _ ← reject (negb (ah_Format archive =s backup_format)) (Plain ("unsupported archive format " +:+ quoted (ah_Format archive)));
      _ ← reject (negb (ah_Version archive =? formatVersion)) (Plain ("unsupported archive version " +:+ Itoa (ah_Version archive)));
      raw ← with_context "decrypt archive" (Open k (ah_Ciphertext archive) (ah_DEKEnc archive));
      snapshot ← with_context "unmarshal snapshot" (snapshot_unmarshal raw);
      _ ← ValidateSnapshot snapshot;
      Ok snapshot
  end.
End archive.

(** ** internal/service/backup.go *)

Record BackupState (X : Type) := mkBackupState { bs_repos : Repos; bs_rest : X }.
Arguments mkBackupState {X}. Arguments bs_repos {X}. Arguments bs_rest {X}.

Definition with_audit (r : Repos) (a : AuditRepository) : Repos :=
  mkRepos (rs_CA r) (rs_Secret r) a (rs_Revoke r) (rs_Lease r) (rs_Policy r) (rs_Role r) (rs_PKIRole r) (rs_DBRole r) (rs_SSHRole r)
    (rs_IssuedCert r) (rs_Token r).

(** [audithelper.Record] with a service over the audit repository of [r], under its
    signing key; without a service nothing happens, and an error is dropped. *)
Definition recorded `{Digest} (audit : option bytes) {A} (subject : option string) (action resource : string) (err : res A)
    (details : list (string * any)) (now : Time) (r : Repos) : Repos :=
  match audit with
  | None => r
  | Some key =>
      match Record_ key (rs_Audit r) now (mkAuditEvent (Actor subject) action resource (audit_status err) details) with
      | Ok a => with_audit r a
      | Err _ => r
      end
  end.

Section service.
Context {aead : Aead} {codec : ArchiveCodec} {digest : Digest} {urls : UrlParser} {X : Type}.
Abbreviation M := (prog (BackupState X)).

Record BackupService := mkBackupService {
  bk_crypto : option KeyRing;
  bk_audit : option bytes;
  bk_importer : option (Snapshot → M unit);
  bk_exporter : option (ExportOptions → M Snapshot);
  bk_snapshots : option (M unit);
  bk_policies : option (M unit);
}.

Definition NewBackupService (crypto : option KeyRing) (audit : option bytes) : BackupService := mkBackupService crypto audit None None None None.
Definition SetSnapshotImporter (s : BackupService) importer : BackupService :=
  mkBackupService (bk_crypto s) (bk_audit s) importer (bk_exporter s) (bk_snapshots s) (bk_policies s).
Definition SetSnapshotExporter (s : BackupService) exporter : BackupService :=
  mkBackupService (bk_crypto s) (bk_audit s) (bk_importer s) exporter (bk_snapshots s) (bk_policies s).
Definition SetSnapshotRequester (s : BackupService) requester : BackupService :=
  mkBackupService (bk_crypto s) (bk_audit s) (bk_importer s) (bk_exporter s) requester (bk_policies s).
Definition SetPolicyReloader (s : BackupService) reloader : BackupService :=
  mkBackupService (bk_crypto s) (bk_audit s) (bk_importer s) (bk_exporter s) (bk_snapshots s) reloader.

Definition backup_record (svc : BackupService) {A} (subject : option string) (action resource : string) (err : res A) (details : list (string * any))
    (now : Time) : M unit :=
  modify (λ s, mkBackupState (recorded (bk_audit svc) subject action resource err details now (bs_repos s)) (bs_rest s)).


Definition restore_local (fresh : nat → UUID) (snapshot : Snapshot) : M unit := λ s,
  let '(r, e) := Restore fresh snapshot (bs_repos s) in
  (mkBackupState r (bs_rest s), match e with Some e => Err e | None => Ok tt end).

Definition no_master_key : error := New ErrCodeInternal "master key required for encrypted backups".
Definition count_of {A} (l : list A) : any := VNum (Z.of_nat (length l)).

(** Records the failure of a step and passes it on. *)
Definition or_record (svc : BackupService) {A} (subject : option string) (action resource : string) (now : Time) (m : M A) : M A :=
  on_error m (λ e, _ ← backup_record svc subject action resource (Err e : res unit) [] now; raise e).


Definition Backup_Restore (svc : BackupService) (subject : option string) (fresh : nat → UUID) (now : Time) (data : bytes) : M unit :=
  match bk_crypto svc with
  | None => raise no_master_key
  | Some k =>
      let record {A} (m : M A) : M A := or_record svc subject "backup.restore" "sys/restore" now m in
      snapshot ← record (lift (archive_Open (Some k) data));
      _ ← record (lift (ValidateSnapshot snapshot));
      imported ← attempt (match bk_importer svc with Some import => import snapshot | None => restore_local fresh snapshot end);
      result ← match imported, bk_policies svc with Ok _, Some reload => attempt reload | _, _ => mret imported end;
      _ ← backup_record svc subject "backup.restore" "sys/restore" result [("cas", count_of (sn_CAs snapshot)); ("secrets", count_of (sn_Secrets snapshot))] now;
      lift result
  end.
End service.

(** ** Properties of the archive *)

Section archive_laws.
Context {aead : Aead} {laws : AeadLaws} {codec : ArchiveCodec} {digest : Digest}.


(** What [archive_Open] accepts was authenticated and passed validation. *)
Lemma archive_Open_inv k data s : archive_Open (Some k) data = Ok s →
  ValidateSnapshot s = Ok tt ∧ ∃ a raw, archive_unmarshal data = Ok a ∧ ah_Format a = backup_format ∧
    ah_Version a = formatVersion ∧ Open k (ah_Ciphertext a) (ah_DEKEnc a) = Ok raw ∧ snapshot_unmarshal raw = Ok s.
Proof.
  unfold archive_Open, with_context. intros H.
  destruct (archive_unmarshal data) as [a|] eqn:Ea; simpl in H; [|done].
  destruct (ah_Format a =s backup_format) eqn:Ef; simpl in H; [|done].
  destruct (ah_Version a =? formatVersion) eqn:Ev; simpl in H; [|done].
  destruct (Open k _ _) as [raw|] eqn:Eo; simpl in H; [|done].
  destruct (snapshot_unmarshal raw) as [x|] eqn:Es; simpl in H; [|done].
  destruct (ValidateSnapshot x) as [[]|] eqn:Hv; simpl in H; [|done]. injection H as <-.
  apply bool_decide_eq_true in Ef. apply Z.eqb_eq in Ev. split; [done|]. by exists a, raw.
Qed.
End archive_laws.

#[local] Arguments archive_Seal : simpl never.
#[local] Arguments archive_Open : simpl never.

(** ** Properties of the service *)

Section service_laws.
Context {aead : Aead} {laws : AeadLaws} {codec : ArchiveCodec} {digest : Digest} {urls : UrlParser} {X : Type}.
Implicit Types (svc : BackupService (X := X)) (st : BackupState X).



(** The repositories after the service recorded an event: one more entry at the
    end of a chain that stays valid, and nothing else. *)
Definition logged svc (subject : option string) (action status : string) (r r' : Repos) : Prop :=
  r' = with_audit r (rs_Audit r') ∧
  match bk_audit svc with
  | None => rs_Audit r' = rs_Audit r
  | Some _ => audit_wf (rs_Audit r') ∧ ∃ e, ar_entries (rs_Audit r') = ar_entries (rs_Audit r) ++ [e] ∧
      en_Actor e = Actor subject ∧ en_Action e = action ∧ en_Status e = status
  end.

Lemma recorded_logged svc {A} subject action resource (err : res A) details now r : action ≠ "" → audit_wf (rs_Audit r) →
  logged svc subject action (audit_status err) r (recorded (bk_audit svc) subject action resource err details now r).
Proof.
  intros Ha Hw. unfold logged, recorded. destruct (bk_audit svc) as [key|]; [|by destruct r]. unfold Record_. cbn [as_LatestHash as_Append memory_audit_store].
  set (ev := mkAuditEvent _ _ _ _ _). pose proof (build_entry_spec key (AuditRepository_LatestHash (rs_Audit r)) now ev) as Hb. cbv zeta in Hb.
  set (e := build_entry _ _ _ _) in *. destruct Hb as (Hh & _ & _ & _ & Hac & Hact & _ & Hst).
  assert (Hv : Entry_Validate e = Ok tt).
  { unfold Entry_Validate. rewrite Hact, Hst. change (ev_Action ev) with action. change (ev_Status ev) with (audit_status err).
    rewrite (bool_decide_eq_false_2 (action = "")) by exact Ha. unfold audit_status. destruct (is_ok err); reflexivity. }
  destruct (AuditRepository_Append (rs_Audit r) e) as [[a e']|er] eqn:E.
  - split; [done|]. split; [by eapply Append_wf|]. apply Append_ok in E as [-> ->]. by eexists.
  - unfold AuditRepository_Append in E. by rewrite Hv in E.
Qed.



(** A restore that is refused changes nothing but the audit log. An archive
    that does not open (not an archive, another format or version, not
    authentic under the key ring, not a snapshot or one that is not valid) is
    reported with its error, recorded as a failure, and neither the
    repositories nor a cluster is touched. *)
Theorem refused_restore_untouched svc subject fresh now k data e st :
  bk_crypto svc = Some k → archive_Open (Some k) data = Err e → audit_wf (rs_Audit (bs_repos st)) →
  ∃ r', Backup_Restore svc subject fresh now data st = (mkBackupState r' (bs_rest st), Err e) ∧
    logged svc subject "backup.restore" "failure" (bs_repos st) r'.
Proof.
  intros Hk Ho Hw. unfold Backup_Restore. rewrite Hk. unfold mbind, prog_bind, or_record, on_error, lift. rewrite Ho.
  eexists. split; [reflexivity|]. by apply (recorded_logged svc subject "backup.restore" _ (Err e : res unit)).
Qed.

(** Archives are bound to the key ring: one whose data key or payload does not
    authenticate under it does not open. *)
Lemma foreign_archive_refused k data a e : archive_unmarshal data = Ok a →
  Open k (ah_Ciphertext a) (ah_DEKEnc a) = Err e → ∃ e', archive_Open (Some k) data = Err e'.
Proof.
  intros Ha Ho. destruct (archive_Open (Some k) data) as [s|e'] eqn:E; [|eauto].
  destruct (archive_Open_inv k data s E) as (_ & b & raw & Hb & _ & _ & Hop & _).
  rewrite Ha in Hb. injection Hb as <-. by rewrite Ho in Hop.
Qed.
End service_laws.

(** ** A concrete backup

    A codec that serves the sample vault: the only snapshot is its own, and an
    archive is its wrapped key, of fixed length, before its ciphertext. *)

#[local] Instance demo_urls : UrlParser := λ _, false.
#[local] Instance demo_digest : Digest := bits_digest.
Fixpoint demo_join (enc c : bytes) : bytes := match enc with [] => byte_0 :: c | x :: enc => byte_1 :: x :: demo_join enc c end.
Fixpoint demo_split (data : bytes) : bytes * bytes := match data with
  | m :: x :: rest => if bool_decide (m = byte_1) then let '(enc, c) := demo_split rest in (x :: enc, c) else ([], x :: rest)
  | _ => ([], [])
  end.
#[local] Instance demo_codec : ArchiveCodec := {|
  snapshot_marshal _ := Ok (bytes_of "{}");
  snapshot_unmarshal _ := Ok (snapshot_of 5 sample_repos);
  archive_marshal a := Ok (demo_join (ah_DEKEnc a) (ah_Ciphertext a));
  archive_unmarshal data := let '(enc, c) := demo_split data in Ok (mkArchive backup_format formatVersion 6 c enc);
|}.


Definition demo_service (k : KeyRing) : BackupService (X := unit) := NewBackupService (Some k) (Some (bytes_of "sign")).
Definition demo_vault : BackupState unit := mkBackupState sample_repos tt.


(** An archive sealed with another master key is refused. *)
Lemma refused_restore_untouched_witness : ∃ data, ∃ e,
  archive_Seal (aead := toy_aead) (Some (demo_ring "a")) (mkEntropy (Ok (demo_key "d")) (Ok demo_nonce) (Ok demo_nonce)) 6
    (Some (snapshot_of 5 sample_repos)) = Ok data ∧ ∃ r',
  Backup_Restore (aead := toy_aead) (demo_service (demo_ring "b")) None (λ i, N.of_nat i) 8 data demo_vault = (mkBackupState r' tt, Err e) ∧
  logged (demo_service (demo_ring "b")) None "backup.restore" "failure" sample_repos r'.
Proof.
  eexists _, _. split; [vm_compute; reflexivity|].
  apply (refused_restore_untouched (aead := toy_aead) (demo_service (demo_ring "b")) None (λ i, N.of_nat i) 8 (demo_ring "b")).
  - reflexivity.
  - vm_compute. reflexivity.
  - exact audit_wf_new.
Defined.
