(* ===== verification/RaftStore.v ===== *)
(** The replicated vault store, internal/raft: the store (store.go), the
    command table (commands.go), one handler per command (handlers.go), the
    state machine (statemachine.go), and the round trip of a response through
    the client (DecodeResult, client.go).

    A command is its operation with the decoded payload; a payload that does
    not decode and an unknown operation are commands of their own. [Env] is
    what a handler reads from the replica that applies the command: its clock
    and its random identifiers. A handler returns the new store and its data,
    an error, or panics. [Update] and [DecodeResult] work on decoded values;
    the JSON between them is the class [Wire] of RaftRepos.v. *)

From Stdlib Require Import Ascii.
From S2P Require Import Prelude.
From S2P Require Import GoLib.
From S2P Require Import Glob.
From S2P Require Import Policy.
From S2P Require Import Domain.
From S2P Require Import SqlAllow.
From S2P Require Import DynamicRoles.
From S2P Require Import Repos.
From S2P Require Import SecretRepo.
From S2P Require Import Redact.
From S2P Require Import AuditLog.
From S2P Require Import Backup.

#[local] Open Scope Z_scope.

(** ** store.go *)

Record Store := mkStore {
  st_CA : gmap UUID CA;
  st_Secret : SecretRepository;
  st_Audit : AuditRepository;
  st_Revoke : RevocationRepository;
  st_Lease : gmap string Lease;
  st_Policy : gmap string Policy;
  st_Role : gmap string Role;
  st_DBRole : gmap string DatabaseRole;
  st_SSHRole : gmap string SSHRole;
  st_IssuedCert : gmap (UUID * string) IssuedCertificate;
  st_PKIRole : gmap string PKIRole;
  st_Token : gmap string ClientToken;
  st_MachineIdentity : gmap string MachineIdentity;
  st_RotationPolicy : gmap string RotationPolicy;
}.

Definition NewStore : Store :=
  mkStore ∅ ∅ NewAuditRepository NewRevocationRepository ∅ ∅ ∅ ∅ ∅ ∅ ∅ ∅ ∅ ∅.

(** [Repos]: the repositories a snapshot covers. *)
Definition Store_Repos (s : Store) : Repos :=
  mkRepos (st_CA s) (st_Secret s) (st_Audit s) (st_Revoke s) (st_Lease s) (st_Policy s) (st_Role s) (st_PKIRole s) (st_DBRole s) (st_SSHRole s) (st_IssuedCert s) (st_Token s).

(** The store around restored repositories, the others as [NewStore] makes them. *)
Definition store_of_repos (r : Repos) : Store :=
  mkStore (rs_CA r) (rs_Secret r) (rs_Audit r) (rs_Revoke r) (rs_Lease r) (rs_Policy r) (rs_Role r) (rs_DBRole r) (rs_SSHRole r) (rs_IssuedCert r) (rs_PKIRole r) (rs_Token r) ∅ ∅.

Definition set_CA (s : Store) (x : gmap UUID CA) : Store :=
  mkStore x (st_Secret s) (st_Audit s) (st_Revoke s) (st_Lease s) (st_Policy s) (st_Role s) (st_DBRole s) (st_SSHRole s) (st_IssuedCert s) (st_PKIRole s) (st_Token s) (st_MachineIdentity s) (st_RotationPolicy s).
Definition set_Secret (s : Store) (x : SecretRepository) : Store :=
  mkStore (st_CA s) x (st_Audit s) (st_Revoke s) (st_Lease s) (st_Policy s) (st_Role s) (st_DBRole s) (st_SSHRole s) (st_IssuedCert s) (st_PKIRole s) (st_Token s) (st_MachineIdentity s) (st_RotationPolicy s).
Definition set_Audit (s : Store) (x : AuditRepository) : Store :=
  mkStore (st_CA s) (st_Secret s) x (st_Revoke s) (st_Lease s) (st_Policy s) (st_Role s) (st_DBRole s) (st_SSHRole s) (st_IssuedCert s) (st_PKIRole s) (st_Token s) (st_MachineIdentity s) (st_RotationPolicy s).
Definition set_Revoke (s : Store) (x : RevocationRepository) : Store :=
  mkStore (st_CA s) (st_Secret s) (st_Audit s) x (st_Lease s) (st_Policy s) (st_Role s) (st_DBRole s) (st_SSHRole s) (st_IssuedCert s) (st_PKIRole s) (st_Token s) (st_MachineIdentity s) (st_RotationPolicy s).
Definition set_Lease (s : Store) (x : gmap string Lease) : Store :=
  mkStore (st_CA s) (st_Secret s) (st_Audit s) (st_Revoke s) x (st_Policy s) (st_Role s) (st_DBRole s) (st_SSHRole s) (st_IssuedCert s) (st_PKIRole s) (st_Token s) (st_MachineIdentity s) (st_RotationPolicy s).
Definition set_Policy (s : Store) (x : gmap string Policy) : Store :=
  mkStore (st_CA s) (st_Secret s) (st_Audit s) (st_Revoke s) (st_Lease s) x (st_Role s) (st_DBRole s) (st_SSHRole s) (st_IssuedCert s) (st_PKIRole s) (st_Token s) (st_MachineIdentity s) (st_RotationPolicy s).
Definition set_Role (s : Store) (x : gmap string Role) : Store :=
  mkStore (st_CA s) (st_Secret s) (st_Audit s) (st_Revoke s) (st_Lease s) (st_Policy s) x (st_DBRole s) (st_SSHRole s) (st_IssuedCert s) (st_PKIRole s) (st_Token s) (st_MachineIdentity s) (st_RotationPolicy s).
Definition set_DBRole (s : Store) (x : gmap string DatabaseRole) : Store :=
  mkStore (st_CA s) (st_Secret s) (st_Audit s) (st_Revoke s) (st_Lease s) (st_Policy s) (st_Role s) x (st_SSHRole s) (st_IssuedCert s) (st_PKIRole s) (st_Token s) (st_MachineIdentity s) (st_RotationPolicy s).
Definition set_SSHRole (s : Store) (x : gmap string SSHRole) : Store :=
  mkStore (st_CA s) (st_Secret s) (st_Audit s) (st_Revoke s) (st_Lease s) (st_Policy s) (st_Role s) (st_DBRole s) x (st_IssuedCert s) (st_PKIRole s) (st_Token s) (st_MachineIdentity s) (st_RotationPolicy s).
Definition set_IssuedCert (s : Store) (x : gmap (UUID * string) IssuedCertificate) : Store :=
  mkStore (st_CA s) (st_Secret s) (st_Audit s) (st_Revoke s) (st_Lease s) (st_Policy s) (st_Role s) (st_DBRole s) (st_SSHRole s) x (st_PKIRole s) (st_Token s) (st_MachineIdentity s) (st_RotationPolicy s).
Definition set_PKIRole (s : Store) (x : gmap string PKIRole) : Store :=
  mkStore (st_CA s) (st_Secret s) (st_Audit s) (st_Revoke s) (st_Lease s) (st_Policy s) (st_Role s) (st_DBRole s) (st_SSHRole s) (st_IssuedCert s) x (st_Token s) (st_MachineIdentity s) (st_RotationPolicy s).
Definition set_Token (s : Store) (x : gmap string ClientToken) : Store :=
  mkStore (st_CA s) (st_Secret s) (st_Audit s) (st_Revoke s) (st_Lease s) (st_Policy s) (st_Role s) (st_DBRole s) (st_SSHRole s) (st_IssuedCert s) (st_PKIRole s) x (st_MachineIdentity s) (st_RotationPolicy s).
Definition set_MachineIdentity (s : Store) (x : gmap string MachineIdentity) : Store :=
  mkStore (st_CA s) (st_Secret s) (st_Audit s) (st_Revoke s) (st_Lease s) (st_Policy s) (st_Role s) (st_DBRole s) (st_SSHRole s) (st_IssuedCert s) (st_PKIRole s) (st_Token s) x (st_RotationPolicy s).
Definition set_RotationPolicy (s : Store) (x : gmap string RotationPolicy) : Store :=
  mkStore (st_CA s) (st_Secret s) (st_Audit s) (st_Revoke s) (st_Lease s) (st_Policy s) (st_Role s) (st_DBRole s) (st_SSHRole s) (st_IssuedCert s) (st_PKIRole s) (st_Token s) (st_MachineIdentity s) x.

(** The applying replica. *)
Record Env := mkEnv { env_now : Time; env_uuid : nat → UUID }.

Definition ExportSnapshot `{UrlParser} (now : Time) (s : Store) (includeAudit : bool) : option Snapshot :=
  Export now (Store_Repos s) (mkExportOptions includeAudit 0).

(** A fresh store is restored and takes the place of the old one only when
    everything succeeded. *)
Definition ImportSnapshot `{UrlParser} `{Digest} (fresh : nat → UUID) (s : Store) (snapshot : Snapshot) : res Store :=
  match ValidateSnapshot snapshot with
  | Err e => Err e
  | Ok _ =>
    match Restore fresh snapshot (Store_Repos NewStore) with
    | (r, None) => Ok (store_of_repos r)
    | (_, Some e) => Err e
    end
  end.

(** ** commands.go *)

Inductive Command :=
  | OpCASave (ca : CA)
  | OpCAGetByID (id : UUID)
  | OpCAGetByName (name : string)
  | OpCAList
  | OpSecretSaveVersion (sv : SecretVersion)
  | OpSecretPut (sv : SecretVersion) (cas : option Z) (maxVersions : Z)
  | OpSecretGetLatest (path : string)
  | OpSecretGetVersion (path : string) (version : Z)
  | OpSecretListByPath (prefix : string)
  | OpSecretNextVersion (path : string)
  | OpSecretDestroyVer (path : string) (version : Z)
  | OpSecretUpdateDEKEnc (path : string) (version : Z) (dekEnc : bytes)
  | OpPKIRoleSave (role : PKIRole)
  | OpPKIRoleGet (name : string)
  | OpPKIRoleList
  | OpAuditAppend (entry : Entry)
  | OpAuditList (opts : AuditListOptions)
  | OpAuditLatestHash
  | OpRevoke (cert : RevokedCertificate)
  | OpRevokeIs (serial : string)
  | OpRevokeListByCA (caID : UUID)
  | OpLeaseSave (lease : Lease)
  | OpLeaseGet (id : string)
  | OpLeaseList
  | OpLeaseListExpired (before : Time) (limit : Z)
  | OpLeaseRevoke (id : string) (revokedAt : Time)
  | OpLeaseCountActive
  | OpPolicySave (policy : Policy)
  | OpPolicyGet (name : string)
  | OpPolicyList
  | OpPolicyDelete (name : string)
  | OpRoleSave (role : Role)
  | OpRoleGet (name : string)
  | OpRoleList
  | OpRoleDelete (name : string)
  | OpDBRoleSave (role : DatabaseRole)
  | OpDBRoleGet (name : string)
  | OpDBRoleList
  | OpDBRoleDelete (name : string)
  | OpSSHRoleSave (role : SSHRole)
  | OpSSHRoleGet (name : string)
  | OpSSHRoleList
  | OpSSHRoleDelete (name : string)
  | OpIssuedSave (cert : IssuedCertificate)
  | OpIssuedGetBySerial (caID : UUID) (serial : string)
  | OpIssuedList
  | OpIssuedListExpiring (before : Time) (limit : Z)
  | OpImportSnapshot (snapshot : Snapshot)
  | OpExportSnapshot (opts : ExportOptions)
  | OpTokenSave (token : ClientToken)
  | OpTokenGet (id : string)
  | OpTokenRevoke (id : string) (revokedAt : Time)
  | OpTokenList
  | OpTokenListExpired (before : Time) (limit : Z)
  | OpMachineIdentitySave (id : MachineIdentity)
  | OpMachineIdentityGet (id : string)
  | OpMachineIdentityList
  | OpMachineIdentityRevoke (id : string)
  | OpRotationPolicySave (policy : RotationPolicy)
  | OpRotationPolicyGet (path : string)
  | OpRotationPolicyList
  | OpRotationPolicyDelete (path : string)
  | OpMalformed (op : string) (cause : string)
  | OpUnknown (op : string).

Definition op_name (c : Command) : string :=
  match c with
  | OpCASave _ => "ca.save"
  | OpCAGetByID _ => "ca.get_by_id"
  | OpCAGetByName _ => "ca.get_by_name"
  | OpCAList => "ca.list"
  | OpSecretSaveVersion _ => "secret.save_version"
  | OpSecretPut _ _ _ => "secret.put"
  | OpSecretGetLatest _ => "secret.get_latest"
  | OpSecretGetVersion _ _ => "secret.get_version"
  | OpSecretListByPath _ => "secret.list_by_path"
  | OpSecretNextVersion _ => "secret.next_version"
  | OpSecretDestroyVer _ _ => "secret.destroy_version"
  | OpSecretUpdateDEKEnc _ _ _ => "secret.update_dek_enc"
  | OpPKIRoleSave _ => "pki_role.save"
  | OpPKIRoleGet _ => "pki_role.get"
  | OpPKIRoleList => "pki_role.list"
  | OpAuditAppend _ => "audit.append"
  | OpAuditList _ => "audit.list"
  | OpAuditLatestHash => "audit.latest_hash"
  | OpRevoke _ => "revoke.save"
  | OpRevokeIs _ => "revoke.is"
  | OpRevokeListByCA _ => "revoke.list_by_ca"
  | OpLeaseSave _ => "lease.save"
  | OpLeaseGet _ => "lease.get"
  | OpLeaseList => "lease.list"
  | OpLeaseListExpired _ _ => "lease.list_expired"
  | OpLeaseRevoke _ _ => "lease.revoke"
  | OpLeaseCountActive => "lease.count_active"
  | OpPolicySave _ => "policy.save"
  | OpPolicyGet _ => "policy.get_by_name"
  | OpPolicyList => "policy.list"
  | OpPolicyDelete _ => "policy.delete"
  | OpRoleSave _ => "role.save"
  | OpRoleGet _ => "role.get"
  | OpRoleList => "role.list"
  | OpRoleDelete _ => "role.delete"
  | OpDBRoleSave _ => "db_role.save"
  | OpDBRoleGet _ => "db_role.get"
  | OpDBRoleList => "db_role.list"
  | OpDBRoleDelete _ => "db_role.delete"
  | OpSSHRoleSave _ => "ssh_role.save"
  | OpSSHRoleGet _ => "ssh_role.get"
  | OpSSHRoleList => "ssh_role.list"
  | OpSSHRoleDelete _ => "ssh_role.delete"
  | OpIssuedSave _ => "issued.save"
  | OpIssuedGetBySerial _ _ => "issued.get_by_serial"
  | OpIssuedList => "issued.list"
  | OpIssuedListExpiring _ _ => "issued.list_expiring"
  | OpImportSnapshot _ => "snapshot.import"
  | OpExportSnapshot _ => "snapshot.export"
  | OpTokenSave _ => "token.save"
  | OpTokenGet _ => "token.get"
  | OpTokenRevoke _ _ => "token.revoke"
  | OpTokenList => "token.list"
  | OpTokenListExpired _ _ => "token.list_expired"
  | OpMachineIdentitySave _ => "machine_identity.save"
  | OpMachineIdentityGet _ => "machine_identity.get"
  | OpMachineIdentityList => "machine_identity.list"
  | OpMachineIdentityRevoke _ => "machine_identity.revoke"
  | OpRotationPolicySave _ => "rotation_policy.save"
  | OpRotationPolicyGet _ => "rotation_policy.get"
  | OpRotationPolicyList => "rotation_policy.list"
  | OpRotationPolicyDelete _ => "rotation_policy.delete"
  | OpMalformed op _ => op
  | OpUnknown op => op
  end.

Definition readOnlyOps : list string :=
  ["ca.get_by_id"; "ca.get_by_name"; "ca.list"; "secret.get_latest"; "secret.get_version";
   "secret.list_by_path"; "secret.next_version"; "pki_role.get"; "pki_role.list"; "audit.list";
   "audit.latest_hash"; "revoke.is"; "revoke.list_by_ca"; "lease.get"; "lease.list";
   "lease.list_expired"; "lease.count_active"; "policy.get_by_name"; "policy.list"; "role.get";
   "role.list"; "db_role.get"; "db_role.list"; "ssh_role.get"; "ssh_role.list";
   "issued.get_by_serial"; "issued.list"; "issued.list_expiring"; "snapshot.export"; "token.get";
   "token.list"; "token.list_expired"; "machine_identity.get"; "machine_identity.list"; "rotation_policy.get";
   "rotation_policy.list"].

Definition IsReadOnlyOp (op : string) : bool := bool_decide (op ∈ readOnlyOps).

(** The data of a response. *)
Inductive Data :=
  | DNone
  | DInt (z : Z)
  | DBool (b : bool)
  | DStr (x : string)
  | DCA (x : CA) | DCAs (l : list CA)
  | DSecret (x : SecretVersion) | DSecrets (l : list SecretVersion)
  | DPKIRole (x : PKIRole) | DPKIRoles (l : list PKIRole)
  | DEntry (x : Entry) | DEntries (l : list Entry)
  | DRevoked (l : list RevokedCertificate)
  | DLease (x : Lease) | DLeases (l : list Lease)
  | DPolicy (x : Policy) | DPolicies (l : list Policy)
  | DRole (x : Role) | DRoles (l : list Role)
  | DDBRole (x : DatabaseRole) | DDBRoles (l : list DatabaseRole)
  | DSSHRole (x : SSHRole) | DSSHRoles (l : list SSHRole)
  | DIssued (x : IssuedCertificate) | DIssueds (l : list IssuedCertificate)
  | DToken (x : ClientToken) | DTokens (l : list ClientToken)
  | DIdentity (x : MachineIdentity) | DIdentities (l : list MachineIdentity)
  | DRotation (x : RotationPolicy) | DRotations (l : list RotationPolicy)
  | DSnapshot (x : Snapshot).

(** What a handler does: new store and data, an error, or a panic. *)
Inductive hres :=
  | HOk (s : Store) (d : Data)
  | HErr (e : error)
  | HPanic.

(** A handler that reads, and one that writes one repository. *)
Definition get {A} (r : res A) (wrap : A → Data) (s : Store) : hres :=
  match r with Ok a => HOk s (wrap a) | Err e => HErr e end.
Definition put {A} (r : res A) (set : Store → A → Store) (s : Store) : hres :=
  match r with Ok a => HOk (set s a) DNone | Err e => HErr e end.

(** ** handlers.go *)

Section handlers.
Context `{UrlParser} `{Digest} (env : Env).

Definition handleCASave (s : Store) (ca : CA) : hres := put (CARepository_Save (st_CA s) ca) set_CA s.
Definition handleCAGetByID (s : Store) (id : UUID) : hres := get (CARepository_GetByID (st_CA s) id) DCA s.
Definition handleCAGetByName (s : Store) (name : string) : hres := get (CARepository_GetByName (st_CA s) name) DCA s.
Definition handleCAList (s : Store) : hres := HOk s (DCAs (CARepository_List (st_CA s))).
Definition handleSecretSaveVersion (s : Store) (sv : SecretVersion) : hres := put (SaveVersion (st_Secret s) sv) set_Secret s.
Definition handleSecretPut (s : Store) (sv : SecretVersion) (cas : option Z) (maxVersions : Z) : hres :=
  match PutAtomic (st_Secret s) sv cas maxVersions with
  | Ok (r, version) => HOk (set_Secret s r) (DInt version)
  | Err e => HErr e
  end.
Definition handleSecretGetLatest (s : Store) (path : string) : hres := get (GetLatest (st_Secret s) path) DSecret s.
Definition handleSecretGetVersion (s : Store) (path : string) (version : Z) : hres := get (GetVersion (st_Secret s) path version) DSecret s.
Definition handleSecretListByPath (s : Store) (prefix : string) : hres := HOk s (DSecrets (ListByPath (st_Secret s) prefix)).
Definition handleSecretNextVersion (s : Store) (path : string) : hres := HOk s (DInt (NextVersion (st_Secret s) path)).
Definition handleSecretDestroyVer (s : Store) (path : string) (version : Z) : hres := put (DestroyVersion (st_Secret s) path version) set_Secret s.
Definition handleSecretUpdateDEKEnc (s : Store) (path : string) (version : Z) (dekEnc : bytes) : hres := put (UpdateDEKEnc (st_Secret s) path version dekEnc) set_Secret s.
Definition handlePKIRoleSave (s : Store) (role : PKIRole) : hres :=
  match CARepository_GetByName (st_CA s) (pr_CAName role) with
  | Err e => HErr e
  | Ok _ =>
    match PKIRoleRepository_Save (st_PKIRole s) role, PKIRole_Validate role with
    | Ok r, Ok role => HOk (set_PKIRole s r) (DPKIRole role)
    | Err e, _ | _, Err e => HErr e
    end
  end.
Definition handlePKIRoleGet (s : Store) (name : string) : hres := get (PKIRoleRepository_Get (st_PKIRole s) name) DPKIRole s.
Definition handlePKIRoleList (s : Store) : hres := HOk s (DPKIRoles (PKIRoleRepository_List (st_PKIRole s))).
Definition handleAuditAppend_ (s : Store) (entry : Entry) : hres :=
  match handleAuditAppend (env_now env) (st_Audit s) entry with
  | Ok (r, stored) => HOk (set_Audit s r) (DEntry stored)
  | Err e => HErr e
  end.
Definition handleAuditList (s : Store) (opts : AuditListOptions) : hres :=
  match AuditRepository_List (st_Audit s) opts with
  | Some es => HOk s (DEntries es)
  | None => HPanic
  end.
Definition handleAuditLatestHash (s : Store) : hres := HOk s (DStr (AuditRepository_LatestHash (st_Audit s))).
Definition handleRevoke (s : Store) (cert : RevokedCertificate) : hres := HOk (set_Revoke s (RevocationRepository_Revoke (st_Revoke s) cert)) DNone.
Definition handleRevokeIs (s : Store) (serial : string) : hres := HOk s (DBool (RevocationRepository_IsRevoked (st_Revoke s) serial)).
Definition handleRevokeListByCA (s : Store) (caID : UUID) : hres := HOk s (DRevoked (RevocationRepository_ListByCA (st_Revoke s) caID)).
Definition handleLeaseSave (s : Store) (lease : Lease) : hres := put (LeaseRepository_Save (st_Lease s) lease) set_Lease s.
Definition handleLeaseGet (s : Store) (id : string) : hres := get (LeaseRepository_Get (st_Lease s) id) DLease s.
Definition handleLeaseList (s : Store) : hres := HOk s (DLeases (LeaseRepository_List (st_Lease s))).
Definition handleLeaseListExpired (s : Store) (before : Time) (limit : Z) : hres := HOk s (DLeases (LeaseRepository_ListExpired (st_Lease s) before limit)).
Definition handleLeaseRevoke (s : Store) (id : string) (revokedAt : Time) : hres := put (LeaseRepository_Revoke (st_Lease s) id revokedAt) set_Lease s.
Definition handleLeaseCountActive (s : Store) : hres := HOk s (DInt (LeaseRepository_CountActive (st_Lease s) (env_now env))).
Definition handlePolicySave (s : Store) (policy : Policy) : hres :=
  match PolicyRepository_Save (env_uuid env 0) (st_Policy s) policy with
  | Ok (r, policy) => HOk (set_Policy s r) (DPolicy policy)
  | Err e => HErr e
  end.
Definition handlePolicyGet (s : Store) (name : string) : hres := get (PolicyRepository_GetByName (st_Policy s) name) DPolicy s.
Definition handlePolicyList (s : Store) : hres := HOk s (DPolicies (PolicyRepository_List (st_Policy s))).
Definition handlePolicyDelete (s : Store) (name : string) : hres := put (PolicyRepository_Delete (st_Policy s) name) set_Policy s.
Definition handleRoleSave (s : Store) (role : Role) : hres := put (RoleRepository_Save (st_Role s) role) set_Role s.
Definition handleRoleGet (s : Store) (name : string) : hres := get (RoleRepository_Get (st_Role s) name) DRole s.
Definition handleRoleList (s : Store) : hres := HOk s (DRoles (RoleRepository_List (st_Role s))).
Definition handleRoleDelete (s : Store) (name : string) : hres := put (RoleRepository_Delete (st_Role s) name) set_Role s.
Definition handleDBRoleSave (s : Store) (role : DatabaseRole) : hres := put (DatabaseRoleRepository_Save (st_DBRole s) role) set_DBRole s.
Definition handleDBRoleGet (s : Store) (name : string) : hres := get (DatabaseRoleRepository_Get (st_DBRole s) name) DDBRole s.
Definition handleDBRoleList (s : Store) : hres := HOk s (DDBRoles (DatabaseRoleRepository_List (st_DBRole s))).
Definition handleDBRoleDelete (s : Store) (name : string) : hres := put (DatabaseRoleRepository_Delete (st_DBRole s) name) set_DBRole s.
Definition handleSSHRoleSave (s : Store) (role : SSHRole) : hres := put (SSHRoleRepository_Save (st_SSHRole s) role) set_SSHRole s.
Definition handleSSHRoleGet (s : Store) (name : string) : hres := get (SSHRoleRepository_Get (st_SSHRole s) name) DSSHRole s.
Definition handleSSHRoleList (s : Store) : hres := HOk s (DSSHRoles (SSHRoleRepository_List (st_SSHRole s))).
Definition handleSSHRoleDelete (s : Store) (name : string) : hres := put (SSHRoleRepository_Delete (st_SSHRole s) name) set_SSHRole s.
Definition handleIssuedSave (s : Store) (cert : IssuedCertificate) : hres := put (IssuedCertRepository_Save (st_IssuedCert s) cert) set_IssuedCert s.
Definition handleIssuedGetBySerial (s : Store) (caID : UUID) (serial : string) : hres := get (IssuedCertRepository_GetBySerial (st_IssuedCert s) caID serial) DIssued s.
Definition handleIssuedList (s : Store) : hres := HOk s (DIssueds (IssuedCertRepository_List (st_IssuedCert s))).
Definition handleIssuedListExpiring (s : Store) (before : Time) (limit : Z) : hres := HOk s (DIssueds (IssuedCertRepository_ListExpiring (st_IssuedCert s) before limit)).
Definition handleImportSnapshot (s : Store) (snapshot : Snapshot) : hres :=
  match ImportSnapshot (env_uuid env) s snapshot with
  | Ok s' => HOk s' DNone
  | Err e => HErr e
  end.
Definition handleExportSnapshot (s : Store) (opts : ExportOptions) : hres :=
  match ExportSnapshot (env_now env) s (eo_IncludeAudit opts) with
  | Some snapshot => HOk s (DSnapshot snapshot)
  | None => HPanic
  end.
Definition handleTokenSave (s : Store) (token : ClientToken) : hres := put (TokenRepository_Save (st_Token s) token) set_Token s.
Definition handleTokenGet (s : Store) (id : string) : hres := get (TokenRepository_Get (st_Token s) id) DToken s.
Definition handleTokenRevoke (s : Store) (id : string) (revokedAt : Time) : hres := put (TokenRepository_Revoke (st_Token s) id revokedAt) set_Token s.
Definition handleTokenList (s : Store) : hres := HOk s (DTokens (TokenRepository_List (st_Token s))).
Definition handleTokenListExpired (s : Store) (before : Time) (limit : Z) : hres := HOk s (DTokens (TokenRepository_ListExpired (st_Token s) before limit)).
Definition handleMachineIdentitySave (s : Store) (id : MachineIdentity) : hres := put (MachineIdentityRepository_Save (st_MachineIdentity s) id) set_MachineIdentity s.
Definition handleMachineIdentityGet (s : Store) (id : string) : hres := get (MachineIdentityRepository_Get (st_MachineIdentity s) id) DIdentity s.
Definition handleMachineIdentityList (s : Store) : hres := HOk s (DIdentities (MachineIdentityRepository_List (st_MachineIdentity s))).
Definition handleMachineIdentityRevoke (s : Store) (id : string) : hres := put (MachineIdentityRepository_Revoke (st_MachineIdentity s) id) set_MachineIdentity s.
Definition handleRotationPolicySave (s : Store) (policy : RotationPolicy) : hres := put (RotationPolicyRepository_Save (st_RotationPolicy s) policy) set_RotationPolicy s.
Definition handleRotationPolicyGet (s : Store) (path : string) : hres := get (RotationPolicyRepository_Get (st_RotationPolicy s) path) DRotation s.
Definition handleRotationPolicyList (s : Store) : hres := HOk s (DRotations (RotationPolicyRepository_List (st_RotationPolicy s))).
Definition handleRotationPolicyDelete (s : Store) (path : string) : hres := put (RotationPolicyRepository_Delete (st_RotationPolicy s) path) set_RotationPolicy s.

(** [storeHandlers] *)
Definition storeHandlers (c : Command) (s : Store) : hres :=
  match c with
  | OpCASave ca => handleCASave s ca
  | OpCAGetByID id => handleCAGetByID s id
  | OpCAGetByName name => handleCAGetByName s name
  | OpCAList => handleCAList s
  | OpSecretSaveVersion sv => handleSecretSaveVersion s sv
  | OpSecretPut sv cas maxVersions => handleSecretPut s sv cas maxVersions
  | OpSecretGetLatest path => handleSecretGetLatest s path
  | OpSecretGetVersion path version => handleSecretGetVersion s path version
  | OpSecretListByPath prefix => handleSecretListByPath s prefix
  | OpSecretNextVersion path => handleSecretNextVersion s path
  | OpSecretDestroyVer path version => handleSecretDestroyVer s path version
  | OpSecretUpdateDEKEnc path version dekEnc => handleSecretUpdateDEKEnc s path version dekEnc
  | OpPKIRoleSave role => handlePKIRoleSave s role
  | OpPKIRoleGet name => handlePKIRoleGet s name
  | OpPKIRoleList => handlePKIRoleList s
  | OpAuditAppend entry => handleAuditAppend_ s entry
  | OpAuditList opts => handleAuditList s opts
  | OpAuditLatestHash => handleAuditLatestHash s
  | OpRevoke cert => handleRevoke s cert
  | OpRevokeIs serial => handleRevokeIs s serial
  | OpRevokeListByCA caID => handleRevokeListByCA s caID
  | OpLeaseSave lease => handleLeaseSave s lease
  | OpLeaseGet id => handleLeaseGet s id
  | OpLeaseList => handleLeaseList s
  | OpLeaseListExpired before limit => handleLeaseListExpired s before limit
  | OpLeaseRevoke id revokedAt => handleLeaseRevoke s id revokedAt
  | OpLeaseCountActive => handleLeaseCountActive s
  | OpPolicySave policy => handlePolicySave s policy
  | OpPolicyGet name => handlePolicyGet s name
  | OpPolicyList => handlePolicyList s
  | OpPolicyDelete name => handlePolicyDelete s name
  | OpRoleSave role => handleRoleSave s role
  | OpRoleGet name => handleRoleGet s name
  | OpRoleList => handleRoleList s
  | OpRoleDelete name => handleRoleDelete s name
  | OpDBRoleSave role => handleDBRoleSave s role
  | OpDBRoleGet name => handleDBRoleGet s name
  | OpDBRoleList => handleDBRoleList s
  | OpDBRoleDelete name => handleDBRoleDelete s name
  | OpSSHRoleSave role => handleSSHRoleSave s role
  | OpSSHRoleGet name => handleSSHRoleGet s name
  | OpSSHRoleList => handleSSHRoleList s
  | OpSSHRoleDelete name => handleSSHRoleDelete s name
  | OpIssuedSave cert => handleIssuedSave s cert
  | OpIssuedGetBySerial caID serial => handleIssuedGetBySerial s caID serial
  | OpIssuedList => handleIssuedList s
  | OpIssuedListExpiring before limit => handleIssuedListExpiring s before limit
  | OpImportSnapshot snapshot => handleImportSnapshot s snapshot
  | OpExportSnapshot opts => handleExportSnapshot s opts
  | OpTokenSave token => handleTokenSave s token
  | OpTokenGet id => handleTokenGet s id
  | OpTokenRevoke id revokedAt => handleTokenRevoke s id revokedAt
  | OpTokenList => handleTokenList s
  | OpTokenListExpired before limit => handleTokenListExpired s before limit
  | OpMachineIdentitySave id => handleMachineIdentitySave s id
  | OpMachineIdentityGet id => handleMachineIdentityGet s id
  | OpMachineIdentityList => handleMachineIdentityList s
  | OpMachineIdentityRevoke id => handleMachineIdentityRevoke s id
  | OpRotationPolicySave policy => handleRotationPolicySave s policy
  | OpRotationPolicyGet path => handleRotationPolicyGet s path
  | OpRotationPolicyList => handleRotationPolicyList s
  | OpRotationPolicyDelete path => handleRotationPolicyDelete s path
  | OpMalformed _ cause => HErr (Plain cause)
  | OpUnknown _ => HErr (New ErrCodeValidation "unknown raft command")
  end.
End handlers.

(** ** Responses: commands.go and store.go *)

(** [Response]: an error code with a message, or data. *)
Inductive Response :=
  | RError (code : ErrorCode) (message : string)
  | RData (d : Data).

Definition encodeResponse (r : res Data) : Response :=
  match r with
  | Ok d => RData d
  | Err e =>
    match errors_As e with
    | Some (code, msg) => RError code msg
    | None => RError ErrCodeInternal (error_string e)
    end
  end.

Definition DecodeResult (r : Response) : res Data :=
  match r with
  | RError code message => Err (New code message)
  | RData d => Ok d
  end.

Section machine.
Context `{UrlParser} `{Digest}.

(** [Handle]: the store after the command and the response; [None] is a panic. *)
Definition Handle (env : Env) (s : Store) (c : Command) : option (Store * Response) :=
  match storeHandlers env c s with
  | HOk s' d => Some (s', encodeResponse (Ok d))
  | HErr e => Some (s, encodeResponse (Err e))
  | HPanic => None
  end.

Definition Lookup (env : Env) (s : Store) (query : Command) : option (Store * Response) :=
  if negb (IsReadOnlyOp (op_name query))
  then Some (s, encodeResponse (Err (New ErrCodeValidation "write command not allowed on read path")))
  else Handle env s query.

(** ** statemachine.go *)

(** [Update] on a decoded log entry; a command without an operation is an error
    of the state machine itself, not a response. *)
Definition Update (env : Env) (s : Store) (c : Command) : option (res (Store * Response)) :=
  if op_name c =s "" then Some (Err (Plain "command op is required"))
  else match Handle env s c with
       | Some x => Some (Ok x)
       | None => None
       end.

Definition SaveSnapshot (env : Env) (s : Store) : option Snapshot := ExportSnapshot (env_now env) s true.
Definition RecoverFromSnapshot (env : Env) (s : Store) (snapshot : Snapshot) : res Store :=
  ImportSnapshot (env_uuid env) s snapshot.

(** A replica: the log applied in order, each command with the environment the
    replica had then. A command that panics or is rejected changes nothing. *)
Definition apply_command (s : Store) (x : Env * Command) : Store :=
  match Update x.1 s x.2 with Some (Ok (s', _)) => s' | _ => s end.
Definition replay (log : list (Env * Command)) : Store := foldl apply_command NewStore log.

End machine.

(** ** Invariant of the store *)

Record store_wf `{UrlParser} (s : Store) : Prop := {
  sw_repos : repos_wf (Store_Repos s);
  sw_identity : keyed_wf (st_MachineIdentity s);
  sw_rotation : keyed_wf (st_RotationPolicy s);
}.

(** Version numbers of a decoded payload are [int]s. *)
Definition command_int64 (c : Command) : Prop :=
  match c with
  | OpSecretSaveVersion sv => sv_Version sv ≤ max_int
  | OpImportSnapshot s => snapshot_int64 s
  | _ => True
  end.

(** ** Lemmas *)

Create HintDb raft.
#[local] Hint Unfold get put
  handleCASave handleCAGetByID handleCAGetByName handleCAList handleSecretSaveVersion handleSecretPut
  handleSecretGetLatest handleSecretGetVersion handleSecretListByPath handleSecretNextVersion
  handleSecretDestroyVer handleSecretUpdateDEKEnc handlePKIRoleSave handlePKIRoleGet handlePKIRoleList
  handleAuditAppend_ handleAuditList handleAuditLatestHash handleRevoke handleRevokeIs handleRevokeListByCA
  handleLeaseSave handleLeaseGet handleLeaseList handleLeaseListExpired handleLeaseRevoke
  handleLeaseCountActive handlePolicySave handlePolicyGet handlePolicyList handlePolicyDelete handleRoleSave
  handleRoleGet handleRoleList handleRoleDelete handleDBRoleSave handleDBRoleGet handleDBRoleList
  handleDBRoleDelete handleSSHRoleSave handleSSHRoleGet handleSSHRoleList handleSSHRoleDelete
  handleIssuedSave handleIssuedGetBySerial handleIssuedList handleIssuedListExpiring handleImportSnapshot
  handleExportSnapshot handleTokenSave handleTokenGet handleTokenRevoke handleTokenList
  handleTokenListExpired handleMachineIdentitySave handleMachineIdentityGet handleMachineIdentityList
  handleMachineIdentityRevoke handleRotationPolicySave handleRotationPolicyGet handleRotationPolicyList
  handleRotationPolicyDelete : raft.

(** Evaluate the handler of [c] in [Hc] and split on its outcome. *)
Ltac run_handler c Hc := destruct c; simpl in Hc; autounfold with raft in Hc; repeat case_match; simplify_eq.

Lemma read_only_unchanged `{UrlParser} `{Digest} env s c s' d :
  IsReadOnlyOp (op_name c) = true → storeHandlers env c s = HOk s' d → s' = s.
Proof.
  intros Hro Hc. destruct c; try (vm_compute in Hro; discriminate Hro);
    simpl in Hc; autounfold with raft in Hc; repeat case_match; by simplify_eq.
Qed.

Section wf.
Context `{UrlParser}.

(** Replacing one repository by one that satisfies its invariant. *)
Ltac set_wf := intros [[] ??] ?; split; [split|..]; done.

Lemma set_CA_wf s x : store_wf s → ca_wf x → store_wf (set_CA s x).
Proof. set_wf. Qed.
Lemma set_Secret_wf s x : store_wf s → secrets_wf x → store_wf (set_Secret s x).
Proof. set_wf. Qed.
Lemma set_Audit_wf s x : store_wf s → audit_ids x → store_wf (set_Audit s x).
Proof. set_wf. Qed.
Lemma set_Revoke_wf s x : store_wf s → revocations_wf x → store_wf (set_Revoke s x).
Proof. set_wf. Qed.
Lemma set_Lease_wf s x : store_wf s → keyed_wf x → store_wf (set_Lease s x).
Proof. set_wf. Qed.
Lemma set_Policy_wf s x : store_wf s → keyed_wf x → store_wf (set_Policy s x).
Proof. set_wf. Qed.
Lemma set_Role_wf s x : store_wf s → keyed_wf x → store_wf (set_Role s x).
Proof. set_wf. Qed.
Lemma set_DBRole_wf s x : store_wf s → keyed_wf x → store_wf (set_DBRole s x).
Proof. set_wf. Qed.
Lemma set_SSHRole_wf s x : store_wf s → keyed_wf x → store_wf (set_SSHRole s x).
Proof. set_wf. Qed.
Lemma set_IssuedCert_wf s x : store_wf s → issued_wf x → store_wf (set_IssuedCert s x).
Proof. set_wf. Qed.
Lemma set_PKIRole_wf s x : store_wf s → keyed_wf x → store_wf (set_PKIRole s x).
Proof. set_wf. Qed.
Lemma set_Token_wf s x : store_wf s → keyed_wf x → store_wf (set_Token s x).
Proof. set_wf. Qed.
Lemma set_MachineIdentity_wf s x : store_wf s → keyed_wf x → store_wf (set_MachineIdentity s x).
Proof. set_wf. Qed.
Lemma set_RotationPolicy_wf s x : store_wf s → keyed_wf x → store_wf (set_RotationPolicy s x).
Proof. set_wf. Qed.

Lemma NewStore_wf : store_wf NewStore.
Proof. split; [apply empty_repos_wf|apply map_Forall_empty|apply map_Forall_empty]. Qed.

(** The repository of a store that satisfies the invariant, by name. *)
Lemma store_wf_all s : store_wf s →
  ca_wf (st_CA s) ∧ secrets_wf (st_Secret s) ∧ audit_ids (st_Audit s) ∧ revocations_wf (st_Revoke s) ∧
  keyed_wf (st_Lease s) ∧ keyed_wf (st_Policy s) ∧ keyed_wf (st_Role s) ∧ keyed_wf (st_DBRole s) ∧
  keyed_wf (st_SSHRole s) ∧ issued_wf (st_IssuedCert s) ∧ keyed_wf (st_PKIRole s) ∧ keyed_wf (st_Token s).
Proof. intros [[] ??]. done. Qed.

Lemma ImportSnapshot_wf `{Digest} fresh s snapshot s' : snapshot_int64 snapshot →
  ImportSnapshot fresh s snapshot = Ok s' → store_wf s'.
Proof.
  intros Hi. unfold ImportSnapshot. destruct (ValidateSnapshot snapshot); [|done].
  assert (Hk := Restore_keeps fresh snapshot Hi (Store_Repos NewStore) empty_repos_wf).
  destruct (Restore _ _ _) as [r [e|]]; [done|]. intros [= <-]. simpl in Hk.
  split; [|apply map_Forall_empty|apply map_Forall_empty]. by destruct Hk; split.
Qed.

Lemma PutAtomic_wf r sv cas m r' v : secrets_wf r → PutAtomic r sv cas m = Ok (r', v) → secrets_wf r'.
Proof.
  intros Hwf Hp. eapply (secret_op_step_ok r (OpPutAtomic sv cas m)); [done|done|]. simpl. by rewrite Hp.
Qed.
Lemma DestroyVersion_wf r p v r' : secrets_wf r → DestroyVersion r p v = Ok r' → secrets_wf r'.
Proof.
  intros Hwf Hp. eapply (secret_op_step_ok r (OpDestroyVersion p v)); [done|done|]. simpl. by rewrite Hp.
Qed.
Lemma UpdateDEKEnc_wf r p v k r' : secrets_wf r → UpdateDEKEnc r p v k = Ok r' → secrets_wf r'.
Proof.
  intros Hwf Hp. eapply (secret_op_step_ok r (OpUpdateDEKEnc p v k)); [done|done|]. simpl. by rewrite Hp.
Qed.
Lemma LeaseRevoke_wf r id t r' : keyed_wf r → LeaseRepository_Revoke r id t = Ok r' → keyed_wf r'.
Proof. apply keyed_Alter_wf. intros a [Hv _]%checked_ok. split; [done|]. by apply checked_ok. Qed.
Lemma TokenRevoke_wf r id t r' : keyed_wf r → TokenRepository_Revoke r id t = Ok r' → keyed_wf r'.
Proof. apply keyed_Alter_wf. intros a [Hv _]%checked_ok. split; [done|]. by apply checked_ok. Qed.
Lemma IdentityRevoke_wf r id r' : keyed_wf r → MachineIdentityRepository_Revoke r id = Ok r' → keyed_wf r'.
Proof. apply keyed_Alter_wf. intros a [Hv _]%checked_ok. split; [done|]. by apply checked_ok. Qed.
Lemma handleAuditAppend_ids `{Digest} now r e r' e' : audit_ids r → handleAuditAppend now r e = Ok (r', e') → audit_ids r'.
Proof. intros Hr Ha. by eapply Append_ids. Qed.

Lemma handler_wf `{Digest} env c s s' d :
  store_wf s → command_int64 c → storeHandlers env c s = HOk s' d → store_wf s'.
Proof.
  intros Hwf Hi Hc. destruct (store_wf_all s Hwf) as (W1 & W2 & W3 & W4 & W5 & W6 & W7 & W8 & W9 & W10 & W11 & W12).
  destruct (IsReadOnlyOp (op_name c)) eqn:Hro; [by rewrite (read_only_unchanged _ _ _ _ _ Hro Hc)|].
  destruct c; try (vm_compute in Hro; discriminate Hro); simpl in Hc; autounfold with raft in Hc;
    repeat case_match; simplify_eq.
  - apply set_CA_wf; [done|by eapply CARepository_Save_wf].
  - apply set_Secret_wf; [done|by eapply SaveVersion_wf].
  - apply set_Secret_wf; [done|by eapply PutAtomic_wf].
  - apply set_Secret_wf; [done|by eapply DestroyVersion_wf].
  - apply set_Secret_wf; [done|by eapply UpdateDEKEnc_wf].
  - apply set_PKIRole_wf; [done|by eapply keyed_Save_wf].
  - apply set_Audit_wf; [done|by eapply handleAuditAppend_ids].
  - apply set_Revoke_wf; [done|by apply revocations_wf_revoke].
  - apply set_Lease_wf; [done|by eapply keyed_Save_wf].
  - apply set_Lease_wf; [done|by eapply LeaseRevoke_wf].
  - apply set_Policy_wf; [done|by eapply PolicySave_wf].
  - apply set_Policy_wf; [done|by eapply keyed_Delete_wf].
  - apply set_Role_wf; [done|by eapply keyed_Save_wf].
  - apply set_Role_wf; [done|by eapply keyed_Delete_wf].
  - apply set_DBRole_wf; [done|by eapply keyed_Save_wf].
  - apply set_DBRole_wf; [done|by eapply keyed_Delete_wf].
  - apply set_SSHRole_wf; [done|by eapply keyed_Save_wf].
  - apply set_SSHRole_wf; [done|by eapply keyed_Delete_wf].
  - apply set_IssuedCert_wf; [done|by eapply IssuedSave_wf].
  - by eapply ImportSnapshot_wf.
  - apply set_Token_wf; [done|by eapply TokenSave_wf].
  - apply set_Token_wf; [done|by eapply TokenRevoke_wf].
  - apply set_MachineIdentity_wf; [done|eapply keyed_Save_wf; [apply Hwf|done]].
  - apply set_MachineIdentity_wf; [done|eapply IdentityRevoke_wf; [apply Hwf|done]].
  - apply set_RotationPolicy_wf; [done|eapply keyed_Save_wf; [apply Hwf|done]].
  - apply set_RotationPolicy_wf; [done|eapply keyed_Delete_wf; [apply Hwf|done]].
Qed.

Lemma apply_command_wf `{Digest} s x : store_wf s → command_int64 x.2 → store_wf (apply_command s x).
Proof.
  intros Hwf Hi. unfold apply_command, Update, Handle. destruct (op_name x.2 =s ""); [done|].
  destruct (storeHandlers x.1 x.2 s) eqn:E; [|done|done]. by eapply handler_wf.
Qed.
End wf.

(** A command whose effect on the store does not depend on the replica that
    applies it: a policy that has its identifier, an audit entry that has its
    timestamp, no snapshot import with policies. *)
Definition replica_free (c : Command) : Prop :=
  match c with
  | OpPolicySave p => policy_ID p ≠ uuid_Nil
  | OpAuditAppend e => en_Timestamp e ≠ 0
  | OpImportSnapshot s => sn_Policies s = []
  | _ => True
  end.

Lemma Restore_fresh `{UrlParser} `{Digest} f1 f2 s r : sn_Policies s = [] → Restore f1 s r = Restore f2 s r.
Proof. intros Hp. unfold Restore, andThen, restore_policies. by rewrite Hp. Qed.

Lemma replica_free_handler `{UrlParser} `{Digest} env1 env2 c s s1 d1 :
  replica_free c → storeHandlers env1 c s = HOk s1 d1 → ∃ d2, storeHandlers env2 c s = HOk s1 d2.
Proof.
  intros Hf Hc. destruct (IsReadOnlyOp (op_name c)) eqn:Hro.
  - assert (s1 = s) as -> by (by eapply read_only_unchanged). destruct c; try (vm_compute in Hro; discriminate Hro);
      try (eexists; exact Hc); simpl in *; autounfold with raft in *; try (by eexists).
    destruct (ExportSnapshot (env_now env1) s (eo_IncludeAudit opts)) eqn:E1; [|done].
    unfold ExportSnapshot, Export in *. destruct (if eo_IncludeAudit _ then _ else _); [by eexists|done].
  - destruct c; try (vm_compute in Hro; discriminate Hro); try (eexists; exact Hc); simpl in *.
    + unfold handleAuditAppend_, handleAuditAppend, IsZero in *. rewrite (proj2 (Z.eqb_neq _ _) Hf) in *.
      eexists. exact Hc.
    + unfold handlePolicySave, PolicyRepository_Save, is_nil_uuid in *.
      rewrite (bool_decide_false (policy_ID policy = uuid_Nil)) in * by done. eexists. exact Hc.
    + unfold handleImportSnapshot, ImportSnapshot in *. rewrite (Restore_fresh _ (env_uuid env1)) by done. eexists. exact Hc.
Qed.

(** ** Theorems *)

(** The read path cannot write: a lookup of any command, known or not,
    returns the store it was given, and refuses every operation that is not
    listed as read-only. *)
Theorem Lookup_read_only `{UrlParser} `{Digest} env s c :
  match Lookup env s c with
  | Some (s', r) => s' = s ∧
      (IsReadOnlyOp (op_name c) = false → r = RError ErrCodeValidation "write command not allowed on read path")
  | None => IsReadOnlyOp (op_name c) = true
  end.
Proof.
  unfold Lookup. destruct (IsReadOnlyOp (op_name c)) eqn:Hro; simpl; [|done].
  unfold Handle. destruct (storeHandlers env c s) eqn:E; [|done|done].
  split; [by eapply read_only_unchanged|done].
Qed.

(** C9. The store invariant holds at every point of every log: whatever
    commands are replicated, in any order and on any replica (malformed and
    refused ones and snapshot imports included), every stored entity is
    valid and found under its own key, CA names are unique, secret versions
    are keyed by their path and number, revocation indexes agree and audit
    identifiers are consecutive. *)
Theorem replay_invariant `{UrlParser} `{Digest} log :
  Forall (λ x, command_int64 x.2) log → store_wf (replay log).
Proof.
  unfold replay. generalize NewStore, NewStore_wf.
  induction log as [|x log IH]; intros s Hs Hall; simpl; [done|]. apply Forall_cons in Hall as [Hx Hall].
  apply IH; [by apply apply_command_wf|done].
Qed.

(** C10. Replicas agree: two replicas that apply the same commands, each with
    its own clock and random identifiers, hold equal stores after every
    prefix of the log, provided saved policies carry their identifier, audit
    entries their timestamp, and imported snapshots no policies. *)
Theorem replicas_agree `{UrlParser} `{Digest} (log : list (Env * Env * Command)) :
  Forall (λ x, replica_free x.2) log →
  replay ((λ x, (x.1.1, x.2)) <$> log) = replay ((λ x, (x.1.2, x.2)) <$> log).
Proof.
  unfold replay. generalize NewStore. induction log as [|[[e1 e2] c] log IH]; intros s Hall; simpl; [done|].
  apply Forall_cons in Hall as [Hx Hall]. simpl in Hx.
  assert (apply_command s (e1, c) = apply_command s (e2, c)) as ->; [|by apply IH].
  unfold apply_command, Update, Handle. simpl. destruct (op_name c =s ""); [done|].
  destruct (storeHandlers e1 c s) as [s1 d1|e|] eqn:E1.
  - by destruct (replica_free_handler e1 e2 c s s1 d1 Hx E1) as [d2 ->].
  - destruct (storeHandlers e2 c s) as [s2 d2|e'|] eqn:E2; [|done|done].
    destruct (replica_free_handler e2 e1 c s s2 d2 Hx E2) as [d3 E3]. congruence.
  - destruct (storeHandlers e2 c s) as [s2 d2|e'|] eqn:E2; [|done|done].
    destruct (replica_free_handler e2 e1 c s s2 d2 Hx E2) as [d3 E3]. congruence.
Qed.

(** Without its identifier a policy gets a different random one on every
    replica: the replicated stores diverge. *)
Theorem policy_save_diverges `{UrlParser} `{Digest} now u1 u2 p :
  Policy_Validate p = Ok tt → policy_ID p = uuid_Nil → u1 ≠ u2 →
  replay [(mkEnv now (λ _, u1), OpPolicySave p)] ≠ replay [(mkEnv now (λ _, u2), OpPolicySave p)].
Proof.
  intros Hv Hid Hne Heq. apply (f_equal (λ s, policy_ID <$> (st_Policy s !! policy_Name p))) in Heq.
  unfold replay, apply_command, Update, Handle in Heq. simpl in Heq.
  unfold handlePolicySave, PolicyRepository_Save in Heq. rewrite Hv in Heq. simpl in Heq.
  unfold is_nil_uuid in Heq. rewrite bool_decide_true in Heq by done. simpl in Heq.
  rewrite !lookup_insert_eq in Heq. simpl in Heq. congruence.
Qed.

(** What an error becomes on its way through the replicated log. *)
Definition flatten_error (e : error) : error :=
  match errors_As e with
  | Some (code, msg) => New code msg
  | None => New ErrCodeInternal (error_string e)
  end.

(** The typed error codes survive the log, so a caller can still tell a
    missing entity from an invalid request. *)
Lemma flatten_error_code e : errors_As (flatten_error e) =
  Some (match errors_As e with Some x => x | None => (ErrCodeInternal, error_string e) end).
Proof. unfold flatten_error. by destruct (errors_As e) as [[]|]. Qed.

(** A replica that recovers from a snapshot of a store holds the image of
    its repositories (as an export and restore gives it), and none of its
    machine identities and rotation policies: the snapshot does not cover
    them. *)
Theorem recovery_image `{UrlParser} `{Digest} env env' s s0 :
  store_wf s → exportable (Store_Repos s) → ∃ snapshot s',
    SaveSnapshot env s = Some snapshot ∧ RecoverFromSnapshot env' s0 snapshot = Ok s' ∧
    restored (Store_Repos s) (Store_Repos s') ∧
    st_MachineIdentity s' = ∅ ∧ st_RotationPolicy s' = ∅.
Proof.
  intros [Hwf _ _] Hex.
  destruct (restore_export_image (env_now env) (env_uuid env') (Store_Repos s) (Store_Repos NewStore) Hwf Hex)
    as (sn & r' & Hs & Hr & Himg).
  exists sn, (store_of_repos r'). split; [exact Hs|]. split.
  - unfold RecoverFromSnapshot, ImportSnapshot. unfold Restore in Hr |- *.
    destruct (ValidateSnapshot sn) as [[]|e]; [|done]. by rewrite Hr.
  - split_and!; [|done..]. by destruct r'.
Qed.

(** ** Concrete logs *)

#[local] Instance sample_parser' : UrlParser := λ _, false.
#[local] Instance sample_digest' : Digest := bits_digest.

Definition env1 : Env := mkEnv 10 (λ i, N.of_nat (100 + i)).
Definition env2 : Env := mkEnv 11 (λ i, N.of_nat (200 + i)).

Definition sample_commands : list Command :=
  [OpCASave sample_ca; OpPolicySave sample_policy; OpRoleSave sample_role;
   OpSecretPut (sample_secret "app" 0) None 2; OpLeaseSave (sample_lease "l1" 50); OpUnknown "x";
   OpMachineIdentitySave (mkMachineIdentity "m1" "agent" "" "" ["reader"] 60 0 false "")].

Definition sample_run : Store := replay ((λ c, (env1, c)) <$> sample_commands).

Lemma replay_invariant_witness :
  Forall (λ x : Env * Command, command_int64 x.2) ((λ c, (env1, c)) <$> sample_commands) ∧
  store_wf sample_run ∧ length (map_to_list (st_Secret sample_run)) = 1%nat.
Proof.
  assert (Hf : Forall (λ x : Env * Command, command_int64 x.2) ((λ c, (env1, c)) <$> sample_commands))
    by (repeat constructor).
  split; [exact Hf|]. split; [exact (replay_invariant _ Hf)|]. by vm_compute.
Defined.

Lemma replicas_agree_witness :
  Forall (λ x : Env * Env * Command, replica_free x.2) ((λ c, (env1, env2, c)) <$> sample_commands) ∧
  replay ((λ c, (env1, c)) <$> sample_commands) = replay ((λ c, (env2, c)) <$> sample_commands).
Proof.
  assert (Hf : Forall (λ x : Env * Env * Command, replica_free x.2) ((λ c, (env1, env2, c)) <$> sample_commands))
    by (repeat constructor; discriminate).
  split; [exact Hf|]. assert (Hr := replicas_agree _ Hf). rewrite <-!list_fmap_compose in Hr. exact Hr.
Defined.

Definition sample_identity : MachineIdentity := mkMachineIdentity "m1" "agent" "" "" ["reader"] 60 0 false "".
Definition sample_vault : Store := set_MachineIdentity (store_of_repos sample_repos) {["m1" := sample_identity]}.

Lemma sample_vault_wf : store_wf sample_vault.
Proof.
  split; [exact sample_repos_wf| |apply map_Forall_empty].
  apply map_Forall_singleton. split; by vm_compute.
Qed.

Lemma recovery_image_witness : ∃ snapshot s',
  SaveSnapshot env1 sample_vault = Some snapshot ∧ RecoverFromSnapshot env2 NewStore snapshot = Ok s' ∧
  st_Secret s' = secret_image <$> st_Secret sample_vault ∧
  st_MachineIdentity sample_vault ≠ ∅ ∧ st_MachineIdentity s' = ∅.
Proof.
  destruct (recovery_image env1 env2 sample_vault NewStore sample_vault_wf sample_repos_exportable)
    as (sn & s' & Hs & Hr & Himg & Hmi & _).
  exists sn, s'. split; [exact Hs|]. split; [exact Hr|]. split; [exact (re_Secret _ _ Himg)|]. split; [|exact Hmi].
  intros Heq. apply (f_equal (λ m, m !! "m1")) in Heq. vm_compute in Heq. discriminate Heq.
Defined.

Example divergence_happens : Policy_Validate (policy_with_id sample_policy uuid_Nil) = Ok tt.
Proof. by vm_compute. Qed.
