(* ===== verification/RaftRepos.v ===== *)
(** The repositories of a cluster: internal/repository/dragonboat/repo.go over the
    client of internal/raft/client.go.

    [Cluster] is the replicated store with the number of proposals made so far.
    [env] is the replica that applies a proposal, [net] what the network does
    with a call: a proposal may be refused before it reaches the log, or be
    applied while its answer is lost. The JSON of commands and responses is the
    class [Wire], which may fail or change what it carries. A command that makes
    the state machine panic ends the process; [halted] stands for the result
    nobody sees. *)

From S2P Require Import Prelude.
From S2P Require Import Effects.
From S2P Require Import GoLib.
From S2P Require Import Policy.
From S2P Require Import Domain.
From S2P Require Import DynamicRoles.
From S2P Require Import Repos.
From S2P Require Import TokenStore.
From S2P Require Import SecretRepo.
From S2P Require Import AuditLog.
From S2P Require Import Backup.
From S2P Require Import RaftStore.

#[local] Open Scope Z_scope.

(** ** internal/raft/client.go *)

Record Cluster := mkCluster { cl_store : Store; cl_step : nat }.

Inductive delivery :=
  | Delivered
  | Unsent (e : error)
  | ReplyLost (e : error).

Definition halted : error := Plain "process terminated".

(** Data of a response, as the type the caller asks for. *)
Class FromData (A : Type) := from_data : Data → option A.
#[global] Instance from_int : FromData Z := λ d, if d is DInt x then Some x else None.
#[global] Instance from_bool : FromData bool := λ d, if d is DBool x then Some x else None.
#[global] Instance from_string : FromData string := λ d, if d is DStr x then Some x else None.
#[global] Instance from_ca : FromData CA := λ d, if d is DCA x then Some x else None.
#[global] Instance from_cas : FromData (list CA) := λ d, if d is DCAs x then Some x else None.
#[global] Instance from_secret : FromData SecretVersion := λ d, if d is DSecret x then Some x else None.
#[global] Instance from_secrets : FromData (list SecretVersion) := λ d, if d is DSecrets x then Some x else None.
#[global] Instance from_pki_role : FromData PKIRole := λ d, if d is DPKIRole x then Some x else None.
#[global] Instance from_pki_roles : FromData (list PKIRole) := λ d, if d is DPKIRoles x then Some x else None.
#[global] Instance from_entries : FromData (list Entry) := λ d, if d is DEntries x then Some x else None.
#[global] Instance from_revoked : FromData (list RevokedCertificate) := λ d, if d is DRevoked x then Some x else None.
#[global] Instance from_lease : FromData Lease := λ d, if d is DLease x then Some x else None.
#[global] Instance from_leases : FromData (list Lease) := λ d, if d is DLeases x then Some x else None.
#[global] Instance from_policy : FromData Policy := λ d, if d is DPolicy x then Some x else None.
#[global] Instance from_policies : FromData (list Policy) := λ d, if d is DPolicies x then Some x else None.
#[global] Instance from_role : FromData Role := λ d, if d is DRole x then Some x else None.
#[global] Instance from_roles : FromData (list Role) := λ d, if d is DRoles x then Some x else None.
#[global] Instance from_db_role : FromData DatabaseRole := λ d, if d is DDBRole x then Some x else None.
#[global] Instance from_db_roles : FromData (list DatabaseRole) := λ d, if d is DDBRoles x then Some x else None.
#[global] Instance from_ssh_role : FromData SSHRole := λ d, if d is DSSHRole x then Some x else None.
#[global] Instance from_ssh_roles : FromData (list SSHRole) := λ d, if d is DSSHRoles x then Some x else None.
#[global] Instance from_issued : FromData IssuedCertificate := λ d, if d is DIssued x then Some x else None.
#[global] Instance from_issueds : FromData (list IssuedCertificate) := λ d, if d is DIssueds x then Some x else None.
#[global] Instance from_token : FromData ClientToken := λ d, if d is DToken x then Some x else None.
#[global] Instance from_tokens : FromData (list ClientToken) := λ d, if d is DTokens x then Some x else None.
#[global] Instance from_identity : FromData MachineIdentity := λ d, if d is DIdentity x then Some x else None.
#[global] Instance from_identities : FromData (list MachineIdentity) := λ d, if d is DIdentities x then Some x else None.
#[global] Instance from_rotation : FromData RotationPolicy := λ d, if d is DRotation x then Some x else None.
#[global] Instance from_rotations : FromData (list RotationPolicy) := λ d, if d is DRotations x then Some x else None.
#[global] Instance from_snapshot : FromData Snapshot := λ d, if d is DSnapshot x then Some x else None.

Definition unmarshal {A} `{FromData A} (d : Data) : res A :=
  match from_data d with Some a => Ok a | None => Err (Plain "json: cannot unmarshal") end.

(** The JSON of commands and responses, as bytes of the log or of a reply.
    [encodeCommand] marshals an operation with its payload, [decodeCommand] is
    what a replica makes of it, a payload its handler cannot decode being
    [OpMalformed]. Encoding may fail, and may not keep what it is given (text
    that is not UTF-8, for one). *)
Class Wire := {
  json : Type;
  json_empty : json → bool;
  encodeCommand : Command → res json;
  decodeCommand : json → res Command;
  marshal_response : Response → res json;
  unmarshal_response : json → res Response;
}.

(** What arrives as it was sent. *)
Definition carried `{Wire} (c : Command) : Prop := ∃ raw, encodeCommand c = Ok raw ∧ decodeCommand raw = Ok c.
Definition carried_response `{Wire} (r : Response) : Prop :=
  ∃ raw, marshal_response r = Ok raw ∧ json_empty raw = false ∧ unmarshal_response raw = Ok r.

Section adapters.
Context `{Wire} `{UrlParser} `{Digest} (env : nat → Env) (net : nat → Command → delivery).
Abbreviation C := (prog Cluster).

(** The cluster after a log entry was applied. A response that cannot be encoded
    is an error of the state machine, after the handler changed the store. *)
Definition applied (raw : json) (s : Cluster) : Cluster * res json :=
  let failed e := (mkCluster (cl_store s) (S (cl_step s)), Err e) in
  match decodeCommand raw with
  | Err e => failed e
  | Ok c =>
    match Update (env (cl_step s)) (cl_store s) c with
    | Some (Ok (st, r)) => (mkCluster st (S (cl_step s)), marshal_response r)
    | Some (Err e) => failed e
    | None => failed halted
    end
  end.

Definition Propose (c : Command) : C json := λ s,
  match encodeCommand c with
  | Err e => (s, Err e)
  | Ok raw =>
    match net (cl_step s) c with
    | Delivered =>
        let '(s', result) := applied raw s in
        (s', data ← result; if json_empty data then Err (Plain "empty raft response") else Ok data)
    | Unsent e => (mkCluster (cl_store s) (S (cl_step s)), Err e)
    | ReplyLost e => ((applied raw s).1, Err e)
    end
  end.

Definition Read (c : Command) : C json := λ s, (s,
  query ← encodeCommand c;
  cmd ← decodeCommand query;
  match net (cl_step s) c with
  | Delivered => match Lookup (env (cl_step s)) (cl_store s) cmd with Some (_, r) => marshal_response r | None => Err halted end
  | Unsent e | ReplyLost e => Err e
  end).

(** [DecodeResult] of the bytes of a response. *)
Definition decode (data : json) : res Data :=
  resp ← unmarshal_response data;
  DecodeResult resp.

Definition Client_ExportSnapshot (opts : ExportOptions) : C Snapshot :=
  data ← Read (OpExportSnapshot opts);
  d ← lift (decode data);
  lift (unmarshal d).

(** ** internal/repository/dragonboat/repo.go *)

Definition write (c : Command) : C unit :=
  data ← Propose c;
  _ ← lift (decode data);
  mret tt.

Definition read {A} `{FromData A} (c : Command) : C A :=
  data ← Read c;
  d ← lift (decode data);
  lift (unmarshal d).

Definition Raft_CA_Save (ca : CA) : C unit := write (OpCASave ca).
Definition Raft_CA_GetByID (id : UUID) : C CA := read (OpCAGetByID id).
Definition Raft_CA_GetByName (name : string) : C CA := read (OpCAGetByName name).
Definition Raft_CA_List : C (list CA) := read OpCAList.
Definition Raft_Secret_SaveVersion (sv : SecretVersion) : C unit := write (OpSecretSaveVersion sv).
Definition Raft_Secret_UpdateDEKEnc (path : string) (version : Z) (dekEnc : bytes) : C unit := write (OpSecretUpdateDEKEnc path version dekEnc).
Definition Raft_Secret_GetLatest (path : string) : C SecretVersion := read (OpSecretGetLatest path).
Definition Raft_Secret_GetVersion (path : string) (version : Z) : C SecretVersion := read (OpSecretGetVersion path version).
Definition Raft_Secret_ListByPath (pathPrefix : string) : C (list SecretVersion) := read (OpSecretListByPath pathPrefix).
Definition Raft_Secret_NextVersion (path : string) : C Z := read (OpSecretNextVersion path).
Definition Raft_Secret_PutAtomic (sv : SecretVersion) (casVersion : option Z) (maxVersions : Z) : C Z :=
  data ← Propose (OpSecretPut sv casVersion maxVersions);
  d ← lift (decode data);
  lift (unmarshal d).
Definition Raft_Secret_DestroyVersion (path : string) (version : Z) : C unit := write (OpSecretDestroyVer path version).
Definition Raft_PKIRole_Save (role : PKIRole) : C unit := write (OpPKIRoleSave role).
Definition Raft_PKIRole_Get (name : string) : C PKIRole := read (OpPKIRoleGet name).
Definition Raft_PKIRole_List : C (list PKIRole) := read OpPKIRoleList.
Definition Raft_Audit_Append (entry : Entry) : C unit := write (OpAuditAppend entry).
Definition Raft_Audit_List (opts : AuditListOptions) : C (list Entry) := read (OpAuditList opts).
Definition Raft_Audit_LatestHash : C string := read OpAuditLatestHash.
Definition Raft_Revocation_Revoke (cert : RevokedCertificate) : C unit := write (RaftStore.OpRevoke cert).
Definition Raft_Revocation_IsRevoked (serial : string) : C bool := read (OpRevokeIs serial).
Definition Raft_Revocation_ListByCA (caID : UUID) : C (list RevokedCertificate) := read (OpRevokeListByCA caID).
Definition Raft_Lease_Save (lease : Lease) : C unit := write (OpLeaseSave lease).
Definition Raft_Lease_Get (id : string) : C Lease := read (OpLeaseGet id).
Definition Raft_Lease_List : C (list Lease) := read OpLeaseList.
Definition Raft_Lease_ListExpired (before : Time) (limit : Z) : C (list Lease) := read (OpLeaseListExpired before limit).
Definition Raft_Lease_Revoke (id : string) (revokedAt : Time) : C unit := write (OpLeaseRevoke id revokedAt).
Definition Raft_Lease_CountActive : C Z := read OpLeaseCountActive.
Definition Raft_Policy_Save (policy : Policy) : C unit := write (OpPolicySave policy).
Definition Raft_Policy_GetByName (name : string) : C Policy := read (OpPolicyGet name).
Definition Raft_Policy_List : C (list Policy) := read OpPolicyList.
Definition Raft_Policy_Delete (name : string) : C unit := write (OpPolicyDelete name).
Definition Raft_Role_Save (role : Role) : C unit := write (OpRoleSave role).
Definition Raft_Role_Get (name : string) : C Role := read (OpRoleGet name).
Definition Raft_Role_List : C (list Role) := read OpRoleList.
Definition Raft_Role_Delete (name : string) : C unit := write (OpRoleDelete name).
Definition Raft_DatabaseRole_Save (role : DatabaseRole) : C unit := write (OpDBRoleSave role).
Definition Raft_DatabaseRole_Get (name : string) : C DatabaseRole := read (OpDBRoleGet name).
Definition Raft_DatabaseRole_List : C (list DatabaseRole) := read OpDBRoleList.
Definition Raft_DatabaseRole_Delete (name : string) : C unit := write (OpDBRoleDelete name).
Definition Raft_SSHRole_Save (role : SSHRole) : C unit := write (OpSSHRoleSave role).
Definition Raft_SSHRole_Get (name : string) : C SSHRole := read (OpSSHRoleGet name).
Definition Raft_SSHRole_List : C (list SSHRole) := read OpSSHRoleList.
Definition Raft_SSHRole_Delete (name : string) : C unit := write (OpSSHRoleDelete name).
Definition Raft_IssuedCert_Save (cert : IssuedCertificate) : C unit := write (OpIssuedSave cert).
Definition Raft_IssuedCert_GetBySerial (caID : UUID) (serial : string) : C IssuedCertificate := read (OpIssuedGetBySerial caID serial).
Definition Raft_IssuedCert_List : C (list IssuedCertificate) := read OpIssuedList.
Definition Raft_IssuedCert_ListExpiring (before : Time) (limit : Z) : C (list IssuedCertificate) := read (OpIssuedListExpiring before limit).
Definition Raft_Token_Save (token : ClientToken) : C unit := write (OpTokenSave token).
Definition Raft_Token_Get (id : string) : C ClientToken := read (OpTokenGet id).
Definition Raft_Token_Revoke (id : string) (revokedAt : Time) : C unit := write (OpTokenRevoke id revokedAt).
Definition Raft_Token_List : C (list ClientToken) := read OpTokenList.
Definition Raft_Token_ListExpired (before : Time) (limit : Z) : C (list ClientToken) := read (OpTokenListExpired before limit).
Definition Raft_MachineIdentity_Save (id : MachineIdentity) : C unit := write (OpMachineIdentitySave id).
Definition Raft_MachineIdentity_Get (id : string) : C MachineIdentity := read (OpMachineIdentityGet id).
Definition Raft_MachineIdentity_List : C (list MachineIdentity) := read OpMachineIdentityList.
Definition Raft_MachineIdentity_Revoke (id : string) : C unit := write (OpMachineIdentityRevoke id).
Definition Raft_RotationPolicy_Save (policy : RotationPolicy) : C unit := write (OpRotationPolicySave policy).
Definition Raft_RotationPolicy_Get (path : string) : C RotationPolicy := read (OpRotationPolicyGet path).
Definition Raft_RotationPolicy_List : C (list RotationPolicy) := read OpRotationPolicyList.
Definition Raft_RotationPolicy_Delete (path : string) : C unit := write (OpRotationPolicyDelete path).
End adapters.

(** ** Refinement of the memory repositories *)

#[local] Hint Unfold RaftStore.get put
  handleCASave handleCAGetByID handleCAGetByName handleCAList handleSecretSaveVersion handleSecretPut handleSecretUpdateDEKEnc
  handleSecretGetLatest handleSecretGetVersion handleSecretListByPath handleSecretNextVersion handleSecretDestroyVer handlePKIRoleSave
  handlePKIRoleGet handlePKIRoleList handleAuditAppend_ handleAuditList handleAuditLatestHash handleRevoke handleRevokeIs
  handleRevokeListByCA handleLeaseSave handleLeaseGet handleLeaseList handleLeaseListExpired handleLeaseRevoke handleLeaseCountActive
  handlePolicySave handlePolicyGet handlePolicyList handlePolicyDelete handleRoleSave handleRoleGet handleRoleList handleRoleDelete
  handleDBRoleSave handleDBRoleGet handleDBRoleList handleDBRoleDelete handleSSHRoleSave handleSSHRoleGet handleSSHRoleList
  handleSSHRoleDelete handleIssuedSave handleIssuedGetBySerial handleIssuedList handleIssuedListExpiring handleExportSnapshot
  handleTokenSave handleTokenGet handleTokenRevoke handleTokenList handleTokenListExpired handleMachineIdentitySave handleMachineIdentityGet
  handleMachineIdentityList handleMachineIdentityRevoke handleRotationPolicySave handleRotationPolicyGet handleRotationPolicyList
  handleRotationPolicyDelete : raft.

Section refinement.
Context `{Wire} `{UrlParser} `{Digest} (env : nat → Env) (net : nat → Command → delivery).
Abbreviation C := (prog Cluster).

(** The answer to a command on the store arrives as it was sent. *)
Definition answer_carried (c : Command) (s : Cluster) : Prop :=
  match Update (env (cl_step s)) (cl_store s) c with Some (Ok (_, r)) => carried_response r | _ => True end.

(** A write behaves as [f] on the replicated store, where JSON keeps the command
    and its answer. Delivered, it has the effect and the result of [f], an error
    reduced to its code and message. Not sent, it fails and changes nothing;
    with the answer lost, it fails and yet has the effect of [f]. *)
Definition refines_write (c : Command) (m : C unit) (f : Env → Store → res Store) : Prop := carried c → ∀ s, answer_carried c s →
  let x := f (env (cl_step s)) (cl_store s) in
  let unchanged := mkCluster (cl_store s) (S (cl_step s)) in
  let after := match x with Ok st => mkCluster st (S (cl_step s)) | Err _ => unchanged end in
  m s = match net (cl_step s) c with
        | Delivered => (after, match x with Ok _ => Ok tt | Err e => Err (flatten_error e) end)
        | Unsent e => (unchanged, Err e)
        | ReplyLost e => (after, Err e)
        end.

(** A read gives what [f] gives on the replicated store, or fails, and changes
    nothing. *)
Definition refines_read {A} (c : Command) (m : C A) (f : Env → Store → res A) : Prop := carried c → ∀ s, answer_carried c s →
  m s = (s, match net (cl_step s) c with
            | Delivered => match f (env (cl_step s)) (cl_store s) with Ok a => Ok a | Err e => Err (flatten_error e) end
            | Unsent e | ReplyLost e => Err e
            end).

Lemma Update_run e st c : op_name c ≠ "" → Update e st c =
  match storeHandlers e c st with
  | HOk st' d => Some (Ok (st', RData d))
  | HErr er => Some (Ok (st, encodeResponse (Err er)))
  | HPanic => None
  end.
Proof. intros Hop. unfold Update, Handle. rewrite bool_decide_false by done. by destruct (storeHandlers e c st). Qed.

Lemma DecodeResult_error er : DecodeResult (encodeResponse (Err er)) = Err (flatten_error er).
Proof. unfold flatten_error. simpl. by destruct (errors_As er) as [[]|]. Qed.

Lemma read_named c : IsReadOnlyOp (op_name c) = true → op_name c ≠ "".
Proof. intros Hc E. rewrite E in Hc. done. Qed.

(** A proposal the wire keeps, whose handler ends with [o]. *)
Lemma Propose_run c s o : op_name c ≠ "" → carried c → answer_carried c s → storeHandlers (env (cl_step s)) c (cl_store s) = o → o ≠ HPanic →
  let st := match o with HOk st _ => st | _ => cl_store s end in
  let reply := match o with HOk _ d => Ok d | HErr e => Err (flatten_error e) | HPanic => Err halted end in
  match net (cl_step s) c with
  | Delivered => ∃ raw, Propose env net c s = (mkCluster st (S (cl_step s)), Ok raw) ∧ decode raw = reply
  | Unsent e => Propose env net c s = (mkCluster (cl_store s) (S (cl_step s)), Err e)
  | ReplyLost e => Propose env net c s = (mkCluster st (S (cl_step s)), Err e)
  end.
Proof.
  intros Hop (raw & He & Hd) Ha Ho Hp. unfold answer_carried in Ha. rewrite (Update_run _ _ _ Hop), Ho in Ha.
  unfold Propose, applied, decode. rewrite He, Hd, (Update_run _ _ _ Hop), Ho.
  destruct o as [st d|er|]; [| |done]; destruct Ha as (out & Hm & Hn & Hu); cbn [fst]; rewrite ?Hm; destruct (net _ c); try done;
    exists out; unfold mbind, res_bind; rewrite Hn, Hu; split; try done; apply DecodeResult_error.
Qed.

Lemma Read_run c s o : IsReadOnlyOp (op_name c) = true → carried c → answer_carried c s → storeHandlers (env (cl_step s)) c (cl_store s) = o → o ≠ HPanic →
  let reply := match o with HOk _ d => Ok d | HErr e => Err (flatten_error e) | HPanic => Err halted end in
  match net (cl_step s) c with
  | Delivered => ∃ raw, Read env net c s = (s, Ok raw) ∧ decode raw = reply
  | Unsent e | ReplyLost e => Read env net c s = (s, Err e)
  end.
Proof.
  intros Hro (raw & He & Hd) Ha Ho Hp. unfold answer_carried in Ha. rewrite (Update_run _ _ _ (read_named _ Hro)), Ho in Ha.
  unfold Read, Lookup, Handle, decode, mbind, res_bind. rewrite He, Hd, Hro, Ho. cbn [negb].
  destruct o as [st d|er|]; [| |done]; destruct Ha as (out & Hm & _ & Hu).
  - change (encodeResponse (Ok d)) with (RData d). rewrite Hm. destruct (net _ c); [exists out; by rewrite Hu|done..].
  - rewrite Hm. destruct (net _ c); [exists out; rewrite Hu; split; [done|apply DecodeResult_error]|done..].
Qed.

Lemma write_refines c f : op_name c ≠ "" →
  (∀ e st, match f e st with Ok st' => ∃ d, storeHandlers e c st = HOk st' d | Err er => storeHandlers e c st = HErr er end) →
  refines_write c (write env net c) f.
Proof.
  intros Hop Hf Hc s Ha. specialize (Hf (env (cl_step s)) (cl_store s)). unfold write, mbind, prog_bind, lift.
  destruct (f _ _) as [st'|er].
  - destruct Hf as [d Hf]. pose proof (Propose_run c s _ Hop Hc Ha Hf ltac:(done)) as Hp. cbn in Hp. destruct (net _ c); [destruct Hp as (raw & -> & ->)|rewrite Hp..]; done.
  - pose proof (Propose_run c s _ Hop Hc Ha Hf ltac:(done)) as Hp. cbn in Hp. destruct (net _ c); [destruct Hp as (raw & -> & ->)|rewrite Hp..]; done.
Qed.

Lemma read_refines {A} `{FromData A} c f : IsReadOnlyOp (op_name c) = true →
  (∀ e st, match f e st with Ok a => ∃ d, storeHandlers e c st = HOk st d ∧ from_data d = Some a | Err er => storeHandlers e c st = HErr er end) →
  refines_read c (read env net c) f.
Proof.
  intros Hro Hf Hc s Ha. specialize (Hf (env (cl_step s)) (cl_store s)). unfold read, mbind, prog_bind, lift.
  destruct (f _ _) as [a|er].
  - destruct Hf as (d & Hf & Hd). pose proof (Read_run c s _ Hro Hc Ha Hf ltac:(done)) as Hp. cbn in Hp.
    destruct (net _ c); [destruct Hp as (raw & -> & ->)|rewrite Hp..]; try done. unfold unmarshal. by rewrite Hd.
  - pose proof (Read_run c s _ Hro Hc Ha Hf ltac:(done)) as Hp. cbn in Hp. destruct (net _ c); [destruct Hp as (raw & -> & ->)|rewrite Hp..]; done.
Qed.

Ltac refines :=
  intros; first [apply write_refines; [done|] | apply read_refines; [done|]]; intros e st; cbn; autounfold with raft;
  unfold mbind, res_bind, fmap, res_fmap; repeat case_match; simplify_eq; eauto.

(** A cluster's repositories refine the memory repositories: where JSON keeps a
    command and its answer, each method of each of them behaves on the
    replicated store as the method of the memory repository does on its table,
    whatever the network does with the call.
    Three differ in what they call: saving a PKI role also requires its CA, a
    policy without identifier gets one from the replica that applies it, and an
    audit entry is chained anew. *)
Theorem raft_repositories_refine :
  (∀ ca, refines_write (OpCASave ca) (Raft_CA_Save env net ca) (λ _ st, set_CA st <$> CARepository_Save (st_CA st) ca)) ∧
  (∀ id, refines_read (OpCAGetByID id) (Raft_CA_GetByID env net id) (λ _ st, CARepository_GetByID (st_CA st) id)) ∧
  (∀ name, refines_read (OpCAGetByName name) (Raft_CA_GetByName env net name) (λ _ st, CARepository_GetByName (st_CA st) name)) ∧
  (refines_read (OpCAList) (Raft_CA_List env net) (λ _ st, Ok (CARepository_List (st_CA st)))) ∧
  (∀ sv, refines_write (OpSecretSaveVersion sv) (Raft_Secret_SaveVersion env net sv) (λ _ st, set_Secret st <$> SaveVersion (st_Secret st) sv)) ∧
  (∀ p v k, refines_write (OpSecretUpdateDEKEnc p v k) (Raft_Secret_UpdateDEKEnc env net p v k) (λ _ st, set_Secret st <$> UpdateDEKEnc (st_Secret st) p v k)) ∧
  (∀ p v, refines_write (OpSecretDestroyVer p v) (Raft_Secret_DestroyVersion env net p v) (λ _ st, set_Secret st <$> DestroyVersion (st_Secret st) p v)) ∧
  (∀ p, refines_read (OpSecretGetLatest p) (Raft_Secret_GetLatest env net p) (λ _ st, GetLatest (st_Secret st) p)) ∧
  (∀ p v, refines_read (OpSecretGetVersion p v) (Raft_Secret_GetVersion env net p v) (λ _ st, GetVersion (st_Secret st) p v)) ∧
  (∀ p, refines_read (OpSecretListByPath p) (Raft_Secret_ListByPath env net p) (λ _ st, Ok (ListByPath (st_Secret st) p))) ∧
  (∀ p, refines_read (OpSecretNextVersion p) (Raft_Secret_NextVersion env net p) (λ _ st, Ok (NextVersion (st_Secret st) p))) ∧
  (∀ role, refines_write (OpPKIRoleSave role) (Raft_PKIRole_Save env net role) (λ _ st, _ ← CARepository_GetByName (st_CA st) (pr_CAName role); set_PKIRole st <$> PKIRoleRepository_Save (st_PKIRole st) role)) ∧
  (∀ name, refines_read (OpPKIRoleGet name) (Raft_PKIRole_Get env net name) (λ _ st, PKIRoleRepository_Get (st_PKIRole st) name)) ∧
  (refines_read (OpPKIRoleList) (Raft_PKIRole_List env net) (λ _ st, Ok (PKIRoleRepository_List (st_PKIRole st)))) ∧
  (∀ entry, refines_write (OpAuditAppend entry) (Raft_Audit_Append env net entry) (λ e st, (λ x, set_Audit st x.1) <$> handleAuditAppend (env_now e) (st_Audit st) entry)) ∧
  (refines_read (OpAuditLatestHash) (Raft_Audit_LatestHash env net) (λ _ st, Ok (AuditRepository_LatestHash (st_Audit st)))) ∧
  (∀ cert, refines_write (RaftStore.OpRevoke cert) (Raft_Revocation_Revoke env net cert) (λ _ st, Ok (set_Revoke st (RevocationRepository_Revoke (st_Revoke st) cert)))) ∧
  (∀ serial, refines_read (OpRevokeIs serial) (Raft_Revocation_IsRevoked env net serial) (λ _ st, Ok (RevocationRepository_IsRevoked (st_Revoke st) serial))) ∧
  (∀ ca, refines_read (OpRevokeListByCA ca) (Raft_Revocation_ListByCA env net ca) (λ _ st, Ok (RevocationRepository_ListByCA (st_Revoke st) ca))) ∧
  (∀ lease, refines_write (OpLeaseSave lease) (Raft_Lease_Save env net lease) (λ _ st, set_Lease st <$> LeaseRepository_Save (st_Lease st) lease)) ∧
  (∀ id, refines_read (OpLeaseGet id) (Raft_Lease_Get env net id) (λ _ st, LeaseRepository_Get (st_Lease st) id)) ∧
  (refines_read (OpLeaseList) (Raft_Lease_List env net) (λ _ st, Ok (LeaseRepository_List (st_Lease st)))) ∧
  (∀ b n, refines_read (OpLeaseListExpired b n) (Raft_Lease_ListExpired env net b n) (λ _ st, Ok (LeaseRepository_ListExpired (st_Lease st) b n))) ∧
  (∀ id at_, refines_write (OpLeaseRevoke id at_) (Raft_Lease_Revoke env net id at_) (λ _ st, set_Lease st <$> LeaseRepository_Revoke (st_Lease st) id at_)) ∧
  (refines_read (OpLeaseCountActive) (Raft_Lease_CountActive env net) (λ e st, Ok (LeaseRepository_CountActive (st_Lease st) (env_now e)))) ∧
  (∀ p, refines_write (OpPolicySave p) (Raft_Policy_Save env net p) (λ e st, (λ x, set_Policy st x.1) <$> PolicyRepository_Save (env_uuid e 0) (st_Policy st) p)) ∧
  (∀ name, refines_read (OpPolicyGet name) (Raft_Policy_GetByName env net name) (λ _ st, PolicyRepository_GetByName (st_Policy st) name)) ∧
  (refines_read (OpPolicyList) (Raft_Policy_List env net) (λ _ st, Ok (PolicyRepository_List (st_Policy st)))) ∧
  (∀ name, refines_write (OpPolicyDelete name) (Raft_Policy_Delete env net name) (λ _ st, set_Policy st <$> PolicyRepository_Delete (st_Policy st) name)) ∧
  (∀ role, refines_write (OpRoleSave role) (Raft_Role_Save env net role) (λ _ st, set_Role st <$> RoleRepository_Save (st_Role st) role)) ∧
  (∀ name, refines_read (OpRoleGet name) (Raft_Role_Get env net name) (λ _ st, RoleRepository_Get (st_Role st) name)) ∧
  (refines_read (OpRoleList) (Raft_Role_List env net) (λ _ st, Ok (RoleRepository_List (st_Role st)))) ∧
  (∀ name, refines_write (OpRoleDelete name) (Raft_Role_Delete env net name) (λ _ st, set_Role st <$> RoleRepository_Delete (st_Role st) name)) ∧
  (∀ role, refines_write (OpDBRoleSave role) (Raft_DatabaseRole_Save env net role) (λ _ st, set_DBRole st <$> DatabaseRoleRepository_Save (st_DBRole st) role)) ∧
  (∀ name, refines_read (OpDBRoleGet name) (Raft_DatabaseRole_Get env net name) (λ _ st, DatabaseRoleRepository_Get (st_DBRole st) name)) ∧
  (refines_read (OpDBRoleList) (Raft_DatabaseRole_List env net) (λ _ st, Ok (DatabaseRoleRepository_List (st_DBRole st)))) ∧
  (∀ name, refines_write (OpDBRoleDelete name) (Raft_DatabaseRole_Delete env net name) (λ _ st, set_DBRole st <$> DatabaseRoleRepository_Delete (st_DBRole st) name)) ∧
  (∀ role, refines_write (OpSSHRoleSave role) (Raft_SSHRole_Save env net role) (λ _ st, set_SSHRole st <$> SSHRoleRepository_Save (st_SSHRole st) role)) ∧
  (∀ name, refines_read (OpSSHRoleGet name) (Raft_SSHRole_Get env net name) (λ _ st, SSHRoleRepository_Get (st_SSHRole st) name)) ∧
  (refines_read (OpSSHRoleList) (Raft_SSHRole_List env net) (λ _ st, Ok (SSHRoleRepository_List (st_SSHRole st)))) ∧
  (∀ name, refines_write (OpSSHRoleDelete name) (Raft_SSHRole_Delete env net name) (λ _ st, set_SSHRole st <$> SSHRoleRepository_Delete (st_SSHRole st) name)) ∧
  (∀ cert, refines_write (OpIssuedSave cert) (Raft_IssuedCert_Save env net cert) (λ _ st, set_IssuedCert st <$> IssuedCertRepository_Save (st_IssuedCert st) cert)) ∧
  (∀ ca serial, refines_read (OpIssuedGetBySerial ca serial) (Raft_IssuedCert_GetBySerial env net ca serial) (λ _ st, IssuedCertRepository_GetBySerial (st_IssuedCert st) ca serial)) ∧
  (refines_read (OpIssuedList) (Raft_IssuedCert_List env net) (λ _ st, Ok (IssuedCertRepository_List (st_IssuedCert st)))) ∧
  (∀ b n, refines_read (OpIssuedListExpiring b n) (Raft_IssuedCert_ListExpiring env net b n) (λ _ st, Ok (IssuedCertRepository_ListExpiring (st_IssuedCert st) b n))) ∧
  (∀ id, refines_write (OpMachineIdentitySave id) (Raft_MachineIdentity_Save env net id) (λ _ st, set_MachineIdentity st <$> MachineIdentityRepository_Save (st_MachineIdentity st) id)) ∧
  (∀ id, refines_read (OpMachineIdentityGet id) (Raft_MachineIdentity_Get env net id) (λ _ st, MachineIdentityRepository_Get (st_MachineIdentity st) id)) ∧
  (refines_read (OpMachineIdentityList) (Raft_MachineIdentity_List env net) (λ _ st, Ok (MachineIdentityRepository_List (st_MachineIdentity st)))) ∧
  (∀ id, refines_write (OpMachineIdentityRevoke id) (Raft_MachineIdentity_Revoke env net id) (λ _ st, set_MachineIdentity st <$> MachineIdentityRepository_Revoke (st_MachineIdentity st) id)) ∧
  (∀ p, refines_write (OpRotationPolicySave p) (Raft_RotationPolicy_Save env net p) (λ _ st, set_RotationPolicy st <$> RotationPolicyRepository_Save (st_RotationPolicy st) p)) ∧
  (∀ path, refines_read (OpRotationPolicyGet path) (Raft_RotationPolicy_Get env net path) (λ _ st, RotationPolicyRepository_Get (st_RotationPolicy st) path)) ∧
  (refines_read (OpRotationPolicyList) (Raft_RotationPolicy_List env net) (λ _ st, Ok (RotationPolicyRepository_List (st_RotationPolicy st)))) ∧
  (∀ path, refines_write (OpRotationPolicyDelete path) (Raft_RotationPolicy_Delete env net path) (λ _ st, set_RotationPolicy st <$> RotationPolicyRepository_Delete (st_RotationPolicy st) path)) ∧
  (∀ t, refines_write (OpTokenSave t) (Raft_Token_Save env net t) (λ _ st, set_Token st <$> TokenRepository_Save (st_Token st) t)) ∧
  (∀ id, refines_read (OpTokenGet id) (Raft_Token_Get env net id) (λ _ st, TokenRepository_Get (st_Token st) id)) ∧
  (∀ id at_, refines_write (OpTokenRevoke id at_) (Raft_Token_Revoke env net id at_) (λ _ st, set_Token st <$> TokenRepository_Revoke (st_Token st) id at_)) ∧
  (refines_read (OpTokenList) (Raft_Token_List env net) (λ _ st, Ok (TokenRepository_List (st_Token st)))) ∧
  (∀ b n, refines_read (OpTokenListExpired b n) (Raft_Token_ListExpired env net b n) (λ _ st, Ok (TokenRepository_ListExpired (st_Token st) b n))) ∧
  (∀ opts s es, carried (OpAuditList opts) → answer_carried (OpAuditList opts) s → AuditRepository_List (st_Audit (cl_store s)) opts = Some es →
     Raft_Audit_List env net opts s = (s, match net (cl_step s) (OpAuditList opts) with Delivered => Ok es | Unsent e | ReplyLost e => Err e end)) ∧
  (∀ sv cas n s, carried (OpSecretPut sv cas n) → answer_carried (OpSecretPut sv cas n) s → let x := PutAtomic (st_Secret (cl_store s)) sv cas n in
     let after := mkCluster (match x with Ok (r, _) => set_Secret (cl_store s) r | Err _ => cl_store s end) (S (cl_step s)) in
     Raft_Secret_PutAtomic env net sv cas n s =
       match net (cl_step s) (OpSecretPut sv cas n) with
       | Delivered => (after, match x with Ok (_, v) => Ok v | Err e => Err (flatten_error e) end)
       | Unsent e => (mkCluster (cl_store s) (S (cl_step s)), Err e)
       | ReplyLost e => (after, Err e)
       end).
Proof.
  split_and!; try (by refines).
  - intros role. apply write_refines; [done|]. intros e st. cbn. unfold handlePKIRoleSave. destruct (CARepository_GetByName _ _); [|done]. cbn.
    destruct (PKIRoleRepository_Save (st_PKIRole st) role) as [r|er] eqn:Es; [|done]. apply keyed_Save_ok in Es as (stored & Hv & _). cbn in Hv. rewrite Hv. by eexists.
  - intros opts s es Hc Ha Hl. assert (Hh : storeHandlers (env (cl_step s)) (OpAuditList opts) (cl_store s) = HOk (cl_store s) (DEntries es)).
    { cbn. unfold handleAuditList. by rewrite Hl. }
    pose proof (Read_run (OpAuditList opts) s _ eq_refl Hc Ha Hh ltac:(done)) as Hp. cbn in Hp. unfold Raft_Audit_List, read, mbind, prog_bind, lift.
    destruct (net _ _); [destruct Hp as (raw & -> & ->)|rewrite Hp..]; done.
  - intros sv cas n s Hc Ha. cbn zeta. unfold Raft_Secret_PutAtomic, mbind, prog_bind, lift.
    assert (Hh := Propose_run (OpSecretPut sv cas n) s _ ltac:(done) Hc Ha eq_refl). cbn [storeHandlers] in Hh. unfold handleSecretPut in Hh.
    destruct (PutAtomic _ _ _ _) as [[r v]|e]; specialize (Hh ltac:(done)); cbn in Hh;
      (destruct (net _ _); [destruct Hh as (raw & -> & ->)|rewrite Hh..]); done.
Qed.
End refinement.

(** ** Tokens of a cluster *)

(** Text of ASCII characters, as the hexadecimal identifiers of tokens are. *)
Definition ascii_text (s : string) : Prop := Forall (λ a, (Ascii.N_of_ascii a < 128)%N) (String.list_ascii_of_string s).

(** What the cluster relies on of JSON: an operation arrives under its name, ASCII
    text and truth values arrive as they were sent, and a failure as a failure.
    The other text of a token may change on the way. *)
Class WireLaws `{Wire} := {
  wire_op : ∀ c raw c', encodeCommand c = Ok raw → decodeCommand raw = Ok c' → op_name c' = op_name c;
  wire_token_save : ∀ t raw c', ascii_text (ct_ID t) → encodeCommand (OpTokenSave t) = Ok raw → decodeCommand raw = Ok c' →
    ∃ t', c' = OpTokenSave t' ∧ ct_ID t' = ct_ID t ∧ ct_Revoked t' = ct_Revoked t;
  wire_token_revoke : ∀ id at_ raw c', ascii_text id → encodeCommand (OpTokenRevoke id at_) = Ok raw → decodeCommand raw = Ok c' →
    ∃ at', c' = OpTokenRevoke id at';
  wire_token_get : ∀ id raw c', ascii_text id → encodeCommand (OpTokenGet id) = Ok raw → decodeCommand raw = Ok c' → c' = OpTokenGet id;
  wire_error : ∀ code m raw r, marshal_response (RError code m) = Ok raw → unmarshal_response raw = Ok r → ∃ m', r = RError code m';
  wire_token : ∀ t raw r, ascii_text (ct_ID t) → marshal_response (RData (DToken t)) = Ok raw → unmarshal_response raw = Ok r →
    ∃ t', r = RData (DToken t') ∧ ct_ID t' = ct_ID t ∧ ct_Revoked t' = ct_Revoked t;
}.

(** Identifiers of tokens are hexadecimal. *)
Class HexHash `{TokenCodec} := hash_text : ∀ token, ascii_text (sha256_hex_string token).

(** The commands that leave the token table as it is. *)
Definition tokens_untouched (c : Command) : Prop :=
  op_name c ≠ "token.save" ∧ op_name c ≠ "token.revoke" ∧ op_name c ≠ "snapshot.import".

(** The replicated token table, the cache of each node, and the renewals that read
    a record on their node and did not save it yet. *)
Record System := mkSystem {
  sy_cluster : Cluster;
  sy_caches : gmap nat (gmap string ClientToken);
  sy_renewals : list (nat * ClientToken);
}.

(** What happens in a cluster: a request on the token store of one node, the two
    halves of a renewal, or any other command through the log. *)
Inductive sys_op :=
  | SToken (node : nat) (op : token_op)
  | SRenewRead (node : nat) (token : string) (increment : Duration) (now1 now2 : Time)
  | SRenewSave (k : nat)
  | SCommand (c : Command).

(** The identifier has no record that is not revoked, and records are kept under
    their identifier. *)
Definition dead_in (id : string) (m : gmap string ClientToken) : Prop :=
  map_Forall (λ i t, ct_ID t = i) m ∧ ∀ t, m !! id = Some t → ct_Revoked t = true.

Lemma dead_insert id t m : (ct_ID t = id → ct_Revoked t = true) → dead_in id m → dead_in id (<[ct_ID t := t]> m).
Proof.
  intros Ht [Hw Hd]. split; [by apply map_Forall_insert_2|]. intros t' Hl. destruct (decide (ct_ID t = id)) as [<-|Hne].
  - rewrite lookup_insert_eq in Hl. injection Hl as <-. by apply Ht.
  - rewrite lookup_insert_ne in Hl by done. by apply Hd.
Qed.

Lemma revoke_in_wf id at_ m : map_Forall (λ i t, ct_ID t = i) m → map_Forall (λ i t, ct_ID t = i) (revoke_in m id at_).
Proof.
  intros Hw i t Hl. unfold revoke_in in Hl. destruct (decide (id = i)) as [->|Hne].
  - rewrite lookup_alter_eq in Hl. destruct (m !! i) as [t0|] eqn:E; [|done]. injection Hl as <-. exact (Hw _ _ E).
  - rewrite lookup_alter_ne in Hl by done. exact (Hw _ _ Hl).
Qed.

Lemma revoked_dead id at_ m : map_Forall (λ i t, ct_ID t = i) m → dead_in id (revoke_in m id at_).
Proof.
  intros Hw. split; [by apply revoke_in_wf|]. intros t. unfold revoke_in. rewrite lookup_alter_eq.
  destruct (m !! id); [|done]. by intros [= <-].
Qed.

Lemma dead_revoke id id' at_ m : dead_in id m → dead_in id (revoke_in m id' at_).
Proof.
  intros [Hw Hd]. destruct (decide (id' = id)) as [->|Hne]; [by apply revoked_dead|]. split; [by apply revoke_in_wf|].
  intros t. unfold revoke_in. rewrite lookup_alter_ne by done. apply Hd.
Qed.

Lemma token_save_table r t m : TokenRepository_Save r t = Ok m → m = <[ct_ID t := t]> r.
Proof. intros E. refine (tr_Save_ok (R := gmap string ClientToken) r t m _). cbn. by rewrite E. Qed.
Lemma token_get_table r id t : TokenRepository_Get r id = Ok t → r !! id = Some t.
Proof. exact (tr_Get_ok (R := gmap string ClientToken) r id t). Qed.
Lemma token_revoke_table r id at_ m : TokenRepository_Revoke r id at_ = Ok m → m = revoke_in r id at_.
Proof. intros E. refine (proj2 (tr_Revoke_ok (R := gmap string ClientToken) r id at_ m _)). cbn. by rewrite E. Qed.

Section tokens.
Context `{WL : WireLaws} `{UrlParser} `{Digest} {codec : TokenCodec} {hex : HexHash} (env : nat → Env) (net : nat → Command → delivery) (ttl : Duration).

#[local] Instance cluster_tokens : TokenRepo Cluster := {|
  tr_Save r t := Raft_Token_Save env net t r;
  tr_Get r id := (Raft_Token_Get env net id r).2;
  tr_Revoke r id at_ := Raft_Token_Revoke env net id at_ r;
  tr_view r := st_Token (cl_store r);
|}.
Abbreviation table s := (st_Token (cl_store s)).

(** A write leaves the table, or replaces it by that of the store after the
    command a replica decoded; when it succeeds, by the latter. *)
Lemma write_table c s s' x : write env net c s = (s', x) →
  (table s' = table s ∧ x ≠ Ok tt) ∨
  ∃ raw c' st r, encodeCommand c = Ok raw ∧ decodeCommand raw = Ok c' ∧ Update (env (cl_step s)) (cl_store s) c' = Some (Ok (st, r)) ∧
    table s' = st_Token st ∧ (x = Ok tt → ∃ out r' d, marshal_response r = Ok out ∧ unmarshal_response out = Ok r' ∧ DecodeResult r' = Ok d).
Proof.
  unfold write, mbind, prog_bind, lift, Propose, applied. intros Hw.
  destruct (encodeCommand c) as [raw|e] eqn:Ee; [|simplify_eq; by left].
  destruct (decodeCommand raw) as [c'|e] eqn:Ed; [|cbn in Hw; destruct (net _ c); simplify_eq; by left].
  destruct (Update _ _ c') as [[[st r]|e]|] eqn:Eu; [|cbn in Hw; destruct (net _ c); simplify_eq; by left..].
  destruct (net _ c) as [|e|e]; cbn in Hw; [|simplify_eq; by left|].
  - right. exists raw, c', st, r. split_and!; try done.
    + destruct (marshal_response r) as [out|e]; cbn in Hw; [|by simplify_eq]. destruct (json_empty out); cbn in Hw; [by simplify_eq|].
      unfold mret, prog_ret in Hw. destruct (decode out); by simplify_eq.
    + intros ->. destruct (marshal_response r) as [out|e]; cbn in Hw; [|by simplify_eq]. destruct (json_empty out); cbn in Hw; [by simplify_eq|].
      destruct (decode out) as [d|e] eqn:Edc; [|by simplify_eq]. unfold decode, mbind, res_bind in Edc.
      destruct (unmarshal_response out) as [r'|e'] eqn:Er; [|done]. by exists out, r', d.
  - right. exists raw, c', st, r. split_and!; try done; by simplify_eq.
Qed.

Lemma Update_ok e st c st' r : Update e st c = Some (Ok (st', r)) →
  (∃ d, storeHandlers e c st = HOk st' d ∧ r = RData d) ∨ (st' = st ∧ ∃ code m, r = RError code m).
Proof.
  unfold Update, Handle. destruct (op_name c =s ""); [done|]. destruct (storeHandlers e c st) as [s1 d|er|]; intros [= <- <-]; [left; by eexists|].
  right. split; [done|]. cbn. destruct (errors_As er) as [[]|]; eauto.
Qed.

Lemma save_dead id t s : ascii_text (ct_ID t) → (ct_ID t = id → ct_Revoked t = true) → dead_in id (table s) → dead_in id (table (Raft_Token_Save env net t s).1).
Proof.
  intros Ha Ht Hd. unfold Raft_Token_Save. destruct (write env net (OpTokenSave t) s) as [s' x] eqn:Ew. cbn.
  apply write_table in Ew as [[-> _]|(raw & c' & st & r & He & Hc & Hu & -> & _)]; [done|].
  destruct (wire_token_save _ _ _ Ha He Hc) as (t' & -> & Hid & Hrev).
  apply Update_ok in Hu as [(d & Hh & _)|[-> _]]; [|done]. cbn in Hh. unfold handleTokenSave, put in Hh.
  destruct (TokenRepository_Save _ t') as [m|er] eqn:Es; [|done]. injection Hh as <- _. cbn.
  rewrite (token_save_table _ _ _ Es). apply dead_insert; [|done]. rewrite Hid, Hrev. exact Ht.
Qed.

Lemma revoke_table id at_ s s' x : ascii_text id → Raft_Token_Revoke env net id at_ s = (s', x) →
  (table s' = table s ∧ x ≠ Ok tt) ∨ ∃ at', table s' = revoke_in (table s) id at'.
Proof.
  intros Ha Hr. unfold Raft_Token_Revoke in Hr. apply write_table in Hr as [[-> Hx]|(raw & c' & st & r & He & Hc & Hu & -> & Hok)]; [by left|].
  destruct (wire_token_revoke _ _ _ _ Ha He Hc) as (at' & ->). apply Update_ok in Hu as [(d & Hh & _)|[-> (code & m & ->)]].
  - right. exists at'. cbn in Hh. unfold handleTokenRevoke, put in Hh. destruct (TokenRepository_Revoke _ id at') as [m|er] eqn:Es; [|done].
    injection Hh as <- _. exact (token_revoke_table _ _ _ _ Es).
  - left. split; [done|]. intros ->. destruct (Hok eq_refl) as (out & r' & d & Hm & Hun & Hdr). destruct (wire_error _ _ _ _ Hm Hun) as [m' ->]. done.
Qed.

Lemma get_record id s t : ascii_text id → map_Forall (λ i t, ct_ID t = i) (table s) → (Raft_Token_Get env net id s).2 = Ok t →
  ct_ID t = id ∧ ∃ t0, table s !! id = Some t0 ∧ ct_Revoked t = ct_Revoked t0.
Proof.
  intros Ha Hw. unfold Raft_Token_Get, read, Read, mbind, prog_bind, lift, res_bind. cbn.
  destruct (encodeCommand (OpTokenGet id)) as [q|] eqn:Ee; [|done]. destruct (decodeCommand q) as [c'|] eqn:Ed; [|done].
  rewrite (wire_token_get _ _ _ Ha Ee Ed). destruct (net _ _); [|done..].
  unfold Lookup, Handle. change (IsReadOnlyOp (op_name (OpTokenGet id))) with true. cbn [negb storeHandlers]. unfold handleTokenGet, RaftStore.get.
  destruct (TokenRepository_Get _ id) as [t0|er] eqn:Eg.
  - apply token_get_table in Eg. assert (Hid := Hw _ _ Eg). cbn in Hid.
    change (encodeResponse (Ok (DToken t0))) with (RData (DToken t0)). destruct (marshal_response (RData (DToken t0))) as [out|] eqn:Em; [|done].
    unfold decode, mbind, res_bind. destruct (unmarshal_response out) as [r|] eqn:Eu; [|done].
    destruct (wire_token t0 out r) as (t' & -> & Hi & Hr); [by rewrite Hid|done..|]. cbn. intros [= <-]. split; [by rewrite Hi|]. by exists t0.
  - assert (∃ code m, encodeResponse (Err er) = RError code m) as (code & m & ->) by (cbn; destruct (errors_As er) as [[]|]; eauto).
    destruct (marshal_response _) as [out|] eqn:Em; [|done]. unfold decode, mbind, res_bind. destruct (unmarshal_response out) as [r|] eqn:Eu; [|done].
    destruct (wire_error _ _ _ _ Em Eu) as [m' ->]. done.
Qed.

(** A store of a node over a table in which the identifier is dead, and that it
    stays so. *)
Definition buried (id : string) (s : TokenStore Cluster) : Prop := ∃ r, ts_repo s = Some r ∧ dead_in id (table r).
Definition rests (id : string) : relation (TokenStore Cluster) := λ s s', buried id s → buried id s'.
#[local] Instance rests_preorder id : PreOrder (rests id).
Proof. split; [by intros s|]. intros s1 s2 s3 H12 H23 Hs. by apply H23, H12. Qed.

Lemma rests_cache id f : always (rests id) (modify (λ s : TokenStore Cluster, set_tokens s (f (ts_tokens s)))).
Proof. intros s (r & Hr & Hd). by exists r. Qed.

Lemma rests_save id t : ascii_text (ct_ID t) → ct_ID t ≠ id → always (rests id) (save t).
Proof.
  intros Ha Hn. unfold save. apply always_bind; [apply _| |intros; apply rests_cache].
  intros s (r & Hr & Hd). unfold on_repo. rewrite Hr. cbn. destruct (Raft_Token_Save env net t r) as [r' x] eqn:E. cbn. exists r'. split; [done|].
  change r' with (r', x).1. rewrite <-E. by apply save_dead.
Qed.

Lemma rests_get id k : always (rests id) (TokenStore.get k).
Proof.
  intros s (r & Hr & Hd). unfold TokenStore.get, mbind, prog_bind, gets, modify, lift. cbn. rewrite Hr. cbn.
  destruct (Raft_Token_Get env net k r).2; cbn; by exists r.
Qed.
#[local] Hint Resolve rests_get : prog.

Lemma rests_fetch id k : always (rests id) (on_error (TokenStore.get k) (λ _, raise invalid_token)).
Proof. eauto with prog. Qed.

Lemma fetch_record id k s s' t : ascii_text k → buried id s → on_error (TokenStore.get k) (λ _, raise invalid_token) s = (s', Ok t) →
  ct_ID t = k ∧ (k = id → ct_Revoked t = true).
Proof.
  intros Hk (r & Hr & Hw & Hd). unfold on_error, TokenStore.get, mbind, prog_bind, gets, modify, lift. cbn. rewrite Hr. cbn.
  destruct (Raft_Token_Get env net k r).2 as [t'|e] eqn:E; cbn; intros [= <- <-]. apply get_record in E as (Hid & t0 & Ht0 & Hrev); [|done..].
  split; [done|]. intros ->. rewrite Hrev. by apply Hd.
Qed.

(** A renewal that read a record did not read that of a dead identifier. *)
Lemma renew_read_alive id token increment now1 now2 s s' t : buried id s → renew_read token increment now1 now2 s = (s', Ok t) →
  ct_ID t = hashToken token ∧ hashToken token ≠ id.
Proof.
  intros Hb Hr. unfold renew_read in Hr. inv_run.
  match goal with Hf : on_error _ _ _ = _ |- _ => apply (fetch_record id) in Hf as [Hid Hrev]; [|apply hash_text|done] end.
  split; [exact Hid|]. intros E. specialize (Hrev E). congruence.
Qed.

Lemma rests_renew_read id token increment now1 now2 : always (rests id) (renew_read token increment now1 now2).
Proof. unfold renew_read. eauto 20 using rests_fetch with prog. Qed.

Lemma rests_Renew id token increment now1 now2 : always (rests id) (Renew token increment now1 now2).
Proof.
  intros s Hb. unfold Renew. pose proof (rests_renew_read id token increment now1 now2 s Hb) as Hr. unfold mbind at 1, prog_bind at 1.
  destruct (renew_read token increment now1 now2 s) as [s1 [t|e]] eqn:E; [|done]. apply (renew_read_alive id) in E as [Hid Hne]; [|done].
  apply (always_bind (rests id)); [apply rests_save; rewrite Hid; [apply hash_text|done]|intros; apply always_ret|done]; apply _.
Qed.

Lemma rests_Revoke id token now : always (rests id) (Revoke token now).
Proof.
  intros s (r & Hr & Hd). unfold Revoke, on_repo, mbind, prog_bind, gets, on_error, modify. cbn. rewrite Hr. cbn. rewrite Hr. cbn.
  destruct (Raft_Token_Revoke env net (hashToken token) now r) as [r' x] eqn:E.
  assert (Hd' : dead_in id (table r')) by (apply revoke_table in E as [[-> _]|[at' ->]]; [done|by apply dead_revoke|apply hash_text]).
  destruct x as [u|e]; cbn; [by exists r'|]. destruct (errors_As e) as [[[] m]|]; cbn; by exists r'.
Qed.

Lemma rests_Authenticate id token now : always (rests id) (Authenticate token now).
Proof. unfold Authenticate. eauto 10 using rests_fetch with prog. Qed.

Lemma rests_new {A} id t s (a : A) : ascii_text (ct_ID t) → ct_ID t ≠ id → rests id s ((_ ← save t; mret a) s).1.
Proof. intros. apply (always_bind (rests id)); [by apply rests_save|intros; apply always_ret; apply _]. Qed.

Lemma rests_step id op : op_new_id op ≠ Some id → always (rests id) (token_step op).
Proof.
  destruct op; simpl; intros Hn; apply always_ignore; eauto using rests_Renew, rests_Revoke, rests_Authenticate.
  - destruct raw as [raw|e]; [|by apply (always_pure (rests id))]. intros s.
    rewrite Issue_eq, Create_eq. apply rests_new; cbn; [apply hash_text|congruence].
  - destruct raw as [raw|e]; [|by apply (always_pure (rests id))]. intros s. rewrite Create_eq. apply rests_new; cbn; [apply hash_text|congruence].
  - destruct raw as [raw|e]; [|by apply (always_pure (rests id))]. intros s. apply rests_new; cbn; [apply hash_text|congruence].
  - apply rests_save; cbn; [apply hash_text|congruence].
Qed.

(** ** Runs of the cluster *)

Definition node_store (y : System) (i : nat) : TokenStore Cluster := mkTokenStore (default ∅ (sy_caches y !! i)) (Some (sy_cluster y)) ttl.
Definition node_after (y : System) (i : nat) (s : TokenStore Cluster) : System :=
  mkSystem (default (sy_cluster y) (ts_repo s)) (<[i := ts_tokens s]> (sy_caches y)) (sy_renewals y).
Definition with_renewals (y : System) (l : list (nat * ClientToken)) : System := mkSystem (sy_cluster y) (sy_caches y) l.

Definition sys_step (y : System) (o : sys_op) : System :=
  match o with
  | SToken i op => node_after y i (token_step op (node_store y i)).1
  | SRenewRead i token increment now1 now2 =>
      let '(s, record) := renew_read token increment now1 now2 (node_store y i) in
      let y' := node_after y i s in
      match record with Ok t => with_renewals y' (sy_renewals y ++ [(i, t)]) | Err _ => y' end
  | SRenewSave k =>
      match sy_renewals y !! k with
      | Some (i, t) => with_renewals (node_after y i (save t (node_store y i)).1) (delete k (sy_renewals y))
      | None => y
      end
  | SCommand c => mkSystem (write env net c (sy_cluster y)).1 (sy_caches y) (sy_renewals y)
  end.
Definition sys_run (ops : list sys_op) (y : System) : System := foldl sys_step y ops.

Definition sys_tokens (y : System) : gmap string ClientToken := table (sy_cluster y).

(** What may follow a revocation: no request issues the identifier again, and no
    other command writes the token table. *)
Definition sys_allowed (id : string) (o : sys_op) : Prop :=
  match o with
  | SToken _ op => op_new_id op ≠ Some id
  | SCommand c => tokens_untouched c
  | SRenewRead _ _ _ _ _ | SRenewSave _ => True
  end.

(** No renewal under way is of the identifier. *)
Definition not_in_flight (id : string) (y : System) : Prop :=
  Forall (λ x, ascii_text (ct_ID x.2) ∧ ct_ID x.2 ≠ id) (sy_renewals y).

Definition dead (id : string) (y : System) : Prop := dead_in id (sys_tokens y) ∧ not_in_flight id y.

Lemma untouched_handler e c st st' d : tokens_untouched c → storeHandlers e c st = HOk st' d → st_Token st' = st_Token st.
Proof. intros (H1' & H2' & H3') Hh. destruct c; cbn in Hh; try done; autounfold with raft in Hh; repeat case_match; simplify_eq; done. Qed.

Lemma write_untouched c s : tokens_untouched c → table (write env net c s).1 = table s.
Proof.
  intros Hc. destruct (write env net c s) as [s' x] eqn:E. apply write_table in E as [[E _]|(raw & c' & st & r & He & Hd & Hu & E & _)]; [done|].
  cbn. rewrite E. apply Update_ok in Hu as [(d & Hh & _)|[-> _]]; [|done]. eapply untouched_handler; [|done]. unfold tokens_untouched.
  by rewrite (wire_op _ _ _ He Hd).
Qed.

Lemma node_buried id y i : dead id y → buried id (node_store y i).
Proof. intros [Hd _]. by exists (sy_cluster y). Qed.

Lemma buried_node id y i s : buried id s → dead_in id (sys_tokens (node_after y i s)).
Proof. intros (r & Hr & Hd). unfold sys_tokens, node_after. cbn. by rewrite Hr. Qed.

Lemma dead_step id y o : sys_allowed id o → dead id y → dead id (sys_step y o).
Proof.
  intros Ho Hy. pose proof (λ i, node_buried id y i Hy) as Hb. destruct Hy as [Hd Hf]. destruct o as [i op|i token increment now1 now2|k|c]; cbn [sys_step].
  - split; [|exact Hf]. apply buried_node, rests_step; auto.
  - pose proof (rests_renew_read id token increment now1 now2 _ (Hb i)) as Hr.
    destruct (renew_read token increment now1 now2 (node_store y i)) as [s [t|e]] eqn:E; [|by split; [apply buried_node|]].
    apply (renew_read_alive id) in E as [Hid Hne]; [|done]. split; [exact (buried_node id y i s Hr)|].
    apply Forall_app. split; [exact Hf|]. constructor; [|done]. cbn. rewrite Hid. split; [apply hash_text|done].
  - destruct (sy_renewals y !! k) as [[i t]|] eqn:E; [|done]. destruct (Forall_lookup_1 _ _ _ _ Hf E) as [Ha Hne].
    split; [|by apply Forall_delete]. exact (buried_node id y i _ (rests_save id t Ha Hne _ (Hb i))).
  - split; [|exact Hf]. unfold sys_tokens. cbn. by rewrite write_untouched.
Qed.

Lemma dead_run id ops y : Forall (sys_allowed id) ops → dead id y → dead id (sys_run ops y).
Proof. revert y. induction ops as [|o ops IH]; intros y; [done|]. intros [Ho Hops]%Forall_cons Hd. by apply IH, dead_step. Qed.

Lemma revoked_is_dead y i token now s1 : map_Forall (λ id t, ct_ID t = id) (sys_tokens y) → not_in_flight (hashToken token) y →
  Revoke token now (node_store y i) = (s1, Ok tt) → dead (hashToken token) (node_after y i s1).
Proof.
  intros Hw Hf Hr. split; [|exact Hf]. apply buried_node. unfold Revoke, on_repo, mbind, prog_bind, gets, on_error, modify in Hr. cbn in Hr.
  destruct (Raft_Token_Revoke env net (hashToken token) now (sy_cluster y)) as [r' [u|e]] eqn:E; cbn in Hr.
  - injection Hr as <-. exists r'. split; [done|]. destruct u. apply revoke_table in E as [[_ []]|[at' ->]]; [done|by apply revoked_dead|apply hash_text].
  - destruct (errors_As e) as [[[] m]|]; discriminate Hr.
Qed.

Lemma dead_refused id y j token now' : id = hashToken token → dead id y → ¬ is_Ok (Authenticate token now' (node_store y j)).2.
Proof.
  intros -> Hd [t Ht]. destruct (Authenticate token now' _) as [s2 x] eqn:Ha. cbn in Ht. subst x. unfold Authenticate in Ha. inv_run.
  match goal with Hg : on_error _ _ _ = _ |- _ => apply (fetch_record (hashToken token)) in Hg as [_ Hrev]; [|apply hash_text|by apply node_buried] end.
  specialize (Hrev eq_refl). congruence.
Qed.

(** C7. A revocation holds on every node. Once one node got an answer to revoking a
    token, with no renewal of it under way on any node, no node authenticates or
    renews it, whatever the nodes hold in their caches, whatever the network
    does, whatever JSON makes of text that is not ASCII, and whatever follows:
    requests on tokens of any node, renewals of other tokens in two steps that
    interleave with anything, and commands of other tables. Excluded is that the
    identifier is issued again, that a root token is registered under it, and
    that a command saves a token record or imports a snapshot past the token
    stores. Assumed: the table files tokens under their identifiers, hashes are
    ASCII text, and JSON keeps ASCII text, booleans and the kind of a command and of
    an answer ([WireLaws]). *)
Theorem cluster_revocation_final y i token now s1 ops : map_Forall (λ id t, ct_ID t = id) (sys_tokens y) → not_in_flight (hashToken token) y →
  Revoke token now (node_store y i) = (s1, Ok tt) → Forall (sys_allowed (hashToken token)) ops →
  let y' := sys_run ops (node_after y i s1) in
  ∀ j, (∀ now', ¬ is_Ok (Authenticate token now' (node_store y' j)).2) ∧
       (∀ increment now1 now2, ¬ is_Ok (renew_read token increment now1 now2 (node_store y' j)).2).
Proof.
  intros Hw Hf Hr Hops y' j. assert (Hd : dead (hashToken token) y') by (apply dead_run; [done|by eapply revoked_is_dead]). split.
  - intros now'. by eapply dead_refused.
  - intros increment now1 now2 [t Ht]. destruct (renew_read token increment now1 now2 _) as [s2 x] eqn:Hrr. cbn in Ht. subst x.
    apply (renew_read_alive (hashToken token)) in Hrr as [_ Hne]; [done|by apply node_buried].
Qed.
End tokens.

(** ** Example *)

#[local] Existing Instance sample_parser'.
#[local] Existing Instance sample_digest'.

(** Identifiers as hexadecimal text of the token. *)
Definition hex_of (b : bytes) : string :=
  foldr (λ a s, let n := Ascii.N_of_ascii a in String (hex_digit (n / 16)) (String (hex_digit (n mod 16)) s)) "" b.
#[local] Instance hex_codec : TokenCodec := {| sha256_hex_string := hex_of ∘ bytes_of; RawURLEncode := string_of |}.
#[local] Instance hex_codec_text : HexHash.
Proof.
  intros token. unfold ascii_text. cbn. generalize (bytes_of token). intros b. induction b as [|x b IH]; [constructor|].
  cbn. constructor; [|constructor; [|exact IH]]; clear; destruct x as [[] [] [] [] [] [] [] []]; vm_compute; reflexivity.
Qed.

(** A wire that replaces what is not ASCII in the subject of a token. *)
Definition replaced (s : string) : string :=
  String.string_of_list_ascii ((λ a, if (Ascii.N_of_ascii a <? 128)%N then a else "?"%char) <$> String.list_ascii_of_string s).
Definition clean_token (t : ClientToken) : ClientToken :=
  mkClientToken (ct_ID t) (replaced (ct_Subject t)) (ct_Policies t) (ct_ExpiresAt t) (ct_Renewable t) (ct_Revoked t) (ct_ParentIdentityID t) (ct_AgentID t)
    (ct_AllowedActions t) (ct_PathPrefix t) (ct_MaxExpiresAt t).
#[local] Instance lossy_wire : Wire := {|
  json := Command + Response;
  json_empty _ := false;
  encodeCommand c := Ok (inl (match c with OpTokenSave t => OpTokenSave (clean_token t) | _ => c end));
  decodeCommand x := match x with inl c => Ok c | inr _ => Err (Plain "json") end;
  marshal_response r := Ok (inr r);
  unmarshal_response x := match x with inr r => Ok r | inl _ => Err (Plain "json") end;
|}.
#[local] Instance lossy_wire_laws : WireLaws.
Proof.
  split; cbn.
  - intros c raw c' [= <-] [= <-]. by destruct c.
  - intros t raw c' _ [= <-] [= <-]. by eexists.
  - intros id at_ raw c' _ [= <-] [= <-]. by eexists.
  - by intros id raw c' _ [= <-] [= <-].
  - intros code m raw r [= <-] [= <-]. by eexists.
  - intros t raw r _ [= <-] [= <-]. by eexists.
Qed.

(** The fourth proposal is applied without an answer. *)
Definition demo_env (n : nat) : Env := mkEnv (Z.of_nat n) (λ i, N.of_nat (100 + i)).
Definition demo_net (n : nat) (_ : Command) : delivery := if decide (n = 3%nat) then ReplyLost (Plain "timeout") else Delivered.

Definition demo_system : System :=
  sys_step demo_env demo_net Hour (mkSystem (mkCluster NewStore 0) ∅ []) (SToken 0 (OpCreate "ci" ["secrets-reader"] Hour true 0 demo_raw 1000)).
Definition demo_traffic : list sys_op :=
  [SToken 2 (TokenStore.OpAuthenticate demo_token 2000); SRenewRead 0 demo_token Hour 2000 2001; SCommand (OpLeaseSave (sample_lease "l1" 50));
   SRenewSave 0; SToken 1 (TokenStore.OpRevoke demo_token 3000)].
#[local] Strategy 1000 [demo_system sys_run].

Lemma cluster_revocation_final_witness : ∃ s1,
  is_ok (Authenticate (H := cluster_tokens demo_env demo_net) demo_token 1500 (node_store Hour demo_system 2)).2 = true ∧
  Revoke (H := cluster_tokens demo_env demo_net) demo_token 1500 (node_store Hour demo_system 1) = (s1, Ok tt) ∧
  ¬ is_Ok (Authenticate (H := cluster_tokens demo_env demo_net) demo_token 4000
             (node_store Hour (sys_run demo_env demo_net Hour demo_traffic (node_after demo_system 1 s1)) 2)).2.
Proof.
  eexists. split; [vm_compute; reflexivity|]. split; [apply run_eq; vm_compute; reflexivity|].
  refine (proj1 (cluster_revocation_final demo_env demo_net Hour demo_system 1 demo_token 1500 _ demo_traffic _ _ _ _ 2%nat) 4000).
  - apply (bool_decide_unpack _). vm_compute. reflexivity.
  - constructor.
  - apply run_eq. vm_compute. reflexivity.
  - repeat constructor; discriminate.
Defined.

(** A renewal under way on another node undoes the revocation when it saves the
    record it read before. *)
Example renewal_in_flight_undoes :
  let y := sys_run demo_env (λ _ _, Delivered) Hour [SRenewRead 0 demo_token Hour 2000 2001; SToken 1 (TokenStore.OpRevoke demo_token 3000)] demo_system in
  let y' := sys_step demo_env (λ _ _, Delivered) Hour y (SRenewSave 0) in
  is_ok (Authenticate (H := cluster_tokens demo_env (λ _ _, Delivered)) demo_token 4000 (node_store Hour y 2)).2 = false ∧
  is_ok (Authenticate (H := cluster_tokens demo_env (λ _ _, Delivered)) demo_token 4000 (node_store Hour y' 2)).2 = true.
Proof. split; vm_compute; reflexivity. Qed.
